(* ===== verification/_CoqProject ===== *)
-Q . S2P
Prelude.v
Result.v
Log.v
Process.v
Checked.v
StdMap.v
Hash.v
Rfc8439.v
Random.v
Ids.v
Text.v
Codec.v
Lifecycle.v
Policy.v
Files.v
Journal.v
Snapshot.v
Artifact.v
ArtifactStore.v
Endpoint.v
Plan.v
FaultPlan.v
AgentFiles.v
AgentPaths.v
Frame.v
Records.v
Messages.v
Protocol.v
Reconciliation.v
State.v
Convergence.v
Store.v
Recovery.v
Offline.v
Agent.v
AgentStart.v
AgentExample.v
AgentEffects.v
AgentLogic.v
AgentInv.v
AgentHandlers.v
AgentCommit.v
AgentSpec.v
AgentWp.v
AgentAnswers.v
AgentRestart.v
AgentReport.v
AgentProgress.v
AgentDelivery.v
Effects.v
Transport.v
Distributor.v
DistributorControl.v
Control.v
ControlLine.v
DistributorExample.v
DistributorLogic.v
DistributorWorkers.v
ControlLogic.v
DistributorHandshake.v
DistributorSchedule.v
DistributorTransfer.v
DistributorSpec.v
ControlSpec.v
AgentMain.v
CommandLine.v
Cfctl.v
