(* ===== verification/Prelude.v ===== *)
(** * Configuration Fabric: a verification development

    Configuration Fabric distributes configuration artifacts to network targets
    and keeps evidence of what every target activated. A controller
    (src/src/distributor.cpp) and one agent per target (src/src/agent.cpp) talk
    over a framed TCP protocol; each keeps its authority in a durable store: a
    journal of records and a two-slot snapshot. This development is a shallow
    embedding of that program in Rocq: pure code is a function, fallible code
    returns a [Result], file operations pass an explicit file system, and every
    operation that a crash can interrupt takes the outcome of its writes as an
    argument, so that theorems quantify over all crash points.

    ** Files and the code they model

    - Prelude.v: machine integers, bytes, decimal text, automation (no code of
      the program).
    - Result.v: include/cf/result.hpp, src/result.cpp, contract.hpp. [Result A]
      is [Ok], [Fail] with an [Error], or [Abort] for the process end a failed
      contract causes.
    - Checked.v: include/cf/checked.hpp (checked arithmetic at its width).
    - Log.v: log.hpp, src/log.cpp (levels and the line a record becomes).
    - Process.v: process.hpp, src/process.cpp (quoting of arguments, the life of
      a child process).
    - StdMap.v: std::map as a sorted association list, with the operations the
      program uses; iteration order matters, since snapshots write maps in order.
    - Hash.v: include/cf/hash.hpp, src/hash.cpp (SHA-256, HMAC, CRC-32C, hex).
    - Random.v: rng.hpp, src/rng.cpp (xoshiro256**, bounded draws, ChaCha20 and
      the expansion of entropy). Rfc8439.v is no code of the program: it is the
      ChaCha20 of RFC 8439, written from the RFC, that Random.v is compared with.
    - Ids.v: ids.hpp, digest.hpp, strong.hpp, src/ids.cpp (identifiers, strong
      numbers, classes, guarantees, derived identities).
    - Codec.v: codec.hpp, src/codec.cpp ([ByteWriter] as a writer of byte lists,
      [ByteReader] as a parser), and the interface [Wire]: what the writer and
      the reader of one value promise each other.
    - Lifecycle.v, Policy.v: lifecycle.cpp, policy.cpp (transition table,
      backoff, the decision function).
    - Files.v: readFileBounded and writeFileAtomic of src/codec.cpp over a file
      system, with every fault and crash point.
    - Journal.v, Snapshot.v: src/journal.cpp (record format, recovery scan,
      append, segment restart, open; the two-slot snapshot file). A scan that
      meets a torn payload closes its stream and goes on to use it: such a scan
      ends in [Abort], and the argument [ClosedStream] says at which of the two
      uses.
    - Artifact.v, ArtifactStore.v: artifact.hpp, src/artifact.cpp. Artifact.v has
      the metadata codec; ArtifactStore.v the store: its sorted index, ingestion,
      publication, the verifying reader, verification with quarantine, garbage
      collection and opening. Its operations do not overlap in the model.
    - Endpoint.v: endpoint parsing of src/transport.cpp.
    - Plan.v: plan.hpp, src/plan.cpp (the deployment plan's text format).
    - Frame.v: frame.hpp, src/frame.cpp, and FramedConnection::receive of
      src/transport.cpp over the results of its socket reads.
    - Records.v, State.v: state.hpp, src/state.cpp (record codecs, controller and
      agent state, journal application, snapshots, queries). Application reads a
      payload field by field and assigns while it reads, so a refused record may
      leave a partial change: the state is threaded through failures.
    - Convergence.v: convergence.hpp, src/convergence.cpp (what the deliveries of
      a controller state say about every target lineage and the fabric).
    - Store.v: include/cf/store.hpp. The template parameters State and Codec are
      the class [StateCodec]; [StoreLaws] is what a codec promises the store, and
      State.v discharges it for the controller and for the agent.
    - Recovery.v: the specification of the durable store and its proofs: after
      a [history] of opens, commits, refusals, compactions and crashes, opening
      the directory gives the state of the recorded changes. The comment at
      [history] says which runs it leaves out: those in which a process goes on
      after a failed append, and an end of the process between the truncation of
      the journal and its segment record.
    - Offline.v: the readers of src/state.cpp that do not open the store, and
      what they give compared with opening it.
    - Text.v: lengths and digits of rendered numbers and identifiers.
    - Messages.v, Protocol.v: protocol.hpp, src/protocol.cpp (every message with
      its encoder and decoder, capabilities, the authentication tags).
    - Reconciliation.v: reconciliation.hpp, src/reconciliation.cpp (what the
      controller concludes from a target's report).
    - FaultPlan.v, AgentFiles.v, AgentPaths.v: the fault plan, the live-area
      files (staging, pointers, payloads) and the path arithmetic of
      src/agent.cpp.
    - Agent.v, AgentStart.v: [TargetAgent] of agent.hpp and src/agent.cpp. An
      operation is a function of a [World] (file system, durable store, frames
      received and sent, counters) in a state and error monad; the answers of
      the operating system are an [Env], a function of the number of calls made
      so far, so that theorems quantify over all of them. Agent.v has the
      handshake, the handlers, activation and the session loop; AgentStart.v has
      the recovery of the live area and [TargetAgent::open].
    - AgentExample.v: a small agent, its environment and one delivery, for the
      witnesses.
    - AgentEffects.v, AgentLogic.v, AgentInv.v, AgentHandlers.v, AgentCommit.v,
      AgentWp.v: the program logic of the agent: which operation changes which
      part of the world, the invariant [inv] of the agent and that every handler
      keeps it, and a weakest-precondition calculus for exact results.
    - AgentSpec.v, AgentAnswers.v, AgentReport.v, AgentProgress.v,
      AgentDelivery.v: the abstract target and the theorems about the agent.
    - AgentRestart.v: what the recovery of the live area leaves when an agent
      starts.
    - AgentMain.v: the accept loop of apps/agent_main.cpp: an agent process over
      any sequence of connections.
    - Effects.v: a state and error monad over any state, with its triples; the
      distributor is written in it.
    - Transport.v: the socket layer of transport.hpp, src/transport.cpp over the
      answers of the system calls: waiting with a deadline and a cancellation,
      reading, writing, accepting, binding and dialling.
    - Distributor.v, DistributorControl.v: [Distributor] of distributor.hpp and
      src/distributor.cpp. Distributor.v has the authority taken when it opens,
      the state helpers, the scheduler and the session with a target;
      DistributorControl.v the operations of the control surface. A [World] is
      what the threads share (file system, durable store, artifact store, claims,
      times of the last attempts, verification requests) and what one thread
      holds (its connection). An operation is the sequence of steps of one
      thread: what other threads did before a region of the state mutex is the
      answer [env_others] to the [lock] that opens it, so that a theorem holds for
      every interleaving its hypotheses on that answer allow.
    - DistributorExample.v: a distributor with one planned delivery, and its
      conversation with the agent of AgentExample.v: each program is run on the
      frames the other sent.
    - DistributorLogic.v, DistributorWorkers.v: the invariant of the controller
      state while threads run - what is claimed rests on evidence - and that every
      operation keeps it as long as the other threads do.
    - DistributorSchedule.v, DistributorHandshake.v, DistributorTransfer.v,
      DistributorSpec.v: the theorems about the distributor.
    - Control.v: control.hpp, src/control.cpp: the control line and its parser,
      the commands, the connection that serves them - an operation of a thread
      of the distributor like any other - and the client. ControlLine.v,
      ControlLogic.v and ControlSpec.v have the theorems about them.
    - CommandLine.v: the argument parsers of apps/controller_main.cpp and
      apps/agent_main.cpp, the shared secret, and the options each program opens
      its part with.
    - Cfctl.v: apps/cfctl_main.cpp, online (the client of Control.v) and offline
      (the reader of Offline.v).

    ** What the theorems show

    - Durability (Recovery.v, Journal.v, Snapshot.v, Files.v): a change whose
      commit reported success survives every crash of a [history]; a crash during
      a commit leaves the state before or after it; a compaction keeps the state
      or, when it fails in one window, a directory that does not open; damage
      inside a record is detected and never silently dropped; a snapshot write
      never loses the previous one. A record torn inside its payload ends the
      process that scans it. [failed_commit_diverges] and
      [truncated_journal_never_opens] state what the code does outside the
      histories, for every store and record; the examples
      [commit_after_failure_loses_store] and [length_damage_truncates], and
      [append_after_failure_corrupts] and [writeFileAtomic_can_lose], run further
      cases in which it does not keep its promise.
    - Artifacts (ArtifactStore.v): through every sequence of operations the index
      stays sorted, its byte count exact and its budgets kept; ingested content,
      from memory or from a file, reads back and verifies; verification accepts
      exactly the payloads that begin with the declared bytes (and no empty one)
      and takes every other out of service; ingesting one artifact leaves the
      others alone. The section "Behaviours worth knowing" runs the cases in which
      the store does not do what it promises, among them two publications that
      overlap.
    - Plans and summaries (Plan.v, Convergence.v): an accepted plan is well
      formed, each of its instructions comes from a block of the text with every
      mandatory directive, none repeated, and its printed form reads back; the
      convergence report covers every lineage once and calls the fabric
      converged exactly when every newest delivery is acknowledged; a transfer
      is never resumed.
    - Transport (Frame.v, Transport.v): framing round trips, does not depend on
      how the stream is cut into reads, hands messages over in order, and detects
      damage; a write sends every byte once and in order or fails; the socket
      calls end by their deadline.
    - Inspection (Offline.v, Cfctl.v): what is read without opening a store is
      the state opening it gives; offline commands answer what a controller with
      that state answers and change no file but in the artifact store they are
      told to verify. [headless_journal_reads_empty] and
      [offline_verify_quarantines] show where inspection is not what it is
      documented to be.
    - Randomness and text (Random.v, Log.v, Process.v): the keystream is that of
      RFC 8439 (Rfc8439.v) however it is read, bounded draws are uniform, the
      generator never reaches its zero state; a log line is bounded; quoted
      arguments are split into themselves, and the POSIX form is never the bare
      one the tests expect; a reaped child is never signalled.
    - State (Records.v, State.v, Artifact.v): each record, metadata block and
      snapshot round trips, decoding accepts only canonical encodings, no record
      breaks the well-formedness of the state.
    - Decisions (Lifecycle.v, Policy.v, Ids.v): the transition table is the
      documented one, acknowledgement only follows activation, lifecycles are
      bounded, the policy acts only on current evidence, derived identities are
      valid and their transcripts injective.
    - Protocol (Messages.v, Protocol.v): every message codec is exact, a
      conversation cut into any reads is delivered, a tag verifies exactly on
      what was sealed.
    - Reconciliation (Reconciliation.v, AgentReport.v): each conclusion rests on
      evidence in the report, and on a report of a live agent it is true of the
      agent's files and durable state.
    - The agent (AgentSpec.v, AgentAnswers.v, AgentDelivery.v): nothing is
      activated except by an authorised commit; a session refines an abstract
      target whose only transitions are activations of newer verified content;
      the handshake fences old controllers; and a delivery whose system calls
      succeed is activated, acknowledged and durable.
      [keyless_evidence_undecodable] and [retention_deletes_activated] exhibit
      where the agent's answers and pruning fall short.

    - The distributor (DistributorSpec.v, DistributorHandshake.v,
      DistributorSchedule.v, DistributorTransfer.v): a delivery is [Applied] or
      [Acknowledged] only on evidence a target sent over an accepted connection,
      whatever the threads interleave; a target is dialled by one worker at a
      time, and only when something is wanted of it; a peer that fails a check of
      the handshake changes nothing and is not confirmed; a transfer sends the
      artifact and nothing else; and the loops of a session end. A transition
      writes the caller's copy over whatever it finds, a retirement too
      ([transition_overwrites]). The examples [plan_reaches_acknowledgement],
      [retired_then_acknowledged] and [declared_guarantee_decides] run whole
      sessions: from a plan to the acknowledgement, against the modelled agent,
      and two cases in which the distributor does not do what it promises.
    - The control channel (ControlLine.v, ControlSpec.v): a line typed with quotes
      and escapes parses to its words; client and controller together run the
      command once and return its answer; nothing is answered before the hello is
      verified; commands that read change nothing.
    - Programs (AgentRestart.v, AgentMain.v, CommandLine.v): an agent that starts
      claims only what its files back; an agent process refines the abstract
      target over any connections; peer authentication is off only where it was
      turned off by name.

    ** Bounds and fuel

    The recovery scan, the frame decoder and the line and number parsers recurse
    with fuel equal to the number of input bytes; every step that continues
    consumes at least one byte (a record or frame header), and [scan_loop] and
    [feed_loop] are proved not to stop for lack of it. The verification loop of
    the artifact store has one unit per byte of the payload, its copying loop
    one per byte of the source, and one for the end ([verify_loop_in_order],
    [stage_loop_spec]). The session loop of the agent has one unit of fuel per
    frame of the inbox and one for the end of the connection, and so have the
    two loops of a distributor's session, which are proved not to depend on it
    ([session_loops_end]); a delivery takes at most 16 steps in a session, as in
    the code. The loops of the socket layer take fuel for their passes, and
    [socket_calls_end] gives a number that is enough; a draw of [bounded] may
    need any number of passes and returns nothing when the fuel is short; the
    digest loop of cfctl has one unit per byte and one for the end. All other
    recursion is structural. Unsigned integers are [Z] with their range as a
    hypothesis and their wrap-around written out.

    ** Not modelled

    Operating-system calls themselves (sockets, select, fork, fsync, directory
    listing): their answers are arguments. Socket options, peer addresses and
    the Windows branches of transport.cpp and process.cpp, apart from the
    quoting. In scanInto, the record-type check after the loop, which no record
    reaches, and the branch for a failing truncation. The byte counters of
    FramedConnection. The agent's paths are compared as text: `.` and `..` are
    not resolved and directories exist when a file below them does. In the
    distributor: starting, interrupting and joining the threads and the registry
    of connections; the artifact store and the durable state are behind one
    lock, although the code has a mutex for each; publications to the artifact
    store that overlap. Log records are output only, and the calendar of their
    time stamps is the C library's. In the main functions: signal handlers, help
    and version texts, the announce file, and the submission of plan files at
    start-up (which is [submitPlan] of each in turn). The build constants of
    version.cpp, the benchmarks, the examples and the tests are not part of the
    program. *)

(** ** Prelude *)

From Stdlib Require Export ZArith Lia.
From Stdlib Require Import Strings.Byte DecimalString.
From stdpp Require Export base list strings numbers.

#[global] Open Scope Z_scope.

(** ** Machine-width integers

    Unsigned machine integers are values of [Z]; every operation the code
    performs at width [w] is written with its wrap-around. *)

Definition u8_max : Z := 2 ^ 8 - 1.
Definition u16_max : Z := 2 ^ 16 - 1.
Definition u32_max : Z := 2 ^ 32 - 1.
Definition u64_max : Z := 2 ^ 64 - 1.

(** [fits w v]: [v] is a value of the unsigned [w]-bit type. *)
Definition fits (w : Z) (v : Z) : Prop := 0 <= v < 2 ^ w.

(** The two's complement reading of a 64-bit pattern ([static_cast<int64_t>]). *)
Definition to_i64 (v : Z) : Z := if v <? 2 ^ 63 then v else v - 2 ^ 64.
(** [static_cast<uint64_t>] of a signed 64-bit value. *)
Definition of_i64 (v : Z) : Z := v mod 2 ^ 64.
(** [v] is a value of [std::int64_t]. *)
Definition fits_i64 (v : Z) : Prop := - 2 ^ 63 <= v < 2 ^ 63.

#[global] Instance fits_dec w v : Decision (fits w v).
Proof. unfold fits. apply _. Defined.
#[global] Instance fits_i64_dec v : Decision (fits_i64 v).
Proof. unfold fits_i64. apply _. Defined.

Lemma of_i64_fits v : fits 64 (of_i64 v).
Proof. apply Z.mod_pos_bound. lia. Qed.

Lemma to_i64_fits v : fits 64 v → fits_i64 (to_i64 v).
Proof. unfold fits, fits_i64, to_i64. destruct (Z.ltb_spec v (2 ^ 63)); lia. Qed.

Lemma to_of_i64 v : fits_i64 v → to_i64 (of_i64 v) = v.
Proof.
  unfold fits_i64, to_i64, of_i64. intros Hv.
  destruct (Z.lt_ge_cases v 0).
  - rewrite <- (Z.mod_unique v (2 ^ 64) (-1) (v + 2 ^ 64)) by lia.
    destruct (Z.ltb_spec (v + 2 ^ 64) (2 ^ 63)); lia.
  - rewrite Z.mod_small by lia. destruct (Z.ltb_spec v (2 ^ 63)); lia.
Qed.

Lemma of_to_i64 v : fits 64 v → of_i64 (to_i64 v) = v.
Proof.
  unfold fits, to_i64, of_i64. intros Hv.
  destruct (Z.ltb_spec v (2 ^ 63)).
  - apply Z.mod_small; lia.
  - symmetry. apply (Z.mod_unique _ _ (-1)); lia.
Qed.

Lemma land_fits w v : 0 <= w → 0 <= v → v = Z.land v (Z.ones w) ↔ fits w v.
Proof.
  intros Hw Hv. rewrite Z.land_ones by done. unfold fits. split.
  - intros ->. by apply Z.mod_pos_bound, Z.pow_pos_nonneg.
  - intros ?. by rewrite Z.mod_small.
Qed.

Lemma lor_fits w a b : 0 <= w → fits w a → fits w b → fits w (Z.lor a b).
Proof.
  intros Hw Ha Hb. apply land_fits; [done| |].
  - apply Z.lor_nonneg. unfold fits in *. lia.
  - rewrite Z.land_lor_distr_l.
    rewrite <- (proj2 (land_fits w a Hw (proj1 Ha)) Ha).
    by rewrite <- (proj2 (land_fits w b Hw (proj1 Hb)) Hb).
Qed.

(** ** Bytes *)

Abbreviation byte := Byte.byte.

(** The value of a byte. *)
Definition byte_val (b : byte) : Z := Z.of_N (Byte.to_N b).
(** [static_cast<std::uint8_t>(v & 0xFF)]. *)
Definition byte_of (v : Z) : byte :=
  match Byte.of_N (Z.to_N (Z.land v 255)) with Some b => b | None => Byte.x00 end.

Lemma byte_val_range b : 0 <= byte_val b < 256.
Proof. unfold byte_val. pose proof (Byte.to_N_bounded b). lia. Qed.

Lemma land_255 v : Z.land v 255 = v mod 256.
Proof. change 255 with (Z.ones 8). apply Z.land_ones. lia. Qed.

Lemma byte_val_of v : byte_val (byte_of v) = v mod 256.
Proof.
  unfold byte_of, byte_val. rewrite land_255.
  pose proof (Z.mod_pos_bound v 256 ltac:(lia)) as Hr.
  destruct (Byte.of_N _) as [b|] eqn:E.
  - apply Byte.to_of_N in E. rewrite E. lia.
  - apply Byte.of_N_None_iff in E. lia.
Qed.

Lemma byte_val_inj b c : byte_val b = byte_val c → b = c.
Proof.
  unfold byte_val. intros H. apply N2Z.inj in H.
  pose proof (Byte.of_to_N b) as Hb. rewrite H, Byte.of_to_N in Hb. congruence.
Qed.

Lemma byte_of_val b : byte_of (byte_val b) = b.
Proof.
  apply byte_val_inj. rewrite byte_val_of.
  apply Z.mod_small, byte_val_range.
Qed.

#[global] Instance byte_eq_dec : EqDecision byte.
Proof.
  intros b c. destruct (Byte.eqb b c) eqn:E.
  - left. by apply Byte.byte_dec_bl.
  - right. intros ->. by rewrite Byte.byte_dec_lb in E.
Defined.

(** The length of a buffer, as the [std::size_t] the code computes with. *)
Definition zlen {A} (l : list A) : Z := Z.of_nat (length l).

Lemma zlen_app {A} (l k : list A) : zlen (l ++ k) = zlen l + zlen k.
Proof. unfold zlen. rewrite length_app. lia. Qed.
Lemma zlen_nonneg {A} (l : list A) : 0 <= zlen l.
Proof. unfold zlen. lia. Qed.
Lemma zlen_nil {A} : zlen (@nil A) = 0.
Proof. done. Qed.
Lemma zlen_cons {A} (x : A) l : zlen (x :: l) = 1 + zlen l.
Proof. unfold zlen. simpl. lia. Qed.
Lemma zlen_0_nil {A} (l : list A) : zlen l = 0 → l = [].
Proof. destruct l; [done|]. rewrite zlen_cons. pose proof (zlen_nonneg l). lia. Qed.

(** ** Strings

    [std::string] holds bytes; the model keeps it as [string] and converts at
    the codec boundary ([reinterpret_cast]). *)

Definition bytes_of_string : string → list byte := String.list_byte_of_string.
Definition string_of_bytes : list byte → string := String.string_of_list_byte.
Definition slen (s : string) : Z := Z.of_nat (String.length s).
(** [text.resize(n)] where [n <= text.size()]; shorter text is unchanged. *)
Definition str_take (n : nat) (s : string) : string := String.substring 0 n s.
(** [std::to_string]. *)
Definition to_string (v : Z) : string := NilZero.string_of_int (Z.to_int v).

Lemma string_of_bytes_of_string s : string_of_bytes (bytes_of_string s) = s.
Proof. apply String.string_of_list_byte_of_string. Qed.
Lemma bytes_of_string_of_bytes l : bytes_of_string (string_of_bytes l) = l.
Proof. apply String.list_byte_of_string_of_list_byte. Qed.

Lemma length_bytes_of_string s : length (bytes_of_string s) = String.length s.
Proof.
  unfold bytes_of_string, String.list_byte_of_string. rewrite length_map.
  induction s as [|c s IH]; simpl; [done | by rewrite IH].
Qed.
Lemma zlen_bytes_of_string s : zlen (bytes_of_string s) = slen s.
Proof. unfold zlen, slen. by rewrite length_bytes_of_string. Qed.
Lemma slen_string_of_bytes l : slen (string_of_bytes l) = zlen l.
Proof. by rewrite <- zlen_bytes_of_string, bytes_of_string_of_bytes. Qed.

Lemma slen_append a b : slen (a +:+ b) = slen a + slen b.
Proof.
  unfold slen. rewrite <- Nat2Z.inj_add. f_equal.
  induction a as [|c a IH]; [done|]. simpl. by rewrite IH.
Qed.

Lemma append_cons c (a b : string) : String.String c a +:+ b = String.String c (a +:+ b).
Proof. done. Qed.
Lemma append_assoc (a b c : string) : (a +:+ b) +:+ c = a +:+ (b +:+ c).
Proof.
  induction a as [|x a IH]; [done|].
  change (String x ((a +:+ b) +:+ c) = String x (a +:+ (b +:+ c))). by rewrite IH.
Qed.
Lemma append_empty (a : string) : a +:+ "" = a.
Proof. induction a as [|x a IH]; [done|]. change (String x (a +:+ "") = String x a). by rewrite IH. Qed.

Lemma str_take_length n s : slen (str_take n s) <= Z.of_nat n.
Proof.
  unfold slen, str_take.
  enough (String.length (String.substring 0 n s) <= n)%nat by lia.
  revert n. induction s as [|c s IH]; intros [|n]; simpl; try lia.
  specialize (IH n). lia.
Qed.

Lemma str_take_all n s : slen s <= Z.of_nat n → str_take n s = s.
Proof.
  unfold slen, str_take. revert n.
  induction s as [|c s IH]; intros [|n]; simpl; intros H; try (done || lia).
  by rewrite IH by lia.
Qed.

(** ** Little-endian integers

    [le_bytes n v] is the loop [for i < n: push((v >> (i * 8)) & 0xFF)];
    [le_load] is the loop [value |= in[i] << (i * 8)]. *)

Definition le_bytes (n : nat) (v : Z) : list byte :=
  map (λ i, byte_of (Z.land (Z.shiftr v (8 * Z.of_nat i)) 255)) (seq 0 n).

Fixpoint le_load_from (shift acc : Z) (l : list byte) : Z :=
  match l with
  | [] => acc
  | b :: l => le_load_from (shift + 8) (Z.lor acc (Z.shiftl (byte_val b) shift)) l
  end.
Definition le_load (l : list byte) : Z := le_load_from 0 0 l.

(** The arithmetic reading of the two loops. *)
Fixpoint le_val (l : list byte) : Z :=
  match l with [] => 0 | b :: l => byte_val b + 256 * le_val l end.
Fixpoint le_digits (n : nat) (v : Z) : list byte :=
  match n with O => [] | S n => byte_of v :: le_digits n (v / 256) end.

Lemma length_le_bytes n v : length (le_bytes n v) = n.
Proof. unfold le_bytes. by rewrite length_map, length_seq. Qed.
Lemma zlen_le_bytes n v : zlen (le_bytes n v) = Z.of_nat n.
Proof. unfold zlen. by rewrite length_le_bytes. Qed.

Lemma byte_of_land v : byte_of (Z.land v 255) = byte_of v.
Proof.
  apply byte_val_inj. rewrite !byte_val_of, land_255.
  apply Z.mod_mod. lia.
Qed.

Lemma le_bytes_digits n v : le_bytes n v = le_digits n v.
Proof.
  assert (le_bytes n v = map (λ i, byte_of (Z.shiftr v (8 * Z.of_nat i))) (seq 0 n)) as ->.
  { apply map_ext. intros i. apply byte_of_land. }
  revert v. induction n as [|n IH]; intros v; [done|].
  simpl. f_equal. rewrite <- IH, <- seq_shift, map_map.
  apply map_ext. intros i. f_equal.
  replace (8 * Z.of_nat (S i)) with (8 + 8 * Z.of_nat i) by lia.
  rewrite <- Z.shiftr_shiftr by lia.
  f_equal. by rewrite Z.shiftr_div_pow2 by lia.
Qed.

Lemma lor_disjoint acc b i :
  0 <= i → 0 <= acc < 2 ^ i → Z.lor acc (Z.shiftl b i) = acc + b * 2 ^ i.
Proof.
  intros Hi Ha. rewrite <- Z.add_nocarry_lor.
  { by rewrite Z.shiftl_mul_pow2 by lia. }
  apply Z.bits_inj'. intros n Hn. rewrite Z.land_spec, Z.bits_0.
  destruct (Z.lt_ge_cases n i).
  - rewrite Z.shiftl_spec_low by lia. apply andb_false_r.
  - rewrite <- (Z.mod_small acc (2 ^ i)) by lia.
    by rewrite Z.mod_pow2_bits_high by lia.
Qed.

Lemma le_load_from_val l i acc :
  0 <= i → 0 <= acc < 2 ^ i → le_load_from i acc l = acc + le_val l * 2 ^ i.
Proof.
  revert i acc. induction l as [|b l IH]; intros i acc Hi Ha; simpl; [lia|].
  pose proof (byte_val_range b). rewrite lor_disjoint by done.
  assert (2 ^ (i + 8) = 2 ^ i * 256) as Hp by (rewrite Z.pow_add_r by lia; done).
  rewrite IH; [rewrite Hp; ring | lia | rewrite Hp; nia].
Qed.

Lemma le_load_val l : le_load l = le_val l.
Proof. unfold le_load. rewrite le_load_from_val; lia. Qed.

Lemma le_val_range l : 0 <= le_val l < 2 ^ (8 * zlen l).
Proof.
  induction l as [|b l IH]; simpl; [change (0 <= 0 < 1); lia|].
  pose proof (byte_val_range b). pose proof (zlen_nonneg l).
  rewrite zlen_cons, Z.mul_add_distr_l, Z.pow_add_r by lia. lia.
Qed.

Lemma le_load_fits l : fits (8 * zlen l) (le_load l).
Proof. rewrite le_load_val. apply le_val_range. Qed.

Lemma le_val_digits n v : le_val (le_digits n v) = v mod 2 ^ (8 * Z.of_nat n).
Proof.
  revert v. induction n as [|n IH]; intros v; simpl.
  - by rewrite Z.mod_1_r.
  - rewrite IH, byte_val_of.
    replace (8 * Z.of_nat (S n)) with (8 + 8 * Z.of_nat n) by lia.
    rewrite Z.pow_add_r, Z.rem_mul_r by lia. done.
Qed.

Lemma le_digits_val l : le_digits (length l) (le_val l) = l.
Proof.
  induction l as [|b l IH]; simpl; [done|].
  pose proof (byte_val_range b). f_equal.
  - apply byte_val_inj. rewrite byte_val_of, (Z.mul_comm 256), Z.mod_add by lia.
    apply Z.mod_small. lia.
  - rewrite (Z.mul_comm 256), Z.div_add, Z.div_small by lia. done.
Qed.

(** Storing and loading are inverse: one direction at the width of the
    integer, the other for every buffer. *)
Lemma le_load_bytes n v : le_load (le_bytes n v) = v mod 2 ^ (8 * Z.of_nat n).
Proof. by rewrite le_load_val, le_bytes_digits, le_val_digits. Qed.

Lemma le_load_bytes_fits n v : fits (8 * Z.of_nat n) v → le_load (le_bytes n v) = v.
Proof. intros H. rewrite le_load_bytes. by apply Z.mod_small. Qed.

Lemma le_bytes_load n l : length l = n → le_bytes n (le_load l) = l.
Proof. intros <-. by rewrite le_load_val, le_bytes_digits, le_digits_val. Qed.

#[global] Opaque le_bytes le_load.
