(* ===== verification/Result.v ===== *)
(** * Typed errors and results

    Models include/cf/result.hpp and src/result.cpp: the error codes and their
    stable numbering, the retry classification, [Error], [Status] and
    [Result<T>], and the CF_TRY / CF_TRY_ASSIGN propagation as a monad. A
    failed CF_CONTRACT (include/cf/contract.hpp) ends the process; it is the
    third outcome, [Abort]. *)

From S2P Require Import Prelude.

(** ** Enumerations with a stable numeric value

    An [enum class] that crosses the wire or the disk: [raw] is its numeric
    value, [all_values] its enumerators. [of_raw] is the range-checked
    [static_cast] every decoder performs. *)
Class WireEnum (A : Type) := {
  raw : A → Z;
  all_values : list A;
  all_values_complete : ∀ a, a ∈ all_values;
  raw_inj : ∀ a b, raw a = raw b → a = b;
}.

Definition of_raw `{WireEnum A} (v : Z) : option A :=
  snd <$> list_find (λ a, raw a = v) all_values.

(** The first enumerator with a given name: the [parse...] loops. *)
Definition parse_name {A} (name : A → string) (values : list A) (text : string) : option A :=
  snd <$> list_find (λ a, name a = text) values.

Section wire_enum.
Context `{WireEnum A}.

Lemma of_raw_Some v a : of_raw v = Some a → raw a = v.
Proof.
  unfold of_raw. intros H1. apply fmap_Some in H1 as [[i b] [Hb ->]].
  by apply list_find_Some in Hb as (_ & Hb & _).
Qed.

Lemma of_raw_raw a : of_raw (raw a) = Some a.
Proof.
  unfold of_raw.
  destruct (list_find (λ b, raw b = raw a) all_values) as [[i b]|] eqn:E; simpl.
  - apply list_find_Some in E as (_ & Hb & _). f_equal. by apply raw_inj.
  - apply list_find_None in E. rewrite Forall_forall in E.
    by destruct (E a (proj1 (list_elem_of_In _ _) (all_values_complete a))).
Qed.

Lemma of_raw_iff v a : of_raw v = Some a ↔ raw a = v.
Proof. split; [apply of_raw_Some|]. intros <-. apply of_raw_raw. Qed.
End wire_enum.

Lemma parse_name_inv {A} (name : A → string) values a :
  a ∈ values → (∀ b, name b = name a → b = a) → parse_name name values (name a) = Some a.
Proof.
  intros Ha Hinj. unfold parse_name.
  destruct (list_find (λ b, name b = name a) values) as [[i b]|] eqn:E; simpl.
  - apply list_find_Some in E as (_ & Hb & _). f_equal. by apply Hinj.
  - apply list_find_None in E. rewrite Forall_forall in E. by destruct (E a (proj1 (list_elem_of_In _ _) Ha)).
Qed.

Lemma parse_name_Some {A} (name : A → string) values text a :
  parse_name name values text = Some a → name a = text.
Proof.
  unfold parse_name. intros H. apply fmap_Some in H as [[i b] [Hb ->]].
  by apply list_find_Some in Hb as (_ & Hb & _).
Qed.

(** The proof obligations of a concrete enumeration. *)
Ltac solve_enum_complete := intros []; apply list_elem_of_In; simpl; tauto.
Ltac solve_enum_inj := intros [] []; first [reflexivity | discriminate].

(** ** Error codes *)
Module ErrorCode.
Inductive t :=
  | Ok
  | InvalidArgument | OutOfRange | ArithmeticOverflow | MalformedInput
  | UnsupportedVersion | UnsupportedFeature | MissingField
  | NotFound | AlreadyExists | Conflict | PreconditionFailed
  | StaleGeneration | StaleEpoch | FencedIncarnation | GenerationConflict
  | DigestMismatch | IntegrityFailure | SizeMismatch | SchemaUnsupported
  | GuaranteeUnsupported | PolicyDenied | Unauthenticated | Unauthorized
  | ReplayDetected | DuplicateSuppressed | Retired
  | ProtocolViolation | OversizePayload | TruncatedFrame | ReorderedFrame
  | UnexpectedMessage | CapabilityMismatch
  | IoFailure | ConnectionRefused | ConnectionReset | ConnectionClosed
  | PeerIdleTimeout | OpenFailed
  | CapacityExceeded | QueueFull | StoreFull | LimitExceeded
  | IllegalTransition | ApplyFailed | ApplyUncertain | NotPrepared
  | RolledBack | ArtifactUnavailable
  | Cancelled | ShuttingDown | Busy | Internal.
End ErrorCode.
Abbreviation ErrorCode := ErrorCode.t.

#[global] Instance ErrorCode_eq_dec : EqDecision ErrorCode.
Proof. solve_decision. Defined.

Definition ErrorCode_raw (code : ErrorCode) : Z :=
  match code with
  | ErrorCode.Ok => 0
  | ErrorCode.InvalidArgument => 100 | ErrorCode.OutOfRange => 101
  | ErrorCode.ArithmeticOverflow => 102 | ErrorCode.MalformedInput => 103
  | ErrorCode.UnsupportedVersion => 104 | ErrorCode.UnsupportedFeature => 105
  | ErrorCode.MissingField => 106
  | ErrorCode.NotFound => 200 | ErrorCode.AlreadyExists => 201
  | ErrorCode.Conflict => 202 | ErrorCode.PreconditionFailed => 203
  | ErrorCode.StaleGeneration => 300 | ErrorCode.StaleEpoch => 301
  | ErrorCode.FencedIncarnation => 302 | ErrorCode.GenerationConflict => 303
  | ErrorCode.DigestMismatch => 304 | ErrorCode.IntegrityFailure => 305
  | ErrorCode.SizeMismatch => 306 | ErrorCode.SchemaUnsupported => 307
  | ErrorCode.GuaranteeUnsupported => 308 | ErrorCode.PolicyDenied => 309
  | ErrorCode.Unauthenticated => 310 | ErrorCode.Unauthorized => 311
  | ErrorCode.ReplayDetected => 312 | ErrorCode.DuplicateSuppressed => 313
  | ErrorCode.Retired => 314
  | ErrorCode.ProtocolViolation => 400 | ErrorCode.OversizePayload => 401
  | ErrorCode.TruncatedFrame => 402 | ErrorCode.ReorderedFrame => 403
  | ErrorCode.UnexpectedMessage => 404 | ErrorCode.CapabilityMismatch => 405
  | ErrorCode.IoFailure => 500 | ErrorCode.ConnectionRefused => 501
  | ErrorCode.ConnectionReset => 502 | ErrorCode.ConnectionClosed => 503
  | ErrorCode.PeerIdleTimeout => 504 | ErrorCode.OpenFailed => 505
  | ErrorCode.CapacityExceeded => 600 | ErrorCode.QueueFull => 601
  | ErrorCode.StoreFull => 602 | ErrorCode.LimitExceeded => 603
  | ErrorCode.IllegalTransition => 700 | ErrorCode.ApplyFailed => 701
  | ErrorCode.ApplyUncertain => 702 | ErrorCode.NotPrepared => 703
  | ErrorCode.RolledBack => 704 | ErrorCode.ArtifactUnavailable => 705
  | ErrorCode.Cancelled => 800 | ErrorCode.ShuttingDown => 801
  | ErrorCode.Busy => 802 | ErrorCode.Internal => 803
  end.

Definition ErrorCode_all : list ErrorCode :=
  [ErrorCode.Ok; ErrorCode.InvalidArgument; ErrorCode.OutOfRange;
   ErrorCode.ArithmeticOverflow; ErrorCode.MalformedInput;
   ErrorCode.UnsupportedVersion; ErrorCode.UnsupportedFeature;
   ErrorCode.MissingField; ErrorCode.NotFound; ErrorCode.AlreadyExists;
   ErrorCode.Conflict; ErrorCode.PreconditionFailed; ErrorCode.StaleGeneration;
   ErrorCode.StaleEpoch; ErrorCode.FencedIncarnation; ErrorCode.GenerationConflict;
   ErrorCode.DigestMismatch; ErrorCode.IntegrityFailure; ErrorCode.SizeMismatch;
   ErrorCode.SchemaUnsupported; ErrorCode.GuaranteeUnsupported;
   ErrorCode.PolicyDenied; ErrorCode.Unauthenticated; ErrorCode.Unauthorized;
   ErrorCode.ReplayDetected; ErrorCode.DuplicateSuppressed; ErrorCode.Retired;
   ErrorCode.ProtocolViolation; ErrorCode.OversizePayload; ErrorCode.TruncatedFrame;
   ErrorCode.ReorderedFrame; ErrorCode.UnexpectedMessage;
   ErrorCode.CapabilityMismatch; ErrorCode.IoFailure; ErrorCode.ConnectionRefused;
   ErrorCode.ConnectionReset; ErrorCode.ConnectionClosed; ErrorCode.PeerIdleTimeout;
   ErrorCode.OpenFailed; ErrorCode.CapacityExceeded; ErrorCode.QueueFull;
   ErrorCode.StoreFull; ErrorCode.LimitExceeded; ErrorCode.IllegalTransition;
   ErrorCode.ApplyFailed; ErrorCode.ApplyUncertain; ErrorCode.NotPrepared;
   ErrorCode.RolledBack; ErrorCode.ArtifactUnavailable; ErrorCode.Cancelled;
   ErrorCode.ShuttingDown; ErrorCode.Busy; ErrorCode.Internal].

#[global] Program Instance ErrorCode_enum : WireEnum ErrorCode :=
  {| raw := ErrorCode_raw; all_values := ErrorCode_all |}.
Next Obligation. solve_enum_complete. Qed.
Next Obligation. solve_enum_inj. Qed.

Definition errorCodeName (code : ErrorCode) : string :=
  match code with
  | ErrorCode.Ok => "Ok"
  | ErrorCode.InvalidArgument => "InvalidArgument"
  | ErrorCode.OutOfRange => "OutOfRange"
  | ErrorCode.ArithmeticOverflow => "ArithmeticOverflow"
  | ErrorCode.MalformedInput => "MalformedInput"
  | ErrorCode.UnsupportedVersion => "UnsupportedVersion"
  | ErrorCode.UnsupportedFeature => "UnsupportedFeature"
  | ErrorCode.MissingField => "MissingField"
  | ErrorCode.NotFound => "NotFound"
  | ErrorCode.AlreadyExists => "AlreadyExists"
  | ErrorCode.Conflict => "Conflict"
  | ErrorCode.PreconditionFailed => "PreconditionFailed"
  | ErrorCode.StaleGeneration => "StaleGeneration"
  | ErrorCode.StaleEpoch => "StaleEpoch"
  | ErrorCode.FencedIncarnation => "FencedIncarnation"
  | ErrorCode.GenerationConflict => "GenerationConflict"
  | ErrorCode.DigestMismatch => "DigestMismatch"
  | ErrorCode.IntegrityFailure => "IntegrityFailure"
  | ErrorCode.SizeMismatch => "SizeMismatch"
  | ErrorCode.SchemaUnsupported => "SchemaUnsupported"
  | ErrorCode.GuaranteeUnsupported => "GuaranteeUnsupported"
  | ErrorCode.PolicyDenied => "PolicyDenied"
  | ErrorCode.Unauthenticated => "Unauthenticated"
  | ErrorCode.Unauthorized => "Unauthorized"
  | ErrorCode.ReplayDetected => "ReplayDetected"
  | ErrorCode.DuplicateSuppressed => "DuplicateSuppressed"
  | ErrorCode.Retired => "Retired"
  | ErrorCode.ProtocolViolation => "ProtocolViolation"
  | ErrorCode.OversizePayload => "OversizePayload"
  | ErrorCode.TruncatedFrame => "TruncatedFrame"
  | ErrorCode.ReorderedFrame => "ReorderedFrame"
  | ErrorCode.UnexpectedMessage => "UnexpectedMessage"
  | ErrorCode.CapabilityMismatch => "CapabilityMismatch"
  | ErrorCode.IoFailure => "IoFailure"
  | ErrorCode.ConnectionRefused => "ConnectionRefused"
  | ErrorCode.ConnectionReset => "ConnectionReset"
  | ErrorCode.ConnectionClosed => "ConnectionClosed"
  | ErrorCode.PeerIdleTimeout => "PeerIdleTimeout"
  | ErrorCode.OpenFailed => "OpenFailed"
  | ErrorCode.CapacityExceeded => "CapacityExceeded"
  | ErrorCode.QueueFull => "QueueFull"
  | ErrorCode.StoreFull => "StoreFull"
  | ErrorCode.LimitExceeded => "LimitExceeded"
  | ErrorCode.IllegalTransition => "IllegalTransition"
  | ErrorCode.ApplyFailed => "ApplyFailed"
  | ErrorCode.ApplyUncertain => "ApplyUncertain"
  | ErrorCode.NotPrepared => "NotPrepared"
  | ErrorCode.RolledBack => "RolledBack"
  | ErrorCode.ArtifactUnavailable => "ArtifactUnavailable"
  | ErrorCode.Cancelled => "Cancelled"
  | ErrorCode.ShuttingDown => "ShuttingDown"
  | ErrorCode.Busy => "Busy"
  | ErrorCode.Internal => "Internal"
  end.

(** [errorCodeFromName]: the table holds every code whose name is defined;
    an unknown name is [Internal]. *)
Definition errorCodeFromName (name : string) : ErrorCode :=
  default ErrorCode.Internal (parse_name errorCodeName ErrorCode_all name).

(** ** Retry classification *)
Module RetryDirective.
Inductive t :=
  | DoNotRetry | RetryNow | RetryWithBackoff | RetryNewSession
  | RetryAfterReconcile | Terminal.
End RetryDirective.
Abbreviation RetryDirective := RetryDirective.t.

#[global] Instance RetryDirective_eq_dec : EqDecision RetryDirective.
Proof. solve_decision. Defined.

Definition RetryDirective_raw (d : RetryDirective) : Z :=
  match d with
  | RetryDirective.DoNotRetry => 0 | RetryDirective.RetryNow => 1
  | RetryDirective.RetryWithBackoff => 2 | RetryDirective.RetryNewSession => 3
  | RetryDirective.RetryAfterReconcile => 4 | RetryDirective.Terminal => 5
  end.
#[global] Program Instance RetryDirective_enum : WireEnum RetryDirective :=
  {| raw := RetryDirective_raw;
     all_values := [RetryDirective.DoNotRetry; RetryDirective.RetryNow;
       RetryDirective.RetryWithBackoff; RetryDirective.RetryNewSession;
       RetryDirective.RetryAfterReconcile; RetryDirective.Terminal] |}.
Next Obligation. solve_enum_complete. Qed.
Next Obligation. solve_enum_inj. Qed.

Definition retryDirectiveName (d : RetryDirective) : string :=
  match d with
  | RetryDirective.DoNotRetry => "DoNotRetry"
  | RetryDirective.RetryNow => "RetryNow"
  | RetryDirective.RetryWithBackoff => "RetryWithBackoff"
  | RetryDirective.RetryNewSession => "RetryNewSession"
  | RetryDirective.RetryAfterReconcile => "RetryAfterReconcile"
  | RetryDirective.Terminal => "Terminal"
  end.

Definition retryDirectiveFor (code : ErrorCode) : RetryDirective :=
  match code with
  | ErrorCode.Ok => RetryDirective.DoNotRetry
  | ErrorCode.InvalidArgument | ErrorCode.OutOfRange | ErrorCode.ArithmeticOverflow
  | ErrorCode.MalformedInput | ErrorCode.UnsupportedVersion
  | ErrorCode.UnsupportedFeature | ErrorCode.MissingField | ErrorCode.NotFound
  | ErrorCode.AlreadyExists | ErrorCode.SchemaUnsupported
  | ErrorCode.Unauthenticated | ErrorCode.Unauthorized | ErrorCode.PolicyDenied
  | ErrorCode.ProtocolViolation | ErrorCode.OversizePayload
  | ErrorCode.UnexpectedMessage | ErrorCode.CapabilityMismatch
  | ErrorCode.IllegalTransition | ErrorCode.DigestMismatch
  | ErrorCode.IntegrityFailure | ErrorCode.SizeMismatch | ErrorCode.StaleGeneration
  | ErrorCode.StaleEpoch | ErrorCode.FencedIncarnation | ErrorCode.ReplayDetected
  | ErrorCode.GenerationConflict | ErrorCode.Retired
  | ErrorCode.ArtifactUnavailable | ErrorCode.Cancelled | ErrorCode.ShuttingDown
  | ErrorCode.Internal => RetryDirective.DoNotRetry
  | ErrorCode.DuplicateSuppressed => RetryDirective.DoNotRetry
  | ErrorCode.Busy | ErrorCode.QueueFull | ErrorCode.CapacityExceeded
  | ErrorCode.StoreFull => RetryDirective.RetryWithBackoff
  | ErrorCode.ConnectionRefused | ErrorCode.ConnectionReset
  | ErrorCode.ConnectionClosed | ErrorCode.PeerIdleTimeout
  | ErrorCode.TruncatedFrame | ErrorCode.ReorderedFrame =>
      RetryDirective.RetryNewSession
  | ErrorCode.IoFailure | ErrorCode.OpenFailed => RetryDirective.RetryWithBackoff
  | ErrorCode.LimitExceeded => RetryDirective.Terminal
  | ErrorCode.ApplyUncertain => RetryDirective.RetryAfterReconcile
  | ErrorCode.ApplyFailed | ErrorCode.NotPrepared | ErrorCode.RolledBack
  | ErrorCode.PreconditionFailed | ErrorCode.Conflict =>
      RetryDirective.RetryAfterReconcile
  | ErrorCode.GuaranteeUnsupported => RetryDirective.Terminal
  end.

Definition isFencingCode (code : ErrorCode) : bool :=
  match code with
  | ErrorCode.StaleGeneration | ErrorCode.StaleEpoch | ErrorCode.FencedIncarnation
  | ErrorCode.GenerationConflict | ErrorCode.ReplayDetected => true
  | _ => false
  end.

Definition isIntegrityCode (code : ErrorCode) : bool :=
  match code with
  | ErrorCode.DigestMismatch | ErrorCode.IntegrityFailure
  | ErrorCode.SizeMismatch => true
  | _ => false
  end.

Definition isIndeterminateCode (code : ErrorCode) : bool :=
  match code with
  | ErrorCode.ApplyUncertain | ErrorCode.IoFailure | ErrorCode.ConnectionReset
  | ErrorCode.ConnectionClosed | ErrorCode.TruncatedFrame
  | ErrorCode.PeerIdleTimeout => true
  | _ => false
  end.

(** ** Error, Result, Status *)
Record Error := mkError { code : ErrorCode; message : string; detail : string }.

#[global] Instance Error_eq_dec : EqDecision Error.
Proof. solve_decision. Defined.

Definition Error_str (e : Error) : string :=
  errorCodeName (code e)
    +:+ (if decide (message e = "") then "" else ": " +:+ message e)
    +:+ (if decide (detail e = "") then "" else " [" +:+ detail e +:+ "]").

(** The outcome of an operation: a value, a typed error, or the end of the
    process on a violated contract. *)
Inductive Result (A : Type) :=
  | Ok (a : A)
  | Fail (e : Error)
  | Abort (why : string).
Arguments Ok {A} a.
Arguments Fail {A} e.
Arguments Abort {A} why.

Abbreviation Status := (Result unit).

Definition fail {A} (c : ErrorCode) (msg : string) : Result A := Fail (mkError c msg "").
Definition fail_detail {A} (c : ErrorCode) (msg det : string) : Result A :=
  Fail (mkError c msg det).

Definition is_ok {A} (r : Result A) : bool := match r with Ok _ => true | _ => false end.

(** CF_TRY_ASSIGN and CF_TRY. *)
Definition try_bind {A B} (r : Result A) (k : A → Result B) : Result B :=
  match r with Ok a => k a | Fail e => Fail e | Abort w => Abort w end.

(** CF_CONTRACT. *)
Definition contract (b : bool) (why : string) : Status :=
  if b then Ok tt else Abort why.

Declare Scope cf_scope.
Delimit Scope cf_scope with cf.
#[global] Open Scope cf_scope.

Notation "'let*' x := r 'in' k" := (try_bind r (λ x, k))
  (at level 10, x pattern, r at level 100, k at level 200) : cf_scope.
Notation "'do*' r 'in' k" := (try_bind r (λ _, k))
  (at level 10, r at level 100, k at level 200) : cf_scope.

Lemma try_bind_Ok {A B} (r : Result A) (k : A → Result B) b :
  try_bind r k = Ok b ↔ ∃ a, r = Ok a ∧ k a = Ok b.
Proof. destruct r; simpl; split; naive_solver. Qed.

Lemma contract_Ok b why u : contract b why = Ok u ↔ b = true.
Proof. destruct u, b; simpl; naive_solver. Qed.

(** Split every CF_TRY of a hypothesis that says a computation succeeded. *)
Ltac inv_try :=
  repeat match goal with
  | H : try_bind _ _ = Ok _ |- _ => apply try_bind_Ok in H as (? & ? & ?)
  | H : contract _ _ = Ok _ |- _ => apply contract_Ok in H
  | H : Ok _ = Ok _ |- _ => injection H as H; subst
  | H : fail _ _ = Ok _ |- _ => discriminate H
  | H : fail_detail _ _ _ = Ok _ |- _ => discriminate H
  | H : Fail _ = Ok _ |- _ => discriminate H
  | H : Abort _ = Ok _ |- _ => discriminate H
  end.

(** ** Classification laws *)

Lemma errorCodeName_inj a b : errorCodeName a = errorCodeName b → a = b.
Proof. destruct a; destruct b; first [reflexivity | discriminate]. Qed.
