(* ===== verification/Log.v ===== *)
(** * Diagnostics

    Models include/cf/log.hpp and src/log.cpp: levels and the line a record
    becomes. The time stamp is formatted by the C library and is an argument;
    writing the line is output only. *)

From Stdlib Require Import Strings.Ascii.
From S2P Require Import Prelude.

Inductive LogLevel := LTrace | LDebug | LInfo | LWarn | LError | LOff.
#[global] Instance LogLevel_eq_dec : EqDecision LogLevel.
Proof. solve_decision. Defined.

Definition level_value (l : LogLevel) : Z :=
  match l with LTrace => 0 | LDebug => 1 | LInfo => 2 | LWarn => 3 | LError => 4 | LOff => 5 end.
Definition logLevelName (l : LogLevel) : string :=
  match l with
  | LTrace => "TRACE" | LDebug => "DEBUG" | LInfo => "INFO" | LWarn => "WARN" | LError => "ERROR"
  | LOff => "OFF"
  end.
Definition parseLogLevel (text : string) : option LogLevel :=
  if decide (text = "trace") then Some LTrace
  else if decide (text = "debug") then Some LDebug
  else if decide (text = "info") then Some LInfo
  else if decide (text = "warn") then Some LWarn
  else if decide (text = "error") then Some LError
  else if decide (text = "off") then Some LOff
  else None.

Definition kMaxLogLineBytes : nat := 2048.

(** What the program can read back of a logger. *)
Record Logger := mkLogger { lg_level : LogLevel; lg_truncated : Z }.

Definition enabled (g : Logger) (l : LogLevel) : bool := level_value l >=? level_value (lg_level g).

Definition is_newline (c : ascii) : bool :=
  bool_decide (c = "010"%char) || bool_decide (c = "013"%char).
Fixpoint trimTrailingNewlines (text : string) : string :=
  match text with
  | "" => ""
  | String.String c rest =>
      let rest := trimTrailingNewlines rest in
      if bool_decide (rest = "") && is_newline c then "" else String.String c rest
  end%string.

(** The line, before the newline that ends it. *)
Definition log_line (timestamp : string) (l : LogLevel) (component message : string) : string :=
  let component := trimTrailingNewlines component in
  timestamp +:+ " " +:+ logLevelName l +:+ " "
  +:+ (if decide (component = "") then "cf" else component) +:+ ": " +:+ trimTrailingNewlines message.

(** What is written, if anything. *)
Definition log (timestamp : string) (l : LogLevel) (component message : string) (g : Logger)
    : Logger * option string :=
  if negb (enabled g l) then (g, None)
  else
    let text := log_line timestamp l component message in
    if (kMaxLogLineBytes <? String.length text)%nat
    then (mkLogger (lg_level g) ((lg_truncated g + 1) mod 2 ^ 64),
          Some (str_take (kMaxLogLineBytes - 16) text +:+ "...<truncated>" +:+ String.String "010" ""))
    else (g, Some (text +:+ String.String "010" "")).

(** A written line has at most the documented number of bytes, its newline
    aside, and is counted when it was cut. *)
Lemma log_bounded timestamp l component message g :
  match log timestamp l component message g with
  | (g', Some text) =>
      slen text <= Z.of_nat kMaxLogLineBytes + 1
      ∧ (lg_truncated g' = lg_truncated g
         ∨ lg_truncated g' = (lg_truncated g + 1) mod 2 ^ 64)
  | (g', None) => g' = g ∧ level_value l < level_value (lg_level g)
  end.
Proof.
  unfold log, enabled. destruct (Z.geb_spec (level_value l) (level_value (lg_level g))); cbn [negb]; [|done].
  set (text := log_line _ _ _ _). destruct (Nat.ltb_spec kMaxLogLineBytes (String.length text)).
  - split; [|by right]. rewrite !slen_append.
    pose proof (str_take_length (kMaxLogLineBytes - 16) text) as Ht. unfold kMaxLogLineBytes in *.
    change (slen "...<truncated>") with 14. change (slen (String.String "010" "")) with 1. lia.
  - split; [|by left]. rewrite slen_append. change (slen (String.String "010" "")) with 1.
    unfold slen. lia.
Qed.

(** A newline inside a message is kept: one record can be two lines, and the
    second one can look like any other record. *)
Example message_forges_record :
  log "T1" LWarn "control" ("client 'x" +:+ String.String "010" "T2 INFO control: all is well") (mkLogger LInfo 0)
  = (mkLogger LInfo 0,
     Some ("T1 WARN control: client 'x" +:+ String.String "010" "T2 INFO control: all is well"
           +:+ String.String "010" "")).
Proof. reflexivity. Qed.
