(* ===== verification/Process.v ===== *)
(** * Child processes

    Models include/cf/process.hpp and src/process.cpp: how an argument is quoted
    for the command line of Windows and for a POSIX shell, and the life of a
    child process - its start, kill, wait and poll - over the answers of the
    system calls. *)

From Stdlib Require Import Strings.Ascii.
From S2P Require Import Prelude Result.

(** ** Quoting *)

Definition quote : ascii := "034"%char.
Definition backslash : ascii := "092"%char.
Definition apostrophe : ascii := "039"%char.
Definition same (c d : ascii) : bool := bool_decide (c = d).

Fixpoint backslashes (n : nat) : string :=
  match n with O => "" | S n => String backslash (backslashes n) end.

Definition unsafe (c : ascii) : bool :=
  same c " " || same c "009" || same c "010" || same c "011" || same c quote.
Fixpoint needsQuotes (argument : string) : bool :=
  match argument with "" => false | String c rest => unsafe c || needsQuotes rest end.

(** What the loop appends, [n] backslashes being held back. *)
Fixpoint quote_loop (n : nat) (argument : string) : string :=
  match argument with
  | "" => backslashes (n * 2)
  | String c rest =>
      if same c backslash then quote_loop (S n) rest
      else if same c quote then backslashes (n * 2 + 1) +:+ String quote (quote_loop 0 rest)
      else backslashes n +:+ String c (quote_loop 0 rest)
  end.
Definition quoteForWindows (argument : string) : string :=
  if negb (bool_decide (argument = "") || needsQuotes argument) then argument
  else String quote (quote_loop 0 argument +:+ String quote "").

Fixpoint quote_posix_loop (argument : string) : string :=
  match argument with
  | "" => ""
  | String c rest =>
      (if same c apostrophe
       then String apostrophe (String backslash (String apostrophe (String apostrophe "")))
       else String c "") +:+ quote_posix_loop rest
  end.
Definition quoteForPosix (argument : string) : string :=
  String apostrophe (quote_posix_loop argument +:+ String apostrophe "").

Definition quoteArgument (windows : bool) (argument : string) : string :=
  if windows then quoteForWindows argument else quoteForPosix argument.

(** The command line of [spawn]: the arguments after the program. *)
Definition command_arguments (arguments : list string) : string :=
  foldr (λ a out, String " " (quoteForWindows a +:+ out)) "" arguments.
Definition commandLine (executable : string) (arguments : list string) : string :=
  quoteForWindows executable +:+ command_arguments arguments.

(** ** The child *)

Inductive WaitStatus := ExitedWith (code : Z) | KilledBy (signal : Z) | OtherStatus.

(** Both forms of the wait; an error is the text of [errno]. *)
Inductive Answer := StillRunning | Reaped (status : WaitStatus) | WaitError (why : string).

Record ChildProcess := mkChild { ch_pid : Z; ch_exited : bool; ch_exitCode : Z }.

(** The system calls that name the process, with their answers. *)
Inductive Event := Signalled (failed : option string) | Waited (a : Answer).

Definition exit_of_status (other : Z) (status : WaitStatus) : Z :=
  match status with ExitedWith code => code | KilledBy signal => 128 + signal | OtherStatus => other end.
Definition reap (other : Z) (status : WaitStatus) (c : ChildProcess) : ChildProcess :=
  mkChild (ch_pid c) true (exit_of_status other status).

(** [fork]: the answer is a process number, or negative. *)
Definition spawn (executable : string) (pid : Z) : Result ChildProcess :=
  if decide (executable = "") then fail ErrorCode.InvalidArgument "executable path must not be empty"
  else if pid <? 0 then fail ErrorCode.OpenFailed "fork failed"
  else Ok (mkChild (pid mod 2 ^ 32) false 0).

Definition kill (failed : option string) (c : ChildProcess) : list Event * ChildProcess * Status :=
  if ch_exited c then ([], c, Ok tt)
  else ([Signalled failed], c,
        match failed with
        | Some why => fail_detail ErrorCode.IoFailure "SIGKILL failed" why
        | None => Ok tt
        end).

(** A blocking wait never answers that the process still runs. *)
Definition wait (a : Answer) (c : ChildProcess) : list Event * ChildProcess * Result Z :=
  if ch_exited c then ([], c, Ok (ch_exitCode c))
  else match a with
       | Reaped status =>
           let c := reap (-1) status c in ([Waited a], c, Ok (ch_exitCode c))
       | WaitError why => ([Waited a], c, fail_detail ErrorCode.IoFailure "waitpid failed" why)
       | StillRunning => ([Waited a], c, Abort "waitpid")
       end.

Definition running (a : Answer) (c : ChildProcess) : list Event * ChildProcess * bool :=
  if ch_exited c then ([], c, false)
  else match a with
       | StillRunning => ([Waited a], c, true)
       | Reaped status => ([Waited a], reap (ch_exitCode c) status c, false)
       | WaitError _ => ([Waited a], c, false)
       end.

(** The destructor. *)
Definition destroy (failed : option string) (a : Answer) (c : ChildProcess)
    : list Event * ChildProcess :=
  if ch_exited c then ([], c)
  else let '(e1, c1, _) := kill failed c in
       let '(e2, c2, _) := wait a c1 in (e1 ++ e2, c2).

(** A client of the class: any sequence of operations. *)
Inductive Operation := Kill (failed : option string) | Wait (a : Answer) | Poll (a : Answer).
Definition perform (op : Operation) (c : ChildProcess) : list Event * ChildProcess :=
  match op with
  | Kill failed => (kill failed c).1
  | Wait a => (wait a c).1
  | Poll a => (running a c).1
  end.
Fixpoint perform_all (ops : list Operation) (c : ChildProcess) : list Event * ChildProcess :=
  match ops with
  | [] => ([], c)
  | op :: ops =>
      let '(e1, c1) := perform op c in
      let '(e2, c2) := perform_all ops c1 in (e1 ++ e2, c2)
  end.

(** ** The rules of the readers

    How a command line is split into arguments: the documented rules of the
    Windows C runtime, and those of a POSIX shell as far as quoted words need
    them. Both are specifications, not code of the program. *)

Definition held (cur : option string) (text : string) : string := default "" cur +:+ text.
Definition blank (c : ascii) : bool := same c " " || same c "009".

(** An argument that has begun, or backslashes that wait for what follows. *)
Definition finish_argument (n : nat) (cur : option string) (rest : list string) : list string :=
  match cur, n with None, O => rest | _, _ => held cur (backslashes n) :: rest end.

(** An even number of backslashes before a quote stands for half of them and
    the quote opens or closes; an odd number for half of them and a literal
    quote; other backslashes are literal. *)
Fixpoint crt_args (text : string) (n : nat) (inQuotes : bool) (cur : option string) : list string :=
  match text with
  | "" => finish_argument n cur []
  | String c rest =>
      if same c backslash then crt_args rest (S n) inQuotes cur
      else if same c quote then
        let cur := held cur (backslashes (n / 2)) in
        if Nat.even n then crt_args rest 0 (negb inQuotes) (Some cur)
        else crt_args rest 0 inQuotes (Some (cur +:+ String quote ""))
      else if negb inQuotes && blank c then finish_argument n cur (crt_args rest 0 false None)
      else crt_args rest 0 inQuotes (Some (held cur (backslashes n +:+ String c "")))
  end.
(** The program comes first; a backslash in it is a backslash. *)
Fixpoint crt_program (text : string) (inQuotes : bool) : string * string :=
  match text with
  | "" => ("", "")
  | String c rest =>
      if same c quote then crt_program rest (negb inQuotes)
      else if negb inQuotes && blank c then ("", text)
      else let '(program, rest) := crt_program rest inQuotes in (String c program, rest)
  end.
Definition crt_line (text : string) : list string :=
  let '(program, rest) := crt_program text false in program :: crt_args rest 0 false None.

(** The characters that mean nothing to a shell outside quotes. *)
Definition ordinary (c : ascii) : bool :=
  let n := N_of_ascii c in
  ((48 <=? n) && (n <=? 57) || (65 <=? n) && (n <=? 90) || (97 <=? n) && (n <=? 122)
   || same c "_" || same c "-" || same c "." || same c "/" || same c ":" || same c "," || same c "+"
   || same c "@")%N.
Fixpoint ordinary_word (text : string) : bool :=
  match text with "" => true | String c rest => ordinary c && ordinary_word rest end.

(** Between apostrophes everything is literal, a backslash outside makes one
    character literal, and ordinary characters are themselves; [None] where
    another rule of the shell would apply. *)
Fixpoint sh_words (text : string) (inQuotes : bool) (cur : option string) : option (list string) :=
  match text with
  | "" => if inQuotes then None else Some (match cur with Some t => [t] | None => [] end)
  | String c rest =>
      if same c apostrophe then sh_words rest (negb inQuotes) (Some (held cur ""))
      else if inQuotes then sh_words rest true (Some (held cur (String c "")))
      else if same c backslash then
        match rest with
        | String d rest =>
            if same d "010" then None else sh_words rest false (Some (held cur (String d "")))
        | "" => None
        end
      else if blank c then
        match cur with
        | Some t => cons t <$> sh_words rest false None
        | None => sh_words rest false None
        end
      else if ordinary c then sh_words rest false (Some (held cur (String c "")))
      else None
  end.

(** ** Lemmas *)

Lemma backslashes_S n : backslashes n +:+ String backslash "" = backslashes (S n).
Proof. induction n as [|n IH]; [done|]. cbn [backslashes]. by rewrite append_cons, IH. Qed.
Lemma held_Some t x : held (Some t) x = t +:+ x.
Proof. done. Qed.

(** *** Windows *)

Lemma crt_backslashes k rest n q cur :
  crt_args (backslashes k +:+ rest) n q cur = crt_args rest (k + n) q cur.
Proof.
  revert n. induction k as [|k IH]; intros n; [done|]. cbn [backslashes]. rewrite append_cons.
  cbn [crt_args]. change (same backslash backslash) with true. cbv iota. rewrite IH. f_equal. lia.
Qed.

(** A quoted argument up to its closing quote, where [n] backslashes are still
    held back on both sides. *)
Lemma crt_quoted a n t rest :
  crt_args (quote_loop n a +:+ String quote rest) 0 true (Some t)
  = crt_args rest 0 false (Some (t +:+ backslashes n +:+ a)).
Proof.
  revert n t. induction a as [|c a IH]; intros n t; cbn [quote_loop].
  - rewrite crt_backslashes, Nat.add_0_r. cbn [crt_args].
    change (same quote backslash) with false. change (same quote quote) with true. cbv iota.
    replace (Nat.even (n * 2)) with true by (symmetry; apply Nat.even_spec; exists n; lia).
    by rewrite Nat.div_mul, held_Some, append_empty by lia.
  - destruct (same c backslash) eqn:Hb; [|destruct (same c quote) eqn:Hq].
    + apply bool_decide_eq_true in Hb as ->. rewrite IH, <- backslashes_S. by rewrite append_assoc.
    + apply bool_decide_eq_true in Hq as ->. rewrite append_assoc, append_cons, crt_backslashes, Nat.add_0_r.
      cbn [crt_args]. change (same quote backslash) with false. change (same quote quote) with true. cbv iota.
      replace (Nat.even (n * 2 + 1)) with false
        by (symmetry; rewrite Nat.even_add, Nat.even_mul; cbn; by rewrite orb_true_r).
      replace ((n * 2 + 1) / 2)%nat with n by (apply (Nat.div_unique _ _ _ 1); lia).
      rewrite IH, held_Some, !append_assoc. done.
    + rewrite append_assoc, append_cons, crt_backslashes, Nat.add_0_r. cbn [crt_args]. rewrite Hb, Hq.
      cbn [negb andb]. rewrite IH, held_Some, !append_assoc. done.
Qed.

(** What may follow an argument, and what it is split into. *)
Definition follows (rest : string) : Prop := rest = "" ∨ ∃ r, rest = String " " r.

Lemma crt_finish rest n cur :
  follows rest → crt_args rest n false cur = finish_argument n cur (crt_args rest 0 false None).
Proof. by intros [->|[r ->]]. Qed.

Lemma crt_plain a rest n cur :
  needsQuotes a = false → follows rest →
  crt_args (a +:+ rest) n false cur
  = if decide (a = "") then finish_argument n cur (crt_args rest 0 false None)
    else held cur (backslashes n +:+ a) :: crt_args rest 0 false None.
Proof.
  revert n cur. induction a as [|c a IH]; intros n cur Ha Hrest; [by apply crt_finish|].
  rewrite decide_False by done. cbn [needsQuotes] in Ha.
  apply orb_false_iff in Ha as [[[[[Hs Ht]%orb_false_iff Hn]%orb_false_iff Hv]%orb_false_iff Hq]%orb_false_iff Ha].
  rewrite append_cons. cbn [crt_args]. destruct (same c backslash) eqn:Hb.
  - apply bool_decide_eq_true in Hb as ->. rewrite IH by done. rewrite <- backslashes_S.
    case_decide as He; [|by rewrite append_assoc]. subst a.
    rewrite backslashes_S. by destruct cur.
  - rewrite Hq. unfold blank. rewrite Hs, Ht. cbn [negb andb orb]. rewrite IH by done.
    case_decide as He; [subst a; cbn [finish_argument backslashes]|];
      rewrite ?held_Some; unfold held; by rewrite ?append_empty, ?append_assoc.
Qed.

Lemma crt_argument a rest :
  follows rest →
  crt_args (quoteForWindows a +:+ rest) 0 false None = a :: crt_args rest 0 false None.
Proof.
  intros Hrest. unfold quoteForWindows. destruct (negb _) eqn:Hplain.
  - apply negb_true_iff, orb_false_iff in Hplain as [Hne%bool_decide_eq_false Ha].
    rewrite crt_plain by done. by rewrite decide_False.
  - rewrite append_cons, append_assoc. change (String quote "" +:+ rest) with (String quote rest).
    cbn [crt_args]. change (same quote backslash) with false. change (same quote quote) with true. cbv iota.
    change (Nat.even 0) with true. cbv iota. cbn [negb]. rewrite crt_quoted.
    change (held None (backslashes (0 / 2)) +:+ backslashes 0 +:+ a) with a.
    rewrite crt_finish by done. cbn [finish_argument backslashes]. by rewrite held_Some, append_empty.
Qed.

Lemma command_follows arguments : follows (command_arguments arguments).
Proof. destruct arguments as [|a arguments]; [by left|right]. by eexists. Qed.

Lemma crt_arguments arguments : crt_args (command_arguments arguments) 0 false None = arguments.
Proof.
  induction arguments as [|a arguments IH]; [done|]. cbn [command_arguments foldr].
  change (foldr _ "" arguments) with (command_arguments arguments). cbn [crt_args].
  change (same " " backslash) with false. change (same " " quote) with false.
  change (blank " ") with true. cbn [negb andb finish_argument].
  by rewrite crt_argument, IH by apply command_follows.
Qed.

(** *** The program *)

(** No quote, and no backslash at the end. *)
Definition plain_path (path : string) : Prop :=
  (∀ x y, path ≠ x +:+ String quote y) ∧ (∀ x, path ≠ x +:+ String backslash "").

Lemma plain_path_cons c path :
  path ≠ "" → plain_path (String c path) → plain_path path ∧ same c quote = false.
Proof.
  intros Hne [Hq Hb]. split; [split|].
  - intros x y ->. by apply (Hq (String c x) y).
  - intros x ->. by apply (Hb (String c x)).
  - apply bool_decide_eq_false. intros ->. by apply (Hq "" path).
Qed.
Lemma plain_path_one c : plain_path (String c "") → same c quote = false ∧ same c backslash = false.
Proof.
  intros [Hq Hb]. split; apply bool_decide_eq_false; intros ->; [by apply (Hq "" "")|by apply (Hb "")].
Qed.

Lemma quote_loop_plain path n : path ≠ "" → plain_path path → quote_loop n path = backslashes n +:+ path.
Proof.
  revert n. induction path as [|c path IH]; intros n Hne Hp; [done|].
  destruct (decide (path = "")) as [->|Hpath].
  - apply plain_path_one in Hp as [Hq Hb]. cbn [quote_loop]. by rewrite Hb, Hq.
  - apply plain_path_cons in Hp as [Hp Hq]; [|done]. cbn [quote_loop]. rewrite Hq.
    destruct (same c backslash) eqn:Hb; rewrite IH by done; [|done].
    apply bool_decide_eq_true in Hb as ->. by rewrite <- backslashes_S, append_assoc.
Qed.

Lemma program_quoted path rest :
  (∀ x y, path ≠ x +:+ String quote y) → follows rest →
  crt_program (path +:+ String quote rest) true = (path, rest).
Proof.
  intros Hq Hrest. induction path as [|c path IH].
  - destruct Hrest as [->|[r ->]]; reflexivity.
  - rewrite append_cons. cbn [crt_program].
    assert (same c quote = false) as ->.
    { apply bool_decide_eq_false. intros ->. by apply (Hq "" path). }
    cbn [negb andb]. rewrite IH; [done|]. intros x y ->. by apply (Hq (String c x) y).
Qed.
Lemma program_plain path rest :
  needsQuotes path = false → follows rest → crt_program (path +:+ rest) false = (path, rest).
Proof.
  intros Hn Hrest. induction path as [|c path IH].
  - destruct Hrest as [->|[r ->]]; reflexivity.
  - cbn [needsQuotes] in Hn.
    apply orb_false_iff in Hn as [[[[[Hs Ht]%orb_false_iff _]%orb_false_iff _]%orb_false_iff Hq]%orb_false_iff Ha].
    rewrite append_cons. cbn [crt_program]. rewrite Hq. unfold blank. rewrite Hs, Ht. cbn [negb andb orb].
    by rewrite IH.
Qed.

Lemma program_split path rest :
  path ≠ "" → plain_path path → follows rest →
  crt_program (quoteForWindows path +:+ rest) false = (path, rest).
Proof.
  intros Hne Hp Hrest. unfold quoteForWindows. destruct (negb _) eqn:Hplain.
  - apply negb_true_iff, orb_false_iff in Hplain as [_ Ha]. by apply program_plain.
  - rewrite append_cons, append_assoc. change (String quote "" +:+ rest) with (String quote rest).
    cbn [crt_program]. change (same quote quote) with true. cbv iota. cbn [negb].
    rewrite quote_loop_plain by done. apply program_quoted; [apply Hp|done].
Qed.

(** *** The shell *)

Lemma sh_quoted a t rest :
  sh_words (quote_posix_loop a +:+ String apostrophe rest) true (Some t)
  = sh_words rest false (Some (t +:+ a)).
Proof.
  revert t. induction a as [|c a IH]; intros t; cbn [quote_posix_loop].
  - change ("" +:+ String apostrophe rest) with (String apostrophe rest). cbn [sh_words].
    change (same apostrophe apostrophe) with true. cbv iota.
    cbn [negb]. by rewrite held_Some.
  - destruct (same c apostrophe) eqn:Hc; rewrite append_assoc.
    + apply bool_decide_eq_true in Hc as ->. rewrite !append_cons.
      change ("" +:+ (quote_posix_loop a +:+ String apostrophe rest))
        with (quote_posix_loop a +:+ String apostrophe rest). cbn [sh_words].
      change (same apostrophe apostrophe) with true. change (same backslash apostrophe) with false.
      change (same backslash backslash) with true. change (same apostrophe "010") with false.
      cbv iota. cbn [negb]. rewrite !held_Some, !append_empty, IH, append_assoc. done.
    + rewrite append_cons. change ("" +:+ (quote_posix_loop a +:+ String apostrophe rest))
        with (quote_posix_loop a +:+ String apostrophe rest). cbn [sh_words]. rewrite Hc. cbv iota.
      rewrite held_Some, IH, append_assoc. done.
Qed.

Lemma sh_argument a rest :
  sh_words (quoteForPosix a +:+ rest) false None = sh_words rest false (Some a).
Proof.
  unfold quoteForPosix. rewrite append_cons, append_assoc.
  change (String apostrophe "" +:+ rest) with (String apostrophe rest). cbn [sh_words].
  change (same apostrophe apostrophe) with true. cbv iota. cbn [negb].
  change (held None "") with "". by rewrite sh_quoted.
Qed.

(** A bare word. *)
Lemma sh_bare a t : ordinary_word a = true → sh_words a false (Some t) = Some [t +:+ a].
Proof.
  revert t. induction a as [|c a IH]; intros t; cbn [ordinary_word sh_words].
  - by rewrite append_empty.
  - intros [Hc Ha]%andb_prop.
    assert (same c apostrophe = false ∧ same c backslash = false ∧ blank c = false) as (-> & -> & ->).
    { unfold blank, same. repeat (destruct (bool_decide _) eqn:E;
        [apply bool_decide_eq_true in E; subst c; discriminate Hc|clear E]). done. }
    rewrite Hc, held_Some, IH, append_assoc by done. done.
Qed.

Lemma sh_bare_word a : a ≠ "" → ordinary_word a = true → sh_words a false None = Some [a].
Proof.
  destruct a as [|c a]; [done|]. intros _ [Hc Ha]%andb_prop. cbn [sh_words].
  assert (same c apostrophe = false ∧ same c backslash = false ∧ blank c = false) as (-> & -> & ->).
  { unfold blank, same. repeat (destruct (bool_decide _) eqn:E;
      [apply bool_decide_eq_true in E; subst c; discriminate Hc|clear E]). done. }
  rewrite Hc. change (held None (String c "")) with (String c ""). by rewrite sh_bare.
Qed.

(** The form for the shell is longer than its argument. *)
Lemma quote_posix_longer a : slen a <= slen (quote_posix_loop a).
Proof.
  induction a as [|c a IH]; [done|]. cbn [quote_posix_loop]. rewrite slen_append.
  destruct (same c apostrophe); unfold slen in *; cbn [String.length]; lia.
Qed.
Lemma quoteForPosix_never_bare a : quoteForPosix a ≠ a.
Proof.
  intros E. apply (f_equal slen) in E. unfold quoteForPosix in E.
  pose proof (quote_posix_longer a) as Hl.
  pose proof (slen_append (quote_posix_loop a) (String apostrophe "")) as Ha.
  unfold slen in *. cbn [String.length] in *. lia.
Qed.

(** An ordinary word needs no quotes on Windows. *)
Lemma windows_bare a : a ≠ "" → ordinary_word a = true → quoteForWindows a = a.
Proof.
  intros Ha Ho. unfold quoteForWindows. rewrite bool_decide_false by done.
  assert (needsQuotes a = false) as ->; [|done]. clear Ha.
  induction a as [|c a IH]; [done|]. cbn [ordinary_word needsQuotes] in *.
  apply andb_prop in Ho as [Hc Ho]. rewrite IH, orb_false_r by done.
  unfold unsafe, same. repeat (destruct (bool_decide _) eqn:E;
    [apply bool_decide_eq_true in E; subst c; discriminate Hc|clear E]). done.
Qed.

(** Quoted words with a space before each. *)
Definition shell_line (arguments : list string) : string :=
  foldr (λ a out, String " " (quoteForPosix a +:+ out)) "" arguments.

Lemma sh_line arguments cur :
  sh_words (shell_line arguments) false cur
  = Some (match cur with Some t => t :: arguments | None => arguments end).
Proof.
  revert cur. induction arguments as [|a arguments IH]; intros cur; [by destruct cur|].
  cbn [shell_line foldr sh_words]. change (foldr _ "" arguments) with (shell_line arguments).
  change (same " " apostrophe) with false. change (same " " backslash) with false.
  change (blank " ") with true. cbv iota.
  rewrite sh_argument, IH. by destruct cur.
Qed.

(** *** The child *)

Definition reaps (e : Event) : Prop := ∃ status, e = Waited (Reaped status).

Lemma exited_silent ops c : ch_exited c = true → perform_all ops c = ([], c).
Proof.
  intros He. induction ops as [|op ops IH]; [done|]. cbn [perform_all].
  assert (perform op c = ([], c)) as -> by (destruct op; cbn; unfold kill, wait, running; by rewrite He).
  by rewrite IH.
Qed.

(** One operation: it either leaves the child as it was and reaps nothing, or
    reaps it with its last system call. *)
Lemma perform_cases op c :
  let '(events, c') := perform op c in
  c' = c ∧ Forall (λ e, ¬ reaps e) events
  ∨ ch_exited c = false ∧ ch_exited c' = true ∧ ch_pid c' = ch_pid c
    ∧ ∃ status, events = [Waited (Reaped status)]
        ∧ (status ≠ OtherStatus → ch_exitCode c' = exit_of_status 0 status).
Proof.
  destruct op as [failed|a|a]; cbn; unfold kill, wait, running; destruct (ch_exited c) eqn:He; cbn;
    try (left; split; [done|by constructor]).
  - left. split; [done|]. apply Forall_singleton. by intros [].
  - destruct a as [|status|why]; cbn; [left|right|left]; (split; [done|]);
      try (apply Forall_singleton; by intros []).
    split; [done|]. split; [done|]. exists status. split; [done|]. by destruct status.
  - destruct a as [|status|why]; cbn; [left|right|left]; (split; [done|]);
      try (apply Forall_singleton; by intros []).
    split; [done|]. split; [done|]. exists status. split; [done|]. by destruct status.
Qed.

(** ** Properties *)

(** C36: quoting round trips. (1) The command line that [spawn] builds for Windows
    is split by the documented rules of the C runtime into the program and
    exactly the arguments, whatever blanks, quotes and backslashes they hold,
    the program being a path. (2) Arguments quoted for a POSIX shell are words of
    exactly their text, with no other rule of the shell involved. (3) An argument
    that needs no quotes stays bare on Windows only: the POSIX form of an argument
    is never the argument itself, although a shell reads a bare word of ordinary
    characters as itself; tests/test_process.cpp expects the bare form of [plain]
    from both. *)
Theorem quoting_roundtrip executable arguments
    (Hne : executable ≠ "") (Hpath : plain_path executable) :
  crt_line (commandLine executable arguments) = executable :: arguments
  ∧ sh_words (shell_line (executable :: arguments)) false None = Some (executable :: arguments)
  ∧ ∀ a, quoteArgument false a ≠ a
      ∧ (a ≠ "" → ordinary_word a = true →
         quoteArgument true a = a ∧ sh_words a false None = Some [a]).
Proof.
  split; [|split; [apply sh_line|]].
  2: { intros a. split; [apply quoteForPosix_never_bare|]. intros Ha Ho.
       split; [by apply windows_bare|by apply sh_bare_word]. }
  unfold crt_line, commandLine.
  rewrite program_split by (done || apply command_follows). by rewrite crt_arguments.
Qed.

Lemma quoting_roundtrip_witness :
  let arguments := [""; "two words"; String quote "x\"; "C:\a b\"; "it's"] in
  crt_line (commandLine "C:\Program Files\cf-agent.exe" arguments)
  = "C:\Program Files\cf-agent.exe" :: arguments.
Proof.
  apply quoting_roundtrip; [discriminate|]. split.
  - intros x y E. assert (existsb (λ c, same c quote) (String.list_ascii_of_string
      "C:\Program Files\cf-agent.exe") = true) as H; [|vm_compute in H; discriminate H].
    rewrite E. clear E. induction x as [|c x IH]; [reflexivity|].
    rewrite append_cons. cbn [String.list_ascii_of_string existsb]. rewrite IH. apply orb_true_r.
  - intros x E. do 29 (destruct x as [|? x]; [discriminate E|]; injection E as _ E).
    by destruct x.
Defined.

(** A child is reaped once and never named again. Whatever a program does
    with a child it started: at most one wait reaps it, that is the last system
    call with its process number - which the system may give to another process
    afterwards - and from then on the exit code is the reaped one, a kill
    succeeds without effect and a wait returns that code at once. *)
Theorem child_reaped_once executable pid ops c (Hspawn : spawn executable pid = Ok c) :
  let '(events, c') := perform_all ops c in
  ch_pid c' = ch_pid c
  ∧ (ch_exited c' = false → c' = c ∧ Forall (λ e, ¬ reaps e) events)
  ∧ (ch_exited c' = true →
     (∃ earlier status, events = earlier ++ [Waited (Reaped status)] ∧ Forall (λ e, ¬ reaps e) earlier
        ∧ (status ≠ OtherStatus → ch_exitCode c' = exit_of_status 0 status))
     ∧ ∀ failed a, kill failed c' = ([], c', Ok tt) ∧ wait a c' = ([], c', Ok (ch_exitCode c'))
         ∧ destroy failed a c' = ([], c')).
Proof.
  assert (ch_exited c = false) as Hfresh.
  { unfold spawn in Hspawn. case_decide; [done|]. destruct (pid <? 0); [done|]. by injection Hspawn as <-. }
  clear Hspawn. induction ops as [|op ops IH]; cbn [perform_all].
  { split; [done|]. rewrite Hfresh. split; [|done]. intros _. split; [done|constructor]. }
  pose proof (perform_cases op c) as Hop. destruct (perform op c) as [e1 c1].
  destruct Hop as [[-> Hno]|(_ & Hout & Hpid & status & -> & Hcode)].
  - destruct (perform_all ops c) as [e2 c2]. destruct IH as (Hpid & Hlive & Hdead). split; [done|].
    split.
    + intros Hl. destruct (Hlive Hl) as [-> He]. split; [done|]. by apply Forall_app.
    + intros Hd. destruct (Hdead Hd) as [(earlier & status & -> & He & Hcode) Hafter]. split; [|done].
      exists (e1 ++ earlier), status. rewrite app_assoc. split; [done|]. split; [|done]. by apply Forall_app.
  - rewrite exited_silent by done. split; [done|]. split; [by rewrite Hout|]. intros _. split.
    + exists [], status. split; [done|]. by split.
    + intros failed a. unfold kill, wait, destroy. by rewrite Hout.
Qed.

Lemma child_reaped_once_witness :
  let ops := [Poll StillRunning; Kill None; Wait (Reaped (KilledBy 9)); Kill None; Wait StillRunning] in
  let '(events, c') := perform_all ops (mkChild 7 false 0) in
  ch_exited c' = true → ∃ earlier status, events = earlier ++ [Waited (Reaped status)].
Proof.
  pose proof (child_reaped_once "/bin/x" 7
    [Poll StillRunning; Kill None; Wait (Reaped (KilledBy 9)); Kill None; Wait StillRunning]
    (mkChild 7 false 0) eq_refl) as H. revert H. cbv zeta.
  destruct (perform_all _ _) as [events c']. intros (_ & _ & Hdead) Hout.
  destruct (Hdead Hout) as [(earlier & status & E & _) _]. by exists earlier, status.
Defined.

(** A poll that fails answers that the process does not run and leaves it
    unreaped: the destructor still signals the number. *)
Example failed_poll_signals_later :
  let '(_, c, alive) := running (WaitError "no child processes") (mkChild 7 false 0) in
  alive = false ∧ (destroy None (WaitError "no child processes") c).1
                  = [Signalled None; Waited (WaitError "no child processes")].
Proof. split; reflexivity. Qed.
