(* ===== verification/Checked.v ===== *)
(** * Checked arithmetic

    Models include/cf/checked.hpp: the helpers every size, count or offset
    derived from external input passes through. [w] is the width of the
    unsigned type the C++ template is instantiated at; the arithmetic the code
    performs after its guard is written with the wrap-around it would have. *)

From S2P Require Import Prelude.

Definition checkedAdd (w : Z) (a b : Z) : option Z :=
  if a >? (2 ^ w - 1) - b then None else Some ((a + b) mod 2 ^ w).

Definition checkedSub (w : Z) (a b : Z) : option Z :=
  if b >? a then None else Some ((a - b) mod 2 ^ w).

Definition checkedMul (w : Z) (a b : Z) : option Z :=
  if negb (a =? 0) && (b >? (2 ^ w - 1) / a) then None else Some ((a * b) mod 2 ^ w).

(** [checkedCast<To, From>] between integral types of the given signedness and
    width; the three branches are the template's [if constexpr]. *)
Record IntType := mkInt { signed : bool; width : Z }.
Definition int_min (t : IntType) : Z := if signed t then - 2 ^ (width t - 1) else 0.
Definition int_max (t : IntType) : Z :=
  if signed t then 2 ^ (width t - 1) - 1 else 2 ^ width t - 1.
(** [static_cast<T>]: reduction modulo [2 ^ width] into the range of [T]. *)
Definition cast_to (t : IntType) (v : Z) : Z :=
  let m := v mod 2 ^ width t in
  if signed t && (m >=? 2 ^ (width t - 1)) then m - 2 ^ width t else m.

Definition checkedCast (to from : IntType) (v : Z) : option Z :=
  if Bool.eqb (signed from) (signed to) then
    if (v <? cast_to from (int_min to)) || (v >? cast_to from (int_max to))
    then None else Some (cast_to to v)
  else if signed from then
    if v <? 0 then None
    else
      let ufrom := mkInt false (width from) in
      if cast_to ufrom v >? cast_to ufrom (int_max to) then None else Some (cast_to to v)
  else
    let uto := mkInt false (width to) in
    if v >? cast_to uto (int_max to) then None else Some (cast_to to v).

Definition saturatingSub (w : Z) (a b : Z) : Z := if b >? a then 0 else (a - b) mod 2 ^ w.

(** ** Laws *)

Section checked.
Context (w : Z) (Hw : 0 <= w).

Lemma checkedAdd_spec a b :
  fits w a → fits w b →
  checkedAdd w a b = if decide (a + b < 2 ^ w) then Some (a + b) else None.
Proof using Hw.
  unfold fits, checkedAdd. intros Ha Hb.
  destruct (Z.gtb_spec a (2 ^ w - 1 - b)); case_decide; try lia; [done|].
  by rewrite Z.mod_small by lia.
Qed.

Lemma checkedSub_spec a b :
  fits w a → fits w b →
  checkedSub w a b = if decide (b <= a) then Some (a - b) else None.
Proof using Hw.
  unfold fits, checkedSub. intros Ha Hb.
  destruct (Z.gtb_spec b a); case_decide; try lia; [done|].
  by rewrite Z.mod_small by lia.
Qed.

Lemma checkedMul_spec a b :
  fits w a → fits w b →
  checkedMul w a b = if decide (a * b < 2 ^ w) then Some (a * b) else None.
Proof using Hw.
  unfold fits, checkedMul. intros Ha Hb.
  destruct (Z.eqb_spec a 0) as [->|Ha0]; simpl.
  { rewrite decide_True by lia. done. }
  pose proof (Z.mul_div_le (2 ^ w - 1) a ltac:(lia)).
  pose proof (Z.mul_succ_div_gt (2 ^ w - 1) a ltac:(lia)).
  destruct (Z.gtb_spec b ((2 ^ w - 1) / a)); case_decide; try done; try nia.
  rewrite Z.mod_small by nia. done.
Qed.

Lemma saturatingSub_spec a b :
  fits w a → fits w b → saturatingSub w a b = Z.max 0 (a - b).
Proof using Hw.
  unfold fits, saturatingSub. intros Ha Hb.
  destruct (Z.gtb_spec b a); [lia|]. rewrite Z.mod_small; lia.
Qed.
End checked.

(** ** Narrowing casts *)

(** [v] is a value of [t]. *)
Definition representable (t : IntType) (v : Z) : Prop := int_min t <= v <= int_max t.
#[global] Instance representable_dec t v : Decision (representable t v).
Proof. unfold representable. apply _. Defined.

Section checked_cast.
Context (to from : IntType) (Hto : 0 < width to) (Hfrom : 0 < width from).

Lemma pow_half w : 0 < w → 2 ^ w = 2 * 2 ^ (w - 1).
Proof using. intros. rewrite <- Z.pow_succ_r by lia. f_equal. lia. Qed.

Lemma cast_to_representable t v : 0 < width t → representable t v → cast_to t v = v.
Proof using.
  unfold representable, cast_to, int_min, int_max. intros Hw Hv.
  pose proof (pow_half _ Hw) as Hp.
  pose proof (Z.pow_pos_nonneg 2 (width t - 1) ltac:(lia) ltac:(lia)) as Hpos.
  destruct (signed t); simpl in *.
  - destruct (Z.lt_ge_cases v 0).
    + rewrite <- (Z.mod_unique v (2 ^ width t) (-1) (v + 2 ^ width t)) by lia.
      destruct (Z.geb_spec (v + 2 ^ width t) (2 ^ (width t - 1))); lia.
    + rewrite Z.mod_small by lia.
      destruct (Z.geb_spec v (2 ^ (width t - 1))); lia.
  - apply Z.mod_small. lia.
Qed.

Lemma ones_mod a b : 0 <= a <= b → (2 ^ b - 1) mod 2 ^ a = 2 ^ a - 1.
Proof using.
  intros H. symmetry. apply (Z.mod_unique _ _ (2 ^ (b - a) - 1)).
  - pose proof (Z.pow_pos_nonneg 2 a ltac:(lia) ltac:(lia)). lia.
  - rewrite Z.mul_sub_distr_l, <- Z.pow_add_r by lia.
    replace (a + (b - a)) with b by lia. lia.
Qed.

(** The bound the code compares against, after its own cast. *)
Lemma cast_int_max_unsigned w t :
  0 < w → 0 < width t →
  cast_to (mkInt false w) (int_max t) =
    Z.min (2 ^ w - 1) (int_max t).
Proof using.
  intros Hw Ht. unfold cast_to, int_max; simpl.
  assert (∀ m, 0 <= m → (2 ^ m - 1) mod 2 ^ w = Z.min (2 ^ w - 1) (2 ^ m - 1)) as Hm.
  { intros m Hm0. destruct (Z.le_ge_cases w m) as [Hle|Hle].
    - rewrite ones_mod by lia.
      pose proof (Z.pow_le_mono_r 2 w m ltac:(lia) Hle). lia.
    - pose proof (Z.pow_le_mono_r 2 m w ltac:(lia) Hle).
      pose proof (Z.pow_pos_nonneg 2 m ltac:(lia) ltac:(lia)).
      rewrite Z.mod_small by lia. lia. }
  destruct (signed t); apply Hm; lia.
Qed.

Lemma checkedCast_exact v :
  representable from v →
  (signed from = true → signed to = true → width to <= width from) →
  checkedCast to from v = if decide (representable to v) then Some v else None.
Proof using Hto Hfrom.
  intros Hv Hsig.
  enough (checkedCast to from v =
            if decide (representable to v) then Some (cast_to to v) else None) as ->.
  { case_decide; [by rewrite cast_to_representable|done]. }
  assert (∀ b : bool, b = negb (bool_decide (representable to v)) →
            (if b then None else Some (cast_to to v)) =
            if decide (representable to v) then Some (cast_to to v) else None) as Hb.
  { intros b ->. case_bool_decide; case_decide; done. }
  unfold checkedCast.
  destruct to as [st wt], from as [sf wf];
    unfold representable, int_min, int_max in *; simpl in *.
  destruct sf, st; simpl in *.
  - specialize (Hsig eq_refl eq_refl).
    pose proof (Z.pow_le_mono_r 2 (wt - 1) (wf - 1) ltac:(lia) ltac:(lia)).
    pose proof (Z.pow_pos_nonneg 2 (wt - 1) ltac:(lia) ltac:(lia)).
    rewrite (cast_to_representable _ (- 2 ^ (wt - 1))),
      (cast_to_representable _ (2 ^ (wt - 1) - 1))
      by (unfold representable, int_min, int_max; simpl; lia).
    apply Hb. case_bool_decide; lia.
  - pose proof (cast_int_max_unsigned wf (mkInt false wt) ltac:(lia) ltac:(simpl; lia)) as Hm.
    unfold int_max in Hm; simpl in Hm; rewrite Hm; clear Hm.
    pose proof (pow_half _ Hfrom).
    destruct (Z.ltb_spec v 0); [rewrite decide_False by lia; done|].
    rewrite (cast_to_representable _ v)
      by (unfold representable, int_min, int_max; simpl; lia).
    apply Hb. case_bool_decide; lia.
  - pose proof (cast_int_max_unsigned wt (mkInt true wt) ltac:(lia) ltac:(simpl; lia)) as Hm.
    unfold int_max in Hm; simpl in Hm; rewrite Hm; clear Hm.
    pose proof (pow_half _ Hto).
    pose proof (Z.pow_pos_nonneg 2 (wt - 1) ltac:(lia) ltac:(lia)).
    apply Hb. case_bool_decide; lia.
  - pose proof (cast_int_max_unsigned wf (mkInt false wt) ltac:(lia) ltac:(simpl; lia)) as Hm.
    unfold int_max in Hm; simpl in Hm; rewrite Hm; clear Hm.
    assert (cast_to (mkInt false wf) 0 = 0) as -> by (unfold cast_to; simpl; apply Z.mod_0_l, Z.pow_nonzero; lia).
    apply Hb. case_bool_decide; lia.
Qed.
End checked_cast.
