(* ===== verification/StdMap.v ===== *)
(** * std::map

    [std::map] iterates in key order, and the code depends on that order (the
    bytes of a snapshot, the first transfer found for a stream, the order
    deliveries are driven in). A map is the list of its entries in strictly
    increasing key order, with the operations the source uses: [find],
    [operator[]] assignment, [emplace], [erase] and iteration. *)

From S2P Require Import Prelude.

(** A strict total order given by a three-way comparison ([operator<=>]). *)
Class OrderedKey (K : Type) := {
  key_cmp : K → K → comparison;
  key_cmp_eq a b : key_cmp a b = Eq ↔ a = b;
  key_cmp_antisym a b : key_cmp b a = CompOpp (key_cmp a b);
  key_cmp_trans a b c : key_cmp a b = Lt → key_cmp b c = Lt → key_cmp a c = Lt;
}.

Lemma key_cmp_refl `{OrderedKey K} k : key_cmp k k = Eq.
Proof. by apply key_cmp_eq. Qed.

Create HintDb std_map.

(** Lexicographic comparison of sequences: [std::string] and [std::array]. *)
Section lex.
Context `{OrderedKey A}.

Fixpoint lex_cmp (l k : list A) : comparison :=
  match l, k with
  | [], [] => Eq
  | [], _ :: _ => Lt
  | _ :: _, [] => Gt
  | a :: l, b :: k =>
      match key_cmp a b with Eq => lex_cmp l k | c => c end
  end.

Lemma lex_cmp_eq l k : lex_cmp l k = Eq ↔ l = k.
Proof.
  revert k. induction l as [|a l IH]; intros [|b k]; simpl; try done.
  destruct (key_cmp a b) eqn:E.
  - apply key_cmp_eq in E as ->. rewrite IH. split; [by intros ->|by intros [= ->]].
  - split; [done|]. intros [= -> ->]. by rewrite key_cmp_refl in E.
  - split; [done|]. intros [= -> ->]. by rewrite key_cmp_refl in E.
Qed.

Lemma lex_cmp_antisym l k : lex_cmp k l = CompOpp (lex_cmp l k).
Proof.
  revert k. induction l as [|a l IH]; intros [|b k]; simpl; try done.
  rewrite (key_cmp_antisym a b). destruct (key_cmp a b); simpl; auto.
Qed.

Lemma lex_cmp_trans l k m : lex_cmp l k = Lt → lex_cmp k m = Lt → lex_cmp l m = Lt.
Proof.
  revert k m. induction l as [|a l IH]; intros [|b k] [|c m]; simpl; try done.
  destruct (key_cmp a b) eqn:E1; try done; destruct (key_cmp b c) eqn:E2; try done.
  - apply key_cmp_eq in E1 as ->. rewrite E2. eauto.
  - apply key_cmp_eq in E1 as ->. by rewrite E2.
  - apply key_cmp_eq in E2 as ->. by rewrite E1.
  - by rewrite (key_cmp_trans _ _ _ E1 E2).
Qed.
End lex.

#[global] Program Instance byte_ordered : OrderedKey byte :=
  {| key_cmp a b := byte_val a ?= byte_val b |}.
Next Obligation.
  intros a b. simpl. rewrite Z.compare_eq_iff. split; [apply byte_val_inj|by intros ->].
Qed.
Next Obligation. intros a b. apply Z.compare_antisym. Qed.
Next Obligation. intros a b c. simpl. rewrite !Z.compare_lt_iff. lia. Qed.

#[global] Instance list_ordered `{OrderedKey A} : OrderedKey (list A) :=
  {| key_cmp := lex_cmp; key_cmp_eq := lex_cmp_eq;
     key_cmp_antisym := lex_cmp_antisym; key_cmp_trans := lex_cmp_trans |}.

(** [std::string] compares as its unsigned bytes. *)
#[global] Program Instance string_ordered : OrderedKey string :=
  {| key_cmp a b := lex_cmp (bytes_of_string a) (bytes_of_string b) |}.
Next Obligation.
  intros a b. simpl. rewrite lex_cmp_eq. split; [|by intros ->].
  intros H. by rewrite <- (string_of_bytes_of_string a), H, string_of_bytes_of_string.
Qed.
Next Obligation. intros a b. apply lex_cmp_antisym. Qed.
Next Obligation. intros a b c. apply lex_cmp_trans. Qed.

(** [std::pair] compares its first components first. *)
Definition pair_cmp `{OrderedKey A, OrderedKey B} (x y : A * B) : comparison :=
  match key_cmp x.1 y.1 with Eq => key_cmp x.2 y.2 | c => c end.
#[global] Program Instance pair_ordered `{OrderedKey A, OrderedKey B} : OrderedKey (A * B) :=
  {| key_cmp := pair_cmp |}.
Next Obligation.
  intros A HA B HB [a b] [a' b']. unfold pair_cmp. simpl. split.
  - destruct (key_cmp a a') eqn:E; [|done..]. apply key_cmp_eq in E as ->. by intros ->%key_cmp_eq.
  - intros [= -> ->]. by rewrite !key_cmp_refl.
Qed.
Next Obligation.
  intros A HA B HB [a b] [a' b']. unfold pair_cmp. simpl. rewrite (key_cmp_antisym a a').
  destruct (key_cmp a a'); simpl; [apply key_cmp_antisym|done..].
Qed.
Next Obligation.
  intros A HA B HB [a b] [a' b'] [a'' b'']. unfold pair_cmp. simpl.
  destruct (key_cmp a a') eqn:E1; try done; destruct (key_cmp a' a'') eqn:E2; try done.
  - apply key_cmp_eq in E1 as ->. rewrite E2. apply key_cmp_trans.
  - apply key_cmp_eq in E1 as ->. by rewrite E2.
  - apply key_cmp_eq in E2 as ->. by rewrite E1.
  - by rewrite (key_cmp_trans _ _ _ E1 E2).
Qed.

(** ** The operations *)
Section std_map.
Context `{OrderedKey K} {V : Type}.
Implicit Types (m : list (K * V)) (k : K) (v : V).

Fixpoint map_find k m : option V :=
  match m with
  | [] => None
  | (k', v) :: m => match key_cmp k k' with Eq => Some v | _ => map_find k m end
  end.

(** [m[k] = v] *)
Fixpoint map_assign k v m : list (K * V) :=
  match m with
  | [] => [(k, v)]
  | (k', v') :: m' =>
      match key_cmp k k' with
      | Lt => (k, v) :: m
      | Eq => (k, v) :: m'
      | Gt => (k', v') :: map_assign k v m'
      end
  end.

(** [m.emplace(k, v)]: an existing entry is kept. *)
Definition map_emplace k v m : list (K * V) :=
  match map_find k m with Some _ => m | None => map_assign k v m end.

Fixpoint map_erase k m : list (K * V) :=
  match m with
  | [] => []
  | (k', v') :: m' =>
      match key_cmp k k' with Eq => m' | _ => (k', v') :: map_erase k m' end
  end.

Definition map_size m : Z := zlen m.

(** Keys strictly increase. *)
Definition below k m : Prop := Forall (λ e, key_cmp k (fst e) = Lt) m.
Fixpoint map_sorted m : Prop :=
  match m with [] => True | (k, _) :: m => below k m ∧ map_sorted m end.

(** ** Laws *)

Lemma below_trans k k' m : key_cmp k k' = Lt → below k' m → below k m.
Proof. intros Hk. apply Forall_impl. intros e He. by apply (key_cmp_trans _ k'). Qed.

Lemma below_find k m : below k m → map_find k m = None.
Proof.
  induction m as [|[k' v'] m IH]; simpl; [done|].
  intros Hb. apply Forall_cons_iff in Hb as [Hk Hb]. simpl in Hk. rewrite Hk. auto.
Qed.

Lemma map_find_assign_eq k v m : map_find k (map_assign k v m) = Some v.
Proof.
  induction m as [|[k' v'] m IH]; simpl; [by rewrite key_cmp_refl|].
  destruct (key_cmp k k') eqn:E; simpl; rewrite ?key_cmp_refl, ?E; done.
Qed.

Lemma map_find_assign_ne k k' v m :
  k ≠ k' → map_find k' (map_assign k v m) = map_find k' m.
Proof.
  intros Hne. assert (key_cmp k' k ≠ Eq) as Hc by (rewrite key_cmp_eq; congruence).
  induction m as [|[k2 v2] m IH]; simpl; [by destruct (key_cmp k' k)|].
  destruct (key_cmp k k2) eqn:E; simpl.
  - apply key_cmp_eq in E as ->. by destruct (key_cmp k' k2).
  - by destruct (key_cmp k' k).
  - by rewrite IH.
Qed.

Lemma map_find_assign `{EqDecision K} k k' v m :
  map_find k' (map_assign k v m) = if decide (k = k') then Some v else map_find k' m.
Proof.
  case_decide as Hd; [subst; apply map_find_assign_eq|by apply map_find_assign_ne].
Qed.

Lemma map_find_erase_ne k k' m :
  k ≠ k' → map_find k' (map_erase k m) = map_find k' m.
Proof.
  intros Hne. induction m as [|[k2 v2] m IH]; simpl; [done|].
  destruct (key_cmp k k2) eqn:E; simpl; [|by rewrite IH..].
  apply key_cmp_eq in E as ->.
  destruct (key_cmp k' k2) eqn:E2; [|done..]. by apply key_cmp_eq in E2.
Qed.

Lemma map_find_erase_eq k m : map_sorted m → map_find k (map_erase k m) = None.
Proof.
  induction m as [|[k2 v2] m IH]; simpl; [done|]. intros [Hb Hs].
  destruct (key_cmp k k2) eqn:E; simpl.
  - apply key_cmp_eq in E as ->. by apply below_find.
  - by rewrite E, IH.
  - by rewrite E, IH.
Qed.

Lemma below_assign k k' v m : below k m → key_cmp k k' = Lt → below k (map_assign k' v m).
Proof.
  intros Hb Hk. induction m as [|[k2 v2] m IH]; simpl; [by repeat constructor|].
  apply Forall_cons_iff in Hb as [Hk2 Hb].
  destruct (key_cmp k' k2); repeat constructor; auto. by apply IH.
Qed.

Lemma map_assign_sorted k v m : map_sorted m → map_sorted (map_assign k v m).
Proof.
  induction m as [|[k2 v2] m IH]; simpl; [by repeat constructor|]. intros [Hb Hs].
  destruct (key_cmp k k2) eqn:E; simpl.
  - by apply key_cmp_eq in E as ->.
  - repeat split; [|done..]. constructor; [done|]. by apply (below_trans _ k2).
  - split; [|auto]. apply below_assign; [done|]. by rewrite key_cmp_antisym, E.
Qed.

Lemma below_erase k k' m : below k m → below k (map_erase k' m).
Proof.
  intros Hb. induction m as [|[k2 v2] m IH]; simpl; [done|].
  apply Forall_cons_iff in Hb as [Hk2 Hb]. destruct (key_cmp k' k2); [done|..];
    (constructor; [done|]; by apply IH).
Qed.

Lemma map_erase_sorted k m : map_sorted m → map_sorted (map_erase k m).
Proof.
  induction m as [|[k2 v2] m IH]; simpl; [done|]. intros [Hb Hs].
  destruct (key_cmp k k2); simpl; [done|..]; (split; [by apply below_erase|auto]).
Qed.

(** An entry that a map holds is found under its key. *)
Lemma map_find_elem k v m : map_sorted m → (k, v) ∈ m ↔ map_find k m = Some v.
Proof.
  induction m as [|[k2 v2] m IH]; simpl; [by rewrite elem_of_nil|].
  intros [Hb Hs]. rewrite elem_of_cons, (IH Hs). clear IH.
  destruct (key_cmp k k2) eqn:E.
  - apply key_cmp_eq in E as ->. rewrite (below_find _ _ Hb). naive_solver.
  - split; [|by right]. intros [[= -> ->]|]; [by rewrite key_cmp_refl in E|done].
  - split; [|by right]. intros [[= -> ->]|]; [by rewrite key_cmp_refl in E|done].
Qed.

(** Sorted maps are determined by their lookups. *)
Lemma map_ext_eq m1 m2 :
  map_sorted m1 → map_sorted m2 → (∀ k, map_find k m1 = map_find k m2) → m1 = m2.
Proof.
  revert m2. induction m1 as [|[k1 v1] m1 IH]; intros [|[k2 v2] m2]; simpl; [done|..].
  - intros _ _ Hf. specialize (Hf k2). by rewrite key_cmp_refl in Hf.
  - intros _ _ Hf. specialize (Hf k1). by rewrite key_cmp_refl in Hf.
  - intros [Hb1 Hs1] [Hb2 Hs2] Hf. destruct (key_cmp k1 k2) eqn:E.
    + apply key_cmp_eq in E as ->.
      pose proof (Hf k2) as H2. rewrite key_cmp_refl in H2. injection H2 as ->.
      f_equal. apply IH; [done..|]. intros k. specialize (Hf k).
      destruct (key_cmp k k2) eqn:E2; [|done..].
      apply key_cmp_eq in E2 as ->. by rewrite !below_find.
    + pose proof (Hf k1) as H1. rewrite key_cmp_refl, E in H1.
      rewrite below_find in H1; [done|]. by apply (below_trans _ k2).
    + pose proof (Hf k2) as H2. rewrite key_cmp_refl, (key_cmp_antisym k1), E in H2.
      simpl in H2. rewrite below_find in H2; [done|].
      apply (below_trans _ k1); [|done]. by rewrite (key_cmp_antisym k1), E.
Qed.

(** Emplacing a key above every other key appends the entry. *)
Lemma map_assign_last k v m :
  Forall (λ e, key_cmp (fst e) k = Lt) m → map_assign k v m = m ++ [(k, v)].
Proof.
  induction m as [|[k2 v2] m IH]; simpl; [done|]. intros Hf.
  apply Forall_cons_iff in Hf as [Hk Hf]. simpl in Hk.
  rewrite (key_cmp_antisym k2), Hk. simpl. by rewrite IH.
Qed.

Lemma map_emplace_last k v m :
  Forall (λ e, key_cmp (fst e) k = Lt) m → map_emplace k v m = m ++ [(k, v)].
Proof.
  intros Hf. unfold map_emplace.
  assert (map_find k m = None) as ->; [|by apply map_assign_last].
  induction m as [|[k2 v2] m IH]; simpl; [done|].
  apply Forall_cons_iff in Hf as [Hk Hf]. simpl in Hk.
  rewrite (key_cmp_antisym k2), Hk. simpl. auto.
Qed.

Lemma map_sorted_app_inv m1 k v m2 :
  map_sorted (m1 ++ (k, v) :: m2) → Forall (λ e, key_cmp (fst e) k = Lt) m1.
Proof.
  induction m1 as [|[k1 v1] m1 IH]; simpl; [by constructor|]. intros [Hb Hs].
  constructor; [|auto]. unfold below in Hb. rewrite Forall_app, Forall_cons_iff in Hb.
  simpl. tauto.
Qed.

(** Rebuilding a map by emplacing its own entries in order gives it back. *)
Lemma map_emplace_rebuild m1 m2 :
  map_sorted (m1 ++ m2) →
  foldl (λ acc e, map_emplace (fst e) (snd e) acc) m1 m2 = m1 ++ m2.
Proof.
  revert m1. induction m2 as [|[k v] m2 IH]; intros m1 Hs; simpl.
  - by rewrite app_nil_r.
  - rewrite map_emplace_last by (by eapply map_sorted_app_inv).
    rewrite IH by (by rewrite <- app_assoc). by rewrite <- app_assoc.
Qed.
End std_map.

#[global] Hint Resolve map_assign_sorted map_erase_sorted : std_map.

(** ** Maps keyed by a field of the value

    [std::map<Id, Record>] where every record is stored under its own
    identity. *)
Section keyed.
Context `{OrderedKey K} {V : Type} (key : V → K) (P : V → Prop).
Implicit Types (m : list (K * V)) (k : K) (v : V).

Record keyed m : Prop := {
  keyed_sorted : map_sorted m;
  keyed_entries : Forall (λ e, e.1 = key e.2 ∧ P e.2) m;
}.

(** [for (...) { read v; m.emplace(key(v), v); }] *)
Definition map_build (vs : list V) m : list (K * V) :=
  foldl (λ acc v, map_emplace (key v) v acc) m vs.

Lemma keyed_nil : keyed [].
Proof. by split. Qed.

Lemma map_assign_Forall (Q : K * V → Prop) k v m :
  Q (k, v) → Forall Q m → Forall Q (map_assign k v m).
Proof.
  intros Hq. induction m as [|[k' v'] m IH]; simpl; intros Hm; [by constructor|].
  apply Forall_cons_iff in Hm as [Hk Hm]. destruct (key_cmp k k'); auto.
Qed.

Lemma map_erase_Forall (Q : K * V → Prop) k m : Forall Q m → Forall Q (map_erase k m).
Proof.
  induction m as [|[k' v'] m IH]; simpl; intros Hm; [done|].
  apply Forall_cons_iff in Hm as [Hk Hm]. destruct (key_cmp k k'); auto.
Qed.

Lemma keyed_assign v m : P v → keyed m → keyed (map_assign (key v) v m).
Proof.
  intros Hv [Hs Hf]. split; [by apply map_assign_sorted|]. by apply map_assign_Forall.
Qed.

Lemma keyed_erase k m : keyed m → keyed (map_erase k m).
Proof. intros [Hs Hf]. split; [by apply map_erase_sorted|]. by apply map_erase_Forall. Qed.

Lemma keyed_emplace v m : P v → keyed m → keyed (map_emplace (key v) v m).
Proof. intros Hv Hm. unfold map_emplace. destruct (map_find _ m); [done|by apply keyed_assign]. Qed.

Lemma keyed_build vs m : Forall P vs → keyed m → keyed (map_build vs m).
Proof.
  revert m. induction vs as [|v vs IH]; intros m Hv Hm; [done|].
  apply Forall_cons_iff in Hv as [Hv Hvs]. simpl. apply IH; [done|]. by apply keyed_emplace.
Qed.

Lemma keyed_find k v m : keyed m → map_find k m = Some v → k = key v ∧ P v.
Proof.
  intros [Hs Hf] Hfind. apply map_find_elem in Hfind; [|done].
  rewrite Forall_forall in Hf. apply (Hf (k, v)). by apply list_elem_of_In.
Qed.

Lemma keyed_values m : keyed m → Forall P (map snd m).
Proof. intros [_ Hf]. apply Forall_map. revert Hf. apply Forall_impl. by intros e []. Qed.

Lemma map_build_rebuild m : keyed m → map_build (map snd m) [] = m.
Proof.
  intros [Hs Hf]. rewrite <- (map_emplace_rebuild [] m Hs) at 2. unfold map_build.
  generalize (@nil (K * V)). clear Hs. induction m as [|[k v] m IH]; intros acc; [done|].
  apply Forall_cons_iff in Hf as [[Hk _] Hf]. simpl in *. subst k. by apply IH.
Qed.
End keyed.
#[global] Arguments map_build {K _ V} key vs m.
#[global] Hint Resolve keyed_nil keyed_assign keyed_erase keyed_build : std_map.

(** Replacing every value, keys kept. *)
Section map_values.
Context `{OrderedKey K} {V : Type} (g : V → V).
Definition map_values (m : list (K * V)) : list (K * V) := map (λ e, (e.1, g e.2)) m.

Lemma map_assign_values k v m :
  map_values (map_assign k v m) = map_assign k (g v) (map_values m).
Proof.
  induction m as [|[k' v'] m IH]; simpl; [done|]. destruct (key_cmp k k'); simpl; [done..|].
  by rewrite IH.
Qed.

Lemma map_erase_values k m : map_values (map_erase k m) = map_erase k (map_values m).
Proof.
  induction m as [|[k' v'] m IH]; simpl; [done|]. destruct (key_cmp k k'); simpl; [done|..];
    by rewrite IH.
Qed.

Lemma map_find_values k m : map_find k (map_values m) = g <$> map_find k m.
Proof. induction m as [|[k' v'] m IH]; simpl; [done|]. by destruct (key_cmp k k'). Qed.
End map_values.
