(* ===== verification/Hash.v ===== *)
(** * Hashing: SHA-256, HMAC, CRC32C and hex

    Models src/hash.cpp. 32-bit words are integers in [0, 2^32); additions
    wrap, complements and rotations are taken at 32 bits. [Sha256] is the
    incremental hasher: [buffer_] holds the [buffered_] pending bytes. *)

From Stdlib Require Import Strings.Byte.
From S2P Require Import Prelude.

(** ** SHA-256 *)
Module Sha256.

Definition mask32 : Z := 2 ^ 32 - 1.
Definition add32 (a b : Z) : Z := (a + b) mod 2 ^ 32.
Definition not32 (a : Z) : Z := Z.lxor a mask32.
Definition rotr32 (value count : Z) : Z :=
  Z.lor (Z.shiftr value count) (Z.land (Z.shiftl value (32 - count)) mask32).

(** The round constants, in decimal. *)
Definition kSha256K : list Z := [
  1116352408; 1899447441; 3049323471; 3921009573; 961987163; 1508970993; 2453635748; 2870763221;
  3624381080; 310598401; 607225278; 1426881987; 1925078388; 2162078206; 2614888103; 3248222580;
  3835390401; 4022224774; 264347078; 604807628; 770255983; 1249150122; 1555081692; 1996064986;
  2554220882; 2821834349; 2952996808; 3210313671; 3336571891; 3584528711; 113926993; 338241895;
  666307205; 773529912; 1294757372; 1396182291; 1695183700; 1986661051; 2177026350; 2456956037;
  2730485921; 2820302411; 3259730800; 3345764771; 3516065817; 3600352804; 4094571909; 275423344;
  430227734; 506948616; 659060556; 883997877; 958139571; 1322822218; 1537002063; 1747873779;
  1955562222; 2024104815; 2227730452; 2361852424; 2428436474; 2756734187; 3204031479; 3329325298].

(** [bigEndian32(block + i * 4)] *)
Definition bigEndian32 (block : list byte) (i : nat) : Z :=
  let p j := byte_val (nth (i * 4 + j) block Byte.x00) in
  Z.lor (Z.lor (Z.lor (Z.shiftl (p 0%nat) 24) (Z.shiftl (p 1%nat) 16))
          (Z.shiftl (p 2%nat) 8)) (p 3%nat).

(** The message schedule [w]: sixteen words of the block, then 48 more. *)
Definition schedule_next (w : list Z) : Z :=
  let i := length w in
  let at_ back := nth (i - back) w 0 in
  let s0 := Z.lxor (Z.lxor (rotr32 (at_ 15%nat) 7) (rotr32 (at_ 15%nat) 18))
              (Z.shiftr (at_ 15%nat) 3) in
  let s1 := Z.lxor (Z.lxor (rotr32 (at_ 2%nat) 17) (rotr32 (at_ 2%nat) 19))
              (Z.shiftr (at_ 2%nat) 10) in
  add32 (add32 (add32 (at_ 16%nat) s0) (at_ 7%nat)) s1.

Fixpoint extend_schedule (n : nat) (w : list Z) : list Z :=
  match n with O => w | S n => extend_schedule n (w ++ [schedule_next w]) end.

Definition schedule (block : list byte) : list Z :=
  extend_schedule 48 (map (bigEndian32 block) (seq 0 16)).

(** The eight working variables [a] to [h]; also the hasher's [state_]. *)
Record Words := mkWords { wa : Z; wb : Z; wc : Z; wd : Z; we : Z; wf : Z; wg : Z; wh : Z }.

Definition round (v : Words) (kw : Z * Z) : Words :=
  let '(k, w) := kw in
  let s1 := Z.lxor (Z.lxor (rotr32 (we v) 6) (rotr32 (we v) 11)) (rotr32 (we v) 25) in
  let ch := Z.lxor (Z.land (we v) (wf v)) (Z.land (not32 (we v)) (wg v)) in
  let temp1 := add32 (add32 (add32 (add32 (wh v) s1) ch) k) w in
  let s0 := Z.lxor (Z.lxor (rotr32 (wa v) 2) (rotr32 (wa v) 13)) (rotr32 (wa v) 22) in
  let maj := Z.lxor (Z.lxor (Z.land (wa v) (wb v)) (Z.land (wa v) (wc v)))
               (Z.land (wb v) (wc v)) in
  let temp2 := add32 s0 maj in
  mkWords (add32 temp1 temp2) (wa v) (wb v) (wc v) (add32 (wd v) temp1) (we v) (wf v) (wg v).

Definition compress (state : Words) (block : list byte) : Words :=
  let v := foldl round state (zip kSha256K (schedule block)) in
  mkWords (add32 (wa state) (wa v)) (add32 (wb state) (wb v)) (add32 (wc state) (wc v))
    (add32 (wd state) (wd v)) (add32 (we state) (we v)) (add32 (wf state) (wf v))
    (add32 (wg state) (wg v)) (add32 (wh state) (wh v)).

Record Hasher := mkHasher { state_ : Words; buffer_ : list byte; totalBytes_ : Z }.

Definition init : Hasher :=
  mkHasher (mkWords 0x6a09e667 0xbb67ae85 0x3c6ef372 0xa54ff53a
              0x510e527f 0x9b05688c 0x1f83d9ab 0x5be0cd19) [] 0.

(** [while (data.size() - offset >= buffer_.size()) compress(...)]; the fuel
    is the number of bytes left. *)
Fixpoint compress_blocks (fuel : nat) (state : Words) (data : list byte) : Words * list byte :=
  match fuel with
  | O => (state, data)
  | S fuel =>
      if (64 <=? length data)%nat
      then compress_blocks fuel (compress state (take 64 data)) (drop 64 data)
      else (state, data)
  end.

Definition update (h : Hasher) (data : list byte) : Hasher :=
  let total := (totalBytes_ h + zlen data) mod 2 ^ 64 in
  (* fill a partially filled buffer first *)
  let '(state, buffer, data) :=
    if (0 <? length (buffer_ h))%nat then
      let room := (64 - length (buffer_ h))%nat in
      let buffer := buffer_ h ++ take room data in
      if (length buffer =? 64)%nat
      then (compress (state_ h) buffer, [], drop room data)
      else (state_ h, buffer, drop room data)
    else (state_ h, buffer_ h, data) in
  let '(state, rest) := compress_blocks (length data) state data in
  mkHasher state (buffer ++ rest) total.

(** Big-endian bytes of a 32-bit word. *)
Definition word_bytes (v : Z) : list byte :=
  [byte_of (Z.shiftr v 24); byte_of (Z.shiftr v 16); byte_of (Z.shiftr v 8); byte_of v].

(** The padded tail that [finish] compresses. *)
Definition padZeros (held : nat) : nat :=
  let afterMarker := ((held + 1) mod 64)%nat in
  if (afterMarker <=? 56)%nat then 56 - afterMarker else 120 - afterMarker.

Definition final_block (h : Hasher) : list byte :=
  let bitLength := (totalBytes_ h * 8) mod 2 ^ 64 in
  buffer_ h ++ [byte_of 0x80] ++ repeat Byte.x00 (padZeros (length (buffer_ h)))
    ++ map (λ i, byte_of (Z.shiftr bitLength (56 - Z.of_nat i * 8))) (seq 0 8).

(** The two CF_CONTRACT checks of [finish]. *)
Definition finish_contract (h : Hasher) : bool :=
  (length (final_block h) <=? 128)%nat && (length (final_block h) mod 64 =? 0)%nat.

Definition finish (h : Hasher) : list byte :=
  let data := final_block h in
  let '(s, _) := compress_blocks (length data) (state_ h) data in
  word_bytes (wa s) ++ word_bytes (wb s) ++ word_bytes (wc s) ++ word_bytes (wd s)
    ++ word_bytes (we s) ++ word_bytes (wf s) ++ word_bytes (wg s) ++ word_bytes (wh s).

(** *** Laws *)

(** Absorbing a message: full blocks are compressed, the rest is kept. *)
Definition absorb (state : Words) (data : list byte) : Words * list byte :=
  compress_blocks (length data) state data.

Lemma compress_blocks_fuel n m state data :
  (length data <= n)%nat → (length data <= m)%nat →
  compress_blocks n state data = compress_blocks m state data.
Proof.
  revert m state data. induction n as [|n IH]; intros [|m] state data Hn Hm;
    cbn [compress_blocks]; try done.
  - destruct data; simpl in *; [done|lia].
  - destruct data; simpl in *; [done|lia].
  - destruct (Nat.leb_spec 64 (length data)); [|done].
    apply IH; rewrite length_drop; lia.
Qed.

Lemma absorb_step state data :
  absorb state data =
    if (64 <=? length data)%nat
    then absorb (compress state (take 64 data)) (drop 64 data) else (state, data).
Proof.
  unfold absorb at 1. destruct (length data) as [|n] eqn:E; [done|].
  cbn [compress_blocks]. rewrite E. destruct (Nat.leb_spec 64 (S n)); [|done].
  apply compress_blocks_fuel; rewrite ?length_drop; lia.
Qed.

Lemma absorb_short state data : (length data < 64)%nat → absorb state data = (state, data).
Proof. intros H. rewrite absorb_step. by destruct (Nat.leb_spec 64 (length data)); [lia|]. Qed.

Lemma absorb_rest_short state data : (length (absorb state data).2 < 64)%nat.
Proof.
  remember (length data) as n eqn:Hn. revert state data Hn.
  induction n as [n IH] using lt_wf_ind. intros state data ->. rewrite absorb_step.
  destruct (Nat.leb_spec 64 (length data)); [|done].
  eapply IH; [|done]. rewrite length_drop. lia.
Qed.

Lemma absorb_app state x y :
  absorb state (x ++ y) = let '(s, r) := absorb state x in absorb s (r ++ y).
Proof.
  remember (length x) as n eqn:Hn. revert state x Hn.
  induction n as [n IH] using lt_wf_ind. intros state x ->. rewrite (absorb_step state x).
  destruct (Nat.leb_spec 64 (length x)); [|done].
  rewrite absorb_step, length_app.
  destruct (Nat.leb_spec 64 (length x + length y)); [|lia].
  rewrite take_app_le, drop_app_le by lia.
  eapply IH; [|done]. rewrite length_drop. lia.
Qed.

(** A hasher between calls holds less than a block. *)
Definition hasher_ok (h : Hasher) : Prop := (length (buffer_ h) < 64)%nat.

Lemma update_absorb h data :
  hasher_ok h →
  update h data =
    let '(s, r) := absorb (state_ h) (buffer_ h ++ data) in
    mkHasher s r ((totalBytes_ h + zlen data) mod 2 ^ 64).
Proof.
  unfold hasher_ok, update. intros Hok. destruct h as [st buf tot]; simpl in *.
  destruct (Nat.ltb_spec 0 (length buf)).
  2: { destruct buf; simpl in *; [|lia]. fold (absorb st data).
       by destruct (absorb st data). }
  destruct (Nat.le_gt_cases (64 - length buf) (length data)) as [Hfull|Hpart].
  - rewrite length_app, length_take.
    destruct (Nat.eqb_spec (length buf + (64 - length buf) `min` length data) 64); [|lia].
    fold (absorb (compress st (buf ++ take (64 - length buf) data)) (drop (64 - length buf) data)).
    rewrite (absorb_step _ (buf ++ data)), length_app.
    destruct (Nat.leb_spec 64 (length buf + length data)); [|lia].
    rewrite take_app_ge, drop_app_ge by lia.
    by destruct (absorb _ _).
  - rewrite (take_ge data), (drop_ge data) by lia. rewrite length_app.
    destruct (Nat.eqb_spec (length buf + length data) 64); [lia|]. simpl.
    rewrite absorb_short by (rewrite length_app; lia). by rewrite app_nil_r.
Qed.

Lemma update_ok h data : hasher_ok h → hasher_ok (update h data).
Proof.
  intros Hok. rewrite update_absorb by done.
  pose proof (absorb_rest_short (state_ h) (buffer_ h ++ data)).
  by destruct (absorb _ _).
Qed.

Lemma update_update h x y :
  hasher_ok h → update (update h x) y = update h (x ++ y).
Proof.
  intros Hok. rewrite (update_absorb (update h x)) by by apply update_ok.
  rewrite !(update_absorb h) by done.
  rewrite app_assoc, (absorb_app _ (buffer_ h ++ x)).
  destruct (absorb (state_ h) (buffer_ h ++ x)) as [s r]; simpl.
  destruct (absorb s (r ++ y)). f_equal.
  rewrite zlen_app, Zplus_mod_idemp_l. f_equal. lia.
Qed.

Lemma length_final_block h :
  length (final_block h) = (length (buffer_ h) + 1 + padZeros (length (buffer_ h)) + 8)%nat.
Proof. unfold final_block. rewrite !length_app, length_map, repeat_length. simpl. lia. Qed.

Lemma finish_length h : length (finish h) = 32%nat.
Proof. unfold finish. by destruct (compress_blocks _ _ _). Qed.

Lemma finish_contract_holds h : hasher_ok h → finish_contract h = true.
Proof.
  unfold hasher_ok, finish_contract. rewrite length_final_block.
  generalize (length (buffer_ h)). intros n Hn.
  do 64 (destruct n as [|n]; [reflexivity|]). lia.
Qed.
End Sha256.

Definition sha256 (data : list byte) : list byte :=
  Sha256.finish (Sha256.update Sha256.init data).
(** The [std::string_view] overload. *)
Definition sha256_text (text : string) : list byte := sha256 (bytes_of_string text).

(** A file hashed chunk by chunk: the loops of [hashStagingFile] and of the
    artifact store. *)
Definition sha256_chunks (chunks : list (list byte)) : list byte :=
  Sha256.finish (foldl Sha256.update Sha256.init chunks).

Lemma foldl_update h chunks :
  Sha256.hasher_ok h → chunks ≠ [] →
  foldl Sha256.update h chunks = Sha256.update h (concat chunks).
Proof.
  intros Hh Hne. revert h Hh. induction chunks as [|c chunks IH]; intros h Hh; [done|].
  simpl. destruct (decide (chunks = [])) as [->|Hc]; [by rewrite app_nil_r|].
  rewrite IH by (done || by apply Sha256.update_ok). by rewrite Sha256.update_update.
Qed.

Lemma init_ok : Sha256.hasher_ok Sha256.init.
Proof. unfold Sha256.hasher_ok. simpl. lia. Qed.

Lemma sha256_chunks_concat chunks : sha256_chunks chunks = sha256 (concat chunks).
Proof.
  destruct (decide (chunks = [])) as [->|Hc]; [by vm_compute|].
  unfold sha256_chunks, sha256. by rewrite foldl_update by (done || apply init_ok).
Qed.

Lemma sha256_length data : length (sha256 data) = 32%nat.
Proof. apply Sha256.finish_length. Qed.

(** ** HMAC-SHA256 *)

Definition byte_xor (b : byte) (c : Z) : byte := byte_of (Z.lxor (byte_val b) c).

(** The key brought to the block size: hashed when longer, zero padded. *)
Definition hmac_normalised (key : list byte) : list byte :=
  let key := if (64 <? length key)%nat then sha256 key else key in
  key ++ repeat Byte.x00 (64 - length key).

Definition hmacSha256 (key message : list byte) : list byte :=
  let inner := map (λ b, byte_xor b 0x36) (hmac_normalised key) in
  let outer := map (λ b, byte_xor b 0x5c) (hmac_normalised key) in
  let hasher := Sha256.update (Sha256.update Sha256.init inner) message in
  let innerDigest := Sha256.finish hasher in
  let outerHasher := Sha256.update (Sha256.update Sha256.init outer) innerDigest in
  Sha256.finish outerHasher.

(** The two-hash definition of RFC 2104. *)
Lemma hmacSha256_rfc2104 key message :
  hmacSha256 key message =
    sha256 (map (λ b, byte_xor b 0x5c) (hmac_normalised key)
            ++ sha256 (map (λ b, byte_xor b 0x36) (hmac_normalised key) ++ message)).
Proof.
  unfold hmacSha256, sha256. by rewrite !Sha256.update_update by apply init_ok.
Qed.

(** [constantTimeEquals]: the accumulated differences are zero. *)
Fixpoint accumulate_diff (acc : Z) (a b : list byte) : Z :=
  match a, b with
  | x :: a, y :: b =>
      accumulate_diff (Z.lor acc (Z.lxor (byte_val x) (byte_val y))) a b
  | _, _ => acc
  end.

Definition constantTimeEquals (a b : list byte) : bool :=
  if negb (length a =? length b)%nat then false else accumulate_diff 0 a b =? 0.

Lemma accumulate_diff_0 acc a b :
  length a = length b →
  accumulate_diff acc a b = 0 ↔ acc = 0 ∧ a = b.
Proof.
  revert acc b. induction a as [|x a IH]; intros acc [|y b] Hl; simpl in *; try done.
  - split; [by intros ->|by intros [-> _]].
  - rewrite IH, Z.lor_eq_0_iff, Z.lxor_eq_0_iff by lia. split.
    + intros [[-> Hx] ->]. by rewrite (byte_val_inj _ _ Hx).
    + by intros [-> [= -> ->]].
Qed.

Lemma constantTimeEquals_eq a b : constantTimeEquals a b = true ↔ a = b.
Proof.
  unfold constantTimeEquals. destruct (Nat.eqb_spec (length a) (length b)) as [Hl|Hl]; simpl.
  - rewrite Z.eqb_eq, accumulate_diff_0 by done. tauto.
  - split; [done|]. by intros ->.
Qed.

(** ** CRC32C *)

Definition kPoly : Z := 0x82F63B78.

(** One step of the bit loop of [makeCrc32cTable]. *)
Definition crc_bit (crc : Z) : Z :=
  if negb (Z.land crc 1 =? 0) then Z.lxor (Z.shiftr crc 1) kPoly else Z.shiftr crc 1.

Definition makeCrc32cTable : list Z :=
  map (λ i, Nat.iter 8 crc_bit (Z.of_nat i)) (seq 0 256).
Definition kCrc32cTable : list Z := Eval vm_compute in makeCrc32cTable.

Definition crc_byte (crc : Z) (b : byte) : Z :=
  Z.lxor (nth (Z.to_nat (Z.land (Z.lxor crc (byte_val b)) 255)) kCrc32cTable 0)
    (Z.shiftr crc 8).

Definition crc32cUpdate (state : Z) (data : list byte) : Z := foldl crc_byte state data.

Definition crc32c (data : list byte) : Z :=
  Z.lxor (crc32cUpdate 0xFFFFFFFF data) 0xFFFFFFFF.

(** The [Crc32c] class: [value()] is the raw state. *)
Definition Crc32c_init : Z := 0xFFFFFFFF.

(** *** The table implements the bitwise definition *)

Definition crc_byte_bitwise (crc : Z) (b : byte) : Z :=
  Nat.iter 8 crc_bit (Z.lxor crc (byte_val b)).

Lemma land_1 x : Z.land x 1 = Z.b2z (Z.odd x).
Proof. change 1 with (Z.ones 1) at 1. rewrite Z.land_ones by lia. apply Zmod_odd. Qed.

Lemma crc_bit_odd x : crc_bit x = Z.lxor (Z.shiftr x 1) (if Z.odd x then kPoly else 0).
Proof.
  unfold crc_bit. rewrite land_1. destruct (Z.odd x); simpl; [done|]. by rewrite Z.lxor_0_r.
Qed.

(** The bit step is linear, and shifts the untouched high part down. *)
Lemma crc_bit_lxor_high x h k :
  0 < k → crc_bit (Z.lxor x (Z.shiftl h k)) = Z.lxor (crc_bit x) (Z.shiftl h (k - 1)).
Proof.
  intros Hk. rewrite !crc_bit_odd, Z.shiftr_lxor.
  rewrite <- !Z.bit0_odd, Z.lxor_spec, (Z.shiftl_spec_low _ k 0), xorb_false_r by lia.
  rewrite Z.shiftr_shiftl_l by lia.
  rewrite !Z.lxor_assoc. f_equal. apply Z.lxor_comm.
Qed.

Lemma crc_bits_lxor_high n x h k :
  Z.of_nat n <= k →
  Nat.iter n crc_bit (Z.lxor x (Z.shiftl h k)) =
    Z.lxor (Nat.iter n crc_bit x) (Z.shiftl h (k - Z.of_nat n)).
Proof.
  induction n as [|n IH]; intros Hk; simpl Nat.iter.
  - by rewrite Z.sub_0_r.
  - rewrite IH, crc_bit_lxor_high by lia. do 2 f_equal. lia.
Qed.

Lemma kCrc32cTable_nth i :
  0 <= i < 256 → nth (Z.to_nat i) kCrc32cTable 0 = Nat.iter 8 crc_bit i.
Proof.
  intros Hi. replace i with (Z.of_nat (Z.to_nat i)) at 2 by lia.
  change kCrc32cTable with makeCrc32cTable. unfold makeCrc32cTable.
  set (f := λ i, Nat.iter 8 crc_bit (Z.of_nat i)).
  rewrite nth_indep with (d' := f 0%nat) by (rewrite length_map, length_seq; lia).
  rewrite map_nth, seq_nth by lia. done.
Qed.

Lemma byte_split x : x = Z.lxor (Z.land x 255) (Z.shiftl (Z.shiftr x 8) 8).
Proof.
  apply Z.bits_inj'. intros n Hn. rewrite Z.lxor_spec, Z.land_spec.
  change 255 with (Z.ones 8).
  destruct (Z.lt_ge_cases n 8).
  - rewrite Z.ones_spec_low, Z.shiftl_spec_low by lia. by rewrite andb_true_r, xorb_false_r.
  - rewrite Z.ones_spec_high, Z.shiftl_spec, Z.shiftr_spec by lia.
    rewrite andb_false_r, xorb_false_l. f_equal. lia.
Qed.

Lemma shiftr_byte b : Z.shiftr (byte_val b) 8 = 0.
Proof.
  pose proof (byte_val_range b). rewrite Z.shiftr_div_pow2 by lia.
  apply Z.div_small. lia.
Qed.

Lemma crc_byte_eq_bitwise crc b : crc_byte crc b = crc_byte_bitwise crc b.
Proof.
  unfold crc_byte, crc_byte_bitwise.
  rewrite kCrc32cTable_nth by (rewrite land_255; apply Z.mod_pos_bound; lia).
  rewrite (byte_split (Z.lxor crc (byte_val b))) at 2.
  rewrite crc_bits_lxor_high by lia.
  change (8 - Z.of_nat 8) with 0. rewrite Z.shiftl_0_r, Z.shiftr_lxor, shiftr_byte.
  by rewrite Z.lxor_0_r.
Qed.

(** *** Each step is a bijection of 32-bit states *)

Lemma lxor_fits w a b : 0 <= w → fits w a → fits w b → fits w (Z.lxor a b).
Proof.
  unfold fits. intros Hw Ha Hb.
  enough (Z.lxor a b = Z.lxor a b mod 2 ^ w) as -> by (apply Z.mod_pos_bound; lia).
  rewrite <- (Z.mod_small a (2 ^ w)), <- (Z.mod_small b (2 ^ w)) by lia.
  rewrite <- !Z.land_ones by lia. apply Z.bits_inj'. intros n Hn.
  rewrite !Z.land_spec, !Z.lxor_spec, !Z.land_spec. by do 3 destruct (Z.testbit _ n).
Qed.

Lemma byte_fits b : fits 32 (byte_val b).
Proof. pose proof (byte_val_range b). unfold fits. lia. Qed.

Lemma crc_bit_fits x : fits 32 x → fits 32 (crc_bit x).
Proof.
  intros Hx. rewrite crc_bit_odd. apply lxor_fits; [lia|..].
  - unfold fits in *. rewrite Z.shiftr_div_pow2 by lia.
    split; [apply Z.div_pos; lia|]. apply Z.div_lt_upper_bound; lia.
  - unfold fits, kPoly. destruct (Z.odd x); lia.
Qed.

Lemma crc_bit_top x : fits 32 x → Z.testbit (crc_bit x) 31 = Z.odd x.
Proof.
  intros Hx. rewrite crc_bit_odd, Z.lxor_spec, Z.shiftr_spec by lia.
  rewrite <- (Z.mod_small x (2 ^ 32)) at 1 by (unfold fits in Hx; lia).
  rewrite Z.mod_pow2_bits_high by lia. by destruct (Z.odd x).
Qed.

Lemma crc_bit_inj x y : fits 32 x → fits 32 y → crc_bit x = crc_bit y → x = y.
Proof.
  intros Hx Hy Heq.
  assert (Z.odd x = Z.odd y) as Hodd by (by rewrite <- !crc_bit_top, Heq).
  rewrite !crc_bit_odd, Hodd in Heq.
  apply (f_equal (λ v, Z.lxor v (if Z.odd y then kPoly else 0))) in Heq.
  rewrite !Z.lxor_assoc, !Z.lxor_nilpotent, !Z.lxor_0_r in Heq.
  rewrite (Z.div_mod x 2), (Z.div_mod y 2), !Zmod_odd, Hodd by lia.
  rewrite !Z.shiftr_div_pow2 in Heq by lia. change (2 ^ 1) with 2 in Heq. by rewrite Heq.
Qed.

Lemma crc_bits_fits n x : fits 32 x → fits 32 (Nat.iter n crc_bit x).
Proof. induction n; simpl; auto using crc_bit_fits. Qed.

Lemma crc_bits_inj n x y :
  fits 32 x → fits 32 y → Nat.iter n crc_bit x = Nat.iter n crc_bit y → x = y.
Proof. induction n; simpl; auto using crc_bit_inj, crc_bits_fits. Qed.

Lemma crc_byte_fits crc b : fits 32 crc → fits 32 (crc_byte crc b).
Proof.
  intros Hc. rewrite crc_byte_eq_bitwise. apply crc_bits_fits, lxor_fits; auto using byte_fits.
  lia.
Qed.

Lemma lxor_cancel_l a b c : Z.lxor a b = Z.lxor a c → b = c.
Proof.
  intros H. apply (f_equal (Z.lxor a)) in H.
  by rewrite <- !Z.lxor_assoc, Z.lxor_nilpotent, !Z.lxor_0_l in H.
Qed.

Lemma crc_byte_inj_byte crc b c : fits 32 crc → crc_byte crc b = crc_byte crc c → b = c.
Proof.
  intros Hc Heq. rewrite !crc_byte_eq_bitwise in Heq.
  apply crc_bits_inj in Heq; [|apply lxor_fits; auto using byte_fits; lia..].
  apply byte_val_inj. by eapply lxor_cancel_l.
Qed.

Lemma crc_byte_inj_state crc crc' b :
  fits 32 crc → fits 32 crc' → crc_byte crc b = crc_byte crc' b → crc = crc'.
Proof.
  intros Hc Hc' Heq. rewrite !crc_byte_eq_bitwise in Heq.
  apply crc_bits_inj in Heq; [|apply lxor_fits; auto using byte_fits; lia..].
  rewrite !(Z.lxor_comm _ (byte_val b)) in Heq. by eapply lxor_cancel_l.
Qed.

Lemma crc32cUpdate_fits crc data : fits 32 crc → fits 32 (crc32cUpdate crc data).
Proof.
  revert crc. induction data as [|b data IH]; intros crc Hc; simpl; [done|].
  by apply IH, crc_byte_fits.
Qed.

Lemma crc32cUpdate_app crc x y :
  crc32cUpdate crc (x ++ y) = crc32cUpdate (crc32cUpdate crc x) y.
Proof. apply foldl_app. Qed.

Lemma crc32cUpdate_inj crc crc' data :
  fits 32 crc → fits 32 crc' →
  crc32cUpdate crc data = crc32cUpdate crc' data → crc = crc'.
Proof.
  revert crc crc'. induction data as [|b data IH]; intros crc crc' Hc Hc'; simpl; [done|].
  intros Heq. apply IH in Heq; [|by apply crc_byte_fits..].
  by apply crc_byte_inj_state in Heq.
Qed.

(** Changing one byte changes the running state. *)
Lemma crc32cUpdate_single_byte crc pre b c post :
  fits 32 crc → b ≠ c →
  crc32cUpdate crc (pre ++ b :: post) ≠ crc32cUpdate crc (pre ++ c :: post).
Proof.
  intros Hc Hne Heq. rewrite !crc32cUpdate_app in Heq. simpl in Heq.
  pose proof (crc32cUpdate_fits crc pre Hc) as Hp.
  apply crc32cUpdate_inj in Heq; [|by apply crc_byte_fits..].
  by apply crc_byte_inj_byte in Heq.
Qed.

Lemma crc32c_init_fits : fits 32 0xFFFFFFFF.
Proof. unfold fits. lia. Qed.

Lemma crc32c_fits data : fits 32 (crc32c data).
Proof.
  unfold crc32c. apply lxor_fits; auto using crc32cUpdate_fits, crc32c_init_fits. lia.
Qed.

Lemma crc32c_single_byte pre b c post :
  b ≠ c → crc32c (pre ++ b :: post) ≠ crc32c (pre ++ c :: post).
Proof.
  intros Hne Heq. unfold crc32c in Heq. rewrite !(Z.lxor_comm _ 0xFFFFFFFF) in Heq.
  apply lxor_cancel_l in Heq. revert Heq.
  by apply crc32cUpdate_single_byte; [apply crc32c_init_fits|].
Qed.

(** ** Hex *)

Definition kDigits : string := "0123456789abcdef".
Definition hex_digit (v : Z) : Ascii.ascii :=
  default Ascii.zero (String.get (Z.to_nat v) kDigits).

Fixpoint toHex (bytes : list byte) : string :=
  match bytes with
  | [] => ""
  | b :: bytes =>
      String (hex_digit (Z.land (Z.shiftr (byte_val b) 4) 0x0F))
        (String (hex_digit (Z.land (byte_val b) 0x0F)) (toHex bytes))
  end.

(** The [nibble] lambda; -1 for a character that is not hexadecimal. *)
Definition nibble (c : Ascii.ascii) : Z :=
  let c := Z.of_N (Ascii.N_of_ascii c) in
  if (48 <=? c) && (c <=? 57) then c - 48
  else if (97 <=? c) && (c <=? 102) then (c - 97) + 10
  else if (65 <=? c) && (c <=? 70) then (c - 65) + 10
  else -1.

Fixpoint fromHex_loop (text : string) : option (list byte) :=
  match text with
  | String h (String l text) =>
      if (nibble h <? 0) || (nibble l <? 0) then None
      else
        bytes ← fromHex_loop text;
        Some (byte_of (Z.lor (Z.shiftl (nibble h) 4) (nibble l)) :: bytes)
  | _ => Some []
  end.

(** [fromHex(text, out)] with an output span of [size] bytes. *)
Definition fromHex (text : string) (size : nat) : option (list byte) :=
  if (String.length text =? size * 2)%nat then fromHex_loop text else None.

Lemma hex_byte b :
  let h := hex_digit (Z.land (Z.shiftr (byte_val b) 4) 0x0F) in
  let l := hex_digit (Z.land (byte_val b) 0x0F) in
  (nibble h <? 0) || (nibble l <? 0) = false ∧
  byte_of (Z.lor (Z.shiftl (nibble h) 4) (nibble l)) = b.
Proof. by destruct b. Qed.

Lemma length_toHex bytes : String.length (toHex bytes) = (length bytes * 2)%nat.
Proof. induction bytes as [|b bytes IH]; simpl; [done|]. by rewrite IH. Qed.

Lemma fromHex_toHex bytes : fromHex (toHex bytes) (length bytes) = Some bytes.
Proof.
  unfold fromHex. rewrite length_toHex, Nat.eqb_refl.
  induction bytes as [|b bytes IH]; [done|].
  cbn [toHex fromHex_loop]. destruct (hex_byte b) as [-> ->]. by rewrite IH.
Qed.

Lemma fromHex_length text size bytes : fromHex text size = Some bytes → length bytes = size.
Proof.
  unfold fromHex. destruct (Nat.eqb_spec (String.length text) (size * 2)) as [Hl|]; [|done].
  revert text bytes Hl. induction size as [|size IH]; intros text bytes Hl.
  - destruct text; [|done]. by intros [= <-].
  - destruct text as [|h [|l text]]; simpl in Hl; [done..|].
    cbn [fromHex_loop]. destruct (_ || _); [done|].
    destruct (fromHex_loop text) eqn:E; simpl; [|done]. intros [= <-]. simpl.
    f_equal. apply (IH text); [lia|done].
Qed.

Lemma toHex_inj a b : toHex a = toHex b → a = b.
Proof.
  intros H. assert (length a = length b) as Hl.
  { apply (f_equal String.length) in H. rewrite !length_toHex in H. lia. }
  pose proof (fromHex_toHex a) as Ha. rewrite H, Hl, fromHex_toHex in Ha. congruence.
Qed.
