(* ===== verification/Rfc8439.v ===== *)
(** * The ChaCha20 keystream of RFC 8439

    A reference for the generator of src/rng.cpp, written from the RFC and not
    from the program: the state as a matrix of four rows, a quarter round on four
    words, column rounds and diagonal rounds, the constants as the text they are,
    rotations and byte order as arithmetic. Nothing of the model of the program
    is used here; Random.v proves that the program computes this. *)

From Stdlib Require Import Strings.Byte.
From S2P Require Import Prelude.

Module Rfc.

(** ** Words (sections 2.1 and 2.2) *)

Definition add (x y : Z) : Z := (x + y) mod 2 ^ 32.
(** [x <<< n]: what leaves a word at the top comes back at the bottom. *)
Definition rotate (n x : Z) : Z := (x * 2 ^ n) mod 2 ^ 32 + x / 2 ^ (32 - n).

Definition quad : Type := Z * Z * Z * Z.

Definition quarter_round (q : quad) : quad :=
  let '(a, b, c, d) := q in
  let a := add a b in let d := rotate 16 (Z.lxor d a) in
  let c := add c d in let b := rotate 12 (Z.lxor b c) in
  let a := add a b in let d := rotate 8 (Z.lxor d a) in
  let c := add c d in let b := rotate 7 (Z.lxor b c) in
  (a, b, c, d).

(** The vector of section 2.1.1. *)
Example quarter_round_vector :
  quarter_round (0x11111111, 0x01020304, 0x9b8d6f43, 0x01234567)
  = (0xea2a92f4, 0xcb1cf8ce, 0x4581472e, 0x5881c4bb).
Proof. vm_compute. reflexivity. Qed.

(** ** The block function (section 2.3) *)

Record matrix := mkMatrix { row_a : quad; row_b : quad; row_c : quad; row_d : quad }.

(** The four columns. *)
Definition column_rounds (m : matrix) : matrix :=
  let '(a0, a1, a2, a3) := row_a m in
  let '(b0, b1, b2, b3) := row_b m in
  let '(c0, c1, c2, c3) := row_c m in
  let '(d0, d1, d2, d3) := row_d m in
  let '(a0, b0, c0, d0) := quarter_round (a0, b0, c0, d0) in
  let '(a1, b1, c1, d1) := quarter_round (a1, b1, c1, d1) in
  let '(a2, b2, c2, d2) := quarter_round (a2, b2, c2, d2) in
  let '(a3, b3, c3, d3) := quarter_round (a3, b3, c3, d3) in
  mkMatrix (a0, a1, a2, a3) (b0, b1, b2, b3) (c0, c1, c2, c3) (d0, d1, d2, d3).

(** A row moved to the left by one place, cyclically. *)
Definition turn (q : quad) : quad := let '(x0, x1, x2, x3) := q in (x1, x2, x3, x0).

(** The diagonals are the columns of the matrix whose row [i] is moved by [i]. *)
Definition diagonal_rounds (m : matrix) : matrix :=
  let m := mkMatrix (row_a m) (turn (row_b m)) (turn (turn (row_c m))) (turn (turn (turn (row_d m)))) in
  let m := column_rounds m in
  mkMatrix (row_a m) (turn (turn (turn (row_b m)))) (turn (turn (row_c m))) (turn (row_d m)).

(** Twenty rounds: ten times the columns and the diagonals. *)
Definition rounds (m : matrix) : matrix := Nat.iter 10 (λ m, diagonal_rounds (column_rounds m)) m.

(** The little-endian word at byte [i]. *)
Definition word (bytes : list byte) (i : nat) : Z :=
  let b k := byte_val (nth (i + k) bytes Byte.x00) in
  b 0%nat + b 1%nat * 2 ^ 8 + b 2%nat * 2 ^ 16 + b 3%nat * 2 ^ 24.
Definition words (bytes : list byte) (i : nat) : quad :=
  (word bytes i, word bytes (i + 4), word bytes (i + 8), word bytes (i + 12)).

Definition constants : list byte := bytes_of_string "expand 32-byte k".

Definition initial (key nonce : list byte) (counter : Z) : matrix :=
  mkMatrix (words constants 0) (words key 0) (words key 16)
    (counter, word nonce 0, word nonce 4, word nonce 8).

Definition serialize_word (w : Z) : list byte :=
  [byte_of (w mod 256); byte_of (w / 2 ^ 8 mod 256); byte_of (w / 2 ^ 16 mod 256);
   byte_of (w / 2 ^ 24 mod 256)].
Definition serialize_sum (x y : quad) : list byte :=
  let '(x0, x1, x2, x3) := x in let '(y0, y1, y2, y3) := y in
  serialize_word (add x0 y0) ++ serialize_word (add x1 y1) ++ serialize_word (add x2 y2)
    ++ serialize_word (add x3 y3).

Definition block (key nonce : list byte) (counter : Z) : list byte :=
  let m := initial key nonce counter in
  let r := rounds m in
  serialize_sum (row_a r) (row_a m) ++ serialize_sum (row_b r) (row_b m)
    ++ serialize_sum (row_c r) (row_c m) ++ serialize_sum (row_d r) (row_d m).

(** The vector of section 2.3.2. *)
Example block_vector :
  map byte_val
    (block (map byte_of (seqZ 0 32)) (map byte_of [0; 0; 0; 9; 0; 0; 0; 0x4a; 0; 0; 0; 0]) 1)
  = [0x10; 0xf1; 0xe7; 0xe4; 0xd1; 0x3b; 0x59; 0x15; 0x50; 0x0f; 0xdd; 0x1f; 0xa3; 0x20; 0x71; 0xc4;
     0xc7; 0xd1; 0xf4; 0xc7; 0x33; 0xc0; 0x68; 0x03; 0x04; 0x22; 0xaa; 0x9a; 0xc3; 0xd4; 0x6c; 0x4e;
     0xd2; 0x82; 0x64; 0x46; 0x07; 0x9f; 0xaa; 0x09; 0x14; 0xc2; 0xd7; 0x05; 0xd9; 0x8b; 0x02; 0xa2;
     0xb5; 0x12; 0x9c; 0xd1; 0xde; 0x16; 0x4e; 0xb9; 0xcb; 0xd0; 0x83; 0xe8; 0xa2; 0x50; 0x3c; 0x4e].
Proof. vm_compute. reflexivity. Qed.

(** ** The keystream (section 2.4) *)

(** Byte [i]: of the block whose counter is [i / 64] past the first. *)
Definition keystream_byte (key nonce : list byte) (counter : Z) (i : nat) : byte :=
  nth (i mod 64) (block key nonce ((counter + Z.of_nat (i / 64)) mod 2 ^ 32)) Byte.x00.
End Rfc.
