(* ===== verification/Random.v ===== *)
(** * Random identities and the seeded generator

    Models include/cf/rng.hpp and src/rng.cpp: the xoshiro256** generator with
    its bounded draws, the ChaCha20 keystream, and the identities expanded from
    the entropy of the operating system, which is an argument. *)

From Stdlib Require Import Strings.Byte.
From S2P Require Import Prelude Hash Rfc8439.

(** ** Words *)

Definition u32 (v : Z) : Z := v mod 2 ^ 32.
Definition u64 (v : Z) : Z := v mod 2 ^ 64.
Definition rotl64 (value count : Z) : Z := Z.lor (u64 (Z.shiftl value count)) (Z.shiftr value (64 - count)).
Definition rotl32 (value count : Z) : Z := Z.lor (u32 (Z.shiftl value count)) (Z.shiftr value (32 - count)).

(** The new state and the output. *)
Definition splitMix64 (state : Z) : Z * Z :=
  let state := u64 (state + 0x9E3779B97F4A7C15) in
  let z := state in
  let z := u64 (Z.lxor z (Z.shiftr z 30) * 0xBF58476D1CE4E5B9) in
  let z := u64 (Z.lxor z (Z.shiftr z 27) * 0x94D049BB133111EB) in
  (state, Z.lxor z (Z.shiftr z 31)).

(** ** The generator *)

Record Rng := mkRng { rng_0 : Z; rng_1 : Z; rng_2 : Z; rng_3 : Z; rng_seed : Z }.

Definition Rng_make (seed : Z) : Rng :=
  let '(state, w0) := splitMix64 seed in
  let '(state, w1) := splitMix64 state in
  let '(state, w2) := splitMix64 state in
  let '(_, w3) := splitMix64 state in
  let w0 := if Z.lor (Z.lor (Z.lor w0 w1) w2) w3 =? 0 then 0x9E3779B97F4A7C15 else w0 in
  mkRng w0 w1 w2 w3 seed.

Definition rng_output (g : Rng) : Z := u64 (rotl64 (u64 (rng_1 g * 5)) 7 * 9).
Definition rng_step (g : Rng) : Rng :=
  let t := u64 (Z.shiftl (rng_1 g) 17) in
  let w2 := Z.lxor (rng_2 g) (rng_0 g) in
  let w3 := Z.lxor (rng_3 g) (rng_1 g) in
  let w1 := Z.lxor (rng_1 g) w2 in
  let w0 := Z.lxor (rng_0 g) w3 in
  let w2 := Z.lxor w2 t in
  mkRng w0 w1 w2 (rotl64 w3 45) (rng_seed g).
Definition next (g : Rng) : Z * Rng := (rng_output g, rng_step g).

(** [(0u - bound) % bound] *)
Definition threshold (bound : Z) : Z := u64 (0 - bound) mod bound.

(** [None]: no draw was accepted within the fuel. *)
Fixpoint bounded_loop (fuel : nat) (bound : Z) (g : Rng) : option (Z * Rng) :=
  match fuel with
  | O => None
  | S fuel =>
      let '(draw, g) := next g in
      if draw >=? threshold bound then Some (draw mod bound, g) else bounded_loop fuel bound g
  end.
Definition bounded (fuel : nat) (bound : Z) (g : Rng) : option (Z * Rng) :=
  if bound =? 0 then Some (0, g) else bounded_loop fuel bound g.

(** [None] also where the subtraction of the bounds overflows a signed integer. *)
Definition boundedSigned (fuel : nat) (low high : Z) (g : Rng) : option (Z * Rng) :=
  if high <=? low then Some (low, g)
  else if high - low >=? 2 ^ 63 then None
  else '(v, g) ← bounded fuel (high - low) g; Some (low + v, g).

Definition chance (fuel : nat) (numerator denominator : Z) (g : Rng) : option (bool * Rng) :=
  if denominator =? 0 then Some (false, g)
  else '(v, g) ← bounded fuel denominator g; Some (v <? numerator, g).

(** [size] bytes; every pass of the loop writes at least one. *)
Fixpoint fill_loop (fuel size : nat) (g : Rng) : list byte * Rng :=
  match fuel, size with
  | O, _ | _, O => ([], g)
  | S fuel, _ =>
      let '(draw, g) := next g in
      let bytes := take size (le_bytes 8 draw) in
      let '(rest, g) := fill_loop fuel (size - length bytes) g in
      (bytes ++ rest, g)
  end.
Definition fillBytes (size : nat) (g : Rng) : list byte * Rng := fill_loop size size g.

(** ** The keystream *)

(** [buffered_] bytes of the buffer have been handed out. *)
Record ChaCha20 := mkChaCha20 { cc_state : list Z; cc_buffer : list byte; cc_buffered : nat }.

Definition littleEndian32 (bytes : list byte) (offset : nat) : Z := le_load (take 4 (drop offset bytes)).

Definition chacha_words (key nonce : list byte) (counter : Z) : list Z :=
  [0x61707865; 0x3320646e; 0x79622d32; 0x6b206574]
  ++ map (λ i, littleEndian32 key (i * 4)) (seq 0 8)
  ++ [counter; littleEndian32 nonce 0; littleEndian32 nonce 4; littleEndian32 nonce 8].

Definition ChaCha20_make (key nonce : list byte) (initialCounter : Z) : ChaCha20 :=
  mkChaCha20 (chacha_words key nonce initialCounter) (repeat Byte.x00 64) 64.

Definition quarterRound (i j k l : nat) (w : list Z) : list Z :=
  let at_ i := nth i w 0 in
  let '(a, b, c, d) := (at_ i, at_ j, at_ k, at_ l) in
  let a := u32 (a + b) in let d := rotl32 (Z.lxor d a) 16 in
  let c := u32 (c + d) in let b := rotl32 (Z.lxor b c) 12 in
  let a := u32 (a + b) in let d := rotl32 (Z.lxor d a) 8 in
  let c := u32 (c + d) in let b := rotl32 (Z.lxor b c) 7 in
  <[l := d]> (<[k := c]> (<[j := b]> (<[i := a]> w))).

Definition double_round (w : list Z) : list Z :=
  let w := quarterRound 0 4 8 12 w in
  let w := quarterRound 1 5 9 13 w in
  let w := quarterRound 2 6 10 14 w in
  let w := quarterRound 3 7 11 15 w in
  let w := quarterRound 0 5 10 15 w in
  let w := quarterRound 1 6 11 12 w in
  let w := quarterRound 2 7 8 13 w in
  quarterRound 3 4 9 14 w.

(** The 64 bytes of a block; the counter moves to the next. *)
Definition block_bytes (state : list Z) : list byte :=
  concat (zip_with (λ w s, le_bytes 4 (u32 (w + s))) (Nat.iter 10 double_round state) state).
Definition next_counter (state : list Z) : list Z := <[12%nat := u32 (nth 12 state 0 + 1)]> state.

(** [size] bytes; every pass of the loop copies at least one. *)
Fixpoint keystream_loop (fuel size : nat) (c : ChaCha20) : list byte * ChaCha20 :=
  match fuel, size with
  | O, _ | _, O => ([], c)
  | S fuel, _ =>
      let c := if (cc_buffered c =? 64)%nat
               then mkChaCha20 (next_counter (cc_state c)) (block_bytes (cc_state c)) 0 else c in
      let taken := Nat.min (64 - cc_buffered c) size in
      let bytes := take taken (drop (cc_buffered c) (cc_buffer c)) in
      let c := mkChaCha20 (cc_state c) (cc_buffer c) (cc_buffered c + taken) in
      let '(rest, c) := keystream_loop fuel (size - taken) c in
      (bytes ++ rest, c)
  end.
Definition keystream (size : nat) (c : ChaCha20) : list byte * ChaCha20 := keystream_loop size size c.

(** [device]: what [std::random_device] returns, call by call. *)
Definition secureRandomBytes (device : nat → Z) (size : nat) : list byte :=
  if (size =? 0)%nat then []
  else
    let drawn i := byte_of (Z.land (device i) 255) in
    (keystream size (ChaCha20_make (map drawn (seq 0 32)) (map drawn (seq 32 12)) 0)).1.
Definition secureRandom128 (device : nat → Z) : list byte := secureRandomBytes device 16.

(** ** Draws *)

(** The draws [bounded] takes for [r]: those accepted whose remainder is [r]. *)
Definition accepted (bound draw : Z) : bool := draw >=? threshold bound.
Definition draws_for (bound r : Z) : list Z :=
  filter (λ d, accepted bound d = true ∧ d mod bound = r) (seqZ 0 (2 ^ 64)).

Section draws.
Context (bound : Z) (Hbound : 0 < bound < 2 ^ 64).

Lemma threshold_rem : threshold bound = 2 ^ 64 mod bound.
Proof.
  unfold threshold, u64. rewrite <- (Z.mod_add (0 - bound) 1), (Z.mod_small _ (2 ^ 64)) by lia.
  rewrite <- (Z.mod_add _ 1 bound) by lia. f_equal. lia.
Qed.

(** What is accepted is a whole number of intervals of the length of the bound. *)
Lemma threshold_whole : threshold bound + 2 ^ 64 / bound * bound = 2 ^ 64.
Proof. rewrite threshold_rem. pose proof (Z.div_mod (2 ^ 64) bound). lia. Qed.
Lemma threshold_small : 0 <= threshold bound < bound.
Proof. apply Z.mod_pos_bound. lia. Qed.

(** The first accepted draw for [r]. *)
Definition first_draw (r : Z) : Z := threshold bound + (r - threshold bound) mod bound.
Lemma first_draw_rem r : 0 <= r < bound → first_draw r mod bound = r.
Proof.
  intros Hr. unfold first_draw. rewrite Z.add_mod_idemp_r by lia.
  rewrite Z.add_comm, Z.sub_add. by apply Z.mod_small.
Qed.

Lemma draws_for_steps r : 0 <= r < bound →
  draws_for bound r ≡ₚ map (λ k, first_draw r + k * bound) (seqZ 0 (2 ^ 64 / bound)).
Proof.
  intros Hr. pose proof threshold_whole as Hw. pose proof threshold_small as Ht.
  pose proof (first_draw_rem r Hr) as Hf. unfold draws_for.
  assert (threshold bound <= first_draw r < threshold bound + bound) as Hfirst.
  { unfold first_draw. pose proof (Z.mod_pos_bound (r - threshold bound) bound). lia. }
  apply NoDup_Permutation.
  - apply list.NoDup_filter, NoDup_seqZ.
  - apply NoDup_fmap_2_strong; [|apply NoDup_seqZ]. intros x y _ _ Hxy. nia.
  - intros d. rewrite list_elem_of_filter, elem_of_seqZ.
    setoid_rewrite list_elem_of_fmap. setoid_rewrite elem_of_seqZ.
    unfold accepted. rewrite Z.geb_leb, Z.leb_le. split.
    + intros [[Hd Hrem] Hrange]. exists ((d - first_draw r) / bound).
      assert ((d - first_draw r) mod bound = 0) as Hz.
      { rewrite Zminus_mod, Hf, Hrem, Z.sub_diag. apply Z.mod_0_l. lia. }
      pose proof (Z.div_mod (d - first_draw r) bound ltac:(lia)) as Hdm. split; [lia|]. nia.
    + intros (k & -> & Hk). rewrite Z.mod_add, Hf by lia. split; [split; [nia|done]|]. nia.
Qed.
End draws.

Lemma bounded_first fuel bound g k : bound ≠ 0 →
  (k < fuel)%nat →
  (∀ i, (i < k)%nat → accepted bound (rng_output (Nat.iter i rng_step g)) = false) →
  accepted bound (rng_output (Nat.iter k rng_step g)) = true →
  bounded fuel bound g
  = Some (rng_output (Nat.iter k rng_step g) mod bound, Nat.iter (S k) rng_step g).
Proof.
  intros Hb Hfuel Hno Hyes. unfold bounded. rewrite (proj2 (Z.eqb_neq _ _) Hb).
  revert fuel g Hfuel Hno Hyes. induction k as [|k IH]; intros [|fuel] g Hfuel Hno Hyes; try lia;
    cbn [bounded_loop next]; unfold accepted in Hyes.
  - cbn in Hyes |- *. by rewrite Hyes.
  - pose proof (Hno 0%nat ltac:(lia)) as H0. unfold accepted in H0. cbn in H0. rewrite H0.
    rewrite (IH fuel (rng_step g)); [|lia| |].
    + by rewrite <- Nat.iter_succ_r, <- (Nat.iter_succ_r (S k)).
    + intros i Hi. rewrite <- Nat.iter_succ_r. apply (Hno (S i)). lia.
    + by rewrite <- Nat.iter_succ_r.
Qed.

(** Bounded draws are unbiased. For every bound, each result below it comes
    from the same number of the [2 ^ 64] draws, [2 ^ 64 / bound]; more than half
    of the draws are accepted; and [bounded] answers with the remainder of the
    first draw that is, as soon as there is one. *)
Theorem bounded_unbiased bound r (Hbound : 0 < bound < 2 ^ 64) (Hr : 0 <= r < bound) :
  Z.of_nat (length (draws_for bound r)) = 2 ^ 64 / bound
  ∧ 2 ^ 64 < 2 * (2 ^ 64 - threshold bound)
  ∧ ∀ fuel g k, (k < fuel)%nat →
      (∀ i, (i < k)%nat → accepted bound (rng_output (Nat.iter i rng_step g)) = false) →
      accepted bound (rng_output (Nat.iter k rng_step g)) = true →
      bounded fuel bound g
      = Some (rng_output (Nat.iter k rng_step g) mod bound, Nat.iter (S k) rng_step g).
Proof.
  split; [|split].
  - rewrite (Permutation_length (draws_for_steps bound Hbound r Hr)), length_map, length_seqZ.
    apply Z2Nat.id, Z.div_pos; lia.
  - pose proof (threshold_small bound Hbound). pose proof (threshold_whole bound Hbound).
    assert (1 <= 2 ^ 64 / bound) by (apply Z.div_le_lower_bound; lia). nia.
  - intros fuel g k. apply bounded_first. lia.
Qed.
Lemma bounded_unbiased_witness : Z.of_nat (length (draws_for 6 5)) = 2 ^ 64 / 6.
Proof. apply (bounded_unbiased 6 5); lia. Defined.

(** ** The state of the generator *)

Definition rng_words (g : Rng) : list Z := [rng_0 g; rng_1 g; rng_2 g; rng_3 g].
Definition rng_ok (g : Rng) : Prop := Forall (fits 64) (rng_words g) ∧ rng_words g ≠ [0; 0; 0; 0].

Lemma u64_fits v : fits 64 (u64 v).
Proof. apply Z.mod_pos_bound. lia. Qed.

Lemma testbit_outside v i : fits 64 v → ¬ 0 <= i < 64 → Z.testbit v i = false.
Proof.
  intros Hv Hi. destruct (Z.neg_nonneg_cases i); [by apply Z.testbit_neg_r|].
  rewrite <- (Z.mod_small v (2 ^ 64)) by done. apply Z.mod_pow2_bits_high. lia.
Qed.

Lemma shifted_bit v n i : 0 <= n → 0 <= i < 64 → Z.testbit (u64 (Z.shiftl v n)) i = Z.testbit v (i - n).
Proof. intros. unfold u64. rewrite Z.mod_pow2_bits_low by lia. apply Z.shiftl_spec. lia. Qed.

(** The value is what is not lost by the shifts. *)
Lemma xorshift_inj v n : 0 < n → fits 64 v → Z.lxor v (u64 (Z.shiftl v n)) = 0 → v = 0.
Proof.
  intros Hn Hv Hx%Z.lxor_eq. apply Z.bits_inj_0. intros i.
  destruct (decide (0 <= i < 64)) as [Hi|]; [|by apply testbit_outside].
  rewrite <- (Z2Nat.id i) in * by lia. generalize dependent (Z.to_nat i). clear i.
  induction n0 as [m IH] using lt_wf_ind. intros Hi. rewrite Hx, shifted_bit by lia.
  destruct (Z.neg_nonneg_cases (Z.of_nat m - n)); [by apply Z.testbit_neg_r|].
  rewrite <- (Z2Nat.id (Z.of_nat m - n)) by lia. apply IH; lia.
Qed.

(** The words before a step are determined by the words after it. *)
Lemma rotl64_bit v n i : fits 64 v → 0 < n < 64 → 0 <= i < 64 →
  Z.testbit (rotl64 v n) i = Z.testbit v ((i - n) mod 64).
Proof.
  intros Hv Hn Hi. unfold rotl64. rewrite Z.lor_spec, shifted_bit, Z.shiftr_spec by lia.
  destruct (Z.lt_ge_cases i n).
  - rewrite (Z.testbit_neg_r v (i - n)) by lia. cbn. f_equal.
    rewrite <- (Z.mod_add _ 1), Z.mod_small by lia. lia.
  - rewrite (testbit_outside v (i + (64 - n))), orb_false_r by (done || lia).
    by rewrite Z.mod_small by lia.
Qed.
Lemma rotl64_fits v n : fits 64 v → 0 < n < 64 → fits 64 (rotl64 v n).
Proof.
  intros Hv Hn. apply lor_fits; [lia|apply u64_fits|]. split; [apply Z.shiftr_nonneg; apply Hv|].
  rewrite Z.shiftr_div_pow2 by lia. apply Z.div_lt_upper_bound; [lia|]. destruct Hv. nia.
Qed.
Lemma rotl64_inj v n : fits 64 v → 0 < n < 64 → rotl64 v n = 0 → v = 0.
Proof.
  intros Hv Hn Hz. apply Z.bits_inj_0. intros i.
  destruct (decide (0 <= i < 64)) as [Hi|]; [|by apply testbit_outside].
  pose proof (rotl64_bit v n ((i + n) mod 64) Hv Hn ltac:(apply Z.mod_pos_bound; lia)) as Hb.
  rewrite Hz, Z.bits_0 in Hb. rewrite Zminus_mod_idemp_l, Z.add_simpl_r, Z.mod_small in Hb by lia. done.
Qed.

Lemma lxor_fits64 a b : fits 64 a → fits 64 b → fits 64 (Z.lxor a b).
Proof. apply lxor_fits. lia. Qed.

Lemma rng_step_ok g : rng_ok g → rng_ok (rng_step g).
Proof.
  intros [Hf Hz]. unfold rng_words in *. rewrite !list.Forall_cons in Hf.
  destruct Hf as (H0 & H1 & H2 & H3 & _). split; cbn.
  - repeat constructor; repeat (apply lxor_fits64 || apply u64_fits || apply rotl64_fits); auto; lia.
  - intros [= E0 E1 E2 E3]. apply Hz.
    apply rotl64_inj in E3; [|by apply lxor_fits64|lia]. apply Z.lxor_eq in E3.
    rewrite E3, Z.lxor_nilpotent, Z.lxor_0_r in E0. rewrite E0, Z.lxor_0_r in E1, E2.
    apply Z.lxor_eq in E1. rewrite <- E1 in E2.
    apply xorshift_inj in E2; [|lia|done]. congruence.
Qed.

Lemma shift_fits64 a n : 0 <= n → fits 64 a → fits 64 (Z.shiftr a n).
Proof.
  intros Hn [H0 H1]. rewrite Z.shiftr_div_pow2 by done. pose proof (Z.pow_pos_nonneg 2 n).
  split; [apply Z.div_pos; lia|]. apply Z.div_lt_upper_bound; nia.
Qed.
Lemma splitMix64_fits state : fits 64 (splitMix64 state).2.
Proof. cbn. apply lxor_fits64; [|apply shift_fits64; [done|]]; apply u64_fits. Qed.

Lemma Rng_make_ok seed : rng_ok (Rng_make seed).
Proof.
  unfold Rng_make.
  destruct (splitMix64 seed) as [a w0] eqn:E0, (splitMix64 a) as [b w1] eqn:E1,
    (splitMix64 b) as [c w2] eqn:E2, (splitMix64 c) as [d w3] eqn:E3.
  pose proof (splitMix64_fits seed) as H0. pose proof (splitMix64_fits a) as H1.
  pose proof (splitMix64_fits b) as H2. pose proof (splitMix64_fits c) as H3.
  rewrite E0 in H0. rewrite E1 in H1. rewrite E2 in H2. rewrite E3 in H3. cbn in *.
  unfold rng_ok, rng_words. cbn. destruct (Z.eqb_spec (Z.lor (Z.lor (Z.lor w0 w1) w2) w3) 0) as [|Hz].
  - split; [|congruence]. repeat constructor; apply H1 || apply H2 || apply H3 || done.
  - split; [repeat constructor; done || apply H0 || apply H1 || apply H2 || apply H3|].
    intros [= -> -> -> ->]. done.
Qed.

(** The generator never gets stuck at zero. Whatever the seed - the guard of
    the constructor included - and however many numbers are drawn, the four words
    are 64-bit integers and not all of them are 0, the one state from which every
    further state, and so every number drawn, is 0. *)
Theorem rng_never_zero seed n : rng_ok (Nat.iter n rng_step (Rng_make seed)).
Proof. induction n as [|n IH]; [apply Rng_make_ok|]. by apply rng_step_ok. Qed.

(** ** The keystream *)

Lemma take_then {A} m t n (l : list A) : (t <= n)%nat →
  take t (drop m l) ++ take (n - t) (drop (m + t) l) = take n (drop m l).
Proof.
  intros Ht. rewrite <- (take_drop t (take n (drop m l))), take_take, skipn_firstn_comm, Nat.min_l by lia.
  by rewrite skipn_skipn, Nat.add_comm.
Qed.

Section stream.
Context (block : nat → list byte) (Hblock : ∀ i, length (block i) = 64%nat).

Definition stream (k : nat) : list byte := concat (map block (seq 0 k)).

Lemma stream_split k j : (j <= k)%nat → stream k = stream j ++ concat (map block (seq j (k - j))).
Proof.
  intros Hj. unfold stream. rewrite <- concat_app, <- map_app. do 2 f_equal.
  rewrite <- seq_app. f_equal. lia.
Qed.
Lemma length_stream k : length (stream k) = (64 * k)%nat.
Proof.
  induction k as [|k IH]; [done|]. rewrite (stream_split (S k) k), length_app, IH by lia.
  replace (S k - k)%nat with 1%nat by lia. cbn. rewrite app_nil_r, Hblock. lia.
Qed.
(** What is left of a block, at its place in the stream. *)
Lemma stream_at k j a t : (j < k)%nat → (a + t <= 64)%nat →
  take t (drop (64 * j + a) (stream k)) = take t (drop a (block j)).
Proof.
  intros Hj Ha. rewrite (stream_split k j) by lia. rewrite <- (length_stream j), drop_app_add.
  replace (k - j)%nat with (S (k - S j)) by lia. cbn [seq map concat].
  rewrite drop_app_le, take_app_le; [done|rewrite length_drop, Hblock; lia|rewrite Hblock; lia].
Qed.
End stream.

(** *** The block function is that of RFC 8439 *)

Lemma rotl32_rotate v n : fits 32 v → 0 < n < 32 → rotl32 v n = Rfc.rotate n v.
Proof.
  intros Hv Hn. unfold rotl32, Rfc.rotate, u32.
  rewrite Z.shiftl_mul_pow2, Z.shiftr_div_pow2 by lia.
  assert (2 ^ 32 = 2 ^ (32 - n) * 2 ^ n) as Hp by (rewrite <- Z.pow_add_r by lia; f_equal; lia).
  assert (0 < 2 ^ n ∧ 0 < 2 ^ (32 - n)) as [? ?] by (split; apply Z.pow_pos_nonneg; lia).
  assert ((v * 2 ^ n) mod 2 ^ 32 = v mod 2 ^ (32 - n) * 2 ^ n) as ->
    by (by rewrite Hp, Z.mul_mod_distr_r by lia).
  rewrite <- Z.shiftl_mul_pow2 by lia. rewrite Z.lor_comm, lor_disjoint; [|lia|].
  - rewrite Z.shiftl_mul_pow2 by lia. lia.
  - split; [apply Z.div_pos; [apply Hv|lia]|]. apply Z.div_lt_upper_bound; [lia|]. rewrite <- Hp. apply Hv.
Qed.

Lemma rotl32_fits v n : fits 32 v → 0 < n < 32 → fits 32 (rotl32 v n).
Proof.
  intros Hv Hn. unfold rotl32.
  apply lor_fits; [lia|apply Z.mod_pos_bound; lia|].
  split; [apply Z.shiftr_nonneg; apply Hv|]. rewrite Z.shiftr_div_pow2 by lia.
  apply Z.div_lt_upper_bound; [lia|]. destruct Hv. nia.
Qed.

Lemma rotate_fits v n : fits 32 v → 0 < n < 32 → fits 32 (Rfc.rotate n v).
Proof. intros Hv Hn. rewrite <- rotl32_rotate by done. by apply rotl32_fits. Qed.

Lemma add_fits x y : fits 32 (Rfc.add x y).
Proof. apply Z.mod_pos_bound. lia. Qed.
Lemma lxor_fits32 a b : fits 32 a → fits 32 b → fits 32 (Z.lxor a b).
Proof. apply lxor_fits. lia. Qed.

Definition quad_fits (q : Rfc.quad) : Prop :=
  let '(a, b, c, d) := q in fits 32 a ∧ fits 32 b ∧ fits 32 c ∧ fits 32 d.

Lemma quarter_round_fits q : quad_fits q → quad_fits (Rfc.quarter_round q).
Proof.
  destruct q as [[[a b] c] d]. intros (Ha & Hb & Hc & Hd). cbn.
  split_and!; repeat (apply add_fits || apply rotate_fits || apply lxor_fits32 || done || lia).
Qed.

(** One quarter round of the program, on the words it is applied to. *)
Lemma quarterRound_spec i j k l w :
  let q := (nth i w 0, nth j w 0, nth k w 0, nth l w 0) in
  quad_fits q →
  quarterRound i j k l w
  = let '(a, b, c, d) := Rfc.quarter_round q in <[l := d]> (<[k := c]> (<[j := b]> (<[i := a]> w))).
Proof.
  cbv zeta. unfold quarterRound.
  generalize (nth i w 0) (nth j w 0) (nth k w 0) (nth l w 0). intros a b c d (Ha & Hb & Hc & Hd).
  assert (∀ x y, u32 (x + y) = Rfc.add x y) as Hadd by done.
  cbn [Rfc.quarter_round]. rewrite !Hadd.
  rewrite !rotl32_rotate by
    repeat (apply add_fits || apply rotl32_fits || apply rotate_fits || apply lxor_fits32 || done || lia).
  reflexivity.
Qed.

(** The matrix as the words of the program. *)
Definition matrix_words (m : Rfc.matrix) : list Z :=
  let '(a0, a1, a2, a3) := Rfc.row_a m in let '(b0, b1, b2, b3) := Rfc.row_b m in
  let '(c0, c1, c2, c3) := Rfc.row_c m in let '(d0, d1, d2, d3) := Rfc.row_d m in
  [a0; a1; a2; a3; b0; b1; b2; b3; c0; c1; c2; c3; d0; d1; d2; d3].
Definition matrix_fits (m : Rfc.matrix) : Prop :=
  quad_fits (Rfc.row_a m) ∧ quad_fits (Rfc.row_b m) ∧ quad_fits (Rfc.row_c m) ∧ quad_fits (Rfc.row_d m).

(** Replace the innermost quarter round of the program, and the one of the
    reference, by its result. *)
Ltac step_quarter :=
  match goal with |- context [quarterRound ?i ?j ?k ?l (?x :: ?w)] =>
    rewrite (quarterRound_spec i j k l (x :: w)) by (cbn [nth quad_fits]; by split_and!)
  end; cbn [nth];
  match goal with |- context [Rfc.quarter_round (?x, ?y, ?z, ?t)] =>
    let H := fresh "Hq" in
    assert (quad_fits (x, y, z, t)) as H by (cbn [quad_fits]; by split_and!);
    apply quarter_round_fits in H;
    let a := fresh "x" in let b := fresh "x" in let c := fresh "x" in let d := fresh "x" in
    destruct (Rfc.quarter_round (x, y, z, t)) as [[[a b] c] d]; destruct H as (? & ? & ? & ?)
  end; cbn [insert list_insert].

#[local] Opaque quarterRound Rfc.quarter_round.

Lemma column_rounds_spec m : matrix_fits m →
  quarterRound 3 7 11 15 (quarterRound 2 6 10 14 (quarterRound 1 5 9 13
    (quarterRound 0 4 8 12 (matrix_words m))))
  = matrix_words (Rfc.column_rounds m)
  ∧ matrix_fits (Rfc.column_rounds m).
Proof.
  destruct m as [[[[a0 a1] a2] a3] [[[b0 b1] b2] b3] [[[c0 c1] c2] c3] [[[d0 d1] d2] d3]].
  intros ((? & ? & ? & ?) & (? & ? & ? & ?) & (? & ? & ? & ?) & (? & ? & ? & ?)).
  cbn [matrix_words Rfc.column_rounds Rfc.row_a Rfc.row_b Rfc.row_c Rfc.row_d].
  do 4 step_quarter. split; [reflexivity|]. by split_and!.
Qed.

Lemma diagonal_rounds_spec m : matrix_fits m →
  quarterRound 3 4 9 14 (quarterRound 2 7 8 13 (quarterRound 1 6 11 12
    (quarterRound 0 5 10 15 (matrix_words m))))
  = matrix_words (Rfc.diagonal_rounds m)
  ∧ matrix_fits (Rfc.diagonal_rounds m).
Proof.
  destruct m as [[[[a0 a1] a2] a3] [[[b0 b1] b2] b3] [[[c0 c1] c2] c3] [[[d0 d1] d2] d3]].
  intros ((? & ? & ? & ?) & (? & ? & ? & ?) & (? & ? & ? & ?) & (? & ? & ? & ?)).
  unfold Rfc.diagonal_rounds.
  cbn [matrix_words Rfc.column_rounds Rfc.turn Rfc.row_a Rfc.row_b Rfc.row_c Rfc.row_d].
  do 4 step_quarter. split; [reflexivity|]. by split_and!.
Qed.
#[local] Transparent quarterRound Rfc.quarter_round.

Lemma rounds_spec m : matrix_fits m →
  Nat.iter 10 double_round (matrix_words m) = matrix_words (Rfc.rounds m)
  ∧ matrix_fits (Rfc.rounds m).
Proof.
  intros Hm. unfold Rfc.rounds. generalize 10%nat as n. intros n.
  induction n as [|n [IH Hf]]; [done|]. rewrite !Nat.iter_succ, IH. unfold double_round. cbv zeta.
  destruct (column_rounds_spec _ Hf) as [-> Hc]. by apply diagonal_rounds_spec.
Qed.

(** *** Words and bytes *)

Lemma littleEndian32_word bytes i : (i + 4 <= length bytes)%nat →
  littleEndian32 bytes i = Rfc.word bytes i.
Proof.
  intros Hi. unfold littleEndian32, Rfc.word. rewrite le_load_val.
  rewrite <- (take_drop i bytes) at 2 3 4 5.
  rewrite !app_nth2 by (rewrite length_take; lia). rewrite length_take, Nat.min_l by lia.
  replace (i + 0 - i)%nat with 0%nat by lia. replace (i + 1 - i)%nat with 1%nat by lia.
  replace (i + 2 - i)%nat with 2%nat by lia. replace (i + 3 - i)%nat with 3%nat by lia.
  assert (4 <= length (drop i bytes))%nat as Hl by (rewrite length_drop; lia).
  destruct (drop i bytes) as [|b0 [|b1 [|b2 [|b3 l]]]]; cbn [length] in Hl; try lia.
  change (take 4 (b0 :: b1 :: b2 :: b3 :: l)) with [b0; b1; b2; b3]. cbn [nth le_val].
  change (2 ^ 8) with 256. change (2 ^ 16) with (256 * 256). change (2 ^ 24) with (256 * 256 * 256). ring.
Qed.

Lemma word_fits bytes i : fits 32 (Rfc.word bytes i).
Proof.
  unfold Rfc.word, fits. pose proof (byte_val_range (nth (i + 0) bytes Byte.x00)).
  pose proof (byte_val_range (nth (i + 1) bytes Byte.x00)).
  pose proof (byte_val_range (nth (i + 2) bytes Byte.x00)).
  pose proof (byte_val_range (nth (i + 3) bytes Byte.x00)). lia.
Qed.

Lemma serialize_le w : le_bytes 4 w = Rfc.serialize_word w.
Proof.
  rewrite le_bytes_digits. unfold Rfc.serialize_word. cbn [le_digits].
  assert (∀ v, byte_of (v mod 256) = byte_of v) as Hb.
  { intros v. apply byte_val_inj. rewrite !byte_val_of. apply Z.mod_mod. lia. }
  rewrite !Hb, !Z.div_div by lia. done.
Qed.

(** The block of a key, a nonce and a counter. *)
Definition chacha_block (key nonce : list byte) (counter : Z) : list byte :=
  block_bytes (chacha_words key nonce counter).

Lemma chacha_words_initial key nonce counter : length key = 32%nat → length nonce = 12%nat →
  fits 32 counter →
  chacha_words key nonce counter = matrix_words (Rfc.initial key nonce counter)
  ∧ matrix_fits (Rfc.initial key nonce counter).
Proof.
  intros Hk Hn Hc. unfold chacha_words. cbn [map seq Nat.mul Nat.add app].
  rewrite !littleEndian32_word by lia. split; [reflexivity|].
  assert (∀ bytes i, quad_fits (Rfc.words bytes i)) as Hw
    by (intros; cbn; split_and!; apply word_fits).
  unfold matrix_fits. cbn [Rfc.initial Rfc.row_a Rfc.row_b Rfc.row_c Rfc.row_d].
  split; [apply Hw|]. split; [apply Hw|]. split; [apply Hw|].
  split; [done|]. split_and!; apply word_fits.
Qed.

Lemma chacha_block_spec key nonce counter : length key = 32%nat → length nonce = 12%nat →
  fits 32 counter → chacha_block key nonce counter = Rfc.block key nonce counter.
Proof.
  intros Hk Hn Hc. destruct (chacha_words_initial key nonce counter Hk Hn Hc) as [Hw Hf].
  unfold chacha_block, block_bytes, Rfc.block. rewrite Hw. destruct (rounds_spec _ Hf) as [-> _].
  cbv zeta. generalize (Rfc.rounds (Rfc.initial key nonce counter)). clear Hw Hf.
  generalize (Rfc.initial key nonce counter).
  intros [[[[a0 a1] a2] a3] [[[b0 b1] b2] b3] [[[c0 c1] c2] c3] [[[d0 d1] d2] d3]]
    [[[[a0' a1'] a2'] a3'] [[[b0' b1'] b2'] b3'] [[[c0' c1'] c2'] c3'] [[[d0' d1'] d2'] d3']].
  cbn [matrix_words Rfc.row_a Rfc.row_b Rfc.row_c Rfc.row_d Rfc.serialize_sum zip_with concat].
  by rewrite !serialize_le, <- !app_assoc, app_nil_r.
Qed.

(** The blocks of the successive counters, [k] of them. *)
Definition chacha20 (key nonce : list byte) (counter : Z) : nat → list byte :=
  stream (λ i, chacha_block key nonce (u32 (counter + Z.of_nat i))).

(** Reads of the given sizes, one after the other. *)
Fixpoint reads (sizes : list nat) (c : ChaCha20) : list (list byte) * ChaCha20 :=
  match sizes with
  | [] => ([], c)
  | size :: sizes =>
      let '(bytes, c) := keystream size c in let '(rest, c) := reads sizes c in (bytes :: rest, c)
  end.

Lemma length_quarterRound i j k l w : length (quarterRound i j k l w) = length w.
Proof. unfold quarterRound. by rewrite !length_insert. Qed.
Lemma length_words a b :
  length (concat (zip_with (λ w s, le_bytes 4 (u32 (w + s))) a b)) = (4 * Nat.min (length a) (length b))%nat.
Proof.
  revert b. induction a as [|x a IH]; intros [|y b]; cbn [zip_with concat]; try done.
  rewrite length_app, length_le_bytes, IH. cbn [length]. lia.
Qed.
Lemma length_block key nonce counter : length (chacha_block key nonce counter) = 64%nat.
Proof.
  unfold chacha_block, block_bytes. rewrite length_words. set (w := chacha_words _ _ _).
  assert (∀ n, length (Nat.iter n double_round w) = 16%nat) as H; [|by rewrite H].
  induction n as [|n IH]; [done|]. cbn [Nat.iter nat_rect]. unfold double_round at 1.
  by rewrite !length_quarterRound.
Qed.
Lemma next_counter_words key nonce counter :
  next_counter (chacha_words key nonce counter) = chacha_words key nonce (u32 (counter + 1)).
Proof. reflexivity. Qed.
#[local] Opaque chacha_words block_bytes next_counter.

Section cipher.
Context (key nonce : list byte) (counter : Z).
Abbreviation block i := (chacha_block key nonce (u32 (counter + Z.of_nat i))) (only parsing).

(** [m] bytes have been handed out, of [j] blocks. *)
Definition at_stream (m : nat) (c : ChaCha20) : Prop :=
  ∃ j, (m + 64 = 64 * j + cc_buffered c)%nat ∧ (cc_buffered c <= 64)%nat
    ∧ cc_state c = chacha_words key nonce (u32 (counter + Z.of_nat j))
    ∧ ((cc_buffered c < 64)%nat → (0 < j)%nat ∧ cc_buffer c = block (j - 1)%nat).

Lemma at_start : fits 32 counter → at_stream 0 (ChaCha20_make key nonce counter).
Proof.
  intros Hc. exists 0%nat. unfold ChaCha20_make. cbn [cc_buffered cc_state cc_buffer].
  rewrite Z.add_0_r, (Z.mod_small counter (2 ^ 32) Hc : u32 counter = counter).
  split; [lia|]. split; [lia|]. split; [done|lia].
Qed.

(** The buffer a pass copies from. *)
Definition refilled (c : ChaCha20) : ChaCha20 :=
  if (cc_buffered c =? 64)%nat
  then mkChaCha20 (next_counter (cc_state c)) (block_bytes (cc_state c)) 0 else c.
Lemma refilled_at m c : at_stream m c → at_stream m (refilled c) ∧ (cc_buffered (refilled c) < 64)%nat.
Proof.
  intros (j & Hm & Hb & Hs & Hbuf). unfold refilled. destruct (Nat.eqb_spec (cc_buffered c) 64) as [E|].
  - cbn. split; [|lia]. exists (S j). cbn. split_and!; [lia..| |].
    + rewrite Hs, next_counter_words. f_equal. unfold u32. rewrite Zplus_mod_idemp_l. f_equal. lia.
    + intros _. split; [lia|]. rewrite Hs. by rewrite Nat.sub_0_r.
  - split; [by exists j|lia].
Qed.

(** One pass hands out the next bytes of the stream. *)
Lemma pass_at m c t : at_stream m c → (cc_buffered c + t <= 64)%nat → (cc_buffered c < 64)%nat →
  at_stream (m + t) (mkChaCha20 (cc_state c) (cc_buffer c) (cc_buffered c + t))
  ∧ ∀ k, (m < 64 * k)%nat →
      take t (drop m (chacha20 key nonce counter k)) = take t (drop (cc_buffered c) (cc_buffer c)).
Proof.
  intros (j & Hm & Hb & Hs & Hbuf) Ht Hroom. destruct (Hbuf Hroom) as [Hj Hblk]. split.
  - exists j. cbn. split_and!; [lia|lia|done|]. intros _. split; assumption.
  - intros k Hk. unfold chacha20. replace m with (64 * (j - 1) + cc_buffered c)%nat by lia.
    rewrite stream_at; [by rewrite Hblk| |lia|lia]. intros i. apply length_block.
Qed.

Lemma keystream_loop_at fuel n m c : (n <= fuel)%nat → at_stream m c →
  let '(out, c') := keystream_loop fuel n c in
  at_stream (m + n) c'
  ∧ ∀ k, (m + n <= 64 * k)%nat → out = take n (drop m (chacha20 key nonce counter k)).
Proof.
  revert n m c. induction fuel as [|fuel IH]; intros n m c Hn Hat;
    (destruct n as [|n]; [cbn; rewrite Nat.add_0_r; by split|]); [lia|].
  cbn [keystream_loop]. fold (refilled c). destruct (refilled_at m c Hat) as [Hat1 Hroom].
  set (c1 := refilled c) in *. clearbody c1. set (t := Nat.min _ _).
  assert (0 < t <= S n)%nat as Ht by lia.
  destruct (pass_at m c1 t Hat1) as [Hat2 Hbytes]; [lia..|].
  pose proof (IH (S n - t)%nat (m + t)%nat _ ltac:(lia) Hat2) as Hrest.
  destruct (keystream_loop fuel (S n - t) _) as [rest c2]. destruct Hrest as [Hat3 Hrest].
  replace (m + t + (S n - t))%nat with (m + S n)%nat in * by lia. split; [done|].
  intros k Hk. rewrite (Hrest k Hk), <- (Hbytes k) by lia. apply take_then. lia.
Qed.
End cipher.

Lemma reads_at key nonce counter k sizes m c : at_stream key nonce counter m c →
  (m + sum_list sizes <= 64 * k)%nat →
  concat (reads sizes c).1 = take (sum_list sizes) (drop m (chacha20 key nonce counter k))
  ∧ map length (reads sizes c).1 = sizes.
Proof.
  revert m c. induction sizes as [|n sizes IH]; intros m c Hat Hk; [done|].
  change (sum_list (n :: sizes)) with (n + sum_list sizes)%nat in *.
  pose proof (keystream_loop_at key nonce counter n n m c (le_n n) Hat) as Hread.
  cbn [reads]. unfold keystream. destruct (keystream_loop n n c) as [bytes c1].
  destruct Hread as [Hat1 Hbytes]. specialize (IH _ _ Hat1 ltac:(lia)).
  destruct (reads sizes c1) as [rest c2]. cbn [fst concat map] in *. destruct IH as [-> ->].
  rewrite (Hbytes k) by lia. split.
  - rewrite <- (take_then m n (n + sum_list sizes)) by lia. do 2 f_equal. lia.
  - f_equal. rewrite length_take, length_drop. unfold chacha20.
    rewrite length_stream by (intros; apply length_block). lia.
Qed.

Lemma nth_take_lt {A} i n (l : list A) d : (i < n)%nat → nth i (take n l) d = nth i l d.
Proof. intros Hi. rewrite !nth_lookup. by rewrite lookup_take_lt. Qed.

(** The bytes of the stream, one by one. *)
Lemma chacha20_bytes key nonce counter k n :
  length key = 32%nat → length nonce = 12%nat → (n <= 64 * k)%nat →
  take n (chacha20 key nonce counter k) = map (Rfc.keystream_byte key nonce counter) (seq 0 n).
Proof.
  intros Hkey Hnonce Hn.
  set (block := λ i, chacha_block key nonce (u32 (counter + Z.of_nat i))).
  assert (∀ i, length (block i) = 64%nat) as Hblock by (intros; apply length_block).
  pose proof (length_stream block Hblock k) as Hlen.
  apply (nth_ext _ _ Byte.x00 (Rfc.keystream_byte key nonce counter 0)).
  { rewrite length_map, length_seq, length_take. unfold chacha20. fold block. lia. }
  intros i Hi. rewrite length_take in Hi. unfold chacha20 in Hi. fold block in Hi.
  rewrite nth_take_lt, map_nth, seq_nth by lia. cbn [Nat.add].
  unfold Rfc.keystream_byte. rewrite <- chacha_block_spec by (done || apply Z.mod_pos_bound; lia).
  change (nth i (stream block k) Byte.x00 = nth (i mod 64) (block (i / 64)%nat) Byte.x00).
  pose proof (Nat.div_mod_eq i 64) as Hdm. pose proof (Nat.mod_upper_bound i 64 ltac:(lia)) as Hm.
  rewrite (stream_split block k (i / 64)) by lia.
  rewrite app_nth2 by (rewrite length_stream by done; lia). rewrite length_stream by done.
  replace (k - i / 64)%nat with (S (k - S (i / 64))) by lia. cbn [seq map concat].
  rewrite app_nth1 by (rewrite Hblock; lia). f_equal. lia.
Qed.

(** C37: the keystream is that of RFC 8439, however it is read. For a key of 32
    bytes, a nonce of 12 and any initial counter, the reads of a fresh cipher, of
    any sizes and across block boundaries, return together exactly the successive
    bytes of the keystream of the RFC, the reference of Rfc8439.v, each once and
    in order (the counter of the blocks wraps at [2 ^ 32]), and every read
    returns as many as were asked for. *)
Theorem keystream_reference key nonce counter sizes
    (Hkey : length key = 32%nat) (Hnonce : length nonce = 12%nat) (Hcounter : fits 32 counter) :
  concat (reads sizes (ChaCha20_make key nonce counter)).1
    = map (Rfc.keystream_byte key nonce counter) (seq 0 (sum_list sizes))
  ∧ map length (reads sizes (ChaCha20_make key nonce counter)).1 = sizes.
Proof.
  destruct (reads_at key nonce counter (sum_list sizes) sizes 0 (ChaCha20_make key nonce counter))
    as [-> Hl]; [by apply at_start|lia|].
  split; [|done]. rewrite drop_0. apply chacha20_bytes; [done..|lia].
Qed.

Lemma keystream_reference_witness :
  concat (reads [7; 80]%nat (ChaCha20_make (repeat Byte.x41 32) (repeat Byte.x42 12) 0)).1
  = map (Rfc.keystream_byte (repeat Byte.x41 32) (repeat Byte.x42 12) 0) (seq 0 87).
Proof.
  assert (fits 32 0) as Hc by (split; done).
  exact (proj1 (keystream_reference (repeat Byte.x41 32) (repeat Byte.x42 12) 0 [7; 80]%nat
                  eq_refl eq_refl Hc)).
Defined.

(** Reads compose, and an identity has the bytes asked for. *)
Lemma length_secureRandomBytes device size : length (secureRandomBytes device size) = size.
Proof.
  unfold secureRandomBytes. destruct (Nat.eqb_spec size 0) as [->|]; [done|].
  set (key := map _ (seq 0 32)). set (nonce := map _ (seq 32 12)).
  destruct (reads_at key nonce 0 (S size) [size] 0 (ChaCha20_make key nonce 0)) as [_ Hl];
    [by apply at_start|cbn; lia|]. cbn [reads] in Hl.
  destruct (keystream size (ChaCha20_make key nonce 0)) as [bytes c]. cbn in Hl |- *. congruence.
Qed.
