(* ===== verification/Ids.v ===== *)
(** * Typed identities

    Models include/cf/strong.hpp, include/cf/digest.hpp, include/cf/ids.hpp
    and src/ids.cpp: tagged strings and integers, digests and opaque
    identities, the identifier policy, the guarantee enumerations, and the
    derived deployment and stream identities. *)

From Stdlib Require Import Strings.Byte Strings.Ascii DecimalString DecimalFacts DecimalZ.
From S2P Require Import Prelude Result StdMap Hash.

(** ** Strong types *)

(** [StrongString<Tag>] and [StrongUint<Tag>]: the tag keeps identities of
    different kinds apart, as the C++ template parameter does. *)
Record StrongString (Tag : Set) := mkString { str : string }.
Arguments mkString {Tag} str.
Arguments str {Tag} s.
Record StrongUint (Tag : Set) := fromValue { value : Z }.
Arguments fromValue {Tag} value.
Arguments value {Tag} s.

#[global] Instance StrongString_eq_dec Tag : EqDecision (StrongString Tag).
Proof. solve_decision. Defined.
#[global] Instance StrongUint_eq_dec Tag : EqDecision (StrongUint Tag).
Proof. solve_decision. Defined.

Definition id_empty {Tag} : StrongString Tag := mkString "".
Definition id_isSet {Tag} (id : StrongString Tag) : bool := negb (bool_decide (str id = "")).
Definition num_unset {Tag} : StrongUint Tag := fromValue 0.
Definition num_isSet {Tag} (n : StrongUint Tag) : bool := negb (value n =? 0).
Definition num_lt {Tag} (a b : StrongUint Tag) : bool := value a <? value b.

Inductive TargetIdTag : Set := .
Inductive ConfigKeyTag : Set := .
Inductive ArtifactIdTag : Set := .
Inductive DeploymentSetIdTag : Set := .
Inductive DeploymentIdTag : Set := .
Inductive NodeIdTag : Set := .
Inductive SchemaIdTag : Set := .
Inductive RolloutSetIdTag : Set := .
Inductive GenerationTag : Set := .
Inductive EpochTag : Set := .
Inductive RevisionTag : Set := .
Inductive SequenceTag : Set := .
Inductive AttemptTag : Set := .
Inductive SchemaVersionTag : Set := .
Inductive StreamTag : Set := .
Inductive TermTag : Set := .

Definition TargetId := StrongString TargetIdTag.
Definition ConfigKey := StrongString ConfigKeyTag.
Definition ArtifactId := StrongString ArtifactIdTag.
Definition DeploymentSetId := StrongString DeploymentSetIdTag.
Definition DeploymentId := StrongString DeploymentIdTag.
Definition NodeId := StrongString NodeIdTag.
Definition SchemaId := StrongString SchemaIdTag.
Definition RolloutSetId := StrongString RolloutSetIdTag.
Definition Generation := StrongUint GenerationTag.
Definition Epoch := StrongUint EpochTag.
Definition Revision := StrongUint RevisionTag.
Definition Sequence := StrongUint SequenceTag.
Definition AttemptId := StrongUint AttemptTag.
Definition SchemaVersion := StrongUint SchemaVersionTag.
Definition StreamId := StrongUint StreamTag.
Definition Term := StrongUint TermTag.

(** Keys of a [std::map] compare through an injective projection. *)
Program Definition ordered_by {A B} `{OrderedKey B} (f : A → B) (inj : ∀ a b, f a = f b → a = b)
  : OrderedKey A := {| key_cmp a b := key_cmp (f a) (f b) |}.
Next Obligation. intros A B ? f inj a b. simpl. rewrite key_cmp_eq. split; [apply inj|by intros ->]. Qed.
Next Obligation. intros A B ? f inj a b. apply key_cmp_antisym. Qed.
Next Obligation. intros A B ? f inj a b c. apply key_cmp_trans. Qed.

Lemma str_inj {Tag} (a b : StrongString Tag) : str a = str b → a = b.
Proof. destruct a, b; simpl; congruence. Qed.
Lemma value_inj {Tag} (a b : StrongUint Tag) : value a = value b → a = b.
Proof. destruct a, b; simpl; congruence. Qed.

#[global] Instance StrongString_ordered Tag : OrderedKey (StrongString Tag) :=
  ordered_by str str_inj.

(** ** Digests and opaque identities *)

Record Digest := fromBytes { digest_bytes : list byte }.
Record OpaqueIdentity (Tag : Set) := mkOpaque { opaque_bytes : list byte }.
Arguments mkOpaque {Tag} opaque_bytes.
Arguments opaque_bytes {Tag} o.

Inductive IncarnationTag : Set := .
Inductive SessionNonceTag : Set := .
Definition IncarnationId := OpaqueIdentity IncarnationTag.
Definition SessionNonce := OpaqueIdentity SessionNonceTag.

#[global] Instance Digest_eq_dec : EqDecision Digest.
Proof. solve_decision. Defined.
#[global] Instance OpaqueIdentity_eq_dec Tag : EqDecision (OpaqueIdentity Tag).
Proof. solve_decision. Defined.

Lemma digest_bytes_inj a b : digest_bytes a = digest_bytes b → a = b.
Proof. destruct a, b; simpl; congruence. Qed.
#[global] Instance Digest_ordered : OrderedKey Digest := ordered_by digest_bytes digest_bytes_inj.

Definition kSha256Bytes : nat := 32.
Definition digest_unset : Digest := fromBytes (repeat Byte.x00 kSha256Bytes).
Definition opaque_unset {Tag} : OpaqueIdentity Tag := mkOpaque (repeat Byte.x00 16).

(** Some byte is not zero. *)
Definition any_nonzero (bytes : list byte) : bool :=
  existsb (λ b, negb (byte_val b =? 0)) bytes.
Definition digest_isSet (d : Digest) : bool := any_nonzero (digest_bytes d).
Definition opaque_isSet {Tag} (o : OpaqueIdentity Tag) : bool := any_nonzero (opaque_bytes o).

Definition digest_hex (d : Digest) : string := toHex (digest_bytes d).
Definition Digest_ofContent (content : list byte) : Digest := fromBytes (sha256 content).
Definition Digest_ofText (text : string) : Digest := fromBytes (sha256_text text).
Definition shortDigest (d : Digest) : string := str_take 12 (digest_hex d).

Definition Digest_parse (hex : string) : Result Digest :=
  if negb (String.length hex =? 64)%nat
  then fail ErrorCode.MalformedInput "digest must be exactly 64 hexadecimal characters"
  else match fromHex hex kSha256Bytes with
       | None => fail_detail ErrorCode.MalformedInput
                   "digest contains non-hexadecimal characters" hex
       | Some bytes => Ok (fromBytes bytes)
       end.

Definition OpaqueIdentity_parse {Tag} (hex : string) : Result (OpaqueIdentity Tag) :=
  match fromHex hex 16 with
  | None => fail ErrorCode.MalformedInput "opaque identity must be 32 hexadecimal characters"
  | Some bytes => Ok (mkOpaque bytes)
  end.

(** Arrays have their declared size. *)
Definition digest_wf (d : Digest) : Prop := length (digest_bytes d) = kSha256Bytes.
Definition opaque_wf {Tag} (o : OpaqueIdentity Tag) : Prop := length (opaque_bytes o) = 16%nat.

(** ** The identifier policy *)

Definition kMaxIdentifierLength : Z := 128.

Definition identifier_char (raw : Ascii.ascii) : bool :=
  let c := Z.of_N (Ascii.N_of_ascii raw) in
  let digit := (48 <=? c) && (c <=? 57) in
  let upper := (65 <=? c) && (c <=? 90) in
  let lower := (97 <=? c) && (c <=? 122) in
  let punctuation := (c =? 46) || (c =? 95) || (c =? 45) || (c =? 58) || (c =? 47) in
  negb (negb digit && negb upper && negb lower && negb punctuation).

Fixpoint string_forallb (p : Ascii.ascii → bool) (text : string) : bool :=
  match text with EmptyString => true | String c text => p c && string_forallb p text end.

Definition isValidIdentifier (text : string) : bool :=
  match text with
  | EmptyString => false
  | String front _ =>
      if slen text >? kMaxIdentifierLength then false
      else if Ascii.eqb front "-"%char then false
      else string_forallb identifier_char text
  end.

Definition parseId {Tag} (what text : string) : Result (StrongString Tag) :=
  if decide (text = "") then fail ErrorCode.MissingField (what +:+ " must not be empty")
  else if negb (isValidIdentifier text)
  then fail_detail ErrorCode.InvalidArgument (what +:+ " is not a valid identifier") text
  else Ok (mkString text).

Definition parseTargetId : string → Result TargetId := parseId "target id".
Definition parseConfigKey : string → Result ConfigKey := parseId "config key".
Definition parseArtifactId : string → Result ArtifactId := parseId "artifact id".
Definition parseDeploymentSetId : string → Result DeploymentSetId := parseId "deployment set id".
Definition parseDeploymentId : string → Result DeploymentId := parseId "deployment id".
Definition parseNodeId : string → Result NodeId := parseId "node id".
Definition parseSchemaId : string → Result SchemaId := parseId "schema id".
Definition parseRolloutSetId : string → Result RolloutSetId := parseId "rollout set id".

(** ** Enumerations *)
Module TargetClass.
Inductive t := Unspecified | NetworkDevice | ControlPlaneParticipant.
End TargetClass.
Abbreviation TargetClass := TargetClass.t.
#[global] Instance TargetClass_eq_dec : EqDecision TargetClass.
Proof. solve_decision. Defined.

Definition TargetClass_raw (c : TargetClass) : Z :=
  match c with
  | TargetClass.Unspecified => 0 | TargetClass.NetworkDevice => 1
  | TargetClass.ControlPlaneParticipant => 2
  end.
#[global] Program Instance TargetClass_enum : WireEnum TargetClass :=
  {| raw := TargetClass_raw;
     all_values := [TargetClass.Unspecified; TargetClass.NetworkDevice;
                    TargetClass.ControlPlaneParticipant] |}.
Next Obligation. solve_enum_complete. Qed.
Next Obligation. solve_enum_inj. Qed.

Definition targetClassName (c : TargetClass) : string :=
  match c with
  | TargetClass.Unspecified => "unspecified"
  | TargetClass.NetworkDevice => "network-device"
  | TargetClass.ControlPlaneParticipant => "control-plane-participant"
  end.
Definition parseTargetClass (text : string) : option TargetClass :=
  if decide (text = "network-device") then Some TargetClass.NetworkDevice
  else if decide (text = "control-plane-participant")
  then Some TargetClass.ControlPlaneParticipant
  else if decide (text = "unspecified") then Some TargetClass.Unspecified
  else None.

Module ApplyGuarantee.
Inductive t := AtomicActivate | PrepareCommitAbort.
End ApplyGuarantee.
Abbreviation ApplyGuarantee := ApplyGuarantee.t.
#[global] Instance ApplyGuarantee_eq_dec : EqDecision ApplyGuarantee.
Proof. solve_decision. Defined.

Definition ApplyGuarantee_raw (g : ApplyGuarantee) : Z :=
  match g with ApplyGuarantee.AtomicActivate => 1 | ApplyGuarantee.PrepareCommitAbort => 2 end.
#[global] Program Instance ApplyGuarantee_enum : WireEnum ApplyGuarantee :=
  {| raw := ApplyGuarantee_raw;
     all_values := [ApplyGuarantee.AtomicActivate; ApplyGuarantee.PrepareCommitAbort] |}.
Next Obligation. solve_enum_complete. Qed.
Next Obligation. solve_enum_inj. Qed.

Definition applyGuaranteeName (g : ApplyGuarantee) : string :=
  match g with
  | ApplyGuarantee.AtomicActivate => "atomic-activate"
  | ApplyGuarantee.PrepareCommitAbort => "prepare-commit-abort"
  end.
Definition parseApplyGuarantee (text : string) : option ApplyGuarantee :=
  if decide (text = "atomic-activate") then Some ApplyGuarantee.AtomicActivate
  else if decide (text = "prepare-commit-abort") then Some ApplyGuarantee.PrepareCommitAbort
  else None.

Module GuaranteeRequirement.
Inductive t := RequireAtomic | AllowPrepareCommit.
End GuaranteeRequirement.
Abbreviation GuaranteeRequirement := GuaranteeRequirement.t.
#[global] Instance GuaranteeRequirement_eq_dec : EqDecision GuaranteeRequirement.
Proof. solve_decision. Defined.

Definition GuaranteeRequirement_raw (r : GuaranteeRequirement) : Z :=
  match r with
  | GuaranteeRequirement.RequireAtomic => 1 | GuaranteeRequirement.AllowPrepareCommit => 2
  end.
#[global] Program Instance GuaranteeRequirement_enum : WireEnum GuaranteeRequirement :=
  {| raw := GuaranteeRequirement_raw;
     all_values := [GuaranteeRequirement.RequireAtomic;
                    GuaranteeRequirement.AllowPrepareCommit] |}.
Next Obligation. solve_enum_complete. Qed.
Next Obligation. solve_enum_inj. Qed.

Definition guaranteeRequirementName (r : GuaranteeRequirement) : string :=
  match r with
  | GuaranteeRequirement.RequireAtomic => "require-atomic"
  | GuaranteeRequirement.AllowPrepareCommit => "allow-prepare-commit"
  end.
Definition parseGuaranteeRequirement (text : string) : option GuaranteeRequirement :=
  if decide (text = "require-atomic") then Some GuaranteeRequirement.RequireAtomic
  else if decide (text = "allow-prepare-commit")
  then Some GuaranteeRequirement.AllowPrepareCommit
  else None.

Definition guaranteeSatisfies (offered : ApplyGuarantee) (required : GuaranteeRequirement) : bool :=
  match required with
  | GuaranteeRequirement.RequireAtomic => bool_decide (offered = ApplyGuarantee.AtomicActivate)
  | GuaranteeRequirement.AllowPrepareCommit =>
      bool_decide (offered = ApplyGuarantee.AtomicActivate)
      || bool_decide (offered = ApplyGuarantee.PrepareCommitAbort)
  end.

(** ** Derived identities *)

Definition deployment_transcript (target : TargetId) (key : ConfigKey) (generation : Generation)
    (digest : Digest) : string :=
  "CF-DEPLOY-V1|" +:+ str target +:+ "|" +:+ str key +:+ "|"
    +:+ to_string (value generation) +:+ "|" +:+ digest_hex digest.

Definition deriveDeploymentId (target : TargetId) (key : ConfigKey) (generation : Generation)
    (digest : Digest) : DeploymentId :=
  mkString (toHex (take 16 (sha256_text (deployment_transcript target key generation digest)))).

Definition stream_transcript (deployment : DeploymentId) (attempt : AttemptId) : string :=
  "CF-STREAM-V1|" +:+ str deployment +:+ "|" +:+ to_string (value attempt).

Definition deriveStreamId (deployment : DeploymentId) (attempt : AttemptId) : StreamId :=
  fromValue (Z.lor (le_load (take 8 (sha256_text (stream_transcript deployment attempt)))) 1).

(** ** Lemmas *)

Lemma string_forallb_app p a b :
  string_forallb p (a +:+ b) = string_forallb p a && string_forallb p b.
Proof. induction a as [|c a IH]; simpl; [done|]. by rewrite IH, andb_assoc. Qed.

Lemma parseId_Ok {Tag} what text (id : StrongString Tag) :
  parseId what text = Ok id ↔ id = mkString text ∧ isValidIdentifier text = true.
Proof.
  unfold parseId. destruct (decide (text = "")) as [->|]; [by split; [|intros []]|].
  destruct (isValidIdentifier text); simpl; split; try done.
  - by intros [= <-].
  - by intros [-> _].
  - by intros [_ ?].
Qed.

Lemma any_nonzero_false l : any_nonzero l = false → l = repeat Byte.x00 (length l).
Proof.
  induction l as [|b l IH]; simpl; [done|]. intros [Hb Hl]%orb_false_iff.
  rewrite <- (IH Hl). f_equal. apply byte_val_inj.
  apply negb_false_iff, Z.eqb_eq in Hb. by rewrite Hb.
Qed.

Lemma digest_isSet_false d : digest_wf d → digest_isSet d = false ↔ d = digest_unset.
Proof.
  intros Hd. split; [|by intros ->].
  intros H%any_nonzero_false. apply digest_bytes_inj. by rewrite H, Hd.
Qed.

Lemma Digest_parse_wf text d : Digest_parse text = Ok d → digest_wf d.
Proof.
  unfold Digest_parse. case_match; [done|]. case_match eqn:E; [|done]. intros [= <-].
  apply (fromHex_length _ _ _ E).
Qed.
Lemma Digest_parse_hex d : digest_wf d → Digest_parse (digest_hex d) = Ok d.
Proof.
  intros Hd. unfold Digest_parse, digest_hex. rewrite length_toHex, Hd. simpl.
  rewrite <- Hd, fromHex_toHex. by destruct d.
Qed.

(** *** Derived identities are well formed *)

Lemma hex_identifier bytes : string_forallb identifier_char (toHex bytes) = true.
Proof.
  induction bytes as [|b bytes IH]; [done|].
  destruct b; cbn -[toHex]; rewrite <- IH; reflexivity.
Qed.

Lemma slen_toHex bytes : slen (toHex bytes) = 2 * zlen bytes.
Proof. unfold slen, zlen. rewrite length_toHex. lia. Qed.

(** Hexadecimal text never starts with ['-'], and is an identifier up to the
    length bound. *)
Lemma toHex_valid bytes : bytes ≠ [] → (length bytes <= 64)%nat → isValidIdentifier (toHex bytes) = true.
Proof.
  intros Hne Hlen. pose proof (hex_identifier bytes) as Hid.
  destruct (toHex bytes) as [|front rest] eqn:E.
  { apply (f_equal String.length) in E. rewrite length_toHex in E. by destruct bytes. }
  unfold isValidIdentifier, kMaxIdentifierLength. rewrite <- E, slen_toHex.
  destruct (Z.gtb_spec (2 * zlen bytes) 128); [unfold zlen in *; lia|].
  rewrite E, Hid. destruct bytes as [|b bytes]; [done|].
  injection E as <- _. clear. by destruct b.
Qed.

(** *** Transcripts are injective *)

Definition not_bar (c : Ascii.ascii) : bool := negb (Ascii.eqb c "|"%char).

Lemma string_forallb_impl (p q : Ascii.ascii → bool) s :
  (∀ c, p c = true → q c = true) → string_forallb p s = true → string_forallb q s = true.
Proof.
  intros Hpq. induction s as [|c s IH]; simpl; [done|].
  intros [Hc Hs]%andb_prop. by rewrite (Hpq c Hc), IH.
Qed.

Lemma identifier_char_not_bar c : identifier_char c = true → not_bar c = true.
Proof.
  unfold not_bar. intros H. destruct (Ascii.eqb_spec c "|"%char) as [->|]; [|done].
  by vm_compute in H.
Qed.

Lemma valid_not_bar s : isValidIdentifier s = true → string_forallb not_bar s = true.
Proof.
  intros H. apply string_forallb_impl with identifier_char; [apply identifier_char_not_bar|].
  destruct s as [|c s]; [done|]. unfold isValidIdentifier in H. by repeat case_match.
Qed.

Lemma uint_not_bar u : string_forallb not_bar (NilEmpty.string_of_uint u) = true.
Proof. induction u; simpl; done. Qed.

Lemma to_string_not_bar v : 0 <= v → string_forallb not_bar (to_string v) = true.
Proof.
  intros Hv. destruct v as [|p|p]; [done| |lia]. unfold to_string. simpl.
  unfold NilZero.string_of_uint. case_match; [done|..]; apply uint_not_bar.
Qed.

Lemma to_string_inj a b : to_string a = to_string b → a = b.
Proof.
  intros H. unfold to_string in H.
  assert (∀ z, NilZero.int_of_string (NilZero.string_of_int (Z.to_int z)) = Some (Z.to_int z)) as Hi.
  { intros z. apply NilZero.isi; destruct z; simpl; try done.
    all: injection; apply DecimalPos.Unsigned.to_uint_nonnil. }
  apply (f_equal NilZero.int_of_string) in H. rewrite !Hi in H. injection H as H.
  by rewrite <- (DecimalZ.of_to a), H, DecimalZ.of_to.
Qed.

Lemma split_at_bar a b x y :
  string_forallb not_bar a = true → string_forallb not_bar b = true →
  a +:+ "|" +:+ x = b +:+ "|" +:+ y → a = b ∧ x = y.
Proof.
  revert b. induction a as [|c a IH]; intros [|d b]; simpl; intros Ha Hb H.
  - by injection H.
  - injection H as Hd _. subst d. done.
  - injection H as Hc _. subst c. done.
  - injection H as -> H. apply andb_prop in Ha as [_ Ha]. apply andb_prop in Hb as [_ Hb].
    destruct (IH b Ha Hb H) as [-> ->]. done.
Qed.

Lemma string_app_inj_l (p a b : string) : p +:+ a = p +:+ b → a = b.
Proof. induction p as [|c p IH]; simpl; [done|]. intros [= H]. by apply IH. Qed.

Lemma digest_hex_inj a b : digest_hex a = digest_hex b → a = b.
Proof. intros H%toHex_inj. by apply digest_bytes_inj. Qed.

(** ** Properties *)

(** A derived deployment identity is always an identifier every parser of
    the system accepts: 32 hexadecimal characters, whatever the inputs. *)
Theorem deriveDeploymentId_valid target key generation digest :
  let id := deriveDeploymentId target key generation digest in
  parseDeploymentId (str id) = Ok id ∧ slen (str id) = 32.
Proof.
  intros id. subst id. unfold deriveDeploymentId. cbn [str].
  set (h := take 16 _). assert (length h = 16%nat) as Hh.
  { unfold h. rewrite length_take. unfold sha256_text. rewrite sha256_length. done. }
  split; [|rewrite slen_toHex; unfold zlen; lia].
  unfold parseDeploymentId. apply parseId_Ok. split; [done|].
  apply toHex_valid; [by destruct h|lia].
Qed.

(** A derived stream identity is never the unset sentinel and fits 64
    bits. *)
Theorem deriveStreamId_set deployment attempt :
  num_isSet (deriveStreamId deployment attempt) = true
  ∧ fits 64 (value (deriveStreamId deployment attempt)).
Proof.
  unfold deriveStreamId, num_isSet. cbn [value].
  set (h := take 8 _). assert (length h = 8%nat) as Hh.
  { unfold h. rewrite length_take. unfold sha256_text. rewrite sha256_length. done. }
  pose proof (le_load_fits h) as Hf. unfold zlen in Hf. rewrite Hh in Hf.
  assert (Z.testbit (Z.lor (le_load h) 1) 0 = true) as Hbit.
  { by rewrite Z.lor_spec, orb_true_r. }
  split.
  - apply negb_true_iff, Z.eqb_neq. intros E. by rewrite E in Hbit.
  - apply (lor_fits 64); [lia|done|by apply (Z.pow_le_mono_r 2 1 64) || (split; lia)].
Qed.

(** The transcript a deployment identity hashes determines the target, the
    key, the generation and the digest: two different deployments never hash
    the same text. *)
Theorem deployment_transcript_inj t k g d t' k' g' d'
    (Ht : isValidIdentifier (str t) = true) (Hk : isValidIdentifier (str k) = true)
    (Ht' : isValidIdentifier (str t') = true) (Hk' : isValidIdentifier (str k') = true)
    (Hg : fits 64 (value g)) (Hg' : fits 64 (value g'))
    (Heq : deployment_transcript t k g d = deployment_transcript t' k' g' d') :
  t = t' ∧ k = k' ∧ g = g' ∧ d = d'.
Proof.
  unfold deployment_transcript in Heq. apply string_app_inj_l in Heq.
  apply split_at_bar in Heq as [H1 Heq]; [|by apply valid_not_bar..].
  apply split_at_bar in Heq as [H2 Heq]; [|by apply valid_not_bar..].
  apply split_at_bar in Heq as [H3 H4]; [|apply to_string_not_bar; unfold fits in *; lia..].
  split; [by apply str_inj|]. split; [by apply str_inj|].
  split; [by apply value_inj, to_string_inj|by apply digest_hex_inj].
Qed.

Lemma deployment_transcript_inj_witness :
  let t : TargetId := mkString "t1" in let k : ConfigKey := mkString "k1" in
  let d := fromBytes (repeat Byte.x01 32) in
  t = t ∧ k = k ∧ @fromValue GenerationTag 7 = fromValue 7 ∧ d = d.
Proof.
  apply (deployment_transcript_inj (mkString "t1") (mkString "k1") (fromValue 7)
           (fromBytes (repeat Byte.x01 32)) (mkString "t1") (mkString "k1") (fromValue 7)
           (fromBytes (repeat Byte.x01 32)));
    first [reflexivity | (split; simpl; lia)].
Defined.

(** The characters an identifier may use. *)
Definition identifier_alphabet : string :=
  "0123456789ABCDEFGHIJKLMNOPQRSTUVWXYZabcdefghijklmnopqrstuvwxyz._-:/".

Fixpoint string_mem (c : Ascii.ascii) (s : string) : bool :=
  match s with EmptyString => false | String d s => Ascii.eqb c d || string_mem c s end.

Lemma identifier_char_alphabet c : identifier_char c = string_mem c identifier_alphabet.
Proof. by destruct c as [[] [] [] [] [] [] [] []]. Qed.

(** An identifier parser succeeds exactly on text of 1 to 128 characters
    of the identifier alphabet that does not start with a dash, and returns
    the text unchanged. *)
Theorem parseTargetId_accepts text id :
  parseTargetId text = Ok id ↔
  id = mkString text ∧ 1 <= slen text <= 128 ∧ String.get 0 text ≠ Some "-"%char
  ∧ string_forallb (λ c, string_mem c identifier_alphabet) text = true.
Proof.
  etransitivity; [apply parseId_Ok|]. apply and_iff_compat_l.
  destruct text as [|front rest]; [split; [done|intros [[H _] _]; by compute in H]|].
  unfold isValidIdentifier, kMaxIdentifierLength.
  assert (1 <= slen (String front rest)) by (unfold slen; simpl; lia).
  destruct (Z.gtb_spec (slen (String front rest)) 128).
  { split; [done|intros [? _]; lia]. }
  assert (string_forallb identifier_char (String front rest) =
          string_forallb (λ c, string_mem c identifier_alphabet) (String front rest)) as ->.
  { generalize (String front rest). intros s.
    induction s as [|c s IH]; simpl; [done|]. by rewrite IH, identifier_char_alphabet. }
  destruct (Ascii.eqb_spec front "-"%char) as [->|Hd].
  - split; [done|intros (_ & [] & _); done].
  - split; [|by intros (_ & _ & ?)]. intros ?. split; [lia|]. split; [|done]. by intros [= ->].
Qed.

(** A target that offers the weaker guarantee never satisfies a
    requirement for atomic activation, and every other pair is accepted; the
    names of guarantees and requirements parse back to themselves. *)
Theorem guaranteeSatisfies_spec offered required :
  (guaranteeSatisfies offered required = false
   ↔ offered = ApplyGuarantee.PrepareCommitAbort ∧ required = GuaranteeRequirement.RequireAtomic)
  ∧ parseApplyGuarantee (applyGuaranteeName offered) = Some offered
  ∧ parseGuaranteeRequirement (guaranteeRequirementName required) = Some required.
Proof. destruct offered, required; (split; [split; [done|by intros []]|done] || by repeat split). Qed.
