(* ===== verification/Text.v ===== *)
(** * Text

    The operations on [std::string_view] the parsers of the program share:
    searching, cutting, trimming, and reading a decimal integer with the
    overflow checks of the code. *)

From Stdlib Require Import Strings.Ascii DecimalString DecimalFacts DecimalN DecimalZ
  DecimalPos.
From S2P Require Import Prelude Result Checked Ids.

Definition char_code (c : Ascii.ascii) : Z := Z.of_N (Ascii.N_of_ascii c).

(** [text.rfind(c)]. *)
Fixpoint rfind (c : Ascii.ascii) (text : string) : option nat :=
  match text with
  | EmptyString => None
  | String d rest =>
      match rfind c rest with
      | Some i => Some (S i)
      | None => if Ascii.eqb d c then Some O else None
      end
  end.

(** [text.substr(pos)]. *)
Fixpoint str_drop (n : nat) (text : string) : string :=
  match n, text with
  | O, _ => text
  | S n, EmptyString => EmptyString
  | S n, String _ rest => str_drop n rest
  end.

(** The text before and after the first [c], the cut of [text.find(c)]. *)
Fixpoint cut (c : Ascii.ascii) (text : string) : option (string * string) :=
  match text with
  | EmptyString => None
  | String d rest =>
      if Ascii.eqb d c then Some ("", rest)
      else match cut c rest with
           | Some (before, after) => Some (String d before, after)
           | None => None
           end
  end.

(** The fields of a separated list. *)
Fixpoint split_on (c : Ascii.ascii) (text : string) : list string :=
  match text with
  | EmptyString => [""]
  | String d rest =>
      if Ascii.eqb d c then "" :: split_on c rest
      else match split_on c rest with
           | field :: fields => String d field :: fields
           | [] => [String d ""]
           end
  end.

Fixpoint trim_front (drop : Ascii.ascii → bool) (text : string) : string :=
  match text with
  | EmptyString => ""
  | String c rest => if drop c then trim_front drop rest else text
  end.
Fixpoint trim_back (drop : Ascii.ascii → bool) (text : string) : string :=
  match text with
  | EmptyString => ""
  | String c rest =>
      match trim_back drop rest with
      | EmptyString => if drop c then "" else String c ""
      | rest => String c rest
      end
  end.
Definition is_space (c : Ascii.ascii) : bool := Ascii.eqb c " ".

(** A decimal integer of [w] bits, digit by digit with checked arithmetic. *)
Fixpoint parse_decimal (w : Z) (not_digit overflow : Error) (text : string) (acc : Z) : Result Z :=
  match text with
  | EmptyString => Ok acc
  | String c rest =>
      if (char_code c <? 48) || (char_code c >? 57) then Fail not_digit
      else
        match checkedMul w acc 10 with
        | None => Fail overflow
        | Some multiplied =>
            match checkedAdd w multiplied (char_code c - 48) with
            | None => Fail overflow
            | Some next => parse_decimal w not_digit overflow rest next
            end
        end
  end.

(** [text.rfind(p, 0) == 0]. *)
Fixpoint is_prefix (p text : string) : bool :=
  match p, text with
  | EmptyString, _ => true
  | String a p, String b text => Ascii.eqb a b && is_prefix p text
  | String _ _, EmptyString => false
  end.

(** The text before the first occurrence of [sub]. *)
Fixpoint before (sub text : string) : option string :=
  if is_prefix sub text then Some ""
  else match text with
       | EmptyString => None
       | String c rest => String c <$> before sub rest
       end.

(** The last component of a path. *)
Definition filename (path : string) : string :=
  match rfind "/" path with Some i => str_drop (S i) path | None => path end.

(** ** Lemmas *)

(** [c] does not occur. *)
Definition without (c : Ascii.ascii) (text : string) : Prop :=
  string_forallb (λ d, negb (Ascii.eqb d c)) text = true.

Lemma without_cons c d text : without c (String d text) ↔ d ≠ c ∧ without c text.
Proof.
  unfold without. simpl. destruct (Ascii.eqb_spec d c); simpl; [|tauto].
  split; [done|]. by intros [].
Qed.
Lemma without_app c a b : without c (a +:+ b) ↔ without c a ∧ without c b.
Proof.
  induction a as [|d a IH]; [by split; [|intros [_ ?]]|].
  change (String d a +:+ b) with (String d (a +:+ b)). rewrite !without_cons, IH. tauto.
Qed.

Lemma cut_app c a b : without c a → cut c (a +:+ String c b) = Some (a, b).
Proof.
  induction a as [|d a IH].
  - intros _. change ("" +:+ String c b) with (String c b). simpl. by rewrite Ascii.eqb_refl.
  - intros [Hd Ha]%without_cons. change (String d a +:+ String c b) with (String d (a +:+ String c b)).
    simpl. rewrite IH by done. by destruct (Ascii.eqb_spec d c).
Qed.
Lemma cut_without c a : without c a → cut c a = None.
Proof.
  induction a as [|d a IH]; [done|]. intros [Hd Ha]%without_cons. simpl.
  rewrite IH by done. by destruct (Ascii.eqb_spec d c).
Qed.

Lemma split_on_nonempty c text : split_on c text ≠ [].
Proof. destruct text as [|d text]; [done|]. simpl. by destruct (Ascii.eqb d c), (split_on c text). Qed.
Lemma split_on_field c a : without c a → split_on c a = [a].
Proof.
  induction a as [|d a IH]; [done|]. intros [Hd Ha]%without_cons. simpl.
  rewrite IH by done. by destruct (Ascii.eqb_spec d c).
Qed.
Lemma split_on_cons c a b : without c a → split_on c (a +:+ String c b) = a :: split_on c b.
Proof.
  induction a as [|d a IH].
  - intros _. change ("" +:+ String c b) with (String c b). simpl. by rewrite Ascii.eqb_refl.
  - intros [Hd Ha]%without_cons. change (String d a +:+ String c b) with (String d (a +:+ String c b)).
    simpl. rewrite IH by done. by destruct (Ascii.eqb_spec d c).
Qed.

(** *** Decimal text *)

Fixpoint uint_value (d : Decimal.uint) (acc : Z) : Z :=
  match d with
  | Decimal.Nil => acc
  | Decimal.D0 d => uint_value d (10 * acc)
  | Decimal.D1 d => uint_value d (10 * acc + 1)
  | Decimal.D2 d => uint_value d (10 * acc + 2)
  | Decimal.D3 d => uint_value d (10 * acc + 3)
  | Decimal.D4 d => uint_value d (10 * acc + 4)
  | Decimal.D5 d => uint_value d (10 * acc + 5)
  | Decimal.D6 d => uint_value d (10 * acc + 6)
  | Decimal.D7 d => uint_value d (10 * acc + 7)
  | Decimal.D8 d => uint_value d (10 * acc + 8)
  | Decimal.D9 d => uint_value d (10 * acc + 9)
  end.

Lemma uint_value_le d acc : 0 <= acc → acc <= uint_value d acc.
Proof.
  revert acc. induction d as [|d IH|d IH|d IH|d IH|d IH|d IH|d IH|d IH|d IH|d IH];
    intros acc Hacc; cbn [uint_value]; [lia|..];
    (etransitivity; [|apply IH; lia]); lia.
Qed.

Lemma uint_value_pos d p : uint_value d (Zpos p) = Zpos (Pos.of_uint_acc d p).
Proof.
  revert p. induction d as [|d IH|d IH|d IH|d IH|d IH|d IH|d IH|d IH|d IH|d IH];
    intros p; cbn [uint_value Pos.of_uint_acc]; [done|..]; rewrite <- IH; f_equal; lia.
Qed.
Lemma uint_value_N d : uint_value d 0 = Z.of_N (Pos.of_uint d).
Proof.
  induction d as [|d IH|d IH|d IH|d IH|d IH|d IH|d IH|d IH|d IH|d IH];
    cbn [uint_value Pos.of_uint]; [done|exact IH|..]; apply (uint_value_pos d).
Qed.

Lemma checked_step w a n :
  0 <= a → 0 <= n → 10 * a + n < 2 ^ w →
  checkedMul w a 10 = Some (10 * a) ∧ checkedAdd w (10 * a) n = Some (10 * a + n).
Proof.
  intros Ha Hn Hb. unfold checkedMul, checkedAdd.
  rewrite (Z.mul_comm a 10), !Z.mod_small by lia. split.
  - destruct (Z.eqb_spec a 0) as [->|Hne]; [done|]. cbn [negb andb].
    destruct (Z.gtb_spec 10 ((2 ^ w - 1) / a)) as [Hgt|]; [|done].
    pose proof (Z.div_le_lower_bound (2 ^ w - 1) a 10 ltac:(lia) ltac:(lia)). lia.
  - by destruct (Z.gtb_spec (10 * a) (2 ^ w - 1 - n)); [lia|].
Qed.

Lemma parse_decimal_uint w e1 e2 d acc :
  0 <= acc → uint_value d acc < 2 ^ w →
  parse_decimal w e1 e2 (NilEmpty.string_of_uint d) acc = Ok (uint_value d acc).
Proof.
  assert (∀ n c rest a, char_code c = 48 + n → 0 <= n <= 9 → 0 <= a → 10 * a + n < 2 ^ w →
            parse_decimal w e1 e2 (String c rest) a = parse_decimal w e1 e2 rest (10 * a + n)) as Hstep.
  { intros n c rest a Hc Hn Ha Hb. cbn [parse_decimal]. rewrite Hc.
    destruct (Z.ltb_spec (48 + n) 48); [lia|]. destruct (Z.gtb_spec (48 + n) 57); [lia|].
    cbn [orb]. replace (48 + n - 48) with n by lia.
    destruct (checked_step w a n) as [-> ->]; [lia..|]. done. }
  revert acc. induction d as [|d IH|d IH|d IH|d IH|d IH|d IH|d IH|d IH|d IH|d IH]; intros acc Hacc Hb;
    [done|..]; cbn [uint_value NilEmpty.string_of_uint] in *;
    lazymatch type of Hb with uint_value d ?v < _ =>
      pose proof (uint_value_le d v ltac:(lia)) end.
  1: rewrite (Hstep 0) by (done || lia); rewrite Z.add_0_r; apply IH; lia.
  all: [> rewrite (Hstep 1) | rewrite (Hstep 2) | rewrite (Hstep 3) | rewrite (Hstep 4)
       | rewrite (Hstep 5) | rewrite (Hstep 6) | rewrite (Hstep 7) | rewrite (Hstep 8)
       | rewrite (Hstep 9)]; try (done || lia); apply IH; lia.
Qed.

Lemma to_string_uint v :
  0 <= v → ∃ d, to_string v = NilEmpty.string_of_uint d ∧ uint_value d 0 = v ∧ to_string v ≠ "".
Proof.
  intros Hv. destruct v as [|p|p]; [by exists (Decimal.D0 Decimal.Nil)| |lia].
  exists (Pos.to_uint p). unfold to_string. cbn [Z.to_int NilZero.string_of_int].
  pose proof (DecimalPos.Unsigned.to_uint_nonnil p) as Hne.
  rewrite uint_value_N, DecimalPos.Unsigned.of_to. unfold NilZero.string_of_uint.
  by destruct (Pos.to_uint p).
Qed.

Lemma parse_decimal_to_string w e1 e2 v :
  fits w v → parse_decimal w e1 e2 (to_string v) 0 = Ok v.
Proof.
  intros [H0 H1]. destruct (to_string_uint v H0) as (d & -> & Hd & _).
  rewrite parse_decimal_uint; rewrite ?Hd; done.
Qed.

Lemma parse_decimal_range w e1 e2 text acc v :
  fits w acc → parse_decimal w e1 e2 text acc = Ok v → fits w v.
Proof.
  revert acc. induction text as [|c text IH]; intros acc Hacc; cbn [parse_decimal]; [by intros [= <-]|].
  case_match; [done|]. case_match eqn:Hm; [|done]. case_match eqn:Ha; [|done].
  apply IH. unfold checkedAdd in Ha. case_match; [done|]. injection Ha as <-.
  unfold fits in *. apply Z.mod_pos_bound. lia.
Qed.

(** A decimal text has digits only. *)
Lemma uint_forallb p d :
  (∀ n, 0 <= n <= 9 → p (Ascii.ascii_of_N (Z.to_N (48 + n))) = true) →
  string_forallb p (NilEmpty.string_of_uint d) = true.
Proof.
  intros Hp. induction d as [|d IH|d IH|d IH|d IH|d IH|d IH|d IH|d IH|d IH|d IH]; [done|..];
    cbn [NilEmpty.string_of_uint string_forallb]; rewrite IH, andb_true_r.
  - apply (Hp 0); lia.
  - apply (Hp 1); lia.
  - apply (Hp 2); lia.
  - apply (Hp 3); lia.
  - apply (Hp 4); lia.
  - apply (Hp 5); lia.
  - apply (Hp 6); lia.
  - apply (Hp 7); lia.
  - apply (Hp 8); lia.
  - apply (Hp 9); lia.
Qed.

Lemma to_string_without c v : 0 <= v → (char_code c < 48 ∨ 57 < char_code c) → without c (to_string v).
Proof.
  intros Hv Hc. destruct (to_string_uint v Hv) as (d & -> & _). apply uint_forallb. intros n Hn.
  destruct (Ascii.eqb_spec (Ascii.ascii_of_N (Z.to_N (48 + n))) c) as [<-|]; [|done].
  unfold char_code in Hc. rewrite Ascii.N_ascii_embedding in Hc; lia.
Qed.

(** A number below [10 ^ n] has at most [n] digits. *)
Lemma uint_value_ge d acc :
  0 <= acc → acc * 10 ^ slen (NilEmpty.string_of_uint d) <= uint_value d acc.
Proof.
  revert acc. unfold slen.
  induction d as [|d IH|d IH|d IH|d IH|d IH|d IH|d IH|d IH|d IH|d IH]; intros acc Hacc;
    cbn [uint_value NilEmpty.string_of_uint String.length]; [lia|..];
    rewrite Nat2Z.inj_succ, Z.pow_succ_r by lia;
    (etransitivity; [|apply IH; lia]); nia.
Qed.

Lemma to_uint_no_zero p d : Pos.to_uint p ≠ Decimal.D0 d.
Proof.
  intros E. pose proof (DecimalN.Unsigned.to_of (Pos.to_uint p)) as H.
  unfold N.of_uint in H. rewrite DecimalPos.Unsigned.of_to in H. cbn [N.to_uint] in H.
  unfold Decimal.unorm in H. pose proof (nzhead_nonzero (Pos.to_uint p)) as Hn.
  destruct (Decimal.nzhead (Pos.to_uint p)) as [|d'| | | | | | | | |] eqn:En; try congruence.
  pose proof (DecimalPos.Unsigned.of_to p) as Hp. rewrite H in Hp. done.
Qed.

Lemma slen_to_string n v : 0 < n → 0 <= v < 10 ^ n → slen (to_string v) <= n.
Proof.
  intros Hn [H0 Hv]. destruct v as [|p|p]; [vm_compute slen; lia| |lia].
  pose proof (uint_value_N (Pos.to_uint p)) as E. rewrite DecimalPos.Unsigned.of_to in E.
  simpl in E. unfold to_string. cbn [Z.to_int NilZero.string_of_int].
  pose proof (to_uint_no_zero p) as Hz.
  assert (∀ k d, 1 <= k → uint_value d k = Zpos p → slen (NilEmpty.string_of_uint d) < n) as Hd.
  { intros k d Hk Ed. pose proof (uint_value_ge d k ltac:(lia)).
    apply (Z.pow_lt_mono_r_iff 10); [lia|lia|].  nia. }
  unfold NilZero.string_of_uint, slen in *.
  destruct (Pos.to_uint p) as [|d|d|d|d|d|d|d|d|d|d]; cbn [uint_value NilEmpty.string_of_uint String.length] in *;
    [lia|by destruct (Hz d)|..];
    (lazymatch type of E with uint_value _ ?k = _ => specialize (Hd k d ltac:(lia) E) end); lia.
Qed.

(** Trimming what has nothing to trim. *)
Lemma trim_back_keep drop text :
  string_forallb (λ c, negb (drop c)) text = true → trim_back drop text = text.
Proof.
  induction text as [|c text IH]; [done|]. simpl. intros [Hc Ht]%andb_true_iff.
  rewrite IH by done. apply negb_true_iff in Hc. rewrite Hc. by destruct text.
Qed.
Lemma trim_front_keep drop text :
  string_forallb (λ c, negb (drop c)) text = true → trim_front drop text = text.
Proof. destruct text as [|c text]; [done|]. simpl. intros [Hc%negb_true_iff _]%andb_true_iff. by rewrite Hc. Qed.
Lemma trim_back_snoc drop text c :
  string_forallb (λ c, negb (drop c)) text = true → drop c = true →
  trim_back drop (text +:+ String c "") = text.
Proof.
  intros Ht Hc. induction text as [|d text IH].
  - change ("" +:+ String c "") with (String c ""). simpl. by rewrite Hc.
  - simpl in Ht. apply andb_true_iff in Ht as [Hd%negb_true_iff Ht].
    change (String d text +:+ String c "") with (String d (text +:+ String c "")). simpl.
    rewrite IH by done. rewrite Hd. by destruct text.
Qed.

(** *** Trimming *)
Section trimming.
Context (drop : Ascii.ascii → bool).

Lemma trim_front_skip a b : string_forallb drop a = true → trim_front drop (a +:+ b) = trim_front drop b.
Proof.
  induction a as [|c a IH]; [done|]. change (String c a +:+ b) with (String c (a +:+ b)). simpl.
  intros [-> Ha]%andb_true_iff. by apply IH.
Qed.
Lemma trim_back_cons c text :
  trim_back drop text ≠ "" ∨ drop c = false →
  trim_back drop (String c text) = String c (trim_back drop text).
Proof. simpl. destruct (trim_back drop text); [|done]. intros [|E]; [done|by rewrite E]. Qed.
Lemma trim_back_app a b :
  trim_back drop b ≠ "" → trim_back drop (a +:+ b) = a +:+ trim_back drop b.
Proof.
  intros Hb. induction a as [|c a IH]; [done|].
  change (String c a +:+ b) with (String c (a +:+ b)).
  change (String c a +:+ trim_back drop b) with (String c (a +:+ trim_back drop b)).
  rewrite trim_back_cons, IH; [done|]. left. rewrite IH. by destruct a, (trim_back drop b).
Qed.
Lemma trim_front_idem text : trim_front drop (trim_front drop text) = trim_front drop text.
Proof. induction text as [|c text IH]; [done|]. simpl. destruct (drop c) eqn:E; [done|]. simpl. by rewrite E. Qed.
Lemma trim_back_idem text : trim_back drop (trim_back drop text) = trim_back drop text.
Proof.
  induction text as [|c text IH]; [done|]. simpl.
  destruct (trim_back drop text) as [|d rest] eqn:E.
  - destruct (drop c) eqn:Hc; [done|]. simpl. by rewrite Hc.
  - rewrite trim_back_cons by (left; by rewrite IH). by rewrite IH.
Qed.
Lemma trim_front_back text :
  trim_front drop text = text → trim_front drop (trim_back drop text) = trim_back drop text.
Proof.
  destruct text as [|c text]; [done|]. simpl. destruct (drop c) eqn:Hc.
  - intros E. exfalso. assert (∀ s, (String.length (trim_front drop s) <= String.length s)%nat) as Hl.
    { clear. induction s as [|c s IH]; [done|]. simpl. destruct (drop c); simpl; lia. }
    specialize (Hl text). rewrite E in Hl. simpl in Hl. lia.
  - intros _. destruct (trim_back drop text); simpl; by rewrite Hc.
Qed.

(** What both ends keep. *)
Lemma trim_front_forallb p text :
  string_forallb p text = true → string_forallb p (trim_front drop text) = true.
Proof.
  induction text as [|c text IH]; [done|]. simpl. intros [Hc Ht]%andb_true_iff.
  destruct (drop c); [by apply IH|]. simpl. by rewrite Hc.
Qed.
Lemma trim_back_forallb p text :
  string_forallb p text = true → string_forallb p (trim_back drop text) = true.
Proof.
  induction text as [|c text IH]; [done|]. simpl. intros [Hc Ht]%andb_true_iff.
  specialize (IH Ht). destruct (trim_back drop text); [|by simpl in *; rewrite Hc].
  destruct (drop c); [done|]. simpl. by rewrite Hc.
Qed.
End trimming.

Lemma cut_forallb p c text a b :
  string_forallb p text = true → cut c text = Some (a, b) →
  string_forallb p a = true ∧ string_forallb p b = true.
Proof.
  revert a. induction text as [|d text IH]; intros a; [done|]. simpl.
  intros [Hd Ht]%andb_true_iff. destruct (Ascii.eqb d c); [by intros [= <- <-]|].
  destruct (cut c text) as [[before after]|]; [|done]. intros [= <- <-].
  destruct (IH before Ht eq_refl) as [H1 H2]. simpl. by rewrite Hd.
Qed.

Lemma split_on_without c text : Forall (without c) (split_on c text).
Proof.
  induction text as [|d text IH]; [by repeat constructor|]. simpl.
  destruct (Ascii.eqb_spec d c) as [->|Hne]; [by constructor|].
  destruct (split_on c text) as [|field fields]; [by repeat constructor; apply without_cons|].
  apply Forall_cons_iff in IH as [Hf Hfs]. constructor; [by apply without_cons|done].
Qed.
