(* ===== verification/Codec.v ===== *)
(** * The bounded binary codec

    Models [ByteWriter] and [ByteReader] of include/cf/codec.hpp and
    src/codec.cpp. A writer appends to its buffer, so a write is the bytes it
    appends, or [Abort] where a contract is violated. A reader is the buffer
    and the offset; every read threads it. The class [Wire] is what every
    codec of the system is proved to satisfy: reading gives back what was
    written, and whatever is accepted is exactly what would be written. *)

From Stdlib Require Import Strings.Byte.
From S2P Require Import Prelude Result Hash Ids.

Definition kAbsoluteMaxFieldBytes : Z := Z.shiftl 1 20.

(** ** Writing *)

Definition Writer : Type := Result (list byte).

Definition w_append (a b : Writer) : Writer :=
  let* x := a in let* y := b in Ok (x ++ y).
Infix "+++" := w_append (at level 60, right associativity) : cf_scope.

Module Write.
Definition u8 (v : Z) : Writer := Ok [byte_of v].
Definition boolean (b : bool) : Writer := u8 (if b then 1 else 0).
Definition u16 (v : Z) : Writer :=
  Ok [byte_of (Z.land v 0xFF); byte_of (Z.land (Z.shiftr v 8) 0xFF)].
Definition u32 (v : Z) : Writer := Ok (le_bytes 4 v).
Definition u64 (v : Z) : Writer := Ok (le_bytes 8 v).
Definition i64 (v : Z) : Writer := u64 (of_i64 v).
Definition bytes (l : list byte) : Writer := Ok l.
Definition string (maxBytes : Z) (text : string) : Writer :=
  do* contract (slen text <=? maxBytes) "encoded string exceeds its declared bound" in
  do* contract (slen text <=? kAbsoluteMaxFieldBytes)
        "encoded string exceeds the absolute bound" in
  u32 (slen text) +++ bytes (bytes_of_string text).
Definition digest (d : Digest) : Writer := bytes (digest_bytes d).
Definition sha256 (l : list byte) : Writer := bytes l.
Definition opaque128 (l : list byte) : Writer := bytes l.
(** A strong integer is written as its value. *)
Definition num {Tag} (n : StrongUint Tag) : Writer := u64 (value n).
End Write.

(** ** Reading *)

Record ByteReader := mkReader { data_ : list byte; offset_ : nat }.

Definition reader (data : list byte) : ByteReader := mkReader data 0.
Definition remaining (r : ByteReader) : nat := length (data_ r) - offset_ r.
Definition atEnd (r : ByteReader) : bool := (offset_ r =? length (data_ r))%nat.
Definition advance (n : nat) (r : ByteReader) : ByteReader :=
  mkReader (data_ r) (offset_ r + n).
(** The bytes from the offset on. *)
Definition pending (r : ByteReader) : list byte := drop (offset_ r) (data_ r).

(** A read: fails, or returns a value and the advanced reader. *)
Definition Parser (A : Type) : Type := ByteReader → Result (A * ByteReader).

Definition p_ret {A} (a : A) : Parser A := λ r, Ok (a, r).
Definition p_bind {A B} (p : Parser A) (k : A → Parser B) : Parser B :=
  λ r, let* (a, r) := p r in k a r.
Definition p_lift {A} (x : Result A) : Parser A := λ r, let* a := x in Ok (a, r).
(** Fail with [e] when the guard does not hold. *)
Definition p_fail {A} (c : ErrorCode) (msg : string) : Parser A := λ _, fail c msg.
Definition p_check (ok : bool) (e : Error) : Parser unit :=
  if ok then p_ret tt else λ _, Fail e.
Abbreviation p_require ok c msg := (p_check ok (mkError c msg "")).
Abbreviation p_require_detail ok c msg det := (p_check ok (mkError c msg det)).

Notation "'let!' x := p 'in' k" := (p_bind p (λ x, k))
  (at level 10, x pattern, p at level 100, k at level 200) : cf_scope.
Notation "'do!' p 'in' k" := (p_bind p (λ _, k))
  (at level 10, p at level 100, k at level 200) : cf_scope.

Module Read.
Definition need (count : nat) : Parser unit := λ r,
  if (remaining r <? count)%nat
  then fail ErrorCode.TruncatedFrame "record ended before the declared field count"
  else Ok (tt, r).
(** The byte at [data_[offset_ + i]]; every use is behind a [need]. *)
Definition at_offset (i : nat) (r : ByteReader) : Z :=
  byte_val (nth (offset_ r + i) (data_ r) Byte.x00).
Definition u8 : Parser Z :=
  do! need 1 in λ r, Ok (at_offset 0 r, advance 1 r).
Definition boolean : Parser bool :=
  let! v := u8 in
  if v >? 1 then p_fail ErrorCode.MalformedInput "boolean field is not 0 or 1"
  else p_ret (v =? 1).
Definition u16 : Parser Z :=
  do! need 2 in λ r,
  Ok (Z.lor (at_offset 0 r) (Z.land (Z.shiftl (at_offset 1 r) 8) u16_max), advance 2 r).
(** [data_.subspan(offset_, count)]. *)
Definition window (count : nat) (r : ByteReader) : list byte := take count (pending r).
Definition u32 : Parser Z :=
  do! need 4 in λ r, Ok (le_load (window 4 r), advance 4 r).
Definition u64 : Parser Z :=
  do! need 8 in λ r, Ok (le_load (window 8 r), advance 8 r).
Definition i64 : Parser Z := let! v := u64 in p_ret (to_i64 v).
Definition fixed (count : nat) : Parser (list byte) :=
  do! need count in λ r, Ok (window count r, advance count r).
Definition string (maxBytes : Z) : Parser string :=
  let! declared := u32 in
  if (declared >? maxBytes) || (declared >? kAbsoluteMaxFieldBytes)
  then λ _, fail_detail ErrorCode.OversizePayload
              "declared string length exceeds the accepted bound" (to_string declared)
  else let! view := fixed (Z.to_nat declared) in p_ret (string_of_bytes view).
Definition digest : Parser Digest :=
  let! view := fixed kSha256Bytes in p_ret (fromBytes view).
Definition sha256 : Parser (list byte) := fixed kSha256Bytes.
Definition opaque128 : Parser (list byte) := fixed 16.
Definition num {Tag} : Parser (StrongUint Tag) := let! v := u64 in p_ret (fromValue v).
Definition requireEnd : Parser unit := λ r,
  if negb (atEnd r)
  then fail_detail ErrorCode.ProtocolViolation
         "record carries trailing bytes after the last declared field"
         (to_string (Z.of_nat (remaining r)))
  else Ok (tt, r).
End Read.

(** A whole-buffer decoder: read, then [requireEnd]. *)
Definition decode_all {A} (p : Parser A) (data : list byte) : Result A :=
  let* (a, r) := p (reader data) in
  do* Read.requireEnd r in Ok a.

(** ** Specification *)

(** [p] accepts [bs] in front of anything and returns [a]. *)
Definition parses {A} (p : Parser A) (bs : list byte) (a : A) : Prop :=
  ∀ r rest, pending r = bs ++ rest → p r = Ok (a, advance (length bs) r).

(** [p] accepted [bs] at [r] and left [r']. *)
Definition consumed (r : ByteReader) (bs : list byte) (r' : ByteReader) : Prop :=
  pending r = bs ++ pending r' ∧ r' = advance (length bs) r.

(** Write with [w], read with [p], get [a] back. *)
Definition reads_back {A} (p : Parser A) (w : Writer) (a : A) : Prop :=
  ∃ bs, w = Ok bs ∧ parses p bs a.

(** What was read from [r] up to [r'] is exactly what [w] writes. *)
Definition emits (r : ByteReader) (w : Writer) (r' : ByteReader) : Prop :=
  ∃ bs, w = Ok bs ∧ consumed r bs r'.

(** The contract between a writer and its reader: [wf] is what the writer's
    own contracts and the field widths require. *)
Class Wire {A} (w : A → Writer) (p : Parser A) (wf : A → Prop) := {
  wire_complete : ∀ a, wf a → reads_back p (w a) a;
  wire_sound : ∀ r a r', p r = Ok (a, r') → wf a ∧ emits r (w a) r';
}.
#[global] Hint Mode Wire - - + - : typeclass_instances.

(** *** Sequencing rules *)

Lemma pending_advance n r : pending (advance n r) = drop n (pending r).
Proof. unfold pending, advance. simpl. by rewrite drop_drop. Qed.

Lemma pending_app r bs rest : pending r = bs ++ rest → pending (advance (length bs) r) = rest.
Proof. intros H. by rewrite pending_advance, H, drop_app_length. Qed.

Lemma advance_advance n m r : advance m (advance n r) = advance (n + m) r.
Proof. unfold advance. simpl. f_equal. lia. Qed.

Lemma advance_0 r : advance 0 r = r.
Proof. destruct r. unfold advance. simpl. f_equal. lia. Qed.

Lemma remaining_pending r : remaining r = length (pending r).
Proof. unfold pending, remaining. by rewrite length_drop. Qed.

Lemma reads_ret {A} (a : A) : reads_back (p_ret a) (Ok []) a.
Proof.
  exists []. split; [done|]. intros r rest _. unfold p_ret. simpl. by rewrite advance_0.
Qed.

Lemma reads_bind {A B} (p : Parser A) (k : A → Parser B) w1 w2 a b :
  reads_back p w1 a → reads_back (k a) w2 b → reads_back (p_bind p k) (w1 +++ w2) b.
Proof.
  intros (bs1 & -> & H1) (bs2 & -> & H2). exists (bs1 ++ bs2). split; [done|].
  intros r rest Hr. unfold p_bind. rewrite <- app_assoc in Hr.
  rewrite (H1 _ _ Hr). simpl. rewrite (H2 _ rest).
  - by rewrite advance_advance, length_app.
  - by apply pending_app.
Qed.

(** The last field: nothing more is written. *)
Lemma reads_last {A B} (p : Parser A) (k : A → Parser B) w a b :
  reads_back p w a → reads_back (k a) (Ok []) b → reads_back (p_bind p k) w b.
Proof.
  intros H1 H2. pose proof (reads_bind _ _ _ _ _ _ H1 H2) as (bs & Hw & Hp).
  destruct H1 as (bs1 & -> & _). simpl in Hw. rewrite app_nil_r in Hw.
  by exists bs.
Qed.

(** A check between two fields. *)
Lemma reads_pure {A B} (p : Parser A) (k : A → Parser B) w a b :
  reads_back p (Ok []) a → reads_back (k a) w b → reads_back (p_bind p k) w b.
Proof.
  intros H1 H2. pose proof (reads_bind _ _ _ _ _ _ H1 H2) as H.
  destruct H2 as (bs & -> & _). done.
Qed.

Lemma reads_lift {A} (x : Result A) a : x = Ok a → reads_back (p_lift x) (Ok []) a.
Proof. intros ->. apply reads_ret. Qed.

Lemma reads_check ok e : ok = true → reads_back (p_check ok e) (Ok []) tt.
Proof. intros ->. apply reads_ret. Qed.

Lemma emits_append r w1 r1 w2 r2 : emits r w1 r1 → emits r1 w2 r2 → emits r (w1 +++ w2) r2.
Proof.
  intros (bs1 & -> & Hp1 & ->) (bs2 & -> & Hp2 & ->). exists (bs1 ++ bs2).
  split; [done|]. split.
  - rewrite Hp1, Hp2. by rewrite app_assoc.
  - by rewrite advance_advance, length_app.
Qed.

Lemma emits_nil r : emits r (Ok []) r.
Proof. exists []. repeat split. by rewrite advance_0. Qed.

(** *** Inversion of a successful read *)

Lemma p_bind_Ok {A B} (p : Parser A) (k : A → Parser B) r b r' :
  p_bind p k r = Ok (b, r') ↔ ∃ a r1, p r = Ok (a, r1) ∧ k a r1 = Ok (b, r').
Proof.
  unfold p_bind. rewrite try_bind_Ok. split.
  - intros [[a r1] ?]. eauto.
  - intros (a & r1 & ? & ?). by exists (a, r1).
Qed.
Lemma p_ret_Ok {A} (a b : A) r r' : p_ret a r = Ok (b, r') ↔ a = b ∧ r = r'.
Proof. unfold p_ret. split; [by intros [= -> ->]|by intros [-> ->]]. Qed.
Lemma p_lift_Ok {A} (x : Result A) b r r' : p_lift x r = Ok (b, r') ↔ x = Ok b ∧ r = r'.
Proof.
  unfold p_lift. rewrite try_bind_Ok. split; [by intros (? & -> & [= -> ->])|].
  intros [-> ->]. eauto.
Qed.
Lemma p_check_Ok ok e u r r' :
  p_check ok e r = Ok (u, r') ↔ ok = true ∧ r = r'.
Proof.
  destruct ok, u; unfold p_check; [rewrite p_ret_Ok|split; [done|by intros []]]; tauto.
Qed.
Lemma p_fail_Ok {A} c msg r (x : A * ByteReader) : p_fail c msg r = Ok x ↔ False.
Proof. done. Qed.

(** Split a successful read into its successful parts. *)
Ltac inv_parse :=
  repeat match goal with
  | H : p_bind _ _ _ = Ok _ |- _ => apply p_bind_Ok in H as (? & ? & ? & ?)
  | H : p_ret _ _ = Ok _ |- _ => apply p_ret_Ok in H as [? ?]; simplify_eq
  | H : p_lift _ _ = Ok _ |- _ => apply p_lift_Ok in H as [? ?]; simplify_eq
  | H : p_check _ _ _ = Ok _ |- _ => apply p_check_Ok in H as [? ?]; simplify_eq
  | H : p_fail _ _ _ = Ok _ |- _ => by apply p_fail_Ok in H
  | H : (if ?b then _ else _) _ = Ok _ |- _ => destruct b eqn:?
  end.

(** Replace each successful read by what its codec guarantees. *)
Ltac inv_wire :=
  inv_parse;
  repeat match goal with
  | H : ?p ?r = Ok (?a, ?r') |- _ => apply (wire_sound (p := p)) in H as [? ?]
  end.

(** The well-formedness of one field: a hypothesis, or a constant in range. *)
Ltac wire_side :=
  first
    [ eassumption
    | lazymatch goal with |- fits _ _ => split; vm_compute; first [reflexivity | discriminate] end
    | done ].

(** One field of a record: the writer side is [w1 +++ ...] or the last
    writer; guards write nothing. *)
Ltac reads_step :=
  lazymatch goal with
  | |- reads_back (p_ret _) _ _ => apply reads_ret
  | |- reads_back (p_bind (p_check _ _) _) _ _ =>
      eapply reads_pure; [apply reads_check; wire_side|cbn beta]
  | |- reads_back (p_bind (p_lift _) _) _ _ =>
      eapply reads_pure; [apply reads_lift; wire_side|cbn beta]
  | |- reads_back (p_bind ?p _) (_ +++ _) _ =>
      let I := constr:(_ : Wire _ p _) in
      eapply reads_bind; [eapply (@wire_complete _ _ _ _ I); wire_side|cbn beta]
  | |- reads_back (p_bind ?p _) _ _ =>
      let I := constr:(_ : Wire _ p _) in
      eapply reads_last; [eapply (@wire_complete _ _ _ _ I); wire_side|cbn beta]
  end.

(** Prove [emits r (w1 +++ ... ) r'] from the fields' [emits]. *)
Ltac solve_emits :=
  repeat first
    [ eassumption | apply emits_nil | eapply emits_append ].

(** ** The primitive fields *)

Lemma need_Ok n r u r' : Read.need n r = Ok (u, r') ↔ (n <= length (pending r))%nat ∧ r = r'.
Proof.
  unfold Read.need. rewrite remaining_pending.
  destruct (Nat.ltb_spec (length (pending r)) n), u; split; try done.
  - intros []. lia.
  - by intros [= ->].
  - by intros [_ ->].
Qed.

(** A fixed-width field: [n] bytes interpreted by [f]. *)
Definition p_window {A} (n : nat) (f : list byte → A) : Parser A :=
  do! Read.need n in λ r, Ok (f (Read.window n r), advance n r).

Lemma p_window_reads {A} n (f : list byte → A) bs :
  length bs = n → reads_back (p_window n f) (Ok bs) (f bs).
Proof.
  intros <-. exists bs. split; [done|]. intros r rest Hr.
  unfold p_window, p_bind, Read.need, Read.window. rewrite remaining_pending, Hr, length_app.
  destruct (Nat.ltb_spec (length bs + length rest) (length bs)); [lia|].
  simpl. rewrite Hr, take_app_length. done.
Qed.

Lemma p_window_sound {A} n (f : list byte → A) r a r' :
  p_window n f r = Ok (a, r') →
  ∃ bs, length bs = n ∧ a = f bs ∧ consumed r bs r'.
Proof.
  unfold p_window. intros ([] & r1 & [Hn <-]%need_Ok & [= <- <-])%p_bind_Ok.
  exists (take n (pending r)). rewrite length_take. split; [lia|].
  split; [done|]. unfold consumed. rewrite length_take, pending_advance, take_drop.
  split; [done|]. f_equal. lia.
Qed.

(** Integers of [n] bytes. *)
Lemma le_wire n :
  Wire (λ v, Ok (le_bytes n v)) (p_window n le_load) (fits (8 * Z.of_nat n)).
Proof.
  split.
  - intros v Hv. rewrite <- (le_load_bytes_fits n v Hv) at 2.
    apply p_window_reads, length_le_bytes.
  - intros r v r' (bs & Hlen & -> & Hc)%p_window_sound. split.
    + pose proof (le_load_fits bs) as Hf. unfold zlen in Hf. by rewrite Hlen in Hf.
    + exists bs. by rewrite le_bytes_load.
Qed.

#[global] Instance u32_wire : Wire Write.u32 Read.u32 (fits 32) := le_wire 4.
#[global] Instance u64_wire : Wire Write.u64 Read.u64 (fits 64) := le_wire 8.

#[global] Instance fixed_wire n : Wire Write.bytes (Read.fixed n) (λ l, length l = n).
Proof.
  split.
  - intros l Hl. by apply (p_window_reads n id).
  - intros r l r' (bs & Hl & -> & Hc)%(p_window_sound n id). split; [done|]. by exists bs.
Qed.

(** A field read through a total change of representation. *)
Lemma wire_map {A B} (w : A → Writer) p wf (f : A → B) (g : B → A) (wf' : B → Prop) `{Wire A w p wf} :
  (∀ b, wf' b → wf (g b) ∧ f (g b) = b) → (∀ a, wf a → wf' (f a) ∧ g (f a) = a) →
  Wire (λ b, w (g b)) (let! a := p in p_ret (f a)) wf'.
Proof.
  intros Hg Hf. split.
  - intros b Hb'. destruct (Hg b Hb') as [Hb Hfg].
    eapply reads_last; [by apply wire_complete|]. rewrite Hfg. apply reads_ret.
  - intros r b r' Hr. inv_parse.
    apply (wire_sound (p := p)) in H0 as [Hx ?]. destruct (Hf _ Hx) as [Hb ->]. by split.
Qed.

Lemma byte_of_le v : [byte_of v] = le_bytes 1 v.
Proof.
  rewrite le_bytes_digits. done.
Qed.

Lemma window_1 r : (1 <= length (pending r))%nat → Read.window 1 r = [nth (offset_ r) (data_ r) Byte.x00].
Proof.
  unfold Read.window, pending. generalize (data_ r) (offset_ r). intros l n.
  revert l. induction n as [|n IH]; intros [|b l]; simpl; intros H; try done; try lia.
  by apply IH.
Qed.

#[global] Instance u8_wire : Wire Write.u8 Read.u8 (fits 8).
Proof.
  assert (∀ r, Read.u8 r = p_window 1 le_load r) as E.
  { intros r. unfold Read.u8, p_window, p_bind.
    destruct (Read.need 1 r) as [[[] r1]| |] eqn:Hn; [|done..].
    apply need_Ok in Hn as [Hn ->]. simpl. rewrite window_1 by done.
    unfold Read.at_offset. rewrite Nat.add_0_r, le_load_val. simpl. do 2 f_equal. lia. }
  destruct (le_wire 1) as [Hc Hs]. split.
  - intros v Hv. destruct (Hc v Hv) as (bs & Hw & Hp). exists bs.
    unfold Write.u8. rewrite byte_of_le. split; [done|].
    intros r rest Hr. rewrite E. by apply (Hp r rest).
  - intros r a r'. rewrite E. unfold Write.u8. rewrite byte_of_le. apply Hs.
Qed.

Lemma window_2 r : (2 <= length (pending r))%nat →
  Read.window 2 r = [nth (offset_ r) (data_ r) Byte.x00; nth (offset_ r + 1) (data_ r) Byte.x00].
Proof.
  unfold Read.window, pending. generalize (data_ r) (offset_ r). intros l n.
  revert l. induction n as [|n IH]; intros [|b l]; simpl; intros H; try done; try lia.
  - by destruct l; simpl in *; [lia|].
  - by apply IH.
Qed.

#[global] Instance u16_wire : Wire Write.u16 Read.u16 (fits 16).
Proof.
  assert (∀ r, Read.u16 r = p_window 2 le_load r) as E.
  { intros r. unfold Read.u16, p_window, p_bind.
    destruct (Read.need 2 r) as [[[] r1]| |] eqn:Hn; [|done..].
    apply need_Ok in Hn as [Hn ->]. simpl. rewrite window_2 by done.
    unfold Read.at_offset. rewrite Nat.add_0_r, le_load_val. simpl.
    set (a := nth _ _ _). set (b := nth (_ + 1) _ _).
    pose proof (byte_val_range a). pose proof (byte_val_range b).
    change u16_max with (Z.ones 16). rewrite Z.land_ones, Z.mod_small by
      (rewrite ?Z.shiftl_mul_pow2 by lia; lia).
    rewrite (lor_disjoint _ _ 8) by lia. do 2 f_equal. lia. }
  assert (∀ v, Write.u16 v = Ok (le_bytes 2 v)) as Ew.
  { intros v. unfold Write.u16. rewrite le_bytes_digits. simpl.
    change 0xFF with 255. rewrite !byte_of_land, Z.shiftr_div_pow2 by lia. done. }
  destruct (le_wire 2) as [Hc Hs]. split.
  - intros v Hv. destruct (Hc v Hv) as (bs & Hw & Hp). exists bs.
    rewrite Ew. split; [done|]. intros r rest Hr. rewrite E. by apply (Hp r rest).
  - intros r a r'. rewrite E, Ew. apply Hs.
Qed.

#[global] Instance i64_wire : Wire Write.i64 Read.i64 fits_i64.
Proof.
  apply (wire_map Write.u64 Read.u64 (fits 64) to_i64 of_i64); [apply _|..].
  - intros b Hb. split; [apply of_i64_fits|by apply to_of_i64].
  - intros a Ha. split; [by apply to_i64_fits|by apply of_to_i64].
Qed.

#[global] Instance num_wire Tag :
  Wire Write.num Read.num (λ n : StrongUint Tag, fits 64 (value n)).
Proof. apply (wire_map Write.u64 Read.u64 (fits 64) fromValue value); [apply _|by intros []|by intros ?]. Qed.

#[global] Instance digest_wire : Wire Write.digest Read.digest digest_wf.
Proof.
  apply (wire_map Write.bytes (Read.fixed kSha256Bytes) (λ l, length l = kSha256Bytes)
           fromBytes digest_bytes); [apply _|by intros []|by intros ?].
Qed.

#[global] Instance sha256_wire : Wire Write.sha256 Read.sha256 (λ l, length l = kSha256Bytes) :=
  fixed_wire kSha256Bytes.
#[global] Instance opaque128_wire : Wire Write.opaque128 Read.opaque128 (λ l, length l = 16%nat) :=
  fixed_wire 16.

#[global] Instance boolean_wire : Wire Write.boolean Read.boolean (λ _, True).
Proof.
  split.
  - intros b _. change (Write.boolean b) with (Write.u8 (if b then 1 else 0)).
    unfold Read.boolean. eapply reads_last.
    + apply (wire_complete (p := Read.u8)). by destruct b.
    + by destruct b; apply reads_ret.
  - intros r b r' Hr. unfold Read.boolean in Hr. inv_parse.
    apply (wire_sound (p := Read.u8)) in H as [Hv He]. split; [done|].
    unfold fits in Hv. destruct (Z.gtb_spec x 1); [done|].
    assert (x = 0 ∨ x = 1) as [-> | ->] by lia; done.
Qed.

(** The bound a string field puts on its text. *)
Definition text_fits (maxBytes : Z) (s : string) : Prop :=
  slen s <= maxBytes ∧ slen s <= kAbsoluteMaxFieldBytes.

#[global] Instance string_wire maxBytes :
  Wire (Write.string maxBytes) (Read.string maxBytes) (text_fits maxBytes).
Proof.
  assert (∀ s, text_fits maxBytes s → Write.string maxBytes s =
            Write.u32 (slen s) +++ Write.bytes (bytes_of_string s)) as Ew.
  { intros s [H1 H2]. unfold Write.string.
    by rewrite (proj2 (Z.leb_le _ _) H1), (proj2 (Z.leb_le _ _) H2). }
  split.
  - intros s Hs. rewrite Ew by done. destruct Hs as [H1 H2].
    unfold Read.string. eapply reads_bind.
    + apply (wire_complete (p := Read.u32)). unfold fits, slen, kAbsoluteMaxFieldBytes in *.
      change (Z.shiftl 1 20) with 1048576 in H2. lia.
    + destruct (Z.gtb_spec (slen s) maxBytes); [lia|].
      destruct (Z.gtb_spec (slen s) kAbsoluteMaxFieldBytes); [lia|]. simpl.
      eapply reads_last.
      * apply (wire_complete (p := Read.fixed _)). rewrite length_bytes_of_string.
        unfold slen. by rewrite Nat2Z.id.
      * rewrite string_of_bytes_of_string. apply reads_ret.
  - intros r s r' Hr. unfold Read.string in Hr. inv_parse; [done|].
    apply (wire_sound (p := Read.u32)) in H as [Hv He].
    apply (wire_sound (p := Read.fixed _)) in H0 as [Hl He2].
    apply orb_false_iff in Heqb as [H1 H2].
    assert (slen (string_of_bytes x1) = x) as Hx.
    { rewrite slen_string_of_bytes. unfold zlen, fits in *. lia. }
    assert (text_fits maxBytes (string_of_bytes x1)).
    { unfold text_fits. rewrite Hx. lia. }
    split; [done|]. rewrite Ew, Hx, bytes_of_string_of_bytes by done. by eapply emits_append.
Qed.

#[global] Arguments w_append : simpl never.
#[global] Arguments Write.u8 : simpl never.
#[global] Arguments Write.boolean : simpl never.
#[global] Arguments Write.u16 : simpl never.
#[global] Arguments Write.u32 : simpl never.
#[global] Arguments Write.u64 : simpl never.
#[global] Arguments Write.i64 : simpl never.
#[global] Arguments Write.string : simpl never.
#[global] Arguments Write.digest : simpl never.
#[global] Arguments Write.num : simpl never.

(** ** Composite fields *)

(** An identifier: a bounded string that must parse. *)
Definition write_id {Tag} (id : StrongString Tag) : Writer :=
  Write.string kMaxIdentifierLength (str id).
Definition read_id {Tag} (what : string) : Parser (StrongString Tag) :=
  let! text := Read.string kMaxIdentifierLength in p_lift (parseId what text).
(** An optional identifier: empty text leaves the field unset. *)
Definition read_optional_id {Tag} (what : string) : Parser (StrongString Tag) :=
  let! text := Read.string kMaxIdentifierLength in
  if decide (text = "") then p_ret id_empty else p_lift (parseId what text).

Definition id_valid {Tag} (id : StrongString Tag) : Prop := isValidIdentifier (str id) = true.
Definition id_optional {Tag} (id : StrongString Tag) : Prop := str id = "" ∨ id_valid id.

Lemma valid_text_fits text : isValidIdentifier text = true → text_fits kMaxIdentifierLength text.
Proof.
  unfold isValidIdentifier, text_fits, kMaxIdentifierLength, kAbsoluteMaxFieldBytes.
  change (Z.shiftl 1 20) with 1048576.
  destruct text as [|c text]; [done|]. destruct (Z.gtb_spec (slen (String c text)) 128); [done|lia].
Qed.

#[global] Instance id_wire Tag what :
  Wire (write_id (Tag := Tag)) (read_id what) id_valid.
Proof.
  split.
  - intros id Hid. unfold write_id, read_id. eapply reads_last.
    + apply (wire_complete (p := Read.string _)). by apply valid_text_fits.
    + apply reads_lift, parseId_Ok. by destruct id.
  - intros r id r' H. unfold read_id in H. inv_parse.
    apply (wire_sound (p := Read.string _)) in H as [_ He].
    by apply parseId_Ok in H0 as [-> Hv].
Qed.

#[global] Instance optional_id_wire Tag what :
  Wire (write_id (Tag := Tag)) (read_optional_id what) id_optional.
Proof.
  split.
  - intros [text] Hid. unfold write_id, read_optional_id. simpl. eapply reads_last.
    + apply (wire_complete (p := Read.string _)).
      destruct Hid as [Hid|Hid]; [simpl in Hid; by subst|by apply valid_text_fits].
    + destruct Hid as [Hid|Hid]; simpl in Hid.
      * subst. apply reads_ret.
      * destruct (decide (text = "")) as [->|]; [apply reads_ret|].
        by apply reads_lift, parseId_Ok.
  - intros r id r' H. unfold read_optional_id in H. inv_parse.
    all: apply (wire_sound (p := Read.string _)) in H as [_ He].
    + split; [by left|done].
    + apply parseId_Ok in H0 as [-> Hv]. split; [by right|done].
Qed.

(** An enumeration in one byte: a range check, then the cast. *)
Definition write_enum8 {A} `{WireEnum A} (a : A) : Writer := Write.u8 (raw a).
Definition p_cast {A} `{WireEnum A} (v : Z) : Parser A := λ r,
  match of_raw v with
  | Some a => Ok (a, r)
  | None => Abort "cast to an enumeration without that value"
  end.
Definition read_enum8_or {A} `{WireEnum A} (accepts : Z → bool) (e : Z → Error) : Parser A :=
  let! v := Read.u8 in
  do! p_check (accepts v) (e v) in p_cast v.
Definition read_enum8 {A} `{WireEnum A} (accepts : Z → bool) (msg : string) : Parser A :=
  read_enum8_or accepts (λ _, mkError ErrorCode.MalformedInput msg "").

(** The range check accepts exactly the enumerators. *)
Class EnumRange (A : Type) `{WireEnum A} (accepts : Z → bool) := {
  range_fits : ∀ a : A, fits 8 (raw a);
  range_accepts : ∀ a : A, accepts (raw a) = true;
  range_complete : ∀ v, fits 8 v → accepts v = true → ∃ a : A, raw a = v;
}.

Lemma p_cast_raw {A} `{WireEnum A} (a : A) : reads_back (p_cast (raw a)) (Ok []) a.
Proof.
  exists []. split; [done|]. intros r rest _. unfold p_cast. rewrite of_raw_raw. simpl.
  by rewrite advance_0.
Qed.
Lemma p_cast_Ok {A} `{WireEnum A} v (a : A) r r' : p_cast v r = Ok (a, r') → raw a = v ∧ r = r'.
Proof.
  unfold p_cast. destruct (of_raw v) as [b|] eqn:E; [|done]. intros [= -> ->].
  by apply of_raw_Some in E.
Qed.

#[global] Instance enum8_or_wire {A} `{EnumRange A accepts} e :
  Wire (write_enum8 (A := A)) (read_enum8_or accepts e) (λ _, True).
Proof.
  split.
  - intros a _. unfold write_enum8, read_enum8_or. eapply reads_last.
    + apply (wire_complete (p := Read.u8)). apply range_fits.
    + eapply reads_pure; [apply reads_check, range_accepts|]. apply p_cast_raw.
  - intros r a r' Hr. unfold read_enum8_or in Hr. inv_parse.
    apply (wire_sound (p := Read.u8)) in H1 as [_ He]. by apply p_cast_Ok in H3 as [<- ->].
Qed.
#[global] Instance enum8_wire {A} `{EnumRange A accepts} msg :
  Wire (write_enum8 (A := A)) (read_enum8 accepts msg) (λ _, True) := enum8_or_wire _.

(** *** Lists *)

Fixpoint w_each {A} (w : A → Writer) (l : list A) : Writer :=
  match l with [] => Ok [] | a :: l => w a +++ w_each w l end.
Fixpoint p_repeat {A} (n : nat) (p : Parser A) : Parser (list A) :=
  match n with
  | O => p_ret []
  | S n => let! a := p in let! l := p_repeat n p in p_ret (a :: l)
  end.
(** A count, its bound, and that many elements. *)
Definition w_counted {A} (w : A → Writer) (l : list A) : Writer :=
  Write.u32 (zlen l mod 2 ^ 32) +++ w_each w l.
Definition p_counted {A} (bound : Z) (e : Z → Error) (p : Parser A) : Parser (list A) :=
  let! count := Read.u32 in
  do! p_check (negb (count >? bound)) (e count) in p_repeat (Z.to_nat count) p.

Section lists.
Context {A} (w : A → Writer) (p : Parser A) (wf : A → Prop) `{!Wire w p wf}.

Lemma reads_repeat l : Forall wf l → reads_back (p_repeat (length l) p) (w_each w l) l.
Proof using Type*.
  induction 1 as [|a l Ha Hl IH]; simpl; [apply reads_ret|].
  eapply reads_bind; [by apply wire_complete|]. eapply reads_last; [done|]. apply reads_ret.
Qed.

Lemma repeat_sound n r l r' :
  p_repeat n p r = Ok (l, r') → length l = n ∧ Forall wf l ∧ emits r (w_each w l) r'.
Proof using Type*.
  revert r l. induction n as [|n IH]; intros r l H; simpl in H; inv_parse.
  - split; [done|]. split; [done|]. apply emits_nil.
  - apply (wire_sound (p := p)) in H as [Ha He]. apply IH in H0 as (Hl & Hf & He2).
    split; [simpl; congruence|]. split; [by constructor|]. by eapply emits_append.
Qed.

#[global] Instance counted_wire bound e :
  TCEq (bound <? 2 ^ 32) true →
  Wire (w_counted w) (p_counted bound e p) (λ l, zlen l <= bound ∧ Forall wf l).
Proof using Type*.
  intros Hb%TCEq_eq%Z.ltb_lt. split.
  - intros l [Hl Hf]. unfold w_counted, p_counted. pose proof (zlen_nonneg l).
    rewrite Z.mod_small by lia.
    eapply reads_bind; [apply (wire_complete (p := Read.u32)); unfold fits; lia|].
    eapply reads_pure; [apply reads_check|].
    { destruct (Z.gtb_spec (zlen l) bound); [lia|done]. }
    unfold zlen. rewrite Nat2Z.id. by apply reads_repeat.
  - intros r l r' Hr. unfold p_counted in Hr. inv_parse.
    apply (wire_sound (p := Read.u32)) in H as [Hv He].
    apply repeat_sound in H1 as (Hlen & Hf & He2). unfold fits in Hv.
    assert (zlen l = x) as <- by (unfold zlen; lia).
    destruct (Z.gtb_spec (zlen l) bound); [done|]. split; [done|].
    unfold w_counted. rewrite Z.mod_small by lia. by eapply emits_append.
Qed.
End lists.

(** ** Whole-buffer decoding *)

Lemma requireEnd_Ok r u r' : Read.requireEnd r = Ok (u, r') ↔ offset_ r = length (data_ r) ∧ r = r'.
Proof.
  unfold Read.requireEnd, atEnd.
  destruct (Nat.eqb_spec (offset_ r) (length (data_ r))), u; simpl; split; try done.
  - by intros [= ->].
  - by intros [_ ->].
  - by intros [].
Qed.

Lemma requireEnd_all bs :
  Read.requireEnd (advance (length bs) (reader bs)) = Ok (tt, advance (length bs) (reader bs)).
Proof. by apply requireEnd_Ok. Qed.

Lemma parses_all {A} (p : Parser A) bs a :
  parses p bs a → p (reader bs) = Ok (a, advance (length bs) (reader bs)).
Proof. intros Hp. apply (Hp (reader bs) []). symmetry. apply app_nil_r. Qed.

(** Decoding what reads back. *)
Lemma decode_reads_back {A} (p : Parser A) w a bs :
  reads_back p w a → w = Ok bs → decode_all p bs = Ok a.
Proof.
  intros (bs' & Hw & Hp) Hbs. rewrite Hbs in Hw. injection Hw as <-. unfold decode_all.
  rewrite (parses_all p bs a Hp). cbn [try_bind]. by rewrite requireEnd_all.
Qed.

Section decode.
Context {A} (w : A → Writer) (p : Parser A) (wf : A → Prop) `{!Wire w p wf}.

Lemma encode_Ok a : wf a → ∃ bs, w a = Ok bs.
Proof using Type*. intros Ha. destruct (wire_complete (p := p) a Ha) as (bs & Hw & _). eauto. Qed.

Lemma decode_encode a bs : wf a → w a = Ok bs → decode_all p bs = Ok a.
Proof using Type*.
  intros Ha Hw. eapply decode_reads_back; [by apply wire_complete|done].
Qed.

Lemma decode_canonical a bs : decode_all p bs = Ok a → wf a ∧ w a = Ok bs.
Proof using Type*.
  unfold decode_all. intros ([a' r] & Hp & ([[] r'] & Hend & [= ->])%try_bind_Ok)%try_bind_Ok.
  apply (wire_sound (p := p)) in Hp as (Ha & bs' & Hw & Hpend & ->). split; [done|].
  apply requireEnd_Ok in Hend as [Hend _]. simpl in Hend.
  rewrite pending_advance in Hpend. unfold pending, reader in Hpend. simpl in Hpend.
  rewrite drop_0, Hend, drop_all, app_nil_r in Hpend. by subst.
Qed.

(** No strict prefix of an accepted buffer is accepted. *)
Lemma decode_truncated a bs n :
  decode_all p bs = Ok a → (n < length bs)%nat → ∀ b, decode_all p (take n bs) ≠ Ok b.
Proof using Type*.
  intros Ha Hn b Hb. apply decode_canonical in Ha as [Hwf Ha].
  pose proof (decode_canonical _ _ Hb) as [Hwfb Hwb].
  destruct (wire_complete (p := p) b Hwfb) as (bs' & Hw' & Hp). rewrite Hwb in Hw'. injection Hw' as <-.
  destruct (wire_complete (p := p) a Hwf) as (bs' & Hw' & Hpa). rewrite Ha in Hw'. injection Hw' as <-.
  specialize (Hp (reader bs) (drop n bs)). specialize (Hpa (reader bs) []).
  unfold pending, reader in Hp, Hpa. simpl in Hp, Hpa. rewrite drop_0 in Hp, Hpa.
  rewrite Hpa in Hp by (by rewrite app_nil_r).
  specialize (Hp ltac:(by rewrite take_drop)). injection Hp as -> Hlen.
  rewrite length_take in Hlen. lia.
Qed.
End decode.
