(* ===== verification/Lifecycle.v ===== *)
(** * The delivery lifecycle

    Models include/cf/lifecycle.hpp and src/lifecycle.cpp: the ten delivery
    states, the transition table, the evidence recorded with a transition and
    [applyTransition]. The table is also read as a step relation, whose
    reachability carries the history properties. *)

From stdpp Require Import relations.
From S2P Require Import Prelude Result Hash Ids.

(** ** States *)
Module DeliveryState.
Inductive t :=
  | Prepared | Offered | Transferred | Verified | Staged | Applied
  | Acknowledged | Failed | Rejected | Retired.
End DeliveryState.
Abbreviation DeliveryState := DeliveryState.t.
#[global] Instance DeliveryState_eq_dec : EqDecision DeliveryState.
Proof. solve_decision. Defined.

Definition DeliveryState_raw (s : DeliveryState) : Z :=
  match s with
  | DeliveryState.Prepared => 1 | DeliveryState.Offered => 2
  | DeliveryState.Transferred => 3 | DeliveryState.Verified => 4
  | DeliveryState.Staged => 5 | DeliveryState.Applied => 6
  | DeliveryState.Acknowledged => 7 | DeliveryState.Failed => 8
  | DeliveryState.Rejected => 9 | DeliveryState.Retired => 10
  end.
Definition DeliveryState_all : list DeliveryState :=
  [DeliveryState.Prepared; DeliveryState.Offered; DeliveryState.Transferred;
   DeliveryState.Verified; DeliveryState.Staged; DeliveryState.Applied;
   DeliveryState.Acknowledged; DeliveryState.Failed; DeliveryState.Rejected;
   DeliveryState.Retired].
#[global] Program Instance DeliveryState_enum : WireEnum DeliveryState :=
  {| raw := DeliveryState_raw; all_values := DeliveryState_all |}.
Next Obligation. solve_enum_complete. Qed.
Next Obligation. solve_enum_inj. Qed.

Definition deliveryStateName (s : DeliveryState) : string :=
  match s with
  | DeliveryState.Prepared => "prepared"
  | DeliveryState.Offered => "offered"
  | DeliveryState.Transferred => "transferred"
  | DeliveryState.Verified => "verified"
  | DeliveryState.Staged => "staged"
  | DeliveryState.Applied => "applied"
  | DeliveryState.Acknowledged => "acknowledged"
  | DeliveryState.Failed => "failed"
  | DeliveryState.Rejected => "rejected"
  | DeliveryState.Retired => "retired"
  end.

(** [parseDeliveryState]: the table lists every state with its name. *)
Definition parseDeliveryState_table : list (string * DeliveryState) :=
  [("prepared", DeliveryState.Prepared); ("offered", DeliveryState.Offered);
   ("transferred", DeliveryState.Transferred); ("verified", DeliveryState.Verified);
   ("staged", DeliveryState.Staged); ("applied", DeliveryState.Applied);
   ("acknowledged", DeliveryState.Acknowledged); ("failed", DeliveryState.Failed);
   ("rejected", DeliveryState.Rejected); ("retired", DeliveryState.Retired)].
Definition parseDeliveryState (text : string) : option DeliveryState :=
  (λ e, e.2.2) <$> list_find (λ e : string * DeliveryState, e.1 = text) parseDeliveryState_table.

Definition deliveryStateRank (s : DeliveryState) : Z :=
  match s with
  | DeliveryState.Prepared => 0 | DeliveryState.Offered => 1
  | DeliveryState.Transferred => 2 | DeliveryState.Verified => 3
  | DeliveryState.Staged => 4 | DeliveryState.Applied => 5
  | DeliveryState.Acknowledged => 6 | DeliveryState.Failed => 7
  | DeliveryState.Rejected => 8 | DeliveryState.Retired => 9
  end.

Definition isActivationState (s : DeliveryState) : bool :=
  match s with DeliveryState.Applied | DeliveryState.Acknowledged => true | _ => false end.
Definition isTerminalState (s : DeliveryState) : bool :=
  match s with
  | DeliveryState.Acknowledged | DeliveryState.Rejected | DeliveryState.Retired => true
  | _ => false
  end.
Definition isPendingState (s : DeliveryState) : bool :=
  match s with
  | DeliveryState.Prepared | DeliveryState.Offered | DeliveryState.Transferred
  | DeliveryState.Verified | DeliveryState.Staged | DeliveryState.Applied
  | DeliveryState.Failed => true
  | _ => false
  end.

(** ** The transition table *)

Definition kTransitions : list (list bool) :=
  let F := false in let T := true in
  (*          Prep Offr Xfer Veri Stag Appl Ackd Fail Rejc Retd (unused) *)
  [ (* Prep *) [F; T; F; F; F; T; F; T; T; T; F];
    (* Offr *) [F; F; T; F; F; T; F; T; T; T; F];
    (* Xfer *) [F; F; F; T; F; T; F; T; T; T; F];
    (* Veri *) [F; F; F; F; T; T; F; T; T; T; F];
    (* Stag *) [F; F; F; F; F; T; F; T; T; T; F];
    (* Appl *) [F; F; F; F; F; F; T; T; F; T; F];
    (* Ackd *) [F; F; F; F; F; F; F; F; F; T; F];
    (* Fail *) [T; F; F; F; F; T; F; F; T; T; F];
    (* Rejc *) [F; F; F; F; F; F; F; F; F; T; F];
    (* Retd *) [F; F; F; F; F; F; F; F; F; F; F];
    (* ---- *) [F; F; F; F; F; F; F; F; F; F; F] ].

(** [static_cast<std::size_t>(state) - 1u]. *)
Definition indexOf (s : DeliveryState) : nat := Z.to_nat (raw s - 1).

Definition isLegalTransition (from to : DeliveryState) : bool :=
  let fromIndex := indexOf from in
  let toIndex := indexOf to in
  if (length kTransitions <=? fromIndex)%nat
     || (length (default [] (kTransitions !! 0%nat)) <=? toIndex)%nat
  then false
  else default false (default [] (kTransitions !! fromIndex) !! toIndex).

Definition newline : string := String (Ascii.ascii_of_N 10) "".

(** One line of [renderTransitionTable]. *)
Definition renderTransitionLine (from : DeliveryState) : string :=
  let legal := filter (λ to, isLegalTransition from to = true) DeliveryState_all in
  "  " +:+ deliveryStateName from +:+ " ->"
    +:+ foldr (λ to out, " " +:+ deliveryStateName to +:+ out) "" legal
    +:+ (if decide (legal = []) then " (terminal)" else "") +:+ newline.

Definition renderTransitionTable : string :=
  "configuration-fabric delivery lifecycle" +:+ newline
    +:+ "states:"
    +:+ foldr (λ s out, " " +:+ deliveryStateName s +:+ out) "" DeliveryState_all +:+ newline
    +:+ foldr (λ from out, renderTransitionLine from +:+ out) "" DeliveryState_all.

Definition applyTransition (from to : DeliveryState) (what : string) : Result DeliveryState :=
  if negb (isLegalTransition from to)
  then fail_detail ErrorCode.IllegalTransition "delivery lifecycle transition is not permitted"
         ("from=" +:+ deliveryStateName from +:+ " to=" +:+ deliveryStateName to
          +:+ " at=" +:+ what)
  else Ok to.

(** ** Evidence *)
Module EvidenceKind.
Inductive t :=
  | Created | OfferedToTarget | BytesAccepted | DigestVerified | StagedAtTarget
  | ApplyPrepared | ActivationReported | AcknowledgementRecorded
  | ReconcileObserved | FailureReported | Refused | Superseded | Retried.
End EvidenceKind.
Abbreviation EvidenceKind := EvidenceKind.t.
#[global] Instance EvidenceKind_eq_dec : EqDecision EvidenceKind.
Proof. solve_decision. Defined.

Definition EvidenceKind_raw (k : EvidenceKind) : Z :=
  match k with
  | EvidenceKind.Created => 1 | EvidenceKind.OfferedToTarget => 2
  | EvidenceKind.BytesAccepted => 3 | EvidenceKind.DigestVerified => 4
  | EvidenceKind.StagedAtTarget => 5 | EvidenceKind.ApplyPrepared => 6
  | EvidenceKind.ActivationReported => 7 | EvidenceKind.AcknowledgementRecorded => 8
  | EvidenceKind.ReconcileObserved => 9 | EvidenceKind.FailureReported => 10
  | EvidenceKind.Refused => 11 | EvidenceKind.Superseded => 12
  | EvidenceKind.Retried => 13
  end.
Definition EvidenceKind_all : list EvidenceKind :=
  [EvidenceKind.Created; EvidenceKind.OfferedToTarget; EvidenceKind.BytesAccepted;
   EvidenceKind.DigestVerified; EvidenceKind.StagedAtTarget; EvidenceKind.ApplyPrepared;
   EvidenceKind.ActivationReported; EvidenceKind.AcknowledgementRecorded;
   EvidenceKind.ReconcileObserved; EvidenceKind.FailureReported; EvidenceKind.Refused;
   EvidenceKind.Superseded; EvidenceKind.Retried].
#[global] Program Instance EvidenceKind_enum : WireEnum EvidenceKind :=
  {| raw := EvidenceKind_raw; all_values := EvidenceKind_all |}.
Next Obligation. solve_enum_complete. Qed.
Next Obligation. solve_enum_inj. Qed.

Definition evidenceKindName (k : EvidenceKind) : string :=
  match k with
  | EvidenceKind.Created => "created"
  | EvidenceKind.OfferedToTarget => "offered-to-target"
  | EvidenceKind.BytesAccepted => "bytes-accepted"
  | EvidenceKind.DigestVerified => "digest-verified"
  | EvidenceKind.StagedAtTarget => "staged-at-target"
  | EvidenceKind.ApplyPrepared => "apply-prepared"
  | EvidenceKind.ActivationReported => "activation-reported"
  | EvidenceKind.AcknowledgementRecorded => "acknowledgement-recorded"
  | EvidenceKind.ReconcileObserved => "reconcile-observed"
  | EvidenceKind.FailureReported => "failure-reported"
  | EvidenceKind.Refused => "refused"
  | EvidenceKind.Superseded => "superseded"
  | EvidenceKind.Retried => "retried"
  end.
(** [for raw = 1..13: if evidenceKindName(raw) == text]. *)
Definition parseEvidenceKind (text : string) : option EvidenceKind :=
  parse_name evidenceKindName EvidenceKind_all text.

Definition kMaxEvidenceDetailBytes : Z := 256.
Definition kMaxEventsPerDelivery : Z := 64.

Record LifecycleEvent := mkLifecycleEvent {
  ev_kind : EvidenceKind;
  ev_from : DeliveryState;
  ev_to : DeliveryState;
  ev_generation : Generation;
  ev_digest : Digest;
  ev_code : ErrorCode;
  ev_directive : RetryDirective;
  ev_authorityEpoch : Epoch;
  ev_authorityIncarnation : IncarnationId;
  ev_targetTerm : Term;
  ev_targetIncarnation : IncarnationId;
  ev_fromReconciliation : bool;
  ev_atMillis : Z;
  ev_detail : string;
}.
#[global] Instance LifecycleEvent_eq_dec : EqDecision LifecycleEvent.
Proof. solve_decision. Defined.

Definition LifecycleEvent_default : LifecycleEvent :=
  mkLifecycleEvent EvidenceKind.Created DeliveryState.Prepared DeliveryState.Prepared num_unset
    digest_unset ErrorCode.Ok RetryDirective.DoNotRetry num_unset opaque_unset num_unset
    opaque_unset false 0 "".

Definition incarnation_prefix (i : IncarnationId) : string := str_take 8 (toHex (opaque_bytes i)).

Definition LifecycleEvent_render (e : LifecycleEvent) : string :=
  evidenceKindName (ev_kind e) +:+ " " +:+ deliveryStateName (ev_from e)
    +:+ "->" +:+ deliveryStateName (ev_to e)
    +:+ " gen=" +:+ to_string (value (ev_generation e))
    +:+ " digest=" +:+ shortDigest (ev_digest e)
    +:+ (if decide (ev_code e = ErrorCode.Ok) then ""
         else " code=" +:+ errorCodeName (ev_code e))
    +:+ " epoch=" +:+ to_string (value (ev_authorityEpoch e))
    +:+ (if opaque_isSet (ev_authorityIncarnation e)
         then " inc=" +:+ incarnation_prefix (ev_authorityIncarnation e) else "")
    +:+ (if num_isSet (ev_targetTerm e)
         then " term=" +:+ to_string (value (ev_targetTerm e)) else "")
    +:+ (if opaque_isSet (ev_targetIncarnation e)
         then " target-inc=" +:+ incarnation_prefix (ev_targetIncarnation e) else "")
    +:+ (if ev_fromReconciliation e then " evidence=reconciliation" else "")
    +:+ (if decide (ev_detail e = "") then "" else " detail=" +:+ ev_detail e).

(** ** The table as a step relation *)

Definition step (from to : DeliveryState) : Prop := isLegalTransition from to = true.

(** A history: the states a delivery has been in, oldest first. *)
Inductive history : DeliveryState → list DeliveryState → Prop :=
  | history_start : history DeliveryState.Prepared [DeliveryState.Prepared]
  | history_step from to past :
      history from past → step from to → history to (past ++ [to]).

(** The happy path. *)
Definition successor (s : DeliveryState) : option DeliveryState :=
  match s with
  | DeliveryState.Prepared => Some DeliveryState.Offered
  | DeliveryState.Offered => Some DeliveryState.Transferred
  | DeliveryState.Transferred => Some DeliveryState.Verified
  | DeliveryState.Verified => Some DeliveryState.Staged
  | DeliveryState.Staged => Some DeliveryState.Applied
  | DeliveryState.Applied => Some DeliveryState.Acknowledged
  | _ => None
  end.

(** Nothing has been activated yet: the states before [Applied]. *)
Definition preActivation (s : DeliveryState) : bool :=
  match s with
  | DeliveryState.Prepared | DeliveryState.Offered | DeliveryState.Transferred
  | DeliveryState.Verified | DeliveryState.Staged => true
  | _ => false
  end.

(** The documented relation, rule by rule. *)
Inductive documented : DeliveryState → DeliveryState → Prop :=
  | doc_happy s s' : successor s = Some s' → documented s s'
  | doc_report s : preActivation s = true → documented s DeliveryState.Applied
  | doc_report_failed : documented DeliveryState.Failed DeliveryState.Applied
  | doc_fail s : preActivation s = true → documented s DeliveryState.Failed
  | doc_fail_applied : documented DeliveryState.Applied DeliveryState.Failed
  | doc_reject s : preActivation s = true → documented s DeliveryState.Rejected
  | doc_reject_failed : documented DeliveryState.Failed DeliveryState.Rejected
  | doc_retry : documented DeliveryState.Failed DeliveryState.Prepared
  | doc_retire s : s ≠ DeliveryState.Retired → documented s DeliveryState.Retired.

(** A step that leaves [Failed] for another attempt. *)
Definition is_retry (from to : DeliveryState) : bool :=
  bool_decide (from = DeliveryState.Failed) && isPendingState to.

(** A history with the number of retries it took. *)
Inductive attempts : DeliveryState → nat → nat → Prop :=
  | attempts_start : attempts DeliveryState.Prepared 0 0
  | attempts_step from to steps retries :
      attempts from steps retries → step from to →
      attempts to (S steps) (retries + (if is_retry from to then 1 else 0)).

Lemma legal_iff_documented from to : isLegalTransition from to = true ↔ documented from to.
Proof.
  split.
  - destruct from, to; intros H; vm_compute in H; try discriminate H; clear H.
    all: first [by constructor | by apply doc_retire].
  - intros H; inversion H; subst; try reflexivity; destruct from; by simplify_eq/=.
Qed.

(** ** Properties *)

(** The transition table is the documented machine: the happy path in
    order, activation reported from any pre-activation state or from failed,
    failure before acknowledgement, rejection before activation or after
    failure, a retry of a failure, and retirement of anything not retired. *)
Theorem isLegalTransition_documented from to :
  isLegalTransition from to = true ↔ documented from to.
Proof.
  apply legal_iff_documented.
Qed.

(** [applyTransition] returns the requested state exactly when the table
    allows it, and an illegal-transition error otherwise; it never invents a
    state. *)
Theorem applyTransition_spec from to what :
  (applyTransition from to what = Ok to ∧ documented from to) ∨
  (∃ e, applyTransition from to what = Fail e ∧ code e = ErrorCode.IllegalTransition
        ∧ ¬ documented from to).
Proof.
  pose proof (legal_iff_documented from to) as Hd.
  unfold applyTransition. destruct (isLegalTransition from to) eqn:E; simpl.
  - left. split; [done|]. by apply Hd.
  - right. eexists. split; [done|]. split; [done|]. intros ?%Hd. congruence.
Qed.

(** Acknowledgement is never inferred: in every history, the state just
    before [Acknowledged] is [Applied], so an acknowledged delivery has passed
    the activation boundary. *)
Theorem acknowledged_after_applied s past
    (H : history s past) (Hs : s = DeliveryState.Acknowledged) :
  ∃ before, past = before ++ [DeliveryState.Applied; DeliveryState.Acknowledged].
Proof.
  assert (∀ s past, history s past → ∃ before, past = before ++ [s]) as Hlast.
  { clear. intros s past []; [by exists []|eauto]. }
  destruct H as [|from to past H Hstep]; [done|]. subst to.
  destruct (Hlast _ _ H) as [before ->]. exists before. rewrite <- app_assoc. simpl.
  unfold step in Hstep. by destruct from.
Qed.

Lemma acknowledged_after_applied_witness :
  ∃ before, [DeliveryState.Prepared; DeliveryState.Applied; DeliveryState.Acknowledged]
            = before ++ [DeliveryState.Applied; DeliveryState.Acknowledged].
Proof.
  apply (acknowledged_after_applied DeliveryState.Acknowledged); [|reflexivity].
  apply (history_step DeliveryState.Applied _ [DeliveryState.Prepared; DeliveryState.Applied]);
    [|reflexivity].
  apply (history_step DeliveryState.Prepared _ [DeliveryState.Prepared]); [|reflexivity].
  apply history_start.
Defined.

Lemma rank_step from to : step from to →
  (deliveryStateRank from < deliveryStateRank to)
  ∨ (is_retry from to = true ∧ deliveryStateRank from <= deliveryStateRank to + 7).
Proof.
  unfold step. destruct from, to; vm_compute; intros H; try discriminate H.
  all: first [left; reflexivity | right; split; [reflexivity|discriminate]].
Qed.

(** A delivery terminates up to retries: a history that retried a failure
    [r] times has at most [9 + 8 r] transitions, so a bounded retry budget
    bounds the life of a delivery. *)
Theorem lifecycle_bounded s steps retries (H : attempts s steps retries) :
  (steps <= 9 + 8 * retries)%nat.
Proof.
  assert (∀ s, 0 <= deliveryStateRank s <= 9) as Hr by (intros []; simpl; lia).
  enough (Z.of_nat steps <= deliveryStateRank s + 8 * Z.of_nat retries) by (specialize (Hr s); lia).
  induction H as [|from to steps retries H IH Hstep]; [done|].
  destruct (rank_step _ _ Hstep) as [Hlt | [-> Hle]]; [|lia].
  destruct (is_retry from to); lia.
Qed.

Lemma lifecycle_bounded_witness : (3 <= 9 + 8 * 1)%nat.
Proof.
  apply (lifecycle_bounded DeliveryState.Prepared).
  exact (attempts_step DeliveryState.Failed DeliveryState.Prepared 2 0
          (attempts_step DeliveryState.Offered DeliveryState.Failed 1 0
            (attempts_step DeliveryState.Prepared DeliveryState.Offered 0 0
               attempts_start eq_refl) eq_refl) eq_refl).
Defined.

(** Terminal states are final: no transition leaves a terminal state
    except into [Retired], none leaves [Retired], and every state is either
    terminal or still owed work, never both. *)
Theorem terminal_final from to :
  (isTerminalState from = true → step from to → to = DeliveryState.Retired)
  ∧ ¬ step DeliveryState.Retired to ∧ ¬ step from from
  ∧ isPendingState from = negb (isTerminalState from).
Proof.
  unfold step. destruct from, to; (split; [|split; [|split]]); done.
Qed.

(** Names of states and of evidence kinds parse back to the value they
    name, and only such names parse. *)
Theorem lifecycle_names_roundtrip s k text :
  parseDeliveryState (deliveryStateName s) = Some s
  ∧ parseEvidenceKind (evidenceKindName k) = Some k
  ∧ (∀ s', parseDeliveryState text = Some s' → text = deliveryStateName s')
  ∧ (∀ k', parseEvidenceKind text = Some k' → text = evidenceKindName k').
Proof.
  split; [by destruct s|]. split; [by destruct k|]. split.
  - intros s' [[i e] [Hf ->]]%fmap_Some. apply list_find_Some in Hf as (Hl & <- & _).
    apply list_elem_of_lookup_2, list_elem_of_In in Hl. simpl.
    repeat destruct Hl as [<-|Hl]; done.
  - by intros k' <-%parse_name_Some.
Qed.

(** Rejection can follow an activation: [Applied] may fail and a failed
    delivery may be rejected, so the table does not keep rejection to states
    where nothing has been activated. *)
Theorem rejected_after_activation :
  ∃ past, history DeliveryState.Rejected past ∧ DeliveryState.Applied ∈ past.
Proof.
  exists [DeliveryState.Prepared; DeliveryState.Applied; DeliveryState.Failed;
          DeliveryState.Rejected].
  split; [|by apply list_elem_of_In; simpl; tauto].
  apply (history_step DeliveryState.Failed _
    [DeliveryState.Prepared; DeliveryState.Applied; DeliveryState.Failed]); [|reflexivity].
  apply (history_step DeliveryState.Applied _ [DeliveryState.Prepared; DeliveryState.Applied]);
    [|reflexivity].
  apply (history_step DeliveryState.Prepared _ [DeliveryState.Prepared]); [|reflexivity].
  apply history_start.
Qed.
