(* ===== verification/Policy.v ===== *)
(** * The delivery policy

    Models include/cf/policy.hpp and src/policy.cpp: the governing values of
    [DistributorPolicy] and their validation, the retry backoff, and the pure
    decision function [decide]. *)

From S2P Require Import Prelude Result Checked Ids Lifecycle.

Record DistributorPolicy := mkPolicy {
  maxAttempts : Z;
  retryBackoffMillis : Z;
  maxBackoffMillis : Z;
  connectTimeoutMillis : Z;
  sessionIdleTimeoutMillis : Z;
  requestTimeoutMillis : Z;
  maxTargets : Z;
  maxLiveDeliveries : Z;
  maxHistoryPerLineage : Z;
  maxConcurrentSessions : Z;
  transferChunkBytes : Z;
  maxPayloadBytes : Z;
  requireAcknowledgement : bool;
  reconcileOnRestart : bool;
  maxReconcileFindings : Z;
  repairProbeMillis : Z;
  sessionMinIntervalMillis : Z;
  livenessFreshnessMillis : Z;
}.

Definition defaultPolicy : DistributorPolicy := {|
  maxAttempts := 4;
  retryBackoffMillis := 200;
  maxBackoffMillis := 5000;
  connectTimeoutMillis := 5000;
  sessionIdleTimeoutMillis := 10000;
  requestTimeoutMillis := 10000;
  maxTargets := 1024;
  maxLiveDeliveries := 4096;
  maxHistoryPerLineage := 8;
  maxConcurrentSessions := 8;
  transferChunkBytes := 16384;
  maxPayloadBytes := 1 * 1024 * 1024;
  requireAcknowledgement := true;
  reconcileOnRestart := true;
  maxReconcileFindings := 64;
  repairProbeMillis := 2000;
  sessionMinIntervalMillis := 50;
  livenessFreshnessMillis := 15000;
|}.

(** The C++ types of the fields. *)
Record policy_typed (p : DistributorPolicy) : Prop := {
  pt_maxAttempts : fits 32 (maxAttempts p);
  pt_retryBackoff : fits_i64 (retryBackoffMillis p);
  pt_maxBackoff : fits_i64 (maxBackoffMillis p);
}.

(** ** Backoff *)

(** The doubling loop, [n] iterations left. *)
Fixpoint backoff_loop (n : nat) (ceiling delay : Z) : Z :=
  match n with
  | O => delay
  | S n =>
      if delay >=? ceiling then delay
      else backoff_loop n ceiling
             (match checkedMul 64 delay 2 with Some doubled => doubled | None => ceiling end)
  end.

Definition backoffFor (policy : DistributorPolicy) (failures : Z) : Z :=
  let ceiling := of_i64 (maxBackoffMillis policy) in
  let delay := of_i64 (retryBackoffMillis policy) in
  let capped := if failures >? 16 then 16 else failures in
  let delay := backoff_loop (Z.to_nat capped) ceiling delay in
  to_i64 (if delay >? ceiling then ceiling else delay).

(** ** Validation *)

Definition validate (p : DistributorPolicy) : Status :=
  if maxAttempts p =? 0
  then fail ErrorCode.InvalidArgument "maxAttempts must be at least 1"
  else if maxConcurrentSessions p =? 0
  then fail ErrorCode.InvalidArgument "maxConcurrentSessions must be at least 1"
  else if (maxTargets p =? 0) || (maxLiveDeliveries p =? 0)
  then fail ErrorCode.InvalidArgument "target and delivery budgets must be non-zero"
  else if transferChunkBytes p =? 0
  then fail ErrorCode.InvalidArgument "transferChunkBytes must be non-zero"
  else if transferChunkBytes p >? maxPayloadBytes p
  then fail_detail ErrorCode.InvalidArgument "transferChunkBytes must not exceed maxPayloadBytes"
         (to_string (transferChunkBytes p) +:+ " > " +:+ to_string (maxPayloadBytes p))
  else if (retryBackoffMillis p <? 0) || (maxBackoffMillis p <? retryBackoffMillis p)
  then fail ErrorCode.InvalidArgument "backoff bounds are inconsistent"
  else if (connectTimeoutMillis p <=? 0) || (sessionIdleTimeoutMillis p <=? 0)
          || (requestTimeoutMillis p <=? 0)
  then fail ErrorCode.InvalidArgument "timeouts must be positive"
  else if livenessFreshnessMillis p <=? 0
  then fail ErrorCode.InvalidArgument "livenessFreshnessMillis must be positive"
  else if maxHistoryPerLineage p =? 0
  then fail ErrorCode.InvalidArgument "maxHistoryPerLineage must be at least 1"
  else if (repairProbeMillis p <=? 0) || (sessionMinIntervalMillis p <=? 0)
  then fail ErrorCode.InvalidArgument "probe and session interval bounds must be positive"
  else Ok tt.

Definition bool_text (b : bool) : string := if b then "true" else "false".

Definition DistributorPolicy_render (p : DistributorPolicy) : string :=
  let line key v := "  " +:+ key +:+ " = " +:+ to_string v +:+ newline in
  "policy:" +:+ newline
    +:+ line "max-attempts" (maxAttempts p)
    +:+ line "retry-backoff-ms" (retryBackoffMillis p)
    +:+ line "max-backoff-ms" (maxBackoffMillis p)
    +:+ line "connect-timeout-ms" (connectTimeoutMillis p)
    +:+ line "session-idle-timeout-ms" (sessionIdleTimeoutMillis p)
    +:+ line "request-timeout-ms" (requestTimeoutMillis p)
    +:+ line "max-targets" (maxTargets p)
    +:+ line "max-live-deliveries" (maxLiveDeliveries p)
    +:+ line "max-history-per-lineage" (maxHistoryPerLineage p)
    +:+ line "max-concurrent-sessions" (maxConcurrentSessions p)
    +:+ line "transfer-chunk-bytes" (transferChunkBytes p)
    +:+ line "max-payload-bytes" (maxPayloadBytes p)
    +:+ line "liveness-freshness-ms" (livenessFreshnessMillis p)
    +:+ line "repair-probe-ms" (repairProbeMillis p)
    +:+ line "session-min-interval-ms" (sessionMinIntervalMillis p)
    +:+ "  require-acknowledgement = " +:+ bool_text (requireAcknowledgement p) +:+ newline
    +:+ "  reconcile-on-restart = " +:+ bool_text (reconcileOnRestart p) +:+ newline.

(** ** Actions *)
Module PolicyAction.
Inductive t :=
  | None | Offer | ResumeTransfer | Activate | Reconcile | Wait
  | RecordFailureAndRetry | Reject | GiveUp | Retire.
End PolicyAction.
Abbreviation PolicyAction := PolicyAction.t.
#[global] Instance PolicyAction_eq_dec : EqDecision PolicyAction.
Proof. solve_decision. Defined.

Definition PolicyAction_raw (a : PolicyAction) : Z :=
  match a with
  | PolicyAction.None => 0 | PolicyAction.Offer => 1 | PolicyAction.ResumeTransfer => 2
  | PolicyAction.Activate => 3 | PolicyAction.Reconcile => 4 | PolicyAction.Wait => 5
  | PolicyAction.RecordFailureAndRetry => 6 | PolicyAction.Reject => 7
  | PolicyAction.GiveUp => 8 | PolicyAction.Retire => 9
  end.
Definition PolicyAction_all : list PolicyAction :=
  [PolicyAction.None; PolicyAction.Offer; PolicyAction.ResumeTransfer;
   PolicyAction.Activate; PolicyAction.Reconcile; PolicyAction.Wait;
   PolicyAction.RecordFailureAndRetry; PolicyAction.Reject; PolicyAction.GiveUp;
   PolicyAction.Retire].
#[global] Program Instance PolicyAction_enum : WireEnum PolicyAction :=
  {| raw := PolicyAction_raw; all_values := PolicyAction_all |}.
Next Obligation. solve_enum_complete. Qed.
Next Obligation. solve_enum_inj. Qed.

Definition policyActionName (a : PolicyAction) : string :=
  match a with
  | PolicyAction.None => "none"
  | PolicyAction.Offer => "offer"
  | PolicyAction.ResumeTransfer => "resume-transfer"
  | PolicyAction.Activate => "activate"
  | PolicyAction.Reconcile => "reconcile"
  | PolicyAction.Wait => "wait"
  | PolicyAction.RecordFailureAndRetry => "record-failure-and-retry"
  | PolicyAction.Reject => "reject"
  | PolicyAction.GiveUp => "give-up"
  | PolicyAction.Retire => "retire"
  end.
(** [for raw = 0..9: if policyActionName(raw) == text]. *)
Definition parsePolicyAction (text : string) : option PolicyAction :=
  parse_name policyActionName PolicyAction_all text.

(** ** The decision *)

Record DecisionInput := mkInput {
  in_state : DeliveryState;
  in_failures : Z;
  in_attempt : AttemptId;
  in_targetGuarantee : ApplyGuarantee;
  in_requirement : GuaranteeRequirement;
  in_desiredGeneration : Generation;
  in_targetGeneration : Generation;
  in_desiredDigest : Digest;
  in_targetDigest : Digest;
  in_targetLive : bool;
  in_livenessEvidenceStale : bool;
  in_targetApplyPrepared : bool;
  in_artifactAvailable : bool;
  in_resumableTransfer : bool;
  in_supersededByNewerGeneration : bool;
  in_millisSinceLastAttempt : Z;
}.

Record RejectedAlternative := mkRejected { alt_action : PolicyAction; alt_reason : string }.

#[global] Instance RejectedAlternative_eq_dec : EqDecision RejectedAlternative.
Proof. solve_decision. Defined.

Record Decision := mkDecision {
  action : PolicyAction;
  reason : string;
  alternatives : list RejectedAlternative;
  dec_epoch : Epoch;
  dec_generation : Generation;
  dec_attempt : AttemptId;
  retryAfterMillis : Z;
  terminal : bool;
}.

(** The target has moved past the desired generation, or a newer generation
    exists for the lineage. *)
Definition input_superseded (input : DecisionInput) : bool :=
  in_supersededByNewerGeneration input
  || (num_isSet (in_targetGeneration input)
      && num_lt (in_desiredGeneration input) (in_targetGeneration input)).

Module Decide.
Definition decide (policy : DistributorPolicy) (input : DecisionInput) (epoch : Epoch)
    (generation : Generation) : Decision :=
  let decision act rea alts retry term :=
    mkDecision act rea (map (λ a, mkRejected a.1 a.2) alts) epoch generation
      (in_attempt input) retry term in
  if input_superseded input then
    decision PolicyAction.Retire
      ("target is at generation " +:+ to_string (value (in_targetGeneration input))
       +:+ " which is not older than the desired generation "
       +:+ to_string (value (in_desiredGeneration input)))
      [(PolicyAction.Offer, "offering would push a generation the target has already moved past");
       (PolicyAction.Activate, "activation would install a stale generation over a newer one")]
      0 true
  else if negb (guaranteeSatisfies (in_targetGuarantee input) (in_requirement input)) then
    decision PolicyAction.Reject
      ("target offers guarantee '" +:+ applyGuaranteeName (in_targetGuarantee input)
       +:+ "' which does not satisfy requirement '"
       +:+ guaranteeRequirementName (in_requirement input) +:+ "'")
      [(PolicyAction.Offer, "the target cannot satisfy the required guarantee")] 0 true
  else if negb (in_artifactAvailable input) then
    if bool_decide (in_state input = DeliveryState.Prepared) then
      decision PolicyAction.Reject
        "artifact for the desired digest is not present in the artifact store"
        [(PolicyAction.Offer, "the artifact bytes are not in the store")] 0 true
    else
      let exhausted := in_failures input >=? maxAttempts policy in
      decision (if exhausted then PolicyAction.GiveUp else PolicyAction.RecordFailureAndRetry)
        "artifact bytes are no longer available; the delivery cannot progress"
        ((PolicyAction.Offer, "digest is unavailable for distribution")
         :: (if exhausted
             then [(PolicyAction.RecordFailureAndRetry,
                     "retry budget is exhausted for this delivery")]
             else []))
        (backoffFor policy (in_failures input)) exhausted
  else if isTerminalState (in_state input) then
    decision PolicyAction.None
      ("delivery is terminal in state '" +:+ deliveryStateName (in_state input) +:+ "'")
      [(PolicyAction.Offer, "the delivery already reached a terminal state")] 0 true
  else if bool_decide (in_state input = DeliveryState.Applied) then
    if requireAcknowledgement policy then
      decision PolicyAction.Reconcile
        "target reported activation; the acknowledgement boundary must be confirmed against current target authority before it can be recorded"
        [(PolicyAction.Activate, "the activation boundary already occurred")] 0 false
    else
      decision PolicyAction.None "acknowledgement is not required by policy" [] 0 true
  else if bool_decide (in_state input = DeliveryState.Failed) then
    if in_failures input >=? maxAttempts policy then
      decision PolicyAction.GiveUp
        ("delivery failed " +:+ to_string (in_failures input)
         +:+ " time(s), which exhausts the retry budget of " +:+ to_string (maxAttempts policy))
        [(PolicyAction.RecordFailureAndRetry, "retry budget is exhausted for this delivery")]
        0 true
    else if in_millisSinceLastAttempt input <? backoffFor policy (in_failures input) then
      decision PolicyAction.Wait
        ("waiting out the retry backoff before attempt "
         +:+ to_string ((value (in_attempt input) + 1) mod 2 ^ 64))
        [(PolicyAction.Offer, "the retry backoff has not elapsed")]
        (backoffFor policy (in_failures input) - in_millisSinceLastAttempt input) false
    else decision PolicyAction.Offer "retry budget remains and the backoff elapsed" [] 0 false
  else if in_livenessEvidenceStale input then
    decision PolicyAction.Reconcile
      "target contact evidence is older than the freshness window; a live session must re-establish it before any state change is accepted"
      [(PolicyAction.Offer, "persisted liveness evidence predates this process and is not fresh");
       (PolicyAction.ResumeTransfer,
         "resuming needs a fresh target report, not persisted evidence")] 0 false
  else if in_targetApplyPrepared input then
    decision PolicyAction.Reconcile
      "target reported an unresolved prepare/commit window; its authoritative state must be resolved before the delivery continues"
      [(PolicyAction.Activate,
         "an unresolved prepare/commit window exists; committing blind could activate an unverified generation")]
      0 false
  else if negb (in_targetLive input) then
    decision PolicyAction.Reconcile
      (if in_livenessEvidenceStale input
       then "persisted contact evidence predates this process; a live session must re-establish it"
       else "target contact evidence is older than the freshness window; a live session must refresh it")
      [(PolicyAction.Offer, "no fresh session evidence exists for the target")] 0 false
  else
    match in_state input with
    | DeliveryState.Prepared =>
        decision PolicyAction.Offer "artifact is available and the target is live" [] 0 false
    | DeliveryState.Offered | DeliveryState.Transferred =>
        if in_resumableTransfer input then
          decision PolicyAction.ResumeTransfer
            "target reported partial bytes for this deployment; resume instead of restarting the transfer"
            [(PolicyAction.Offer, "the target already holds bytes for this exact deployment")]
            0 false
        else
          decision PolicyAction.Offer "transfer has not yet completed at the target" [] 0 false
    | DeliveryState.Verified | DeliveryState.Staged =>
        decision PolicyAction.Activate
          "target holds a verified, staged artifact; activation is the next boundary" [] 0 false
    | _ => decision PolicyAction.None "no action required" [] 0 true
    end.
End Decide.

Definition Decision_render (d : Decision) (policy : DistributorPolicy) : string :=
  let line key text := "  " +:+ key +:+ " = " +:+ text +:+ newline in
  "decision:" +:+ newline
    +:+ line "action" (policyActionName (action d))
    +:+ line "reason" (reason d)
    +:+ line "authority-epoch" (to_string (value (dec_epoch d)))
    +:+ line "generation" (to_string (value (dec_generation d)))
    +:+ line "attempt" (to_string (value (dec_attempt d)))
    +:+ line "terminal" (bool_text (terminal d))
    +:+ (if retryAfterMillis d >? 0
         then line "retry-after-ms" (to_string (retryAfterMillis d)) else "")
    +:+ (if bool_decide (alternatives d = []) then ""
         else "  rejected-alternatives:" +:+ newline
                +:+ foldr (λ alt out, "    - " +:+ policyActionName (alt_action alt) +:+ ": "
                                        +:+ alt_reason alt +:+ newline +:+ out)
                      "" (alternatives d))
    +:+ DistributorPolicy_render policy.

(** ** Lemmas *)

(** What [validate] establishes about the fields the scheduler divides,
    doubles and compares. *)
Lemma validate_Ok p :
  validate p = Ok tt ↔
  maxAttempts p ≠ 0 ∧ maxConcurrentSessions p ≠ 0 ∧ maxTargets p ≠ 0 ∧ maxLiveDeliveries p ≠ 0
  ∧ transferChunkBytes p ≠ 0 ∧ transferChunkBytes p <= maxPayloadBytes p
  ∧ 0 <= retryBackoffMillis p <= maxBackoffMillis p
  ∧ 0 < connectTimeoutMillis p ∧ 0 < sessionIdleTimeoutMillis p ∧ 0 < requestTimeoutMillis p
  ∧ 0 < livenessFreshnessMillis p ∧ maxHistoryPerLineage p ≠ 0
  ∧ 0 < repairProbeMillis p ∧ 0 < sessionMinIntervalMillis p.
Proof.
  unfold validate.
  repeat match goal with
  | |- context [if ?b then _ else _] =>
      let E := fresh "E" in destruct b eqn:E;
      [split; [done|intros; exfalso; rewrite ?orb_true_iff in E; lia]|]
  end.
  rewrite ?orb_false_iff in *. split; [intros _; lia|done].
Qed.

Lemma backoff_loop_closed n ceiling delay :
  fits 64 ceiling → 0 <= delay <= ceiling →
  Z.min ceiling (backoff_loop n ceiling delay) = Z.min ceiling (delay * 2 ^ Z.of_nat n).
Proof.
  intros Hc. revert delay. induction n as [|n IH]; intros delay Hd; cbn [backoff_loop].
  { f_equal. change (2 ^ Z.of_nat 0) with 1. lia. }
  rewrite Nat2Z.inj_succ, Z.pow_succ_r by lia.
  assert (1 <= 2 ^ Z.of_nat n) by (apply (Z.pow_le_mono_r 2 0); lia).
  destruct (Z.geb_spec delay ceiling); [rewrite !Z.min_l; nia|].
  rewrite checkedMul_spec by (unfold fits in *; lia).
  assert (ceiling <= delay * 2 →
    Z.min ceiling (ceiling * 2 ^ Z.of_nat n) = Z.min ceiling (delay * (2 * 2 ^ Z.of_nat n))) as Hbig.
  { intros. rewrite !Z.min_l; nia. }
  case_decide; simpl; cycle 1.
  { rewrite IH by (unfold fits in *; lia). apply Hbig. unfold fits in *. lia. }
  destruct (Z.le_gt_cases (delay * 2) ceiling).
  - rewrite IH by lia. f_equal. ring.
  - destruct n as [|n]; cbn [backoff_loop].
    + change (2 ^ Z.of_nat 0) with 1. lia.
    + destruct (Z.geb_spec (delay * 2) ceiling); [|lia].
      rewrite <- Hbig by lia. rewrite !Z.min_l; nia.
Qed.

(** Every branch of [decide], as hypotheses about the input. *)
Ltac split_decide :=
  unfold Decide.decide;
  repeat match goal with
  | |- context [if ?b then _ else _] =>
      lazymatch b with
      | context [if _ then _ else _] => fail
      | _ => let E := fresh "E" in destruct b eqn:E; cbn [action terminal retryAfterMillis]
      end
  | |- context [match in_state ?i with _ => _ end] =>
      let E := fresh "E" in destruct (in_state i) eqn:E; cbn [action terminal retryAfterMillis]
  end;
  repeat match goal with
  | H : negb _ = true |- _ => apply negb_true_iff in H
  | H : negb _ = false |- _ => apply negb_false_iff in H
  | H : bool_decide _ = true |- _ => apply bool_decide_eq_true in H
  | H : bool_decide _ = false |- _ => apply bool_decide_eq_false in H
  end.

(** ** Properties *)

(** Under a validated policy the backoff is the base delay doubled once
    per failure, at most sixteen times, cut off at the maximum; in particular
    it stays inside the configured bounds and never wraps into an immediate
    retry. *)
Theorem backoffFor_closed p failures
    (Ht : policy_typed p) (Hv : validate p = Ok tt) (Hf : fits 32 failures) :
  backoffFor p failures
  = Z.min (maxBackoffMillis p) (retryBackoffMillis p * 2 ^ Z.min 16 failures)
  ∧ retryBackoffMillis p <= backoffFor p failures <= maxBackoffMillis p.
Proof.
  apply validate_Ok in Hv as (_ & _ & _ & _ & _ & _ & Hb & _). destruct Ht as [_ Hr Hm].
  unfold fits_i64 in *. unfold fits in Hf.
  assert (backoffFor p failures
          = Z.min (maxBackoffMillis p) (retryBackoffMillis p * 2 ^ Z.min 16 failures)) as E.
  { unfold backoffFor. unfold of_i64. rewrite !Z.mod_small by lia.
    pose proof (backoff_loop_closed (Z.to_nat (Z.min 16 failures)) (maxBackoffMillis p)
                  (retryBackoffMillis p) ltac:(unfold fits; lia) Hb) as Hl.
    rewrite Z2Nat.id in Hl by lia.
    replace (if failures >? 16 then 16 else failures) with (Z.min 16 failures)
      by (destruct (Z.gtb_spec failures 16); lia).
    set (d := backoff_loop _ _ _) in *.
    replace (if d >? maxBackoffMillis p then maxBackoffMillis p else d)
      with (Z.min (maxBackoffMillis p) d) by (destruct (Z.gtb_spec d (maxBackoffMillis p)); lia).
    rewrite Hl. unfold to_i64.
    assert (0 <= retryBackoffMillis p * 2 ^ Z.min 16 failures)
      by (apply Z.mul_nonneg_nonneg; [lia|apply Z.pow_nonneg; lia]).
    case_match; lia. }
  split; [done|]. rewrite E. clear E.
  assert (1 <= 2 ^ Z.min 16 failures) by (apply (Z.pow_le_mono_r 2 0); lia). nia.
Qed.

Lemma backoffFor_closed_witness : backoffFor defaultPolicy 40 = 5000.
Proof.
  rewrite (proj1 (backoffFor_closed defaultPolicy 40
    ltac:(split; vm_compute; split; discriminate || reflexivity) eq_refl
    ltac:(split; vm_compute; discriminate || reflexivity))).
  reflexivity.
Defined.

(** [decide] never acts on a target against the guards: an offer, a
    resumed transfer or an activation is only ever decided when no newer
    generation exists, the target has not moved past the desired generation,
    its guarantee satisfies the requirement, the artifact is in the store and
    the delivery is neither terminal nor already applied. *)
Theorem decide_guards policy input epoch generation :
  action (Decide.decide policy input epoch generation)
    ∈ [PolicyAction.Offer; PolicyAction.ResumeTransfer; PolicyAction.Activate] →
  in_supersededByNewerGeneration input = false
  ∧ (num_isSet (in_targetGeneration input) = true →
     value (in_targetGeneration input) <= value (in_desiredGeneration input))
  ∧ guaranteeSatisfies (in_targetGuarantee input) (in_requirement input) = true
  ∧ in_artifactAvailable input = true
  ∧ isTerminalState (in_state input) = false ∧ in_state input ≠ DeliveryState.Applied.
Proof.
  rewrite list_elem_of_In. split_decide; simpl; try (intuition discriminate).
  all: intros _; unfold input_superseded in *.
  all: match goal with H : _ || _ = false |- _ => apply orb_false_iff in H as [? Hlt] end.
  all: unfold num_lt in Hlt; repeat split; try done.
  all: intros Hs; rewrite Hs in Hlt; simpl in Hlt; lia.
Qed.

(** C23: an activation or a resumed transfer is only decided on live, fresh
    evidence, outside any unresolved prepare/commit window. *)
Theorem decide_evidence policy input epoch generation :
  action (Decide.decide policy input epoch generation)
    ∈ [PolicyAction.ResumeTransfer; PolicyAction.Activate] →
  in_targetLive input = true ∧ in_livenessEvidenceStale input = false
  ∧ in_targetApplyPrepared input = false ∧ preActivation (in_state input) = true.
Proof.
  rewrite list_elem_of_In. split_decide; simpl; try (intuition discriminate).
  all: intros _; repeat split; try done; by rewrite E8 || by simplify_eq/=.
Qed.

(** The retry budget is never silent: the decision is terminal exactly for
    [None], [Reject], [GiveUp] and [Retire]; a failed delivery whose budget is
    exhausted, and that nothing else stops first, is given up; and a wait is
    for a positive time that a validated policy bounds. *)
Theorem decide_terminal policy input epoch generation :
  let d := Decide.decide policy input epoch generation in
  (terminal d = true ↔
   action d ∈ [PolicyAction.None; PolicyAction.Reject; PolicyAction.GiveUp; PolicyAction.Retire])
  ∧ (action d = PolicyAction.GiveUp → maxAttempts policy <= in_failures input)
  ∧ (action d = PolicyAction.Wait →
     in_state input = DeliveryState.Failed ∧ in_failures input < maxAttempts policy
     ∧ 0 < retryAfterMillis d
     ∧ retryAfterMillis d = backoffFor policy (in_failures input) - in_millisSinceLastAttempt input).
Proof.
  intros d. subst d. rewrite list_elem_of_In.
  split_decide; simpl; (split; [split; [try done; tauto|intuition discriminate]|]).
  all: split; intros H; try discriminate H; try lia.
  repeat split; [done|lia|lia].
Qed.

(** The offer that retries a failed delivery is the exception to the
    evidence guards: it is decided without a live session, on stale evidence
    and inside an unresolved prepare/commit window. *)
Theorem retry_offer_without_evidence :
  ∃ input, validate defaultPolicy = Ok tt
    ∧ action (Decide.decide defaultPolicy input num_unset num_unset) = PolicyAction.Offer
    ∧ in_targetLive input = false ∧ in_livenessEvidenceStale input = true
    ∧ in_targetApplyPrepared input = true.
Proof.
  exists (mkInput DeliveryState.Failed 1 (fromValue 1) ApplyGuarantee.AtomicActivate
            GuaranteeRequirement.RequireAtomic (fromValue 2) num_unset digest_unset digest_unset
            false true true true false false 1000).
  by vm_compute.
Qed.

(** A staged delivery to a live target. *)
Definition staged_input : DecisionInput :=
  mkInput DeliveryState.Staged 0 (fromValue 1) ApplyGuarantee.AtomicActivate
    GuaranteeRequirement.RequireAtomic (fromValue 2) (fromValue 1) digest_unset digest_unset
    true false false true false false 0.

Lemma decide_guards_witness :
  in_supersededByNewerGeneration staged_input = false
  ∧ isTerminalState (in_state staged_input) = false.
Proof.
  assert (action (Decide.decide defaultPolicy staged_input (fromValue 1) (fromValue 2))
    ∈ [PolicyAction.Offer; PolicyAction.ResumeTransfer; PolicyAction.Activate]) as H.
  { apply list_elem_of_In. vm_compute. tauto. }
  destruct (decide_guards _ _ _ _ H) as (? & _ & _ & _ & ? & _). by split.
Defined.

Lemma decide_evidence_witness :
  in_targetLive staged_input = true ∧ in_livenessEvidenceStale staged_input = false.
Proof.
  assert (action (Decide.decide defaultPolicy staged_input (fromValue 1) (fromValue 2))
    ∈ [PolicyAction.ResumeTransfer; PolicyAction.Activate]) as H.
  { apply list_elem_of_In. vm_compute. tauto. }
  destruct (decide_evidence _ _ _ _ H) as (? & ? & _ & _). by split.
Defined.
