(* ===== verification/Files.v ===== *)
(** * Files

    The file system as the runtime uses it: names bound to contents, the
    bounded read and the atomic replacement of include/cf/codec.hpp and
    src/codec.cpp. The random suffix of the temporary name and the outcome of
    each operating-system call are arguments. *)

From stdpp Require Import gmap.
From Stdlib Require Import Strings.Byte.
From S2P Require Import Prelude Result Hash.

Abbreviation FileSystem := (gmap string (list byte)).

(** An operation on files: the file system it leaves, and its outcome. *)
Definition IO (A : Type) : Type := FileSystem → FileSystem * Result A.

Definition io_ret {A} (a : A) : IO A := λ fs, (fs, Ok a).
Definition io_lift {A} (r : Result A) : IO A := λ fs, (fs, r).
Definition io_fail {A} (c : ErrorCode) (msg det : string) : IO A :=
  λ fs, (fs, fail_detail c msg det).
Definition io_bind {A B} (m : IO A) (k : A → IO B) : IO B := λ fs,
  match m fs with
  | (fs', Ok a) => k a fs'
  | (fs', Fail e) => (fs', Fail e)
  | (fs', Abort w) => (fs', Abort w)
  end.

Notation "'let~' x := m 'in' k" := (io_bind m (λ x, k))
  (at level 10, x pattern, m at level 100, k at level 200) : cf_scope.
Notation "'do~' m 'in' k" := (io_bind m (λ _, k))
  (at level 10, m at level 100, k at level 200) : cf_scope.

Definition readFileBounded (path : string) (maxBytes : Z) : IO (list byte) := λ fs,
  (fs,
   match fs !! path with
   | None => fail_detail ErrorCode.NotFound "cannot stat file" path
   | Some content =>
       if zlen content >? maxBytes
       then fail_detail ErrorCode.OversizePayload "file exceeds the accepted bound" path
       else Ok content
   end).

(** [std::filesystem::file_size]. *)
Definition file_size (path : string) (fs : FileSystem) : option Z := zlen <$> fs !! path.

(** The operating-system failures of [writeFileAtomic]. *)
Record AtomicFaults := mkFaults {
  open_fails : bool;
  (** [Some n]: only [n] bytes were written. *)
  short_write : option nat;
  flush_fails : bool;
  rename_fails : bool;
  remove_fails : bool;
  second_rename_fails : bool;
}.
Definition no_faults : AtomicFaults := mkFaults false None false false false false.

Definition tempSiblingPath (suffix : list byte) (path : string) : string :=
  path +:+ ".part-" +:+ toHex suffix.

Definition file_rename (from to : string) (fs : FileSystem) : FileSystem :=
  match fs !! from with Some content => <[to := content]> (delete from fs) | None => fs end.

Definition writeFileAtomic (faults : AtomicFaults) (suffix : list byte) (path : string)
    (content : list byte) : IO unit := λ fs,
  let temporary := tempSiblingPath suffix path in
  if open_fails faults
  then (fs, fail_detail ErrorCode.OpenFailed "cannot create temporary file" temporary)
  else
    let written := match short_write faults with Some n => take n content | None => content end in
    let fs1 := <[temporary := written]> fs in
    let shortWrite := negb (length written =? length content)%nat in
    if shortWrite || flush_fails faults
    then (delete temporary fs1,
          fail_detail ErrorCode.IoFailure "failed to write complete file" temporary)
    else if negb (rename_fails faults)
    then (file_rename temporary path fs1, Ok tt)
    else
      let fs2 := if remove_fails faults then fs1 else delete path fs1 in
      if negb (second_rename_fails faults)
      then (file_rename temporary path fs2, Ok tt)
      else (delete temporary fs2,
            fail_detail ErrorCode.IoFailure "cannot rename temporary file into place" path).

(** What a crash inside [writeFileAtomic] can leave behind. *)
Inductive writeFileAtomic_crash (suffix : list byte) (path : string) (content : list byte)
    (fs : FileSystem) : FileSystem → Prop :=
  | crash_untouched : writeFileAtomic_crash suffix path content fs fs
  | crash_temporary n :
      writeFileAtomic_crash suffix path content fs
        (<[tempSiblingPath suffix path := take n content]> fs)
  | crash_renamed :
      writeFileAtomic_crash suffix path content fs (<[path := content]> fs)
  | crash_fallback :
      (* the first rename failed; the target was removed, not yet replaced *)
      writeFileAtomic_crash suffix path content fs
        (<[tempSiblingPath suffix path := content]> (delete path fs)).

(** ** Lemmas *)

Lemma append_longer_ne p s : 0 < slen s → p ≠ p +:+ s.
Proof. intros Hs E. apply (f_equal slen) in E. rewrite slen_append in E. lia. Qed.

Lemma tempSiblingPath_ne suffix path : tempSiblingPath suffix path ≠ path.
Proof.
  unfold tempSiblingPath. intros E. symmetry in E. revert E. apply append_longer_ne.
  rewrite slen_append. change (slen ".part-") with 6. unfold slen. lia.
Qed.

(** The fallback removed the target and then could not put the new file in
    place. *)
Definition fallback_lost (f : AtomicFaults) : bool :=
  rename_fails f && negb (remove_fails f) && second_rename_fails f.

Lemma take_length_full {A} n (l : list A) : length (take n l) = length l → take n l = l.
Proof. rewrite length_take. intros H. apply take_ge. lia. Qed.

Lemma file_rename_other from to fs p :
  p ≠ from → p ≠ to → file_rename from to fs !! p = fs !! p.
Proof.
  intros ??. unfold file_rename. destruct (fs !! from); [|done].
  by rewrite lookup_insert_ne, lookup_delete_ne.
Qed.

Lemma writeFileAtomic_other f suffix path content fs p :
  p ≠ path → p ≠ tempSiblingPath suffix path →
  (writeFileAtomic f suffix path content fs).1 !! p = fs !! p.
Proof.
  intros Hp Ht. unfold writeFileAtomic.
  repeat case_match; simpl; rewrite ?file_rename_other by done;
    rewrite ?lookup_delete_ne by done; rewrite ?lookup_insert_ne by done; done.
Qed.

Lemma writeFileAtomic_Ok f suffix path content fs fs' :
  writeFileAtomic f suffix path content fs = (fs', Ok tt) →
  fs' = <[path := content]> (delete (tempSiblingPath suffix path) fs).
Proof.
  pose proof (tempSiblingPath_ne suffix path) as Hne.
  unfold writeFileAtomic. destruct (open_fails f); [done|].
  destruct (short_write f) as [n|];
    [destruct (Nat.eqb_spec (length (take n content)) (length content)) as [Hl|]; [|done];
     rewrite (take_length_full _ _ Hl)|rewrite Nat.eqb_refl].
  all: destruct (flush_fails f); [done|]; unfold file_rename.
  all: destruct (rename_fails f); simpl;
    [|rewrite lookup_insert_eq; intros [= <-]; by rewrite delete_insert_eq].
  all: destruct (second_rename_fails f); simpl; [done|].
  all: destruct (remove_fails f); rewrite ?lookup_delete_ne, lookup_insert_eq by done.
  all: intros [= <-].
  1,3: by rewrite delete_insert_eq.
  all: rewrite delete_delete, delete_insert_eq.
  all: by rewrite insert_delete_eq.
Qed.

(** Every outcome of the replacement. *)
Lemma writeFileAtomic_cases f suffix path content fs :
  let temporary := tempSiblingPath suffix path in
  let '(fs', r) := writeFileAtomic f suffix path content fs in
  match r with
  | Ok _ => fs' !! path = Some content ∧ fs' !! temporary = None
  | Fail _ =>
      fs' !! path = fs !! path
      ∨ (fallback_lost f = true ∧ fs' !! path = None ∧ fs' !! temporary = None)
  | Abort _ => False
  end
  ∧ ∀ p, p ≠ path → p ≠ temporary → fs' !! p = fs !! p.
Proof.
  intros temporary. subst temporary. pose proof (tempSiblingPath_ne suffix path) as Hne.
  destruct (writeFileAtomic f suffix path content fs) as [fs' r] eqn:E. split.
  - destruct r as [[]|e|w].
    + apply writeFileAtomic_Ok in E as ->.
      by rewrite lookup_insert_eq, lookup_insert_ne, lookup_delete_eq.
    + revert E. unfold writeFileAtomic. destruct (open_fails f); [intros [= <- _]; by left|].
      destruct (_ || _).
      { intros [= <- _]. left. by rewrite lookup_delete_ne, lookup_insert_ne. }
      unfold fallback_lost. destruct (rename_fails f); simpl; [|done].
      destruct (second_rename_fails f); simpl; [|done]. intros [= <- _].
      rewrite lookup_delete_ne, lookup_delete_eq by done.
      destruct (remove_fails f); simpl.
      * left. by rewrite lookup_insert_ne.
      * right. by rewrite lookup_delete_eq.
    + revert E. unfold writeFileAtomic. by repeat case_match.
  - intros p Hp Ht. by rewrite <- (writeFileAtomic_other f suffix path content fs p Hp Ht), E.
Qed.

(** ** Properties *)

(** The atomic replacement, under every combination of system failures:
    success leaves exactly the new content under the name and no temporary
    file; failure leaves the previous content, except when the
    remove-then-rename fallback removed it and could not finish, which loses
    both; no other file is ever touched, and no process end is possible. *)
Theorem writeFileAtomic_spec f suffix path content fs :
  let temporary := tempSiblingPath suffix path in
  let '(fs', r) := writeFileAtomic f suffix path content fs in
  match r with
  | Ok _ => fs' !! path = Some content ∧ fs' !! temporary = None
  | Fail _ =>
      fs' !! path = fs !! path
      ∨ (fallback_lost f = true ∧ fs' !! path = None ∧ fs' !! temporary = None)
  | Abort _ => False
  end
  ∧ ∀ p, p ≠ path → p ≠ temporary → fs' !! p = fs !! p.
Proof. apply writeFileAtomic_cases. Qed.

(** The fallback is not atomic: a replacement that reports failure can
    leave neither the old nor the new file. *)
Theorem writeFileAtomic_can_lose :
  ∃ f suffix path old new fs',
    writeFileAtomic f suffix path new {[path := old]} = (fs', fail_detail ErrorCode.IoFailure
      "cannot rename temporary file into place" path)
    ∧ fs' = ∅.
Proof.
  exists (mkFaults false None false true false true), [], "state", [Byte.x01], [Byte.x02], ∅.
  split; [|done]. by vm_compute.
Qed.
