(* ===== verification/Journal.v ===== *)
(** * The journal and the snapshot file

    Models include/cf/journal.hpp and src/journal.cpp: the frozen record
    types, the record format and its checksum, the recovery scan with its
    torn-tail truncation, the append and segment restart, and the two-slot
    snapshot file. A write can be cut short at any byte, by a failing system
    call or by a crash: [WriteOutcome] says how many bytes reached the file. *)

From stdpp Require Import gmap.
From Stdlib Require Import Strings.Byte.
From S2P Require Import Prelude Result Checked Hash Ids Codec Lifecycle Files.

(** ** Record types *)
Module JournalRecordType.
Inductive t :=
  | Invalid | SegmentStart
  | ControllerIdentity | ControllerEpoch
  | TargetUpsert | TargetRemove | DeliveryUpsert | DeliveryRemove
  | ArtifactUpsert | ArtifactRemove | DeploymentSetNote
  | AgentIdentity | AgentTargetCommit | AgentTransferUpsert | AgentTransferRemove
  | AgentFindingUpsert | AgentApplyPrepared | AgentApplyResolved
  | AgentControllerFence | AgentRollbackNote
  | Note.
End JournalRecordType.
Abbreviation JournalRecordType := JournalRecordType.t.
#[global] Instance JournalRecordType_eq_dec : EqDecision JournalRecordType.
Proof. solve_decision. Defined.

Definition JournalRecordType_raw (t : JournalRecordType) : Z :=
  match t with
  | JournalRecordType.Invalid => 0
  | JournalRecordType.SegmentStart => 1
  | JournalRecordType.ControllerIdentity => 10
  | JournalRecordType.ControllerEpoch => 11
  | JournalRecordType.TargetUpsert => 20
  | JournalRecordType.TargetRemove => 21
  | JournalRecordType.DeliveryUpsert => 30
  | JournalRecordType.DeliveryRemove => 31
  | JournalRecordType.ArtifactUpsert => 40
  | JournalRecordType.ArtifactRemove => 41
  | JournalRecordType.DeploymentSetNote => 42
  | JournalRecordType.AgentIdentity => 60
  | JournalRecordType.AgentTargetCommit => 61
  | JournalRecordType.AgentTransferUpsert => 62
  | JournalRecordType.AgentTransferRemove => 63
  | JournalRecordType.AgentFindingUpsert => 64
  | JournalRecordType.AgentApplyPrepared => 65
  | JournalRecordType.AgentApplyResolved => 66
  | JournalRecordType.AgentControllerFence => 67
  | JournalRecordType.AgentRollbackNote => 68
  | JournalRecordType.Note => 90
  end.
Definition JournalRecordType_all : list JournalRecordType :=
  [JournalRecordType.Invalid; JournalRecordType.SegmentStart;
   JournalRecordType.ControllerIdentity; JournalRecordType.ControllerEpoch;
   JournalRecordType.TargetUpsert; JournalRecordType.TargetRemove;
   JournalRecordType.DeliveryUpsert; JournalRecordType.DeliveryRemove;
   JournalRecordType.ArtifactUpsert; JournalRecordType.ArtifactRemove;
   JournalRecordType.DeploymentSetNote; JournalRecordType.AgentIdentity;
   JournalRecordType.AgentTargetCommit; JournalRecordType.AgentTransferUpsert;
   JournalRecordType.AgentTransferRemove; JournalRecordType.AgentFindingUpsert;
   JournalRecordType.AgentApplyPrepared; JournalRecordType.AgentApplyResolved;
   JournalRecordType.AgentControllerFence; JournalRecordType.AgentRollbackNote;
   JournalRecordType.Note].
#[global] Program Instance JournalRecordType_enum : WireEnum JournalRecordType :=
  {| raw := JournalRecordType_raw; all_values := JournalRecordType_all |}.
Next Obligation. solve_enum_complete. Qed.
Next Obligation. solve_enum_inj. Qed.

Definition journalRecordTypeName (t : JournalRecordType) : string :=
  match t with
  | JournalRecordType.Invalid => "invalid"
  | JournalRecordType.SegmentStart => "segment-start"
  | JournalRecordType.ControllerIdentity => "controller-identity"
  | JournalRecordType.ControllerEpoch => "controller-epoch"
  | JournalRecordType.TargetUpsert => "target-upsert"
  | JournalRecordType.TargetRemove => "target-remove"
  | JournalRecordType.DeliveryUpsert => "delivery-upsert"
  | JournalRecordType.DeliveryRemove => "delivery-remove"
  | JournalRecordType.ArtifactUpsert => "artifact-upsert"
  | JournalRecordType.ArtifactRemove => "artifact-remove"
  | JournalRecordType.DeploymentSetNote => "deployment-set-note"
  | JournalRecordType.AgentIdentity => "agent-identity"
  | JournalRecordType.AgentTargetCommit => "agent-target-commit"
  | JournalRecordType.AgentTransferUpsert => "agent-transfer-upsert"
  | JournalRecordType.AgentTransferRemove => "agent-transfer-remove"
  | JournalRecordType.AgentFindingUpsert => "agent-finding-upsert"
  | JournalRecordType.AgentApplyPrepared => "agent-apply-prepared"
  | JournalRecordType.AgentApplyResolved => "agent-apply-resolved"
  | JournalRecordType.AgentControllerFence => "agent-controller-fence"
  | JournalRecordType.AgentRollbackNote => "agent-rollback-note"
  | JournalRecordType.Note => "note"
  end.

Definition isKnownRecordType (rawType : Z) : bool :=
  match of_raw (A := JournalRecordType) rawType with
  | Some JournalRecordType.Invalid | None => false
  | Some _ => true
  end.

(** [for raw = 1..90: skip unknown; if journalRecordTypeName(raw) == text]. *)
Definition parseJournalRecordType (text : string) : option JournalRecordType :=
  parse_name journalRecordTypeName
    (filter (λ t, isKnownRecordType (raw t) = true) JournalRecordType_all) text.

(** ** Format *)

Definition kJournalMagic : Z := 0x314A4643.
Definition kJournalFormatVersion : Z := 1.
Definition kJournalHeaderBytes : nat := 12.
Definition kJournalRecordHeaderBytes : nat := 20.
Definition kMaxJournalRecordBytes : Z := 1 * 1024 * 1024.
Definition kMaxNoteBytes : Z := 256.

(** [storeLe16/32/64] and [loadLe16/32/64]. *)
Definition storeLe16 (v : Z) : list byte := le_bytes 2 v.
Definition storeLe32 (v : Z) : list byte := le_bytes 4 v.
Definition storeLe64 (v : Z) : list byte := le_bytes 8 v.
(** The [n] bytes of [bytes] at [offset], as an integer. *)
Definition loadLe (n offset : nat) (bytes : list byte) : Z := le_load (take n (drop offset bytes)).

Definition journalHeaderBytes : list byte :=
  let prefix := storeLe32 kJournalMagic ++ storeLe16 kJournalFormatVersion ++ storeLe16 0 in
  prefix ++ storeLe32 (crc32c prefix).

Definition validateJournalHeader (bytes : list byte) : Status :=
  if (length bytes <? kJournalHeaderBytes)%nat
  then fail ErrorCode.TruncatedFrame "journal header is incomplete"
  else if negb (loadLe 4 0 bytes =? kJournalMagic)
  then fail ErrorCode.MalformedInput "file is not a configuration-fabric journal"
  else if negb (crc32c (take 8 bytes) =? loadLe 4 8 bytes)
  then fail ErrorCode.IntegrityFailure "journal header checksum does not match"
  else if negb (loadLe 2 4 bytes =? kJournalFormatVersion)
  then fail_detail ErrorCode.UnsupportedVersion "journal format version is not supported"
         (to_string (loadLe 2 4 bytes))
  else if negb (loadLe 2 6 bytes =? 0)
  then fail ErrorCode.ProtocolViolation "journal header reserved field is not zero"
  else Ok tt.

Record JournalRecord := mkRecord {
  rec_type : JournalRecordType;
  rec_sequence : Sequence;
  rec_payload : list byte;
}.
#[global] Instance JournalRecord_eq_dec : EqDecision JournalRecord.
Proof. solve_decision. Defined.

(** The streaming checksum over type, sequence and payload; its value is the
    raw state of the accumulator. *)
Definition recordChecksum (type : JournalRecordType) (sequence : Sequence) (payload : list byte) : Z :=
  let prefix := storeLe32 (raw type) ++ storeLe64 (value sequence) in
  crc32cUpdate (crc32cUpdate Crc32c_init prefix) payload.

(** What [writeRecord] writes. *)
Definition recordBytes (r : JournalRecord) : list byte :=
  storeLe32 (zlen (rec_payload r) mod 2 ^ 32)
    ++ storeLe32 (raw (rec_type r))
    ++ storeLe32 (recordChecksum (rec_type r) (rec_sequence r) (rec_payload r))
    ++ storeLe64 (value (rec_sequence r))
    ++ rec_payload r.

(** ** Recovery *)
Module Outcome.
Inductive t := Created | Clean | TruncatedTail | Corrupted | NotAJournal | UnsupportedVersion.
End Outcome.
#[global] Instance Outcome_eq_dec : EqDecision Outcome.t.
Proof. solve_decision. Defined.

Record JournalRecovery := mkRecovery {
  outcome : Outcome.t;
  discardedBytes : Z;
  recordsRecovered : Z;
  lastSequence : Sequence;
  rdetail : string;
}.
Definition JournalRecovery_default : JournalRecovery := mkRecovery Outcome.Created 0 0 num_unset "".

Definition fatal (r : JournalRecovery) : bool :=
  match outcome r with
  | Outcome.Corrupted | Outcome.NotAJournal | Outcome.UnsupportedVersion => true
  | _ => false
  end.

Definition outcomeName (o : Outcome.t) : string :=
  match o with
  | Outcome.Created => "created" | Outcome.Clean => "clean"
  | Outcome.TruncatedTail => "truncated-tail" | Outcome.Corrupted => "corrupted"
  | Outcome.NotAJournal => "not-a-journal" | Outcome.UnsupportedVersion => "unsupported-version"
  end.

Definition JournalRecovery_render (r : JournalRecovery) : string :=
  outcomeName (outcome r)
    +:+ " records=" +:+ to_string (recordsRecovered r)
    +:+ " last-sequence=" +:+ to_string (value (lastSequence r))
    +:+ (if discardedBytes r >? 0 then " discarded-bytes=" +:+ to_string (discardedBytes r) else "")
    +:+ (if decide (rdetail r = "") then "" else " detail=" +:+ rdetail r).

(** How the scan loop ended. *)
Inductive ScanEnd := EndOfFile | TornHeader | TornPayload | MidFile (why : string).

Record Scan := mkScan { s_records : list JournalRecord; s_lastGoodOffset : Z; s_end : ScanEnd }.
Definition scan_cons (r : JournalRecord) (s : Scan) : Scan :=
  mkScan (r :: s_records s) (s_lastGoodOffset s) (s_end s).

(** The record loop of [scanInto]: [rest] is the file from [offset] on,
    [expected] the sequence of the previous record. Every iteration consumes
    a record header, so the length of the file is enough fuel. *)
Fixpoint scan_loop (fuel : nat) (maxRecordBytes fileSize : Z) (rest : list byte) (offset : Z)
    (expected : option Sequence) : Scan :=
  match fuel with
  | O => mkScan [] offset EndOfFile
  | S fuel =>
      if (length rest <? kJournalRecordHeaderBytes)%nat
      then mkScan [] offset (if negb (offset =? fileSize) then TornHeader else EndOfFile)
      else
        let payloadLength := loadLe 4 0 rest in
        let rawType := loadLe 4 4 rest in
        let storedCrc := loadLe 4 8 rest in
        let rawSequence := loadLe 8 12 rest in
        let headerPlausible :=
          (payloadLength <=? maxRecordBytes) && isKnownRecordType rawType && (rawSequence >? 0) in
        if negb headerPlausible
        then mkScan [] offset
               (MidFile ("record header at offset " +:+ to_string offset
                         +:+ " is not a valid record"))
        else
          let body := drop kJournalRecordHeaderBytes rest in
          if (payloadLength >? 0) && (zlen body <? payloadLength)
          then mkScan [] offset TornPayload
          else
            let payload := take (Z.to_nat payloadLength) body in
            let type := default JournalRecordType.Invalid (of_raw rawType) in
            let sequence := fromValue rawSequence in
            if negb (recordChecksum type sequence payload =? storedCrc)
            then mkScan [] offset
                   (MidFile ("record at offset " +:+ to_string offset +:+ " failed its checksum"))
            else if match expected with
                    | None => false
                    | Some e =>
                        match checkedAdd 64 (value e) 1 with
                        | None => true
                        | Some next => negb (rawSequence =? next)
                        end
                    end
            then mkScan [] offset
                   (MidFile ("record sequence " +:+ to_string rawSequence +:+ " does not follow "
                             +:+ to_string (value (default num_unset expected))))
            else scan_cons (mkRecord type sequence payload)
                   (scan_loop fuel maxRecordBytes fileSize (drop (Z.to_nat payloadLength) body)
                      (offset + (Z.of_nat kJournalRecordHeaderBytes + payloadLength))
                      (Some sequence))
  end.

(** What [scanInto] reports. *)
Record ScanResult := mkScanResult {
  sr_status : Status;
  sr_recovery : JournalRecovery;
  sr_records : list JournalRecord;
}.

(** The torn-payload branch closes the stream and falls into the shared
    epilogue, which uses the closed stream: with [truncateTornTail] it flushes
    it before the tail is cut off, and it closes it again at the end. Both calls
    are undefined, so the process is taken to end in one of them ([Abort]): in
    the flush, with the file as it was, or in the second close, with the tail
    cut off. Without [truncateTornTail] only the close is reached. *)
Inductive ClosedStream := EndsInFlush | EndsInClose.

Definition closed_stream_use (cs : ClosedStream) (truncateTornTail : bool) : string :=
  if truncateTornTail
  then match cs with
       | EndsInFlush => "journal stream flushed after it was closed"
       | EndsInClose => "journal stream closed twice"
       end
  else "journal stream closed twice".

Definition last_sequence (rs : list JournalRecord) : Sequence :=
  foldl (λ _ r, rec_sequence r) num_unset rs.

Definition scan_file (maxRecordBytes : Z) (bytes : list byte) : Scan :=
  scan_loop (S (length bytes)) maxRecordBytes (zlen bytes) (drop kJournalHeaderBytes bytes)
    (Z.of_nat kJournalHeaderBytes) None.

Definition recovery_of (fileSize : Z) (s : Scan) : JournalRecovery :=
  let r o discarded det :=
    mkRecovery o discarded (zlen (s_records s)) (last_sequence (s_records s)) det in
  match s_end s with
  | EndOfFile => r Outcome.Clean 0 ""
  | TornHeader => r Outcome.TruncatedTail (fileSize - s_lastGoodOffset s)
                    "torn record header at the end of the journal was discarded"
  | TornPayload => r Outcome.TruncatedTail (fileSize - s_lastGoodOffset s)
                     "torn record payload at the end of the journal was discarded"
  | MidFile why => r Outcome.Corrupted 0 why
  end.

Definition scanInto (cs : ClosedStream) (path : string) (maxRecordBytes : Z)
    (truncateTornTail : bool) (fs : FileSystem) : FileSystem * ScanResult :=
  let not_a_journal st det := (fs, mkScanResult st
    (mkRecovery Outcome.NotAJournal 0 0 num_unset det) []) in
  match fs !! path with
  | None => not_a_journal (fail_detail ErrorCode.OpenFailed "cannot open journal file" path)
              "cannot open journal file"
  | Some bytes =>
      if (length bytes <? kJournalHeaderBytes)%nat
      then not_a_journal (fail ErrorCode.TruncatedFrame "journal header is incomplete")
             "journal header is incomplete"
      else
        match validateJournalHeader (take kJournalHeaderBytes bytes) with
        | Abort w => (fs, mkScanResult (Abort w) JournalRecovery_default [])
        | Fail e =>
            (fs, mkScanResult (Fail e)
                   (mkRecovery (if bool_decide (code e = ErrorCode.UnsupportedVersion)
                                then Outcome.UnsupportedVersion else Outcome.NotAJournal)
                      0 0 num_unset (Error_str e)) [])
        | Ok _ =>
            let s := scan_file maxRecordBytes bytes in
            let recovery := recovery_of (zlen bytes) s in
            match s_end s with
            | MidFile why =>
                (fs, mkScanResult (fail_detail ErrorCode.IntegrityFailure "journal is corrupted" why)
                       recovery (s_records s))
            | EndOfFile => (fs, mkScanResult (Ok tt) recovery (s_records s))
            | TornHeader =>
                (if truncateTornTail
                 then <[path := take (Z.to_nat (s_lastGoodOffset s)) bytes]> fs else fs,
                 mkScanResult (Ok tt) recovery (s_records s))
            | TornPayload =>
                (match cs with
                 | EndsInClose =>
                     if truncateTornTail
                     then <[path := take (Z.to_nat (s_lastGoodOffset s)) bytes]> fs else fs
                 | EndsInFlush => fs
                 end,
                 mkScanResult (Abort (closed_stream_use cs truncateTornTail)) recovery
                   (s_records s))
            end
        end
  end.

(** ** The journal *)

Record Journal := mkJournal {
  j_path : string;
  j_maxRecordBytes : Z;
  j_lastSequence : Sequence;
  j_recordCount : Z;
}.

(** How much of one write reached the file. [Torn n]: the first [n] bytes,
    and the call reported a failure or the process ended. *)
Inductive WriteOutcome := Written | Torn (n : nat).

Definition written_part (o : WriteOutcome) (bytes : list byte) : list byte :=
  match o with Written => bytes | Torn n => take n bytes end.

Definition writeRecord (o : WriteOutcome) (j : Journal) (r : JournalRecord) : IO unit := λ fs,
  let content := default [] (fs !! j_path j) in
  (<[j_path j := content ++ written_part o (recordBytes r)]> fs,
   match o with
   | Written => Ok tt
   | Torn n =>
       if (n <? kJournalRecordHeaderBytes)%nat
       then fail ErrorCode.IoFailure "cannot append a journal record header"
       else if (n <? length (recordBytes r))%nat
       then fail ErrorCode.IoFailure "cannot append a journal record payload"
       else fail ErrorCode.IoFailure "failed to sync stream to disk"
   end).

Definition append (o : WriteOutcome) (j : Journal) (type : JournalRecordType)
    (payload : list byte) : IO Journal :=
  if negb (isKnownRecordType (raw type))
  then io_lift (fail ErrorCode.InvalidArgument "cannot append an undefined record type")
  else if zlen payload >? j_maxRecordBytes j
  then io_fail ErrorCode.OversizePayload "record exceeds the journal record bound"
         (to_string (zlen payload))
  else
    match checkedAdd 64 (value (j_lastSequence j)) 1 with
    | None => io_lift (fail ErrorCode.ArithmeticOverflow "journal sequence exhausted")
    | Some next =>
        let sequence := fromValue next in
        do~ writeRecord o j (mkRecord type sequence payload) in
        io_ret (mkJournal (j_path j) (j_maxRecordBytes j) sequence (j_recordCount j + 1))
    end.

(** A restart stops before the truncation, or writes the segment record. *)
Inductive RestartOutcome := NotTruncated | Restarted (o : WriteOutcome).

Definition restartSegment (o : RestartOutcome) (j : Journal) (baseSequence : Sequence)
    : IO Journal := λ fs,
  if value baseSequence =? 0
  then (fs, fail ErrorCode.InvalidArgument "journal base sequence must be non-zero")
  else
    let content := default [] (fs !! j_path j) in
    match o with
    | NotTruncated =>
        (<[j_path j := journalHeaderBytes ++ drop kJournalHeaderBytes content]> fs,
         fail ErrorCode.IoFailure "cannot truncate the journal")
    | Restarted wo =>
        (do~ writeRecord wo j (mkRecord JournalRecordType.SegmentStart baseSequence
                                 (storeLe64 (value baseSequence))) in
         io_ret (mkJournal (j_path j) (j_maxRecordBytes j) baseSequence 1))
          (<[j_path j := journalHeaderBytes]> fs)
    end.

(** [Journal::open]: [ho] and [so] are the outcomes of the header write and of
    the first segment record when the journal is created, [cs] where the process
    ends when the journal that is there ends inside a payload. *)
Definition Journal_open (ho : WriteOutcome) (so : RestartOutcome) (cs : ClosedStream)
    (path : string) (maxRecordBytes : Z) (fs : FileSystem) : FileSystem * JournalRecovery * Result Journal :=
  if decide (path = "")
  then (fs, JournalRecovery_default,
        fail ErrorCode.InvalidArgument "journal path must not be empty")
  else if (maxRecordBytes =? 0) || (maxRecordBytes >? kMaxJournalRecordBytes)
  then (fs, JournalRecovery_default,
        fail ErrorCode.InvalidArgument "journal record bound is outside the accepted range")
  else
    match fs !! path with
    | None =>
        let fs1 := <[path := written_part ho journalHeaderBytes]> fs in
        match ho with
        | Torn n =>
            (fs1, JournalRecovery_default,
             fail_detail ErrorCode.IoFailure "cannot write journal header" path)
        | Written =>
            let '(fs2, r) := restartSegment so (mkJournal path maxRecordBytes num_unset 0)
                               (fromValue 1) fs1 in
            match r with
            | Ok j => (fs2, mkRecovery Outcome.Created 0 1 (fromValue 1) "", Ok j)
            | Fail e => (fs2, JournalRecovery_default, Fail e)
            | Abort w => (fs2, JournalRecovery_default, Abort w)
            end
        end
    | Some _ =>
        let '(fs1, sr) := scanInto cs path maxRecordBytes true fs in
        let recovery := sr_recovery sr in
        match sr_status sr with
        | Ok _ =>
            (fs1, recovery,
             Ok (mkJournal path maxRecordBytes (lastSequence recovery) (recordsRecovered recovery)))
        | Fail _ =>
            (fs1, recovery,
             fail_detail (if fatal recovery then ErrorCode.IntegrityFailure else ErrorCode.IoFailure)
               "journal recovery failed" (JournalRecovery_render recovery))
        | Abort w => (fs1, recovery, Abort w)
        end
    end.

Definition readFile (path : string) (fs : FileSystem) : JournalRecovery * Result (list JournalRecord) :=
  let '(_, sr) := scanInto EndsInClose path kMaxJournalRecordBytes false fs in
  (sr_recovery sr, let* _ := sr_status sr in Ok (sr_records sr)).

(** ** Lemmas *)

Lemma loadLe_app n off a x b :
  length a = off → length x = n → loadLe n off (a ++ x ++ b) = le_load x.
Proof. intros <- <-. unfold loadLe. by rewrite drop_app_length, take_app_length. Qed.

Lemma isKnown_iff rawType :
  isKnownRecordType rawType = true ↔
  ∃ t, of_raw rawType = Some t ∧ t ≠ JournalRecordType.Invalid.
Proof.
  unfold isKnownRecordType. destruct (of_raw rawType) as [t|]; [|split; [done|by intros (? & ? & _)]].
  split; [|by intros (? & [= <-] & ?); destruct t]. intros H. exists t. split; [done|]. by intros ->.
Qed.

(** A record [writeRecord] can write and [scanInto] must accept. *)
Record record_ok (maxRecordBytes : Z) (r : JournalRecord) : Prop := {
  ok_type : isKnownRecordType (raw (rec_type r)) = true;
  ok_sequence : 0 < value (rec_sequence r) < 2 ^ 64;
  ok_payload : zlen (rec_payload r) <= maxRecordBytes;
}.

Lemma raw_fits_32 (t : JournalRecordType) : fits 32 (raw t).
Proof. destruct t; split; simpl; lia. Qed.

Lemma recordChecksum_fits t s p : fits 32 (recordChecksum t s p).
Proof. by apply crc32cUpdate_fits, crc32cUpdate_fits. Qed.

Lemma length_recordBytes r :
  length (recordBytes r) = (kJournalRecordHeaderBytes + length (rec_payload r))%nat.
Proof. unfold recordBytes, storeLe32, storeLe64. rewrite !length_app, !length_le_bytes. done. Qed.

Section record_fields.
Context (maxRecordBytes : Z) (Hmax : maxRecordBytes <= kMaxJournalRecordBytes).
Context (r : JournalRecord) (Hr : record_ok maxRecordBytes r) (rest : list byte).

Lemma record_payload_fits : fits 32 (zlen (rec_payload r)).
Proof using Hmax Hr.
  destruct Hr as [_ _ Hp]. unfold fits, kMaxJournalRecordBytes in *.
  pose proof (zlen_nonneg (rec_payload r)). lia.
Qed.

Lemma record_length_field : loadLe 4 0 (recordBytes r ++ rest) = zlen (rec_payload r).
Proof using Hmax Hr.
  pose proof record_payload_fits as Hf.
  unfold recordBytes, storeLe32. rewrite <- !app_assoc.
  rewrite <- (app_nil_l (le_bytes 4 _ ++ _)), loadLe_app by (done || apply length_le_bytes).
  rewrite Z.mod_small by apply Hf. by apply le_load_bytes_fits.
Qed.

Lemma record_type_field : loadLe 4 4 (recordBytes r ++ rest) = raw (rec_type r).
Proof.
  unfold recordBytes, storeLe32. rewrite <- !app_assoc.
  rewrite loadLe_app by apply length_le_bytes. apply le_load_bytes_fits, raw_fits_32.
Qed.

Lemma record_crc_field :
  loadLe 4 8 (recordBytes r ++ rest)
  = recordChecksum (rec_type r) (rec_sequence r) (rec_payload r).
Proof.
  unfold recordBytes, storeLe32. rewrite <- !app_assoc.
  rewrite (app_assoc (le_bytes 4 _) (le_bytes 4 _)), loadLe_app;
    [|by rewrite length_app, !length_le_bytes|apply length_le_bytes].
  apply le_load_bytes_fits, recordChecksum_fits.
Qed.

Lemma record_sequence_field : loadLe 8 12 (recordBytes r ++ rest) = value (rec_sequence r).
Proof using Hr.
  unfold recordBytes, storeLe32, storeLe64. rewrite <- !app_assoc.
  rewrite (app_assoc (le_bytes 4 (raw _))), (app_assoc (le_bytes 4 (_ mod _))), loadLe_app;
    [|by rewrite !length_app, !length_le_bytes|apply length_le_bytes].
  apply le_load_bytes_fits. destruct Hr as [_ Hs _]. unfold fits. lia.
Qed.

Lemma record_body :
  drop kJournalRecordHeaderBytes (recordBytes r ++ rest) = rec_payload r ++ rest.
Proof.
  unfold recordBytes, storeLe32, storeLe64. rewrite <- !app_assoc.
  rewrite !app_assoc, <- (app_assoc _ (rec_payload r)). apply drop_app_length'.
  by rewrite !length_app, !length_le_bytes.
Qed.
End record_fields.

(** [r] may follow a record of sequence [e]. *)
Definition follows (e : option Sequence) (r : JournalRecord) : Prop :=
  match e with None => True | Some e => value (rec_sequence r) = value e + 1 end.

Fixpoint chain (e : option Sequence) (rs : list JournalRecord) : Prop :=
  match rs with [] => True | r :: rs => follows e r ∧ chain (Some (rec_sequence r)) rs end.

Fixpoint chain_end (e : option Sequence) (rs : list JournalRecord) : option Sequence :=
  match rs with [] => e | r :: rs => chain_end (Some (rec_sequence r)) rs end.

Definition segmentBytes (rs : list JournalRecord) : list byte := concat (map recordBytes rs).

Definition scan_prepend (rs : list JournalRecord) (s : Scan) : Scan :=
  mkScan (rs ++ s_records s) (s_lastGoodOffset s) (s_end s).

Definition sequence_fits (e : option Sequence) : Prop :=
  match e with None => True | Some e => 0 < value e < 2 ^ 64 end.

Section scan.
Context (maxRecordBytes fileSize : Z) (Hmax : maxRecordBytes <= kMaxJournalRecordBytes).

(** One iteration over a whole record. *)
Lemma scan_record fuel r rest offset e :
  record_ok maxRecordBytes r → follows e r → sequence_fits e →
  scan_loop (S fuel) maxRecordBytes fileSize (recordBytes r ++ rest) offset e
  = scan_cons r (scan_loop fuel maxRecordBytes fileSize rest
      (offset + zlen (recordBytes r)) (Some (rec_sequence r))).
Proof using Hmax.
  intros Hr He Hfit. cbn [scan_loop].
  rewrite length_app, length_recordBytes.
  destruct (Nat.ltb_spec (kJournalRecordHeaderBytes + length (rec_payload r) + length rest)
              kJournalRecordHeaderBytes); [lia|].
  rewrite (record_length_field maxRecordBytes), record_type_field, record_crc_field,
    (record_sequence_field maxRecordBytes), record_body by done.
  pose proof (zlen_nonneg (rec_payload r)) as Hpos.
  destruct Hr as [Ht Hs Hp]. rewrite Ht, (proj2 (Z.leb_le _ _) Hp).
  rewrite (proj2 (Z.gtb_gt (value (rec_sequence r)) 0)) by lia. cbn [negb andb].
  rewrite zlen_app. rewrite (proj2 (Z.ltb_ge (zlen (rec_payload r) + zlen rest) (zlen _)))
    by (pose proof (zlen_nonneg rest); lia).
  rewrite andb_false_r. unfold zlen at 1 2 3. rewrite Nat2Z.id, take_app_length, drop_app_length.
  apply isKnown_iff in Ht as (t & Ht & _). rewrite of_raw_raw in Ht |- *. cbn [default from_option id].
  replace (fromValue (value (rec_sequence r))) with (rec_sequence r) by by destruct (rec_sequence r).
  rewrite Z.eqb_refl. cbn [negb].
  assert (match e with
          | Some e0 => match checkedAdd 64 (value e0) 1 with
                       | Some next => negb (value (rec_sequence r) =? next) | None => true end
          | None => false end = false) as ->.
  { destruct e as [e|]; [|done]. simpl in He, Hfit.
    rewrite checkedAdd_spec by (unfold fits; lia).
    rewrite decide_True by lia. by rewrite He, Z.eqb_refl. }
  replace (offset + (Z.of_nat kJournalRecordHeaderBytes + zlen (rec_payload r)))
    with (offset + zlen (recordBytes r)) by (unfold zlen; rewrite length_recordBytes; lia).
  by destruct r.
Qed.

Lemma scan_records rs fuel rest offset e :
  Forall (record_ok maxRecordBytes) rs → chain e rs → sequence_fits e →
  scan_loop (length rs + fuel) maxRecordBytes fileSize (segmentBytes rs ++ rest) offset e
  = scan_prepend rs (scan_loop fuel maxRecordBytes fileSize rest
      (offset + zlen (segmentBytes rs)) (chain_end e rs)).
Proof using Hmax.
  revert offset e. induction rs as [|r rs IH]; intros offset e Hok Hc Hf.
  - cbn [length Nat.add segmentBytes map concat app chain_end].
    change (zlen (segmentBytes [])) with 0. rewrite Z.add_0_r.
    by destruct (scan_loop _ _ _ _ _ _).
  - apply Forall_cons_iff in Hok as [Hr Hok]. destruct Hc as [He Hc].
    unfold segmentBytes. cbn [length Nat.add map concat chain_end].
    rewrite <- app_assoc, scan_record by done.
    fold (segmentBytes rs). rewrite IH; [|done..|apply Hr].
    unfold segmentBytes. by rewrite zlen_app, Z.add_assoc.
Qed.
End scan.

Lemma validate_header : validateJournalHeader journalHeaderBytes = Ok tt.
Proof. by vm_compute. Qed.

Lemma length_journalHeader : length journalHeaderBytes = kJournalHeaderBytes.
Proof. by vm_compute. Qed.

(** A segment: a header and consecutive records. *)
Definition journalFile (rs : list JournalRecord) : list byte :=
  journalHeaderBytes ++ segmentBytes rs.

Record segment_ok (maxRecordBytes : Z) (rs : list JournalRecord) : Prop := {
  seg_records : Forall (record_ok maxRecordBytes) rs;
  seg_chain : chain None rs;
}.

Lemma zlen_journalFile rs :
  zlen (journalFile rs) = Z.of_nat kJournalHeaderBytes + zlen (segmentBytes rs).
Proof. unfold journalFile. by rewrite zlen_app. Qed.

Lemma segment_bound rs : (length rs <= length (segmentBytes rs))%nat.
Proof.
  induction rs as [|r rs IH]; [done|]. unfold segmentBytes in *. simpl.
  rewrite length_app, length_recordBytes. unfold kJournalRecordHeaderBytes. lia.
Qed.

(** The scan of a segment followed by [rest] is the segment's records and the
    scan of [rest]. *)
Lemma scan_file_records maxRecordBytes rs rest :
  maxRecordBytes <= kMaxJournalRecordBytes → segment_ok maxRecordBytes rs →
  ∃ fuel, scan_file maxRecordBytes (journalFile rs ++ rest)
    = scan_prepend rs (scan_loop (S fuel) maxRecordBytes (zlen (journalFile rs) + zlen rest) rest
        (zlen (journalFile rs)) (chain_end None rs)).
Proof.
  intros Hmax [Hr Hc]. unfold scan_file. rewrite zlen_app.
  pose proof (segment_bound rs).
  exists (length (journalFile rs ++ rest) - length rs)%nat.
  replace (S (length (journalFile rs ++ rest)))
    with (length rs + S (length (journalFile rs ++ rest) - length rs))%nat
    by (unfold journalFile; rewrite !length_app; lia).
  assert (drop kJournalHeaderBytes (journalFile rs ++ rest) = segmentBytes rs ++ rest) as ->.
  { unfold journalFile. rewrite <- app_assoc, <- length_journalHeader. apply drop_app_length. }
  rewrite scan_records by done. by rewrite zlen_journalFile.
Qed.

Lemma chain_end_fits maxRecordBytes rs e :
  Forall (record_ok maxRecordBytes) rs → sequence_fits e → sequence_fits (chain_end e rs).
Proof.
  revert e. induction rs as [|r rs IH]; intros e Hr He; [done|].
  apply Forall_cons_iff in Hr as [Hr Hrs]. simpl. apply IH; [done|]. apply Hr.
Qed.

Lemma scanInto_file cs path maxRecordBytes truncate bytes fs :
  fs !! path = Some bytes → (kJournalHeaderBytes <= length bytes)%nat →
  take kJournalHeaderBytes bytes = journalHeaderBytes →
  scanInto cs path maxRecordBytes truncate fs =
  (let s := scan_file maxRecordBytes bytes in
   let recovery := recovery_of (zlen bytes) s in
   match s_end s with
   | MidFile why =>
       (fs, mkScanResult (fail_detail ErrorCode.IntegrityFailure "journal is corrupted" why)
              recovery (s_records s))
   | EndOfFile => (fs, mkScanResult (Ok tt) recovery (s_records s))
   | TornHeader =>
       (if truncate then <[path := take (Z.to_nat (s_lastGoodOffset s)) bytes]> fs else fs,
        mkScanResult (Ok tt) recovery (s_records s))
   | TornPayload =>
       (match cs with
        | EndsInClose =>
            if truncate then <[path := take (Z.to_nat (s_lastGoodOffset s)) bytes]> fs else fs
        | EndsInFlush => fs
        end,
        mkScanResult (Abort (closed_stream_use cs truncate)) recovery (s_records s))
   end).
Proof.
  intros Hp Hl Ht. unfold scanInto. rewrite Hp.
  destruct (Nat.ltb_spec (length bytes) kJournalHeaderBytes); [lia|].
  by rewrite Ht, validate_header.
Qed.

Lemma journalFile_header rs rest : take kJournalHeaderBytes (journalFile rs ++ rest) = journalHeaderBytes.
Proof. unfold journalFile. rewrite <- app_assoc, <- length_journalHeader. apply take_app_length. Qed.

Lemma journalFile_long rs rest : (kJournalHeaderBytes <= length (journalFile rs ++ rest))%nat.
Proof. unfold journalFile. rewrite !length_app, length_journalHeader. lia. Qed.

(** *** Whole segments *)

Lemma scan_clean maxRecordBytes rs :
  maxRecordBytes <= kMaxJournalRecordBytes → segment_ok maxRecordBytes rs →
  scan_file maxRecordBytes (journalFile rs) = mkScan rs (zlen (journalFile rs)) EndOfFile.
Proof.
  intros Hmax Hrs. destruct (scan_file_records _ _ [] Hmax Hrs) as [fuel Hs].
  rewrite app_nil_r in Hs. rewrite Hs. cbn [scan_loop length].
  change (zlen (@nil byte)) with 0. rewrite Z.add_0_r, Z.eqb_refl. unfold scan_prepend. simpl.
  by rewrite app_nil_r.
Qed.

(** *** A torn tail *)

Lemma zlen_take_record n r :
  (n < length (recordBytes r))%nat → zlen (take n (recordBytes r)) = Z.of_nat n.
Proof. intros. unfold zlen. rewrite length_take. lia. Qed.

Lemma scan_torn maxRecordBytes rs r n :
  maxRecordBytes <= kMaxJournalRecordBytes → segment_ok maxRecordBytes rs →
  record_ok maxRecordBytes r → (0 < n < length (recordBytes r))%nat →
  scan_file maxRecordBytes (journalFile rs ++ take n (recordBytes r))
  = mkScan rs (zlen (journalFile rs))
      (if (n <? kJournalRecordHeaderBytes)%nat then TornHeader else TornPayload).
Proof.
  intros Hmax Hrs Hr Hn.
  destruct (scan_file_records _ _ (take n (recordBytes r)) Hmax Hrs) as [fuel ->].
  unfold scan_prepend. cbn [scan_loop].
  assert (length (take n (recordBytes r)) = n) as Hlen by (rewrite length_take; lia).
  rewrite Hlen. destruct (Nat.ltb_spec n kJournalRecordHeaderBytes); simpl s_records; simpl s_end.
  - rewrite zlen_take_record by lia. rewrite app_nil_r.
    destruct (Z.eqb_spec (zlen (journalFile rs)) (zlen (journalFile rs) + Z.of_nat n)); [lia|done].
  - assert (∀ k off, (off + k <= n)%nat → loadLe k off (take n (recordBytes r))
              = loadLe k off (recordBytes r ++ [])) as Hload.
    { intros k off Hk. unfold loadLe. rewrite app_nil_r. f_equal.
      rewrite <- (take_drop n (recordBytes r)) at 2.
      rewrite drop_app_le, take_app_le by (rewrite ?length_drop; lia). done. }
    unfold kJournalRecordHeaderBytes in *.
    rewrite !Hload by lia.
    rewrite (record_length_field maxRecordBytes), record_type_field,
      (record_sequence_field maxRecordBytes) by done.
    destruct Hr as [Ht Hs Hp]. rewrite Ht, (proj2 (Z.leb_le _ _) Hp).
    rewrite (proj2 (Z.gtb_gt (value (rec_sequence r)) 0)) by lia. cbn [negb andb].
    rewrite length_recordBytes in Hn. unfold kJournalRecordHeaderBytes in Hn.
    rewrite (proj2 (Z.gtb_gt (zlen (rec_payload r)) 0)) by (unfold zlen; lia).
    rewrite (proj2 (Z.ltb_lt _ (zlen (rec_payload r))))
      by (unfold zlen; rewrite length_drop, Hlen; lia).
    simpl. by rewrite app_nil_r.
Qed.

(** *** Damage behind the length field *)

(** A record-shaped piece of file: any type, checksum, sequence and payload
    bytes behind the length field of [r]. *)
Definition rawRecord (r : JournalRecord) (T C S P : list byte) : list byte :=
  storeLe32 (zlen (rec_payload r) mod 2 ^ 32) ++ T ++ C ++ S ++ P.

Lemma scan_bad_checksum maxRecordBytes fileSize fuel r T C S P rest offset e :
  maxRecordBytes <= kMaxJournalRecordBytes → record_ok maxRecordBytes r →
  length T = 4%nat → length C = 4%nat → length S = 8%nat →
  length P = length (rec_payload r) →
  crc32cUpdate Crc32c_init (T ++ S ++ P) ≠ le_load C →
  ∃ why, scan_loop (Datatypes.S fuel) maxRecordBytes fileSize (rawRecord r T C S P ++ rest) offset e
         = mkScan [] offset (MidFile why).
Proof.
  intros Hmax Hr HT HC HS HP Hcrc. cbn [scan_loop].
  pose proof (record_payload_fits maxRecordBytes Hmax r Hr) as Hf.
  assert (loadLe 4 0 (rawRecord r T C S P ++ rest) = zlen P) as ->.
  { unfold rawRecord, storeLe32. rewrite <- !app_assoc, <- (app_nil_l (le_bytes 4 _ ++ _)).
    rewrite loadLe_app by (done || apply length_le_bytes).
    rewrite Z.mod_small by apply Hf. rewrite le_load_bytes_fits by done.
    unfold zlen. by rewrite HP. }
  unfold rawRecord. set (L := storeLe32 _).
  assert (length L = 4%nat) as HL by apply length_le_bytes.
  rewrite <- !app_assoc.
  rewrite (loadLe_app 4 4 L T), (app_assoc L T), (loadLe_app 4 8 (L ++ T) C),
    (app_assoc (L ++ T) C), (loadLe_app 8 12 ((L ++ T) ++ C) S), (app_assoc ((L ++ T) ++ C) S)
    by (rewrite ?length_app; lia).
  rewrite (drop_app_length' _ (P ++ rest)) by (rewrite !length_app; unfold kJournalRecordHeaderBytes; lia).
  rewrite length_app, !length_app.
  destruct (Nat.ltb_spec (length L + length T + length C + length S + (length P + length rest))
              kJournalRecordHeaderBytes); [unfold kJournalRecordHeaderBytes in *; lia|].
  destruct (negb _) eqn:Hplausible; [by eexists|].
  apply negb_false_iff in Hplausible. apply andb_prop in Hplausible as [Hpl Hseq].
  apply andb_prop in Hpl as [_ Hknown]. apply isKnown_iff in Hknown as (t & Ht & _).
  rewrite zlen_app, (proj2 (Z.ltb_ge _ (zlen P))) by (pose proof (zlen_nonneg rest); lia).
  rewrite andb_false_r. unfold zlen. rewrite Nat2Z.id, take_app_length, Ht.
  cbn [default from_option id]. apply of_raw_Some in Ht.
  assert (recordChecksum t (fromValue (le_load S)) P = crc32cUpdate Crc32c_init (T ++ S ++ P)) as ->.
  { unfold recordChecksum, storeLe32, storeLe64. cbn [value].
    rewrite Ht, (le_bytes_load 4), (le_bytes_load 8) by done.
    by rewrite <- crc32cUpdate_app, <- app_assoc. }
  rewrite (proj2 (Z.eqb_neq _ _) Hcrc). by eexists.
Qed.

Lemma recordBytes_raw r :
  recordBytes r = rawRecord r (storeLe32 (raw (rec_type r)))
    (storeLe32 (recordChecksum (rec_type r) (rec_sequence r) (rec_payload r)))
    (storeLe64 (value (rec_sequence r))) (rec_payload r).
Proof. done. Qed.

(** Two buffers of the same length that differ. *)
Lemma insert_differs (l : list byte) i c :
  (i < length l)%nat → l !! i ≠ Some c →
  ∃ pre b post, l = pre ++ b :: post ∧ <[i := c]> l = pre ++ c :: post ∧ b ≠ c.
Proof.
  intros Hi Hne. destruct (lookup_lt_is_Some_2 l i Hi) as [b Hb].
  exists (take i l), b, (drop (Datatypes.S i) l). split; [by rewrite take_drop_middle|].
  split; [|congruence]. by rewrite insert_take_drop.
Qed.

Lemma checksum_value r :
  crc32cUpdate Crc32c_init
    (storeLe32 (raw (rec_type r)) ++ storeLe64 (value (rec_sequence r)) ++ rec_payload r)
  = le_load (storeLe32 (recordChecksum (rec_type r) (rec_sequence r) (rec_payload r))).
Proof.
  unfold storeLe32 at 2. rewrite le_load_bytes_fits by apply recordChecksum_fits.
  unfold recordChecksum. by rewrite <- crc32cUpdate_app, <- app_assoc.
Qed.

(** Changing one byte of the covered fields changes the checksum. *)
Lemma checksum_differs X Y Z i c v :
  (i < length Y)%nat → Y !! i ≠ Some c → crc32cUpdate Crc32c_init (X ++ Y ++ Z) = v →
  crc32cUpdate Crc32c_init (X ++ <[i := c]> Y ++ Z) ≠ v.
Proof.
  intros Hi Hc <-. destruct (insert_differs _ _ _ Hi Hc) as (pre & b & post & -> & -> & Hb).
  rewrite <- !app_assoc, (app_assoc X pre), (app_assoc X pre). cbn [app].
  intros E. apply Hb. symmetry. by apply crc32cUpdate_single_byte in E.
Qed.

Lemma scan_damaged maxRecordBytes fileSize fuel r i c rest offset e :
  maxRecordBytes <= kMaxJournalRecordBytes → record_ok maxRecordBytes r →
  (4 <= i < length (recordBytes r))%nat → recordBytes r !! i ≠ Some c →
  ∃ why, scan_loop (S fuel) maxRecordBytes fileSize (<[i := c]> (recordBytes r) ++ rest) offset e
         = mkScan [] offset (MidFile why).
Proof.
  intros Hmax Hr Hi Hc. rewrite length_recordBytes in Hi. unfold kJournalRecordHeaderBytes in Hi.
  pose proof (checksum_value r) as Hsum.
  rewrite recordBytes_raw in Hc |- *. unfold rawRecord in Hc |- *.
  revert Hc Hsum.
  pose proof (recordChecksum_fits (rec_type r) (rec_sequence r) (rec_payload r)) as Hfits.
  set (L := storeLe32 (zlen _ mod _)). set (T := storeLe32 (raw _)).
  set (C := storeLe32 (recordChecksum _ _ _)). set (Q := storeLe64 _). set (P := rec_payload r).
  assert (length L = 4 ∧ length T = 4 ∧ length C = 4 ∧ length Q = 8)%nat as (HL & HT & HC & HQ)
    by (repeat split; apply length_le_bytes).
  intros Hc Hsum.
  rewrite insert_app_r_alt by lia. rewrite lookup_app_r in Hc by lia.
  destruct (decide (i - length L < 4)%nat) as [H1|H1].
  { rewrite insert_app_l by lia. rewrite lookup_app_l in Hc by lia.
    apply scan_bad_checksum; rewrite ?length_insert; try done.
    by apply (checksum_differs []); [lia| |]. }
  rewrite insert_app_r_alt by lia. rewrite lookup_app_r in Hc by lia.
  destruct (decide (i - length L - length T < 4)%nat) as [H2|H2].
  { rewrite insert_app_l by lia. rewrite lookup_app_l in Hc by lia.
    apply scan_bad_checksum; rewrite ?length_insert; try done.
    rewrite Hsum. intros E. apply (f_equal (le_bytes 4)) in E.
    rewrite !le_bytes_load in E by (rewrite ?length_insert; done).
    rewrite E, list_lookup_insert_eq in Hc by lia. done. }
  rewrite insert_app_r_alt by lia. rewrite lookup_app_r in Hc by lia.
  destruct (decide (i - length L - length T - length C < 8)%nat) as [H3|H3].
  { rewrite insert_app_l by lia. rewrite lookup_app_l in Hc by lia.
    apply scan_bad_checksum; rewrite ?length_insert; try done.
    by apply checksum_differs; [lia| |]. }
  rewrite insert_app_r_alt by lia. rewrite lookup_app_r in Hc by lia.
  apply scan_bad_checksum; rewrite ?length_insert; try done.
  rewrite <- (app_nil_r (<[_ := c]> P)), app_assoc.
  apply checksum_differs; [subst P; lia|done|]. by rewrite <- app_assoc, app_nil_r.
Qed.

(** *** Enough fuel *)

Lemma scan_loop_fuel maxRecordBytes fileSize f1 f2 rest offset e :
  (length rest < f1)%nat → (length rest < f2)%nat →
  scan_loop f1 maxRecordBytes fileSize rest offset e
  = scan_loop f2 maxRecordBytes fileSize rest offset e.
Proof.
  revert f2 rest offset e. induction f1 as [|f1 IH]; intros [|f2] rest offset e H1 H2; [lia..|].
  cbn [scan_loop].
  destruct (Nat.ltb_spec (length rest) kJournalRecordHeaderBytes); [done|].
  destruct (negb _); [done|]. destruct (_ && _); [done|]. destruct (negb _); [done|].
  case_match; [done|]. f_equal.
  apply IH; rewrite !length_drop; unfold kJournalRecordHeaderBytes in *; lia.
Qed.

(** *** The open journal *)

(** The file of an open journal holds exactly the records [rs]. *)
Record journal_inv (fs : FileSystem) (j : Journal) (rs : list JournalRecord) : Prop := {
  ji_file : fs !! j_path j = Some (journalFile rs);
  ji_segment : segment_ok (j_maxRecordBytes j) rs;
  ji_last : j_lastSequence j = last_sequence rs;
  ji_count : j_recordCount j = zlen rs;
  ji_bound : 0 < j_maxRecordBytes j <= kMaxJournalRecordBytes;
  ji_path : j_path j ≠ "";
}.

(** The record an append adds. *)
Definition nextRecord (j : Journal) (type : JournalRecordType) (payload : list byte) : JournalRecord :=
  mkRecord type (fromValue (value (j_lastSequence j) + 1)) payload.

(** What [append] checks before it writes. *)
Definition appendable (j : Journal) (type : JournalRecordType) (payload : list byte) : Prop :=
  isKnownRecordType (raw type) = true ∧ zlen payload <= j_maxRecordBytes j
  ∧ 0 <= value (j_lastSequence j) < 2 ^ 64 - 1.

Lemma segmentBytes_app rs rs' : segmentBytes (rs ++ rs') = segmentBytes rs ++ segmentBytes rs'.
Proof. unfold segmentBytes. by rewrite map_app, concat_app. Qed.

Lemma journalFile_snoc rs r : journalFile (rs ++ [r]) = journalFile rs ++ recordBytes r.
Proof.
  unfold journalFile. rewrite segmentBytes_app, app_assoc. f_equal.
  unfold segmentBytes. simpl. by rewrite app_nil_r.
Qed.

Lemma last_sequence_snoc rs r : last_sequence (rs ++ [r]) = rec_sequence r.
Proof. unfold last_sequence. by rewrite foldl_app. Qed.

Lemma chain_snoc e rs r :
  chain e rs → follows (chain_end e rs) r → chain e (rs ++ [r]).
Proof. revert e. induction rs as [|r' rs IH]; simpl; [done|]. intros e [? ?] ?. split; [done|by apply IH]. Qed.

Lemma chain_end_last e rs : rs ≠ [] → chain_end e rs = Some (last_sequence rs).
Proof.
  revert e. induction rs as [|r rs IH]; [done|]. intros e _. destruct rs as [|r' rs]; [done|].
  change (chain_end e (r :: r' :: rs)) with (chain_end (Some (rec_sequence r)) (r' :: rs)).
  by rewrite IH.
Qed.

Lemma next_record_ok fs j rs type payload :
  journal_inv fs j rs → appendable j type payload →
  record_ok (j_maxRecordBytes j) (nextRecord j type payload)
  ∧ segment_ok (j_maxRecordBytes j) (rs ++ [nextRecord j type payload]).
Proof.
  intros Hj (Ht & Hp & Hs).
  assert (record_ok (j_maxRecordBytes j) (nextRecord j type payload)) as Hr.
  { split; simpl; [done|lia|done]. }
  split; [done|]. destruct Hj as [_ [Hrs Hc] Hl _ _ _]. split.
  - apply Forall_app. split; [done|]. by apply Forall_cons_iff.
  - apply chain_snoc; [done|]. destruct (decide (rs = [])) as [->|Hne]; [done|].
    rewrite chain_end_last by done. simpl. by rewrite Hl.
Qed.

Lemma append_spec o fs j rs type payload :
  journal_inv fs j rs → appendable j type payload →
  (append o j type payload fs).1
    = <[j_path j := journalFile rs ++ written_part o (recordBytes (nextRecord j type payload))]> fs
  ∧ (o = Written →
     (append o j type payload fs).2
       = Ok (mkJournal (j_path j) (j_maxRecordBytes j)
               (fromValue (value (j_lastSequence j) + 1)) (j_recordCount j + 1))).
Proof.
  intros Hj (Ht & Hp & Hs). unfold append. rewrite Ht. cbn [negb].
  destruct (Z.gtb_spec (zlen payload) (j_maxRecordBytes j)); [lia|].
  rewrite checkedAdd_spec by (unfold fits; lia). rewrite decide_True by lia.
  unfold writeRecord, io_bind, nextRecord. rewrite (ji_file _ _ _ Hj). cbn [default from_option id].
  destruct o as [|n]; [done|]. split; [|done]. by repeat case_match.
Qed.

Lemma append_inv fs j rs type payload :
  journal_inv fs j rs → appendable j type payload →
  ∃ fs' j', append Written j type payload fs = (fs', Ok j')
    ∧ journal_inv fs' j' (rs ++ [nextRecord j type payload])
    ∧ (∀ p, p ≠ j_path j → fs' !! p = fs !! p) ∧ j_path j' = j_path j.
Proof.
  intros Hj Ha. destruct (append_spec Written fs j rs type payload Hj Ha) as [Hfs Hr].
  specialize (Hr eq_refl). destruct (append Written j type payload fs) as [fs' r]. simpl in *.
  subst. eexists _, _. split; [done|]. split; [|split; [|done]].
  - destruct (next_record_ok _ _ _ _ _ Hj Ha) as [_ Hseg]. destruct Hj as [Hf _ Hl Hc Hb Hp].
    split; simpl; [|done| | |done|done].
    + by rewrite lookup_insert_eq, journalFile_snoc.
    + by rewrite last_sequence_snoc.
    + rewrite zlen_app, Hc. done.
  - intros p Hp. by rewrite lookup_insert_ne.
Qed.

Definition segmentStart (base : Z) : JournalRecord :=
  mkRecord JournalRecordType.SegmentStart (fromValue base) (storeLe64 base).

Lemma segmentStart_ok maxRecordBytes base :
  8 <= maxRecordBytes → 0 < base < 2 ^ 64 → segment_ok maxRecordBytes [segmentStart base].
Proof.
  intros Hm Hb. split; [|done]. apply Forall_cons_iff. split; [|by constructor].
  split; simpl; [done|done|]. unfold storeLe64. by rewrite zlen_le_bytes.
Qed.

Lemma restart_inv fs j base :
  0 < base < 2 ^ 64 → 8 <= j_maxRecordBytes j <= kMaxJournalRecordBytes → j_path j ≠ "" →
  ∃ fs' j', restartSegment (Restarted Written) j (fromValue base) fs = (fs', Ok j')
    ∧ journal_inv fs' j' [segmentStart base]
    ∧ fs' = <[j_path j := journalFile [segmentStart base]]> fs ∧ j_path j' = j_path j.
Proof.
  intros Hb Hm Hp. unfold restartSegment. cbn [value].
  destruct (Z.eqb_spec base 0); [lia|]. unfold writeRecord, io_bind. cbn [written_part].
  rewrite lookup_insert_eq. cbn [default from_option id]. eexists _, _. split; [done|].
  split; [|split; [|done]].
  - split; cbn [j_path j_maxRecordBytes j_lastSequence j_recordCount]; [|apply segmentStart_ok; lia|done|done|lia|done].
    rewrite lookup_insert_eq. unfold journalFile, segmentBytes. simpl. by rewrite app_nil_r.
  - rewrite insert_insert_eq. unfold journalFile, segmentBytes. simpl. by rewrite app_nil_r.
Qed.

(** *** Opening *)

(** Opening a journal file that holds [rs] and then [tail]. *)
Lemma open_existing ho so cs path maxRecordBytes fs bytes fs1 sr :
  path ≠ "" → 0 < maxRecordBytes <= kMaxJournalRecordBytes → fs !! path = Some bytes →
  scanInto cs path maxRecordBytes true fs = (fs1, sr) → sr_status sr = Ok tt →
  Journal_open ho so cs path maxRecordBytes fs
  = (fs1, sr_recovery sr,
     Ok (mkJournal path maxRecordBytes (lastSequence (sr_recovery sr))
           (recordsRecovered (sr_recovery sr)))).
Proof.
  intros Hp Hm Hf Hs Hok. unfold Journal_open. rewrite decide_False by done.
  destruct (Z.eqb_spec maxRecordBytes 0); [lia|].
  destruct (Z.gtb_spec maxRecordBytes kMaxJournalRecordBytes); [lia|]. simpl.
  by rewrite Hf, Hs, Hok.
Qed.

Lemma open_segment ho so cs path maxRecordBytes fs rs :
  path ≠ "" → 0 < maxRecordBytes <= kMaxJournalRecordBytes →
  fs !! path = Some (journalFile rs) → segment_ok maxRecordBytes rs →
  ∃ j recovery, Journal_open ho so cs path maxRecordBytes fs = (fs, recovery, Ok j)
    ∧ outcome recovery = Outcome.Clean ∧ journal_inv fs j rs ∧ j_path j = path
    ∧ j_maxRecordBytes j = maxRecordBytes.
Proof.
  intros Hp Hm Hf Hrs.
  rewrite (open_existing ho so cs path maxRecordBytes fs (journalFile rs) fs
            (mkScanResult (Ok tt) (mkRecovery Outcome.Clean 0 (zlen rs) (last_sequence rs) "")
               rs) Hp Hm Hf); [|rewrite scanInto_file with (bytes := journalFile rs); [|done|..]|done].
  - eexists _, _. split; [done|]. split; [done|]. split; [|done]. by split.
  - by rewrite scan_clean by (done || lia).
  - rewrite <- (app_nil_r (journalFile rs)). apply journalFile_long.
  - rewrite <- (app_nil_r (journalFile rs)). apply journalFile_header.
Qed.

(** The tail of the next record is torn off at byte [n]: in the header of the
    record, the journal opens and the tail is cut off; in its payload, the
    process ends. *)
Section torn.
Context (path : string) (maxRecordBytes : Z) (fs : FileSystem).
Context (rs : list JournalRecord) (r : JournalRecord) (n : nat).
Context (Hp : path ≠ "") (Hm : 0 < maxRecordBytes <= kMaxJournalRecordBytes).
Context (Hf : fs !! path = Some (journalFile rs ++ take n (recordBytes r))).
Context (Hrs : segment_ok maxRecordBytes rs) (Hr : record_ok maxRecordBytes r).

Lemma cut_torn_tail :
  take (Z.to_nat (zlen (journalFile rs))) (journalFile rs ++ take n (recordBytes r)) = journalFile rs.
Proof. unfold zlen. rewrite Nat2Z.id. apply take_app_length. Qed.

Lemma scanInto_torn cs truncate :
  (0 < n < length (recordBytes r))%nat →
  scanInto cs path maxRecordBytes truncate fs
  = (let s := mkScan rs (zlen (journalFile rs))
                (if (n <? kJournalRecordHeaderBytes)%nat then TornHeader else TornPayload) in
     let recovery := recovery_of (zlen (journalFile rs ++ take n (recordBytes r))) s in
     if (n <? kJournalRecordHeaderBytes)%nat
     then (if truncate then <[path := journalFile rs]> fs else fs, mkScanResult (Ok tt) recovery rs)
     else (match cs with
           | EndsInClose => if truncate then <[path := journalFile rs]> fs else fs
           | EndsInFlush => fs
           end, mkScanResult (Abort (closed_stream_use cs truncate)) recovery rs)).
Proof using Hp Hm Hf Hrs Hr.
  intros Hn.
  rewrite (scanInto_file _ _ _ _ _ fs Hf (journalFile_long _ _) (journalFile_header _ _)).
  cbv zeta. rewrite scan_torn by (done || lia).
  destruct (n <? kJournalRecordHeaderBytes)%nat; cbn [s_end s_records s_lastGoodOffset];
    by rewrite cut_torn_tail.
Qed.

Lemma open_torn_header ho so cs :
  (0 < n < kJournalRecordHeaderBytes)%nat →
  ∃ j recovery, Journal_open ho so cs path maxRecordBytes fs
      = (<[path := journalFile rs]> fs, recovery, Ok j)
    ∧ outcome recovery = Outcome.TruncatedTail ∧ discardedBytes recovery = Z.of_nat n
    ∧ journal_inv (<[path := journalFile rs]> fs) j rs ∧ j_path j = path
    ∧ j_maxRecordBytes j = maxRecordBytes.
Proof using Hp Hm Hf Hrs Hr.
  intros Hn.
  assert (n < length (recordBytes r))%nat as Hlen by (rewrite length_recordBytes; lia).
  pose proof (scanInto_torn cs true ltac:(lia)) as Hs. cbv zeta in Hs.
  rewrite (proj2 (Nat.ltb_lt n _)) in Hs by lia.
  erewrite (open_existing ho so cs path maxRecordBytes fs) by (done || exact Hs).
  eexists _, _. split; [done|]. split; [done|]. split.
  { simpl. rewrite zlen_app, zlen_take_record by lia. lia. }
  split; [|done]. split; simpl; try done. by rewrite lookup_insert_eq.
Qed.

(** What the process that ends in the opening leaves. *)
Definition closed_stream_leaves (cs : ClosedStream) : FileSystem :=
  match cs with EndsInClose => <[path := journalFile rs]> fs | EndsInFlush => fs end.

Lemma open_torn_payload ho so cs :
  (kJournalRecordHeaderBytes <= n < length (recordBytes r))%nat →
  ∃ recovery, Journal_open ho so cs path maxRecordBytes fs
      = (closed_stream_leaves cs, recovery, Abort (closed_stream_use cs true)).
Proof using Hp Hm Hf Hrs Hr.
  intros Hn. pose proof (scanInto_torn cs true) as Hs. cbv zeta in Hs.
  rewrite (proj2 (Nat.ltb_ge n _)) in Hs by lia.
  unfold Journal_open. rewrite decide_False by done.
  destruct (Z.eqb_spec maxRecordBytes 0); [lia|].
  destruct (Z.gtb_spec maxRecordBytes kMaxJournalRecordBytes); [lia|]. simpl orb. cbv iota.
  rewrite Hf, Hs by (unfold kJournalRecordHeaderBytes in *; lia). by eexists.
Qed.
End torn.

Lemma record_ok_weaken m m' r : m <= m' → record_ok m r → record_ok m' r.
Proof. intros Hm [? ? ?]. split; [done..|lia]. Qed.

Lemma segment_ok_weaken m m' rs : m <= m' → segment_ok m rs → segment_ok m' rs.
Proof.
  intros Hm [Hr Hc]. split; [|done]. revert Hr. apply Forall_impl. intros r.
  by apply record_ok_weaken.
Qed.

(** Reading a file that ends inside a payload ends the process as well. *)
Lemma readFile_torn_payload path fs rs r n m :
  path ≠ "" → m <= kMaxJournalRecordBytes →
  fs !! path = Some (journalFile rs ++ take n (recordBytes r)) →
  segment_ok m rs → record_ok m r →
  (kJournalRecordHeaderBytes <= n < length (recordBytes r))%nat →
  (readFile path fs).2 = Abort "journal stream closed twice".
Proof.
  intros Hp Hm Hf Hrs Hr Hn. unfold readFile.
  assert (0 < kMaxJournalRecordBytes <= kMaxJournalRecordBytes) as Hmax
    by (vm_compute; split; congruence).
  rewrite (scanInto_torn path _ fs rs r n Hp Hmax Hf) by
    (eauto using segment_ok_weaken, record_ok_weaken || (unfold kJournalRecordHeaderBytes in *; lia)).
  cbv zeta. by rewrite (proj2 (Nat.ltb_ge n _)) by lia.
Qed.

Lemma open_created so_done cs path maxRecordBytes fs :
  path ≠ "" → 8 <= maxRecordBytes <= kMaxJournalRecordBytes → fs !! path = None →
  so_done = Restarted Written →
  ∃ fs' j recovery, Journal_open Written so_done cs path maxRecordBytes fs = (fs', recovery, Ok j)
    ∧ outcome recovery = Outcome.Created ∧ journal_inv fs' j [segmentStart 1]
    ∧ fs' = <[path := journalFile [segmentStart 1]]> fs ∧ j_path j = path
    ∧ j_maxRecordBytes j = maxRecordBytes.
Proof.
  intros Hp Hm Hf ->. unfold Journal_open. rewrite decide_False by done.
  destruct (Z.eqb_spec maxRecordBytes 0); [lia|].
  destruct (Z.gtb_spec maxRecordBytes kMaxJournalRecordBytes); [lia|]. simpl orb. cbv iota.
  rewrite Hf. cbn [written_part].
  destruct (restart_inv (<[path := journalHeaderBytes]> fs) (mkJournal path maxRecordBytes num_unset 0) 1
              ltac:(lia) Hm Hp) as (fs' & j' & Hrun & Hinv & Hfs & Hpath).
  rewrite Hrun. eexists _, _, _. split; [done|]. split; [done|]. split; [done|].
  split; [|split; [done|]].
  - rewrite Hfs. cbn [j_path]. by rewrite insert_insert_eq.
  - revert Hrun. unfold restartSegment, writeRecord, io_bind. simpl. by intros [= _ <-].
Qed.

(** The records of an open journal, as [Journal::readFile] returns them. *)
Lemma readFile_segment path fs rs maxRecordBytes :
  fs !! path = Some (journalFile rs) → segment_ok maxRecordBytes rs →
  maxRecordBytes <= kMaxJournalRecordBytes →
  readFile path fs = (mkRecovery Outcome.Clean 0 (zlen rs) (last_sequence rs) "", Ok rs).
Proof.
  intros Hf [Hr Hc] Hm.
  assert (segment_ok kMaxJournalRecordBytes rs) as Hrs
    by (apply (segment_ok_weaken maxRecordBytes); done).
  pose proof (journalFile_long rs []) as Hlong. pose proof (journalFile_header rs []) as Hhead.
  rewrite app_nil_r in Hlong, Hhead.
  unfold readFile. rewrite (scanInto_file _ _ _ _ _ _ Hf Hlong Hhead). by rewrite scan_clean.
Qed.

(** ** Properties *)

Lemma written_part_cases o bytes :
  written_part o bytes = bytes ∨
  ∃ n, o = Torn n ∧ (n < length bytes)%nat ∧ written_part o bytes = take n bytes.
Proof.
  destruct o as [|n]; [by left|]. simpl.
  destruct (decide (n < length bytes)%nat); [right; eauto|left; apply take_ge; lia].
Qed.

(** The write of the record of [r] was cut short inside its payload. *)
Definition cut_in_payload (o : WriteOutcome) (r : JournalRecord) : bool :=
  match o with
  | Written => false
  | Torn n => (kJournalRecordHeaderBytes <=? n)%nat && (n <? length (recordBytes r))%nat
  end.

(** The whole record was written (which a failing sync may still report as a failure). *)
Definition whole_record (o : WriteOutcome) (r : JournalRecord) : bool :=
  match o with Written => true | Torn n => (length (recordBytes r) <=? n)%nat end.

(** Where the write of a record ends: nothing or a part of the header, a part
    of the payload, or everything. *)
Lemma write_cases o r :
  (∃ n, o = Torn n ∧ (n < kJournalRecordHeaderBytes)%nat
     ∧ cut_in_payload o r = false ∧ whole_record o r = false)
  ∨ (∃ n, o = Torn n ∧ (kJournalRecordHeaderBytes <= n < length (recordBytes r))%nat
       ∧ cut_in_payload o r = true ∧ whole_record o r = false)
  ∨ (written_part o (recordBytes r) = recordBytes r
     ∧ cut_in_payload o r = false ∧ whole_record o r = true).
Proof.
  pose proof (length_recordBytes r) as Hlen.
  destruct o as [|n]; [by right; right|]. cbn [cut_in_payload whole_record written_part].
  destruct (Nat.ltb_spec n (length (recordBytes r))), (Nat.leb_spec (length (recordBytes r)) n),
    (Nat.leb_spec kJournalRecordHeaderBytes n); try lia.
  - right. left. exists n. split; [done|]. by split.
  - left. exists n. split; [done|]. by split.
  - right. right. split; [by apply take_ge|done].
Qed.

Lemma append_Ok_written o fs j type payload :
  is_ok (append o j type payload fs).2 = true → o = Written.
Proof.
  unfold append. destruct (negb _); [done|]. destruct (_ >? _); [done|]. case_match; [|done].
  unfold writeRecord, io_bind. destruct o as [|n]; [done|]. by repeat case_match.
Qed.

(** C20: what a crash in an append leaves. If the write of the record ends
    before its payload or after it, reopening the journal succeeds, repairs the
    file, and recovers the records from before the append, and the appended one
    if it was written whole; an append that reported success is always
    recovered. If the write ends inside the payload, the append failed, and the
    next opening does not return: the stream of the torn file is closed twice.
    The process ends with the file as it was, or with the torn record cut off,
    and then the opening after that recovers the records from before the
    append; reading the torn file without opening it ends the process too. *)
Theorem append_crash_atomic o cs fs j rs type payload
    (Hj : journal_inv fs j rs) (Ha : appendable j type payload) :
  let r := nextRecord j type payload in
  let fs1 := (append o j type payload fs).1 in
  let reopen cs := Journal_open Written (Restarted Written) cs (j_path j) (j_maxRecordBytes j) in
  (cut_in_payload o r = false →
     ∃ fs' recovery j', let rs' := if whole_record o r then rs ++ [r] else rs in
       reopen cs fs1 = (fs', recovery, Ok j')
       ∧ journal_inv fs' j' rs' ∧ (readFile (j_path j) fs').2 = Ok rs')
  ∧ (is_ok (append o j type payload fs).2 = true → whole_record o r = true)
  ∧ (cut_in_payload o r = true →
       ∃ recovery why, reopen cs fs1
         = (match cs with
            | EndsInFlush => fs1
            | EndsInClose => <[j_path j := journalFile rs]> fs1
            end, recovery, Abort why)
       ∧ (∃ why, (readFile (j_path j) fs1).2 = Abort why)
       ∧ ∀ cs', ∃ fs' recovery j',
           reopen cs' (<[j_path j := journalFile rs]> fs1) = (fs', recovery, Ok j')
           ∧ journal_inv fs' j' rs).
Proof.
  cbv zeta. split_and!.
  2: { intros ->%append_Ok_written. done. }
  all: destruct (append_spec o fs j rs type payload Hj Ha) as [-> _];
    destruct (next_record_ok _ _ _ _ _ Hj Ha) as [Hr Hseg];
    set (r := nextRecord j type payload) in *; destruct Hj as [Hf Hrs Hl Hc Hb Hp];
    destruct (write_cases o r)
      as [(n & -> & Hn & Hcut & Hwhole)|[(n & -> & Hn & Hcut & Hwhole)|(-> & Hcut & Hwhole)]];
    rewrite Hcut; try done; intros _; rewrite ?Hwhole; clear Hcut Hwhole.
  - destruct (decide (n = 0)%nat) as [->|Hn0]; cbn [written_part].
    + rewrite take_0, app_nil_r.
      destruct (open_segment Written (Restarted Written) cs (j_path j) (j_maxRecordBytes j)
                  (<[j_path j := journalFile rs]> fs) rs)
        as (j' & rec & Hopen & _ & Hinv & _ & _); [done|done|by rewrite lookup_insert_eq|done|].
      eexists _, _, _. split; [exact Hopen|]. split; [exact Hinv|].
      by erewrite readFile_segment by (rewrite ?lookup_insert_eq; (done || lia)).
    + destruct (open_torn_header (j_path j) (j_maxRecordBytes j)
                  (<[j_path j := journalFile rs ++ take n (recordBytes r)]> fs) rs r n Hp Hb
                  ltac:(by rewrite lookup_insert_eq) Hrs Hr Written (Restarted Written) cs)
        as (j' & rec & Hopen & _ & _ & Hinv & _ & _); [lia|].
      eexists _, _, _. split; [exact Hopen|]. split; [exact Hinv|].
      by erewrite readFile_segment by (rewrite ?lookup_insert_eq; (done || lia)).
  - rewrite <- journalFile_snoc.
    destruct (open_segment Written (Restarted Written) cs (j_path j) (j_maxRecordBytes j)
                (<[j_path j := journalFile (rs ++ [r])]> fs) (rs ++ [r]))
      as (j' & rec & Hopen & _ & Hinv & _ & _); [done|done|by rewrite lookup_insert_eq|done|].
    eexists _, _, _. split; [exact Hopen|]. split; [exact Hinv|].
    by erewrite readFile_segment by (rewrite ?lookup_insert_eq; (done || lia)).
  - cbn [written_part].
    destruct (open_torn_payload (j_path j) (j_maxRecordBytes j)
                (<[j_path j := journalFile rs ++ take n (recordBytes r)]> fs) rs r n Hp Hb
                ltac:(by rewrite lookup_insert_eq) Hrs Hr Written (Restarted Written) cs Hn)
      as (rec & Hopen).
    eexists _, _. split; [by rewrite Hopen; destruct cs|]. split.
    + eexists. apply (readFile_torn_payload _ _ rs r n (j_maxRecordBytes j));
        [done|lia|by rewrite lookup_insert_eq|done..].
    + intros cs'.
      destruct (open_segment Written (Restarted Written) cs' (j_path j) (j_maxRecordBytes j)
                  (<[j_path j := journalFile rs]>
                     (<[j_path j := journalFile rs ++ take n (recordBytes r)]> fs)) rs)
        as (j' & rec' & Hopen' & _ & Hinv & _ & _); [done|done|by rewrite lookup_insert_eq|done|].
      eexists _, _, _. split; [exact Hopen'|exact Hinv].
Qed.

(** A journal with one segment record and its open handle. *)
Definition example_journal : Journal := mkJournal "j" kMaxJournalRecordBytes (fromValue 1) 1.
Definition example_fs : FileSystem := {["j" := journalFile [segmentStart 1]]}.

Lemma example_inv : journal_inv example_fs example_journal [segmentStart 1].
Proof.
  split; try done. apply segmentStart_ok; vm_compute; [discriminate|done].
Qed.

(** A note appended behind the segment record: a write cut in its header, one
    cut in its payload, and a whole one. *)
Lemma append_crash_atomic_witness :
  let r := nextRecord example_journal JournalRecordType.Note [Byte.x07] in
  (∃ fs', (readFile "j" fs').2 = Ok [segmentStart 1])
  ∧ (∃ fs', (readFile "j" fs').2 = Ok [segmentStart 1; r])
  ∧ ∃ fs' recovery why,
      Journal_open Written (Restarted Written) EndsInClose "j" kMaxJournalRecordBytes
        (append (Torn 20) example_journal JournalRecordType.Note [Byte.x07] example_fs).1
      = (fs', recovery, Abort why).
Proof.
  intros r.
  assert (appendable example_journal JournalRecordType.Note [Byte.x07]) as Ha.
  { split; [|split]; vm_compute; [reflexivity|discriminate|split; [discriminate|reflexivity]]. }
  destruct (append_crash_atomic (Torn 9) EndsInClose example_fs example_journal [segmentStart 1]
              JournalRecordType.Note [Byte.x07] example_inv Ha) as [H _].
  destruct (H eq_refl) as (fs1 & _ & _ & _ & _ & Hread1).
  destruct (append_crash_atomic Written EndsInClose example_fs example_journal [segmentStart 1]
              JournalRecordType.Note [Byte.x07] example_inv Ha) as [H2 _].
  destruct (H2 eq_refl) as (fs2 & _ & _ & _ & _ & Hread2).
  destruct (append_crash_atomic (Torn 20) EndsInClose example_fs example_journal [segmentStart 1]
              JournalRecordType.Note [Byte.x07] example_inv Ha) as (_ & _ & H3).
  destruct (H3 eq_refl) as (recovery & why & Hopen & _).
  split; [exists fs1; exact Hread1|]. split; [exists fs2; exact Hread2|].
  eexists _, recovery, why. exact Hopen.
Defined.

(** Damage is never read as data: if any byte of any record behind its
    length field is changed, opening the journal fails as corrupted, changes
    no file, and the records before the damage are what was recovered. *)
Theorem damage_detected cs fs path maxRecordBytes rs r i c rest
    (Hpath : path ≠ "") (Hmax : 0 < maxRecordBytes <= kMaxJournalRecordBytes)
    (Hrs : segment_ok maxRecordBytes rs) (Hr : record_ok maxRecordBytes r)
    (Hi : (4 <= i < length (recordBytes r))%nat) (Hc : recordBytes r !! i ≠ Some c)
    (Hfile : fs !! path = Some (journalFile rs ++ <[i := c]> (recordBytes r) ++ rest)) :
  ∃ recovery e,
    Journal_open Written (Restarted Written) cs path maxRecordBytes fs = (fs, recovery, Fail e)
    ∧ code e = ErrorCode.IntegrityFailure ∧ outcome recovery = Outcome.Corrupted
    ∧ recordsRecovered recovery = zlen rs.
Proof.
  destruct (scan_file_records maxRecordBytes rs (<[i := c]> (recordBytes r) ++ rest)
              (proj2 Hmax) Hrs) as [fuel Hscan].
  destruct (scan_damaged maxRecordBytes (zlen (journalFile rs) + zlen (<[i := c]> (recordBytes r) ++ rest))
              fuel r i c rest (zlen (journalFile rs)) (chain_end None rs) (proj2 Hmax) Hr Hi Hc)
    as [why Hend].
  rewrite Hend in Hscan. unfold scan_prepend in Hscan. simpl in Hscan.
  rewrite app_nil_r in Hscan.
  pose proof (scanInto_file cs path maxRecordBytes true _ fs Hfile (journalFile_long _ _)
                (journalFile_header _ _)) as Hs.
  cbv zeta in Hs. rewrite Hscan in Hs. cbn [s_end s_records] in Hs.
  unfold Journal_open. rewrite decide_False by done.
  destruct (Z.eqb_spec maxRecordBytes 0); [lia|].
  destruct (Z.gtb_spec maxRecordBytes kMaxJournalRecordBytes); [lia|]. simpl orb. cbv iota.
  rewrite Hfile, Hs. eexists _, _. split; [done|]. by split.
Qed.

Lemma damage_detected_witness :
  ∃ recovery e,
    Journal_open Written (Restarted Written) EndsInClose "j" kMaxJournalRecordBytes
      {["j" := journalFile [] ++ <[5%nat := Byte.xff]> (recordBytes (segmentStart 1)) ++ []]}
    = ({["j" := journalFile [] ++ <[5%nat := Byte.xff]> (recordBytes (segmentStart 1)) ++ []]},
       recovery, Fail e)
    ∧ code e = ErrorCode.IntegrityFailure.
Proof.
  destruct (damage_detected EndsInClose
    {["j" := journalFile [] ++ <[5%nat := Byte.xff]> (recordBytes (segmentStart 1)) ++ []]}
    "j" kMaxJournalRecordBytes [] (segmentStart 1) 5 Byte.xff []) as (recovery & e & H & He & _).
  - discriminate.
  - vm_compute. split; [reflexivity|discriminate].
  - split; [constructor|exact I].
  - split; vm_compute; [reflexivity|split; reflexivity|discriminate].
  - vm_compute. split; repeat constructor.
  - vm_compute. discriminate.
  - reflexivity.
  - exists recovery, e. split; [exact H|exact He].
Defined.

(** Three notes behind a segment record. *)
Definition three_notes : list JournalRecord :=
  segmentStart 1 :: map (λ s, mkRecord JournalRecordType.Note (fromValue s) [Byte.x07]) [2; 3; 4].

(** The length field is outside the checksum: damage to the length of a
    record in the middle of the file reads as a torn payload, so the process
    that opens the journal ends, and may have truncated away intact records that
    follow the damage. *)
Example length_damage_truncates :
  let damaged : FileSystem := {["j" := <[61%nat := Byte.xff]> (journalFile three_notes)]} in
  ∃ fs' recovery why,
    Journal_open Written (Restarted Written) EndsInClose "j" kMaxJournalRecordBytes damaged
      = (fs', recovery, Abort why)
    ∧ outcome recovery = Outcome.TruncatedTail
    ∧ (readFile "j" fs').2 = Ok (take 2 three_notes).
Proof. eexists _, _, _. split; [vm_compute; reflexivity|]. by vm_compute. Qed.

(** A failed append poisons the file: the handle stays usable, so the next
    append succeeds behind the torn record, and the journal that holds both
    can no longer be opened. *)
Theorem append_after_failure_corrupts :
  ∃ fs1 fs2 fs3 j e1 recovery e2,
    append (Torn 9) example_journal JournalRecordType.Note [Byte.x07] example_fs = (fs1, Fail e1)
    ∧ append Written example_journal JournalRecordType.Note [Byte.x08] fs1 = (fs2, Ok j)
    ∧ Journal_open Written (Restarted Written) EndsInClose "j" kMaxJournalRecordBytes fs2
      = (fs3, recovery, Fail e2)
    ∧ outcome recovery = Outcome.Corrupted ∧ code e2 = ErrorCode.IntegrityFailure.
Proof.
  eexists _, _, _, _, _, _, _.
  split; [vm_compute; reflexivity|]. split; [vm_compute; reflexivity|].
  split; [vm_compute; reflexivity|]. by split.
Qed.
