(* ===== verification/Snapshot.v ===== *)
(** * The two-slot snapshot file

    Models [SnapshotFile] of include/cf/journal.hpp and src/journal.cpp: a
    snapshot is written into the slot that does not hold the newest valid one,
    and the newest slot whose checksums match is loaded. *)

From stdpp Require Import gmap.
From Stdlib Require Import Strings.Byte Strings.Ascii.
From S2P Require Import Prelude Result Hash Ids Files Journal.

Definition kSnapshotMagic : Z := 0x31534643.
Definition kSnapshotFormatVersion : Z := 1.
Definition kSnapshotHeaderBytes : nat := 28.
Definition kMaxSnapshotBytes : Z := 64 * 1024 * 1024.

(** The two slots. *)
Inductive Slot := SlotA | SlotB.
#[global] Instance Slot_eq_dec : EqDecision Slot.
Proof. solve_decision. Defined.
Definition slot_char (s : Slot) : string := match s with SlotA => "a" | SlotB => "b" end.

Record SnapshotOptions := mkSnapshotOptions { snap_path : string; snap_maxBytes : Z }.

Definition slotPath (o : SnapshotOptions) (s : Slot) : string := snap_path o +:+ "." +:+ slot_char s.

Record Loaded := mkLoaded { coveredSequence : Sequence; payload : list byte; slot : Slot }.

(** The 28 header bytes and the payload. *)
Definition snapshotBytes (covered : Sequence) (payload : list byte) : list byte :=
  let prefix :=
    storeLe32 kSnapshotMagic ++ storeLe16 kSnapshotFormatVersion ++ storeLe16 0
      ++ storeLe64 (value covered) ++ storeLe32 (zlen payload mod 2 ^ 32)
      ++ storeLe32 (if bool_decide (payload = []) then 0 else crc32c payload) in
  prefix ++ storeLe32 (crc32c prefix) ++ payload.

(** The checks of one slot: the note of the first one that fails, or the
    snapshot it holds. *)
Definition checkSlot (maxBytes : Z) (record : list byte) : string + (Sequence * list byte) :=
  let payloadLength := loadLe 4 16 record in
  let payload := drop kSnapshotHeaderBytes record in
  if (length record <? kSnapshotHeaderBytes)%nat then inl "short"
  else if negb (loadLe 4 0 record =? kSnapshotMagic) then inl "magic"
  else if negb (loadLe 2 4 record =? kSnapshotFormatVersion) then inl "version"
  else if negb (crc32c (take (kSnapshotHeaderBytes - 4) record)
                =? loadLe 4 (kSnapshotHeaderBytes - 4) record) then inl "header-crc"
  else if payloadLength >? maxBytes then inl "oversize"
  else if negb (zlen record =? Z.of_nat kSnapshotHeaderBytes + payloadLength) then inl "length"
  else if negb (crc32c payload =? loadLe 4 20 record) then inl "payload-crc"
  else inr (fromValue (loadLe 8 8 record), payload).

(** One iteration of the slot loop: the best snapshot so far and the notes. *)
Definition loadSlot (o : SnapshotOptions) (fs : FileSystem) (s : Slot)
    (acc : option Loaded * string) : option Loaded * string :=
  let '(best, notes) := acc in
  match (readFileBounded (slotPath o s) (snap_maxBytes o + Z.of_nat kSnapshotHeaderBytes) fs).2 with
  | Ok record =>
      match checkSlot (snap_maxBytes o) record with
      | inl note => (best, notes +:+ " slot " +:+ slot_char s +:+ "=" +:+ note)
      | inr (covered, payload) =>
          let newer := match best with
                       | None => true
                       | Some b => num_lt (coveredSequence b) covered
                       end in
          (if newer then Some (mkLoaded covered payload s) else best, notes)
      end
  | _ => acc
  end.

Definition SnapshotFile_load (o : SnapshotOptions) (fs : FileSystem) : Result Loaded * string :=
  let '(best, notes) := loadSlot o fs SlotB (loadSlot o fs SlotA (None, "")) in
  (match best with
   | None => fail ErrorCode.NotFound "no valid snapshot is present"
   | Some b => Ok b
   end, notes).

(** The slot a write goes to. *)
Definition writeSlot (o : SnapshotOptions) (fs : FileSystem) : Slot :=
  match (SnapshotFile_load o fs).1 with
  | Ok current => match slot current with SlotA => SlotB | SlotB => SlotA end
  | _ => SlotA
  end.

Definition SnapshotFile_write (faults : AtomicFaults) (suffix : list byte) (o : SnapshotOptions)
    (covered : Sequence) (payload : list byte) : IO Slot := λ fs,
  if decide (snap_path o = "")
  then (fs, fail ErrorCode.InvalidArgument "snapshot path must not be empty")
  else if zlen payload >? snap_maxBytes o
  then (fs, fail ErrorCode.OversizePayload "snapshot exceeds the configured maximum")
  else
    let target := writeSlot o fs in
    (do~ writeFileAtomic faults suffix (slotPath o target) (snapshotBytes covered payload) in
     io_ret target) fs.

(** ** Lemmas *)

Lemma slotPath_ne o s s' : s ≠ s' → slotPath o s ≠ slotPath o s'.
Proof.
  intros Hs E. apply string_app_inj_l in E. destruct s, s'; try done; discriminate E.
Qed.

Lemma temp_not_slot o s s' suffix : tempSiblingPath suffix (slotPath o s) ≠ slotPath o s'.
Proof.
  unfold tempSiblingPath. intros E. apply (f_equal slen) in E.
  rewrite !slen_append in E. change (slen ".part-") with 6 in E.
  assert (slen (slotPath o s) = slen (slotPath o s')) as Hs.
  { unfold slotPath. rewrite !slen_append. by destruct s, s'. }
  unfold slen in *. lia.
Qed.

(** Several header fields at once. *)
Lemma loadLe_fields n off a x b :
  length a = off → length x = n → loadLe n off (a ++ x ++ b) = le_load x.
Proof. apply loadLe_app. Qed.

Section snapshot_fields.
Context (covered : Sequence) (p : list byte).
Context (Hc : fits 64 (value covered)) (Hp : fits 32 (zlen p)).

Lemma crc32c_nil_eq : (if bool_decide (p = []) then 0 else crc32c p) = crc32c p.
Proof. destruct p; done. Qed.

Lemma checkSlot_snapshot maxBytes :
  zlen p <= maxBytes → checkSlot maxBytes (snapshotBytes covered p) = inr (covered, p).
Proof using Hc Hp.
  intros Hmax. unfold snapshotBytes, storeLe16, storeLe32, storeLe64. rewrite crc32c_nil_eq.
  rewrite Z.mod_small by apply Hp.
  set (M := le_bytes 4 kSnapshotMagic). set (V := le_bytes 2 kSnapshotFormatVersion).
  set (R := le_bytes 2 0). set (C := le_bytes 8 _). set (N := le_bytes 4 (zlen p)).
  set (K := le_bytes 4 (crc32c p)). set (prefix := M ++ V ++ R ++ C ++ N ++ K).
  set (H := le_bytes 4 (crc32c prefix)).
  assert (length M = 4 ∧ length V = 2 ∧ length R = 2 ∧ length C = 8 ∧ length N = 4
          ∧ length K = 4 ∧ length H = 4)%nat as (HM & HV & HR & HC & HN & HK & HH)
    by (repeat split; apply length_le_bytes).
  assert (length prefix = 24%nat) as Hpre by (unfold prefix; rewrite !length_app; lia).
  assert (prefix ++ H ++ p = M ++ V ++ R ++ C ++ N ++ K ++ H ++ p) as E
    by (unfold prefix; by rewrite <- !app_assoc).
  unfold checkSlot. unfold kSnapshotHeaderBytes.
  assert (loadLe 4 16 (prefix ++ H ++ p) = zlen p) as ->.
  { rewrite E, (app_assoc M), (app_assoc (M ++ V)), (app_assoc ((M ++ V) ++ R)).
    rewrite loadLe_app by (rewrite ?length_app; lia). by apply le_load_bytes_fits. }
  assert (loadLe 4 0 (prefix ++ H ++ p) = kSnapshotMagic) as ->.
  { rewrite E. rewrite <- (app_nil_l (M ++ _)), loadLe_app by done.
    apply le_load_bytes_fits. unfold fits, kSnapshotMagic. lia. }
  assert (loadLe 2 4 (prefix ++ H ++ p) = kSnapshotFormatVersion) as ->.
  { rewrite E, loadLe_app by lia. apply le_load_bytes_fits.
    unfold fits, kSnapshotFormatVersion. lia. }
  assert (loadLe 4 (28 - 4) (prefix ++ H ++ p) = crc32c prefix) as ->.
  { rewrite loadLe_app by lia. apply le_load_bytes_fits, crc32c_fits. }
  assert (loadLe 4 20 (prefix ++ H ++ p) = crc32c p) as ->.
  { rewrite E, (app_assoc M), (app_assoc (M ++ V)), (app_assoc ((M ++ V) ++ R)),
      (app_assoc (((M ++ V) ++ R) ++ C)), loadLe_app by (rewrite ?length_app; lia).
    apply le_load_bytes_fits, crc32c_fits. }
  assert (loadLe 8 8 (prefix ++ H ++ p) = value covered) as ->.
  { rewrite E, (app_assoc M), (app_assoc (M ++ V)), loadLe_app by (rewrite ?length_app; lia).
    by apply le_load_bytes_fits. }
  assert (take (28 - 4) (prefix ++ H ++ p) = prefix) as -> by (by apply take_app_length').
  assert (drop 28 (prefix ++ H ++ p) = p) as ->.
  { rewrite app_assoc. apply drop_app_length'. rewrite length_app. lia. }
  rewrite !Z.eqb_refl, !zlen_app. rewrite !length_app.
  destruct (Nat.ltb_spec (length prefix + (length H + length p)) 28); [lia|]. cbn [negb].
  destruct (Z.gtb_spec (zlen p) maxBytes); [lia|].
  destruct (Z.eqb_spec (zlen prefix + (zlen H + zlen p)) (Z.of_nat 28 + zlen p)).
  - cbn [negb]. by destruct covered.
  - unfold zlen in *. lia.
Qed.
End snapshot_fields.

(** What a slot validly holds. *)
Definition slotContent (o : SnapshotOptions) (fs : FileSystem) (s : Slot)
    : option (Sequence * list byte) :=
  match fs !! slotPath o s with
  | None => None
  | Some record =>
      if zlen record >? snap_maxBytes o + Z.of_nat kSnapshotHeaderBytes then None
      else match checkSlot (snap_maxBytes o) record with inl _ => None | inr c => Some c end
  end.

Definition asLoaded (s : Slot) (c : Sequence * list byte) : Loaded := mkLoaded c.1 c.2 s.

(** The newest of two contents; the first slot wins a tie. *)
Definition newest (a b : option (Sequence * list byte)) : option Loaded :=
  match a, b with
  | None, None => None
  | Some a, None => Some (asLoaded SlotA a)
  | None, Some b => Some (asLoaded SlotB b)
  | Some a, Some b =>
      if num_lt a.1 b.1 then Some (asLoaded SlotB b) else Some (asLoaded SlotA a)
  end.

Lemma loadSlot_content o fs s best notes :
  (loadSlot o fs s (best, notes)).1 =
  match slotContent o fs s with
  | None => best
  | Some c =>
      if match best with None => true | Some b => num_lt (coveredSequence b) c.1 end
      then Some (asLoaded s c) else best
  end.
Proof.
  unfold loadSlot, readFileBounded, slotContent. cbn [snd].
  destruct (fs !! slotPath o s) as [record|]; [|done].
  destruct (zlen record >? _); [done|]. by destruct (checkSlot _ record) as [|[]].
Qed.

Lemma load_newest o fs :
  (SnapshotFile_load o fs).1 =
  match newest (slotContent o fs SlotA) (slotContent o fs SlotB) with
  | None => fail ErrorCode.NotFound "no valid snapshot is present"
  | Some b => Ok b
  end.
Proof.
  unfold SnapshotFile_load.
  destruct (loadSlot o fs SlotA (None, "")) as [best notes] eqn:EA.
  pose proof (loadSlot_content o fs SlotA None "") as HA. rewrite EA in HA. cbn [fst] in HA.
  pose proof (loadSlot_content o fs SlotB best notes) as HB.
  destruct (loadSlot o fs SlotB (best, notes)) as [best' notes']. cbn [fst] in HB |- *. subst.
  destruct (slotContent o fs SlotA), (slotContent o fs SlotB); simpl; by try case_match.
Qed.

Lemma writeSlot_spec o fs :
  writeSlot o fs =
  match newest (slotContent o fs SlotA) (slotContent o fs SlotB) with
  | Some b => match slot b with SlotA => SlotB | SlotB => SlotA end
  | None => SlotA
  end.
Proof. unfold writeSlot. rewrite load_newest. by destruct (newest _ _). Qed.

Lemma slotContent_lookup o fs fs' s :
  fs' !! slotPath o s = fs !! slotPath o s → slotContent o fs' s = slotContent o fs s.
Proof. unfold slotContent. by intros ->. Qed.

Lemma zlen_snapshotBytes c p : zlen (snapshotBytes c p) = Z.of_nat kSnapshotHeaderBytes + zlen p.
Proof.
  unfold snapshotBytes, storeLe16, storeLe32, storeLe64.
  rewrite !zlen_app, !zlen_le_bytes. change (Z.of_nat kSnapshotHeaderBytes) with 28. lia.
Qed.

Section write.
Context (o : SnapshotOptions) (fs : FileSystem) (covered : Sequence) (p : list byte).
Context (Hcovered : fits 64 (value covered)).
Context (Hsize : zlen p <= snap_maxBytes o) (Hbound : snap_maxBytes o <= kMaxSnapshotBytes).

Lemma payload_fits_32 : fits 32 (zlen p).
Proof using Hsize Hbound.
  unfold fits, kMaxSnapshotBytes in *. pose proof (zlen_nonneg p). lia.
Qed.

(** The target slot holds the new snapshot, the other slot is as it was. *)
Lemma load_after_write fs' :
  fs' !! slotPath o (writeSlot o fs) = Some (snapshotBytes covered p) →
  (∀ s, s ≠ writeSlot o fs → fs' !! slotPath o s = fs !! slotPath o s) →
  (∀ old, (SnapshotFile_load o fs).1 = Ok old → value (coveredSequence old) < value covered) →
  (SnapshotFile_load o fs').1 = Ok (mkLoaded covered p (writeSlot o fs)).
Proof using Hcovered Hsize Hbound.
  intros Hnew Hother Hlt. rewrite load_newest in Hlt |- *.
  assert (slotContent o fs' (writeSlot o fs) = Some (covered, p)) as Hc.
  { unfold slotContent. rewrite Hnew, zlen_snapshotBytes.
    destruct (Z.gtb_spec (Z.of_nat kSnapshotHeaderBytes + zlen p)
                (snap_maxBytes o + Z.of_nat kSnapshotHeaderBytes)); [lia|].
    by rewrite checkSlot_snapshot by (done || apply payload_fits_32). }
  assert (∀ s, s ≠ writeSlot o fs → slotContent o fs' s = slotContent o fs s) as Hs
    by (intros; by apply slotContent_lookup, Hother).
  rewrite writeSlot_spec in *. clear Hnew Hother.
  destruct (slotContent o fs SlotA) as [[ca pa]|] eqn:EA,
           (slotContent o fs SlotB) as [[cb pb]|] eqn:EB;
    cbn -[num_lt] in *; try destruct (num_lt ca cb) eqn:Elt; cbn -[num_lt] in *;
    rewrite Hc; specialize (Hs SlotA) as HA; specialize (Hs SlotB) as HB; clear Hs;
    try rewrite HA by done; try rewrite HB by done; rewrite ?EA, ?EB; cbn -[num_lt];
    try done; specialize (Hlt _ eq_refl); cbn in Hlt; unfold num_lt in *; simpl.
  all: repeat match goal with
       | |- context [?x <? ?y] => destruct (Z.ltb_spec x y)
       end; try done; lia.
Qed.

(** With a covered sequence that is not below what was loaded before, the
    new snapshot is loaded, or the old one with the same covered sequence. *)
Lemma load_after_write_le fs' :
  fs' !! slotPath o (writeSlot o fs) = Some (snapshotBytes covered p) →
  (∀ s, s ≠ writeSlot o fs → fs' !! slotPath o s = fs !! slotPath o s) →
  (∀ old, (SnapshotFile_load o fs).1 = Ok old → value (coveredSequence old) <= value covered) →
  (SnapshotFile_load o fs').1 = Ok (mkLoaded covered p (writeSlot o fs))
  ∨ ∃ old, (SnapshotFile_load o fs).1 = Ok old ∧ (SnapshotFile_load o fs').1 = Ok old
           ∧ value (coveredSequence old) = value covered.
Proof using Hcovered Hsize Hbound.
  intros Hnew Hother Hle. rewrite load_newest in Hle |- *. rewrite load_newest.
  assert (slotContent o fs' (writeSlot o fs) = Some (covered, p)) as Hc.
  { unfold slotContent. rewrite Hnew, zlen_snapshotBytes.
    destruct (Z.gtb_spec (Z.of_nat kSnapshotHeaderBytes + zlen p)
                (snap_maxBytes o + Z.of_nat kSnapshotHeaderBytes)); [lia|].
    by rewrite checkSlot_snapshot by (done || apply payload_fits_32). }
  assert (∀ s, s ≠ writeSlot o fs → slotContent o fs' s = slotContent o fs s) as Hs
    by (intros; by apply slotContent_lookup, Hother).
  rewrite writeSlot_spec in *. clear Hnew Hother.
  destruct (slotContent o fs SlotA) as [[ca pa]|] eqn:EA,
           (slotContent o fs SlotB) as [[cb pb]|] eqn:EB;
    cbn -[num_lt] in *; try destruct (num_lt ca cb) eqn:Elt; cbn -[num_lt] in *;
    rewrite Hc; specialize (Hs SlotA) as HA; specialize (Hs SlotB) as HB; clear Hs;
    try rewrite HA by done; try rewrite HB by done; rewrite ?EA, ?EB; cbn -[num_lt];
    try (by left); specialize (Hle _ eq_refl); cbn in Hle.
  all: unfold num_lt in *; simpl in *;
    try (match goal with |- context [?x <? ?y] => destruct (Z.ltb_spec x y) end);
    first [by left | lia | right; eexists; split; [done|]; split; [done|]; simpl; lia].
Qed.

(** Whatever happened to the target slot's file, the newest snapshot that
    could be loaded before is still loaded. *)
Lemma load_after_damage fs' :
  (∀ s, s ≠ writeSlot o fs → fs' !! slotPath o s = fs !! slotPath o s) →
  fs' !! slotPath o (writeSlot o fs) = None
  ∨ fs' !! slotPath o (writeSlot o fs) = fs !! slotPath o (writeSlot o fs) →
  (SnapshotFile_load o fs').1 = (SnapshotFile_load o fs).1.
Proof.
  intros Hother Htarget.
  assert (∀ s, s ≠ writeSlot o fs → slotContent o fs' s = slotContent o fs s) as Hs
    by (intros; by apply slotContent_lookup, Hother).
  assert (slotContent o fs' (writeSlot o fs) = None
          ∨ slotContent o fs' (writeSlot o fs) = slotContent o fs (writeSlot o fs)) as Ht.
  { destruct Htarget as [H|H]; [left; unfold slotContent; by rewrite H|].
    right. by apply slotContent_lookup. }
  rewrite writeSlot_spec in *. rewrite !load_newest. clear Hother Htarget.
  destruct (slotContent o fs SlotA) as [[ca pa]|] eqn:EA,
           (slotContent o fs SlotB) as [[cb pb]|] eqn:EB;
    cbn -[num_lt] in *; try destruct (num_lt ca cb) eqn:Elt; cbn -[num_lt] in *;
    specialize (Hs SlotA) as HA; specialize (Hs SlotB) as HB; clear Hs;
    destruct Ht as [Ht|Ht]; rewrite Ht; try rewrite HA by done; try rewrite HB by done;
    rewrite ?EA, ?EB; cbn -[num_lt]; by rewrite ?Elt.
Qed.
End write.

(** ** Properties *)

Lemma SnapshotFile_write_run faults suffix o covered p fs :
  snap_path o ≠ "" → zlen p <= snap_maxBytes o →
  SnapshotFile_write faults suffix o covered p fs =
  (let '(fs', r) := writeFileAtomic faults suffix (slotPath o (writeSlot o fs))
                      (snapshotBytes covered p) fs in
   (fs', let* _ := r in Ok (writeSlot o fs))).
Proof.
  intros Hp Hs. unfold SnapshotFile_write. rewrite decide_False by done.
  destruct (Z.gtb_spec (zlen p) (snap_maxBytes o)); [lia|]. unfold io_bind.
  by destruct (writeFileAtomic _ _ _ _ fs) as [fs' [[]| |]].
Qed.

(** The snapshot in force in [fs'] is the one just written over [fs], or an
    earlier one that covers as much. *)
Definition snapshot_taken (o : SnapshotOptions) (fs fs' : FileSystem) (covered : Sequence)
    (p : list byte) : Prop :=
  (SnapshotFile_load o fs').1 = Ok (mkLoaded covered p (writeSlot o fs))
  ∨ ∃ old, (SnapshotFile_load o fs).1 = Ok old ∧ (SnapshotFile_load o fs').1 = Ok old
           ∧ value (coveredSequence old) = value covered.

Section outcomes.
Context (o : SnapshotOptions) (fs : FileSystem) (covered : Sequence) (p : list byte).
Context (suffix : list byte).
Context (Hpath : snap_path o ≠ "") (Hcovered : fits 64 (value covered)).
Context (Hbound : snap_maxBytes o <= kMaxSnapshotBytes).
Context (Hle : ∀ old, (SnapshotFile_load o fs).1 = Ok old →
           value (coveredSequence old) <= value covered).

Lemma taken_intro fs' :
  zlen p <= snap_maxBytes o →
  fs' !! slotPath o (writeSlot o fs) = Some (snapshotBytes covered p) →
  (∀ s, s ≠ writeSlot o fs → fs' !! slotPath o s = fs !! slotPath o s) →
  snapshot_taken o fs fs' covered p.
Proof using Hcovered Hbound Hle.
  intros Hsize Hnew Hother.
  exact (load_after_write_le o fs covered p Hcovered Hsize Hbound fs' Hnew Hother Hle).
Qed.

(** A write that returns. *)
Lemma write_outcome faults fs' r :
  SnapshotFile_write faults suffix o covered p fs = (fs', r) →
  match r with
  | Ok _ => snapshot_taken o fs fs' covered p
  | Fail _ => (SnapshotFile_load o fs').1 = (SnapshotFile_load o fs).1
  | Abort _ => False
  end
  ∧ ∀ q, (∀ s, q ≠ slotPath o s) → (∀ s, q ≠ tempSiblingPath suffix (slotPath o s)) →
      fs' !! q = fs !! q.
Proof using Hpath Hcovered Hbound Hle.
  destruct (Z.leb_spec (zlen p) (snap_maxBytes o)) as [Hsize|Hsize].
  - rewrite SnapshotFile_write_run by done. intros Hrun.
    pose proof (writeFileAtomic_cases faults suffix (slotPath o (writeSlot o fs))
                  (snapshotBytes covered p) fs) as Hspec. cbv zeta in Hspec.
    destruct (writeFileAtomic _ _ _ _ fs) as [fs2 w] eqn:Ew. destruct Hspec as [Hres Hother].
    assert (∀ s, s ≠ writeSlot o fs → fs2 !! slotPath o s = fs !! slotPath o s) as Hslot.
    { intros s Hs. apply Hother; [by apply slotPath_ne|].
      intros E. by apply (temp_not_slot o (writeSlot o fs) s suffix). }
    destruct w as [[]|e|]; simplify_eq/=; (split; [|by intros q Hq1 Hq2; apply Hother]).
    + apply taken_intro; [done|apply Hres|done].
    + apply load_after_damage; [done|]. destruct Hres as [H|(_ & H & _)]; [by right|by left].
  - unfold SnapshotFile_write. rewrite decide_False by done.
    destruct (Z.gtb_spec (zlen p) (snap_maxBytes o)); [|lia]. by intros [= <- <-].
Qed.

(** A write the process does not survive. *)
Lemma write_crash fs' :
  zlen p <= snap_maxBytes o →
  writeFileAtomic_crash suffix (slotPath o (writeSlot o fs)) (snapshotBytes covered p) fs fs' →
  ((SnapshotFile_load o fs').1 = (SnapshotFile_load o fs).1
   ∨ snapshot_taken o fs fs' covered p)
  ∧ ∀ q, (∀ s, q ≠ slotPath o s) → (∀ s, q ≠ tempSiblingPath suffix (slotPath o s)) →
      fs' !! q = fs !! q.
Proof using Hpath Hcovered Hbound Hle.
  intros Hsize Hcrash.
  assert (∀ s, slotPath o s ≠ tempSiblingPath suffix (slotPath o (writeSlot o fs))) as Htemp
    by (intros s E; by apply (temp_not_slot o (writeSlot o fs) s suffix)).
  split.
  - destruct Hcrash as [|n| |].
    + by left.
    + left. apply load_after_damage; [intros s _|right]; by rewrite lookup_insert_ne by (by symmetry).
    + right. apply taken_intro; [done|by rewrite lookup_insert_eq|].
      intros s Hs. by rewrite lookup_insert_ne by (by apply slotPath_ne).
    + left. apply load_after_damage; [intros s Hs|left].
      * rewrite lookup_insert_ne by (by symmetry). rewrite lookup_delete_ne; [done|].
        by apply slotPath_ne.
      * rewrite lookup_insert_ne by (by symmetry). by rewrite lookup_delete_eq.
  - intros q Hq1 Hq2. destruct Hcrash; rewrite ?lookup_insert_ne by (by symmetry);
      rewrite ?lookup_delete_ne by (by symmetry); done.
Qed.
End outcomes.

(** A snapshot that was written is the snapshot that is loaded: after a
    write that reports success, with a covered sequence above what was loaded
    before, loading returns exactly the covered sequence and payload written,
    from the slot the write reported. *)
Theorem snapshot_write_load faults suffix o covered p fs fs' s
    (Hpath : snap_path o ≠ "") (Hcovered : fits 64 (value covered))
    (Hsize : zlen p <= snap_maxBytes o) (Hbound : snap_maxBytes o <= kMaxSnapshotBytes)
    (Hnewer : ∀ old, (SnapshotFile_load o fs).1 = Ok old →
                value (coveredSequence old) < value covered)
    (Hrun : SnapshotFile_write faults suffix o covered p fs = (fs', Ok s)) :
  (SnapshotFile_load o fs').1 = Ok (mkLoaded covered p s).
Proof.
  rewrite SnapshotFile_write_run in Hrun by done.
  destruct (writeFileAtomic _ _ _ _ fs) as [fs2 [[]|e|w]] eqn:E; simplify_eq/=.
  pose proof E as Eother. apply writeFileAtomic_Ok in E as ->.
  apply load_after_write; try done.
  - by rewrite lookup_insert_eq.
  - intros s Hs. rewrite lookup_insert_ne by (by apply slotPath_ne).
    rewrite lookup_delete_ne; [done|]. intros Ht. by apply (temp_not_slot o (writeSlot o fs) s suffix).
Qed.

Lemma snapshot_write_load_witness :
  ∃ fs', (SnapshotFile_load (mkSnapshotOptions "state" 1024) fs').1
         = Ok (mkLoaded (fromValue 7) [Byte.x01; Byte.x02] SlotA).
Proof.
  exists (SnapshotFile_write no_faults [] (mkSnapshotOptions "state" 1024) (fromValue 7)
            [Byte.x01; Byte.x02] ∅).1.
  apply (snapshot_write_load no_faults [] (mkSnapshotOptions "state" 1024) (fromValue 7)
           [Byte.x01; Byte.x02] ∅ _ SlotA).
  - discriminate.
  - split; vm_compute; [discriminate|reflexivity].
  - vm_compute. discriminate.
  - vm_compute. discriminate.
  - vm_compute. discriminate.
  - vm_compute. reflexivity.
Defined.


Definition snapshot_example_fs : FileSystem :=
  {["state.a" := snapshotBytes (fromValue 3) [Byte.x09]]}.

