(* ===== verification/Artifact.v ===== *)
(** * Artifact metadata

    Models the metadata record of include/cf/artifact.hpp and
    src/artifact.cpp: its rendering and its versioned, checksummed encoding. *)

From Stdlib Require Import Strings.Byte.
From S2P Require Import Prelude Result Hash Ids Codec Journal.

Definition kArtifactMetadataFormatVersion : Z := 1.
Definition kMetadataMagic : Z := 0x4D414643.
Definition kMaxMediaTypeBytes : Z := 64.
Definition kMaxProducerBytes : Z := 128.

Record ArtifactMetadata := mkArtifactMetadata {
  md_id : ArtifactId;
  md_revision : Revision;
  md_schema : SchemaId;
  md_schemaVersion : SchemaVersion;
  md_digest : Digest;
  md_sizeBytes : Z;
  md_mediaType : string;
  md_producer : string;
  md_producedAtMillis : Z;
  md_storedAtMillis : Z;
}.
#[global] Instance ArtifactMetadata_eq_dec : EqDecision ArtifactMetadata.
Proof. solve_decision. Defined.

Definition renderArtifactMetadata (m : ArtifactMetadata) : string :=
  str (md_id m)
    +:+ " rev=" +:+ to_string (value (md_revision m))
    +:+ " gen-digest=" +:+ shortDigest (md_digest m)
    +:+ " size=" +:+ to_string (md_sizeBytes m)
    +:+ " schema=" +:+ str (md_schema m)
    +:+ " schema-version=" +:+ to_string (value (md_schemaVersion m))
    +:+ " media-type=" +:+ (if decide (md_mediaType m = "") then "-" else md_mediaType m)
    +:+ " producer=" +:+ (if decide (md_producer m = "") then "-" else md_producer m).

(** ** Encoding *)

(** A schema version is a 32-bit strong integer. *)
Definition write_num32 {Tag} (n : StrongUint Tag) : Writer := Write.u32 (value n).
Definition read_num32 {Tag} : Parser (StrongUint Tag) := let! v := Read.u32 in p_ret (fromValue v).
#[global] Instance num32_wire Tag :
  Wire write_num32 read_num32 (λ n : StrongUint Tag, fits 32 (value n)).
Proof. apply (wire_map Write.u32 Read.u32 (fits 32) fromValue value); [apply _|by intros []|by intros ?]. Qed.

(** Everything before the trailing checksum. *)
Definition writeMetadataBody (m : ArtifactMetadata) : Writer :=
  Write.u32 kMetadataMagic
    +++ Write.u16 kArtifactMetadataFormatVersion
    +++ write_id (md_id m)
    +++ Write.num (md_revision m)
    +++ write_id (md_schema m)
    +++ write_num32 (md_schemaVersion m)
    +++ Write.digest (md_digest m)
    +++ Write.u64 (md_sizeBytes m)
    +++ Write.string kMaxMediaTypeBytes (md_mediaType m)
    +++ Write.string kMaxProducerBytes (md_producer m)
    +++ Write.i64 (md_producedAtMillis m)
    +++ Write.i64 (md_storedAtMillis m).

Definition encodeArtifactMetadata (m : ArtifactMetadata) : Writer :=
  if (slen (str (md_id m)) >? kMaxIdentifierLength)
     || (slen (str (md_schema m)) >? kMaxIdentifierLength)
     || (slen (md_mediaType m) >? kMaxMediaTypeBytes)
     || (slen (md_producer m) >? kMaxProducerBytes)
  then fail ErrorCode.LimitExceeded "artifact metadata field exceeds its bound"
  else
    let* body := writeMetadataBody m in
    let* crc := Write.u32 (crc32c body) in
    Ok (body ++ crc).

Definition readMetadataBody : Parser ArtifactMetadata :=
  let! magic := Read.u32 in
  do! p_require (magic =? kMetadataMagic) ErrorCode.MalformedInput
        "artifact metadata magic does not match" in
  let! version := Read.u16 in
  do! p_require_detail (version =? kArtifactMetadataFormatVersion) ErrorCode.UnsupportedVersion
        "artifact metadata format version is not supported" (to_string version) in
  let! id := read_id "artifact id" in
  let! revision := Read.num in
  let! schema := read_id "schema id" in
  let! schemaVersion := read_num32 in
  let! digest := Read.digest in
  let! size := Read.u64 in
  let! mediaType := Read.string kMaxMediaTypeBytes in
  let! producer := Read.string kMaxProducerBytes in
  let! producedAtMillis := Read.i64 in
  let! storedAtMillis := Read.i64 in
  p_ret (mkArtifactMetadata id revision schema schemaVersion digest size mediaType producer
           producedAtMillis storedAtMillis).

Definition decodeArtifactMetadata (record : list byte) : Result ArtifactMetadata :=
  if (length record <? 6)%nat
  then fail ErrorCode.TruncatedFrame "artifact metadata record is too short"
  else
    let body := take (length record - 4) record in
    let storedCrc := le_load (drop (length record - 4) record) in
    if negb (crc32c body =? storedCrc)
    then fail ErrorCode.IntegrityFailure "artifact metadata record failed its checksum"
    else decode_all readMetadataBody body.

(** ** The contract *)

Record metadata_wf (m : ArtifactMetadata) : Prop := {
  mwf_id : id_valid (md_id m);
  mwf_revision : fits 64 (value (md_revision m));
  mwf_schema : id_valid (md_schema m);
  mwf_schemaVersion : fits 32 (value (md_schemaVersion m));
  mwf_digest : digest_wf (md_digest m);
  mwf_size : fits 64 (md_sizeBytes m);
  mwf_mediaType : text_fits kMaxMediaTypeBytes (md_mediaType m);
  mwf_producer : text_fits kMaxProducerBytes (md_producer m);
  mwf_produced : fits_i64 (md_producedAtMillis m);
  mwf_stored : fits_i64 (md_storedAtMillis m);
}.

#[global] Instance metadata_body_wire : Wire writeMetadataBody readMetadataBody metadata_wf.
Proof.
  split.
  - intros [] []. unfold writeMetadataBody, readMetadataBody. simpl in *.
    repeat reads_step.
  - intros r m r' H. unfold readMetadataBody in H. inv_wire.
    split; [by constructor|]. unfold writeMetadataBody. simpl.
    repeat match goal with H : (_ =? _) = true |- _ => apply Z.eqb_eq in H; subst end.
    solve_emits.
Qed.

Lemma encodeArtifactMetadata_wf m body :
  metadata_wf m → writeMetadataBody m = Ok body →
  encodeArtifactMetadata m = Ok (body ++ le_bytes 4 (crc32c body)).
Proof.
  intros Hm Hb. unfold encodeArtifactMetadata.
  destruct Hm as [Hid _ Hschema _ _ _ [Hmedia _] [Hprod _] _ _].
  apply valid_text_fits in Hid as [Hid _], Hschema as [Hschema _].
  repeat match goal with |- context [?a >? ?b] => destruct (Z.gtb_spec a b); [lia|] end.
  simpl. by rewrite Hb.
Qed.

(** A record with its checksum splits where it was joined. *)
Lemma decodeArtifactMetadata_split body crc :
  length crc = 4%nat → (2 <= length body)%nat →
  decodeArtifactMetadata (body ++ crc) =
  if negb (crc32c body =? le_load crc)
  then fail ErrorCode.IntegrityFailure "artifact metadata record failed its checksum"
  else decode_all readMetadataBody body.
Proof.
  intros Hc Hb. unfold decodeArtifactMetadata.
  assert (length (body ++ crc) - 4 = length body)%nat as -> by (rewrite length_app; lia).
  rewrite take_app_length, drop_app_length, length_app.
  destruct (Nat.ltb_spec (length body + length crc) 6); [lia|done].
Qed.

Lemma metadata_body_long m body : writeMetadataBody m = Ok body → (2 <= length body)%nat.
Proof.
  unfold writeMetadataBody, w_append at 1. intros H. inv_try.
  injection H as <-. rewrite length_app, length_le_bytes. lia.
Qed.

Lemma artifact_metadata_ok m :
  metadata_wf m → ∃ bs, encodeArtifactMetadata m = Ok bs ∧ decodeArtifactMetadata bs = Ok m.
Proof.
  intros Hm.
  destruct (encode_Ok writeMetadataBody readMetadataBody metadata_wf m Hm) as [body Hb].
  exists (body ++ le_bytes 4 (crc32c body)). split; [by apply encodeArtifactMetadata_wf|].
  rewrite decodeArtifactMetadata_split by (apply length_le_bytes || by eapply metadata_body_long).
  rewrite le_load_bytes_fits by apply crc32c_fits. rewrite Z.eqb_refl. simpl negb. cbv iota.
  by apply (decode_encode writeMetadataBody readMetadataBody metadata_wf).
Qed.

Lemma artifact_metadata_accepts bs m :
  decodeArtifactMetadata bs = Ok m → metadata_wf m ∧ encodeArtifactMetadata m = Ok bs.
Proof.
  intros H. unfold decodeArtifactMetadata in H.
  destruct (Nat.ltb_spec (length bs) 6); [done|].
  destruct (crc32c _ =? _) eqn:Hcrc; [|done]. simpl in H. apply Z.eqb_eq in Hcrc.
  apply (decode_canonical writeMetadataBody readMetadataBody metadata_wf) in H as [Hm Hb].
  split; [done|]. rewrite (encodeArtifactMetadata_wf _ _ Hm Hb). f_equal.
  rewrite Hcrc, le_bytes_load by (rewrite length_drop; lia). apply take_drop.
Qed.

(** ** Properties *)

(** Metadata round trip: every well-formed metadata record encodes, and
    decoding the record gives the metadata back. *)
Theorem artifact_metadata_roundtrip m (Hm : metadata_wf m) :
  ∃ bs, encodeArtifactMetadata m = Ok bs ∧ decodeArtifactMetadata bs = Ok m.
Proof. by apply artifact_metadata_ok. Qed.

Definition example_metadata : ArtifactMetadata :=
  mkArtifactMetadata (mkString "artifact-1") (fromValue 3) (mkString "schema/v1") (fromValue 1)
    (fromBytes (repeat Byte.x05 32)) 17 "text/plain" "" (-5) 1700000000000.

Lemma example_metadata_wf : metadata_wf example_metadata.
Proof.
  split; try reflexivity; split; vm_compute; first [reflexivity | discriminate].
Qed.

Lemma artifact_metadata_roundtrip_witness :
  ∃ bs, encodeArtifactMetadata example_metadata = Ok bs
        ∧ decodeArtifactMetadata bs = Ok example_metadata.
Proof. apply (artifact_metadata_roundtrip example_metadata), example_metadata_wf. Defined.

(** Nothing else decodes: metadata accepted from any byte string is well
    formed and its encoding is that very byte string, so identifiers are
    valid, text is bounded and no two encodings denote the same metadata. *)
Theorem artifact_metadata_canonical bs m (H : decodeArtifactMetadata bs = Ok m) :
  metadata_wf m ∧ encodeArtifactMetadata m = Ok bs.
Proof. by apply artifact_metadata_accepts. Qed.

Lemma artifact_metadata_canonical_witness : metadata_wf example_metadata.
Proof.
  destruct (encodeArtifactMetadata example_metadata) as [bs|e|w] eqn:E; [|discriminate E..].
  refine (proj1 (artifact_metadata_canonical bs example_metadata _)).
  injection E as <-. vm_compute. reflexivity.
Defined.

(** A metadata file with any single byte changed is refused as an
    integrity failure; it is never read as other metadata. *)
Theorem artifact_metadata_corruption m bs i c
    (Hm : metadata_wf m) (Henc : encodeArtifactMetadata m = Ok bs)
    (Hi : (i < length bs)%nat) (Hc : bs !! i ≠ Some c) :
  decodeArtifactMetadata (<[i := c]> bs)
  = fail ErrorCode.IntegrityFailure "artifact metadata record failed its checksum".
Proof.
  destruct (encode_Ok writeMetadataBody readMetadataBody metadata_wf m Hm) as [body Hb].
  rewrite (encodeArtifactMetadata_wf _ _ Hm Hb) in Henc. injection Henc as <-.
  pose proof (metadata_body_long _ _ Hb) as Hlong.
  pose proof (length_le_bytes 4 (crc32c body)) as Hlen.
  destruct (decide (i < length body)%nat) as [Hlt|Hge].
  - rewrite insert_app_l by done. rewrite lookup_app_l in Hc by done.
    rewrite decodeArtifactMetadata_split by (rewrite ?length_insert; done).
    rewrite le_load_bytes_fits by apply crc32c_fits.
    destruct (insert_differs _ _ _ Hlt Hc) as (pre & b & post & Hpre & -> & Hne).
    rewrite (proj2 (Z.eqb_neq _ _)); [done|]. rewrite Hpre.
    apply not_eq_sym. by apply crc32c_single_byte.
  - rewrite insert_app_r_alt by lia. rewrite lookup_app_r in Hc by lia.
    rewrite decodeArtifactMetadata_split by (rewrite ?length_insert; done).
    rewrite (proj2 (Z.eqb_neq _ _)); [done|]. intros E. rewrite length_app in Hi.
    apply (f_equal (le_bytes 4)) in E. rewrite le_bytes_load in E by (by rewrite length_insert).
    rewrite E, list_lookup_insert_eq in Hc by (rewrite ?length_insert; lia). done.
Qed.

Lemma artifact_metadata_corruption_witness :
  ∃ bs, encodeArtifactMetadata example_metadata = Ok bs
    ∧ decodeArtifactMetadata (<[9%nat := Byte.xff]> bs)
      = fail ErrorCode.IntegrityFailure "artifact metadata record failed its checksum".
Proof.
  destruct (encodeArtifactMetadata example_metadata) as [bs|e|w] eqn:E; [|discriminate E..].
  exists bs. split; [reflexivity|].
  apply (artifact_metadata_corruption example_metadata bs 9 Byte.xff example_metadata_wf E).
  - injection E as <-. apply Nat.ltb_lt. vm_compute. reflexivity.
  - injection E as <-. vm_compute. discriminate.
Defined.
