(* ===== verification/ArtifactStore.v ===== *)
(** * The artifact store

    Models [ArtifactStore] and [ArtifactReader] of include/cf/artifact.hpp and
    src/artifact.cpp: the index, publication, ingestion from memory and from a
    file, verification with quarantine, garbage collection, opening with the
    removal of partial publishes, and the reader that verifies the digest of
    what it delivers in order. Operating-system failures are arguments.

    An operation is one step: the model is of operations that do not overlap.
    [publish] takes the mutex twice, for the check of the budgets and for the
    insertion into the index, and verification takes it only to quarantine, so
    operations of two threads can overlap in the program; the two critical
    sections of a publication are [budget] and [record_artifact], and
    [overlapping_publications_exceed_budget] shows what overlapping does to the
    budgets. *)

From stdpp Require Import gmap sorting.
From Stdlib Require Import Strings.Ascii Strings.Byte.
From S2P Require Import Prelude Result Checked StdMap Hash Ids Text Codec Files Artifact.

(** ** State *)

Record ArtifactOptions := mkArtifactOptions {
  ao_root : string;
  ao_maxArtifactBytes : Z;
  ao_maxTotalBytes : Z;
  ao_maxArtifacts : Z;
  ao_readChunkBytes : Z;
}.

Record RecoveryReport := mkRecoveryReport {
  rc_removedPartialFiles : Z;
  rc_unreadableMetadataFiles : Z;
  rc_artifactsIndexed : Z;
  rc_indexedBytes : Z;
}.

(** [sr_index] is sorted by digest. *)
Record ArtifactStore := mkArtifactStore {
  sr_options : ArtifactOptions;
  sr_index : list ArtifactMetadata;
  sr_usedBytes : Z;
}.

Definition shardOf (d : Digest) : string := str_take 2 (digest_hex d).
Definition artifactPath (root : string) (d : Digest) : string :=
  root +:+ "/payload/" +:+ shardOf d +:+ "/" +:+ digest_hex d.
Definition payloadPath (root : string) (d : Digest) : string := artifactPath root d +:+ ".bin".
Definition metadataPath (root : string) (d : Digest) : string := artifactPath root d +:+ ".meta".

(** *** The index *)

(** [std::lower_bound] on the sorted index: the entries below [d], the rest. *)
Fixpoint lower_bound (d : Digest) (index : list ArtifactMetadata)
    : list ArtifactMetadata * list ArtifactMetadata :=
  match index with
  | [] => ([], [])
  | m :: index' =>
      match key_cmp (md_digest m) d with
      | Lt => let '(before, after) := lower_bound d index' in (m :: before, after)
      | _ => ([], index)
      end
  end.

Definition index_find (d : Digest) (index : list ArtifactMetadata) : option ArtifactMetadata :=
  match (lower_bound d index).2 with
  | m :: _ => if bool_decide (md_digest m = d) then Some m else None
  | [] => None
  end.
Definition index_insert (m : ArtifactMetadata) (index : list ArtifactMetadata)
    : list ArtifactMetadata :=
  let '(before, after) := lower_bound (md_digest m) index in before ++ m :: after.
Definition index_erase (d : Digest) (index : list ArtifactMetadata) : list ArtifactMetadata :=
  let '(before, after) := lower_bound d index in before ++ tl after.

(** Dropping an indexed artifact: quarantine and garbage collection. *)
Definition forget (d : Digest) (st : ArtifactStore) : ArtifactStore :=
  match index_find d (sr_index st) with
  | Some m =>
      mkArtifactStore (sr_options st) (index_erase d (sr_index st))
        (if sr_usedBytes st >? md_sizeBytes m then sr_usedBytes st - md_sizeBytes m else 0)
  | None => st
  end.

Definition metadata (d : Digest) (st : ArtifactStore) : Result ArtifactMetadata :=
  if negb (digest_isSet d)
  then fail ErrorCode.InvalidArgument "the all-zero digest is not a valid artifact identity"
  else match index_find d (sr_index st) with
       | None => fail_detail ErrorCode.NotFound "artifact is not present in the store" (shortDigest d)
       | Some m => Ok m
       end.

Definition contains (d : Digest) (st : ArtifactStore) : bool :=
  bool_decide (is_Some (index_find d (sr_index st))).

Definition artifact_list (st : ArtifactStore) : Result (list ArtifactMetadata) := Ok (sr_index st).
Definition usedBytes (st : ArtifactStore) : Z := sr_usedBytes st.
Definition artifactCount (st : ArtifactStore) : Z := zlen (sr_index st).

(** ** The reader *)

(** The hasher after [finish]: the padding is compressed, the count stays. *)
Definition finished (h : Sha256.Hasher) : Sha256.Hasher :=
  let data := Sha256.final_block h in
  let '(s, _) := Sha256.compress_blocks (length data) (Sha256.state_ h) data in
  Sha256.mkHasher s [] (Sha256.totalBytes_ h).

(** [rd_file] is the content of the open file. *)
Record ArtifactReader := mkReader {
  rd_file : list byte;
  rd_hasher : Sha256.Hasher;
  rd_size : Z;
  rd_bytesRead : Z;
  rd_expected : Digest;
  rd_verified : bool;
}.

Definition reader_open (root : string) (open_fails : bool) (d : Digest) (st : ArtifactStore)
    (fs : FileSystem) : Result ArtifactReader :=
  let* m := metadata d st in
  let path := payloadPath root d in
  match fs !! path with
  | Some content =>
      if open_fails
      then fail_detail ErrorCode.ArtifactUnavailable "artifact payload file is missing" path
      else Ok (mkReader content Sha256.init (md_sizeBytes m) 0 d false)
  | None => fail_detail ErrorCode.ArtifactUnavailable "artifact payload file is missing" path
  end.

Record ReadFault := mkReadFault {
  seek_fails : bool;
  (** the read stops after that many bytes *)
  read_stops : option nat;
}.
Definition no_read_fault : ReadFault := mkReadFault false None.

(** After the bytes were read: the running digest. *)
Definition reader_consume (offset : Z) (chunk : list byte) (rd : ArtifactReader)
    : ArtifactReader * Result (list byte) :=
  if offset =? rd_bytesRead rd then
    let hasher := Sha256.update (rd_hasher rd) chunk in
    let count := (rd_bytesRead rd + zlen chunk) mod 2 ^ 64 in
    if count =? rd_size rd then
      let actual := fromBytes (Sha256.finish hasher) in
      let rd' verified := mkReader (rd_file rd) (finished hasher) (rd_size rd) count
                            (rd_expected rd) verified in
      if negb (bool_decide (actual = rd_expected rd))
      then (rd' false,
            fail_detail ErrorCode.DigestMismatch "artifact payload does not match its digest"
              (digest_hex actual +:+ " != " +:+ digest_hex (rd_expected rd)))
      else (rd' true, Ok chunk)
    else (mkReader (rd_file rd) hasher (rd_size rd) count (rd_expected rd) (rd_verified rd), Ok chunk)
  else
    let count := (offset + zlen chunk) mod 2 ^ 64 in
    (mkReader (rd_file rd) (rd_hasher rd) (rd_size rd) count (rd_expected rd)
       (if negb (count =? rd_size rd) then false else rd_verified rd),
     Ok chunk).

Definition readAt (fault : ReadFault) (offset length : Z) (rd : ArtifactReader)
    : ArtifactReader * Result (list byte) :=
  if offset >? rd_size rd
  then (rd, fail ErrorCode.OutOfRange "artifact read offset is past the end of the payload")
  else
    let wanted := Z.min (rd_size rd - offset) length in
    if seek_fails fault
    then (rd, fail ErrorCode.IoFailure "cannot seek within artifact payload")
    else
      let available := take (Z.to_nat wanted) (drop (Z.to_nat offset) (rd_file rd)) in
      let chunk := match read_stops fault with Some n => take n available | None => available end in
      if negb (zlen chunk =? wanted)
      then (rd, fail_detail ErrorCode.IntegrityFailure "artifact payload is shorter than its metadata"
                  (shortDigest (rd_expected rd)))
      else reader_consume offset chunk rd.

(** ** Verification *)

Record QuarantineFaults := mkQuarantineFaults { q_remove_fails : bool; q_rename_fails : bool }.

Definition quarantine (faults : QuarantineFaults) (d : Digest) (st : ArtifactStore) (fs : FileSystem)
    : FileSystem * ArtifactStore :=
  let payload := payloadPath (ao_root (sr_options st)) d in
  let target := payload +:+ ".corrupt" in
  let fs1 := if q_remove_fails faults then fs else delete target fs in
  if q_rename_fails faults || bool_decide (fs1 !! payload = None)
  then (fs1, st)
  else (file_rename payload target fs1, forget d st).

Record VerifyFaults := mkVerifyFaults {
  vf_open_fails : bool;
  vf_reads : nat → ReadFault;
  vf_quarantine : QuarantineFaults;
}.
Definition no_verify_faults : VerifyFaults :=
  mkVerifyFaults false (λ _, no_read_fault) (mkQuarantineFaults false false).

(** The reading loop: corrupt, outcome. *)
Fixpoint verify_loop (fuel : nat) (faults : nat → ReadFault) (chunk offset : Z) (rd : ArtifactReader)
    : ArtifactReader * (bool * Status) :=
  match fuel with
  | O => (rd, (false, Abort "out of fuel"))
  | S fuel' =>
      if offset <? rd_size rd then
        match readAt (faults fuel') offset chunk rd with
        | (rd', Ok []) =>
            (rd', (true, fail ErrorCode.IntegrityFailure
                           "artifact payload ended before its declared size"))
        | (rd', Ok bytes) => verify_loop fuel' faults chunk (offset + zlen bytes) rd'
        | (rd', Fail e) => (rd', (isIntegrityCode (code e), Fail e))
        | (rd', Abort why) => (rd', (false, Abort why))
        end
      else (rd, (false, Ok tt))
  end.

Definition verify_outcome (d : Digest) (rd : ArtifactReader) (outcome : bool * Status)
    : bool * Status :=
  if is_ok outcome.2 && negb (rd_verified rd)
  then (true, fail_detail ErrorCode.DigestMismatch
                "artifact content no longer matches its recorded digest" (shortDigest d))
  else outcome.

Definition verify (faults : VerifyFaults) (d : Digest) (st : ArtifactStore) (fs : FileSystem)
    : FileSystem * ArtifactStore * Status :=
  let opts := sr_options st in
  match reader_open (ao_root opts) (vf_open_fails faults) d st fs with
  | Fail e => (fs, st, Fail e)
  | Abort why => (fs, st, Abort why)
  | Ok rd =>
      let '(rd', outcome) :=
        verify_loop (S (Z.to_nat (rd_size rd))) (vf_reads faults) (ao_readChunkBytes opts) 0 rd in
      let '(corrupt, status) := verify_outcome d rd' outcome in
      if negb corrupt then (fs, st, Ok tt)
      else let '(fs', st') := quarantine (vf_quarantine faults) d st fs in (fs', st', status)
  end.

Fixpoint verify_entries (faults : Digest → VerifyFaults) (entries : list ArtifactMetadata)
    (st : ArtifactStore) (fs : FileSystem)
    : FileSystem * ArtifactStore * list (Digest * Status) :=
  match entries with
  | [] => (fs, st, [])
  | m :: entries =>
      let '(fs1, st1, status) := verify (faults (md_digest m)) (md_digest m) st fs in
      let '(fs2, st2, results) := verify_entries faults entries st1 fs1 in
      (fs2, st2, (md_digest m, status) :: results)
  end.
Definition verifyAll (faults : Digest → VerifyFaults) (st : ArtifactStore) (fs : FileSystem)
    : FileSystem * ArtifactStore * list (Digest * Status) :=
  verify_entries faults (sr_index st) st fs.

(** ** Publication *)

Record PublishFaults := mkPublishFaults {
  pb_mkdir_fails : bool;
  pb_remove_staged_fails : bool;
  pb_rename_fails : bool;
  pb_write : AtomicFaults;
  pb_suffix : list byte;
  pb_remove_payload_fails : bool;
  pb_verify : VerifyFaults;
}.

Definition remove_file (fails : bool) (path : string) (fs : FileSystem) : FileSystem :=
  if fails then fs else delete path fs.

(** The budget reserved before anything changes. *)
Definition budget (actualSize : Z) (st : ArtifactStore) : Status :=
  let opts := sr_options st in
  if zlen (sr_index st) >=? ao_maxArtifacts opts
  then fail_detail ErrorCode.StoreFull "artifact count budget is exhausted"
         (to_string (ao_maxArtifacts opts))
  else if (actualSize >? ao_maxTotalBytes opts)
          || (sr_usedBytes st >? ao_maxTotalBytes opts - actualSize)
  then fail_detail ErrorCode.StoreFull "artifact byte budget is exhausted"
         (to_string (ao_maxTotalBytes opts))
  else Ok tt.

Definition stored_metadata (m : ArtifactMetadata) (d : Digest) (size : Z) : ArtifactMetadata :=
  mkArtifactMetadata (md_id m) (md_revision m) (md_schema m) (md_schemaVersion m) d size
    (md_mediaType m) (md_producer m) (md_producedAtMillis m) (md_storedAtMillis m).

(** The index entry of a completed publication. *)
Definition record_artifact (stored : ArtifactMetadata) (size : Z) (st : ArtifactStore)
    : ArtifactStore :=
  match index_find (md_digest stored) (sr_index st) with
  | Some _ => st
  | None =>
      mkArtifactStore (sr_options st) (index_insert stored (sr_index st))
        ((sr_usedBytes st + size) mod 2 ^ 64)
  end.

(** The content is indexed already: it must still verify. *)
Definition republish (faults : PublishFaults) (d : Digest) (encoded : list byte) (st : ArtifactStore)
    (fs : FileSystem) : FileSystem * ArtifactStore * Status :=
  let '(fs1, st1, verified) := verify (pb_verify faults) d st fs in
  match verified with
  | Ok _ =>
      let finalMetadata := metadataPath (ao_root (sr_options st)) d in
      if bool_decide (is_Some (fs1 !! finalMetadata)) then (fs1, st1, Ok tt)
      else
        let '(fs2, written) :=
          writeFileAtomic (pb_write faults) (pb_suffix faults) finalMetadata encoded fs1 in
        (fs2, st1, written)
  | _ => (fs1, st1, verified)
  end.

Definition publish (faults : PublishFaults) (m : ArtifactMetadata) (staged : string) (d : Digest)
    (size : Z) (st : ArtifactStore) (fs : FileSystem) : FileSystem * ArtifactStore * Status :=
  let root := ao_root (sr_options st) in
  let alreadyPresent := contains d st in
  let removeStaged fs := remove_file (pb_remove_staged_fails faults) staged fs in
  match (if alreadyPresent then Ok tt else budget size st) with
  | Fail e => (removeStaged fs, st, Fail e)
  | Abort why => (fs, st, Abort why)
  | Ok _ =>
      if pb_mkdir_fails faults
      then (removeStaged fs, st,
            fail_detail ErrorCode.OpenFailed "cannot create artifact shard directory"
              (root +:+ "/payload/" +:+ shardOf d))
      else
        let stored := stored_metadata m d size in
        match encodeArtifactMetadata stored with
        | Fail e => (removeStaged fs, st, Fail e)
        | Abort why => (fs, st, Abort why)
        | Ok encoded =>
            if alreadyPresent then republish faults d encoded st (removeStaged fs)
            else if pb_rename_fails faults || bool_decide (fs !! staged = None)
            then (removeStaged fs, st,
                  fail_detail ErrorCode.IoFailure "cannot publish artifact payload"
                    (payloadPath root d))
            else
              let fs1 := file_rename staged (payloadPath root d) fs in
              let '(fs2, written) :=
                writeFileAtomic (pb_write faults) (pb_suffix faults) (metadataPath root d) encoded
                  fs1 in
              match written with
              | Ok _ => (fs2, record_artifact stored size st, Ok tt)
              | _ => (remove_file (pb_remove_payload_fails faults) (payloadPath root d) fs2, st,
                      written)
              end
        end
  end.

(** ** Ingestion *)

Definition stagingName (root : string) (suffix : list byte) : string :=
  root +:+ "/payload/.staging-" +:+ toHex suffix +:+ ".part".

Record IngestFaults := mkIngestFaults {
  ig_suffix : list byte;
  ig_open_source_fails : bool;
  ig_open_fails : bool;
  (** what the source delivers, given its contents when it was measured *)
  ig_streamed : list byte → list byte;
  ig_read_error : bool;
  (** chunk by chunk: [Some n] if only [n] bytes were written *)
  ig_write : nat → option nat;
  (** [Some n]: the flush fails and [n] bytes reached the file *)
  ig_flush : option nat;
  ig_remove_fails : bool;
  ig_publish : PublishFaults;
}.

Definition digest_mismatch (actual declared : Digest) : Status :=
  fail_detail ErrorCode.DigestMismatch "artifact content digest does not match the declaration"
    (digest_hex actual +:+ " != " +:+ digest_hex declared).

Definition ingestBytes (faults : IngestFaults) (content : list byte) (declared : ArtifactMetadata)
    (st : ArtifactStore) (fs : FileSystem) : FileSystem * ArtifactStore * Status :=
  let opts := sr_options st in
  let actual := Digest_ofContent content in
  if zlen content >? ao_maxArtifactBytes opts
  then (fs, st, fail ErrorCode.OversizePayload "artifact exceeds the configured maximum size")
  else if negb (zlen content =? md_sizeBytes declared)
  then (fs, st, fail ErrorCode.SizeMismatch
                  "declared artifact size does not match the supplied content")
  else if negb (bool_decide (actual = md_digest declared))
  then (fs, st, digest_mismatch actual (md_digest declared))
  else
    let temporary := stagingName (ao_root opts) (ig_suffix faults) in
    if ig_open_fails faults
    then (fs, st, fail_detail ErrorCode.OpenFailed "cannot create artifact staging file" temporary)
    else
      let written :=
        if bool_decide (content = []) then []
        else match ig_write faults 0%nat with Some n => take n content | None => content end in
      let flushed := match ig_flush faults with Some n => take n written | None => written end in
      let fs1 := <[temporary := flushed]> fs in
      if negb (length written =? length content)%nat || bool_decide (is_Some (ig_flush faults))
      then (remove_file (ig_remove_fails faults) temporary fs1, st,
            fail_detail ErrorCode.IoFailure "cannot stage artifact content" temporary)
      else publish (ig_publish faults) declared temporary actual (zlen content) st fs1.

(** The copying loop: the hasher, the bytes staged, their count, the result.
    [rest] is what the source still delivers; the fuel is its length. *)
Fixpoint stage_loop (fuel : nat) (faults : IngestFaults) (opts : ArtifactOptions)
    (source temporary : string) (rest : list byte) (hasher : Sha256.Hasher) (staged : list byte)
    (total : Z) : Sha256.Hasher * list byte * Z * Status :=
  match fuel with
  | O => (hasher, staged, total, Abort "out of fuel")
  | S fuel' =>
      let chunk := take (Z.to_nat (ao_readChunkBytes opts)) rest in
      if bool_decide (chunk = []) then
        (hasher, staged, total,
         if ig_read_error faults
         then fail_detail ErrorCode.IoFailure "read error while ingesting artifact" source
         else Ok tt)
      else
        let hasher := Sha256.update hasher chunk in
        match ig_write faults fuel' with
        | Some n =>
            (hasher, staged ++ take n chunk, total,
             fail_detail ErrorCode.IoFailure "write error while staging artifact" temporary)
        | None =>
            match checkedAdd 64 total (zlen chunk) with
            | None => (hasher, staged ++ chunk, total,
                       fail ErrorCode.ArithmeticOverflow "artifact size overflowed")
            | Some next =>
                if next >? ao_maxArtifactBytes opts
                then (hasher, staged ++ chunk, next,
                      fail_detail ErrorCode.OversizePayload "artifact exceeds the configured maximum"
                        (to_string (ao_maxArtifactBytes opts)))
                else stage_loop fuel' faults opts source temporary (drop (length chunk) rest) hasher
                       (staged ++ chunk) next
            end
        end
  end.

(** The test after the flush, as it is written. *)
Definition flush_result (flushFailed : bool) (temporary : string) (result : Status) : Status :=
  if negb flushFailed && negb (is_ok result)
  then fail_detail ErrorCode.IoFailure "failed to flush staging file" temporary else result.

Definition ingestFromFile (faults : IngestFaults) (source : string) (declared : ArtifactMetadata)
    (st : ArtifactStore) (fs : FileSystem) : FileSystem * ArtifactStore * Status :=
  let opts := sr_options st in
  match fs !! source with
  | None => (fs, st, fail_detail ErrorCode.NotFound "cannot stat artifact source" source)
  | Some content =>
      let declaredSize := zlen content in
      if declaredSize >? ao_maxArtifactBytes opts
      then (fs, st, fail_detail ErrorCode.OversizePayload
                      "artifact exceeds the configured maximum size" (to_string declaredSize))
      else if negb (declaredSize =? md_sizeBytes declared)
      then (fs, st, fail_detail ErrorCode.SizeMismatch
                      "declared artifact size does not match the source file"
                      (to_string declaredSize +:+ " != " +:+ to_string (md_sizeBytes declared)))
      else
        let temporary := stagingName (ao_root opts) (ig_suffix faults) in
        if ig_open_source_fails faults
        then (fs, st, fail_detail ErrorCode.OpenFailed "cannot open artifact source" source)
        else if ig_open_fails faults
        then (fs, st, fail_detail ErrorCode.OpenFailed "cannot create staging file" temporary)
        else
          let streamed := ig_streamed faults content in
          let '(hasher, staged, total, result) :=
            stage_loop (S (length streamed)) faults opts source temporary streamed Sha256.init [] 0 in
          let flushed := match ig_flush faults with Some n => take n staged | None => staged end in
          let fs1 := <[temporary := flushed]> fs in
          let dropped := remove_file (ig_remove_fails faults) temporary fs1 in
          match flush_result (bool_decide (is_Some (ig_flush faults))) temporary result with
          | Fail e => (dropped, st, Fail e)
          | Abort why => (dropped, st, Abort why)
          | Ok _ =>
              if negb (total =? md_sizeBytes declared)
              then (dropped, st,
                    fail_detail ErrorCode.SizeMismatch
                      "artifact byte count does not match the declaration"
                      (to_string total +:+ " != " +:+ to_string (md_sizeBytes declared)))
              else
                let actual := fromBytes (Sha256.finish hasher) in
                if negb (bool_decide (actual = md_digest declared))
                then (dropped, st, digest_mismatch actual (md_digest declared))
                else publish (ig_publish faults) declared temporary actual total st fs1
          end
  end.

(** ** Garbage collection *)

Fixpoint collect_entries (fails : Digest → bool * bool) (doomed : list ArtifactMetadata)
    (st : ArtifactStore) (fs : FileSystem) (removed : Z) : FileSystem * ArtifactStore * Z :=
  match doomed with
  | [] => (fs, st, removed)
  | m :: doomed =>
      let root := ao_root (sr_options st) in
      let d := md_digest m in
      let fs1 := remove_file (fails d).1 (payloadPath root d) fs in
      let fs2 := remove_file (fails d).2 (metadataPath root d) fs1 in
      collect_entries fails doomed (forget d st) fs2 (removed + 1)
  end.

Definition collectGarbage (fails : Digest → bool * bool) (live : list Digest) (st : ArtifactStore)
    (fs : FileSystem) : FileSystem * ArtifactStore * Z :=
  collect_entries fails
    (List.filter (λ m, negb (bool_decide (md_digest m ∈ live))) (sr_index st)) st fs 0.

(** ** Opening *)

(** Names a partial publish can leave behind. *)
Definition isPartialFileName (name : string) : bool :=
  bool_decide (is_Some (before ".part-" name)) || is_prefix ".staging-" name
  || ((5 <? String.length name)%nat
      && bool_decide (str_drop (String.length name - 5) name = ".part")).

(** [path::extension]: a leading dot starts no extension. *)
Definition extension (name : string) : string :=
  match rfind "."%char name with
  | None | Some O => ""
  | Some i => if bool_decide (name = "..") then "" else str_drop i name
  end.

Definition below_root (root path : string) : bool := is_prefix (root +:+ "/") path.

(** The sweep over the directory listing; [fails] is a failing removal. *)
Fixpoint sweep (fails : string → bool) (paths : list string) (fs : FileSystem) (removed : Z)
    : FileSystem * Z :=
  match paths with
  | [] => (fs, removed)
  | path :: paths =>
      if isPartialFileName (filename path) && bool_decide (is_Some (fs !! path)) && negb (fails path)
      then sweep fails paths (delete path fs) (removed + 1)
      else sweep fails paths fs removed
  end.

(** One metadata file of the listing. *)
Definition load_entry (root : string) (fs : FileSystem) (path : string) : option ArtifactMetadata :=
  if bool_decide (extension (filename path) = ".meta") then
    match (readFileBounded path kAbsoluteMaxFieldBytes fs).2 with
    | Ok record =>
        match decodeArtifactMetadata record with
        | Ok m => if bool_decide (is_Some (file_size (payloadPath root (md_digest m)) fs))
                  then Some m else None
        | _ => None
        end
    | _ => None
    end
  else None.

Definition digest_le (a b : ArtifactMetadata) : Prop := key_cmp (md_digest a) (md_digest b) ≠ Gt.
#[global] Instance digest_le_dec : RelDecision digest_le.
Proof. intros a b. unfold digest_le. apply _. Defined.

(** [std::unique] by digest. *)
Fixpoint unique_digests (l : list ArtifactMetadata) : list ArtifactMetadata :=
  match l with
  | a :: rest =>
      match unique_digests rest with
      | b :: rest' => if bool_decide (md_digest a = md_digest b) then a :: rest' else a :: b :: rest'
      | [] => [a]
      end
  | [] => []
  end.

(** [listing]: the regular files the recursive iterator reports. *)
Definition loadIndex (opts : ArtifactOptions) (listing : list string) (fs : FileSystem)
    : ArtifactStore :=
  let loaded := omap (load_entry (ao_root opts) fs) listing in
  mkArtifactStore opts (unique_digests (merge_sort digest_le loaded))
    (foldl (λ total m, (total + md_sizeBytes m) mod 2 ^ 64) 0 loaded).

Definition artifact_open (opts : ArtifactOptions) (mkdir_fails : bool) (fails : string → bool)
    (listing : FileSystem → list string) (fs : FileSystem)
    : FileSystem * Result (ArtifactStore * RecoveryReport) :=
  if decide (ao_root opts = "")
  then (fs, fail ErrorCode.InvalidArgument "artifact store root must not be empty")
  else if (ao_maxArtifactBytes opts =? 0) || (ao_readChunkBytes opts =? 0)
  then (fs, fail ErrorCode.InvalidArgument "artifact store bounds must be non-zero")
  else if mkdir_fails
  then (fs, fail_detail ErrorCode.OpenFailed "cannot create artifact store root" (ao_root opts))
  else
    let '(fs1, removed) := sweep fails (listing fs) fs 0 in
    let st := loadIndex opts (listing fs1) fs1 in
    (fs1, Ok (st, mkRecoveryReport removed 0 (zlen (sr_index st)) (sr_usedBytes st))).

(** ** The index as a map *)

#[local] Arguments key_cmp : simpl never.

Definition index_view (index : list ArtifactMetadata) : list (Digest * ArtifactMetadata) :=
  map (λ m, (md_digest m, m)) index.
Definition total_size (index : list ArtifactMetadata) : Z := foldr (λ m n, md_sizeBytes m + n) 0 index.

Definition entry_ok (m : ArtifactMetadata) : Prop :=
  digest_wf (md_digest m) ∧ 0 ≤ md_sizeBytes m.

Lemma key_cmp_flip (a b : Digest) : key_cmp b a = CompOpp (key_cmp a b).
Proof. apply key_cmp_antisym. Qed.

Lemma lower_bound_app d index : let '(before, after) := lower_bound d index in index = before ++ after.
Proof.
  induction index as [|m index IH]; simpl; [done|]. destruct (key_cmp (md_digest m) d); try done.
  destruct (lower_bound d index). by rewrite IH.
Qed.

Lemma index_find_map d index :
  map_sorted (index_view index) → index_find d index = map_find d (index_view index).
Proof.
  unfold index_find. induction index as [|m index IH]; simpl; [done|]. intros [Hb Hs].
  rewrite (key_cmp_flip (md_digest m) d). destruct (key_cmp (md_digest m) d) eqn:E; simpl.
  - apply key_cmp_eq in E. by rewrite bool_decide_eq_true_2.
  - rewrite <- IH by done. by destruct (lower_bound d index).
  - rewrite bool_decide_eq_false_2; [|intros Heq; by rewrite Heq, key_cmp_refl in E].
    symmetry. apply below_find. eapply below_trans; [|done].
    rewrite (key_cmp_flip (md_digest m) d). by rewrite E.
Qed.

Lemma index_insert_map m index :
  map_sorted (index_view index) → index_find (md_digest m) index = None →
  index_view (index_insert m index) = map_assign (md_digest m) m (index_view index).
Proof.
  unfold index_find, index_insert. induction index as [|n index IH]; simpl; [done|].
  intros [Hb Hs]. rewrite (key_cmp_flip (md_digest n) (md_digest m)).
  destruct (key_cmp (md_digest n) (md_digest m)) eqn:E; simpl.
  - apply key_cmp_eq in E. by rewrite bool_decide_eq_true_2.
  - intros Hn. destruct (lower_bound (md_digest m) index) as [before after]. simpl in *.
    by rewrite IH.
  - done.
Qed.

Lemma index_erase_map d m index :
  map_sorted (index_view index) → index_find d index = Some m →
  index_view (index_erase d index) = map_erase d (index_view index).
Proof.
  unfold index_find, index_erase. induction index as [|n index IH]; simpl; [done|].
  intros [Hb Hs]. rewrite (key_cmp_flip (md_digest n) d).
  destruct (key_cmp (md_digest n) d) eqn:E; simpl; [done|..].
  - intros Hn. destruct (lower_bound d index) as [before after]. simpl in *. by rewrite IH.
  - rewrite bool_decide_eq_false_2; [done|]. intros Heq. by rewrite Heq, key_cmp_refl in E.
Qed.

Lemma total_size_app l k : total_size (l ++ k) = total_size l + total_size k.
Proof. induction l as [|m l IH]; simpl; [done|]. lia. Qed.

Lemma total_size_nonneg index : Forall entry_ok index → 0 ≤ total_size index.
Proof. induction 1 as [|m index [_ Hm] _ IH]; simpl; lia. Qed.

Lemma index_insert_size m index :
  total_size (index_insert m index) = total_size index + md_sizeBytes m.
Proof.
  unfold index_insert. pose proof (lower_bound_app (md_digest m) index) as Happ.
  destruct (lower_bound _ _) as [before after]. subst index. rewrite !total_size_app. simpl. lia.
Qed.

Lemma index_insert_count m index : zlen (index_insert m index) = zlen index + 1.
Proof.
  unfold index_insert. pose proof (lower_bound_app (md_digest m) index) as Happ.
  destruct (lower_bound _ _) as [before after]. subst index. rewrite !zlen_app, zlen_cons. lia.
Qed.

(** An indexed entry splits the index. *)
Lemma index_find_split d m index :
  index_find d index = Some m →
  md_digest m = d ∧ ∃ before after, index = before ++ m :: after
    ∧ index_erase d index = before ++ after.
Proof.
  unfold index_find, index_erase. pose proof (lower_bound_app d index) as Happ.
  destruct (lower_bound d index) as [before [|n after]]; simpl; [done|].
  case_bool_decide; [|done]. intros [= ->]. split; [done|]. by exists before, after.
Qed.

(** ** The invariant

    The index is strictly sorted by digest, the byte count is the sum of the
    indexed sizes, and both budgets hold. *)
Record store_ok (st : ArtifactStore) : Prop := {
  ok_index : keyed md_digest entry_ok (index_view (sr_index st));
  ok_used : sr_usedBytes st = total_size (sr_index st);
  ok_count : zlen (sr_index st) <= ao_maxArtifacts (sr_options st);
  ok_bytes : sr_usedBytes st <= ao_maxTotalBytes (sr_options st);
  ok_width : ao_maxTotalBytes (sr_options st) < 2 ^ 64;
}.

Lemma store_ok_find d st :
  store_ok st → index_find d (sr_index st) = map_find d (index_view (sr_index st)).
Proof. intros Hok. apply index_find_map. apply Hok. Qed.

Lemma store_ok_entries st : store_ok st → Forall entry_ok (sr_index st).
Proof.
  intros Hok. pose proof (keyed_values _ _ _ (ok_index st Hok)) as H.
  unfold index_view in H. rewrite map_map in H. by rewrite map_id in H.
Qed.

Lemma forget_options d st : sr_options (forget d st) = sr_options st.
Proof. unfold forget. by destruct (index_find d (sr_index st)). Qed.

Lemma forget_ok d st : store_ok st → store_ok (forget d st).
Proof.
  intros Hok. unfold forget. destruct (index_find d (sr_index st)) as [m|] eqn:E; [|done].
  pose proof (index_erase_map _ _ _ (keyed_sorted _ _ _ (ok_index st Hok)) E) as Herase.
  apply index_find_split in E as [Hd (before & after & Hi & He)].
  pose proof (store_ok_entries st Hok) as Hall. destruct Hok as [Hx Hu Hc Hb Hw].
  rewrite Hi in Hall. apply Forall_app in Hall as [Hall1 Hall2].
  apply Forall_cons_iff in Hall2 as [Hm Hall2].
  pose proof (total_size_nonneg _ Hall1). pose proof (total_size_nonneg _ Hall2).
  destruct Hm as [_ Hm]. rewrite Hi, total_size_app in Hu. simpl in Hu.
  assert ((if sr_usedBytes st >? md_sizeBytes m then sr_usedBytes st - md_sizeBytes m else 0)
          = total_size (before ++ after)) as Hused.
  { rewrite total_size_app. destruct (Z.gtb_spec (sr_usedBytes st) (md_sizeBytes m)); lia. }
  rewrite Hused. split; simpl; rewrite ?He; try done.
  - rewrite <- He, Herase. apply keyed_erase, Hx.
  - revert Hc. rewrite Hi, !zlen_app, zlen_cons. lia.
  - rewrite total_size_app. lia.
Qed.

Lemma forget_find d d' st :
  store_ok st →
  index_find d' (sr_index (forget d st))
  = if decide (d' = d) then None else index_find d' (sr_index st).
Proof.
  intros Hok. pose proof (forget_ok d st Hok) as Hok'.
  rewrite (store_ok_find d' _ Hok'), (store_ok_find d' _ Hok).
  revert Hok'. unfold forget. destruct (index_find d (sr_index st)) as [m|] eqn:E; intros Hok'.
  - cbn [sr_index]. rewrite (index_erase_map _ _ _ (keyed_sorted _ _ _ (ok_index st Hok)) E).
    destruct (decide (d' = d)) as [->|Hne].
    + apply map_find_erase_eq, Hok.
    + by apply map_find_erase_ne.
  - destruct (decide (d' = d)) as [->|]; [|done]. by rewrite <- store_ok_find.
Qed.

Lemma budget_Ok size st :
  budget size st = Ok tt →
  zlen (sr_index st) < ao_maxArtifacts (sr_options st)
  ∧ sr_usedBytes st + size <= ao_maxTotalBytes (sr_options st).
Proof.
  unfold budget. rewrite Z.geb_leb. destruct (Z.leb_spec (ao_maxArtifacts (sr_options st)) (zlen (sr_index st)));
    [done|].
  destruct (Z.gtb_spec size (ao_maxTotalBytes (sr_options st))); [done|].
  destruct (Z.gtb_spec (sr_usedBytes st) (ao_maxTotalBytes (sr_options st) - size)); [done|]. lia.
Qed.

Lemma record_artifact_ok stored st :
  store_ok st → entry_ok stored → budget (md_sizeBytes stored) st = Ok tt →
  store_ok (record_artifact stored (md_sizeBytes stored) st).
Proof.
  intros Hok He [Hn Hb]%budget_Ok. unfold record_artifact.
  destruct (index_find (md_digest stored) (sr_index st)) eqn:E; [done|].
  pose proof (total_size_nonneg _ (store_ok_entries st Hok)) as Hnn.
  destruct Hok as [Hx Hu Hc Hb' Hw]. destruct He as [Hwf Hsz].
  rewrite Z.mod_small by lia. split; simpl; try done.
  - rewrite index_insert_map by (done || apply Hx). by apply keyed_assign.
  - rewrite index_insert_size. lia.
  - rewrite index_insert_count. lia.
Qed.

(** ** What an operation on one artifact does to the index *)

Inductive evolves (d : Digest) (st : ArtifactStore) : ArtifactStore → Prop :=
  | evolves_same : evolves d st st
  | evolves_forget : evolves d st (forget d st)
  | evolves_record stored :
      md_digest stored = d → 0 <= md_sizeBytes stored → digest_wf d →
      budget (md_sizeBytes stored) st = Ok tt →
      evolves d st (record_artifact stored (md_sizeBytes stored) st).

Lemma evolves_ok d st st' : evolves d st st' → store_ok st → store_ok st'.
Proof.
  intros [| |stored Hd Hs Hwf Hb] Hok; [done|by apply forget_ok|].
  apply record_artifact_ok; [done| |done]. split; by rewrite ?Hd.
Qed.

Lemma evolves_options d st st' : evolves d st st' → sr_options st' = sr_options st.
Proof.
  intros []; [done|apply forget_options|]. unfold record_artifact. by destruct (index_find _ _).
Qed.

Lemma record_artifact_find stored size d' st :
  store_ok st → index_find (md_digest stored) (sr_index st) = None →
  map_sorted (index_view (sr_index (record_artifact stored size st)))
  ∧ index_find d' (sr_index (record_artifact stored size st))
    = if decide (d' = md_digest stored) then Some stored else index_find d' (sr_index st).
Proof.
  intros Hok E. unfold record_artifact. rewrite E. cbn [sr_index].
  pose proof (index_insert_map _ _ (keyed_sorted _ _ _ (ok_index st Hok)) E) as Hv.
  assert (map_sorted (index_view (index_insert stored (sr_index st)))) as Hs.
  { rewrite Hv. apply map_assign_sorted, Hok. }
  split; [done|]. rewrite index_find_map, Hv by done. rewrite store_ok_find by done.
  destruct (decide (d' = md_digest stored)) as [->|Hne].
  - apply map_find_assign_eq.
  - by apply map_find_assign_ne.
Qed.

(** No other artifact is affected. *)
Lemma evolves_other d d' st st' :
  store_ok st → evolves d st st' → d' ≠ d →
  index_find d' (sr_index st') = index_find d' (sr_index st).
Proof.
  intros Hok [| |stored Hd _ _ _] Hne; [done|..].
  - rewrite forget_find by done. by destruct (decide (d' = d)).
  - destruct (index_find (md_digest stored) (sr_index st)) eqn:E.
    + unfold record_artifact. by rewrite E.
    + destruct (record_artifact_find stored (md_sizeBytes stored) d' st Hok E) as [_ ->].
      destruct (decide (d' = md_digest stored)); [congruence|done].
Qed.

Lemma quarantine_evolves faults d st fs fs' st' :
  quarantine faults d st fs = (fs', st') → st' = st ∨ st' = forget d st.
Proof. unfold quarantine. destruct (_ || _); intros [= _ <-]; auto. Qed.

Lemma verify_evolves faults d st fs fs' st' r :
  verify faults d st fs = (fs', st', r) → st' = st ∨ st' = forget d st.
Proof.
  unfold verify. destruct (reader_open _ _ _ _ _); [|intros [= _ <- _]; auto..].
  destruct (verify_loop _ _ _ _ _). destruct (verify_outcome _ _ _) as [[] ?]; simpl.
  - destruct (quarantine _ _ _ _) eqn:E. apply quarantine_evolves in E. by intros [= _ <- _].
  - intros [= _ <- _]. auto.
Qed.

Lemma publish_evolves faults m staged d size st fs fs' st' r :
  publish faults m staged d size st fs = (fs', st', r) → 0 <= size → digest_wf d →
  evolves d st st'.
Proof.
  unfold publish. intros H Hsize Hd. revert H.
  destruct (if contains d st then Ok tt else budget size st) as [[]| |] eqn:Hb;
    [|intros [= _ <- _]; constructor..].
  destruct (pb_mkdir_fails faults); [intros [= _ <- _]; constructor|].
  destruct (encodeArtifactMetadata _) as [encoded| |]; [|intros [= _ <- _]; constructor..].
  destruct (contains d st).
  - intros Hr. unfold republish in Hr. destruct (verify _ _ _ _) as [[fs1 st1] r1] eqn:E.
    apply verify_evolves in E. assert (st' = st1) as -> by (
      revert Hr; destruct r1; [destruct (bool_decide _); [|destruct (writeFileAtomic _ _ _ _ _)]| |];
      by intros [= _ <- _]).
    destruct E as [->| ->]; constructor.
  - destruct (_ || _); [intros [= _ <- _]; constructor|].
    destruct (writeFileAtomic _ _ _ _ _) as [fs2 written].
    destruct written; intros [= _ <- _]; [|constructor..].
    by apply (evolves_record d st (stored_metadata m d size)).
Qed.

Lemma ofContent_wf content : digest_wf (Digest_ofContent content).
Proof. unfold digest_wf, Digest_ofContent. simpl. apply sha256_length. Qed.

Lemma ingestBytes_evolves faults content declared st fs fs' st' r :
  ingestBytes faults content declared st fs = (fs', st', r) →
  evolves (Digest_ofContent content) st st'.
Proof.
  unfold ingestBytes. destruct (_ >? _); [intros [= _ <- _]; constructor|].
  destruct (negb _); [intros [= _ <- _]; constructor|].
  destruct (negb _); [intros [= _ <- _]; constructor|].
  destruct (ig_open_fails faults); [intros [= _ <- _]; constructor|].
  destruct (_ || _); [intros [= _ <- _]; constructor|].
  intros H. apply publish_evolves in H; [done| |apply ofContent_wf]. apply zlen_nonneg.
Qed.

(** *** The copying loop *)


Lemma take_drop_length {A} n (l : list A) : take n l ++ drop (length (take n l)) l = l.
Proof.
  rewrite length_take. destruct (Nat.le_ge_cases n (length l)).
  - rewrite Nat.min_l by done. apply take_drop.
  - rewrite Nat.min_r, take_ge by done. by rewrite drop_ge, app_nil_r by lia.
Qed.

(** The loop ends, and success staged exactly what the source delivered,
    with the hash of it. *)
Lemma stage_loop_spec fuel faults opts source temporary rest hasher staged total :
  (length rest < fuel)%nat → 0 < ao_readChunkBytes opts →
  hasher = Sha256.update Sha256.init staged → total = zlen staged →
  let '(h, s, n, r) := stage_loop fuel faults opts source temporary rest hasher staged total in
  match r with
  | Ok _ => h = Sha256.update Sha256.init (staged ++ rest) ∧ s = staged ++ rest
            ∧ n = zlen (staged ++ rest)
  | Fail _ => True
  | Abort _ => False
  end.
Proof.
  revert rest hasher staged total. induction fuel as [|fuel IH]; intros rest hasher staged total Hf Hc Hh Ht;
    [lia|]. cbn [stage_loop].
  set (chunk := take (Z.to_nat (ao_readChunkBytes opts)) rest).
  assert (chunk ++ drop (length chunk) rest = rest) as Hsplit.
  { apply take_drop_length. }
  case_bool_decide as Hnil.
  - destruct (ig_read_error faults); [done|]. assert (rest = []) as ->.
    { destruct rest; [done|]. unfold chunk in Hnil. destruct (Z.to_nat _) eqn:E; [lia|done]. }
    by rewrite app_nil_r.
  - destruct (ig_write faults fuel); [done|].
    destruct (checkedAdd _ _ _) as [next|] eqn:Ha; [|done].
    destruct (_ >? _); [done|].
    specialize (IH (drop (length chunk) rest) (Sha256.update hasher chunk) (staged ++ chunk) next).
    rewrite <- app_assoc, Hsplit in IH. apply IH.
    + assert (0 < length chunk)%nat by (destruct chunk; simpl; [done|lia]).
      apply (f_equal length) in Hsplit. rewrite length_app in Hsplit. lia.
    + done.
    + rewrite Hh. rewrite Sha256.update_update; [done|apply init_ok].
    + rewrite zlen_app, <- Ht. revert Ha. unfold checkedAdd.
      destruct (Z.gtb_spec total (2 ^ 64 - 1 - zlen chunk)); [done|]. intros [= <-].
      pose proof (zlen_nonneg staged). pose proof (zlen_nonneg chunk). apply Z.mod_small. lia.
Qed.

Lemma ingestFromFile_evolves faults source declared st fs fs' st' r :
  0 < ao_readChunkBytes (sr_options st) →
  ingestFromFile faults source declared st fs = (fs', st', r) →
  evolves (md_digest declared) st st'.
Proof.
  unfold ingestFromFile. intros Hc. destruct (fs !! source) as [content|]; [|intros [= _ <- _]; constructor].
  destruct (_ >? _); [intros [= _ <- _]; constructor|].
  destruct (negb _); [intros [= _ <- _]; constructor|].
  destruct (ig_open_source_fails faults); [intros [= _ <- _]; constructor|].
  destruct (ig_open_fails faults); [intros [= _ <- _]; constructor|].
  destruct (stage_loop _ _ _ _ _ _ _ _ _) as [[[h s] n] result] eqn:E.
  pose proof (stage_loop_spec _ faults (sr_options st) source
    (stagingName (ao_root (sr_options st)) (ig_suffix faults)) (ig_streamed faults content)
    Sha256.init [] 0 (Nat.lt_succ_diag_r _) Hc eq_refl eq_refl) as Hl. rewrite E in Hl.
  destruct (flush_result _ _ _) as [[]| |] eqn:Hr; [|intros [= _ <- _]; constructor..].
  assert (result = Ok tt) as ->.
  { revert Hr. unfold flush_result. by destruct (_ && _). }
  clear Hr. destruct Hl as (-> & -> & ->). destruct (negb _); [intros [= _ <- _]; constructor|].
  case_bool_decide as Hd; cbn [negb].
  2: { intros [= _ <- _]; constructor. }
  intros H. apply publish_evolves in H; [by rewrite <- Hd| |apply ofContent_wf].
  apply zlen_nonneg.
Qed.

(** ** Garbage collection *)

Lemma collect_entries_ok fails doomed st fs removed :
  store_ok st →
  let '(_, st', n) := collect_entries fails doomed st fs removed in
  store_ok st' ∧ sr_options st' = sr_options st ∧ n = removed + zlen doomed
  ∧ ∀ d, index_find d (sr_index st')
         = if decide (d ∈ md_digest <$> doomed) then None else index_find d (sr_index st).
Proof.
  revert st fs removed. induction doomed as [|m doomed IH]; intros st fs removed Hok.
  - cbn [collect_entries]. split_and!; [done|done|by change (zlen []) with 0; lia|].
    intros d. destruct (decide _) as [Hd|]; [by apply elem_of_nil in Hd|done].
  - cbn [collect_entries].
    set (fs2 := remove_file _ _ (remove_file _ _ fs)).
    pose proof (IH (forget (md_digest m) st) fs2 (removed + 1) (forget_ok _ _ Hok)) as Hi.
    destruct (collect_entries _ _ _ _ _) as [[fs' st'] n]. destruct Hi as (Hok' & Ho & Hn & Hf).
    split; [done|]. split; [by rewrite Ho, forget_options|]. split; [rewrite zlen_cons; lia|].
    intros d. rewrite Hf, forget_find by done. rewrite fmap_cons.
    destruct (decide (d ∈ md_digest <$> doomed)) as [Hd|Hd];
      destruct (decide (d ∈ md_digest m :: (md_digest <$> doomed))) as [Hd'|Hd'];
      rewrite elem_of_cons in Hd'; destruct (decide (d = md_digest m)); tauto.
Qed.

(** ** Runs of the store

    Any sequence of operations, with arbitrary changes of the disk between
    them. *)
Inductive artifact_step : FileSystem * ArtifactStore → FileSystem * ArtifactStore → Prop :=
  | step_ingestBytes faults content declared fs st fs' st' r :
      ingestBytes faults content declared st fs = (fs', st', r) →
      artifact_step (fs, st) (fs', st')
  | step_ingestFromFile faults source declared fs st fs' st' r :
      ingestFromFile faults source declared st fs = (fs', st', r) →
      artifact_step (fs, st) (fs', st')
  | step_verify faults d fs st fs' st' r :
      verify faults d st fs = (fs', st', r) → artifact_step (fs, st) (fs', st')
  | step_verifyAll faults fs st fs' st' r :
      verifyAll faults st fs = (fs', st', r) → artifact_step (fs, st) (fs', st')
  | step_collectGarbage fails live fs st fs' st' removed :
      collectGarbage fails live st fs = (fs', st', removed) → artifact_step (fs, st) (fs', st')
  | step_disk fs fs' st : artifact_step (fs, st) (fs', st).

Lemma maybe_forget_ok d st st' : st' = st ∨ st' = forget d st → store_ok st →
  store_ok st' ∧ sr_options st' = sr_options st.
Proof. intros [->| ->] Hok; [done|]. split; [by apply forget_ok|apply forget_options]. Qed.

Lemma verify_entries_ok faults entries st fs :
  store_ok st →
  let '(_, st', _) := verify_entries faults entries st fs in
  store_ok st' ∧ sr_options st' = sr_options st.
Proof.
  revert st fs. induction entries as [|m entries IH]; intros st fs Hok; [done|]. cbn [verify_entries].
  destruct (verify _ _ _ _) as [[fs1 st1] status] eqn:E.
  apply verify_evolves in E. destruct (maybe_forget_ok _ _ _ E Hok) as [Hok1 Ho1].
  specialize (IH st1 fs1 Hok1). destruct (verify_entries _ _ _ _) as [[fs2 st2] results].
  destruct IH as [Hok2 Ho2]. split; [done|]. by rewrite Ho2.
Qed.

Lemma artifact_step_ok s s' :
  artifact_step s s' → store_ok s.2 → 0 < ao_readChunkBytes (sr_options s.2) →
  store_ok s'.2 ∧ sr_options s'.2 = sr_options s.2.
Proof.
  intros [faults content declared fs st fs' st' r H|faults source declared fs st fs' st' r H
         |faults d fs st fs' st' r H|faults fs st fs' st' r H|fails live fs st fs' st' n H|fs fs' st] Hok Hc;
    cbn [snd] in *.
  - apply ingestBytes_evolves in H. split; [by eapply evolves_ok|by eapply evolves_options].
  - apply ingestFromFile_evolves in H; [|done]. split; [by eapply evolves_ok|by eapply evolves_options].
  - apply verify_evolves in H. by eapply maybe_forget_ok.
  - pose proof (verify_entries_ok faults (sr_index st) st fs Hok) as Hv. unfold verifyAll in H.
    by rewrite H in Hv.
  - unfold collectGarbage in H.
    pose proof (collect_entries_ok fails
      (List.filter (λ m, negb (bool_decide (md_digest m ∈ live))) (sr_index st)) st fs 0 Hok) as Hg.
    rewrite H in Hg. tauto.
  - done.
Qed.

Definition empty_store (opts : ArtifactOptions) : ArtifactStore := mkArtifactStore opts [] 0.

Lemma empty_store_ok opts :
  0 <= ao_maxArtifacts opts → 0 <= ao_maxTotalBytes opts < 2 ^ 64 → store_ok (empty_store opts).
Proof. intros Hn Hb. split; cbn; try done; try lia. Qed.

(** C28: whatever sequence of ingestions, verifications and collections runs,
    with any system failures and any tampering with the files in between, the
    index stays strictly sorted by digest with one entry per digest, the byte
    count equals the sum of the indexed sizes (no wrap-around), and both
    budgets hold. *)
Theorem artifact_store_invariant opts fs0 fs st
    (Hbounds : 0 <= ao_maxArtifacts opts ∧ 0 <= ao_maxTotalBytes opts < 2 ^ 64)
    (Hchunk : 0 < ao_readChunkBytes opts)
    (Hrun : rtc artifact_step (fs0, empty_store opts) (fs, st)) :
  map_sorted (index_view (sr_index st))
  ∧ usedBytes st = total_size (sr_index st)
  ∧ artifactCount st <= ao_maxArtifacts opts ∧ usedBytes st <= ao_maxTotalBytes opts.
Proof.
  destruct Hbounds as [Hn Hb].
  assert (store_ok st ∧ sr_options st = opts) as [Hok <-].
  { change st with (fs, st).2. revert Hrun. generalize (fs, st). intros s Hrun.
    assert (store_ok (fs0, empty_store opts).2 ∧ sr_options (fs0, empty_store opts).2 = opts) as Hinv
      by (split; [by apply empty_store_ok|done]).
    revert Hinv. induction Hrun as [s|s s1 s2 Hs _ IH]; [done|]. intros [Hok Ho]. apply IH.
    destruct (artifact_step_ok _ _ Hs Hok) as [Hok1 Ho1]; [by rewrite Ho|]. by rewrite Ho1. }
  split_and!; try apply Hok.
Qed.

(** ** Reading in order *)

Definition integrity_failure {A} (r : Result A) : Prop :=
  match r with Fail e => isIntegrityCode (code e) = true | _ => False end.

Lemma take_take_drop {A} k n (l : list A) : take k l ++ take n (drop k l) = take (k + n) l.
Proof.
  revert k. induction l as [|x l IH]; intros [|k]; simpl; rewrite ?take_nil, ?IH; done.
Qed.

Section reading.
Context (file : list byte) (size : Z) (d : Digest).
Hypothesis size_width : 0 <= size < 2 ^ 64.

(** The reader after the first [k] bytes were delivered in order. *)
Definition reading (k : nat) : ArtifactReader :=
  mkReader file (Sha256.update Sha256.init (take k file)) size (Z.of_nat k) d false.

(** The first [size] bytes of the payload file are there and have the digest.
    What the file holds behind them is not looked at. *)
Definition declared_prefix : bool :=
  (size <=? zlen file) && bool_decide (Digest_ofContent (take (Z.to_nat size) file) = d).
(** When verification succeeds. An empty artifact has no last byte to compare
    the digest at, so it never does. *)
Definition verifies : bool := (0 <? size) && declared_prefix.

(** A whole chunk was read. *)
Lemma consume_in_order k n :
  Z.of_nat (k + n) <= size → (k + n <= length file)%nat →
  let chunk := take n (drop k file) in
  let '(rd, r) := reader_consume (Z.of_nat k) chunk (reading k) in
  if size =? Z.of_nat (k + n) then
    if declared_prefix then rd_verified rd = true ∧ rd_size rd = size ∧ r = Ok chunk else integrity_failure r
  else rd = reading (k + n) ∧ r = Ok chunk.
Proof.
  intros Hs Hf chunk. unfold reader_consume, reading. cbn [rd_bytesRead rd_hasher rd_size rd_file rd_expected rd_verified].
  rewrite Z.eqb_refl. rewrite Sha256.update_update by apply init_ok.
  unfold chunk. rewrite take_take_drop. fold chunk.
  assert (zlen chunk = Z.of_nat n) as Hn.
  { unfold zlen, chunk. rewrite length_take, length_drop. lia. }
  rewrite Hn. rewrite Z.mod_small by lia. rewrite <- Nat2Z.inj_add, (Z.eqb_sym size).
  destruct (Z.eqb_spec (Z.of_nat (k + n)) size) as [He|]; [|done].
  unfold declared_prefix, Digest_ofContent, sha256. rewrite <- He, Nat2Z.id.
  destruct (Z.leb_spec (Z.of_nat (k + n)) (zlen file)) as [_|Hbad]; [|unfold zlen in Hbad; lia].
  cbn [andb]. by case_bool_decide.
Qed.

(** One read in order: the bytes asked for; at the end the digest decides. *)
Lemma readAt_in_order k c :
  Z.of_nat k < size → 0 < c →
  let n := Z.to_nat (Z.min (size - Z.of_nat k) c) in
  let '(rd, r) := readAt no_read_fault (Z.of_nat k) c (reading k) in
  if (length file <? k + n)%nat then integrity_failure r
  else if size =? Z.of_nat (k + n) then
    if declared_prefix then rd_verified rd = true ∧ rd_size rd = size ∧ r = Ok (take n (drop k file))
    else integrity_failure r
  else rd = reading (k + n) ∧ r = Ok (take n (drop k file)).
Proof.
  intros Hk Hc n. unfold readAt. cbn [rd_size reading seek_fails read_stops no_read_fault rd_file].
  destruct (Z.gtb_spec (Z.of_nat k) size); [lia|]. rewrite Nat2Z.id. fold n.
  assert (Z.min (size - Z.of_nat k) c = Z.of_nat n) as -> by lia.
  assert (zlen (take n (drop k file)) = Z.of_nat (n `min` (length file - k))) as ->
    by (unfold zlen; by rewrite length_take, length_drop).
  destruct (Nat.ltb_spec (length file) (k + n)) as [Hlt|Hge].
  - destruct (Z.eqb_spec (Z.of_nat (n `min` (length file - k))) (Z.of_nat n)); [lia|done].
  - destruct (Z.eqb_spec (Z.of_nat (n `min` (length file - k))) (Z.of_nat n)); [|lia]. cbn [negb].
    apply consume_in_order; lia.
Qed.

(** The verification loop from there: it ends, and it finds the payload
    declared_prefix or corrupt as it is. *)
Lemma verify_loop_in_order fuel c k :
  0 < c → Z.of_nat k < size → (Z.to_nat size - k < fuel)%nat →
  let '(rd, (corrupt, status)) :=
    verify_loop fuel (λ _, no_read_fault) c (Z.of_nat k) (reading k) in
  if declared_prefix then rd_verified rd = true ∧ corrupt = false ∧ status = Ok tt
  else corrupt = true ∧ integrity_failure status.
Proof.
  intros Hc. revert k. induction fuel as [|fuel IH]; intros k Hk Hf; [lia|].
  cbn [verify_loop]. cbn [rd_size reading]. destruct (Z.ltb_spec (Z.of_nat k) size); [|lia].
  fold (reading k). pose proof (readAt_in_order k c Hk Hc) as Hread. cbn zeta in Hread.
  set (n := Z.to_nat (Z.min (size - Z.of_nat k) c)) in *.
  destruct (readAt no_read_fault (Z.of_nat k) c (reading k)) as [rd r].
  assert (declared_prefix = true → (k + n <= length file)%nat) as Hlen.
  { unfold declared_prefix. intros [Hl _]%andb_true_iff. apply Z.leb_le in Hl. unfold zlen in Hl. lia. }
  destruct (Nat.ltb_spec (length file) (k + n)) as [Hlt|Hge].
  { destruct r as [|e|]; try done. destruct declared_prefix; [specialize (Hlen eq_refl); lia|]. done. }
  assert (n ≠ 0%nat) by lia.
  assert (zlen (take n (drop k file)) = Z.of_nat n) as Hz
    by (unfold zlen; rewrite length_take, length_drop; lia).
  destruct (Z.eqb_spec size (Z.of_nat (k + n))) as [He|Hne].
  - destruct declared_prefix.
    + destruct Hread as (Hv & Hsz & ->). destruct (take n (drop k file)) as [|b bs] eqn:E;
        [by change (zlen (@nil byte)) with 0 in Hz; lia|]. rewrite Hz. rewrite <- Nat2Z.inj_add.
      destruct fuel as [|fuel]; [lia|]. cbn [verify_loop]. rewrite Hsz.
      destruct (Z.ltb_spec (Z.of_nat (k + n)) size); [lia|done].
    + destruct r as [|e|]; try done.
  - destruct Hread as [-> ->]. destruct (take n (drop k file)) as [|b bs] eqn:E;
      [by change (zlen (@nil byte)) with 0 in Hz; lia|]. rewrite Hz. rewrite <- Nat2Z.inj_add.
    apply IH; lia.
Qed.
End reading.

(** ** Paths *)

Lemma append_same_length (a b x y : string) :
  String.length a = String.length b → a +:+ x = b +:+ y → a = b ∧ x = y.
Proof.
  revert b. induction a as [|c a IH]; intros [|c' b] Hl; try done.
  change ((String c a) +:+ x) with (String c (a +:+ x)).
  change ((String c' b) +:+ y) with (String c' (b +:+ y)).
  intros [= -> H]. destruct (IH b) as [-> ->]; [by injection Hl|done..].
Qed.

Lemma shardOf_two d : digest_wf d → ∃ c c' rest,
  digest_hex d = String c (String c' rest) ∧ shardOf d = String c (String c' "") ∧ c ≠ "."%char.
Proof.
  unfold shardOf, digest_hex, digest_wf. destruct (digest_bytes d) as [|b bs]; [done|]. intros _.
  cbn [toHex]. eexists _, _, _. split; [done|]. split.
  - unfold str_take. cbn. by destruct (toHex bs).
  - intros E. destruct (hex_byte b) as [Hn _]. cbv zeta in Hn. rewrite E in Hn. by vm_compute in Hn.
Qed.

Lemma digest_hex_length d : digest_wf d → String.length (digest_hex d) = 64%nat.
Proof. unfold digest_wf, digest_hex, kSha256Bytes. rewrite length_toHex. lia. Qed.

Lemma artifactPath_inj root d d' x y :
  digest_wf d → digest_wf d' →
  artifactPath root d +:+ x = artifactPath root d' +:+ y → d = d' ∧ x = y.
Proof.
  intros Hd Hd'. unfold artifactPath. rewrite !append_assoc.
  destruct (shardOf_two d Hd) as (a & a' & ? & _ & -> & _).
  destruct (shardOf_two d' Hd') as (b & b' & ? & _ & -> & _).
  intros H. apply (inj (String.append root)) in H. apply (inj (String.append "/payload/")) in H.
  apply append_same_length in H as [_ H]; [|done]. apply (inj (String.append "/")) in H.
  apply append_same_length in H as [H ->]; [|by rewrite !digest_hex_length].
  split; [|done]. by apply digest_bytes_inj, toHex_inj.
Qed.

Lemma stagingName_ne root suffix d x :
  digest_wf d → stagingName root suffix ≠ artifactPath root d +:+ x.
Proof.
  intros Hd. unfold stagingName, artifactPath. rewrite !append_assoc.
  destruct (shardOf_two d Hd) as (a & a' & ? & _ & -> & Ha).
  intros H. apply (inj (String.append root)) in H. apply (inj (String.append "/payload/")) in H.
  injection H as H _. by symmetry in H.
Qed.

(** The files an ingestion of [d] may touch. *)
Definition touched (root : string) (suffix : list byte) (d : Digest) (p : string) : Prop :=
  p = stagingName root suffix ∨ ∃ x, p = artifactPath root d +:+ x.

Lemma untouched_other root suffix d d' x :
  digest_wf d → digest_wf d' → d' ≠ d → ¬ touched root suffix d (artifactPath root d' +:+ x).
Proof.
  intros Hd Hd' Hne [H|[y H]].
  - symmetry in H. by apply stagingName_ne in H.
  - by apply artifactPath_inj in H as [].
Qed.

(** *** Frames *)

Lemma remove_file_other fails path fs p : p ≠ path → remove_file fails path fs !! p = fs !! p.
Proof. intros Hp. unfold remove_file. destruct fails; [done|]. by rewrite lookup_delete_ne. Qed.

Lemma touched_payload root suffix d : touched root suffix d (payloadPath root d).
Proof. right. by exists ".bin". Qed.
Lemma touched_metadata root suffix d : touched root suffix d (metadataPath root d).
Proof. right. by exists ".meta". Qed.
Lemma touched_corrupt root suffix d : touched root suffix d (payloadPath root d +:+ ".corrupt").
Proof. right. exists (".bin" +:+ ".corrupt"). unfold payloadPath. by rewrite append_assoc. Qed.
Lemma touched_temporary root suffix d s : touched root suffix d (tempSiblingPath s (metadataPath root d)).
Proof.
  right. exists (".meta" +:+ ".part-" +:+ toHex s). unfold tempSiblingPath, metadataPath.
  by rewrite !append_assoc.
Qed.
Create HintDb touched.
#[local] Hint Resolve touched_payload touched_metadata touched_corrupt touched_temporary : touched.

Section frame.
Context (root : string) (suffix : list byte) (d : Digest) (p : string).
Hypothesis untouched : ¬ touched root suffix d p.

Lemma untouched_ne q : touched root suffix d q → p ≠ q.
Proof. intros Hq ->. by apply untouched. Qed.

Lemma verify_frame faults st fs :
  ao_root (sr_options st) = root → (verify faults d st fs).1.1 !! p = fs !! p.
Proof.
  intros Hr. unfold verify. rewrite Hr. destruct (reader_open _ _ _ _ _); [|done..].
  destruct (verify_loop _ _ _ _ _). destruct (verify_outcome _ _ _) as [[] ?]; [|done]. cbn [negb].
  destruct (quarantine _ _ _ _) as [fs' st'] eqn:E. cbn [fst]. revert E. unfold quarantine. rewrite Hr.
  set (fs1 := if q_remove_fails _ then _ else _). assert (fs1 !! p = fs !! p) as Hf.
  { subst fs1. destruct (q_remove_fails _); [done|]. rewrite lookup_delete_ne; [done|].
    apply not_eq_sym, untouched_ne. auto with touched. }
  destruct (_ || _); intros [= <- _]; [done|].
  rewrite file_rename_other; auto using untouched_ne with touched.
Qed.

Lemma writeMetadata_frame faults s content fs :
  (writeFileAtomic faults s (metadataPath root d) content fs).1 !! p = fs !! p.
Proof. apply writeFileAtomic_other; apply untouched_ne; auto with touched. Qed.

Lemma publish_frame faults m size st fs :
  ao_root (sr_options st) = root →
  (publish faults m (stagingName root suffix) d size st fs).1.1 !! p = fs !! p.
Proof.
  intros Hr. unfold publish. rewrite Hr.
  assert (∀ b fs, remove_file b (stagingName root suffix) fs !! p = fs !! p) as Hstaged.
  { intros. apply remove_file_other, untouched_ne. by left. }
  destruct (if contains d st then _ else _); [|by cbn [fst]..].
  destruct (pb_mkdir_fails faults); [by cbn [fst]|].
  destruct (encodeArtifactMetadata _) as [encoded| |]; [|by cbn [fst]..].
  destruct (contains d st).
  - unfold republish. pose proof (verify_frame (pb_verify faults) st
      (remove_file (pb_remove_staged_fails faults) (stagingName root suffix) fs) Hr) as Hv.
    rewrite Hstaged in Hv. destruct (verify _ _ _ _) as [[fs1 st1] verified]. cbn [fst] in Hv.
    destruct verified; [|done..]. destruct (bool_decide _); [done|]. rewrite Hr.
    pose proof (writeMetadata_frame (pb_write faults) (pb_suffix faults) encoded fs1) as Hw.
    destruct (writeFileAtomic _ _ _ _ _). cbn [fst] in *. by rewrite Hw.
  - destruct (_ || _); [by cbn [fst]|].
    pose proof (writeMetadata_frame (pb_write faults) (pb_suffix faults) encoded
      (file_rename (stagingName root suffix) (payloadPath root d) fs)) as Hw.
    rewrite file_rename_other in Hw
      by (apply untouched_ne; [by left + auto with touched] || (apply untouched_ne; auto with touched)).
    destruct (writeFileAtomic _ _ _ _ _) as [fs2 written]. cbn [fst] in Hw.
    destruct written; cbn [fst]; [done|..];
      (rewrite remove_file_other by (apply untouched_ne; auto with touched)); done.
Qed.
End frame.

(** Ingestion of the artifact [d], from memory or from a file. *)
Inductive ingests (d : Digest) (s s' : FileSystem * ArtifactStore) : Prop :=
  | ingests_bytes faults content declared r :
      ingestBytes faults content declared s.2 s.1 = (s'.1, s'.2, r) →
      d = Digest_ofContent content → ingests d s s'
  | ingests_file faults source declared r :
      ingestFromFile faults source declared s.2 s.1 = (s'.1, s'.2, r) →
      d = md_digest declared → ingests d s s'.

Lemma ingests_frame d s s' p :
  (∀ suffix, ¬ touched (ao_root (sr_options s.2)) suffix d p) → ingests d s s' →
  s'.1 !! p = s.1 !! p.
Proof.
  destruct s as [fs st], s' as [fs' st']; cbn [fst snd]. intros Hp.
  assert (∀ x suffix f, (<[stagingName (ao_root (sr_options st)) suffix := x]> f : FileSystem) !! p = f !! p) as Hs.
  { intros x sfx f. apply lookup_insert_ne. intros <-. apply (Hp sfx). by left. }
  assert (∀ b suffix f, remove_file b (stagingName (ao_root (sr_options st)) suffix) f !! p = f !! p) as Hd.
  { intros b sfx f. apply remove_file_other. intros ->. apply (Hp sfx). by left. }
  intros [faults content declared r H E|faults source declared r H E]; cbn [fst snd] in H;
    change fs' with (fs', st', r).1.1; rewrite <- H.
  - unfold ingestBytes. do 4 (case_match; [done|]). case_match; [cbn [fst]; by rewrite Hd, Hs|].
    rewrite <- E, publish_frame with (suffix := ig_suffix faults) (d := d); [by rewrite Hs|apply Hp|done].
  - unfold ingestFromFile. destruct (fs !! source); [|done]. do 4 (case_match; [done|]).
    destruct (stage_loop _ _ _ _ _ _ _ _ _) as [[[h b] n] result].
    destruct (flush_result _ _ _); [|cbn [fst]; by rewrite Hd, Hs..].
    case_match; [cbn [fst]; by rewrite Hd, Hs|].
    destruct (bool_decide (fromBytes (Sha256.finish h) = md_digest declared)) eqn:Hb; cbn [negb];
      [|cbn [fst]; by rewrite Hd, Hs].
    apply bool_decide_eq_true in Hb. rewrite Hb, <- E.
    rewrite publish_frame with (suffix := ig_suffix faults) (d := d); [by rewrite Hs|apply Hp|done].
Qed.

Lemma ingests_evolves d s s' :
  0 < ao_readChunkBytes (sr_options s.2) → ingests d s s' → evolves d s.2 s'.2.
Proof.
  intros Hc [faults content declared r H ->|faults source declared r H ->].
  - by apply ingestBytes_evolves in H.
  - by apply ingestFromFile_evolves in H.
Qed.

(** An ingestion of one artifact, under every combination of system
    failures and whatever it answers, changes no other artifact: every other
    indexed entry stays, and its payload and metadata files are not touched. *)
Theorem ingestion_leaves_others d d' s s'
    (Hok : store_ok s.2) (Hchunk : 0 < ao_readChunkBytes (sr_options s.2))
    (Hd : digest_wf d) (Hd' : digest_wf d') (Hne : d' ≠ d) (H : ingests d s s') :
  let root := ao_root (sr_options s.2) in
  metadata d' s'.2 = metadata d' s.2
  ∧ s'.1 !! payloadPath root d' = s.1 !! payloadPath root d'
  ∧ s'.1 !! metadataPath root d' = s.1 !! metadataPath root d'.
Proof.
  intros root. split_and!.
  - unfold metadata. by rewrite (evolves_other _ _ _ _ Hok (ingests_evolves _ _ _ Hchunk H) Hne).
  - apply (ingests_frame d); [|done]. intros suffix. by apply untouched_other.
  - apply (ingests_frame d); [|done]. intros suffix. by apply untouched_other.
Qed.

(** ** Verification decides *)

Lemma metadata_Ok d st m :
  metadata d st = Ok m → index_find d (sr_index st) = Some m ∧ md_digest m = d.
Proof.
  unfold metadata. destruct (negb _); [done|]. destruct (index_find _ _) eqn:E; [|done].
  intros [= ->]. split; [done|]. by apply index_find_split in E as [].
Qed.

Lemma contains_find d st : contains d st = bool_decide (is_Some (index_find d (sr_index st))).
Proof. done. Qed.

Lemma payload_ne_corrupt p : p ≠ p +:+ ".corrupt".
Proof. apply append_longer_ne. by vm_compute. Qed.

Lemma quarantine_removes d st fs content :
  store_ok st → fs !! payloadPath (ao_root (sr_options st)) d = Some content →
  let path := payloadPath (ao_root (sr_options st)) d in
  let '(fs', st') := quarantine (mkQuarantineFaults false false) d st fs in
  contains d st' = false ∧ fs' !! path = None ∧ fs' !! (path +:+ ".corrupt") = Some content.
Proof.
  intros Hok Hf path. unfold quarantine. fold path. cbn [q_remove_fails q_rename_fails orb].
  pose proof (payload_ne_corrupt path) as Hne.
  rewrite lookup_delete_ne by done. fold path in Hf. rewrite Hf. rewrite bool_decide_eq_false_2 by done.
  unfold file_rename. rewrite lookup_delete_ne, Hf by done. split_and!.
  - rewrite contains_find, forget_find by done. by destruct (decide (d = d)).
  - by rewrite lookup_insert_ne, lookup_delete_eq by done.
  - by rewrite lookup_insert_eq.
Qed.

Lemma verify_decides d st fs m content :
  store_ok st → 0 < ao_readChunkBytes (sr_options st) →
  metadata d st = Ok m → 0 <= md_sizeBytes m < 2 ^ 64 →
  fs !! payloadPath (ao_root (sr_options st)) d = Some content →
  let path := payloadPath (ao_root (sr_options st)) d in
  let '(fs', st', r) := verify no_verify_faults d st fs in
  if verifies content (md_sizeBytes m) d then fs' = fs ∧ st' = st ∧ r = Ok tt
  else integrity_failure r ∧ contains d st' = false ∧ fs' !! path = None
       ∧ fs' !! (path +:+ ".corrupt") = Some content.
Proof.
  intros Hok Hc Hm Hsize Hf path. unfold verify, reader_open. rewrite Hm.
  cbn [vf_open_fails no_verify_faults vf_reads]. fold path in Hf. fold path. cbn [try_bind]. rewrite Hf.
  change (mkReader content Sha256.init (md_sizeBytes m) 0 d false) with (reading content (md_sizeBytes m) d 0).
  cbn [rd_size reading].
  assert (let '(rd, (corrupt, status)) := verify_loop (S (Z.to_nat (md_sizeBytes m)))
            (λ _, no_read_fault) (ao_readChunkBytes (sr_options st)) 0
            (reading content (md_sizeBytes m) d 0) in
          if verifies content (md_sizeBytes m) d
          then rd_verified rd = true ∧ corrupt = false ∧ status = Ok tt
          else corrupt = true ∧ integrity_failure status
               ∨ rd_verified rd = false ∧ corrupt = false ∧ status = Ok tt) as Hloop.
  { unfold verifies. destruct (Z.ltb_spec 0 (md_sizeBytes m)) as [Hpos|Hzero].
    - pose proof (verify_loop_in_order content (md_sizeBytes m) d Hsize (S (Z.to_nat (md_sizeBytes m)))
        (ao_readChunkBytes (sr_options st)) 0 Hc) as Hloop.
      specialize (Hloop ltac:(lia) ltac:(lia)). change (Z.of_nat 0) with 0 in Hloop.
      destruct (verify_loop _ _ _ _ _) as [rd [corrupt status]]. cbn [andb].
      destruct (declared_prefix _ _ _); [done|by left].
    - cbn [verify_loop rd_size reading]. destruct (Z.ltb_spec 0 (md_sizeBytes m)); [lia|]. by right. }
  destruct (verify_loop _ _ _ _ _) as [rd [corrupt status]]. unfold verify_outcome. cbn [snd].
  destruct (verifies _ _ _).
  - destruct Hloop as (Hv & -> & ->). by rewrite Hv.
  - pose proof (quarantine_removes d st fs content Hok Hf) as Hq.
    destruct Hloop as [[-> Hs]|(-> & -> & ->)]; [destruct status as [|e|]; try done|];
      cbn [is_ok andb negb vf_quarantine]; destruct (quarantine _ _ _ _) as [fs' st'];
      by destruct Hq as (? & ? & ?).
Qed.

(** C25: verification of an indexed artifact finds out. When the disk answers, it
    succeeds and changes nothing exactly if the artifact is not empty and the
    payload file begins with the declared number of bytes with the declared
    digest (what it holds behind them is never read); otherwise - also for every
    empty artifact - it reports an integrity error, the artifact leaves the
    index, so that it cannot be opened again, and the bytes of the file are kept
    under the quarantine name. *)
Theorem verify_detects d st fs m content
    (Hok : store_ok st) (Hchunk : 0 < ao_readChunkBytes (sr_options st))
    (Hm : metadata d st = Ok m) (Hsize : 0 <= md_sizeBytes m < 2 ^ 64)
    (Hfile : fs !! payloadPath (ao_root (sr_options st)) d = Some content) :
  let path := payloadPath (ao_root (sr_options st)) d in
  let '(fs', st', r) := verify no_verify_faults d st fs in
  if verifies content (md_sizeBytes m) d then fs' = fs ∧ st' = st ∧ r = Ok tt
  else integrity_failure r ∧ contains d st' = false ∧ fs' !! path = None
       ∧ fs' !! (path +:+ ".corrupt") = Some content.
Proof. by apply verify_decides. Qed.

(** ** Ingested content reads back *)

Lemma path_extension_ne root d x y : x ≠ y → artifactPath root d +:+ x ≠ artifactPath root d +:+ y.
Proof. intros Hne H. apply Hne. by apply (inj (String.append (artifactPath root d))) in H. Qed.

Lemma publish_fresh faults m staged d size st fs fs' st' content :
  publish faults m staged d size st fs = (fs', st', Ok tt) →
  contains d st = false → fs !! staged = Some content →
  budget size st = Ok tt
  ∧ st' = record_artifact (stored_metadata m d size) size st
  ∧ fs' !! payloadPath (ao_root (sr_options st)) d = Some content.
Proof.
  unfold publish. intros H Hn Hs. rewrite Hn in H.
  destruct (budget size st) as [[]| |] eqn:Hb; [|done..]. split; [done|].
  destruct (pb_mkdir_fails faults); [done|]. destruct (encodeArtifactMetadata _) as [encoded| |]; [|done..].
  destruct (_ || _); [done|].
  destruct (writeFileAtomic _ _ _ _ _) as [fs2 [[]| |]] eqn:E; [|done..].
  injection H as <- <-. split; [done|].
  set (path := payloadPath _ d) in *.
  pose proof (writeFileAtomic_other (pb_write faults) (pb_suffix faults)
    (metadataPath (ao_root (sr_options st)) d) encoded (file_rename staged path fs) path) as Hw.
  rewrite E in Hw. cbn [fst] in Hw. rewrite Hw.
  - unfold file_rename. rewrite Hs. apply lookup_insert_eq.
  - by apply path_extension_ne.
  - unfold tempSiblingPath, metadataPath. rewrite append_assoc. by apply path_extension_ne.
Qed.

Lemma ingestBytes_fresh faults content declared st fs fs' st' :
  ingestBytes faults content declared st fs = (fs', st', Ok tt) →
  contains (md_digest declared) st = false →
  md_digest declared = Digest_ofContent content ∧ md_sizeBytes declared = zlen content
  ∧ budget (zlen content) st = Ok tt
  ∧ st' = record_artifact declared (zlen content) st
  ∧ fs' !! payloadPath (ao_root (sr_options st)) (md_digest declared) = Some content.
Proof.
  unfold ingestBytes. destruct (_ >? _); [done|].
  destruct (Z.eqb_spec (zlen content) (md_sizeBytes declared)) as [Hz|]; [|done]. cbn [negb].
  destruct (bool_decide (Digest_ofContent content = md_digest declared)) eqn:Hd; [|done].
  apply bool_decide_eq_true in Hd. cbn [negb]. destruct (ig_open_fails faults); [done|].
  set (written := if bool_decide (content = []) then _ else _).
  destruct (Nat.eqb_spec (length written) (length content)) as [Hl|]; [|done]. cbn [negb orb].
  destruct (ig_flush faults); [done|]. rewrite bool_decide_eq_false_2 by (by intros []). intros H Hn.
  assert (written = content) as Hw.
  { subst written. case_bool_decide; [done|]. destruct (ig_write faults 0%nat); [|done].
    by apply take_length_full. }
  rewrite Hw in H. rewrite Hd in H. apply (publish_fresh _ _ _ _ _ _ _ _ _ content) in H; [|done|apply lookup_insert_eq].
  destruct H as (Hb & -> & Hf). split_and!; try done.
  f_equal. destruct declared; cbn in *. unfold stored_metadata. cbn. congruence.
Qed.

(** A read of a payload that verifies, through a fresh reader, anywhere. *)
Lemma readAt_fresh content d offset length :
  0 < zlen content < 2 ^ 64 → Digest_ofContent content = d →
  0 <= offset <= zlen content → 0 <= length →
  (readAt no_read_fault offset length (reading content (zlen content) d 0)).2
  = Ok (take (Z.to_nat length) (drop (Z.to_nat offset) content)).
Proof.
  intros Hs Hd Ho Hl. unfold readAt. cbn [rd_size reading seek_fails read_stops no_read_fault rd_file].
  destruct (Z.gtb_spec offset (zlen content)); [lia|].
  set (wanted := Z.min (zlen content - offset) length).
  assert (0 <= wanted <= zlen content - offset) as Hwanted by lia.
  assert (take (Z.to_nat wanted) (drop (Z.to_nat offset) content)
          = take (Z.to_nat length) (drop (Z.to_nat offset) content)) as Htake.
  { unfold wanted. destruct (Z.min_spec (zlen content - offset) length) as [[? ->]|[? ->]]; [|done].
    rewrite !take_ge; [done|rewrite length_drop; unfold zlen in *; lia..]. }
  assert (zlen (take (Z.to_nat wanted) (drop (Z.to_nat offset) content)) = wanted) as Hz
    by (unfold zlen, wanted in *; rewrite length_take, length_drop; lia).
  rewrite Hz, Z.eqb_refl. cbn [negb]. rewrite Htake in *.
  destruct (Z.eqb_spec offset 0) as [->|Hne].
  - change 0%Z with (Z.of_nat 0) at 1. change (Z.to_nat 0) with 0%nat in *. rewrite drop_0 in *.
    assert (take (Z.to_nat length) content = take (Z.to_nat wanted) content) as -> by done.
    assert (0 <= zlen content < 2 ^ 64) as Hw by lia.
    pose proof (consume_in_order content (zlen content) d Hw 0 (Z.to_nat wanted)) as Hc.
    rewrite drop_0 in Hc. cbv zeta in Hc.
    specialize (Hc ltac:(lia) ltac:(unfold zlen in *; lia)).
    destruct (reader_consume _ _ _) as [rd r]. cbn [snd].
    destruct (_ =? _); [|by destruct Hc].
    assert (declared_prefix content (zlen content) d = true) as Hi.
    { unfold declared_prefix. rewrite Z.leb_refl. cbn [andb]. apply bool_decide_eq_true.
      unfold zlen. by rewrite Nat2Z.id, take_ge. }
    rewrite Hi in Hc. by destruct Hc as (_ & _ & ->).
  - unfold reader_consume. cbn [rd_bytesRead reading]. change (Z.of_nat 0) with 0%Z.
    by destruct (Z.eqb_spec offset 0).
Qed.

Lemma ingestFromFile_fresh faults source original content declared st fs fs' st' :
  0 < ao_readChunkBytes (sr_options st) →
  fs !! source = Some original → ig_streamed faults original = content → ig_flush faults = None →
  ingestFromFile faults source declared st fs = (fs', st', Ok tt) →
  contains (md_digest declared) st = false →
  md_digest declared = Digest_ofContent content ∧ md_sizeBytes declared = zlen content
  ∧ budget (zlen content) st = Ok tt
  ∧ st' = record_artifact declared (zlen content) st
  ∧ fs' !! payloadPath (ao_root (sr_options st)) (md_digest declared) = Some content.
Proof.
  intros Hc Hsource Hstream Hflush. unfold ingestFromFile. rewrite Hsource, Hstream, Hflush.
  destruct (_ >? _); [done|]. destruct (negb _); [done|].
  destruct (ig_open_source_fails faults); [done|]. destruct (ig_open_fails faults); [done|].
  destruct (stage_loop _ _ _ _ _ _ _ _ _) as [[[h s] n] result] eqn:E.
  pose proof (stage_loop_spec _ faults (sr_options st) source
    (stagingName (ao_root (sr_options st)) (ig_suffix faults)) content
    Sha256.init [] 0 (Nat.lt_succ_diag_r _) Hc eq_refl eq_refl) as Hl. rewrite E in Hl.
  destruct (flush_result _ _ _) as [[]| |] eqn:Hr; [|done..].
  assert (result = Ok tt) as -> by (revert Hr; unfold flush_result; by destruct (_ && _)).
  destruct Hl as (-> & -> & ->). cbn [app]. destruct (Z.eqb_spec (zlen content) (md_sizeBytes declared)) as [Hz|];
    [cbn [negb]|done].
  change (fromBytes (Sha256.finish (Sha256.update Sha256.init content))) with (Digest_ofContent content).
  destruct (bool_decide (Digest_ofContent content = md_digest declared)) eqn:Hd; [|done].
  apply bool_decide_eq_true in Hd. cbn [negb]. intros H Hn. rewrite Hd in H.
  apply (publish_fresh _ _ _ _ _ _ _ _ _ content) in H; [|done|apply lookup_insert_eq].
  destruct H as (Hb & -> & Hf). split_and!; try done.
  f_equal. destruct declared; cbn in *. unfold stored_metadata. cbn. congruence.
Qed.

(** A successful ingestion of the bytes [content]: from memory, or from a source
    file that delivered them while no flush of the staging file failed. *)
Inductive ingested (content : list byte) (declared : ArtifactMetadata) (st : ArtifactStore)
    (fs : FileSystem) : FileSystem → ArtifactStore → Prop :=
  | ingested_bytes faults fs' st' :
      ingestBytes faults content declared st fs = (fs', st', Ok tt) →
      ingested content declared st fs fs' st'
  | ingested_file faults source original fs' st' :
      fs !! source = Some original → ig_streamed faults original = content →
      ig_flush faults = None →
      ingestFromFile faults source declared st fs = (fs', st', Ok tt) →
      ingested content declared st fs fs' st'.

Lemma ingested_fresh content declared st fs fs' st' :
  0 < ao_readChunkBytes (sr_options st) → ingested content declared st fs fs' st' →
  contains (md_digest declared) st = false →
  evolves (md_digest declared) st st'
  ∧ md_digest declared = Digest_ofContent content ∧ md_sizeBytes declared = zlen content
  ∧ st' = record_artifact declared (zlen content) st
  ∧ fs' !! payloadPath (ao_root (sr_options st)) (md_digest declared) = Some content.
Proof.
  intros Hc [faults fs1 st1 H|faults source original fs1 st1 Hs Hstream Hflush H] Hn.
  - pose proof (ingestBytes_evolves _ _ _ _ _ _ _ _ H) as Hev.
    apply ingestBytes_fresh in H as (Hd & Hz & _ & Hst & Hf); [|done].
    by rewrite <- Hd in Hev.
  - pose proof (ingestFromFile_evolves _ _ _ _ _ _ _ _ Hc H) as Hev.
    destruct (ingestFromFile_fresh _ _ _ _ _ _ _ _ _ Hc Hs Hstream Hflush H Hn) as (Hd & Hz & _ & Hst & Hf).
    done.
Qed.

(** C24: content ingested under its declaration reads back. When the ingestion
    of some bytes not yet in the store succeeds - from memory, whatever the disk
    did meanwhile, or from a source file that delivered them, whatever the disk
    did as long as no flush of the staging file failed - the index describes them
    as declared, and, if they are not empty, the payload verifies and a reader
    opened on it delivers exactly these bytes at every offset and length. (The
    declared digest must not be all zero, the value that stands for none.) A
    failed flush of the staging file is the exception
    ([truncated_payload_published]), and an empty artifact is indexed but never
    verifies ([empty_artifact_quarantined]). *)
Theorem ingested_reads_back content declared st fs fs' st'
    (Hok : store_ok st) (Hchunk : 0 < ao_readChunkBytes (sr_options st))
    (Hsize : zlen content < 2 ^ 64) (Hset : digest_isSet (md_digest declared) = true)
    (Hfresh : contains (md_digest declared) st = false)
    (H : ingested content declared st fs fs' st') :
  let d := md_digest declared in
  d = Digest_ofContent content ∧ md_sizeBytes declared = zlen content
  ∧ metadata d st' = Ok declared
  ∧ (content ≠ [] →
     verify no_verify_faults d st' fs' = (fs', st', Ok tt)
     ∧ ∃ rd, reader_open (ao_root (sr_options st)) false d st' fs' = Ok rd
       ∧ ∀ offset length, 0 <= offset <= zlen content → 0 <= length →
         (readAt no_read_fault offset length rd).2
         = Ok (take (Z.to_nat length) (drop (Z.to_nat offset) content))).
Proof.
  intros d. destruct (ingested_fresh _ _ _ _ _ _ Hchunk H Hfresh) as (Hev & Hd & Hz & Hst & Hf).
  fold d in Hd, Hf, Hset, Hfresh, Hev.
  assert (store_ok st') as Hok' by by eapply evolves_ok.
  assert (sr_options st' = sr_options st) as Ho by by eapply evolves_options.
  assert (metadata d st' = Ok declared) as Hm.
  { unfold metadata. rewrite Hset. cbn [negb]. rewrite contains_find, bool_decide_eq_false in Hfresh.
    apply eq_None_not_Some in Hfresh. subst st'.
    destruct (record_artifact_find declared (zlen content) d st Hok Hfresh) as [_ ->].
    by destruct (decide (d = md_digest declared)). }
  split; [done|]. split; [done|]. split; [done|]. intros Hne.
  assert (0 < zlen content) as Hpos by (destruct content; [done|rewrite zlen_cons; pose proof (zlen_nonneg content); lia]).
  split.
  - rewrite <- Ho in Hf, Hchunk. assert (0 <= md_sizeBytes declared < 2 ^ 64) as Hw by lia.
    pose proof (verify_decides d st' fs' declared content Hok' Hchunk Hm Hw Hf) as Hv. cbv zeta in Hv.
    assert (verifies content (md_sizeBytes declared) d = true) as Hi.
    { unfold verifies, declared_prefix. rewrite Hz, Z.leb_refl, (proj2 (Z.ltb_lt _ _)) by done. cbn [andb].
      apply bool_decide_eq_true. unfold zlen. by rewrite Nat2Z.id, take_ge. }
    rewrite Hi in Hv. destruct (verify _ _ _ _) as [[? ?] ?]. by destruct Hv as (-> & -> & ->).
  - exists (reading content (zlen content) d 0). split.
    + unfold reader_open. rewrite Hm. cbn [try_bind]. by rewrite Hf, Hz.
    + intros offset length. by apply readAt_fresh.
Qed.

(** ** Instances *)

Definition example_options : ArtifactOptions := mkArtifactOptions "store" 64 1024 4 16.
Definition example_content : list byte := bytes_of_string "mtu 9000 on every spine port".
Definition example_declared (content : list byte) : ArtifactMetadata :=
  mkArtifactMetadata (md_id example_metadata) (md_revision example_metadata)
    (md_schema example_metadata) (md_schemaVersion example_metadata) (Digest_ofContent content)
    (zlen content) (md_mediaType example_metadata) (md_producer example_metadata) 0 0.
Definition no_publish_faults : PublishFaults :=
  mkPublishFaults false false false no_faults [Byte.x01] false no_verify_faults.
Definition no_ingest_faults : IngestFaults :=
  mkIngestFaults [Byte.x02] false false (λ c, c) false (λ _, None) None false no_publish_faults.

Definition example_ingest (content : list byte) : FileSystem * ArtifactStore * Status :=
  ingestBytes no_ingest_faults content (example_declared content) (empty_store example_options) ∅.

Example example_ingest_succeeds : (example_ingest example_content).2 = Ok tt.
Proof. by vm_compute. Qed.

Lemma artifact_store_invariant_witness :
  ∃ fs st, rtc artifact_step (∅, empty_store example_options) (fs, st) ∧ artifactCount st = 1
    ∧ usedBytes st = total_size (sr_index st).
Proof.
  set (s := example_ingest example_content).
  exists s.1.1, s.1.2.
  assert (rtc artifact_step (∅, empty_store example_options) (s.1.1, s.1.2)) as Hrun.
  { eapply rtc_once, (step_ingestBytes no_ingest_faults example_content (example_declared example_content)).
    apply surjective_pairing. }
  split; [exact Hrun|]. split; [by vm_compute|].
  eapply (artifact_store_invariant example_options ∅ s.1.1 s.1.2); [|done|exact Hrun]. by vm_compute.
Defined.

(** The store after that ingestion. *)
Definition example_state : FileSystem * ArtifactStore := (example_ingest example_content).1.
Definition example_digest : Digest := Digest_ofContent example_content.

Lemma example_ingest_eq : example_ingest example_content = (example_state.1, example_state.2, Ok tt).
Proof. rewrite <- example_ingest_succeeds. apply surjective_pairing || by destruct (example_ingest _) as [[]]. Qed.

Lemma example_empty_ok : store_ok (empty_store example_options).
Proof. apply empty_store_ok; by vm_compute. Qed.

Lemma example_state_ok : store_ok example_state.2.
Proof. eapply evolves_ok; [eapply ingestBytes_evolves, example_ingest_eq|apply example_empty_ok]. Qed.

(** The same content, from a source file. *)
Definition file_ingested : FileSystem * ArtifactStore * Status :=
  ingestFromFile no_ingest_faults "source" (example_declared example_content)
    (empty_store example_options) {["source" := example_content]}.
Lemma file_ingested_succeeds : file_ingested.2 = Ok tt.
Proof. by vm_compute. Qed.
Lemma file_ingested_eq : file_ingested = (file_ingested.1.1, file_ingested.1.2, Ok tt).
Proof. rewrite <- file_ingested_succeeds. by destruct file_ingested as [[]]. Qed.

Lemma ingested_reads_back_witness :
  verify no_verify_faults example_digest example_state.2 example_state.1
  = (example_state.1, example_state.2, Ok tt)
  ∧ verify no_verify_faults example_digest file_ingested.1.2 file_ingested.1.1
    = (file_ingested.1.1, file_ingested.1.2, Ok tt).
Proof.
  assert (example_content ≠ []) as Hne by (vm_compute; discriminate).
  split.
  - eapply (ingested_reads_back example_content (example_declared example_content)
      (empty_store example_options) ∅); [apply example_empty_ok|by vm_compute..| |exact Hne].
    apply (ingested_bytes _ _ _ _ no_ingest_faults), example_ingest_eq.
  - eapply (ingested_reads_back example_content (example_declared example_content)
      (empty_store example_options) {["source" := example_content]});
      [apply example_empty_ok|by vm_compute..| |exact Hne].
    apply (ingested_file _ _ _ _ no_ingest_faults "source" example_content);
      [reflexivity|reflexivity|reflexivity|apply file_ingested_eq].
Defined.

(** One bit of the payload file is flipped. *)
Definition tampered : FileSystem :=
  <[payloadPath "store" example_digest := bytes_of_string "mtu 9001 on every spine port"]>
    example_state.1.

Lemma verify_detects_witness :
  integrity_failure (verify no_verify_faults example_digest example_state.2 tampered).2
  ∧ contains example_digest (verify no_verify_faults example_digest example_state.2 tampered).1.2 = false.
Proof.
  assert (metadata example_digest example_state.2 = Ok (example_declared example_content)) as Hm
    by by vm_compute.
  assert (0 <= md_sizeBytes (example_declared example_content) < 2 ^ 64) as Hwidth
    by (vm_compute; split; congruence).
  pose proof (verify_detects example_digest example_state.2 tampered _
    (bytes_of_string "mtu 9001 on every spine port") example_state_ok eq_refl Hm
    Hwidth (lookup_insert_eq _ _ _)) as H. cbv zeta in H.
  assert (verifies (bytes_of_string "mtu 9001 on every spine port") (md_sizeBytes (example_declared example_content))
    example_digest = false) as Hi by by vm_compute.
  rewrite Hi in H. destruct (verify _ _ _ _) as [[fs' st'] r]. exact (conj (proj1 H) (proj1 (proj2 H))).
Defined.

Lemma ingestion_leaves_others_witness :
  let other := bytes_of_string "ntp server 10.0.0.1" in
  let s := (ingestBytes no_ingest_faults other (example_declared other) example_state.2 example_state.1).1 in
  metadata example_digest s.2 = metadata example_digest example_state.2.
Proof.
  intros other s.
  refine (proj1 (ingestion_leaves_others (Digest_ofContent other) example_digest example_state s
    example_state_ok eq_refl _ _ _ _)).
  - apply ofContent_wf.
  - apply ofContent_wf.
  - intros H. apply (f_equal digest_bytes) in H. by vm_compute in H.
  - apply (ingests_bytes _ _ _ no_ingest_faults other (example_declared other)
      (ingestBytes no_ingest_faults other (example_declared other) example_state.2 example_state.1).2);
      [|done].
    unfold s. by destruct (ingestBytes no_ingest_faults _ _ _ _) as [[]].
Defined.

(** ** Behaviours worth knowing *)

(** A seek error is not an integrity error: verification answers success
    although it read nothing. *)
Example verify_ignores_seek_errors :
  let '(_, st, r) :=
    verify (mkVerifyFaults false (λ _, mkReadFault true None) (mkQuarantineFaults false false))
      example_digest example_state.2 tampered in
  r = Ok tt ∧ contains example_digest st = true.
Proof. by vm_compute. Qed.

(** An empty artifact can be ingested and never verifies: no byte is read, so
    the digest is never compared. *)
Example empty_artifact_quarantined :
  let '(fs, st, r) := example_ingest [] in
  r = Ok tt ∧ artifactCount st = 1
  ∧ let '(_, st', r') := verify no_verify_faults (Digest_ofContent []) st fs in
    integrity_failure r' ∧ artifactCount st' = 0.
Proof. by vm_compute. Qed.

(** Ingesting the right content again over a corrupt payload deletes the good
    staged copy, quarantines the artifact and fails. *)
Example reingest_over_corruption_fails :
  let '(fs, st, r) := ingestBytes no_ingest_faults example_content (example_declared example_content)
                        example_state.2 tampered in
  integrity_failure r ∧ artifactCount st = 0 ∧ fs !! payloadPath "store" example_digest = None.
Proof. by vm_compute. Qed.

(** A second sequential pass of the reader is refused: the finished hasher is
    used again. *)
Example reading_past_the_end_fails :
  let rd := reading example_content (zlen example_content) example_digest 0 in
  let '(rd1, r1) := readAt no_read_fault 0 64 rd in
  let '(_, r2) := readAt no_read_fault (zlen example_content) 64 rd1 in
  r1 = Ok example_content ∧ integrity_failure r2.
Proof. by vm_compute. Qed.

(** The inverted test after [fflush]: the flush failed, half of the content
    reached the disk, and the ingestion reports success for an artifact whose
    payload does not verify. *)
Example truncated_payload_published :
  let faults := mkIngestFaults [Byte.x02] false false (λ c, c) false (λ _, None) (Some 5%nat) false
                  no_publish_faults in
  let '(fs, st, r) := ingestFromFile faults "source" (example_declared example_content)
                        (empty_store example_options) {["source" := example_content]} in
  r = Ok tt ∧ fs !! payloadPath "store" example_digest = Some (take 5 example_content)
  ∧ integrity_failure (verify no_verify_faults example_digest st fs).2.
Proof. by vm_compute. Qed.

(** Two publications whose checks of the budgets both come before either is
    recorded: each check passes, and the budget of one artifact holds two. *)
Example overlapping_publications_exceed_budget :
  let st := empty_store (mkArtifactOptions "store" 64 1024 1 16) in
  let other := bytes_of_string "ntp server 10.0.0.1" in
  budget (zlen example_content) st = Ok tt ∧ budget (zlen other) st = Ok tt
  ∧ let st := record_artifact (example_declared example_content) (zlen example_content) st in
    let st := record_artifact (example_declared other) (zlen other) st in
    artifactCount st = 2 ∧ ao_maxArtifacts (sr_options st) = 1.
Proof. by vm_compute. Qed.
