(* ===== verification/Endpoint.v ===== *)
(** * Endpoints

    Models [Endpoint] and [parseEndpoint] of src/transport.cpp: the host:port
    text an operator or upstream supplies. *)

From Stdlib Require Import Strings.Ascii DecimalString.
From S2P Require Import Prelude Result Ids Text.

Record Endpoint := mkEndpoint { host : string; port : Z }.

Definition Endpoint_str (e : Endpoint) : string := host e +:+ ":" +:+ to_string (port e).

Definition endpoint_isSet (e : Endpoint) : bool :=
  negb (bool_decide (host e = "")) && negb (port e =? 0).

Definition host_char (c : Ascii.ascii) : bool :=
  let raw := char_code c in
  let digit := (48 <=? raw) && (raw <=? 57) in
  let upper := (65 <=? raw) && (raw <=? 90) in
  let lower := (97 <=? raw) && (raw <=? 122) in
  let punctuation := (raw =? 46) || (raw =? 45) || (raw =? 95) || (raw =? 58) in
  negb (negb digit && negb upper && negb lower && negb punctuation).

(** The port loop. *)
Fixpoint parsePort (text whole : string) (port : Z) : Result Z :=
  match text with
  | EmptyString => Ok port
  | String c rest =>
      if (char_code c <? 48) || (char_code c >? 57)
      then fail_detail ErrorCode.InvalidArgument "endpoint port is not a decimal integer" whole
      else
        let port := (port * 10 + (char_code c - 48)) mod 2 ^ 32 in
        if port >? 65535
        then fail_detail ErrorCode.OutOfRange "endpoint port is out of range" whole
        else parsePort rest whole port
  end.

Definition parseEndpoint (text : string) : Result Endpoint :=
  if (slen text =? 0) || (slen text >? 128)
  then fail ErrorCode.InvalidArgument "endpoint text is empty or too long"
  else
    match rfind ":"%char text with
    | None => fail_detail ErrorCode.InvalidArgument "endpoint must be written as host:port" text
    | Some colon =>
        if (colon =? 0)%nat || (String.length text <=? colon + 1)%nat
        then fail_detail ErrorCode.InvalidArgument "endpoint must be written as host:port" text
        else
          let hostText := str_take colon text in
          let portText := str_drop (colon + 1) text in
          if negb (string_forallb host_char hostText)
          then fail_detail ErrorCode.InvalidArgument
                 "endpoint host contains an unsupported character" text
          else
            let* port := parsePort portText text 0 in
            Ok (mkEndpoint hostText port)
    end.

(** ** Lemmas *)

Lemma parsePort_range text whole port v :
  0 <= port <= 65535 → parsePort text whole port = Ok v → 0 <= v <= 65535.
Proof.
  revert port. induction text as [|c text IH]; intros port Hp; cbn [parsePort]; [by intros [= <-]|].
  destruct (Z.ltb_spec (char_code c) 48); [done|].
  destruct (Z.gtb_spec (char_code c) 57); [done|]. simpl orb. cbv iota.
  rewrite Z.mod_small by lia.
  destruct (Z.gtb_spec (port * 10 + (char_code c - 48)) 65535); [done|]. apply IH. lia.
Qed.

Lemma split_at_colon text colon :
  rfind ":"%char text = Some colon →
  text = str_take colon text +:+ ":" +:+ str_drop (colon + 1) text.
Proof.
  unfold str_take. revert colon. induction text as [|c text IH]; intros colon; simpl; [done|].
  destruct (rfind ":"%char text) as [i|] eqn:E.
  - intros [= <-]. change (String c text =
      String c (String.substring 0 i text +:+ ":" +:+ str_drop (i + 1) text)).
    f_equal. exact (IH i eq_refl).
  - destruct (Ascii.eqb_spec c ":"%char) as [->|]; [|done]. intros [= <-]. simpl.
    by destruct text.
Qed.

(** ** Properties *)

(** An accepted endpoint has a non-empty host of the accepted characters
    and a port that fits sixteen bits, and the host is everything before the
    last colon of the text. *)
Theorem parseEndpoint_sound text e (H : parseEndpoint text = Ok e) :
  0 <= port e < 2 ^ 16 ∧ host e ≠ "" ∧ string_forallb host_char (host e) = true
  ∧ ∃ portText, text = host e +:+ ":" +:+ portText ∧ portText ≠ "".
Proof.
  unfold parseEndpoint in H. destruct (_ || _); [done|].
  destruct (rfind ":"%char text) as [colon|] eqn:Hc; [|done].
  destruct (Nat.eqb_spec colon 0); [done|].
  destruct (Nat.leb_spec (String.length text) (colon + 1)) as [|Hlen]; [done|]. simpl in H.
  destruct (string_forallb host_char (str_take colon text)) eqn:Hh; [|done]. simpl in H.
  apply try_bind_Ok in H as (p & Hp & [= <-]). cbn [port host].
  apply parsePort_range in Hp; [|lia]. pose proof (split_at_colon _ _ Hc) as Hs.
  split; [lia|]. split; [|split; [done|]].
  - destruct colon; [done|]. by destruct text.
  - exists (str_drop (colon + 1) text). split; [done|]. intros E. rewrite E in Hs.
    apply (f_equal slen) in Hs. rewrite !slen_append in Hs.
    pose proof (str_take_length colon text). unfold slen in *. simpl in *. lia.
Qed.

Lemma parseEndpoint_sound_witness : 0 <= port (mkEndpoint "::1" 8080) < 2 ^ 16.
Proof. refine (proj1 (parseEndpoint_sound "::1:8080" _ _)). vm_compute. reflexivity. Defined.
