(* ===== verification/Plan.v ===== *)
(** * Deployment plans

    Models include/cf/plan.hpp and src/plan.cpp: the line-oriented text an
    upstream hands to the distributor, its parser and its printer. The parser
    is a fold over the lines of the text, with the local variables of
    [parseDeploymentPlan] as its state. *)

From stdpp Require Import gmap.
From Stdlib Require Import Strings.Ascii.
From S2P Require Import Prelude Result Checked Hash Ids Text Codec Files Artifact Endpoint.

(** ** Data *)

Definition kDeploymentPlanFormatVersion : Z := 1.
Definition kMaxPlanBytes : Z := 4 * 1024 * 1024.
Definition kMaxPlanLineBytes : Z := 4096.
Definition kMaxPlanTargets : Z := 4096.
Definition kMaxPlanSourcePathBytes : Z := 512.

Record DeploymentInstruction := mkInstruction {
  di_target : TargetId;
  di_targetClass : TargetClass;
  di_declaredGuarantee : ApplyGuarantee;
  di_configKey : ConfigKey;
  di_artifact : ArtifactId;
  di_revision : Revision;
  di_generation : Generation;
  di_schema : SchemaId;
  di_schemaVersion : SchemaVersion;
  di_digest : Digest;
  di_sizeBytes : Z;
  di_requirement : GuaranteeRequirement;
  di_mediaType : string;
  di_producer : string;
  di_sourcePath : string;
  di_endpoint : string;
}.

(** [DeploymentInstruction{}] with its target. *)
Definition new_instruction (target : TargetId) : DeploymentInstruction :=
  mkInstruction target TargetClass.Unspecified ApplyGuarantee.AtomicActivate id_empty id_empty
    num_unset num_unset id_empty num_unset digest_unset 0 GuaranteeRequirement.RequireAtomic
    "application/octet-stream" "" "" "".

Record DeploymentPlan := mkPlan {
  pl_setId : DeploymentSetId;
  pl_rolloutSet : RolloutSetId;
  pl_instructions : list DeploymentInstruction;
}.

(** ** Lines *)

Definition plan_space (c : Ascii.ascii) : bool :=
  Ascii.eqb c " " || Ascii.eqb c "009" || Ascii.eqb c "013".
Definition trim (text : string) : string := trim_back plan_space (trim_front plan_space text).

Definition newline : Ascii.ascii := "010".

Definition parseUnsigned (text what : string) : Result Z :=
  if decide (text = "") then fail ErrorCode.MissingField ("missing value for " +:+ what)
  else
    parse_decimal 64
      (mkError ErrorCode.InvalidArgument ("expected a decimal integer for " +:+ what) text)
      (mkError ErrorCode.ArithmeticOverflow ("integer overflow in " +:+ what) "")
      text 0.

Record Line := mkLine { number : Z; text_of : string }.

(** The lines from number [n] on. *)
Fixpoint number_lines (n : Z) (raws : list string) : Result (list Line) :=
  match raws with
  | [] => Ok []
  | raw :: raws =>
      if slen raw >? kMaxPlanLineBytes then
        fail_detail ErrorCode.LimitExceeded "plan line exceeds the accepted length" (to_string n)
      else if n >? kMaxPlanTargets * 16 + 64 then
        fail ErrorCode.LimitExceeded "plan has more lines than the format permits"
      else
        let* lines := number_lines (n + 1) raws in
        Ok (mkLine n (trim raw) :: lines)
  end.

Definition splitLines (text : string) : Result (list Line) :=
  number_lines 1 (split_on newline text).

(** ** The parser *)

Record PlanState := mkPlanState {
  ps_plan : DeploymentPlan;
  ps_haveHeader : bool;
  ps_haveSetId : bool;
  ps_inTarget : bool;
  ps_current : DeploymentInstruction;
  ps_seenFields : gset string;
  ps_seenTargets : gset string;
}.

Definition PlanState_initial : PlanState :=
  mkPlanState (mkPlan id_empty id_empty []) false false false (new_instruction id_empty) ∅ ∅.

Definition set_header (s : PlanState) : PlanState :=
  mkPlanState (ps_plan s) true (ps_haveSetId s) (ps_inTarget s) (ps_current s) (ps_seenFields s)
    (ps_seenTargets s).
Definition set_setId (id : DeploymentSetId) (s : PlanState) : PlanState :=
  mkPlanState (mkPlan id (pl_rolloutSet (ps_plan s)) (pl_instructions (ps_plan s)))
    (ps_haveHeader s) true (ps_inTarget s) (ps_current s) (ps_seenFields s) (ps_seenTargets s).
Definition set_rolloutSet (id : RolloutSetId) (s : PlanState) : PlanState :=
  mkPlanState (mkPlan (pl_setId (ps_plan s)) id (pl_instructions (ps_plan s)))
    (ps_haveHeader s) (ps_haveSetId s) (ps_inTarget s) (ps_current s) (ps_seenFields s)
    (ps_seenTargets s).
Definition open_target (target : TargetId) (s : PlanState) : PlanState :=
  mkPlanState (ps_plan s) (ps_haveHeader s) (ps_haveSetId s) true (new_instruction target)
    {["target"]} (ps_seenTargets s).
Definition close_target (s : PlanState) : PlanState :=
  mkPlanState (ps_plan s) (ps_haveHeader s) (ps_haveSetId s) false (ps_current s)
    (ps_seenFields s) (ps_seenTargets s).
Definition set_field (keyword : string) (current : DeploymentInstruction) (s : PlanState)
    : PlanState :=
  mkPlanState (ps_plan s) (ps_haveHeader s) (ps_haveSetId s) (ps_inTarget s) current
    ({[keyword]} ∪ ps_seenFields s) (ps_seenTargets s).

Definition at_line (line : Z) : string := "line " +:+ to_string line.
Definition at_line_detail (line : Z) (detail : string) : string :=
  at_line line +:+ ": " +:+ detail.

Definition reject {A} (line : Z) (message detail : string) : Result A :=
  fail_detail ErrorCode.MalformedInput message (at_line_detail line detail).

Definition mandatory : list string :=
  ["class"; "guarantee"; "config-key"; "artifact"; "revision"; "generation"; "schema";
   "schema-version"; "digest"; "size"; "requires"; "target"].

(** The [finishTarget] closure. *)
Definition finishTarget (line : Z) (s : PlanState) : Result PlanState :=
  let current := ps_current s in
  match list_find (λ field, field ∉ ps_seenFields s) mandatory with
  | Some (_, field) =>
      reject line "target block is missing a mandatory field" ("missing '" +:+ field +:+ "'")
  | None =>
      if di_sizeBytes current =? 0 then
        reject line "target block declares an empty artifact" "size must be greater than zero"
      else if negb (digest_isSet (di_digest current)) then
        reject line "target block declares the all-zero digest"
          "digest must be a real content digest"
      else if value (di_generation current) =? 0 then
        reject line "target block declares generation 0"
          "generation 0 is reserved as the unset generation"
      else if bool_decide (str (di_target current) ∈ ps_seenTargets s) then
        reject line "duplicate target in deployment set" (str (di_target current))
      else
        Ok (mkPlanState
              (mkPlan (pl_setId (ps_plan s)) (pl_rolloutSet (ps_plan s))
                 (pl_instructions (ps_plan s) ++ [current]))
              (ps_haveHeader s) (ps_haveSetId s) (ps_inTarget s) current (ps_seenFields s)
              ({[str (di_target current)]} ∪ ps_seenTargets s))
  end.

(** ** The fields of a target block *)

Definition with_targetClass (x : TargetClass) (i : DeploymentInstruction) : DeploymentInstruction :=
  let '(mkInstruction t _ g k a r n s sv d z q m p sp e) := i in
  mkInstruction t x g k a r n s sv d z q m p sp e.
Definition with_declaredGuarantee (x : ApplyGuarantee) (i : DeploymentInstruction) : DeploymentInstruction :=
  let '(mkInstruction t c _ k a r n s sv d z q m p sp e) := i in
  mkInstruction t c x k a r n s sv d z q m p sp e.
Definition with_configKey (x : ConfigKey) (i : DeploymentInstruction) : DeploymentInstruction :=
  let '(mkInstruction t c g _ a r n s sv d z q m p sp e) := i in
  mkInstruction t c g x a r n s sv d z q m p sp e.
Definition with_artifact (x : ArtifactId) (i : DeploymentInstruction) : DeploymentInstruction :=
  let '(mkInstruction t c g k _ r n s sv d z q m p sp e) := i in
  mkInstruction t c g k x r n s sv d z q m p sp e.
Definition with_revision (x : Revision) (i : DeploymentInstruction) : DeploymentInstruction :=
  let '(mkInstruction t c g k a _ n s sv d z q m p sp e) := i in
  mkInstruction t c g k a x n s sv d z q m p sp e.
Definition with_generation (x : Generation) (i : DeploymentInstruction) : DeploymentInstruction :=
  let '(mkInstruction t c g k a r _ s sv d z q m p sp e) := i in
  mkInstruction t c g k a r x s sv d z q m p sp e.
Definition with_schema (x : SchemaId) (i : DeploymentInstruction) : DeploymentInstruction :=
  let '(mkInstruction t c g k a r n _ sv d z q m p sp e) := i in
  mkInstruction t c g k a r n x sv d z q m p sp e.
Definition with_schemaVersion (x : SchemaVersion) (i : DeploymentInstruction) : DeploymentInstruction :=
  let '(mkInstruction t c g k a r n s _ d z q m p sp e) := i in
  mkInstruction t c g k a r n s x d z q m p sp e.
Definition with_digest (x : Digest) (i : DeploymentInstruction) : DeploymentInstruction :=
  let '(mkInstruction t c g k a r n s sv _ z q m p sp e) := i in
  mkInstruction t c g k a r n s sv x z q m p sp e.
Definition with_sizeBytes (x : Z) (i : DeploymentInstruction) : DeploymentInstruction :=
  let '(mkInstruction t c g k a r n s sv d _ q m p sp e) := i in
  mkInstruction t c g k a r n s sv d x q m p sp e.
Definition with_requirement (x : GuaranteeRequirement) (i : DeploymentInstruction) : DeploymentInstruction :=
  let '(mkInstruction t c g k a r n s sv d z _ m p sp e) := i in
  mkInstruction t c g k a r n s sv d z x m p sp e.
Definition with_mediaType (x : string) (i : DeploymentInstruction) : DeploymentInstruction :=
  let '(mkInstruction t c g k a r n s sv d z q _ p sp e) := i in
  mkInstruction t c g k a r n s sv d z q x p sp e.
Definition with_producer (x : string) (i : DeploymentInstruction) : DeploymentInstruction :=
  let '(mkInstruction t c g k a r n s sv d z q m _ sp e) := i in
  mkInstruction t c g k a r n s sv d z q m x sp e.
Definition with_sourcePath (x : string) (i : DeploymentInstruction) : DeploymentInstruction :=
  let '(mkInstruction t c g k a r n s sv d z q m p _ e) := i in
  mkInstruction t c g k a r n s sv d z q m p x e.
Definition with_endpoint (x : string) (i : DeploymentInstruction) : DeploymentInstruction :=
  let '(mkInstruction t c g k a r n s sv d z q m p sp _) := i in
  mkInstruction t c g k a r n s sv d z q m p sp x.

(** [if (!parse(value, field))]. *)
Definition or_unknown {A} (parsed : option A) (message : string) (line : Z) (value : string)
    : Result A :=
  match parsed with
  | Some a => Ok a
  | None => fail_detail ErrorCode.InvalidArgument message (at_line_detail line value)
  end.

(** The keywords inside a target block. *)
Definition assign_field (line : Z) (keyword value : string) (i : DeploymentInstruction)
    : Result DeploymentInstruction :=
  if decide (keyword = "class") then
    let* c := or_unknown (parseTargetClass value) "unknown target class" line value in
    Ok (with_targetClass c i)
  else if decide (keyword = "guarantee") then
    let* g := or_unknown (parseApplyGuarantee value) "unknown apply guarantee" line value in
    Ok (with_declaredGuarantee g i)
  else if decide (keyword = "config-key") then
    let* key := parseConfigKey value in Ok (with_configKey key i)
  else if decide (keyword = "artifact") then
    let* artifact := parseArtifactId value in Ok (with_artifact artifact i)
  else if decide (keyword = "revision") then
    let* parsed := parseUnsigned value "revision" in Ok (with_revision (fromValue parsed) i)
  else if decide (keyword = "generation") then
    let* parsed := parseUnsigned value "generation" in Ok (with_generation (fromValue parsed) i)
  else if decide (keyword = "schema") then
    let* schema := parseSchemaId value in Ok (with_schema schema i)
  else if decide (keyword = "schema-version") then
    let* parsed := parseUnsigned value "schema-version" in
    match checkedCast (mkInt false 32) (mkInt false 64) parsed with
    | None => fail_detail ErrorCode.OutOfRange "schema-version is out of range" (at_line line)
    | Some narrowed => Ok (with_schemaVersion (fromValue narrowed) i)
    end
  else if decide (keyword = "digest") then
    let* digest := Digest_parse value in Ok (with_digest digest i)
  else if decide (keyword = "size") then
    let* size := parseUnsigned value "size" in Ok (with_sizeBytes size i)
  else if decide (keyword = "requires") then
    let* r := or_unknown (parseGuaranteeRequirement value) "unknown guarantee requirement"
                line value in
    Ok (with_requirement r i)
  else if decide (keyword = "media-type") then
    if (slen value =? 0) || (slen value >? kMaxMediaTypeBytes)
    then fail_detail ErrorCode.InvalidArgument "media-type is empty or too long" (at_line line)
    else Ok (with_mediaType value i)
  else if decide (keyword = "producer") then
    if slen value >? kMaxProducerBytes
    then fail_detail ErrorCode.InvalidArgument "producer is too long" (at_line line)
    else Ok (with_producer value i)
  else if decide (keyword = "source") then
    if (slen value =? 0) || (slen value >? kMaxPlanSourcePathBytes)
    then fail_detail ErrorCode.InvalidArgument "source path is empty or too long" (at_line line)
    else Ok (with_sourcePath value i)
  else if decide (keyword = "endpoint") then
    match parseEndpoint value with
    | Ok endpoint =>
        if negb (endpoint_isSet endpoint)
        then fail_detail ErrorCode.OutOfRange "endpoint is not a dialable host:port pair"
               (at_line line)
        else Ok (with_endpoint value i)
    | Fail e => fail_detail (code e) "endpoint is not a dialable host:port pair" (at_line line)
    | Abort why => Abort why
    end
  else
    fail_detail ErrorCode.MalformedInput "unknown keyword inside a target block"
      (at_line_detail line keyword).

(** ** One line *)

Definition keyword_of (text : string) : string :=
  match cut " " text with Some (keyword, _) => keyword | None => text end.
Definition value_of (text : string) : string :=
  match cut " " text with Some (_, rest) => trim rest | None => "" end.

Definition plan_line (line : Line) (s : PlanState) : Result PlanState :=
  let n := number line in
  let keyword := keyword_of (text_of line) in
  let value := value_of (text_of line) in
  match text_of line with
  | EmptyString => Ok s
  | String front _ =>
      if Ascii.eqb front "#" then Ok s
      else if negb (ps_haveHeader s) then
        if negb (bool_decide (keyword = "cf-plan")) then
          fail_detail ErrorCode.MalformedInput
            "deployment plan must start with a 'cf-plan <version>' line" (at_line n)
        else
          let* version := parseUnsigned value "plan format version" in
          if negb (version =? kDeploymentPlanFormatVersion) then
            fail_detail ErrorCode.UnsupportedVersion
              "deployment plan format version is not supported" (to_string version)
          else Ok (set_header s)
      else if decide (keyword = "set-id") then
        if ps_inTarget s then
          fail_detail ErrorCode.MalformedInput
            "set-id must appear before the first target block" (at_line n)
        else
          let* id := parseDeploymentSetId value in Ok (set_setId id s)
      else if decide (keyword = "rollout-set") then
        if ps_inTarget s then
          fail_detail ErrorCode.MalformedInput
            "rollout-set must appear before the first target block" (at_line n)
        else
          let* id := parseRolloutSetId value in Ok (set_rolloutSet id s)
      else if decide (keyword = "target") then
        let* s := if ps_inTarget s then finishTarget n s else Ok s in
        if negb (ps_haveSetId s) then
          fail_detail ErrorCode.MalformedInput
            "deployment set id must be declared before targets" (at_line n)
        else if zlen (pl_instructions (ps_plan s)) >=? kMaxPlanTargets then
          fail_detail ErrorCode.LimitExceeded
            "deployment set exceeds the maximum target count" (to_string kMaxPlanTargets)
        else if decide (value = "") then
          fail_detail ErrorCode.MissingField "target block is missing its target id" (at_line n)
        else
          let* target := parseTargetId value in Ok (open_target target s)
      else if decide (keyword = "end") then
        if negb (ps_inTarget s) then
          fail_detail ErrorCode.MalformedInput "'end' without a matching target block" (at_line n)
        else
          let* s := finishTarget n s in Ok (close_target s)
      else if negb (ps_inTarget s) then
        fail_detail ErrorCode.MalformedInput "unknown plan keyword" (at_line_detail n keyword)
      else if bool_decide (keyword ∈ ps_seenFields s) then
        fail_detail ErrorCode.AlreadyExists "duplicate field in target block"
          (at_line_detail n keyword)
      else
        let* current := assign_field n keyword value (ps_current s) in
        Ok (set_field keyword current s)
  end.

Fixpoint plan_lines (lines : list Line) (s : PlanState) : Result PlanState :=
  match lines with
  | [] => Ok s
  | line :: lines => let* s := plan_line line s in plan_lines lines s
  end.

(** The checks after the last line. *)
Definition finish_plan (sourceName : string) (s : PlanState) : Result DeploymentPlan :=
  if negb (ps_haveHeader s) then
    fail ErrorCode.MalformedInput "deployment plan is empty or has no header"
  else if ps_inTarget s then
    fail_detail ErrorCode.TruncatedFrame "deployment plan ends inside a target block" sourceName
  else if negb (ps_haveSetId s) then
    fail ErrorCode.MissingField "deployment plan does not declare a deployment set id"
  else if bool_decide (pl_instructions (ps_plan s) = []) then
    fail ErrorCode.MissingField "deployment plan declares no targets"
  else Ok (ps_plan s).

Definition parseDeploymentPlan (text sourceName : string) : Result DeploymentPlan :=
  if slen text >? kMaxPlanBytes then
    fail_detail ErrorCode.OversizePayload "deployment plan exceeds the accepted size" sourceName
  else
    let* lines := splitLines text in
    let* s := plan_lines lines PlanState_initial in
    finish_plan sourceName s.

Definition loadDeploymentPlanFile (path : string) (fs : FileSystem) : Result DeploymentPlan :=
  let* bytes := (readFileBounded path kMaxPlanBytes fs).2 in
  parseDeploymentPlan (string_of_bytes bytes) path.

(** ** The printer *)

(** One line: a keyword, a space, a value. *)
Definition plan_entry (keyword text : string) : string := keyword +:+ " " +:+ text.

Definition optional_entry (keyword text : string) : list string :=
  if decide (text = "") then [] else [plan_entry keyword text].

Definition instruction_lines (i : DeploymentInstruction) : list string :=
  [plan_entry "target" (str (di_target i));
   plan_entry "  class" (targetClassName (di_targetClass i));
   plan_entry "  guarantee" (applyGuaranteeName (di_declaredGuarantee i));
   plan_entry "  config-key" (str (di_configKey i));
   plan_entry "  artifact" (str (di_artifact i));
   plan_entry "  revision" (to_string (value (di_revision i)));
   plan_entry "  generation" (to_string (value (di_generation i)));
   plan_entry "  schema" (str (di_schema i));
   plan_entry "  schema-version" (to_string (value (di_schemaVersion i)));
   plan_entry "  digest" (digest_hex (di_digest i));
   plan_entry "  size" (to_string (di_sizeBytes i));
   plan_entry "  requires" (guaranteeRequirementName (di_requirement i));
   plan_entry "  media-type" (di_mediaType i)]
  ++ optional_entry "  producer" (di_producer i)
  ++ optional_entry "  source" (di_sourcePath i)
  ++ optional_entry "  endpoint" (di_endpoint i)
  ++ ["end"].

Definition plan_text_lines (p : DeploymentPlan) : list string :=
  [plan_entry "cf-plan" (to_string kDeploymentPlanFormatVersion);
   plan_entry "set-id" (str (pl_setId p))]
  ++ (if id_isSet (pl_rolloutSet p) then [plan_entry "rollout-set" (str (pl_rolloutSet p))] else [])
  ++ concat (map instruction_lines (pl_instructions p)).

(** Every line ends in a newline. *)
Fixpoint unlines (lines : list string) : string :=
  match lines with
  | [] => ""
  | line :: lines => line +:+ String newline (unlines lines)
  end.

Definition renderDeploymentPlan (p : DeploymentPlan) : string := unlines (plan_text_lines p).

(** ** Lemmas *)

(** *** Text that a line can carry *)

(** One line of text without white space at its ends. *)
Record plain (text : string) : Prop := {
  plain_line : without newline text;
  plain_trimmed : trim text = text;
}.

Lemma trim_idem text : trim (trim text) = trim text.
Proof.
  unfold trim. rewrite trim_front_back by apply trim_front_idem. by rewrite trim_back_idem.
Qed.
Lemma trim_without c text : without c text → without c (trim text).
Proof. intros H. apply trim_back_forallb, trim_front_forallb, H. Qed.
Lemma trim_plain text : without newline text → plain (trim text).
Proof. split; [by apply trim_without|apply trim_idem]. Qed.
Lemma value_of_plain text : without newline text → plain (value_of text).
Proof.
  intros H. unfold value_of. destruct (cut " " text) as [[a b]|] eqn:E; [|by split].
  apply trim_plain. by destruct (cut_forallb _ _ _ _ _ H E).
Qed.

Definition unspaced (c : Ascii.ascii) : bool := negb (plan_space c || Ascii.eqb c newline).

Lemma unspaced_plain text : string_forallb unspaced text = true → plain text.
Proof.
  intros H. assert (string_forallb (λ c, negb (plan_space c)) text = true) as Hs.
  { revert H. apply string_forallb_impl. unfold unspaced. intros c. by destruct (plan_space c). }
  split.
  - revert H. apply string_forallb_impl. unfold unspaced. intros c.
    by destruct (plan_space c), (Ascii.eqb c newline).
  - unfold trim. by rewrite trim_front_keep, trim_back_keep.
Qed.

Lemma identifier_unspaced c : identifier_char c = true → unspaced c = true.
Proof. revert c. by intros [[] [] [] [] [] [] [] []]. Qed.
Lemma identifier_plain text : string_forallb identifier_char text = true → plain text.
Proof. intros H. apply unspaced_plain. revert H. apply string_forallb_impl, identifier_unspaced. Qed.
Lemma valid_identifier_chars text :
  isValidIdentifier text = true → text ≠ "" ∧ string_forallb identifier_char text = true ∧ slen text <= 128.
Proof.
  unfold isValidIdentifier. destruct text as [|c text]; [done|].
  destruct (Z.gtb_spec (slen (String c text)) kMaxIdentifierLength) as [|Hl]; [done|].
  destruct (Ascii.eqb c "-"); [done|]. by unfold kMaxIdentifierLength in Hl.
Qed.
Lemma to_string_plain v : 0 <= v → plain (to_string v).
Proof.
  intros Hv. destruct (to_string_uint v Hv) as (d & -> & _). apply unspaced_plain, uint_forallb.
  intros n Hn. assert (n = 0 ∨ n = 1 ∨ n = 2 ∨ n = 3 ∨ n = 4 ∨ n = 5 ∨ n = 6 ∨ n = 7 ∨ n = 8 ∨ n = 9)
    as Hc by lia.
  repeat destruct Hc as [->|Hc]; by subst.
Qed.
Lemma to_string_nonempty v : 0 <= v → to_string v ≠ "".
Proof. intros Hv. by destruct (to_string_uint v Hv) as (_ & _ & _ & ?). Qed.

(** A keyword: what [find(' ')] cuts off. *)
Definition word (keyword : string) : Prop :=
  keyword ≠ "" ∧ string_forallb (λ c, unspaced c && negb (Ascii.eqb c "#")) keyword = true.

Lemma word_unspaced keyword : word keyword → string_forallb unspaced keyword = true.
Proof. intros [_ H]. revert H. apply string_forallb_impl. intros c. by destruct (unspaced c). Qed.

(** What the parser sees of a printed line. *)
Lemma trim_entry indent keyword text :
  string_forallb plan_space indent = true → word keyword → plain text → text ≠ "" →
  trim (plan_entry (indent +:+ keyword) text) = plan_entry keyword text.
Proof.
  intros Hi Hw [_ Ht] Hne. unfold trim, plan_entry. rewrite append_assoc, trim_front_skip by done.
  assert (trim_back plan_space text = text) as Hb.
  { transitivity (trim_back plan_space (trim text)); [by rewrite Ht|]. unfold trim.
    by rewrite trim_back_idem. }
  assert (trim_front plan_space (keyword +:+ " " +:+ text) = keyword +:+ " " +:+ text) as ->.
  { destruct keyword as [|c keyword]; [by destruct Hw|].
    pose proof (word_unspaced _ Hw) as [Hc _]%andb_true_iff.
    change (String c keyword +:+ " " +:+ text) with (String c (keyword +:+ " " +:+ text)). simpl.
    unfold unspaced in Hc. by destruct (plan_space c). }
  rewrite !trim_back_app; rewrite ?Hb; [done|done|]. rewrite trim_back_app; rewrite ?Hb; done.
Qed.

Lemma cut_entry keyword text : word keyword → cut " " (plan_entry keyword text) = Some (keyword, text).
Proof.
  intros H%word_unspaced. unfold plan_entry. change (" " +:+ text) with (String " " text).
  apply cut_app. revert H. apply string_forallb_impl. intros c.
  destruct (Ascii.eqb_spec c " ") as [->|]; done.
Qed.

Lemma entry_start keyword text : word keyword →
  ∃ c rest, plan_entry keyword text = String c rest ∧ c ≠ "#"%char.
Proof.
  intros [Hne Hall]. destruct keyword as [|c keyword]; [done|].
  exists c, (keyword +:+ " " +:+ text). split; [done|]. intros ->. done.
Qed.

(** *** One field *)

Lemma plan_line_text n indent keyword text s :
  string_forallb plan_space indent = true → word keyword → plain text → text ≠ "" →
  plan_line (mkLine n (trim (plan_entry (indent +:+ keyword) text))) s
  = plan_line (mkLine n (plan_entry keyword text)) s
  ∧ keyword_of (plan_entry keyword text) = keyword ∧ value_of (plan_entry keyword text) = text.
Proof.
  intros Hi Hw Ht Hne. rewrite trim_entry by done. split; [done|].
  unfold keyword_of, value_of. rewrite cut_entry by done. split; [done|apply Ht].
Qed.

(** A field keyword is none of the plan's own. *)
Definition field_word (keyword : string) : Prop :=
  word keyword ∧ keyword ∉ ["set-id"; "rollout-set"; "target"; "end"].

Lemma plan_line_field n keyword text s i :
  ps_haveHeader s = true → ps_inTarget s = true → field_word keyword → plain text → text ≠ "" →
  keyword ∉ ps_seenFields s → assign_field n keyword text (ps_current s) = Ok i →
  plan_line (mkLine n (trim (plan_entry ("  " +:+ keyword) text))) s = Ok (set_field keyword i s).
Proof.
  intros Hh Ht [Hw Hk] Hp Hne Hs Hi.
  destruct (plan_line_text n "  " keyword text s) as (-> & Ek & Ev); [done..|].
  rewrite !not_elem_of_cons in Hk. destruct Hk as (H1 & H2 & H3 & H4 & _).
  destruct (entry_start keyword text Hw) as (c & rest & E & Hc).
  unfold plan_line. cbn [number text_of]. rewrite Ek, Ev, Hh, Ht, Hi. rewrite E. cbn [negb].
  rewrite !decide_False by done. rewrite bool_decide_false by done. cbn [try_bind].
  by destruct (Ascii.eqb_spec c "#").
Qed.

(** *** A sequence of fields *)

Fixpoint assigns (fields : list (string * string)) (i j : DeploymentInstruction) : Prop :=
  match fields with
  | [] => i = j
  | (keyword, text) :: fields =>
      ∃ i', (∀ n, assign_field n keyword text i = Ok i') ∧ assigns fields i' j
  end.

Definition field_line (field : string * string) : string :=
  plan_entry ("  " +:+ field.1) field.2.

Fixpoint numbered (n : Z) (raws : list string) : list Line :=
  match raws with
  | [] => []
  | raw :: raws => mkLine n (trim raw) :: numbered (n + 1) raws
  end.

Lemma numbered_app n a b : numbered n (a ++ b) = numbered n a ++ numbered (n + zlen a) b.
Proof.
  revert n. induction a as [|raw a IH]; intros n; cbn [numbered app].
  - by rewrite zlen_nil, Z.add_0_r.
  - rewrite IH, zlen_cons. by replace (n + 1 + zlen a) with (n + (1 + zlen a)) by lia.
Qed.

Lemma plan_lines_app a b s :
  plan_lines (a ++ b) s = try_bind (plan_lines a s) (plan_lines b).
Proof.
  revert s. induction a as [|line a IH]; intros s; [done|]. cbn [plan_lines app].
  destruct (plan_line line s); [apply IH|done..].
Qed.

Definition field_ok (field : string * string) : Prop :=
  field_word field.1 ∧ plain field.2 ∧ field.2 ≠ "".

Lemma plan_lines_fields n fields s j :
  ps_haveHeader s = true → ps_inTarget s = true → Forall field_ok fields →
  NoDup (map fst fields) → (∀ k, k ∈ map fst fields → k ∉ ps_seenFields s) →
  assigns fields (ps_current s) j →
  plan_lines (numbered n (map field_line fields)) s
  = Ok (mkPlanState (ps_plan s) (ps_haveHeader s) (ps_haveSetId s) (ps_inTarget s) j
          (list_to_set (rev (map fst fields)) ∪ ps_seenFields s) (ps_seenTargets s)).
Proof.
  revert n s. induction fields as [|[k text] fields IH]; intros n s Hh Ht Hok Hnd Hseen Has.
  - simpl in Has. subst j. cbn [map numbered plan_lines rev list_to_set].
    rewrite (left_id_L ∅ (∪)). by destruct s.
  - apply Forall_cons_iff in Hok as [(Hw & Hp & Hne) Hok]. destruct Has as (i' & Hi & Has).
    cbn [map fst] in *. inversion_clear Hnd as [|? ? Hk Hnd2].
    cbn [numbered plan_lines]. unfold field_line at 1. cbn [fst snd].
    rewrite (plan_line_field n k text s i'); [|done..| |done].
    2: { apply Hseen. by left. }
    cbn [try_bind]. rewrite IH; [|done..| |done].
    + f_equal. unfold set_field. cbn [ps_plan ps_haveHeader ps_haveSetId ps_inTarget ps_seenFields ps_seenTargets].
      f_equal. cbn [rev]. rewrite list_to_set_app_L. set_solver.
    + intros k' Hk'. cbn [set_field ps_seenFields]. rewrite not_elem_of_union, not_elem_of_singleton.
      split; [intros ->; done|]. apply Hseen. by right.
Qed.

(** *** What an accepted plan looks like *)

Definition dialable (text : string) : Prop :=
  ∃ e, parseEndpoint text = Ok e ∧ endpoint_isSet e = true.

Record instruction_wf (i : DeploymentInstruction) : Prop := {
  iwf_target : id_valid (di_target i);
  iwf_key : id_valid (di_configKey i);
  iwf_artifact : id_valid (di_artifact i);
  iwf_revision : fits 64 (value (di_revision i));
  iwf_generation : 0 < value (di_generation i) < 2 ^ 64;
  iwf_schema : id_valid (di_schema i);
  iwf_version : fits 32 (value (di_schemaVersion i));
  iwf_digest : digest_wf (di_digest i) ∧ digest_isSet (di_digest i) = true;
  iwf_size : 0 < di_sizeBytes i < 2 ^ 64;
  iwf_mediaType : plain (di_mediaType i) ∧ 0 < slen (di_mediaType i) <= kMaxMediaTypeBytes;
  iwf_producer : plain (di_producer i) ∧ slen (di_producer i) <= kMaxProducerBytes;
  iwf_source : plain (di_sourcePath i) ∧ slen (di_sourcePath i) <= kMaxPlanSourcePathBytes;
  iwf_endpoint : plain (di_endpoint i) ∧ (di_endpoint i = "" ∨ dialable (di_endpoint i));
}.

Record plan_wf (p : DeploymentPlan) : Prop := {
  pwf_set : id_valid (pl_setId p);
  pwf_rollout : id_optional (pl_rolloutSet p);
  pwf_some : pl_instructions p ≠ [];
  pwf_count : zlen (pl_instructions p) <= kMaxPlanTargets;
  pwf_targets : NoDup (map (λ i, str (di_target i)) (pl_instructions p));
  pwf_instructions : Forall instruction_wf (pl_instructions p);
}.

Definition optional_field (keyword text : string) : list (string * string) :=
  if decide (text = "") then [] else [(keyword, text)].

(** The fields of a printed block. *)
Definition mandatory_fields (i : DeploymentInstruction) : list (string * string) :=
  [("class", targetClassName (di_targetClass i));
   ("guarantee", applyGuaranteeName (di_declaredGuarantee i));
   ("config-key", str (di_configKey i));
   ("artifact", str (di_artifact i));
   ("revision", to_string (value (di_revision i)));
   ("generation", to_string (value (di_generation i)));
   ("schema", str (di_schema i));
   ("schema-version", to_string (value (di_schemaVersion i)));
   ("digest", digest_hex (di_digest i));
   ("size", to_string (di_sizeBytes i));
   ("requires", guaranteeRequirementName (di_requirement i));
   ("media-type", di_mediaType i)].
Definition optional_fields (i : DeploymentInstruction) : list (string * string) :=
  optional_field "producer" (di_producer i) ++ optional_field "source" (di_sourcePath i)
  ++ optional_field "endpoint" (di_endpoint i).
Definition instruction_fields (i : DeploymentInstruction) : list (string * string) :=
  mandatory_fields i ++ optional_fields i.

Lemma instruction_lines_fields i :
  instruction_lines i
  = plan_entry "target" (str (di_target i)) :: map field_line (instruction_fields i) ++ ["end"].
Proof.
  unfold instruction_lines, instruction_fields, optional_fields, optional_entry, optional_field.
  rewrite map_app. cbn [mandatory_fields map app field_line fst snd]. do 13 f_equal.
  rewrite !map_app. by repeat case_decide.
Qed.

Lemma parseUnsigned_to_string v what : fits 64 v → parseUnsigned (to_string v) what = Ok v.
Proof.
  intros Hv. unfold parseUnsigned. rewrite decide_False by (apply to_string_nonempty, Hv).
  by apply parse_decimal_to_string.
Qed.
Lemma parseId_valid {Tag} what (id : StrongString Tag) : id_valid id → parseId what (str id) = Ok id.
Proof. intros H. apply parseId_Ok. by destruct id. Qed.
Lemma parseTargetClass_name c : parseTargetClass (targetClassName c) = Some c.
Proof. by destruct c. Qed.
Lemma parseApplyGuarantee_name g : parseApplyGuarantee (applyGuaranteeName g) = Some g.
Proof. by destruct g. Qed.
Lemma parseGuaranteeRequirement_name r :
  parseGuaranteeRequirement (guaranteeRequirementName r) = Some r.
Proof. by destruct r. Qed.
Lemma narrow_version v :
  fits 32 v → checkedCast (mkInt false 32) (mkInt false 64) v = Some v.
Proof.
  intros Hv. unfold checkedCast. cbn [signed width Bool.eqb].
  unfold fits in Hv. replace (cast_to (mkInt false 64) (int_min (mkInt false 32))) with 0 by done.
  replace (cast_to (mkInt false 64) (int_max (mkInt false 32))) with (2 ^ 32 - 1) by done.
  destruct (Z.ltb_spec v 0); [lia|]. destruct (Z.gtb_spec v (2 ^ 32 - 1)); [lia|]. cbn [orb].
  unfold cast_to. cbn [signed width andb]. by rewrite Z.mod_small by lia.
Qed.

(** Parsing the printed fields gives the instruction. *)
Definition with_mandatory (j i : DeploymentInstruction) : DeploymentInstruction :=
  mkInstruction (di_target i) (di_targetClass j) (di_declaredGuarantee j) (di_configKey j)
    (di_artifact j) (di_revision j) (di_generation j) (di_schema j) (di_schemaVersion j)
    (di_digest j) (di_sizeBytes j) (di_requirement j) (di_mediaType j) (di_producer i)
    (di_sourcePath i) (di_endpoint i).

Lemma assigns_app a b i j k : assigns a i j → assigns b j k → assigns (a ++ b) i k.
Proof.
  revert i. induction a as [|[key text] a IH]; intros i; [by intros ->|].
  intros (i' & Hi & Ha) Hb. exists i'. split; [done|]. by apply IH.
Qed.

Ltac next_field :=
  eexists; split;
  [intros n; unfold assign_field; repeat (rewrite decide_False by done); rewrite decide_True by done|].

Lemma mandatory_assign j i : instruction_wf j → assigns (mandatory_fields j) i (with_mandatory j i).
Proof.
  intros []. destruct i.
  next_field; [by rewrite parseTargetClass_name|].
  next_field; [by rewrite parseApplyGuarantee_name|].
  next_field; [unfold parseConfigKey; by rewrite parseId_valid|].
  next_field; [unfold parseArtifactId; by rewrite parseId_valid|].
  next_field; [by rewrite parseUnsigned_to_string|].
  next_field; [rewrite parseUnsigned_to_string; [done|unfold fits; lia]|].
  next_field; [unfold parseSchemaId; by rewrite parseId_valid|].
  next_field; [rewrite parseUnsigned_to_string by (unfold fits in *; lia); cbn [try_bind];
         by rewrite narrow_version|].
  next_field; [by rewrite Digest_parse_hex by apply iwf_digest0|].
  next_field; [rewrite parseUnsigned_to_string; [done|unfold fits; lia]|].
  next_field; [by rewrite parseGuaranteeRequirement_name|].
  next_field; [|].
  - destruct iwf_mediaType0 as [_ Hm]. destruct (Z.eqb_spec (slen (di_mediaType j)) 0); [lia|].
    destruct (Z.gtb_spec (slen (di_mediaType j)) kMaxMediaTypeBytes); [lia|]. done.
  - cbn [assigns with_targetClass with_declaredGuarantee with_configKey with_artifact with_revision
         with_generation with_schema with_schemaVersion with_digest with_sizeBytes with_requirement
         with_mediaType]. unfold with_mandatory. cbn.
    by destruct (di_revision j), (di_generation j), (di_schemaVersion j).
Qed.

Lemma dialable_assign n text i :
  dialable text → assign_field n "endpoint" text i = Ok (with_endpoint text i).
Proof.
  intros (e & He & Hset). unfold assign_field. repeat (rewrite decide_False by done).
  rewrite decide_True by done. by rewrite He, Hset.
Qed.

Lemma optional_assigns keyword text i j :
  (text = "" → i = j) → (text ≠ "" → ∀ n, assign_field n keyword text i = Ok j) →
  assigns (optional_field keyword text) i j.
Proof.
  intros Hnone Hsome. unfold optional_field. case_decide as E; [by apply Hnone|].
  exists j. split; [by apply Hsome|done].
Qed.

Lemma producer_assign n text i :
  slen text <= kMaxProducerBytes → assign_field n "producer" text i = Ok (with_producer text i).
Proof.
  intros H. unfold assign_field. repeat (rewrite decide_False by done). rewrite decide_True by done.
  by destruct (Z.gtb_spec (slen text) kMaxProducerBytes); [lia|].
Qed.
Lemma source_assign n text i :
  text ≠ "" → slen text <= kMaxPlanSourcePathBytes →
  assign_field n "source" text i = Ok (with_sourcePath text i).
Proof.
  intros Hne H. unfold assign_field. repeat (rewrite decide_False by done). rewrite decide_True by done.
  assert (slen text ≠ 0) by (destruct text; [done|unfold slen; simpl; lia]).
  destruct (Z.eqb_spec (slen text) 0); [done|].
  by destruct (Z.gtb_spec (slen text) kMaxPlanSourcePathBytes); [lia|].
Qed.

Lemma optional_assign j i :
  instruction_wf j → di_producer i = "" → di_sourcePath i = "" → di_endpoint i = "" →
  assigns (optional_fields j) i
    (with_endpoint (di_endpoint j) (with_sourcePath (di_sourcePath j)
       (with_producer (di_producer j) i))).
Proof.
  intros [] Ep Es Ee. unfold optional_fields.
  apply (assigns_app _ _ _ (with_producer (di_producer j) i));
    [|apply (assigns_app _ _ _ (with_sourcePath (di_sourcePath j) (with_producer (di_producer j) i)))];
    apply optional_assigns.
  - intros ->. rewrite <- Ep. by destruct i.
  - intros _ n. apply producer_assign, iwf_producer0.
  - intros ->. rewrite <- Es. by destruct i.
  - intros Hne n. apply source_assign; [done|apply iwf_source0].
  - intros ->. rewrite <- Ee. by destruct i.
  - intros Hne n. apply dialable_assign. by destruct iwf_endpoint0 as [_ [|]].
Qed.

Lemma fields_assign i :
  instruction_wf i → assigns (instruction_fields i) (new_instruction (di_target i)) i.
Proof.
  intros Hi. eapply assigns_app; [by apply mandatory_assign|].
  pose proof (optional_assign i (with_mandatory i (new_instruction (di_target i))) Hi
                eq_refl eq_refl eq_refl) as H.
  by destruct i.
Qed.

Lemma class_plain c : plain (targetClassName c) ∧ targetClassName c ≠ "".
Proof. by destruct c. Qed.
Lemma guarantee_plain g : plain (applyGuaranteeName g) ∧ applyGuaranteeName g ≠ "".
Proof. by destruct g. Qed.
Lemma requirement_plain r : plain (guaranteeRequirementName r) ∧ guaranteeRequirementName r ≠ "".
Proof. by destruct r. Qed.
Lemma id_plain {Tag} (id : StrongString Tag) : id_valid id → plain (str id) ∧ str id ≠ "".
Proof. intros (Hne & Hc & _)%valid_identifier_chars. split; [by apply identifier_plain|done]. Qed.
Lemma number_plain v : 0 <= v → plain (to_string v) ∧ to_string v ≠ "".
Proof. split; [by apply to_string_plain|by apply to_string_nonempty]. Qed.
Lemma digest_plain d : digest_wf d → plain (digest_hex d) ∧ digest_hex d ≠ "".
Proof.
  intros Hd. split; [apply identifier_plain, hex_identifier|]. intros E%(f_equal slen).
  unfold digest_hex in E. rewrite slen_toHex in E. unfold zlen in E. by rewrite Hd in E.
Qed.
Lemma nonempty_slen text : 0 < slen text → text ≠ "".
Proof. by intros H ->. Qed.

Ltac solve_field_word :=
  split; [split; [done|vm_compute; reflexivity]|rewrite !not_elem_of_cons; split_and!; try done; apply not_elem_of_nil].

Lemma optional_field_ok keyword text :
  field_word keyword → plain text → Forall field_ok (optional_field keyword text).
Proof. intros Hk Ht. unfold optional_field. case_decide; [by constructor|].
  apply Forall_cons_iff. split; [by split|by constructor].
Qed.

Lemma fields_ok i : instruction_wf i → Forall field_ok (instruction_fields i).
Proof.
  intros []. unfold instruction_fields. apply Forall_app. split.
  - repeat (apply Forall_cons_iff; split; [split; [solve_field_word|cbn [snd]]|]); [..|by constructor].
    + apply class_plain.
    + apply guarantee_plain.
    + by apply id_plain.
    + by apply id_plain.
    + apply number_plain. apply iwf_revision0.
    + apply number_plain. lia.
    + by apply id_plain.
    + apply number_plain. apply iwf_version0.
    + apply digest_plain, iwf_digest0.
    + apply number_plain. lia.
    + apply requirement_plain.
    + split; [apply iwf_mediaType0|]. apply nonempty_slen. lia.
  - apply Forall_app. split; [|apply Forall_app; split]; apply optional_field_ok;
      [solve_field_word|apply iwf_producer0|solve_field_word|apply iwf_source0
      |solve_field_word|apply iwf_endpoint0].
Qed.

Lemma fields_distinct i :
  NoDup (map fst (instruction_fields i)) ∧ "target" ∉ map fst (instruction_fields i)
  ∧ ∀ k, k ∈ mandatory → k = "target" ∨ k ∈ map fst (instruction_fields i).
Proof.
  unfold instruction_fields, optional_fields, optional_field. rewrite !map_app.
  repeat case_decide; cbn [mandatory_fields map fst app];
    (split; [apply (bool_decide_unpack _); vm_compute; exact I|]);
    (split; [apply (bool_decide_unpack _); vm_compute; exact I|]);
    intros k Hk; unfold mandatory in Hk;
    repeat (apply elem_of_cons in Hk as [->|Hk];
            [first [by left|right; apply (bool_decide_unpack _); vm_compute; exact I]|]);
    by apply elem_of_nil in Hk.
Qed.

(** *** Blocks *)

Definition add_instruction (i : DeploymentInstruction) (p : DeploymentPlan) : DeploymentPlan :=
  mkPlan (pl_setId p) (pl_rolloutSet p) (pl_instructions p ++ [i]).

Lemma finishTarget_Ok n s :
  (∀ k, k ∈ mandatory → k ∈ ps_seenFields s) → instruction_wf (ps_current s) →
  str (di_target (ps_current s)) ∉ ps_seenTargets s →
  finishTarget n s
  = Ok (mkPlanState (add_instruction (ps_current s) (ps_plan s)) (ps_haveHeader s) (ps_haveSetId s)
          (ps_inTarget s) (ps_current s) (ps_seenFields s)
          ({[str (di_target (ps_current s))]} ∪ ps_seenTargets s)).
Proof.
  intros Hm [] Hnew. unfold finishTarget.
  destruct (list_find _ mandatory) as [[k field]|] eqn:E.
  { apply list_find_Some in E as (Hl & Hn & _). destruct Hn. apply Hm. by eapply list_elem_of_lookup_2. }
  destruct (Z.eqb_spec (di_sizeBytes (ps_current s)) 0); [lia|].
  destruct iwf_digest0 as [_ ->]. cbn [negb].
  destruct (Z.eqb_spec (value (di_generation (ps_current s))) 0); [lia|].
  by rewrite bool_decide_false.
Qed.

Lemma plan_line_target n target s :
  ps_haveHeader s = true → ps_haveSetId s = true → ps_inTarget s = false → id_valid target →
  zlen (pl_instructions (ps_plan s)) < kMaxPlanTargets →
  plan_line (mkLine n (trim (plan_entry "target" (str target)))) s = Ok (open_target target s).
Proof.
  intros Hh Hs Ht Hid Hc. destruct (id_plain _ Hid) as [Hp Hne].
  assert (word "target") as Hw by (split; [done|vm_compute; reflexivity]).
  destruct (plan_line_text n "" "target" (str target) s) as (E & Ek & Ev); [done..|].
  change ("" +:+ "target") with "target" in E. rewrite E.
  unfold plan_line. cbn [number text_of]. rewrite Ek, Ev, Hh, Ht. cbn [negb try_bind].
  rewrite Hs, (decide_False (P := str target = "")) by done. cbn [negb].
  destruct (Z.geb_spec (zlen (pl_instructions (ps_plan s))) kMaxPlanTargets); [lia|].
  unfold parseTargetId. rewrite parseId_valid by done. reflexivity.
Qed.

Lemma plan_line_end n s :
  ps_haveHeader s = true → ps_inTarget s = true →
  plan_line (mkLine n (trim "end")) s = try_bind (finishTarget n s) (λ s', Ok (close_target s')).
Proof. intros Hh Ht. unfold plan_line. cbn [number text_of]. rewrite Hh, Ht. reflexivity. Qed.

(** The parser between two blocks. *)
Record between (p : DeploymentPlan) (s : PlanState) : Prop := {
  bt_plan : ps_plan s = p;
  bt_header : ps_haveHeader s = true;
  bt_setId : ps_haveSetId s = true;
  bt_outside : ps_inTarget s = false;
  bt_targets : ps_seenTargets s = list_to_set (map (λ i, str (di_target i)) (pl_instructions p));
}.

Lemma plan_lines_block n i p s :
  between p s → instruction_wf i → zlen (pl_instructions p) < kMaxPlanTargets →
  str (di_target i) ∉ map (λ i, str (di_target i)) (pl_instructions p) →
  ∃ s', plan_lines (numbered n (instruction_lines i)) s = Ok s' ∧ between (add_instruction i p) s'.
Proof.
  intros [Hp Hh Hs Ht Htargets] Hi Hc Hnew. rewrite instruction_lines_fields.
  cbn [numbered plan_lines]. rewrite plan_line_target; [|done|done|done|apply Hi|by rewrite Hp].
  cbn [try_bind]. rewrite numbered_app, plan_lines_app.
  destruct (fields_distinct i) as (Hnd & Htn & Hmand).
  rewrite (plan_lines_fields _ _ _ i); [|done|done|by apply fields_ok|done| |by apply fields_assign].
  2: { intros k Hk. cbn [open_target ps_seenFields]. rewrite not_elem_of_singleton. by intros ->. }
  cbn [try_bind numbered plan_lines open_target ps_plan ps_haveHeader ps_haveSetId ps_inTarget
       ps_seenFields ps_seenTargets].
  rewrite plan_line_end by done.
  rewrite finishTarget_Ok; cbn [ps_current ps_seenFields ps_seenTargets]; [|..].
  - eexists. split; [reflexivity|]. split; try done; cbn -[union].
    + by rewrite Hp.
    + rewrite Htargets, map_app, list_to_set_app_L. cbn [map]. set_solver.
  - intros k Hk. apply elem_of_union. destruct (Hmand k Hk) as [->|Hin]; [right; set_solver|left].
    apply elem_of_list_to_set. by rewrite list_elem_of_In, <- in_rev, <- list_elem_of_In.
  - done.
  - rewrite Htargets. by rewrite elem_of_list_to_set.
Qed.

Lemma plan_lines_blocks n l p s :
  between p s → Forall instruction_wf l → zlen (pl_instructions p) + zlen l <= kMaxPlanTargets →
  NoDup (map (λ i, str (di_target i)) (pl_instructions p ++ l)) →
  ∃ s', plan_lines (numbered n (concat (map instruction_lines l))) s = Ok s'
    ∧ between (mkPlan (pl_setId p) (pl_rolloutSet p) (pl_instructions p ++ l)) s'.
Proof.
  revert n p s. induction l as [|i l IH]; intros n p s Hb Hwf Hc Hnd.
  - exists s. split; [done|]. rewrite app_nil_r. by destruct p.
  - apply Forall_cons_iff in Hwf as [Hi Hwf]. rewrite zlen_cons in Hc. pose proof (zlen_nonneg l).
    cbn [map concat]. rewrite numbered_app, plan_lines_app.
    destruct (plan_lines_block n i p s Hb Hi) as (s1 & -> & Hb1); [lia| |].
    { rewrite map_app in Hnd. apply list.NoDup_app in Hnd as (_ & Hd & _). intros Hin. apply (Hd _ Hin). by left. }
    cbn [try_bind].
    destruct (IH (n + zlen (instruction_lines i)) (add_instruction i p) s1 Hb1 Hwf) as (s2 & -> & Hb2).
    + cbn [add_instruction pl_instructions]. rewrite zlen_app, zlen_cons, zlen_nil. lia.
    + cbn [add_instruction pl_instructions]. by rewrite <- app_assoc.
    + exists s2. split; [done|]. cbn [add_instruction pl_instructions pl_setId pl_rolloutSet] in Hb2.
      by rewrite <- app_assoc in Hb2.
Qed.

(** *** The lines of a printed plan *)

Definition line_ok (raw : string) : Prop := without newline raw ∧ slen raw <= kMaxPlanLineBytes.

Lemma entry_ok keyword text :
  without newline keyword → slen keyword <= 100 → plain text → slen text <= 512 →
  line_ok (plan_entry keyword text).
Proof.
  intros Hk Hl [Ht _] Hs. split.
  - unfold plan_entry. rewrite !without_app. split; [done|]. by split.
  - unfold plan_entry, kMaxPlanLineBytes. rewrite !slen_append. unfold slen in *. simpl. lia.
Qed.

Lemma slen_number v : 0 <= v < 2 ^ 64 → slen (to_string v) <= 512.
Proof. intros Hv. assert (2 ^ 64 < 10 ^ 20) by done. pose proof (slen_to_string 20 v). lia. Qed.
Lemma slen_id {Tag} (id : StrongString Tag) : id_valid id → slen (str id) <= 512.
Proof. intros (_ & _ & H)%valid_identifier_chars. lia. Qed.
Lemma slen_digest d : digest_wf d → slen (digest_hex d) <= 512.
Proof. intros Hd. unfold digest_hex. rewrite slen_toHex. unfold zlen. by rewrite Hd. Qed.
Lemma slen_dialable text : text = "" ∨ dialable text → slen text <= 512.
Proof.
  intros [->|(e & He & _)]; [by vm_compute|]. unfold parseEndpoint in He.
  destruct (slen text =? 0); [done|]. cbn [orb] in He.
  destruct (Z.gtb_spec (slen text) 128); [done|lia].
Qed.
Lemma slen_class c : slen (targetClassName c) <= 512.
Proof. by destruct c. Qed.
Lemma slen_guarantee g : slen (applyGuaranteeName g) <= 512.
Proof. by destruct g. Qed.
Lemma slen_requirement r : slen (guaranteeRequirementName r) <= 512.
Proof. by destruct r. Qed.

Lemma optional_field_Forall (P : string * string → Prop) keyword text :
  P (keyword, text) → Forall P (optional_field keyword text).
Proof. intros H. unfold optional_field. case_decide; [by constructor|]. by apply Forall_cons_iff. Qed.

Definition short_field (f : string * string) : Prop :=
  without newline f.1 ∧ slen f.1 <= 20 ∧ slen f.2 <= 512.

Lemma fields_short i : instruction_wf i → Forall short_field (instruction_fields i).
Proof.
  intros []. unfold kMaxMediaTypeBytes, kMaxProducerBytes, kMaxPlanSourcePathBytes in *.
  apply Forall_app. split; [|apply Forall_app; split; [|apply Forall_app; split]].
  - repeat (apply Forall_cons_iff; split; [split; [done|split; [done|cbn [snd]]]|]); [..|by constructor];
      auto using slen_class, slen_guarantee, slen_requirement, slen_id; try (apply slen_number; unfold fits in *; lia);
      [by apply slen_digest, iwf_digest0|lia].
  - apply optional_field_Forall. split; [done|]. split; [done|]. simpl. lia.
  - apply optional_field_Forall. split; [done|]. split; [done|]. simpl. lia.
  - apply optional_field_Forall. split; [done|]. split; [done|]. apply slen_dialable, iwf_endpoint0.
Qed.

Lemma instruction_lines_ok i : instruction_wf i → Forall line_ok (instruction_lines i).
Proof.
  intros Hi. rewrite instruction_lines_fields. apply Forall_cons_iff. split.
  - apply entry_ok; [done|done|apply id_plain, Hi|apply slen_id, Hi].
  - apply Forall_app. split; [|by apply Forall_cons_iff; split; [split|constructor]].
    pose proof (fields_ok i Hi) as Hok. pose proof (fields_short i Hi) as Hs. revert Hok Hs.
    induction (instruction_fields i) as [|f fields IH]; intros Hok Hs; [by constructor|].
    apply Forall_cons_iff in Hok as [(_ & Hp & _) Hok]. apply Forall_cons_iff in Hs as [(Hn & Hk & Ht) Hs].
    cbn [map]. apply Forall_cons_iff. split; [|by apply IH].
    apply entry_ok; [by apply without_app|rewrite slen_append; unfold slen in *; simpl; lia|done|done].
Qed.

Lemma plan_text_lines_ok p : plan_wf p → Forall line_ok (plan_text_lines p).
Proof.
  intros []. unfold plan_text_lines. apply Forall_app. split; [|apply Forall_app; split].
  - apply Forall_cons_iff. split; [done|]. apply Forall_cons_iff. split; [|by constructor].
    apply entry_ok; [done|done|by apply id_plain|by apply slen_id].
  - destruct (id_isSet (pl_rolloutSet p)) eqn:E; [|by constructor].
    apply Forall_cons_iff. split; [|by constructor]. destruct pwf_rollout0 as [Er|Hr].
    + unfold id_isSet in E. by rewrite Er in E.
    + apply entry_ok; [done|done|by apply id_plain|by apply slen_id].
  - clear - pwf_instructions0. induction pwf_instructions0 as [|i l Hi Hl IH]; [by constructor|].
    cbn [map concat]. apply Forall_app. split; [by apply instruction_lines_ok|done].
Qed.

Lemma split_unlines lines : Forall line_ok lines → split_on newline (unlines lines) = lines ++ [""].
Proof.
  induction lines as [|line lines IH]; [done|]. intros [[Hl _] Hls]%Forall_cons_iff.
  cbn [unlines app]. by rewrite split_on_cons, IH.
Qed.

Lemma number_lines_Ok n raws :
  Forall (λ raw, slen raw <= kMaxPlanLineBytes) raws → n + zlen raws <= kMaxPlanTargets * 16 + 65 →
  number_lines n raws = Ok (numbered n raws).
Proof.
  revert n. induction raws as [|raw raws IH]; intros n Hall Hn; [done|].
  apply Forall_cons_iff in Hall as [Hr Hall]. rewrite zlen_cons in Hn. pose proof (zlen_nonneg raws).
  cbn [number_lines numbered]. destruct (Z.gtb_spec (slen raw) kMaxPlanLineBytes); [lia|].
  destruct (Z.gtb_spec n (kMaxPlanTargets * 16 + 64)); [lia|]. by rewrite IH by (done || lia).
Qed.

Lemma splitLines_render p :
  plan_wf p → zlen (plan_text_lines p) < kMaxPlanTargets * 16 + 64 →
  splitLines (renderDeploymentPlan p) = Ok (numbered 1 (plan_text_lines p ++ [""])).
Proof.
  intros Hp Hn. pose proof (plan_text_lines_ok p Hp) as Hok. unfold splitLines, renderDeploymentPlan.
  rewrite split_unlines by done. apply number_lines_Ok.
  - apply Forall_app. split; [|by apply Forall_cons_iff].
    revert Hok. apply Forall_impl. by intros raw [_ ?].
  - rewrite zlen_app, zlen_cons, zlen_nil. lia.
Qed.

(** *** The head of a plan *)

Lemma plan_line_blank n s : plan_line (mkLine n (trim "")) s = Ok s.
Proof. reflexivity. Qed.

Lemma plan_line_header n s :
  ps_haveHeader s = false →
  plan_line (mkLine n (trim (plan_entry "cf-plan" (to_string kDeploymentPlanFormatVersion)))) s
  = Ok (set_header s).
Proof. intros Hh. unfold plan_line. cbn [number text_of]. rewrite Hh. reflexivity. Qed.

Lemma plan_line_setId n (id : DeploymentSetId) s :
  ps_haveHeader s = true → ps_inTarget s = false → id_valid id →
  plan_line (mkLine n (trim (plan_entry "set-id" (str id)))) s = Ok (set_setId id s).
Proof.
  intros Hh Ht Hid. destruct (id_plain _ Hid) as [Hp Hne].
  assert (word "set-id") as Hw by (split; [done|vm_compute; reflexivity]).
  destruct (plan_line_text n "" "set-id" (str id) s) as (E & Ek & Ev); [done..|].
  change ("" +:+ "set-id") with "set-id" in E. rewrite E.
  unfold plan_line. cbn [number text_of]. rewrite Ek, Ev, Hh, Ht. cbn [negb try_bind].
  unfold parseDeploymentSetId. rewrite parseId_valid by done. reflexivity.
Qed.

Lemma plan_line_rollout n (id : RolloutSetId) s :
  ps_haveHeader s = true → ps_inTarget s = false → id_valid id →
  plan_line (mkLine n (trim (plan_entry "rollout-set" (str id)))) s = Ok (set_rolloutSet id s).
Proof.
  intros Hh Ht Hid. destruct (id_plain _ Hid) as [Hp Hne].
  assert (word "rollout-set") as Hw by (split; [done|vm_compute; reflexivity]).
  destruct (plan_line_text n "" "rollout-set" (str id) s) as (E & Ek & Ev); [done..|].
  change ("" +:+ "rollout-set") with "rollout-set" in E. rewrite E.
  unfold plan_line. cbn [number text_of]. rewrite Ek, Ev, Hh, Ht. cbn [negb try_bind].
  unfold parseRolloutSetId. rewrite parseId_valid by done. reflexivity.
Qed.

Definition plan_head (p : DeploymentPlan) : DeploymentPlan :=
  mkPlan (pl_setId p) (pl_rolloutSet p) [].

Definition head_lines (p : DeploymentPlan) : list string :=
  [plan_entry "cf-plan" (to_string kDeploymentPlanFormatVersion);
   plan_entry "set-id" (str (pl_setId p))]
  ++ (if id_isSet (pl_rolloutSet p) then [plan_entry "rollout-set" (str (pl_rolloutSet p))] else []).

Lemma plan_lines_head n p :
  plan_wf p →
  ∃ s, plan_lines (numbered n (head_lines p)) PlanState_initial = Ok s ∧ between (plan_head p) s.
Proof.
  intros []. unfold head_lines. cbn [app numbered plan_lines].
  rewrite plan_line_header by done. cbn [try_bind]. rewrite plan_line_setId by done. cbn [try_bind].
  destruct (id_isSet (pl_rolloutSet p)) eqn:E; cbn [numbered plan_lines].
  - destruct pwf_rollout0 as [Er|Hr]; [unfold id_isSet in E; by rewrite Er in E|].
    rewrite plan_line_rollout by done. cbn [try_bind]. by eexists.
  - eexists. split; [done|]. split; try done. unfold plan_head.
    destruct (pl_rolloutSet p) as [r]. unfold id_isSet in E. cbn [str] in E.
    case_bool_decide as Er; [|done]. by subst r.
Qed.

Lemma parse_render p sourceName :
  plan_wf p → slen (renderDeploymentPlan p) <= kMaxPlanBytes →
  zlen (plan_text_lines p) < kMaxPlanTargets * 16 + 64 →
  parseDeploymentPlan (renderDeploymentPlan p) sourceName = Ok p.
Proof.
  intros Hp Hsize Hlines. unfold parseDeploymentPlan.
  destruct (Z.gtb_spec (slen (renderDeploymentPlan p)) kMaxPlanBytes); [lia|].
  rewrite splitLines_render by done. cbn [try_bind].
  replace (plan_text_lines p ++ [""])
    with (head_lines p ++ concat (map instruction_lines (pl_instructions p)) ++ [""])
    by (unfold plan_text_lines, head_lines; by rewrite <- !app_assoc).
  rewrite !numbered_app, !plan_lines_app.
  destruct (plan_lines_head 1 p Hp) as (s & -> & Hb). cbn [try_bind]. destruct Hp.
  destruct (plan_lines_blocks (1 + zlen (head_lines p)) (pl_instructions p) (plan_head p) s Hb)
    as (s' & Hs' & Hb'); [done|by cbn [plan_head pl_instructions]; rewrite zlen_nil, Z.add_0_l|done|].
  rewrite plan_lines_app, Hs'. cbn [try_bind numbered plan_lines].
  rewrite plan_line_blank. cbn [try_bind plan_lines].
  destruct Hb' as [Ep Eh Es Et _]. unfold finish_plan. rewrite Eh, Et, Es, Ep. cbn [negb].
  cbn [pl_instructions plan_head app]. rewrite bool_decide_false by done. by destruct p.
Qed.

(** *** What the parser accepts *)

(** The fields assigned so far; [seen] are their keywords. *)
Record partial_wf (seen : gset string) (i : DeploymentInstruction) : Prop := {
  pw_target : id_valid (di_target i);
  pw_key : "config-key" ∈ seen → id_valid (di_configKey i);
  pw_artifact : "artifact" ∈ seen → id_valid (di_artifact i);
  pw_schema : "schema" ∈ seen → id_valid (di_schema i);
  pw_revision : fits 64 (value (di_revision i));
  pw_generation : fits 64 (value (di_generation i));
  pw_version : fits 32 (value (di_schemaVersion i));
  pw_digest : digest_wf (di_digest i);
  pw_size : fits 64 (di_sizeBytes i);
  pw_mediaType : plain (di_mediaType i) ∧ 0 < slen (di_mediaType i) <= kMaxMediaTypeBytes;
  pw_producer : plain (di_producer i) ∧ slen (di_producer i) <= kMaxProducerBytes;
  pw_source : plain (di_sourcePath i) ∧ slen (di_sourcePath i) <= kMaxPlanSourcePathBytes;
  pw_endpoint : plain (di_endpoint i) ∧ (di_endpoint i = "" ∨ dialable (di_endpoint i));
}.

Lemma new_instruction_wf target : id_valid target → partial_wf {["target"]} (new_instruction target).
Proof.
  intros Ht. split; cbn; try done; try (by intros H%elem_of_singleton);
    try (split; [by apply unspaced_plain|]); try done; try (by left); by vm_compute.
Qed.

Lemma parseUnsigned_range text what v : parseUnsigned text what = Ok v → fits 64 v.
Proof. unfold parseUnsigned. case_decide; [done|]. apply parse_decimal_range. done. Qed.

Lemma narrow_range v n :
  fits 64 v → checkedCast (mkInt false 32) (mkInt false 64) v = Some n → fits 32 n.
Proof.
  intros _. unfold checkedCast. cbn [signed width Bool.eqb]. destruct (_ || _); [done|].
  intros [= <-]. unfold cast_to. cbn [signed width andb]. apply Z.mod_pos_bound. done.
Qed.

(** Assigning one field. *)
Ltac keep_field :=
  intros [] H;
  lazymatch goal with i : DeploymentInstruction |- _ => destruct i end;
  (split; cbn in *; try assumption;
   try (by intros [E%elem_of_singleton|Hs]%elem_of_union; [discriminate E|auto])).

Section assign.
Context (seen : gset string) (i : DeploymentInstruction).

Lemma keep_class c : partial_wf seen i → True → partial_wf ({["class"]} ∪ seen) (with_targetClass c i).
Proof. keep_field. Qed.
Lemma keep_guarantee g :
  partial_wf seen i → True → partial_wf ({["guarantee"]} ∪ seen) (with_declaredGuarantee g i).
Proof. keep_field. Qed.
Lemma keep_key k :
  partial_wf seen i → id_valid k → partial_wf ({["config-key"]} ∪ seen) (with_configKey k i).
Proof. keep_field. done. Qed.
Lemma keep_artifact a :
  partial_wf seen i → id_valid a → partial_wf ({["artifact"]} ∪ seen) (with_artifact a i).
Proof. keep_field. done. Qed.
Lemma keep_schema a :
  partial_wf seen i → id_valid a → partial_wf ({["schema"]} ∪ seen) (with_schema a i).
Proof. keep_field. done. Qed.
Lemma keep_revision r :
  partial_wf seen i → fits 64 (value r) → partial_wf ({["revision"]} ∪ seen) (with_revision r i).
Proof. keep_field. Qed.
Lemma keep_generation g :
  partial_wf seen i → fits 64 (value g) → partial_wf ({["generation"]} ∪ seen) (with_generation g i).
Proof. keep_field. Qed.
Lemma keep_version v :
  partial_wf seen i → fits 32 (value v) →
  partial_wf ({["schema-version"]} ∪ seen) (with_schemaVersion v i).
Proof. keep_field. Qed.
Lemma keep_digest d :
  partial_wf seen i → digest_wf d → partial_wf ({["digest"]} ∪ seen) (with_digest d i).
Proof. keep_field. Qed.
Lemma keep_size z :
  partial_wf seen i → fits 64 z → partial_wf ({["size"]} ∪ seen) (with_sizeBytes z i).
Proof. keep_field. Qed.
Lemma keep_requirement r :
  partial_wf seen i → True → partial_wf ({["requires"]} ∪ seen) (with_requirement r i).
Proof. keep_field. Qed.
Lemma keep_mediaType t :
  partial_wf seen i → plain t ∧ 0 < slen t <= kMaxMediaTypeBytes →
  partial_wf ({["media-type"]} ∪ seen) (with_mediaType t i).
Proof. keep_field. Qed.
Lemma keep_producer t :
  partial_wf seen i → plain t ∧ slen t <= kMaxProducerBytes →
  partial_wf ({["producer"]} ∪ seen) (with_producer t i).
Proof. keep_field. Qed.
Lemma keep_source t :
  partial_wf seen i → plain t ∧ slen t <= kMaxPlanSourcePathBytes →
  partial_wf ({["source"]} ∪ seen) (with_sourcePath t i).
Proof. keep_field. Qed.
Lemma keep_endpoint t :
  partial_wf seen i → plain t ∧ (t = "" ∨ dialable t) →
  partial_wf ({["endpoint"]} ∪ seen) (with_endpoint t i).
Proof. keep_field. Qed.
End assign.

Lemma assign_field_keeps n keyword text seen i j :
  partial_wf seen i → plain text → assign_field n keyword text i = Ok j →
  partial_wf ({[keyword]} ∪ seen) j.
Proof.
  intros Hi Hp. unfold assign_field, or_unknown.
  repeat (case_decide; [subst; intros Ha; inv_try|]).
  - by apply keep_class.
  - by apply keep_guarantee.
  - match goal with H : parseConfigKey _ = _ |- _ => apply parseId_Ok in H as [-> Hv] end.
    by apply keep_key.
  - match goal with H : parseArtifactId _ = _ |- _ => apply parseId_Ok in H as [-> Hv] end.
    by apply keep_artifact.
  - by eapply keep_revision, parseUnsigned_range.
  - by eapply keep_generation, parseUnsigned_range.
  - match goal with H : parseSchemaId _ = _ |- _ => apply parseId_Ok in H as [-> Hv] end.
    by apply keep_schema.
  - destruct (checkedCast _ _ x) eqn:E; [|done]. inv_try.
    apply keep_version; [done|]. eapply narrow_range; [|exact E]. by eapply parseUnsigned_range.
  - by eapply keep_digest, Digest_parse_wf.
  - by eapply keep_size, parseUnsigned_range.
  - by apply keep_requirement.
  - destruct (Z.eqb_spec (slen text) 0); [done|].
    destruct (Z.gtb_spec (slen text) kMaxMediaTypeBytes); [done|]. simpl in Ha. inv_try.
    apply keep_mediaType; [done|]. split; [done|]. unfold slen in *. lia.
  - destruct (Z.gtb_spec (slen text) kMaxProducerBytes); [done|]. simpl in Ha. inv_try.
    by apply keep_producer.
  - destruct (Z.eqb_spec (slen text) 0); [done|].
    destruct (Z.gtb_spec (slen text) kMaxPlanSourcePathBytes); [done|]. simpl in Ha. inv_try.
    by apply keep_source.
  - destruct (parseEndpoint text) as [e| |] eqn:E; [|done..].
    destruct (endpoint_isSet e) eqn:Es; [|done]. simpl in Ha. inv_try.
    apply keep_endpoint; [done|]. split; [done|]. right. by exists e.
  - done.
Qed.

(** The parser's invariant. *)
Record parsing (s : PlanState) : Prop := {
  pi_set : ps_haveSetId s = true → id_valid (pl_setId (ps_plan s));
  pi_rollout : id_optional (pl_rolloutSet (ps_plan s));
  pi_wf : Forall instruction_wf (pl_instructions (ps_plan s));
  pi_distinct : NoDup (map (λ i, str (di_target i)) (pl_instructions (ps_plan s)));
  pi_targets : ∀ t, t ∈ map (λ i, str (di_target i)) (pl_instructions (ps_plan s)) →
                 t ∈ ps_seenTargets s;
  pi_count : zlen (pl_instructions (ps_plan s)) <= kMaxPlanTargets;
  pi_open : ps_inTarget s = true →
    zlen (pl_instructions (ps_plan s)) < kMaxPlanTargets ∧ partial_wf (ps_seenFields s) (ps_current s);
}.

Lemma parsing_initial : parsing PlanState_initial.
Proof.
  split; cbn.
  - done.
  - by left.
  - by constructor.
  - apply NoDup_nil_2.
  - by intros t Ht%elem_of_nil.
  - done.
  - done.
Qed.

Lemma finishTarget_keeps n s s' :
  parsing s → ps_inTarget s = true → finishTarget n s = Ok s' →
  parsing (close_target s') ∧ ps_haveSetId s' = ps_haveSetId s.
Proof.
  intros [] Hin. unfold finishTarget, reject.
  destruct (list_find _ mandatory) as [[]|] eqn:Em; [done|].
  destruct (Z.eqb_spec (di_sizeBytes (ps_current s)) 0); [done|].
  destruct (digest_isSet (di_digest (ps_current s))) eqn:Ed; [|done].
  destruct (Z.eqb_spec (value (di_generation (ps_current s))) 0); [done|].
  case_bool_decide as Hnew; [done|]. intros [= <-]. cbn [negb]. split; [|done].
  destruct (pi_open0 Hin) as [Hc []]. apply list_find_None in Em.
  assert (∀ k, k ∈ mandatory → k ∈ ps_seenFields s) as Hm.
  { intros k Hk. apply list_elem_of_In in Hk. rewrite List.Forall_forall in Em.
    by apply dec_stable, (Em k Hk). }
  split; cbn; try done.
  - apply Forall_app. split; [done|]. apply Forall_cons_iff. split; [|by constructor].
    unfold fits in *. split; try done; try lia; [apply pw_key0|apply pw_artifact0|apply pw_schema0];
      apply Hm; set_solver.
  - rewrite map_app. apply list.NoDup_app. split; [done|]. split; [|apply list.NoDup_singleton].
    intros t Ht E%list_elem_of_singleton. subst t. by apply Hnew, pi_targets0.
  - intros t. rewrite map_app, elem_of_app. intros [Ht|E%list_elem_of_singleton]; set_solver.
  - rewrite zlen_app, zlen_cons, zlen_nil. lia.
Qed.

Lemma parsing_outside s : parsing s → ps_inTarget s = false → parsing (close_target s).
Proof. intros [] Ht. by split. Qed.

Lemma parsing_open target s :
  parsing (close_target s) → id_valid target → zlen (pl_instructions (ps_plan s)) < kMaxPlanTargets →
  parsing (open_target target s).
Proof. intros [] Hid Hc. split; cbn in *; try done. intros _. split; [done|]. by apply new_instruction_wf. Qed.

(** Reading the head of a block. *)
Lemma plan_line_open n keyword_value s s' :
  parsing (close_target s) →
  (if negb (ps_haveSetId s) then
     fail_detail ErrorCode.MalformedInput
       "deployment set id must be declared before targets" (at_line n)
   else if zlen (pl_instructions (ps_plan s)) >=? kMaxPlanTargets then
     fail_detail ErrorCode.LimitExceeded
       "deployment set exceeds the maximum target count" (to_string kMaxPlanTargets)
   else if decide (keyword_value = "") then
     fail_detail ErrorCode.MissingField "target block is missing its target id" (at_line n)
   else
     let* target := parseTargetId keyword_value in Ok (open_target target s)) = Ok s' →
  parsing s'.
Proof.
  intros Hs. destruct (ps_haveSetId s); [|done]. cbn [negb].
  destruct (Z.geb_spec (zlen (pl_instructions (ps_plan s))) kMaxPlanTargets); [done|].
  case_decide; [done|]. intros Ht. inv_try.
  match goal with E : parseTargetId _ = _ |- _ => apply parseId_Ok in E as [-> Hid] end.
  apply parsing_open; [done|done|lia].
Qed.

Lemma plan_line_keeps line s s' :
  without newline (text_of line) → parsing s → plan_line line s = Ok s' → parsing s'.
Proof.
  intros Hl Hs. pose proof (value_of_plain _ Hl) as Hv. unfold plan_line.
  destruct (text_of line) as [|c rest] eqn:E; [by intros [= <-]|]. rewrite <- E in *.
  destruct (Ascii.eqb _ _); [by intros [= <-]|].
  destruct (ps_haveHeader s) eqn:Eh; cbn [negb].
  2: { case_bool_decide; cbn [negb]; [|done]. intros H'. inv_try. destruct (negb _); [done|]. inv_try.
       by destruct Hs; split. }
  generalize (number line) (keyword_of (text_of line)). intros n keyword.
  destruct (decide (keyword = "set-id")) as [_|_].
  { destruct (ps_inTarget s) eqn:Et; [done|]. intros H'. inv_try.
    match goal with E : parseDeploymentSetId _ = _ |- _ => apply parseId_Ok in E as [-> Hid] end.
    destruct Hs. by split. }
  destruct (decide (keyword = "rollout-set")) as [_|_].
  { destruct (ps_inTarget s) eqn:Et; [done|]. intros H'. inv_try.
    match goal with E : parseRolloutSetId _ = _ |- _ => apply parseId_Ok in E as [-> Hid] end.
    destruct Hs. split; try done. by right. }
  destruct (decide (keyword = "target")) as [_|_].
  { destruct (ps_inTarget s) eqn:Et.
    - intros H'. apply try_bind_Ok in H' as (s1 & Hf & H'). revert H'. apply plan_line_open.
      by eapply finishTarget_keeps.
    - apply plan_line_open. by apply parsing_outside. }
  destruct (ps_inTarget s) eqn:Et; cbn [negb]; [|by case_decide].
  destruct (decide (keyword = "end")) as [_|_].
  - intros H'. inv_try. by eapply finishTarget_keeps.
  - case_bool_decide; [done|]. intros H'. inv_try. destruct Hs. split; try done.
    cbn. intros _. destruct (pi_open0 Et) as [? Hw]. split; [done|]. by eapply assign_field_keeps.
Qed.

Lemma plan_lines_keep lines s s' :
  Forall (λ line, without newline (text_of line)) lines → parsing s → plan_lines lines s = Ok s' →
  parsing s'.
Proof.
  revert s. induction lines as [|line lines IH]; intros s; [by intros _ ? [= <-]|].
  intros [Hl Hls]%Forall_cons_iff Hs. cbn [plan_lines]. intros H. inv_try.
  eapply IH; [done| |done]. by eapply plan_line_keeps.
Qed.

Lemma number_lines_text n raws lines :
  Forall (without newline) raws → number_lines n raws = Ok lines →
  Forall (λ line, without newline (text_of line)) lines.
Proof.
  revert n lines. induction raws as [|raw raws IH]; intros n lines; [by intros _ [= <-]|].
  intros [Hr Hrs]%Forall_cons_iff. cbn [number_lines]. case_match; [done|]. case_match; [done|].
  intros H'. inv_try. apply Forall_cons_iff. split; [by apply trim_without|by eapply IH].
Qed.

Lemma parse_wf text sourceName p : parseDeploymentPlan text sourceName = Ok p → plan_wf p.
Proof.
  unfold parseDeploymentPlan. case_match; [done|]. intros H'. inv_try.
  match goal with E : plan_lines _ _ = Ok ?s |- _ => assert (parsing s) as [] end.
  { eapply plan_lines_keep; [|apply parsing_initial|done].
    eapply number_lines_text; [|done]. apply split_on_without. }
  unfold finish_plan in *. do 4 (case_match; [done|]). inv_try.
  case_bool_decide; [done|].
  match goal with E : negb (ps_haveSetId _) = false |- _ => apply negb_false_iff in E end.
  split; try done. by apply pi_set0.
Qed.

(** *** The blocks an accepted plan was read from *)

(** What a line says: nothing (a blank line or a comment), or a keyword and a
    value. *)
Definition directive (text : string) : option (string * string) :=
  match text with
  | "" => None
  | String front _ => if Ascii.eqb front "#" then None else Some (keyword_of text, value_of text)
  end.
Definition directives (text : string) : list (string * string) :=
  omap (directive ∘ trim) (split_on newline text).

(** The directives a target block has to have, next to the one that opens it. *)
Definition required_directives : list string :=
  ["class"; "guarantee"; "config-key"; "artifact"; "revision"; "generation"; "schema";
   "schema-version"; "digest"; "size"; "requires"].

(** [body], the directives of a block, gives the instruction [i]: each field is
    what its directive says, no directive is repeated and none is missing. *)
Record block_of (body : list (string * string)) (i : DeploymentInstruction) : Prop := {
  bk_fields : assigns body (new_instruction (di_target i)) i;
  bk_distinct : NoDup (map fst body);
  bk_complete : ∀ k, k ∈ required_directives → k ∈ map fst body;
}.

(** A block of [ds], up to the directive that closes it. *)
Definition has_block (ds : list (string * string)) (i : DeploymentInstruction) : Prop :=
  ∃ before body last after,
    ds = before ++ ("target", str (di_target i)) :: body ++ last :: after
    ∧ (last.1 = "end" ∨ last.1 = "target") ∧ block_of body i.

Lemma has_block_more ds more i : has_block ds i → has_block (ds ++ more) i.
Proof.
  intros (before & body & last & after & -> & H). exists before, body, last, (after ++ more).
  split; [|done]. by rewrite <- app_assoc; cbn [app]; rewrite <- app_assoc.
Qed.

Lemma assign_field_any n n' keyword text i j :
  assign_field n keyword text i = Ok j → assign_field n' keyword text i = Ok j.
Proof.
  unfold assign_field, or_unknown.
  repeat (case_decide; [first [by repeat case_match
    |destruct (parseUnsigned text _); cbn [try_bind]; [by repeat case_match|done|done]]|]).
  done.
Qed.

Lemma assign_field_target n keyword text i j :
  assign_field n keyword text i = Ok j → di_target j = di_target i.
Proof.
  unfold assign_field, or_unknown.
  repeat (case_decide; [intros H'; inv_try; repeat (case_match; try done); inv_try; by destruct i|]).
  done.
Qed.

(** Where the parser stands after the directives [ds]. *)
Record accounted (ds : list (string * string)) (s : PlanState) : Prop := {
  ac_header : ps_inTarget s = true → ps_haveHeader s = true;
  ac_blocks : Forall (has_block ds) (pl_instructions (ps_plan s));
  ac_open : ps_inTarget s = true →
    ∃ before body, ds = before ++ ("target", str (di_target (ps_current s))) :: body
      ∧ assigns body (new_instruction (di_target (ps_current s))) (ps_current s)
      ∧ NoDup (map fst body)
      ∧ ∀ k, k ∈ ps_seenFields s ↔ k = "target" ∨ k ∈ map fst body;
}.

Lemma accounted_blocks ds more s s' :
  accounted ds s → pl_instructions (ps_plan s') = pl_instructions (ps_plan s) →
  ps_inTarget s' = false → accounted (ds ++ more) s'.
Proof.
  intros [_ Hb _] Hp Ht. split; [by rewrite Ht| |by rewrite Ht]. rewrite Hp. revert Hb. apply Forall_impl.
  intros i. apply has_block_more.
Qed.

Lemma finishTarget_header n s s' :
  finishTarget n s = Ok s' → ps_haveHeader s' = ps_haveHeader s.
Proof.
  unfold finishTarget, reject. destruct (list_find _ _) as [[]|]; [done|].
  repeat (case_match; [done|]). by intros [= <-].
Qed.

Lemma finishTarget_accounted ds d n s s' :
  accounted ds s → ps_inTarget s = true → d.1 = "end" ∨ d.1 = "target" →
  finishTarget n s = Ok s' →
  Forall (has_block (ds ++ [d])) (pl_instructions (ps_plan s')).
Proof.
  intros [_ Hb Ho] Ht Hd. destruct (Ho Ht) as (before & body & -> & Ha & Hnd & Hseen).
  unfold finishTarget, reject. destruct (list_find _ mandatory) as [[]|] eqn:Em; [done|].
  case_match; [done|]. case_match; [done|]. case_match; [done|]. case_match; [done|].
  intros [= <-]. cbn [ps_plan pl_instructions]. apply Forall_app. split.
  { revert Hb. apply Forall_impl. intros i. apply has_block_more. }
  apply Forall_cons_iff. split; [|by constructor].
  exists before, body, d, []. split; [by rewrite <- app_assoc|]. split; [done|]. split; [done|done|].
  intros k Hk. apply list_find_None in Em. rewrite List.Forall_forall in Em.
  assert (k ∈ ps_seenFields s) as [->|]%Hseen; [|exfalso|done].
  - apply dec_stable, (Em k). unfold required_directives in Hk.
    repeat (apply elem_of_cons in Hk as [->|Hk]; [apply list_elem_of_In; unfold mandatory; set_solver|]).
    by apply elem_of_nil in Hk.
  - revert Hk. apply (bool_decide_unpack _). vm_compute. exact I.
Qed.

Lemma open_accounted ds target s :
  ps_haveHeader s = true →
  Forall (has_block (ds ++ [("target", str target)])) (pl_instructions (ps_plan s)) →
  accounted (ds ++ [("target", str target)]) (open_target target s).
Proof.
  intros Hh Hb. split; [done|done|]. intros _. exists ds, []. split_and!; [done|done|by constructor|].
  intros k. cbn. set_solver.
Qed.

(** The head of a block. *)
Lemma line_open_accounted ds n text s s' :
  ps_haveHeader s = true →
  Forall (has_block (ds ++ [("target", text)])) (pl_instructions (ps_plan s)) →
  (if negb (ps_haveSetId s) then
     fail_detail ErrorCode.MalformedInput
       "deployment set id must be declared before targets" (at_line n)
   else if zlen (pl_instructions (ps_plan s)) >=? kMaxPlanTargets then
     fail_detail ErrorCode.LimitExceeded
       "deployment set exceeds the maximum target count" (to_string kMaxPlanTargets)
   else if decide (text = "") then
     fail_detail ErrorCode.MissingField "target block is missing its target id" (at_line n)
   else
     let* target := parseTargetId text in Ok (open_target target s)) = Ok s' →
  accounted (ds ++ [("target", text)]) s'.
Proof.
  intros Hh Hb. destruct (negb _); [done|]. destruct (_ >=? _); [done|]. case_decide; [done|].
  intros Ht. inv_try.
  match goal with E : parseTargetId _ = _ |- _ => apply parseId_Ok in E as [-> _] end.
  by apply (open_accounted ds (mkString text)).
Qed.

Lemma line_field_accounted ds n keyword text s i :
  accounted ds s → ps_inTarget s = true → keyword ∉ ps_seenFields s →
  assign_field n keyword text (ps_current s) = Ok i →
  accounted (ds ++ [(keyword, text)]) (set_field keyword i s).
Proof.
  intros [Hh Hb Ho] Ht Hnew Ha. split; [done| |].
  { revert Hb. apply Forall_impl. intros j. apply has_block_more. }
  intros _. destruct (Ho Ht) as (before & body & -> & Hbody & Hnd & Hseen).
  cbn [set_field ps_current ps_seenFields]. rewrite (assign_field_target _ _ _ _ _ Ha).
  exists before, (body ++ [(keyword, text)]).
  split; [by rewrite <- app_assoc|]. split.
  { apply (assigns_app _ _ _ (ps_current s)); [done|]. exists i. split; [|done]. intros n'.
    by apply (assign_field_any n). }
  rewrite map_app. cbn [map fst]. split.
  - apply list.NoDup_app. split; [done|]. split; [|apply list.NoDup_singleton].
    intros k Hk E%list_elem_of_singleton. subst k. apply Hnew, Hseen. by right.
  - intros k. rewrite elem_of_union, elem_of_singleton, Hseen, elem_of_app, list_elem_of_singleton. tauto.
Qed.

Lemma plan_line_accounted ds line s s' :
  accounted ds s → plan_line line s = Ok s' →
  accounted (ds ++ match directive (text_of line) with Some d => [d] | None => [] end) s'.
Proof.
  intros Hs. unfold plan_line, directive.
  destruct (text_of line) as [|c rest] eqn:E; [intros [= <-]; by rewrite app_nil_r|].
  rewrite <- E. clear E.
  destruct (Ascii.eqb _ _); [intros [= <-]; by rewrite app_nil_r|].
  cbv iota.
  destruct (ps_haveHeader s) eqn:Eh; cbn [negb].
  2: { case_bool_decide; cbn [negb]; [|done]. intros H'. inv_try. destruct (negb _); [done|]. inv_try.
       eapply accounted_blocks; [done|done|]. cbn [set_header ps_inTarget].
       destruct (ps_inTarget s) eqn:Et; [|done]. pose proof (ac_header _ _ Hs Et). congruence. }
  generalize (number line) (value_of (text_of line)). intros n text.
  destruct (decide (keyword_of (text_of line) = "set-id")) as [_|_].
  { destruct (ps_inTarget s) eqn:Et; [done|]. intros H'. inv_try.
    by apply (accounted_blocks _ _ s). }
  destruct (decide (keyword_of (text_of line) = "rollout-set")) as [_|_].
  { destruct (ps_inTarget s) eqn:Et; [done|]. intros H'. inv_try.
    by apply (accounted_blocks _ _ s). }
  destruct (decide (keyword_of (text_of line) = "target")) as [->|_].
  { destruct (ps_inTarget s) eqn:Et.
    - intros H'. apply try_bind_Ok in H' as (s1 & Hf & H'). revert H'. apply line_open_accounted.
      + by rewrite (finishTarget_header _ _ _ Hf).
      + eapply finishTarget_accounted; [done|done| |done]. by right.
    - apply line_open_accounted; [done|]. destruct Hs as [_ Hb _]. revert Hb. apply Forall_impl.
      intros i. apply has_block_more. }
  destruct (ps_inTarget s) eqn:Et; cbn [negb]; [|by case_decide].
  destruct (decide (keyword_of (text_of line) = "end")) as [->|_].
  - intros H'. inv_try. split; [done| |done]. cbn [close_target ps_plan].
    eapply finishTarget_accounted; [done|done| |done]. by left.
  - case_bool_decide; [done|]. intros H'. inv_try. by eapply line_field_accounted.
Qed.

Lemma plan_lines_accounted ds lines s s' :
  accounted ds s → plan_lines lines s = Ok s' →
  accounted (ds ++ omap (directive ∘ text_of) lines) s'.
Proof.
  revert ds s. induction lines as [|line lines IH]; intros ds s Hs; cbn [plan_lines].
  { intros [= <-]. by rewrite app_nil_r. }
  intros H'. apply try_bind_Ok in H' as (s1 & Hl & H').
  pose proof (plan_line_accounted _ _ _ _ Hs Hl) as Hs1. apply (IH _ _ Hs1) in H'.
  rewrite <- app_assoc in H'. cbn [omap list_omap compose]. by destruct (directive (text_of line)).
Qed.

Lemma number_lines_trimmed n raws lines :
  number_lines n raws = Ok lines → map text_of lines = map trim raws.
Proof.
  revert n lines. induction raws as [|raw raws IH]; intros n lines; [by intros [= <-]|].
  cbn [number_lines]. case_match; [done|]. case_match; [done|]. intros H'. inv_try.
  cbn [map text_of]. f_equal. by eapply IH.
Qed.

Lemma omap_map {A B C} (f : B → option C) (g : A → B) (l : list A) : omap (f ∘ g) l = omap f (map g l).
Proof. induction l as [|x l IH]; [done|]. cbn. by rewrite IH. Qed.

(** Every instruction of an accepted plan was read from a block of the text. *)
Lemma parse_blocks text sourceName p :
  parseDeploymentPlan text sourceName = Ok p →
  Forall (has_block (directives text)) (pl_instructions p).
Proof.
  unfold parseDeploymentPlan. case_match; [done|]. intros H'.
  apply try_bind_Ok in H' as (lines & Hl & H'). apply try_bind_Ok in H' as (s & Hrun & H').
  assert (accounted [] PlanState_initial) as H0 by (split; [done|by constructor|done]).
  pose proof (plan_lines_accounted _ _ _ _ H0 Hrun) as [_ Hb _].
  assert (omap (directive ∘ text_of) lines = directives text) as E.
  { unfold directives. rewrite !omap_map. f_equal. by eapply number_lines_trimmed. }
  cbn [app] in Hb. rewrite E in Hb. unfold finish_plan in H'. do 4 (case_match; [done|]).
  by injection H' as <-.
Qed.

(** ** Properties *)

(** A printed plan parses back. Every well-formed plan (valid identifiers,
    numbers in range, distinct targets, texts of one trimmed line within their
    bounds, endpoints that can be dialled) whose text respects the two limits
    of the format is read back from its own printing, field by field, optional
    fields and the default media type included. *)
Theorem plan_roundtrip p sourceName
    (Hwf : plan_wf p) (Hsize : slen (renderDeploymentPlan p) <= kMaxPlanBytes)
    (Hlines : zlen (plan_text_lines p) < kMaxPlanTargets * 16 + 64) :
  parseDeploymentPlan (renderDeploymentPlan p) sourceName = Ok p.
Proof. by apply parse_render. Qed.

Definition example_plan_text : string :=
  unlines
    ["# an upstream plan"; ""; "cf-plan 1"; "set-id  s1"; "target t1"; "  class network-device ";
     "  guarantee atomic-activate"; "  config-key k1"; "  artifact a1"; "  revision 1";
     "  generation 5"; "  schema sch"; "  schema-version 1";
     "  digest 2cf24dba5fb0a30e26e83b2ac5b9e29e1b161e5c1fa7425e73043362938b9824"; "  size 5";
     "  requires require-atomic"; "  producer build 7"; "  endpoint 10.0.0.1:7001"; "end"].

Definition example_instruction : DeploymentInstruction :=
  mkInstruction (mkString "t1") TargetClass.NetworkDevice ApplyGuarantee.AtomicActivate
    (mkString "k1") (mkString "a1") (fromValue 1) (fromValue 5) (mkString "sch") (fromValue 1)
    (Digest_ofContent (bytes_of_string "hello")) 5 GuaranteeRequirement.RequireAtomic
    "application/octet-stream" "build 7" "" "10.0.0.1:7001".
Definition example_plan : DeploymentPlan :=
  mkPlan (mkString "s1") id_empty [example_instruction].

Example example_plan_parses : parseDeploymentPlan example_plan_text "p" = Ok example_plan.
Proof. vm_compute. reflexivity. Qed.

(** C27: the parser accepts well-formed plans only. Whatever the text, an accepted
    plan has a valid deployment set id, between one and 4096 instructions with
    distinct targets, and every field of every instruction in range: valid
    identifiers, a set digest, a generation and a size above zero, texts within
    their bounds, and an endpoint, if any, that can be dialled. Every instruction
    was read from a block of the text that names its target: each of the eleven
    mandatory directives is there, none is repeated, the value of each is what its
    field holds, and the block is closed. And an accepted plan is printed and read
    back unchanged (its printing may only be refused for its length). *)
Theorem plan_accepted text sourceName p (Hparse : parseDeploymentPlan text sourceName = Ok p) :
  plan_wf p
  ∧ Forall (λ i, ∃ before body last after,
      directives text = before ++ ("target", str (di_target i)) :: body ++ last :: after
      ∧ (last.1 = "end" ∨ last.1 = "target")
      ∧ assigns body (new_instruction (di_target i)) i ∧ NoDup (map fst body)
      ∧ ∀ k, k ∈ ["class"; "guarantee"; "config-key"; "artifact"; "revision"; "generation";
                  "schema"; "schema-version"; "digest"; "size"; "requires"] →
             k ∈ map fst body) (pl_instructions p)
  ∧ (slen (renderDeploymentPlan p) <= kMaxPlanBytes →
     zlen (plan_text_lines p) < kMaxPlanTargets * 16 + 64 →
     parseDeploymentPlan (renderDeploymentPlan p) sourceName = Ok p).
Proof.
  pose proof (parse_blocks _ _ _ Hparse) as Hblocks. apply parse_wf in Hparse. split; [done|]. split.
  - revert Hblocks. apply Forall_impl. intros i (before & body & last & after & Hd & Hl & [Ha Hn Hc]).
    by exists before, body, last, after.
  - intros. by apply parse_render.
Qed.

Lemma plan_accepted_witness : plan_wf example_plan.
Proof. refine (proj1 (plan_accepted example_plan_text "p" example_plan _)). vm_compute. reflexivity. Defined.

Lemma plan_roundtrip_witness :
  parseDeploymentPlan (renderDeploymentPlan example_plan) "p" = Ok example_plan.
Proof.
  apply plan_roundtrip; [|by vm_compute|by vm_compute].
  apply (parse_wf example_plan_text "p"). vm_compute. reflexivity.
Defined.

(** A block with every optional field has seventeen lines, the line limit allows
    sixteen for each of the permitted targets: the printing of such a plan of
    the permitted number of targets is refused. *)
Lemma number_lines_refused n raws :
  Forall (λ raw, slen raw <= kMaxPlanLineBytes) raws → n <= kMaxPlanTargets * 16 + 65 →
  kMaxPlanTargets * 16 + 65 < n + zlen raws →
  ∃ e, number_lines n raws = Fail e ∧ code e = ErrorCode.LimitExceeded.
Proof.
  revert n. induction raws as [|raw raws IH]; intros n Hall Hn Hlen; [rewrite zlen_nil in Hlen; lia|].
  apply Forall_cons_iff in Hall as [Hr Hall]. rewrite zlen_cons in Hlen. cbn [number_lines].
  destruct (Z.gtb_spec (slen raw) kMaxPlanLineBytes); [lia|].
  destruct (Z.gtb_spec n (kMaxPlanTargets * 16 + 64)) as [|Hn']; [by eexists|].
  destruct (IH (n + 1) Hall) as (e & -> & He); [lia..|]. by exists e.
Qed.

Definition full_block (i : DeploymentInstruction) : Prop :=
  di_producer i ≠ "" ∧ di_sourcePath i ≠ "" ∧ di_endpoint i ≠ "".

Theorem full_plan_refused p sourceName
    (Hwf : plan_wf p) (Hfull : Forall full_block (pl_instructions p))
    (Hcount : zlen (pl_instructions p) = kMaxPlanTargets)
    (Hsize : slen (renderDeploymentPlan p) <= kMaxPlanBytes) :
  ∃ e, parseDeploymentPlan (renderDeploymentPlan p) sourceName = Fail e
    ∧ code e = ErrorCode.LimitExceeded.
Proof.
  pose proof (plan_text_lines_ok p Hwf) as Hok. unfold parseDeploymentPlan.
  destruct (Z.gtb_spec (slen (renderDeploymentPlan p)) kMaxPlanBytes); [lia|].
  unfold splitLines, renderDeploymentPlan. rewrite split_unlines by done.
  assert (zlen (concat (map instruction_lines (pl_instructions p))) = 17 * zlen (pl_instructions p)) as Hc.
  { clear - Hfull. induction Hfull as [|i l (H1 & H2 & H3) _ IH]; [done|].
    cbn [map concat]. rewrite zlen_app, IH, zlen_cons. unfold instruction_lines, optional_entry.
    rewrite !decide_False by done. unfold zlen. cbn [length app]. lia. }
  destruct (number_lines_refused 1 (plan_text_lines p ++ [""])) as (e & -> & He).
  - apply Forall_app. split; [|by apply Forall_cons_iff]. revert Hok. apply Forall_impl. by intros raw [_ ?].
  - by vm_compute.
  - unfold plan_text_lines. rewrite !zlen_app, Hc, Hcount, !zlen_cons, !zlen_nil.
    pose proof (zlen_nonneg (if id_isSet (pl_rolloutSet p)
      then [plan_entry "rollout-set" (str (pl_rolloutSet p))] else [])). unfold kMaxPlanTargets. lia.
  - by exists e.
Qed.

(** The set id may be declared again after a block: the last one counts. *)
Example set_id_after_a_block :
  parseDeploymentPlan (example_plan_text +:+ unlines ["set-id s2"]) "p"
  = Ok (mkPlan (mkString "s2") id_empty [example_instruction]).
Proof. vm_compute. reflexivity. Qed.
