(* ===== verification/FaultPlan.v ===== *)
(** * Fault plans

    Models [fault::FaultPlan] of include/cf/agent.hpp and src/agent.cpp: the
    text that names the injection points of the validation suite. *)

From Stdlib Require Import Strings.Ascii.
From S2P Require Import Prelude Result Ids Text.

Definition kAfterOffer : string := "after-offer".
Definition kAfterChunk : string := "after-chunk".
Definition kAfterVerify : string := "after-verify".
Definition kAfterStage : string := "after-stage".
Definition kAfterPrepare : string := "after-prepare".
Definition kBeforeCommit : string := "before-commit".
Definition kAfterSwitch : string := "after-switch".
Definition kAfterCommit : string := "after-commit".
Definition kWithholdAck : string := "withhold-ack".
Definition kCorruptChunk : string := "corrupt-chunk".
Definition kTruncateTransfer : string := "truncate-transfer".
Definition kDropAfterPrepare : string := "drop-after-prepare".
Definition kStaleCommit : string := "stale-commit".
Definition kDuplicateChunk : string := "duplicate-chunk".
Definition kReorderChunk : string := "reorder-chunk".
Definition kOversizeDeclare : string := "oversize-declare".

Record Entry := mkEntry { e_name : string; e_count : Z }.
Definition FaultPlan : Type := list Entry.

(** The points the parser accepts. *)
Definition known : list string :=
  [kAfterOffer; kAfterChunk; kAfterVerify; kAfterStage; kAfterPrepare; kBeforeCommit;
   kAfterSwitch; kAfterCommit; kWithholdAck; kCorruptChunk; kTruncateTransfer;
   kDropAfterPrepare; kStaleCommit; kDuplicateChunk; kOversizeDeclare].

Definition trim (text : string) : string := trim_back is_space (trim_front is_space text).

Definition parse_count (entry countText : string) : Result Z :=
  if decide (countText = "")
  then fail_detail ErrorCode.InvalidArgument "fault injection count is missing" entry
  else parse_decimal 32
         (mkError ErrorCode.InvalidArgument "fault injection count is not a decimal integer" entry)
         (mkError ErrorCode.ArithmeticOverflow "fault injection count overflowed" "")
         countText 0.

(** One trimmed, non-empty entry. *)
Definition parse_entry (entry : string) : Result Entry :=
  let '(name, countText) :=
    match cut ":" entry with
    | Some (name, countText) => (name, Some countText)
    | None => (entry, None)
    end in
  let* count := match countText with
                | Some countText => parse_count entry countText
                | None => Ok 0
                end in
  if existsb (λ candidate, bool_decide (candidate = name)) known
  then Ok (mkEntry name count)
  else fail_detail ErrorCode.InvalidArgument "unknown fault injection point" name.

Fixpoint parse_entries (fields : list string) : Result FaultPlan :=
  match fields with
  | [] => Ok []
  | field :: fields =>
      let entry := trim field in
      if decide (entry = "") then parse_entries fields
      else
        let* parsed := parse_entry entry in
        let* points := parse_entries fields in
        Ok (parsed :: points)
  end.

Definition FaultPlan_parse (text : string) : Result FaultPlan :=
  if decide (text = "") then Ok [] else parse_entries (split_on "," text).

Definition armed (plan : FaultPlan) (point : string) : bool :=
  existsb (λ e, bool_decide (e_name e = point)) plan.
Fixpoint countFor (plan : FaultPlan) (point : string) : Z :=
  match plan with
  | [] => 0
  | e :: plan => if decide (e_name e = point) then e_count e else countFor plan point
  end.

Definition Entry_render (e : Entry) : string :=
  e_name e +:+ (if negb (e_count e =? 0) then ":" +:+ to_string (e_count e) else "").
Fixpoint render_entries (out : string) (plan : FaultPlan) : string :=
  match plan with
  | [] => out
  | e :: plan =>
      render_entries ((if decide (out = "") then "" else out +:+ ",") +:+ Entry_render e) plan
  end.
Definition FaultPlan_render (plan : FaultPlan) : string :=
  let out := render_entries "" plan in if decide (out = "") then "none" else out.

(** ** Lemmas *)

Definition entry_ok (e : Entry) : Prop := e_name e ∈ known ∧ fits 32 (e_count e).

Lemma parse_entry_ok entry e : parse_entry entry = Ok e → entry_ok e.
Proof.
  unfold parse_entry. destruct (cut ":" entry) as [[name text]|]; cbv iota beta zeta.
  all: intros (count & Hc & H)%try_bind_Ok; destruct (existsb _ known) eqn:Hk; [|done].
  all: injection H as <-; apply existsb_exists in Hk as (c & Hin & <-%bool_decide_eq_true).
  all: split; [by apply list_elem_of_In|].
  - unfold parse_count in Hc. destruct (decide (text = "")); [done|].
    eapply parse_decimal_range in Hc; [done|]. by split.
  - injection Hc as <-. by split.
Qed.

Lemma parse_entries_ok fields plan : parse_entries fields = Ok plan → Forall entry_ok plan.
Proof.
  revert plan. induction fields as [|f fields IH]; intros plan; cbn [parse_entries].
  { intros [= <-]. constructor. }
  destruct (decide (trim f = "")); [apply IH|].
  intros (e & He & (plan' & Hp & [= <-])%try_bind_Ok)%try_bind_Ok.
  constructor; [by eapply parse_entry_ok|by apply IH].
Qed.

(** The names of the points contain no separator and no space. *)
Lemma known_clean name :
  name ∈ known →
  without ":" name ∧ without "," name ∧ without " " name ∧ name ≠ "".
Proof. unfold known. rewrite list_elem_of_In. simpl. naive_solver. Qed.

Lemma to_string_clean v :
  0 <= v → without ":" (to_string v) ∧ without "," (to_string v) ∧ without " " (to_string v)
           ∧ to_string v ≠ "".
Proof.
  intros Hv. destruct (to_string_uint v Hv) as (_ & _ & _ & Hne).
  split_and!; [apply to_string_without; [done|vm_compute; auto]..|done].
Qed.

Lemma Entry_render_clean e :
  entry_ok e → without "," (Entry_render e) ∧ without " " (Entry_render e) ∧ Entry_render e ≠ "".
Proof.
  intros [Hn [Hc _]]. destruct (known_clean _ Hn) as (_ & H1 & H2 & Hne).
  destruct (to_string_clean _ Hc) as (_ & H3 & H4 & _).
  unfold Entry_render. rewrite !without_app. destruct (e_count e =? 0); cbn [negb].
  - split_and!; try done. by destruct (e_name e).
  - rewrite !without_app. split_and!; try done. by destruct (e_name e).
Qed.

Lemma trim_clean text : without " " text → trim text = text.
Proof. intros H. unfold trim. rewrite trim_front_keep, trim_back_keep by exact H. done. Qed.

Lemma parse_render_entry e : entry_ok e → parse_entry (Entry_render e) = Ok e.
Proof.
  intros [Hn Hc]. destruct (known_clean _ Hn) as (Hcol & _ & _ & _).
  assert (existsb (λ candidate, bool_decide (candidate = e_name e)) known = true) as Hk.
  { apply existsb_exists. exists (e_name e). split; [by apply list_elem_of_In|].
    by apply bool_decide_eq_true. }
  unfold parse_entry, Entry_render. destruct (Z.eqb_spec (e_count e) 0) as [H0|H0]; cbn [negb].
  - assert (e_name e +:+ "" = e_name e) as ->.
    { clear. induction (e_name e) as [|c s IH]; [done|].
      change (String c (s +:+ "") = String c s). by rewrite IH. }
    rewrite cut_without by done. cbn [try_bind]. rewrite Hk. by destruct e; simpl in *; subst.
  - change (e_name e +:+ ":" +:+ to_string (e_count e))
      with (e_name e +:+ String ":" (to_string (e_count e))).
    rewrite cut_app by done. unfold parse_count.
    destruct (to_string_clean (e_count e)) as (_ & _ & _ & Hne); [by destruct Hc|].
    rewrite decide_False by done. rewrite parse_decimal_to_string by done.
    cbn [try_bind]. rewrite Hk. by destruct e.
Qed.

Fixpoint render_tail (plan : FaultPlan) : string :=
  match plan with
  | [] => ""
  | e :: plan => String "," (Entry_render e +:+ render_tail plan)
  end.

Lemma render_entries_tail out plan :
  out ≠ "" → render_entries out plan = out +:+ render_tail plan.
Proof.
  revert out. induction plan as [|e plan IH]; intros out Hne; cbn [render_entries render_tail].
  - by rewrite append_empty.
  - rewrite decide_False by done. rewrite IH.
    + by rewrite !append_assoc.
    + by destruct out.
Qed.

Lemma split_render_tail a plan :
  without "," a → Forall entry_ok plan →
  split_on "," (a +:+ render_tail plan) = a :: map Entry_render plan.
Proof.
  revert a. induction plan as [|e plan IH]; intros a Ha Hp; cbn [render_tail map].
  - rewrite append_empty. by apply split_on_field.
  - apply Forall_cons_iff in Hp as [He Hp]. rewrite split_on_cons by done.
    rewrite IH; [done| |done]. by apply Entry_render_clean.
Qed.

Lemma parse_render_entries plan :
  Forall entry_ok plan → parse_entries (map Entry_render plan) = Ok plan.
Proof.
  induction 1 as [|e plan He Hp IH]; cbn [map parse_entries]; [done|].
  destruct (Entry_render_clean e He) as (_ & Hs & Hne).
  rewrite trim_clean by done. rewrite decide_False by done.
  rewrite parse_render_entry by done. cbn [try_bind]. by rewrite IH.
Qed.

(** ** Properties *)

(** A fault plan that is not empty survives being rendered and parsed again;
    an accepted plan only holds documented points with 32-bit counts. *)
Theorem fault_plan_roundtrip text plan (Hparse : FaultPlan_parse text = Ok plan)
    (Hne : plan ≠ []) :
  Forall entry_ok plan ∧ FaultPlan_parse (FaultPlan_render plan) = Ok plan.
Proof.
  assert (Forall entry_ok plan) as Hok.
  { unfold FaultPlan_parse in Hparse. destruct (decide (text = "")).
    - injection Hparse as <-. constructor.
    - by apply parse_entries_ok in Hparse. }
  split; [done|]. destruct plan as [|e plan]; [done|].
  assert (Hok' := Hok). apply Forall_cons_iff in Hok' as [He Hp].
  destruct (Entry_render_clean e He) as (Hcomma & _ & Hr).
  unfold FaultPlan_render. cbn [render_entries].
  destruct (decide ("" = "")) as [_|]; [|done]. change ("" +:+ Entry_render e) with (Entry_render e).
  rewrite render_entries_tail by done.
  assert (Entry_render e +:+ render_tail plan ≠ "") as Hout by (by destruct (Entry_render e)).
  rewrite decide_False by done. unfold FaultPlan_parse. rewrite decide_False by done.
  rewrite split_render_tail by done. apply (parse_render_entries (e :: plan)). by constructor.
Qed.

Lemma fault_plan_roundtrip_witness :
  FaultPlan_parse (FaultPlan_render [mkEntry kAfterChunk 3; mkEntry kWithholdAck 0])
  = Ok [mkEntry kAfterChunk 3; mkEntry kWithholdAck 0].
Proof.
  apply (fault_plan_roundtrip " after-chunk:3 ,withhold-ack").
  - vm_compute. reflexivity.
  - discriminate.
Defined.

(** The documented point reorder-chunk can never be armed: the parser does not
    know it, whatever else the plan holds. *)
Theorem reorder_chunk_never_armed text plan
    (Hp : FaultPlan_parse text = Ok plan) :
  armed plan kReorderChunk = false.
Proof.
  assert (Forall entry_ok plan) as Hok.
  { unfold FaultPlan_parse in Hp. destruct (decide (text = "")).
    - injection Hp as <-. constructor.
    - by apply parse_entries_ok in Hp. }
  unfold armed. apply not_true_iff_false. intros (e & Hin & He%bool_decide_eq_true)%existsb_exists.
  rewrite List.Forall_forall in Hok. destruct (Hok e Hin) as [Hk _]. rewrite He in Hk. revert Hk.
  apply (bool_decide_eq_false (kReorderChunk ∈ known)). vm_compute. reflexivity.
Qed.

Lemma reorder_chunk_never_armed_witness : armed [mkEntry kAfterStage 0] kReorderChunk = false.
Proof. apply (reorder_chunk_never_armed "after-stage"). vm_compute. reflexivity. Defined.
