(* ===== verification/AgentFiles.v ===== *)
(** * The files of a target agent

    Models the file helpers of src/agent.cpp: the text of the live pointer,
    the paths of the live and staging areas, the copy into the live area, the
    hash of a staged file, and the write of one chunk. Operating-system
    failures are arguments. *)

From stdpp Require Import gmap sorting.
From Stdlib Require Import Strings.Ascii Strings.Byte.
From S2P Require Import Prelude Result Checked Hash Ids Text Files.

(** ** The live pointer *)

Definition kMaxLiveValueBytes : Z := 512.

Definition newline : string := String "010" "".
Definition pointerText (generation : Generation) (digest : Digest) (artifact : ArtifactId) : string :=
  to_string (value generation) +:+ " " +:+ digest_hex digest +:+ " " +:+ str artifact +:+ newline.

Record PointerValue := mkPointer {
  pv_generation : Generation;
  pv_digest : Digest;
  pv_artifact : ArtifactId;
}.

(** A trailing newline, carriage return or space. *)
Definition pointer_padding (c : Ascii.ascii) : bool :=
  Ascii.eqb c "010" || Ascii.eqb c "013" || Ascii.eqb c " ".

Definition parsePointer (text : string) : Result PointerValue :=
  let malformed := fail ErrorCode.MalformedInput "live pointer is malformed" in
  match cut " " text with
  | None => malformed
  | Some (generationText, rest) =>
      match cut " " rest with
      | None => malformed
      | Some (digestText, artifactText) =>
          let artifactText := trim_back pointer_padding artifactText in
          let* generation :=
            parse_decimal 64
              (mkError ErrorCode.MalformedInput
                 "live pointer generation is not a decimal integer" "")
              (mkError ErrorCode.ArithmeticOverflow "live pointer generation overflowed" "")
              generationText 0 in
          let* digest := Digest_parse digestText in
          let* artifact :=
            if decide (artifactText = "") then Ok id_empty else parseArtifactId artifactText in
          Ok (mkPointer (fromValue generation) digest artifact)
      end
  end.

Definition readLiveValue (path : string) : IO string :=
  let~ bytes := readFileBounded path kMaxLiveValueBytes in io_ret (string_of_bytes bytes).

(** ** Paths *)

Definition liveKeyDirectory (liveRoot : string) (key : ConfigKey) : string :=
  liveRoot +:+ "/" +:+ str key.
Definition currentPath (directory : string) : string := directory +:+ "/current".
Definition pendingPath (directory : string) : string := directory +:+ "/pending".
Definition payloadName (generation : Generation) (digest : Digest) : string :=
  to_string (value generation) +:+ "-" +:+ str_take 12 (digest_hex digest) +:+ ".cfg".
Definition payloadPath (directory : string) (generation : Generation) (digest : Digest) : string :=
  directory +:+ "/payload/" +:+ payloadName generation digest.
Definition stagingPath (stagingRoot : string) (deployment : DeploymentId) : string :=
  stagingRoot +:+ "/" +:+ str deployment +:+ ".part".

(** ** Copying into the live area *)

Record CopyFaults := mkCopyFaults {
  copy_open_fails : bool;
  (** a read error after that many bytes *)
  copy_read_stops : option nat;
  (** a short write after that many bytes *)
  copy_write_stops : option nat;
  copy_flush_fails : bool;
  copy_rename_fails : bool;
}.
Definition no_copy_faults : CopyFaults := mkCopyFaults false None None false false.

Definition copyFileAtomic (faults : CopyFaults) (suffix : list byte) (source destination : string)
    : IO unit := λ fs,
  let temporary := tempSiblingPath suffix destination in
  match fs !! source with
  | None => (fs, fail_detail ErrorCode.ArtifactUnavailable "cannot open the source file" source)
  | Some content =>
      if copy_open_fails faults
      then (fs, fail_detail ErrorCode.OpenFailed "cannot create the destination file" temporary)
      else
        let result : Status :=
          match copy_read_stops faults, copy_write_stops faults with
          | Some _, _ => fail_detail ErrorCode.IoFailure "read error while copying" source
          | None, Some _ => fail_detail ErrorCode.IoFailure "write error while copying" temporary
          | None, None => Ok tt
          end in
        let flushed : Status :=
          if copy_flush_fails faults
          then fail ErrorCode.IoFailure "failed to sync stream to disk" else Ok tt in
        match result, flushed with
        | Ok _, Ok _ =>
            if copy_rename_fails faults
            then (delete temporary fs,
                  fail_detail ErrorCode.IoFailure "cannot move the copied file into place"
                    destination)
            else (file_rename temporary destination (<[temporary := content]> fs), Ok tt)
        | Ok _, failed => (delete temporary fs, failed)
        | failed, _ => (delete temporary fs, failed)
        end
  end.

(** ** Hashing a staged file *)

(** [reads_fail]: the stream reports an error at its end. *)
Definition hashStagingFile (reads_fail : bool) (path : string) (expectedBytes : Z) : IO Digest := λ fs,
  (fs,
   match fs !! path with
   | None => fail_detail ErrorCode.ArtifactUnavailable "artifact file is not readable" path
   | Some content =>
       if reads_fail
       then fail_detail ErrorCode.IoFailure "read error while hashing artifact" path
       else
         match checkedAdd 64 0 (zlen content) with
         | None => fail ErrorCode.ArithmeticOverflow "artifact size overflowed"
         | Some total =>
             if negb (expectedBytes =? 0) && negb (total =? expectedBytes)
             then fail_detail ErrorCode.SizeMismatch "artifact size does not match the declaration"
                    (to_string total +:+ " != " +:+ to_string expectedBytes)
             else Ok (Digest_ofContent content)
         end
   end).

(** ** Writing a chunk *)

Inductive ChunkFailure := CannotOpen | CannotPersist.

Record ChunkFaults := mkChunkFaults {
  chunk_open_fails : bool;
  chunk_seek_fails : bool;
  (** [Some n]: only [n] bytes were written. *)
  chunk_short_write : option nat;
  chunk_flush_fails : bool;
}.
Definition no_chunk_faults : ChunkFaults := mkChunkFaults false false None false.

(** [fwrite] at [offset]: a gap is filled with zeros. *)
Definition write_at (offset : nat) (data content : list byte) : list byte :=
  take offset content ++ repeat Byte.x00 (offset - length content) ++ data
    ++ drop (offset + length data) content.

(** The mode is "wb" for the first chunk and "r+b" for the others. *)
Definition writeChunk (faults : ChunkFaults) (path : string) (first : bool) (offset : nat)
    (written : list byte) (fs : FileSystem) : FileSystem * option ChunkFailure :=
  match (if chunk_open_fails faults then None else if first then Some [] else fs !! path) with
  | None => (fs, Some CannotOpen)
  | Some content =>
      if chunk_seek_fails faults then (<[path := content]> fs, Some CannotPersist)
      else
        let done :=
          match chunk_short_write faults with Some n => take n written | None => written end in
        let content := if decide (done = []) then content else write_at offset done content in
        (<[path := content]> fs,
         if negb (length done =? length written)%nat || chunk_flush_fails faults
         then Some CannotPersist else None)
  end.

(** ** Retention of payloads *)

(** [listing] is what the directory iterator reports, with the modification
    time of each entry; only the direct entries of the directory count. *)
Definition direct_child (directory path : string) : bool :=
  is_prefix (directory +:+ "/") path
  && string_forallb (λ c, negb (Ascii.eqb c "/"))
       (str_drop (String.length (directory +:+ "/")) path).

Definition newer (a b : string * Z) : Prop := b.2 <= a.2.
#[global] Instance newer_dec : RelDecision newer.
Proof. intros a b. unfold newer. apply _. Defined.

Definition prunePayloads (retained : nat) (payloadDirectory : string) (listing : list (string * Z))
    (fs : FileSystem) : FileSystem :=
  let entries :=
    filter (λ e, direct_child payloadDirectory e.1 = true ∧ is_Some (fs !! e.1)) listing in
  if (length entries <=? retained)%nat then fs
  else foldr (λ e fs, delete e.1 fs) fs (drop retained (merge_sort newer entries)).
