(* ===== verification/AgentPaths.v ===== *)
(** * The names of the agent's files

    The files of an agent have names that tell them apart: the journal, the
    staged artifacts, the live pointers, the prepare markers, the payloads and
    the temporary files of atomic replacements are never confused, and each
    name determines the deployment or the key it belongs to. Names are
    compared as text; the model does not resolve [.] and [..]. *)

From Stdlib Require Import Strings.Ascii Strings.Byte.
From S2P Require Import Prelude Result Hash Ids Text Files FaultPlan AgentFiles.

(** ** Ends of text *)

Lemma length_append (a b : string) : String.length (a +:+ b) = (String.length a + String.length b)%nat.
Proof.
  induction a as [|c a IH]; [done|]. change (S (String.length (a +:+ b)) = S (String.length a + String.length b)).
  by rewrite IH.
Qed.

Lemma append_inj_head (a x y : string) : a +:+ x = a +:+ y → x = y.
Proof.
  induction a as [|c a IH]; [done|]. change (String c (a +:+ x) = String c (a +:+ y) → x = y).
  intros [= E]. auto.
Qed.

Lemma append_inj_tail (a b x y : string) :
  String.length x = String.length y → a +:+ x = b +:+ y → a = b ∧ x = y.
Proof.
  intros Hl. revert b. induction a as [|c a IH]; intros [|d b] E.
  - by split.
  - exfalso. apply (f_equal String.length) in E. rewrite !length_append in E. simpl in E. lia.
  - exfalso. apply (f_equal String.length) in E. rewrite !length_append in E. simpl in E. lia.
  - change (String c (a +:+ x) = String d (b +:+ y)) in E. injection E as -> E.
    by destruct (IH b E) as [-> ->].
Qed.

(** The last four characters, and the last one. *)
Definition ending (p : string) : string := str_drop (String.length p - 4) p.
Fixpoint last_char (p : string) : option Ascii.ascii :=
  match p with
  | EmptyString => None
  | String c EmptyString => Some c
  | String _ p => last_char p
  end.

Lemma str_drop_append n (a b : string) :
  str_drop (String.length a + n) (a +:+ b) = str_drop n b.
Proof. induction a as [|c a IH]; [done|]. exact IH. Qed.

Lemma ending_append (a b : string) : (4 <= String.length b)%nat → ending (a +:+ b) = ending b.
Proof.
  intros Hb. unfold ending. rewrite length_append.
  replace (String.length a + String.length b - 4)%nat
    with (String.length a + (String.length b - 4))%nat by lia.
  apply str_drop_append.
Qed.

Lemma last_char_append (a b : string) : b ≠ "" → last_char (a +:+ b) = last_char b.
Proof.
  intros Hb. induction a as [|c a IH]; [done|].
  change (last_char (String c (a +:+ b)) = last_char b). rewrite <- IH. simpl.
  destruct (a +:+ b) eqn:E; [|done].
  apply (f_equal String.length) in E. rewrite length_append in E. destruct b; simpl in *; [done|lia].
Qed.

(** What a name ends in. *)
Lemma ending_current d : ending (currentPath d) = "rent".
Proof. unfold currentPath. by rewrite ending_append by (simpl; lia). Qed.
Lemma ending_pending d : ending (pendingPath d) = "ding".
Proof. unfold pendingPath. by rewrite ending_append by (simpl; lia). Qed.
Lemma ending_staging root d : ending (stagingPath root d) = "part".
Proof.
  unfold stagingPath. rewrite <- !append_assoc. by rewrite ending_append by (simpl; lia).
Qed.
Lemma ending_payload d g x : ending (payloadPath d g x) = ".cfg".
Proof.
  unfold payloadPath, payloadName. rewrite <- !append_assoc. by rewrite ending_append by (simpl; lia).
Qed.

Definition hex_or_dash (c : Ascii.ascii) : bool :=
  let n := char_code c in
  (48 <=? n) && (n <=? 57) || (97 <=? n) && (n <=? 102) || (n =? 45).

Lemma hex_byte_class b :
  hex_or_dash (hex_digit (Z.land (byte_val b) 0x0F)) = true.
Proof. by destruct b. Qed.

(** A name the agent chooses never ends like a temporary name. *)
Definition proper (p : string) : Prop :=
  ∃ c, last_char p = Some c ∧ hex_or_dash c = false.

Lemma temporary_improper suffix p : ¬ proper (tempSiblingPath suffix p).
Proof.
  intros (c & Hc & Hx). unfold tempSiblingPath in Hc. rewrite <- append_assoc in Hc.
  destruct suffix as [|b suffix].
  - rewrite append_empty, last_char_append in Hc by done. injection Hc as <-. done.
  - rewrite last_char_append in Hc by done. revert b Hc.
    induction suffix as [|b' suffix IH]; intros b Hc.
    + injection Hc as <-. by rewrite hex_byte_class in Hx.
    + by apply (IH b').
Qed.

Lemma proper_current d : proper (currentPath d).
Proof. exists "t"%char. unfold currentPath. by rewrite last_char_append. Qed.
Lemma proper_pending d : proper (pendingPath d).
Proof. exists "g"%char. unfold pendingPath. by rewrite last_char_append. Qed.
Lemma proper_staging root d : proper (stagingPath root d).
Proof. exists "t"%char. unfold stagingPath. rewrite <- !append_assoc. by rewrite last_char_append. Qed.
Lemma proper_payload d g x : proper (payloadPath d g x).
Proof.
  exists "g"%char. unfold payloadPath, payloadName. rewrite <- !append_assoc.
  by rewrite last_char_append.
Qed.

Lemma proper_ne suffix p q : proper q → q ≠ tempSiblingPath suffix p.
Proof. intros Hq ->. by apply (temporary_improper suffix p). Qed.

Lemma ending_ne p q : ending p ≠ ending q → p ≠ q.
Proof. congruence. Qed.

(** ** Names determine what they belong to *)

Lemma currentPath_inj d d' : currentPath d = currentPath d' → d = d'.
Proof. intros E. by apply append_inj_tail in E as [-> _]. Qed.

Lemma key_directory_inj root k k' : liveKeyDirectory root k = liveKeyDirectory root k' → k = k'.
Proof.
  unfold liveKeyDirectory. intros E%append_inj_head%append_inj_head. destruct k as [s], k' as [s'].
  simpl in E. by rewrite E.
Qed.

Lemma stagingPath_inj root d d' : stagingPath root d = stagingPath root d' → d = d'.
Proof.
  unfold stagingPath. intros E%append_inj_head%append_inj_head. destruct d as [s], d' as [s'].
  simpl in E. by apply append_inj_tail in E as [-> _].
Qed.

Lemma length_short d : digest_wf d → String.length (shortDigest d) = 12%nat.
Proof.
  intros Hd. unfold shortDigest, digest_hex. pose proof (length_toHex (digest_bytes d)) as Hl.
  rewrite Hd in Hl. revert Hl. unfold str_take. generalize (toHex (digest_bytes d)). intros s Hs.
  change (kSha256Bytes * 2)%nat with 64%nat in Hs.
  do 12 (destruct s as [|? s]; [discriminate Hs|injection Hs as Hs]). clear Hs. simpl.
  by destruct s.
Qed.

(** A payload name carries the short form of the digest. *)
Lemma payloadPath_short d g x d' g' x' :
  digest_wf x → digest_wf x' → payloadPath d g x = payloadPath d' g' x' →
  shortDigest x = shortDigest x'.
Proof.
  intros Hx Hx'. unfold payloadPath, payloadName. fold (shortDigest x) (shortDigest x').
  rewrite <- !append_assoc. intros [E _]%append_inj_tail; [|done].
  apply append_inj_tail in E as [_ E]; [done|]. by rewrite !length_short.
Qed.

(** The prefix test. *)
Lemma is_prefix_append p x : is_prefix p (p +:+ x) = true.
Proof.
  induction p as [|c p IH]; [done|]. change (is_prefix (String c p) (String c (p +:+ x)) = true).
  simpl. by rewrite Ascii.eqb_refl.
Qed.
Lemma is_prefix_spec p text : is_prefix p text = true → ∃ x, text = p +:+ x.
Proof.
  revert text. induction p as [|c p IH]; intros text; [by exists text|].
  destruct text as [|d text]; [done|]. simpl. intros [->%Ascii.eqb_eq H]%andb_true_iff.
  destruct (IH _ H) as [x ->]. by exists x.
Qed.
