(* ===== verification/Frame.v ===== *)
(** * Wire framing

    Models include/cf/frame.hpp and src/frame.cpp: the frame header with its
    two checksums, the encoder, and the incremental decoder that turns an
    arbitrarily chunked byte stream back into frames; and the receive loop of
    [FramedConnection] (src/transport.cpp) over it. *)

From stdpp Require Import list.
From Stdlib Require Import Strings.Byte.
From S2P Require Import Prelude Result Checked Hash Journal.

(** ** Message types *)

Module FrameType.
Inductive t :=
  | Invalid
  | Hello
  | HelloAck
  | HelloConfirm
  | AuthReject
  | Prepare
  | PrepareAck
  | PrepareReject
  | Chunk
  | ChunkAck
  | TransferComplete
  | TransferResult
  | Stage
  | StageAck
  | ApplyPrepare
  | ApplyPrepareAck
  | ApplyCommit
  | ApplyCommitAck
  | ApplyAbort
  | ApplyAbortAck
  | DeliveryAck
  | DeliveryNack
  | ReconcileRequest
  | ReconcileReport
  | Retire
  | RetireAck
  | Ping
  | Pong
  | Goodbye
  | Error
  | ControlHello
  | ControlHelloAck
  | ControlRequest
  | ControlResponse.
End FrameType.
Abbreviation FrameType := FrameType.t.
#[global] Instance FrameType_eq_dec : EqDecision FrameType.
Proof. solve_decision. Defined.

Definition FrameType_raw (t : FrameType) : Z :=
  match t with
  | FrameType.Invalid => 0
  | FrameType.Hello => 10
  | FrameType.HelloAck => 11
  | FrameType.HelloConfirm => 12
  | FrameType.AuthReject => 13
  | FrameType.Prepare => 30
  | FrameType.PrepareAck => 31
  | FrameType.PrepareReject => 32
  | FrameType.Chunk => 33
  | FrameType.ChunkAck => 34
  | FrameType.TransferComplete => 35
  | FrameType.TransferResult => 36
  | FrameType.Stage => 37
  | FrameType.StageAck => 38
  | FrameType.ApplyPrepare => 39
  | FrameType.ApplyPrepareAck => 40
  | FrameType.ApplyCommit => 41
  | FrameType.ApplyCommitAck => 42
  | FrameType.ApplyAbort => 43
  | FrameType.ApplyAbortAck => 44
  | FrameType.DeliveryAck => 80
  | FrameType.DeliveryNack => 81
  | FrameType.ReconcileRequest => 100
  | FrameType.ReconcileReport => 101
  | FrameType.Retire => 120
  | FrameType.RetireAck => 121
  | FrameType.Ping => 122
  | FrameType.Pong => 123
  | FrameType.Goodbye => 140
  | FrameType.Error => 141
  | FrameType.ControlHello => 150
  | FrameType.ControlHelloAck => 151
  | FrameType.ControlRequest => 152
  | FrameType.ControlResponse => 153
  end.
Definition FrameType_all : list FrameType :=
  [FrameType.Invalid; FrameType.Hello; FrameType.HelloAck; FrameType.HelloConfirm;
   FrameType.AuthReject; FrameType.Prepare; FrameType.PrepareAck; FrameType.PrepareReject;
   FrameType.Chunk; FrameType.ChunkAck; FrameType.TransferComplete;
   FrameType.TransferResult; FrameType.Stage; FrameType.StageAck; FrameType.ApplyPrepare;
   FrameType.ApplyPrepareAck; FrameType.ApplyCommit; FrameType.ApplyCommitAck;
   FrameType.ApplyAbort; FrameType.ApplyAbortAck; FrameType.DeliveryAck;
   FrameType.DeliveryNack; FrameType.ReconcileRequest; FrameType.ReconcileReport;
   FrameType.Retire; FrameType.RetireAck; FrameType.Ping; FrameType.Pong;
   FrameType.Goodbye; FrameType.Error; FrameType.ControlHello; FrameType.ControlHelloAck;
   FrameType.ControlRequest; FrameType.ControlResponse].
#[global] Program Instance FrameType_enum : WireEnum FrameType :=
  {| raw := FrameType_raw; all_values := FrameType_all |}.
Next Obligation. solve_enum_complete. Qed.
Next Obligation. solve_enum_inj. Qed.

Definition frameTypeName (t : FrameType) : string :=
  match t with
  | FrameType.Invalid => "invalid"
  | FrameType.Hello => "hello"
  | FrameType.HelloAck => "hello-ack"
  | FrameType.HelloConfirm => "hello-confirm"
  | FrameType.AuthReject => "auth-reject"
  | FrameType.Prepare => "prepare"
  | FrameType.PrepareAck => "prepare-ack"
  | FrameType.PrepareReject => "prepare-reject"
  | FrameType.Chunk => "chunk"
  | FrameType.ChunkAck => "chunk-ack"
  | FrameType.TransferComplete => "transfer-complete"
  | FrameType.TransferResult => "transfer-result"
  | FrameType.Stage => "stage"
  | FrameType.StageAck => "stage-ack"
  | FrameType.ApplyPrepare => "apply-prepare"
  | FrameType.ApplyPrepareAck => "apply-prepare-ack"
  | FrameType.ApplyCommit => "apply-commit"
  | FrameType.ApplyCommitAck => "apply-commit-ack"
  | FrameType.ApplyAbort => "apply-abort"
  | FrameType.ApplyAbortAck => "apply-abort-ack"
  | FrameType.DeliveryAck => "delivery-ack"
  | FrameType.DeliveryNack => "delivery-nack"
  | FrameType.ReconcileRequest => "reconcile-request"
  | FrameType.ReconcileReport => "reconcile-report"
  | FrameType.Retire => "retire"
  | FrameType.RetireAck => "retire-ack"
  | FrameType.Ping => "ping"
  | FrameType.Pong => "pong"
  | FrameType.Goodbye => "goodbye"
  | FrameType.Error => "error"
  | FrameType.ControlHello => "control-hello"
  | FrameType.ControlHelloAck => "control-hello-ack"
  | FrameType.ControlRequest => "control-request"
  | FrameType.ControlResponse => "control-response"
  end.

(** The first value from 1 to 153 with the name; 0 ("invalid") is never
    returned. *)
Definition parseFrameType (text : string) : option FrameType :=
  parse_name frameTypeName (filter (λ t, t ≠ FrameType.Invalid) FrameType_all) text.

(** A [static_cast] of the raw field can hold any value; it is known when
    [frameTypeName] has a name for it, which includes 0. *)
Definition isKnownFrameType (rawType : Z) : bool :=
  match of_raw (A := FrameType) rawType with Some _ => true | None => false end.

(** ** The header *)

Definition kFrameMagic : Z := 0x4D524643.
Definition kWireVersion : Z := 1.
Definition kFrameHeaderBytes : nat := 24.
Definition kAbsoluteMaxPayloadBytes : Z := 16 * 1024 * 1024.
Definition kDefaultMaxPayloadBytes : Z := 1 * 1024 * 1024.
Definition kFrameFlagResponse : Z := 1.
Definition kFrameFlagError : Z := 2.
Definition kFrameFlagKnownMask : Z := 3.

Record FrameHeader := mkHeader {
  wireVersion : Z;
  ftype : FrameType;
  flags : Z;
  reserved : Z;
  payloadLength : Z;
  payloadCrc : Z;
}.

Definition unknown_flags (flags : Z) : bool :=
  negb (Z.land flags (Z.lnot kFrameFlagKnownMask) =? 0).

Definition encodeFrameHeader (h : FrameHeader) : list byte :=
  let prefix :=
    storeLe32 kFrameMagic ++ storeLe16 (wireVersion h) ++ storeLe16 (raw (ftype h))
      ++ storeLe16 (flags h) ++ storeLe16 (reserved h) ++ storeLe32 (payloadLength h) in
  prefix ++ storeLe32 (crc32c prefix) ++ storeLe32 (payloadCrc h).

Definition decodeFrameHeader (bytes : list byte) (maxPayloadBytes : Z) : Result FrameHeader :=
  if (length bytes <? kFrameHeaderBytes)%nat
  then fail_detail ErrorCode.TruncatedFrame "stream ended inside a frame header"
         (to_string (zlen bytes))
  else if maxPayloadBytes >? kAbsoluteMaxPayloadBytes
  then fail ErrorCode.Internal "configured payload ceiling exceeds the protocol ceiling"
  else if negb (loadLe 4 0 bytes =? kFrameMagic)
  then fail ErrorCode.ProtocolViolation
         ("frame magic does not match; the stream is not framed by this "
          +:+ "protocol or it has desynchronized")
  else if negb (crc32c (take 16 bytes) =? loadLe 4 16 bytes)
  then fail ErrorCode.IntegrityFailure "frame header checksum does not match"
  else
    let version := loadLe 2 4 bytes in
    if negb (version =? kWireVersion)
    then fail_detail ErrorCode.UnsupportedVersion "frame wire version is not supported"
           (to_string version)
    else
      match of_raw (loadLe 2 6 bytes) with
      | None =>
          fail_detail ErrorCode.UnexpectedMessage "frame carries an undefined message type"
            (to_string (loadLe 2 6 bytes))
      | Some type =>
          let flags := loadLe 2 8 bytes in
          if unknown_flags flags
          then fail_detail ErrorCode.ProtocolViolation "frame carries unknown flag bits"
                 (to_string flags)
          else if negb (loadLe 2 10 bytes =? 0)
          then fail ErrorCode.ProtocolViolation "frame reserved field must be zero"
          else
            let payloadLength := loadLe 4 12 bytes in
            if payloadLength >? maxPayloadBytes
            then fail_detail ErrorCode.OversizePayload
                   "frame declares a payload larger than the negotiated maximum"
                   (to_string payloadLength +:+ " > " +:+ to_string maxPayloadBytes)
            else
              let payloadCrc := loadLe 4 20 bytes in
              if (payloadLength =? 0) && negb (payloadCrc =? 0)
              then fail ErrorCode.ProtocolViolation
                     "empty frame declares a non-zero payload checksum"
              else Ok (mkHeader version type flags 0 payloadLength payloadCrc)
      end.

(** ** Frames *)

Record Frame := mkFrame { header : FrameHeader; fpayload : list byte }.

Definition isResponse (f : Frame) : bool :=
  negb (Z.land (flags (header f)) kFrameFlagResponse =? 0).

Definition frame_header (type : FrameType) (flags : Z) (payload : list byte) : FrameHeader :=
  mkHeader kWireVersion type flags 0 (zlen payload mod 2 ^ 32)
    (if bool_decide (payload = []) then 0 else crc32c payload).

Definition encodeFrame (type : FrameType) (flags : Z) (payload : list byte)
    (maxPayloadBytes : Z) : Result (list byte) :=
  if negb (isKnownFrameType (raw type))
  then fail ErrorCode.InvalidArgument "cannot encode an undefined message type"
  else if maxPayloadBytes >? kAbsoluteMaxPayloadBytes
  then fail ErrorCode.InvalidArgument "payload ceiling exceeds the protocol ceiling"
  else if zlen payload >? maxPayloadBytes
  then fail_detail ErrorCode.OversizePayload "payload exceeds the negotiated maximum"
         (to_string (zlen payload) +:+ " > " +:+ to_string maxPayloadBytes)
  else if unknown_flags flags
  then fail ErrorCode.InvalidArgument "cannot encode unknown flag bits"
  else Ok (encodeFrameHeader (frame_header type flags payload) ++ payload).

(** ** The incremental decoder *)

Record FrameDecoder := mkDecoder {
  fd_maxPayloadBytes : Z;
  fd_buffer : list byte;
  fd_offset : nat;
}.
Definition newDecoder (maxPayloadBytes : Z) : FrameDecoder := mkDecoder maxPayloadBytes [] 0.
Definition fd_reset (d : FrameDecoder) : FrameDecoder := newDecoder (fd_maxPayloadBytes d).
Definition buffered (d : FrameDecoder) : nat := length (fd_buffer d) - fd_offset d.

(** The bytes received and not yet consumed. *)
Definition fd_pending (d : FrameDecoder) : list byte := drop (fd_offset d) (fd_buffer d).

(** The loop of [feed]: the frames completed, the offset reached and the
    status. Every iteration consumes a header, so the length of the buffer is
    enough fuel. *)
Fixpoint feed_loop (fuel : nat) (maxPayloadBytes : Z) (buffer : list byte) (offset : nat)
    : list Frame * nat * Status :=
  match fuel with
  | O => ([], offset, Ok tt)
  | S fuel =>
      let available := (length buffer - offset)%nat in
      if (available <? kFrameHeaderBytes)%nat then ([], offset, Ok tt)
      else
        match decodeFrameHeader (take kFrameHeaderBytes (drop offset buffer)) maxPayloadBytes with
        | Fail e => ([], offset, Fail e)
        | Abort w => ([], offset, Abort w)
        | Ok h =>
            let total := (kFrameHeaderBytes + Z.to_nat (payloadLength h))%nat in
            if (available <? total)%nat then ([], offset, Ok tt)
            else
              let payload :=
                take (Z.to_nat (payloadLength h)) (drop (offset + kFrameHeaderBytes) buffer) in
              if negb (bool_decide (payload = [])) && negb (crc32c payload =? payloadCrc h)
              then ([], offset,
                    fail_detail ErrorCode.IntegrityFailure "frame payload checksum does not match"
                      (frameTypeName (ftype h)))
              else
                let '(frames, offset, st) :=
                  feed_loop fuel maxPayloadBytes buffer (offset + total) in
                (mkFrame h payload :: frames, offset, st)
        end
  end.

(** The compaction at the start of [feed]. *)
Definition compact_buffer (d : FrameDecoder) : FrameDecoder :=
  if (0 <? fd_offset d)%nat && (fd_offset d =? length (fd_buffer d))%nat
  then mkDecoder (fd_maxPayloadBytes d) [] 0
  else if (0 <? fd_offset d)%nat && (length (fd_buffer d) / 2 <? fd_offset d)%nat
  then mkDecoder (fd_maxPayloadBytes d) (drop (fd_offset d) (fd_buffer d)) 0
  else d.

(** [feed]: the decoder after, the frames appended to [out], the status. *)
Definition feed (data : list byte) (d : FrameDecoder) : FrameDecoder * list Frame * Status :=
  if decide (data = []) then (d, [], Ok tt)
  else
    let d := compact_buffer d in
    match checkedAdd 64 (Z.of_nat kFrameHeaderBytes) (fd_maxPayloadBytes d) with
    | None => (d, [], fail ErrorCode.Internal "frame size ceiling overflowed")
    | Some ceiling =>
        match checkedAdd 64 (zlen (fd_buffer d)) (zlen data) with
        | None => (d, [], fail ErrorCode.ArithmeticOverflow "receive buffer size overflowed")
        | Some _ =>
            let buffer := fd_buffer d ++ data in
            let '(frames, offset, st) :=
              feed_loop (S (length buffer)) (fd_maxPayloadBytes d) buffer (fd_offset d) in
            let d := mkDecoder (fd_maxPayloadBytes d) buffer offset in
            (d, frames,
             let* _ := st in
             if Z.of_nat (buffered d) >? ceiling
             then fail_detail ErrorCode.OversizePayload
                    "decoder buffered more than one maximum frame"
                    (to_string (Z.of_nat (buffered d)))
             else Ok tt)
        end
    end.

Definition finish (what : string) (d : FrameDecoder) : Status :=
  if negb (buffered d =? 0)%nat
  then fail_detail ErrorCode.TruncatedFrame "stream ended with a partially received frame"
         (what +:+ ": " +:+ to_string (Z.of_nat (buffered d)) +:+ " byte(s)")
  else Ok tt.

(** ** Receiving *)

(** The decoder and the frames decoded but not handed out
    ([ready_] from [readyOffset_]). *)
Record Connection := mkConnection { c_decoder : FrameDecoder; c_ready : list Frame }.
Definition newConnection (maxPayloadBytes : Z) : Connection :=
  mkConnection (newDecoder maxPayloadBytes) [].

(** [FramedConnection::receive]: [reads] are the results of the socket reads it
    makes, in order (at most 64 KiB each); the reads left over are returned.
    [None]: the caller still waits for the next read. *)
Fixpoint receive (reads : list (Result (list byte))) (c : Connection)
    : Connection * list (Result (list byte)) * option (Result Frame) :=
  match c_ready c with
  | f :: ready => (mkConnection (c_decoder c) ready, reads, Some (Ok f))
  | [] =>
      match reads with
      | [] => (c, [], None)
      | Ok data :: reads =>
          let '(d, frames, st) := feed data (c_decoder c) in
          let c := mkConnection d frames in
          match st with
          | Ok _ => receive reads c
          | Fail e => (c, reads, Some (Fail e))
          | Abort w => (c, reads, Some (Abort w))
          end
      | Fail e :: reads =>
          (c, reads,
           Some (let* _ := (if bool_decide (code e = ErrorCode.ConnectionClosed)
                            then finish "connection closed" (c_decoder c) else Ok tt) in
                 Fail e))
      | Abort w :: reads => (c, reads, Some (Abort w))
      end
  end.

(** ** The decoder as a function of the byte stream *)

(** What the first bytes of a stream hold: not yet a frame, a frame and the
    bytes behind it, or an error. *)
Definition next_frame (maxPayloadBytes : Z) (rest : list byte) : option (Result (Frame * list byte)) :=
  if (length rest <? kFrameHeaderBytes)%nat then None
  else
    match decodeFrameHeader (take kFrameHeaderBytes rest) maxPayloadBytes with
    | Fail e => Some (Fail e)
    | Abort w => Some (Abort w)
    | Ok h =>
        let n := Z.to_nat (payloadLength h) in
        if (length rest <? kFrameHeaderBytes + n)%nat then None
        else
          let payload := take n (drop kFrameHeaderBytes rest) in
          if negb (bool_decide (payload = [])) && negb (crc32c payload =? payloadCrc h)
          then Some (fail_detail ErrorCode.IntegrityFailure "frame payload checksum does not match"
                       (frameTypeName (ftype h)))
          else Some (Ok (mkFrame h payload, drop (kFrameHeaderBytes + n) rest))
    end.

Fixpoint frames_of (fuel : nat) (maxPayloadBytes : Z) (rest : list byte)
    : list Frame * list byte * Status :=
  match fuel with
  | O => ([], rest, Ok tt)
  | S fuel =>
      match next_frame maxPayloadBytes rest with
      | None => ([], rest, Ok tt)
      | Some (Fail e) => ([], rest, Fail e)
      | Some (Abort w) => ([], rest, Abort w)
      | Some (Ok (f, rest)) =>
          let '(fs, rest, st) := frames_of fuel maxPayloadBytes rest in (f :: fs, rest, st)
      end
  end.
Definition decode_stream (maxPayloadBytes : Z) (bytes : list byte) : list Frame * list byte * Status :=
  frames_of (S (length bytes)) maxPayloadBytes bytes.

Lemma next_frame_shrinks maxPayloadBytes rest f rest' :
  next_frame maxPayloadBytes rest = Some (Ok (f, rest')) → (length rest' < length rest)%nat.
Proof.
  unfold next_frame. destruct (Nat.ltb_spec (length rest) kFrameHeaderBytes); [done|].
  destruct (decodeFrameHeader _ _); [|done..].
  destruct (Nat.ltb_spec (length rest) (kFrameHeaderBytes + Z.to_nat (payloadLength a))); [done|].
  destruct (_ && _); [done|]. intros [= <- <-]. rewrite length_drop. unfold kFrameHeaderBytes in *. lia.
Qed.

Lemma next_frame_app maxPayloadBytes a b r :
  next_frame maxPayloadBytes a = Some r →
  next_frame maxPayloadBytes (a ++ b)
  = Some (let* (f, rest) := r in Ok (f, rest ++ b)).
Proof.
  unfold next_frame. rewrite length_app.
  destruct (Nat.ltb_spec (length a) kFrameHeaderBytes); [done|].
  destruct (Nat.ltb_spec (length a + length b) kFrameHeaderBytes); [lia|].
  rewrite take_app_le by done.
  destruct (decodeFrameHeader _ _) as [h| |]; [|by intros [= <-]..].
  destruct (Nat.ltb_spec (length a) (kFrameHeaderBytes + Z.to_nat (payloadLength h))); [done|].
  destruct (Nat.ltb_spec (length a + length b) (kFrameHeaderBytes + Z.to_nat (payloadLength h))); [lia|].
  rewrite (drop_app_le _ b kFrameHeaderBytes) by done.
  rewrite take_app_le by (rewrite length_drop; lia).
  destruct (_ && _); intros [= <-]; [done|]. simpl. by rewrite drop_app_le by done.
Qed.

Lemma frames_of_fuel n m maxPayloadBytes rest :
  (length rest < n)%nat → (length rest < m)%nat →
  frames_of n maxPayloadBytes rest = frames_of m maxPayloadBytes rest.
Proof.
  revert m rest. induction n as [|n IH]; intros [|m] rest Hn Hm; [lia..|]. simpl.
  destruct (next_frame maxPayloadBytes rest) as [[[f rest']| |]|] eqn:E; [|done..].
  apply next_frame_shrinks in E. by rewrite (IH m) by lia.
Qed.

(** More bytes only add frames behind those already decoded; an error stays
    where it is. *)
Lemma decode_stream_app maxPayloadBytes a b :
  decode_stream maxPayloadBytes (a ++ b) =
  match decode_stream maxPayloadBytes a with
  | (fs, rest, Ok _) =>
      let '(fs', rest', st) := decode_stream maxPayloadBytes (rest ++ b) in (fs ++ fs', rest', st)
  | (fs, rest, Fail e) => (fs, rest ++ b, Fail e)
  | (fs, rest, Abort w) => (fs, rest ++ b, Abort w)
  end.
Proof.
  remember (length a) as k eqn:Hk. revert a Hk. induction (lt_wf k) as [k _ IH]. intros a ->.
  unfold decode_stream at 2. simpl.
  destruct (next_frame maxPayloadBytes a) as [r|] eqn:E.
  - pose proof (next_frame_app _ _ b _ E) as E2.
    unfold decode_stream at 1. cbn [frames_of]. rewrite E2.
    destruct r as [[f rest]|e|w]; simpl; [|done..].
    apply next_frame_shrinks in E.
    rewrite (frames_of_fuel (length (a ++ b)) (S (length (rest ++ b))))
      by (rewrite !length_app; lia).
    rewrite (frames_of_fuel (length a) (S (length rest))) by lia.
    fold (decode_stream maxPayloadBytes (rest ++ b)). fold (decode_stream maxPayloadBytes rest).
    rewrite (IH (length rest)) by (done || lia).
    destruct (decode_stream maxPayloadBytes rest) as [[fs rest'] [[]| |]]; [|done..].
    by destruct (decode_stream maxPayloadBytes (rest' ++ b)) as [[fs' rest''] st].
  - by destruct (decode_stream maxPayloadBytes (a ++ b)) as [[fs' rest'] st].
Qed.

(** What is left after decoding starts no frame. *)
Lemma decode_stream_rest maxPayloadBytes bytes fs rest :
  decode_stream maxPayloadBytes bytes = (fs, rest, Ok tt) → next_frame maxPayloadBytes rest = None.
Proof.
  unfold decode_stream. generalize (Nat.lt_succ_diag_r (length bytes)).
  generalize (S (length bytes)). intros n. revert bytes fs.
  induction n as [|n IH]; intros bytes fs Hn; [lia|]. simpl.
  destruct (next_frame maxPayloadBytes bytes) as [[[f rest']| |]|] eqn:E; [|done..|].
  - apply next_frame_shrinks in E. destruct (frames_of n maxPayloadBytes rest') as [[fs' r'] st] eqn:E2.
    intros [= <- <- ->]. apply (IH rest' fs'); [lia|done].
  - by intros [= <- <-].
Qed.

Lemma decode_stream_stuck maxPayloadBytes bytes :
  next_frame maxPayloadBytes bytes = None → decode_stream maxPayloadBytes bytes = ([], bytes, Ok tt).
Proof. unfold decode_stream. simpl. by intros ->. Qed.

(** A stream that starts no frame is shorter than one maximal frame. *)
Lemma stuck_bounded maxPayloadBytes rest :
  0 <= maxPayloadBytes → next_frame maxPayloadBytes rest = None →
  zlen rest <= Z.of_nat kFrameHeaderBytes + maxPayloadBytes.
Proof.
  intros Hmax. unfold next_frame, zlen.
  destruct (Nat.ltb_spec (length rest) kFrameHeaderBytes); [lia|].
  destruct (decodeFrameHeader _ _) as [h| |] eqn:E; [|done..].
  destruct (Nat.ltb_spec (length rest) (kFrameHeaderBytes + Z.to_nat (payloadLength h))); [|by destruct (_ && _)].
  intros _. assert (payloadLength h <= maxPayloadBytes) as Hp; [|lia].
  revert E. unfold decodeFrameHeader. repeat (destruct (_ <? _)%nat; [done|]).
  destruct (_ >? kAbsoluteMaxPayloadBytes); [done|]. repeat (destruct (negb _); [done|]).
  destruct (of_raw _); [|done]. destruct (unknown_flags _); [done|]. destruct (negb _); [done|].
  destruct (Z.gtb_spec (loadLe 4 12 (take kFrameHeaderBytes rest)) maxPayloadBytes); [done|].
  destruct (_ && _); [done|]. intros [= <-]. simpl. lia.
Qed.

(** ** [feed] decodes the stream *)

Record decoder_ok (d : FrameDecoder) : Prop := {
  do_offset : (fd_offset d <= length (fd_buffer d))%nat;
  do_max : 0 <= fd_maxPayloadBytes d <= kAbsoluteMaxPayloadBytes;
  do_stuck : next_frame (fd_maxPayloadBytes d) (fd_pending d) = None;
}.

Lemma newDecoder_ok maxPayloadBytes :
  0 <= maxPayloadBytes <= kAbsoluteMaxPayloadBytes → decoder_ok (newDecoder maxPayloadBytes).
Proof. by split. Qed.

Lemma feed_loop_spec fuel maxPayloadBytes buffer offset :
  (offset <= length buffer)%nat →
  feed_loop fuel maxPayloadBytes buffer offset =
  (let '(fs, rest, st) := frames_of fuel maxPayloadBytes (drop offset buffer) in
   (fs, length buffer - length rest, st))%nat
  ∧ (let '(fs, rest, st) := frames_of fuel maxPayloadBytes (drop offset buffer) in
     rest = drop (length buffer - length rest) buffer ∧ (length rest <= length buffer)%nat).
Proof.
  revert offset. induction fuel as [|fuel IH]; intros offset Ho.
  { simpl. rewrite length_drop. replace (length buffer - (length buffer - offset))%nat with offset by lia.
    split; [done|]. split; [done|lia]. }
  assert (length (drop offset buffer) = (length buffer - offset)%nat) as Hl by apply length_drop.
  assert (length buffer - length (drop offset buffer) = offset)%nat as Hback by lia.
  cbn [feed_loop frames_of]. cbv zeta. unfold next_frame. rewrite Hl.
  destruct (_ <? kFrameHeaderBytes)%nat; [rewrite Hback; split; [done|]; split; [done|lia]|].
  destruct (decodeFrameHeader _ _) as [h| |]; [|rewrite Hback; split; [done|]; split; [done|lia]..].
  destruct (Nat.ltb_spec (length buffer - offset) (kFrameHeaderBytes + Z.to_nat (payloadLength h)));
    [rewrite Hback; split; [done|]; split; [done|lia]|].
  rewrite drop_drop.
  destruct (_ && _); [simpl; rewrite Hback; split; [done|]; split; [done|lia]|]. rewrite drop_drop.
  destruct (IH (offset + (kFrameHeaderBytes + Z.to_nat (payloadLength h)))%nat ltac:(lia)) as [-> H2].
  by destruct (frames_of fuel maxPayloadBytes _) as [[fs rest] st].
Qed.

Lemma compact_buffer_spec d :
  (fd_offset d <= length (fd_buffer d))%nat →
  fd_maxPayloadBytes (compact_buffer d) = fd_maxPayloadBytes d
  ∧ fd_pending (compact_buffer d) = fd_pending d
  ∧ (fd_offset (compact_buffer d) <= length (fd_buffer (compact_buffer d)))%nat
  ∧ (length (fd_buffer (compact_buffer d)) <= length (fd_buffer d))%nat.
Proof.
  intros Ho. unfold compact_buffer, fd_pending.
  destruct (_ && (fd_offset d =? _)%nat) eqn:E.
  - apply andb_true_iff in E as [_ E%Nat.eqb_eq]. simpl.
    split; [done|]. split; [by rewrite E, drop_all|]. lia.
  - destruct (_ && (length (fd_buffer d) / 2 <? fd_offset d)%nat); simpl;
      (split; [done|]); (split; [done|]); rewrite ?length_drop; lia.
Qed.

Lemma feed_spec data d :
  decoder_ok d → zlen (fd_buffer d) + zlen data < 2 ^ 64 →
  let '(fs, rest, st) := decode_stream (fd_maxPayloadBytes d) (fd_pending d ++ data) in
  ∃ d', feed data d = (d', fs, st) ∧ fd_pending d' = rest
    ∧ fd_maxPayloadBytes d' = fd_maxPayloadBytes d
    ∧ zlen (fd_buffer d') <= zlen (fd_buffer d) + zlen data
    ∧ (st = Ok tt → decoder_ok d').
Proof.
  intros Hd Hsize. pose proof Hd as [Ho Hmax Hstuck]. unfold feed.
  destruct (decide (data = [])) as [->|Hne].
  { rewrite app_nil_r, decode_stream_stuck by done. exists d. rewrite zlen_nil. repeat split; try done; lia. }
  destruct (compact_buffer_spec d Ho) as (Hm & Hp & Ho' & Hl).
  revert Hm Hp Ho' Hl. generalize (compact_buffer d). intros d1 Hm Hp Ho1 Hl. rewrite Hm.
  unfold kAbsoluteMaxPayloadBytes in Hmax. unfold zlen in *.
  rewrite checkedAdd_spec by (unfold fits, kFrameHeaderBytes; lia).
  rewrite decide_True by (unfold kFrameHeaderBytes; lia).
  rewrite checkedAdd_spec by (unfold fits; lia). rewrite decide_True by lia.
  destruct (feed_loop_spec (S (length (fd_buffer d1 ++ data))) (fd_maxPayloadBytes d)
              (fd_buffer d1 ++ data) (fd_offset d1)) as [Hloop Hrest]; [rewrite length_app; lia|].
  rewrite Hloop. rewrite drop_app_le in * by lia. fold (fd_pending d1) in *. rewrite Hp in *.
  rewrite (frames_of_fuel _ (S (length (fd_pending d ++ data)))) in *
    by (rewrite ?length_app, <- ?Hp; unfold fd_pending; rewrite ?length_drop; lia).
  fold (decode_stream (fd_maxPayloadBytes d) (fd_pending d ++ data)) in *.
  destruct (decode_stream (fd_maxPayloadBytes d) (fd_pending d ++ data)) as [[fs rest] st] eqn:E.
  destruct Hrest as [Hrest Hrl].
  exists (mkDecoder (fd_maxPayloadBytes d) (fd_buffer d1 ++ data)
            (length (fd_buffer d1 ++ data) - length rest)).
  split; [|split; [exact (eq_sym Hrest)|]].
  - f_equal. destruct st as [[]| |]; [|done..]. simpl. unfold buffered. cbn [fd_buffer fd_offset].
    apply decode_stream_rest in E.
    pose proof (stuck_bounded _ _ (proj1 Hmax) E) as Hb. unfold zlen in Hb.
    destruct (Z.gtb_spec (Z.of_nat (length (fd_buffer d1 ++ data)
      - (length (fd_buffer d1 ++ data) - length rest)))
      (Z.of_nat kFrameHeaderBytes + fd_maxPayloadBytes d)); [lia|done].
  - split; [done|]. split; [simpl; rewrite length_app; lia|]. intros ->. split; simpl; [lia|done|].
    unfold fd_pending. cbn [fd_buffer fd_offset]. rewrite <- Hrest. by apply decode_stream_rest in E.
Qed.

(** Feeding chunks one after the other, up to the first failure. *)
Fixpoint feed_all (chunks : list (list byte)) (d : FrameDecoder) : FrameDecoder * list Frame * Status :=
  match chunks with
  | [] => (d, [], Ok tt)
  | c :: chunks =>
      let '(d, fs, st) := feed c d in
      match st with
      | Ok _ => let '(d, fs', st) := feed_all chunks d in (d, fs ++ fs', st)
      | _ => (d, fs, st)
      end
  end.

Lemma feed_all_spec chunks d :
  decoder_ok d → zlen (fd_buffer d) + zlen (concat chunks) < 2 ^ 64 →
  let '(fs, rest, st) := decode_stream (fd_maxPayloadBytes d) (fd_pending d ++ concat chunks) in
  ∃ d', feed_all chunks d = (d', fs, st) ∧ (st = Ok tt → fd_pending d' = rest ∧ decoder_ok d').
Proof.
  revert d. induction chunks as [|c chunks IH]; intros d Hd Hsize; cbn [feed_all concat].
  { rewrite app_nil_r, decode_stream_stuck by apply Hd. by exists d. }
  cbn [concat] in Hsize. rewrite zlen_app in Hsize. pose proof (zlen_nonneg (concat chunks)).
  rewrite app_assoc, decode_stream_app.
  pose proof (feed_spec c d Hd ltac:(lia)) as Hfeed.
  destruct (decode_stream _ (fd_pending d ++ c)) as [[fs rest] st].
  destruct Hfeed as (d1 & -> & Hp & Hm & Hl & Hok). destruct st as [[]| |]; [|by eexists..].
  specialize (IH d1 (Hok eq_refl) ltac:(lia)). rewrite Hm, Hp in IH.
  destruct (decode_stream _ (rest ++ concat chunks)) as [[fs' rest'] st'].
  destruct IH as (d2 & -> & H2). by exists d2.
Qed.

(** ** Encoded frames *)

(** The frames [encodeFrame] accepts. *)
Record sendable (maxPayloadBytes : Z) (flags : Z) (payload : list byte) : Prop := {
  sd_size : zlen payload <= maxPayloadBytes <= kAbsoluteMaxPayloadBytes;
  sd_flags : fits 16 flags ∧ unknown_flags flags = false;
}.

Definition sent (type : FrameType) (flags : Z) (payload : list byte) : Frame :=
  mkFrame (frame_header type flags payload) payload.
Definition frame_bytes (f : Frame) : list byte := encodeFrameHeader (header f) ++ fpayload f.

Lemma known_type (t : FrameType) : isKnownFrameType (raw t) = true.
Proof. unfold isKnownFrameType. by rewrite of_raw_raw. Qed.

Lemma encodeFrame_sent type flags payload maxPayloadBytes :
  sendable maxPayloadBytes flags payload →
  encodeFrame type flags payload maxPayloadBytes = Ok (frame_bytes (sent type flags payload)).
Proof.
  intros [[Hs Hm] [_ Hf]]. unfold encodeFrame. rewrite known_type, Hf. cbn [negb].
  destruct (Z.gtb_spec maxPayloadBytes kAbsoluteMaxPayloadBytes); [lia|].
  by destruct (Z.gtb_spec (zlen payload) maxPayloadBytes); [lia|].
Qed.

Section header_fields.
Context (h : FrameHeader).

Definition header_prefix : list byte :=
  storeLe32 kFrameMagic ++ storeLe16 (wireVersion h) ++ storeLe16 (raw (ftype h))
    ++ storeLe16 (flags h) ++ storeLe16 (reserved h) ++ storeLe32 (payloadLength h).

Lemma length_header_prefix : length header_prefix = 16%nat.
Proof. unfold header_prefix, storeLe16, storeLe32. by rewrite !length_app, !length_le_bytes. Qed.

Lemma encodeFrameHeader_split :
  encodeFrameHeader h = header_prefix ++ storeLe32 (crc32c header_prefix) ++ storeLe32 (payloadCrc h).
Proof. done. Qed.

Lemma length_encodeFrameHeader : length (encodeFrameHeader h) = kFrameHeaderBytes.
Proof.
  rewrite encodeFrameHeader_split, !length_app, length_header_prefix.
  unfold storeLe32. by rewrite !length_le_bytes.
Qed.

Lemma header_prefix_field n off v a b X :
  header_prefix = a ++ le_bytes n v ++ b → length a = off → fits (8 * Z.of_nat n) v →
  loadLe n off (header_prefix ++ X) = v.
Proof.
  intros Hp Ha Hv. rewrite Hp, <- !app_assoc.
  rewrite loadLe_app by (done || apply length_le_bytes). by apply le_load_bytes_fits.
Qed.

Record header_ok (maxPayloadBytes : Z) : Prop := {
  ho_version : wireVersion h = kWireVersion;
  ho_flags : fits 16 (flags h) ∧ unknown_flags (flags h) = false;
  ho_reserved : reserved h = 0;
  ho_length : 0 <= payloadLength h <= maxPayloadBytes;
  ho_max : maxPayloadBytes <= kAbsoluteMaxPayloadBytes;
  ho_crc : fits 32 (payloadCrc h) ∧ (payloadLength h = 0 → payloadCrc h = 0);
}.

Lemma raw_type_fits (t : FrameType) : fits 16 (raw t).
Proof. destruct t; split; simpl; lia. Qed.

Ltac solve_field :=
  first [ by rewrite ?app_nil_r, <- ?app_assoc
        | by rewrite !length_app, !length_le_bytes
        | apply raw_type_fits
        | assumption
        | unfold fits, kAbsoluteMaxPayloadBytes in *; lia
        | split; vm_compute; first [reflexivity|discriminate] ].

(** A well-formed header whose two checksums are the bytes [X] and [Y]. *)
Lemma decode_header_raw maxPayloadBytes X Y :
  header_ok maxPayloadBytes → length X = 4%nat → length Y = 4%nat →
  decodeFrameHeader (header_prefix ++ X ++ Y) maxPayloadBytes =
  if negb (crc32c header_prefix =? le_load X)
  then fail ErrorCode.IntegrityFailure "frame header checksum does not match"
  else if (payloadLength h =? 0) && negb (le_load Y =? 0)
  then fail ErrorCode.ProtocolViolation "empty frame declares a non-zero payload checksum"
  else Ok (mkHeader (wireVersion h) (ftype h) (flags h) (reserved h) (payloadLength h) (le_load Y)).
Proof.
  intros [Hv [Hff Hfu] Hr Hl Hm _] HX HY. unfold decodeFrameHeader.
  pose proof length_header_prefix as H16.
  assert (length (header_prefix ++ X ++ Y) = kFrameHeaderBytes) as ->
    by (rewrite !length_app, H16, HX, HY; done).
  rewrite Nat.ltb_irrefl.
  destruct (Z.gtb_spec maxPayloadBytes kAbsoluteMaxPayloadBytes); [lia|].
  assert (take 16 (header_prefix ++ X ++ Y) = header_prefix) as -> by (rewrite <- H16; apply take_app_length).
  rewrite (loadLe_app 4 16 header_prefix X Y) by done.
  assert (loadLe 4 20 (header_prefix ++ X ++ Y) = le_load Y) as ->.
  { rewrite <- (app_nil_r Y) at 1. rewrite app_assoc. by rewrite loadLe_app by (rewrite ?length_app; lia). }
  assert (∀ n off v a b, header_prefix = a ++ le_bytes n v ++ b → length a = off →
            fits (8 * Z.of_nat n) v → loadLe n off (header_prefix ++ X ++ Y) = v) as Hfield
    by (intros; by eapply header_prefix_field).
  unfold header_prefix at 1 in Hfield. unfold storeLe16, storeLe32 in Hfield.
  rewrite (Hfield 4%nat 0%nat kFrameMagic [] _ eq_refl eq_refl) by solve_field.
  rewrite (Hfield 2%nat 4%nat (wireVersion h) (le_bytes 4 kFrameMagic) _ eq_refl (length_le_bytes _ _))
    by (rewrite Hv; solve_field).
  rewrite (Hfield 2%nat 6%nat (raw (ftype h)) (le_bytes 4 kFrameMagic ++ le_bytes 2 (wireVersion h)) _)
    by solve_field.
  rewrite (Hfield 2%nat 8%nat (flags h)
             (le_bytes 4 kFrameMagic ++ le_bytes 2 (wireVersion h) ++ le_bytes 2 (raw (ftype h))) _)
    by solve_field.
  rewrite (Hfield 2%nat 10%nat (reserved h)
             (le_bytes 4 kFrameMagic ++ le_bytes 2 (wireVersion h) ++ le_bytes 2 (raw (ftype h))
                ++ le_bytes 2 (flags h)) _) by (rewrite ?Hr; solve_field).
  rewrite (Hfield 4%nat 12%nat (payloadLength h)
             (le_bytes 4 kFrameMagic ++ le_bytes 2 (wireVersion h) ++ le_bytes 2 (raw (ftype h))
                ++ le_bytes 2 (flags h) ++ le_bytes 2 (reserved h)) []) by solve_field.
  rewrite !Z.eqb_refl, of_raw_raw, Hfu, Hr, Hv, !Z.eqb_refl. cbn [negb].
  destruct (Z.gtb_spec (payloadLength h) maxPayloadBytes); [lia|]. done.
Qed.
End header_fields.

(** Sixteen header bytes that do not match their checksum. *)
Lemma decode_bad_crc P X Y maxPayloadBytes :
  length P = 16%nat → length X = 4%nat → length Y = 4%nat →
  maxPayloadBytes <= kAbsoluteMaxPayloadBytes → crc32c P ≠ le_load X →
  ∃ e, decodeFrameHeader (P ++ X ++ Y) maxPayloadBytes = Fail e.
Proof.
  intros HP HX HY Hm Hcrc. unfold decodeFrameHeader.
  assert (length (P ++ X ++ Y) = kFrameHeaderBytes) as ->
    by (rewrite !length_app, HP, HX, HY; done).
  rewrite Nat.ltb_irrefl. destruct (Z.gtb_spec maxPayloadBytes kAbsoluteMaxPayloadBytes); [lia|].
  destruct (negb (loadLe 4 0 _ =? kFrameMagic)); [by eexists|].
  rewrite (loadLe_app 4 16 P X Y) by done.
  assert (take 16 (P ++ X ++ Y) = P) as -> by (rewrite <- HP; apply take_app_length).
  rewrite (proj2 (Z.eqb_neq _ _)) by done. by eexists.
Qed.

Lemma sent_ok type flags payload maxPayloadBytes :
  sendable maxPayloadBytes flags payload →
  header_ok (frame_header type flags payload) maxPayloadBytes
  ∧ payloadLength (frame_header type flags payload) = zlen payload
  ∧ fits 32 (payloadCrc (frame_header type flags payload)).
Proof.
  intros [[Hs Hm] Hf]. pose proof (zlen_nonneg payload).
  assert (payloadLength (frame_header type flags payload) = zlen payload) as Hl.
  { unfold frame_header. cbn [payloadLength]. apply Z.mod_small.
    unfold kAbsoluteMaxPayloadBytes in Hm. lia. }
  assert (fits 32 (payloadCrc (frame_header type flags payload))) as Hc.
  { unfold frame_header. cbn [payloadCrc]. case_bool_decide; [|apply crc32c_fits].
    split; vm_compute; first [reflexivity|discriminate]. }
  split; [|done]. split; try done; [rewrite Hl; lia|]. split; [done|]. rewrite Hl.
  intros Hz. assert (payload = []) as -> by (by apply zlen_0_nil). done.
Qed.

(** A header behind which the payload is complete. *)
Lemma next_frame_header hb p rest h maxPayloadBytes :
  length hb = kFrameHeaderBytes → decodeFrameHeader hb maxPayloadBytes = Ok h →
  payloadLength h = zlen p →
  next_frame maxPayloadBytes (hb ++ p ++ rest) =
  Some (if negb (bool_decide (p = [])) && negb (crc32c p =? payloadCrc h)
        then fail_detail ErrorCode.IntegrityFailure "frame payload checksum does not match"
               (frameTypeName (ftype h))
        else Ok (mkFrame h p, rest)).
Proof.
  intros Hhb Hdec Hl. unfold next_frame. rewrite !length_app.
  destruct (Nat.ltb_spec (length hb + (length p + length rest)) kFrameHeaderBytes); [lia|].
  rewrite <- Hhb, take_app_length, Hdec, Hl. unfold zlen. rewrite Nat2Z.id.
  destruct (Nat.ltb_spec (length hb + (length p + length rest)) (length hb + length p)); [lia|].
  rewrite drop_app_length, take_app_length, <- drop_drop, drop_app_length, drop_app_length.
  by destruct (_ && _).
Qed.

Lemma next_frame_sent type flags payload maxPayloadBytes rest :
  sendable maxPayloadBytes flags payload →
  next_frame maxPayloadBytes (frame_bytes (sent type flags payload) ++ rest)
  = Some (Ok (sent type flags payload, rest)).
Proof.
  intros Hs. destruct (sent_ok type flags payload maxPayloadBytes Hs) as (Hok & Hl & Hc).
  unfold frame_bytes, sent. cbn [header fpayload]. rewrite <- app_assoc.
  rewrite (next_frame_header _ payload rest (frame_header type flags payload));
    [|apply length_encodeFrameHeader| |done].
  - unfold frame_header at 1. cbn [payloadCrc]. case_bool_decide; [done|]. by rewrite Z.eqb_refl.
  - rewrite encodeFrameHeader_split, (decode_header_raw _ maxPayloadBytes) by (done || apply length_le_bytes).
    unfold storeLe32. rewrite !le_load_bytes_fits by (done || apply crc32c_fits).
    rewrite Z.eqb_refl. cbn [negb]. destruct Hok as [_ _ _ _ _ [_ H0]].
    destruct (Z.eqb_spec (payloadLength (frame_header type flags payload)) 0) as [E|E];
      [rewrite (proj2 (Z.eqb_eq _ _) (H0 E))|]; done.
Qed.

(** ** Messages on the wire *)

Record Message := mkMessage { m_type : FrameType; m_flags : Z; m_payload : list byte }.
Definition as_frame (m : Message) : Frame := sent (m_type m) (m_flags m) (m_payload m).
Definition message_ok (maxPayloadBytes : Z) (m : Message) : Prop :=
  sendable maxPayloadBytes (m_flags m) (m_payload m).
Definition wire (ms : list Message) : list byte := concat (map (λ m, frame_bytes (as_frame m)) ms).

Lemma decode_stream_wire maxPayloadBytes ms rest :
  Forall (message_ok maxPayloadBytes) ms →
  decode_stream maxPayloadBytes (wire ms ++ rest) =
  (let '(fs, r, st) := decode_stream maxPayloadBytes rest in (map as_frame ms ++ fs, r, st)).
Proof.
  induction ms as [|m ms IH]; intros Hms.
  { change (wire [] ++ rest) with rest. by destruct (decode_stream _ rest) as [[? ?] ?]. }
  apply Forall_cons_iff in Hms as [Hm Hms].
  change (wire (m :: ms)) with (frame_bytes (as_frame m) ++ wire ms). rewrite <- app_assoc.
  unfold decode_stream at 1. cbn [frames_of].
  pose proof (next_frame_sent (m_type m) _ _ _ (wire ms ++ rest) Hm) as Hnext.
  fold (as_frame m) in Hnext. rewrite Hnext. apply next_frame_shrinks in Hnext.
  rewrite (frames_of_fuel _ (S (length (wire ms ++ rest)))) by lia.
  fold (decode_stream maxPayloadBytes (wire ms ++ rest)). rewrite IH by done.
  by destruct (decode_stream _ rest) as [[fs r] st].
Qed.

(** A proper part of a frame is no frame and no error. *)
Lemma next_frame_part maxPayloadBytes m n :
  message_ok maxPayloadBytes m → (n < length (frame_bytes (as_frame m)))%nat →
  next_frame maxPayloadBytes (take n (frame_bytes (as_frame m))) = None.
Proof.
  intros Hm Hn.
  pose proof (next_frame_sent (m_type m) _ _ _ [] Hm) as Hfull. fold (as_frame m) in Hfull.
  destruct (next_frame maxPayloadBytes (take n (frame_bytes (as_frame m)))) as [r|] eqn:E; [|done].
  pose proof E as Eapp.
  apply (next_frame_app _ _ (drop n (frame_bytes (as_frame m)))) in Eapp.
  rewrite take_drop in Eapp. rewrite app_nil_r in Hfull. rewrite Hfull in Eapp.
  destruct r as [[f rest]| |]; simplify_eq/=.
  match goal with H : [] = _ ++ drop _ _ |- _ => symmetry in H; apply app_eq_nil in H as [_ Hd] end.
  apply (f_equal length) in Hd. rewrite length_drop in Hd. simpl in Hd. lia.
Qed.

(** ** Receiving over a connection *)

(** [n] calls of [receive]. *)
Fixpoint receives (n : nat) (reads : list (Result (list byte))) (c : Connection)
    : list (option (Result Frame)) :=
  match n with
  | O => []
  | S n => let '(c, reads, r) := receive reads c in r :: receives n reads c
  end.

Lemma receive_chunks chunks tail c fs rest :
  decoder_ok (c_decoder c) → zlen (fd_buffer (c_decoder c)) + zlen (concat chunks) < 2 ^ 64 →
  decode_stream (fd_maxPayloadBytes (c_decoder c)) (fd_pending (c_decoder c) ++ concat chunks)
  = (fs, rest, Ok tt) →
  match c_ready c ++ fs with
  | [] => ∃ d, receive (map Ok chunks ++ tail) c = receive tail (mkConnection d [])
            ∧ fd_pending d = rest
  | f :: ready =>
      ∃ c' chunks' fs', receive (map Ok chunks ++ tail) c = (c', map Ok chunks' ++ tail, Some (Ok f))
        ∧ decoder_ok (c_decoder c')
        ∧ zlen (fd_buffer (c_decoder c')) + zlen (concat chunks') < 2 ^ 64
        ∧ decode_stream (fd_maxPayloadBytes (c_decoder c'))
            (fd_pending (c_decoder c') ++ concat chunks') = (fs', rest, Ok tt)
        ∧ c_ready c' ++ fs' = ready
  end.
Proof.
  revert c fs. induction chunks as [|chunk chunks IH]; intros [d ready] fs Hd Hsize Hdec;
    cbn [c_decoder c_ready concat map app] in *.
  - rewrite app_nil_r, decode_stream_stuck in Hdec by apply Hd. injection Hdec as <- <-.
    rewrite app_nil_r. destruct ready as [|f ready]; [by exists d|].
    exists (mkConnection d ready), [], []. simpl. split; [by destruct tail|]. split; [done|].
    split; [done|]. rewrite !app_nil_r. split; [|done]. apply decode_stream_stuck, Hd.
  - destruct ready as [|f ready].
    + rewrite zlen_app in Hsize. pose proof (zlen_nonneg (concat chunks)).
      rewrite app_assoc, decode_stream_app in Hdec.
      pose proof (feed_spec chunk d Hd ltac:(lia)) as Hfeed.
      destruct (decode_stream _ (fd_pending d ++ chunk)) as [[fs1 rest1] st1].
      destruct Hfeed as (d1 & Hfeed & Hp & Hm & Hl & Hok). destruct st1 as [[]| |]; [|done..].
      assert (receive (Ok chunk :: map Ok chunks ++ tail) (mkConnection d [])
              = receive (map Ok chunks ++ tail) (mkConnection d1 fs1)) as Hstep
        by (cbn [receive c_ready c_decoder]; by rewrite Hfeed).
      rewrite Hstep.
      destruct (decode_stream _ (rest1 ++ concat chunks)) as [[fs2 rest2] st2] eqn:E2.
      injection Hdec as <- <- ->. rewrite app_nil_l.
      apply (IH (mkConnection d1 fs1) fs2); cbn [c_decoder]; [by apply Hok|lia|by rewrite Hm, Hp].
    + exists (mkConnection d ready), (chunk :: chunks), fs. by simpl.
Qed.

Lemma receives_chunks n chunks tail c fs rest :
  decoder_ok (c_decoder c) → zlen (fd_buffer (c_decoder c)) + zlen (concat chunks) < 2 ^ 64 →
  decode_stream (fd_maxPayloadBytes (c_decoder c)) (fd_pending (c_decoder c) ++ concat chunks)
  = (fs, rest, Ok tt) → n = length (c_ready c ++ fs) →
  ∃ d, fd_pending d = rest
    ∧ receives (S n) (map Ok chunks ++ tail) c
      = map (λ f, Some (Ok f)) (c_ready c ++ fs) ++ [(receive tail (mkConnection d [])).2].
Proof.
  revert chunks c fs. induction n as [|n IH]; intros chunks c fs Hd Hsize Hdec Hn;
    pose proof (receive_chunks chunks tail c fs rest Hd Hsize Hdec) as Hr;
    destruct (c_ready c ++ fs) as [|f ready]; try discriminate Hn.
  - destruct Hr as (d & Hrun & Hp). exists d. split; [done|]. cbn [receives]. rewrite Hrun.
    by destruct (receive tail _) as [[? ?] ?].
  - destruct Hr as (c' & chunks' & fs' & Hrun & Hd' & Hsize' & Hdec' & Hready).
    destruct (IH chunks' c' fs' Hd' Hsize' Hdec') as (d & Hp & Hrec).
    { rewrite Hready. by injection Hn. }
    exists d. split; [done|].
    change (receives (S (S n)) (map Ok chunks ++ tail) c)
      with (let '(c2, reads, r) := receive (map Ok chunks ++ tail) c in r :: receives (S n) reads c2).
    rewrite Hrun, Hrec, Hready. done.
Qed.

Lemma stream_decodes maxPayloadBytes ms chunks :
  0 <= maxPayloadBytes <= kAbsoluteMaxPayloadBytes → Forall (message_ok maxPayloadBytes) ms →
  concat chunks = wire ms → zlen (wire ms) < 2 ^ 64 →
  ∃ d, feed_all chunks (newDecoder maxPayloadBytes) = (d, map as_frame ms, Ok tt)
    ∧ finish "stream" d = Ok tt.
Proof.
  intros Hmax Hms Hchunks Hsize.
  pose proof (feed_all_spec chunks (newDecoder maxPayloadBytes) (newDecoder_ok _ Hmax)) as H.
  rewrite Hchunks in H. specialize (H Hsize).
  change (fd_pending (newDecoder maxPayloadBytes) ++ wire ms) with (wire ms) in H.
  rewrite <- (app_nil_r (wire ms)) in H. rewrite decode_stream_wire in H by done.
  destruct H as (d & Hrun & Hok). rewrite app_nil_r in Hrun. exists d. split; [done|].
  destruct (Hok eq_refl) as [Hp [Ho _ _]]. unfold finish, buffered.
  apply (f_equal length) in Hp. unfold fd_pending in Hp. rewrite length_drop in Hp. simpl in Hp.
  by rewrite Hp.
Qed.

(** ** Properties *)

(** C13: framing survives any segmentation of the stream: whatever chunks the
    transport delivers, one byte at a time or many frames at once, the decoder
    returns exactly the messages sent, in order and unchanged, and nothing is
    left over. *)
Theorem stream_roundtrip maxPayloadBytes ms chunks
    (Hmax : 0 <= maxPayloadBytes <= kAbsoluteMaxPayloadBytes)
    (Hms : Forall (message_ok maxPayloadBytes) ms)
    (Hchunks : concat chunks = wire ms) (Hsize : zlen (wire ms) < 2 ^ 64) :
  ∃ d, feed_all chunks (newDecoder maxPayloadBytes) = (d, map as_frame ms, Ok tt)
    ∧ finish "stream" d = Ok tt.
Proof. by apply stream_decodes. Qed.

(** The result of decoding depends only on the bytes, never on how they
    were split: for any two segmentations of any byte string, well framed or
    not, the frames returned and the final status are the same. *)
Theorem chunking_irrelevant maxPayloadBytes chunks chunks'
    (Hmax : 0 <= maxPayloadBytes <= kAbsoluteMaxPayloadBytes)
    (Hsame : concat chunks = concat chunks') (Hsize : zlen (concat chunks) < 2 ^ 64) :
  (feed_all chunks (newDecoder maxPayloadBytes)).1.2
  = (feed_all chunks' (newDecoder maxPayloadBytes)).1.2
  ∧ (feed_all chunks (newDecoder maxPayloadBytes)).2
    = (feed_all chunks' (newDecoder maxPayloadBytes)).2.
Proof.
  pose proof (feed_all_spec chunks _ (newDecoder_ok _ Hmax) Hsize) as H1. rewrite Hsame in Hsize.
  pose proof (feed_all_spec chunks' _ (newDecoder_ok _ Hmax) Hsize) as H2. rewrite <- Hsame in H2.
  destruct (decode_stream _ _) as [[fs rest] st]. destruct H1 as (d1 & -> & _), H2 as (d2 & -> & _).
  done.
Qed.

Definition example_messages : list Message :=
  [mkMessage FrameType.Ping 0 []; mkMessage FrameType.Chunk 1 [Byte.x41; Byte.x42]].

Lemma example_messages_ok : Forall (message_ok 1024) example_messages.
Proof. repeat constructor; vm_compute; first [reflexivity|discriminate]. Qed.

Lemma stream_roundtrip_witness :
  ∃ d, feed_all (map (λ b, [b]) (wire example_messages)) (newDecoder 1024)
       = (d, map as_frame example_messages, Ok tt).
Proof.
  destruct (stream_roundtrip 1024 example_messages (map (λ b, [b]) (wire example_messages)))
    as (d & Hrun & _).
  - split; vm_compute; discriminate.
  - exact example_messages_ok.
  - vm_compute. reflexivity.
  - vm_compute. reflexivity.
  - exists d. exact Hrun.
Defined.

Lemma chunking_irrelevant_witness :
  (feed_all [[Byte.x46; Byte.x43]; repeat Byte.x00 30] (newDecoder 1024)).2
  = (feed_all [Byte.x46 :: Byte.x43 :: repeat Byte.x00 30] (newDecoder 1024)).2.
Proof.
  apply (chunking_irrelevant 1024 [[Byte.x46; Byte.x43]; repeat Byte.x00 30]
           [Byte.x46 :: Byte.x43 :: repeat Byte.x00 30]).
  - split; vm_compute; discriminate.
  - reflexivity.
  - vm_compute. reflexivity.
Defined.

(** The receive loop hands out every message sent, in order, then the
    close, whatever the socket reads returned; a stream that ends inside a
    frame ends in a truncated-frame error and never in a clean close. *)
Theorem receive_in_order maxPayloadBytes ms m n chunks e tail
    (Hmax : 0 <= maxPayloadBytes <= kAbsoluteMaxPayloadBytes)
    (Hms : Forall (message_ok maxPayloadBytes) (ms ++ [m]))
    (Hn : (n < length (frame_bytes (as_frame m)))%nat)
    (Hchunks : concat chunks = wire ms ++ take n (frame_bytes (as_frame m)))
    (Hsize : zlen (concat chunks) < 2 ^ 64) (Hclosed : code e = ErrorCode.ConnectionClosed) :
  ∃ last, receives (S (length ms)) (map Ok chunks ++ Fail e :: tail) (newConnection maxPayloadBytes)
    = map (λ m, Some (Ok (as_frame m))) ms ++ [Some (Fail last)]
    ∧ code last = (if decide (n = 0%nat) then ErrorCode.ConnectionClosed else ErrorCode.TruncatedFrame).
Proof.
  apply Forall_app in Hms as [Hms Hm]. apply Forall_cons_iff in Hm as [Hm _].
  destruct (receives_chunks (length ms) chunks (Fail e :: tail) (newConnection maxPayloadBytes)
              (map as_frame ms) (take n (frame_bytes (as_frame m)))) as (d & Hp & Hrun).
  - by apply newDecoder_ok.
  - done.
  - change (fd_pending _ ++ concat chunks) with (concat chunks). rewrite Hchunks.
    rewrite decode_stream_wire, decode_stream_stuck by (done || by apply next_frame_part).
    by rewrite app_nil_r.
  - cbn [newConnection c_ready app]. by rewrite length_map.
  - cbn [newConnection c_ready app] in Hrun. rewrite Hrun, map_map. cbn [receive c_ready c_decoder snd].
    rewrite bool_decide_true by done. unfold finish.
    assert (buffered d = n) as ->.
    { apply (f_equal length) in Hp. unfold fd_pending in Hp.
      rewrite length_drop, length_take in Hp. unfold buffered. lia. }
    destruct (decide (n = 0%nat)) as [->|Hn0]; [by exists e|].
    destruct (Nat.eqb_spec n 0); [done|]. by eexists.
Qed.

Lemma receive_in_order_witness :
  ∃ last, receives 3 [Ok (wire example_messages); Ok (take 5 (wire example_messages));
                      Fail (mkError ErrorCode.ConnectionClosed "peer closed" "")] (newConnection 1024)
    = map (λ m, Some (Ok (as_frame m))) example_messages ++ [Some (Fail last)].
Proof.
  destruct (receive_in_order 1024 example_messages (mkMessage FrameType.Ping 0 []) 5
              [wire example_messages; take 5 (wire example_messages)]
              (mkError ErrorCode.ConnectionClosed "peer closed" "") []) as (last & Hrun & _).
  - split; vm_compute; discriminate.
  - apply Forall_app. split; [exact example_messages_ok|].
    repeat constructor; vm_compute; first [reflexivity|discriminate].
  - apply Nat.ltb_lt. vm_compute. reflexivity.
  - vm_compute. reflexivity.
  - vm_compute. reflexivity.
  - reflexivity.
  - exists last. exact Hrun.
Defined.

Lemma checksum_bytes_differ (v : Z) i c :
  (i < 4)%nat → storeLe32 v !! i ≠ Some c → fits 32 v → le_load (<[i := c]> (storeLe32 v)) ≠ v.
Proof.
  intros Hi Hc Hv E. apply (f_equal (le_bytes 4)) in E. unfold storeLe32 in *.
  rewrite le_bytes_load in E by (by rewrite length_insert, length_le_bytes).
  rewrite <- E in Hc at 1. by rewrite list_lookup_insert_eq in Hc by (by rewrite length_le_bytes).
Qed.

(** A header that does not decode, at the start of a stream. *)
Lemma next_frame_bad hb rest e maxPayloadBytes :
  length hb = kFrameHeaderBytes → decodeFrameHeader hb maxPayloadBytes = Fail e →
  next_frame maxPayloadBytes (hb ++ rest) = Some (Fail e).
Proof.
  intros Hhb Hdec. unfold next_frame. rewrite length_app.
  destruct (Nat.ltb_spec (length hb + length rest) kFrameHeaderBytes); [lia|].
  by rewrite <- Hhb, take_app_length, Hdec.
Qed.

(** The header with one byte changed fails, or decodes to the same header with
    another payload checksum. *)
Lemma corrupted_header h maxPayloadBytes i c :
  header_ok h maxPayloadBytes → (i < kFrameHeaderBytes)%nat → encodeFrameHeader h !! i ≠ Some c →
  let hb := <[i := c]> (encodeFrameHeader h) in
  (∃ e, decodeFrameHeader hb maxPayloadBytes = Fail e)
  ∨ ∃ crc, decodeFrameHeader hb maxPayloadBytes
           = Ok (mkHeader (wireVersion h) (ftype h) (flags h) (reserved h) (payloadLength h) crc)
         ∧ crc ≠ payloadCrc h ∧ payloadLength h ≠ 0.
Proof.
  intros Hok Hi Hc. rewrite encodeFrameHeader_split in *.
  pose proof (length_header_prefix h) as H16. pose proof (ho_max _ _ Hok) as Hmax.
  pose proof (ho_crc _ _ Hok) as [Hfit Hcrc0].
  set (P := header_prefix h) in *. set (X := storeLe32 (crc32c P)) in *.
  set (Y := storeLe32 (payloadCrc h)) in *.
  assert (length X = 4%nat) as HX by apply length_le_bytes.
  assert (length Y = 4%nat) as HY by apply length_le_bytes.
  assert (le_load X = crc32c P) as HX2 by apply le_load_bytes_fits, crc32c_fits.
  unfold kFrameHeaderBytes in Hi. cbv zeta.
  destruct (decide (i < 16)%nat) as [H1|H1]; [|destruct (decide (i < 20)%nat) as [H2|H2]].
  - rewrite insert_app_l by lia. rewrite lookup_app_l in Hc by lia. left.
    assert (i < length P)%nat as HiP by lia.
    destruct (insert_differs _ _ _ HiP Hc) as (pre & b & post & Hpre & Hins & Hne).
    apply decode_bad_crc; [by rewrite length_insert|done..|]. rewrite HX2, Hins, Hpre.
    apply not_eq_sym. by apply crc32c_single_byte.
  - rewrite insert_app_r_alt, insert_app_l by lia.
    rewrite lookup_app_r, lookup_app_l in Hc by lia. rewrite H16 in *. left.
    unfold P. rewrite (decode_header_raw h maxPayloadBytes) by (rewrite ?length_insert; done). fold P.
    rewrite (proj2 (Z.eqb_neq _ _)); [by eexists|]. apply not_eq_sym.
    apply checksum_bytes_differ; [lia|done|apply crc32c_fits].
  - rewrite !insert_app_r_alt by (rewrite ?HX; lia).
    rewrite !lookup_app_r in Hc by (rewrite ?HX; lia). rewrite H16, HX in *.
    assert (le_load (<[(i - 16 - 4)%nat := c]> Y) ≠ payloadCrc h) as Hne
      by (apply checksum_bytes_differ; [lia|done|done]).
    unfold P. rewrite (decode_header_raw h maxPayloadBytes) by (rewrite ?length_insert; done). fold P.
    rewrite HX2, Z.eqb_refl. cbn [negb].
    destruct (Z.eqb_spec (payloadLength h) 0) as [E|E].
    + rewrite (proj2 (Z.eqb_neq _ _)) by (by rewrite <- (Hcrc0 E)). left. by eexists.
    + right. eexists. split; [done|]. done.
Qed.

Lemma corrupted_next maxPayloadBytes m i c :
  message_ok maxPayloadBytes m → (i < length (frame_bytes (as_frame m)))%nat →
  frame_bytes (as_frame m) !! i ≠ Some c →
  ∃ e, next_frame maxPayloadBytes (<[i := c]> (frame_bytes (as_frame m))) = Some (Fail e).
Proof.
  intros Hm Hi Hc. destruct (sent_ok (m_type m) _ _ _ Hm) as (Hok & Hl & _).
  unfold frame_bytes, as_frame, sent in *. cbn [header fpayload] in *.
  set (h := frame_header (m_type m) (m_flags m) (m_payload m)) in *.
  pose proof (length_encodeFrameHeader h) as Hlen. rewrite length_app in Hi.
  assert (m_payload m ≠ [] → payloadCrc h = crc32c (m_payload m)) as Hcrc
    by (intros Hp; unfold h, frame_header; cbn [payloadCrc]; by rewrite bool_decide_false).
  destruct (decide (i < kFrameHeaderBytes)%nat) as [H1|H1].
  - rewrite insert_app_l by lia. rewrite lookup_app_l in Hc by lia.
    destruct (corrupted_header h maxPayloadBytes i c Hok H1 Hc) as [[e He]|(crc & Hdec & Hne & H0)].
    + exists e. apply next_frame_bad; [by rewrite length_insert|done].
    + rewrite Hl in H0. assert (m_payload m ≠ []) as Hp by (intros E; rewrite E in H0; by apply H0).
      rewrite <- (app_nil_r (_ ++ m_payload m)), <- app_assoc.
      eexists. rewrite (next_frame_header _ _ _ _ _ (eq_trans (length_insert _ _ _) Hlen) Hdec Hl).
      rewrite bool_decide_false by done. cbn [payloadCrc].
      by rewrite (proj2 (Z.eqb_neq _ _)) by (by rewrite <- Hcrc).
  - rewrite insert_app_r_alt by lia. rewrite lookup_app_r in Hc by lia. rewrite Hlen in *.
    assert (i - kFrameHeaderBytes < length (m_payload m))%nat as Hip by lia.
    destruct (insert_differs _ _ _ Hip Hc) as (pre & b & post & Hpre & Hins & Hne).
    assert (m_payload m ≠ []) as Hp by (intros E; rewrite E in Hip; simpl in Hip; lia).
    assert (decodeFrameHeader (encodeFrameHeader h) maxPayloadBytes = Ok h) as Hdec.
    { pose proof (next_frame_sent (m_type m) _ _ _ [] Hm) as Hfull. revert Hfull.
      unfold frame_bytes, sent, next_frame. cbn [header fpayload]. fold h. rewrite !length_app.
      destruct (Nat.ltb_spec (length (encodeFrameHeader h) + length (m_payload m) + length (@nil byte))
                  kFrameHeaderBytes); [lia|].
      rewrite <- app_assoc, <- Hlen, take_app_length.
      destruct (decodeFrameHeader (encodeFrameHeader h) maxPayloadBytes); [|done..].
      destruct (_ <? _)%nat; [done|]. destruct (_ && _); [done|]. by intros [= <- _ _]. }
    eexists. rewrite <- (app_nil_r (_ ++ _)), <- app_assoc.
    rewrite (next_frame_header _ _ _ _ _ Hlen Hdec)
      by (rewrite Hl; unfold zlen; by rewrite length_insert).
    rewrite bool_decide_false by (intros E; apply (f_equal length) in E; rewrite length_insert in E;
                                  simpl in E; lia).
    by rewrite (proj2 (Z.eqb_neq _ _))
      by (rewrite (Hcrc Hp), Hins, Hpre; apply not_eq_sym; by apply crc32c_single_byte).
Qed.

(** No damaged frame is ever delivered: if any single byte of a frame, of
    its header, of its checksums or of its payload, differs from what was
    sent, the decoder returns no frame and fails. *)
Theorem frame_corruption_detected maxPayloadBytes m i c
    (Hmax : 0 <= maxPayloadBytes) (Hm : message_ok maxPayloadBytes m)
    (Hi : (i < length (frame_bytes (as_frame m)))%nat)
    (Hc : frame_bytes (as_frame m) !! i ≠ Some c) :
  ∃ d e, feed (<[i := c]> (frame_bytes (as_frame m))) (newDecoder maxPayloadBytes) = (d, [], Fail e).
Proof.
  destruct (corrupted_next maxPayloadBytes m i c Hm Hi Hc) as [e He].
  assert (0 <= maxPayloadBytes <= kAbsoluteMaxPayloadBytes) as Hmax2
    by (split; [done|]; apply (sd_size _ _ _ Hm)).
  pose proof (feed_spec (<[i := c]> (frame_bytes (as_frame m))) (newDecoder maxPayloadBytes)
                (newDecoder_ok _ Hmax2)) as Hfeed.
  unfold decode_stream in Hfeed. change (fd_pending _ ++ ?x) with x in Hfeed.
  cbn [frames_of] in Hfeed. change (fd_maxPayloadBytes (newDecoder _)) with maxPayloadBytes in Hfeed.
  rewrite He in Hfeed. destruct Hfeed as (d & Hrun & _); [|by exists d, e].
  destruct Hm as [[Hs Hk] _]. unfold zlen in *. rewrite length_insert. unfold frame_bytes.
  rewrite length_app, length_encodeFrameHeader. unfold kAbsoluteMaxPayloadBytes, kFrameHeaderBytes in *.
  cbn [as_frame sent fpayload newDecoder fd_buffer length]. lia.
Qed.

Lemma frame_corruption_detected_witness :
  let m := mkMessage FrameType.Chunk 1 [Byte.x41; Byte.x42] in
  ∃ d e, feed (<[25%nat := Byte.xff]> (frame_bytes (as_frame m))) (newDecoder 1024) = (d, [], Fail e).
Proof.
  apply (frame_corruption_detected 1024 (mkMessage FrameType.Chunk 1 [Byte.x41; Byte.x42]) 25 Byte.xff).
  - discriminate.
  - repeat constructor; vm_compute; first [reflexivity|discriminate].
  - apply Nat.ltb_lt. vm_compute. reflexivity.
  - vm_compute. discriminate.
Defined.

(** The type value reserved for "no message" is accepted as a message: it
    is sent and delivered like any other. *)
Theorem invalid_type_delivered maxPayloadBytes payload
    (Hmax : 0 <= zlen payload <= maxPayloadBytes) (Hk : maxPayloadBytes <= kAbsoluteMaxPayloadBytes) :
  encodeFrame FrameType.Invalid 0 payload maxPayloadBytes
  = Ok (frame_bytes (sent FrameType.Invalid 0 payload))
  ∧ next_frame maxPayloadBytes (frame_bytes (sent FrameType.Invalid 0 payload))
    = Some (Ok (sent FrameType.Invalid 0 payload, [])).
Proof.
  assert (sendable maxPayloadBytes 0 payload) as Hs by (split; [lia|by vm_compute]).
  split; [by apply encodeFrame_sent|].
  rewrite <- (app_nil_r (frame_bytes _)). by apply next_frame_sent.
Qed.

Lemma invalid_type_delivered_witness :
  encodeFrame FrameType.Invalid 0 [] 1024 = Ok (frame_bytes (sent FrameType.Invalid 0 [])).
Proof.
  exact (proj1 (invalid_type_delivered 1024 [] ltac:(split; vm_compute; discriminate)
                  ltac:(vm_compute; discriminate))).
Defined.
