(* ===== verification/Records.v ===== *)
(** * Durable records

    Models the records of include/cf/state.hpp and their encodings in
    src/state.cpp: lifecycle events, target runtimes, deliveries, transfers and
    applied findings. Each reader carries the range checks of the code and is
    proved, with its writer, to satisfy [Wire]. *)

From Stdlib Require Import Strings.Byte.
From S2P Require Import Prelude Result Hash Ids Codec Lifecycle Journal Artifact Endpoint.

Definition kStateFormatVersion : Z := 1.
Definition kMaxDeliveryDetailBytes : Z := 192.
Definition kMaxEndpointBytes : Z := 128.
Definition kMaxFindingsPerAgent : Z := 128.

(** ** Field codecs *)

Definition write_opaque {Tag} (o : OpaqueIdentity Tag) : Writer := Write.opaque128 (opaque_bytes o).
Definition read_opaque {Tag} : Parser (OpaqueIdentity Tag) :=
  let! bytes := Read.opaque128 in p_ret (mkOpaque bytes).
#[global] Instance opaque_wire Tag : Wire (write_opaque (Tag := Tag)) read_opaque opaque_wf.
Proof.
  apply (wire_map Write.opaque128 Read.opaque128 (λ l, length l = 16%nat) mkOpaque opaque_bytes);
    [apply _|by intros []|by intros ?].
Qed.

Lemma range_by_check {A} `{WireEnum A} (accepts : Z → bool) :
  forallb (λ n, implb (accepts (Z.of_nat n)) (existsb (λ a : A, raw a =? Z.of_nat n) all_values))
    (seq 0 256) = true →
  ∀ v, fits 8 v → accepts v = true → ∃ a : A, raw a = v.
Proof.
  intros Hall v Hv Ha. rewrite forallb_forall in Hall.
  specialize (Hall (Z.to_nat v)). unfold fits in Hv. rewrite Z2Nat.id in Hall by lia.
  rewrite Ha in Hall. specialize (Hall ltac:(apply in_seq; lia)). simpl in Hall.
  apply existsb_exists in Hall as (a & _ & Hr). apply Z.eqb_eq in Hr. by exists a.
Qed.

Ltac solve_range :=
  split; [intros []; split; vm_compute; first [reflexivity | discriminate]
         |by intros []|apply range_by_check; by vm_compute].

Definition klass_in_range (v : Z) : bool := negb (v >? 2).
#[global] Instance klass_range : EnumRange TargetClass klass_in_range.
Proof. solve_range. Qed.
Definition guarantee_in_range (v : Z) : bool := negb ((v <? 1) || (v >? 2)).
#[global] Instance guarantee_range : EnumRange ApplyGuarantee guarantee_in_range.
Proof. solve_range. Qed.
Definition requirement_in_range (v : Z) : bool := negb ((v <? 1) || (v >? 2)).
#[global] Instance requirement_range : EnumRange GuaranteeRequirement requirement_in_range.
Proof. solve_range. Qed.
Definition state_in_range (v : Z) : bool := negb ((v <? 1) || (v >? 10)).
#[global] Instance state_range : EnumRange DeliveryState state_in_range.
Proof. solve_range. Qed.
Definition kind_in_range (v : Z) : bool := negb ((v <? 1) || (v >? 13)).
#[global] Instance kind_range : EnumRange EvidenceKind kind_in_range.
Proof. solve_range. Qed.
Definition directive_in_range (v : Z) : bool := negb (v >? 5).
#[global] Instance directive_range : EnumRange RetryDirective directive_in_range.
Proof. solve_range. Qed.

(** An error code; its name must not be "Unknown". *)
Definition write_code (c : ErrorCode) : Writer := Write.u16 (raw c).
Definition code_known (v : Z) : bool := bool_decide (is_Some (of_raw (A := ErrorCode) v)).
Definition read_code_or (e : Z → Error) : Parser ErrorCode :=
  let! v := Read.u16 in do! p_check (code_known v) (e v) in p_cast v.
Definition read_code (msg : string) : Parser ErrorCode :=
  read_code_or (λ _, mkError ErrorCode.MalformedInput msg "").
#[global] Instance code_or_wire e : Wire write_code (read_code_or e) (λ _, True).
Proof.
  split.
  - intros c _. unfold write_code, read_code_or. eapply reads_last.
    + apply (wire_complete (p := Read.u16)). destruct c; split; vm_compute; first [reflexivity|discriminate].
    + eapply reads_pure; [apply reads_check|apply p_cast_raw].
      apply bool_decide_eq_true. by rewrite of_raw_raw.
  - intros r c r' Hr. unfold read_code_or in Hr. inv_parse.
    apply (wire_sound (p := Read.u16)) in H as [_ He]. by apply p_cast_Ok in H1 as [<- ->].
Qed.
#[global] Instance code_wire msg : Wire write_code (read_code msg) (λ _, True) := code_or_wire _.

(** Two states read before either is checked. *)
Definition write_from_to (s : DeliveryState * DeliveryState) : Writer :=
  Write.u8 (raw s.1) +++ Write.u8 (raw s.2).
Definition read_from_to (msg : string) : Parser (DeliveryState * DeliveryState) :=
  let! from := Read.u8 in
  let! to := Read.u8 in
  do! p_require (state_in_range from && state_in_range to) ErrorCode.MalformedInput msg in
  let! from := p_cast from in
  let! to := p_cast to in
  p_ret (from, to).
#[global] Instance from_to_wire msg : Wire write_from_to (read_from_to msg) (λ _, True).
Proof.
  split.
  - intros [from to] _. unfold write_from_to, read_from_to. cbn [fst snd].
    eapply reads_bind; [apply (wire_complete (p := Read.u8)), range_fits|].
    eapply reads_last; [apply (wire_complete (p := Read.u8)), range_fits|].
    eapply reads_pure; [apply reads_check; by rewrite !range_accepts|].
    eapply reads_pure; [apply p_cast_raw|]. eapply reads_pure; [apply p_cast_raw|]. apply reads_ret.
  - intros r [from to] r' Hr. unfold read_from_to in Hr. inv_parse.
    repeat match goal with H : Read.u8 _ = Ok _ |- _ => apply (wire_sound (p := Read.u8)) in H as [_ ?] end.
    repeat match goal with H : p_cast _ _ = Ok _ |- _ => apply p_cast_Ok in H as [<- ->] end.
    split; [done|]. unfold write_from_to. simpl. solve_emits.
Qed.

(** ** Lifecycle events *)

Definition writeLifecycleEvent (e : LifecycleEvent) : Writer :=
  write_enum8 (ev_kind e)
    +++ write_from_to (ev_from e, ev_to e)
    +++ Write.num (ev_generation e)
    +++ Write.digest (ev_digest e)
    +++ write_code (ev_code e)
    +++ write_enum8 (ev_directive e)
    +++ Write.num (ev_authorityEpoch e)
    +++ write_opaque (ev_authorityIncarnation e)
    +++ Write.num (ev_targetTerm e)
    +++ write_opaque (ev_targetIncarnation e)
    +++ Write.boolean (ev_fromReconciliation e)
    +++ Write.i64 (ev_atMillis e)
    +++ Write.string kMaxEvidenceDetailBytes (ev_detail e).

Definition readLifecycleEvent : Parser LifecycleEvent :=
  let! kind := read_enum8 kind_in_range "stored lifecycle event has an unknown evidence kind" in
  let! states := read_from_to "stored lifecycle event has an unknown state" in
  let! generation := Read.num in
  let! digest := Read.digest in
  let! code := read_code "stored lifecycle event has an unknown error code" in
  let! directive := read_enum8 directive_in_range
                      "stored lifecycle event has an unknown retry directive" in
  let! epoch := Read.num in
  let! authorityIncarnation := read_opaque in
  let! term := Read.num in
  let! targetIncarnation := read_opaque in
  let! fromReconciliation := Read.boolean in
  let! atMillis := Read.i64 in
  let! detail := Read.string kMaxEvidenceDetailBytes in
  p_ret (mkLifecycleEvent kind states.1 states.2 generation digest code directive epoch
           authorityIncarnation term targetIncarnation fromReconciliation atMillis detail).

Record event_wf (e : LifecycleEvent) : Prop := {
  ewf_generation : fits 64 (value (ev_generation e));
  ewf_digest : digest_wf (ev_digest e);
  ewf_epoch : fits 64 (value (ev_authorityEpoch e));
  ewf_authority : opaque_wf (ev_authorityIncarnation e);
  ewf_term : fits 64 (value (ev_targetTerm e));
  ewf_target : opaque_wf (ev_targetIncarnation e);
  ewf_at : fits_i64 (ev_atMillis e);
  ewf_detail : text_fits kMaxEvidenceDetailBytes (ev_detail e);
}.

#[global] Arguments writeLifecycleEvent : simpl never.
#[global] Instance event_wire : Wire writeLifecycleEvent readLifecycleEvent event_wf.
Proof.
  split.
  - intros [] []. unfold writeLifecycleEvent, readLifecycleEvent. simpl in *.
    repeat reads_step.
  - intros r e r' H. unfold readLifecycleEvent in H. inv_wire.
    split; [by constructor|]. unfold writeLifecycleEvent. simpl.
    match goal with s : (DeliveryState * DeliveryState)%type |- _ => destruct s end. solve_emits.
Qed.

(** ** Target runtimes *)

Record TargetRuntime := mkTargetRuntime {
  tr_id : TargetId;
  tr_klass : TargetClass;
  tr_guarantee : ApplyGuarantee;
  tr_term : Term;
  tr_incarnation : IncarnationId;
  tr_committedGeneration : Generation;
  tr_committedDigest : Digest;
  tr_committedArtifact : ArtifactId;
  tr_lastContactMillis : Z;
  tr_contactEstablishedThisProcess : bool;
  tr_sessionsEstablished : Z;
  tr_restartsObserved : Z;
  tr_applyPrepared : bool;
  tr_preparedDeployment : DeploymentId;
  tr_preparedGeneration : Generation;
  tr_preparedDigest : Digest;
  tr_endpoint : string;
}.
#[global] Instance TargetRuntime_eq_dec : EqDecision TargetRuntime.
Proof. solve_decision. Defined.

Definition set_contact (c : bool) (r : TargetRuntime) : TargetRuntime :=
  mkTargetRuntime (tr_id r) (tr_klass r) (tr_guarantee r) (tr_term r) (tr_incarnation r)
    (tr_committedGeneration r) (tr_committedDigest r) (tr_committedArtifact r)
    (tr_lastContactMillis r) c (tr_sessionsEstablished r) (tr_restartsObserved r)
    (tr_applyPrepared r) (tr_preparedDeployment r) (tr_preparedGeneration r)
    (tr_preparedDigest r) (tr_endpoint r).

Definition write_endpoint (text : string) : Writer := Write.string kMaxEndpointBytes text.
Definition read_endpoint : Parser string :=
  let! text := Read.string kMaxEndpointBytes in
  if decide (text = "") then p_ret text
  else let! _ := p_lift (parseEndpoint text) in p_ret text.
Definition endpoint_ok (text : string) : Prop :=
  text_fits kMaxEndpointBytes text ∧ (text = "" ∨ ∃ e, parseEndpoint text = Ok e).
#[global] Instance endpoint_wire : Wire write_endpoint read_endpoint endpoint_ok.
Proof.
  split.
  - intros text [Ht He]. unfold write_endpoint, read_endpoint. eapply reads_last.
    + by apply (wire_complete (p := Read.string _)).
    + destruct (decide (text = "")) as [|Hne]; [apply reads_ret|].
      destruct He as [|[e He]]; [done|].
      eapply reads_pure; [by apply reads_lift|]. apply reads_ret.
  - intros r text r' Hr. unfold read_endpoint in Hr. inv_parse.
    all: apply (wire_sound (p := Read.string _)) in H as [Ht He]; split; try done.
    all: split; [done|]; first [by left|right; eauto].
Qed.

Definition writeTargetRuntime (r : TargetRuntime) : Writer :=
  write_id (tr_id r)
    +++ write_enum8 (tr_klass r)
    +++ write_enum8 (tr_guarantee r)
    +++ Write.num (tr_term r)
    +++ write_opaque (tr_incarnation r)
    +++ Write.num (tr_committedGeneration r)
    +++ Write.digest (tr_committedDigest r)
    +++ write_id (tr_committedArtifact r)
    +++ Write.i64 (tr_lastContactMillis r)
    +++ Write.u64 (tr_sessionsEstablished r)
    +++ Write.u64 (tr_restartsObserved r)
    +++ Write.boolean (tr_applyPrepared r)
    +++ write_id (tr_preparedDeployment r)
    +++ Write.num (tr_preparedGeneration r)
    +++ Write.digest (tr_preparedDigest r)
    +++ write_endpoint (tr_endpoint r).

Definition readTargetRuntime : Parser TargetRuntime :=
  let! id := read_id "target id" in
  let! klass := read_enum8 klass_in_range "stored target has an unknown class" in
  let! guarantee := read_enum8 guarantee_in_range "stored target has an unknown guarantee" in
  let! term := Read.num in
  let! incarnation := read_opaque in
  let! committed := Read.num in
  let! committedDigest := Read.digest in
  let! artifact := read_optional_id "artifact id" in
  let! lastContactMillis := Read.i64 in
  let! sessionsEstablished := Read.u64 in
  let! restartsObserved := Read.u64 in
  let! applyPrepared := Read.boolean in
  let! preparedDeployment := read_optional_id "deployment id" in
  let! preparedGeneration := Read.num in
  let! preparedDigest := Read.digest in
  let! endpoint := read_endpoint in
  p_ret (mkTargetRuntime id klass guarantee term incarnation committed committedDigest artifact
           lastContactMillis false sessionsEstablished restartsObserved applyPrepared
           preparedDeployment preparedGeneration preparedDigest endpoint).

Record runtime_wf (r : TargetRuntime) : Prop := {
  rwf_id : id_valid (tr_id r);
  rwf_term : fits 64 (value (tr_term r));
  rwf_incarnation : opaque_wf (tr_incarnation r);
  rwf_generation : fits 64 (value (tr_committedGeneration r));
  rwf_digest : digest_wf (tr_committedDigest r);
  rwf_artifact : id_optional (tr_committedArtifact r);
  rwf_contact : fits_i64 (tr_lastContactMillis r);
  rwf_sessions : fits 64 (tr_sessionsEstablished r);
  rwf_restarts : fits 64 (tr_restartsObserved r);
  rwf_deployment : id_optional (tr_preparedDeployment r);
  rwf_prepared : fits 64 (value (tr_preparedGeneration r));
  rwf_preparedDigest : digest_wf (tr_preparedDigest r);
  rwf_endpoint : endpoint_ok (tr_endpoint r);
}.

(** Stored evidence is historical: the contact flag is never read back. *)
Definition runtime_stored (r : TargetRuntime) : Prop :=
  runtime_wf r ∧ tr_contactEstablishedThisProcess r = false.

#[global] Arguments writeTargetRuntime : simpl never.
#[global] Instance runtime_wire : Wire writeTargetRuntime readTargetRuntime runtime_stored.
Proof.
  split.
  - intros [] [[] Hc]. simpl in *. subst. unfold writeTargetRuntime, readTargetRuntime. simpl.
    repeat reads_step.
  - intros r a r' H. unfold readTargetRuntime in H. inv_wire.
    split; [split; [by constructor|done]|]. unfold writeTargetRuntime. simpl. solve_emits.
Qed.

(** ** Transfers and findings *)

Record TransferRecord := mkTransferRecord {
  tx_deployment : DeploymentId;
  tx_stream : StreamId;
  tx_key : ConfigKey;
  tx_artifact : ArtifactId;
  tx_generation : Generation;
  tx_digest : Digest;
  tx_totalBytes : Z;
  tx_bytesReceived : Z;
  tx_verified : bool;
  tx_staged : bool;
  tx_updatedAtMillis : Z;
}.
#[global] Instance TransferRecord_eq_dec : EqDecision TransferRecord.
Proof. solve_decision. Defined.

Definition writeTransferRecord (r : TransferRecord) : Writer :=
  write_id (tx_deployment r)
    +++ Write.num (tx_stream r)
    +++ write_id (tx_key r)
    +++ write_id (tx_artifact r)
    +++ Write.num (tx_generation r)
    +++ Write.digest (tx_digest r)
    +++ Write.u64 (tx_totalBytes r)
    +++ Write.u64 (tx_bytesReceived r)
    +++ Write.boolean (tx_verified r)
    +++ Write.boolean (tx_staged r)
    +++ Write.i64 (tx_updatedAtMillis r).

Definition readTransferRecord : Parser TransferRecord :=
  let! deployment := read_id "deployment id" in
  let! stream := Read.num in
  let! key := read_id "config key" in
  let! artifact := read_optional_id "artifact id" in
  let! generation := Read.num in
  let! digest := Read.digest in
  let! totalBytes := Read.u64 in
  let! bytesReceived := Read.u64 in
  do! p_require (negb (bytesReceived >? totalBytes)) ErrorCode.MalformedInput
        "stored transfer claims more bytes than its total" in
  let! verified := Read.boolean in
  let! staged := Read.boolean in
  let! updatedAtMillis := Read.i64 in
  p_ret (mkTransferRecord deployment stream key artifact generation digest totalBytes
           bytesReceived verified staged updatedAtMillis).

Record transfer_wf (r : TransferRecord) : Prop := {
  twf_deployment : id_valid (tx_deployment r);
  twf_stream : fits 64 (value (tx_stream r));
  twf_key : id_valid (tx_key r);
  twf_artifact : id_optional (tx_artifact r);
  twf_generation : fits 64 (value (tx_generation r));
  twf_digest : digest_wf (tx_digest r);
  twf_total : fits 64 (tx_totalBytes r);
  twf_received : fits 64 (tx_bytesReceived r);
  twf_bounded : negb (tx_bytesReceived r >? tx_totalBytes r) = true;
  twf_updated : fits_i64 (tx_updatedAtMillis r);
}.

#[global] Arguments writeTransferRecord : simpl never.
#[global] Instance transfer_wire : Wire writeTransferRecord readTransferRecord transfer_wf.
Proof.
  split.
  - intros [] []. unfold writeTransferRecord, readTransferRecord. simpl in *. repeat reads_step.
  - intros r a r' H. unfold readTransferRecord in H. inv_wire.
    split; [by constructor|]. unfold writeTransferRecord. simpl. solve_emits.
Qed.

Record AppliedFinding := mkAppliedFinding {
  fd_key : ConfigKey;
  fd_generation : Generation;
  fd_digest : Digest;
  fd_artifact : ArtifactId;
  fd_deployment : DeploymentId;
  fd_state : DeliveryState;
  fd_recordedAtMillis : Z;
}.
#[global] Instance AppliedFinding_eq_dec : EqDecision AppliedFinding.
Proof. solve_decision. Defined.

Definition writeAppliedFinding (f : AppliedFinding) : Writer :=
  write_id (fd_key f)
    +++ Write.num (fd_generation f)
    +++ Write.digest (fd_digest f)
    +++ write_id (fd_artifact f)
    +++ write_id (fd_deployment f)
    +++ write_enum8 (fd_state f)
    +++ Write.i64 (fd_recordedAtMillis f).

Definition readAppliedFinding : Parser AppliedFinding :=
  let! key := read_id "config key" in
  let! generation := Read.num in
  let! digest := Read.digest in
  let! artifact := read_optional_id "artifact id" in
  let! deployment := read_id "deployment id" in
  let! state := read_enum8 state_in_range "stored finding has an unknown lifecycle state" in
  let! recordedAtMillis := Read.i64 in
  p_ret (mkAppliedFinding key generation digest artifact deployment state recordedAtMillis).

Record finding_wf (f : AppliedFinding) : Prop := {
  fwf_key : id_valid (fd_key f);
  fwf_generation : fits 64 (value (fd_generation f));
  fwf_digest : digest_wf (fd_digest f);
  fwf_artifact : id_optional (fd_artifact f);
  fwf_deployment : id_valid (fd_deployment f);
  fwf_recorded : fits_i64 (fd_recordedAtMillis f);
}.

#[global] Arguments writeAppliedFinding : simpl never.
#[global] Instance finding_wire : Wire writeAppliedFinding readAppliedFinding finding_wf.
Proof.
  split.
  - intros [] []. unfold writeAppliedFinding, readAppliedFinding. simpl in *. repeat reads_step.
  - intros r a r' H. unfold readAppliedFinding in H. inv_wire.
    split; [by constructor|]. unfold writeAppliedFinding. simpl. solve_emits.
Qed.

(** ** Deliveries *)

Record DeliveryRecord := mkDeliveryRecord {
  dr_id : DeploymentId;
  dr_setId : DeploymentSetId;
  dr_rolloutSet : RolloutSetId;
  dr_target : TargetId;
  dr_key : ConfigKey;
  dr_artifact : ArtifactId;
  dr_revision : Revision;
  dr_generation : Generation;
  dr_digest : Digest;
  dr_schema : SchemaId;
  dr_schemaVersion : SchemaVersion;
  dr_sizeBytes : Z;
  dr_requirement : GuaranteeRequirement;
  dr_effectiveGuarantee : ApplyGuarantee;
  dr_state : DeliveryState;
  dr_attempt : AttemptId;
  dr_failures : Z;
  dr_lastError : ErrorCode;
  dr_lastDirective : RetryDirective;
  dr_lastDetail : string;
  dr_events : list LifecycleEvent;
  dr_authorityEpoch : Epoch;
  dr_authorityIncarnation : IncarnationId;
  dr_targetTerm : Term;
  dr_targetIncarnation : IncarnationId;
  dr_acknowledgedFromReconcile : bool;
  dr_superseded : bool;
  dr_createdAtMillis : Z;
  dr_updatedAtMillis : Z;
}.
#[global] Instance DeliveryRecord_eq_dec : EqDecision DeliveryRecord.
Proof. solve_decision. Defined.

Definition writeDeliveryRecord (r : DeliveryRecord) : Writer :=
  write_id (dr_id r)
    +++ write_id (dr_setId r)
    +++ write_id (dr_rolloutSet r)
    +++ write_id (dr_target r)
    +++ write_id (dr_key r)
    +++ write_id (dr_artifact r)
    +++ Write.num (dr_revision r)
    +++ Write.num (dr_generation r)
    +++ Write.digest (dr_digest r)
    +++ write_id (dr_schema r)
    +++ write_num32 (dr_schemaVersion r)
    +++ Write.u64 (dr_sizeBytes r)
    +++ write_enum8 (dr_requirement r)
    +++ write_enum8 (dr_effectiveGuarantee r)
    +++ write_enum8 (dr_state r)
    +++ Write.num (dr_attempt r)
    +++ Write.u32 (dr_failures r)
    +++ write_code (dr_lastError r)
    +++ write_enum8 (dr_lastDirective r)
    +++ Write.string kMaxDeliveryDetailBytes (dr_lastDetail r)
    +++ w_counted writeLifecycleEvent (dr_events r)
    +++ Write.num (dr_authorityEpoch r)
    +++ write_opaque (dr_authorityIncarnation r)
    +++ Write.num (dr_targetTerm r)
    +++ write_opaque (dr_targetIncarnation r)
    +++ Write.boolean (dr_acknowledgedFromReconcile r)
    +++ Write.boolean (dr_superseded r)
    +++ Write.i64 (dr_createdAtMillis r)
    +++ Write.i64 (dr_updatedAtMillis r).

Definition too_many_events (count : Z) : Error :=
  mkError ErrorCode.LimitExceeded "stored delivery carries too many lifecycle events"
    (to_string count).

Definition readDeliveryRecord : Parser DeliveryRecord :=
  let! id := read_id "deployment id" in
  let! setId := read_id "deployment set id" in
  let! rolloutSet := read_optional_id "rollout set id" in
  let! target := read_id "target id" in
  let! key := read_id "config key" in
  let! artifact := read_id "artifact id" in
  let! revision := Read.num in
  let! generation := Read.num in
  do! p_require (negb (value generation =? 0)) ErrorCode.MalformedInput
        "stored delivery carries the unset generation 0" in
  let! digest := Read.digest in
  let! schema := read_id "schema id" in
  let! schemaVersion := read_num32 in
  let! sizeBytes := Read.u64 in
  let! requirement := read_enum8 requirement_in_range
                        "stored delivery has an unknown guarantee requirement" in
  let! guarantee := read_enum8 guarantee_in_range "stored delivery has an unknown guarantee" in
  let! state := read_enum8 state_in_range "stored delivery has an unknown lifecycle state" in
  let! attempt := Read.num in
  let! failures := Read.u32 in
  let! code := read_code "stored delivery has an unknown error code" in
  let! directive := read_enum8 directive_in_range "stored delivery has an unknown retry directive" in
  let! lastDetail := Read.string kMaxDeliveryDetailBytes in
  let! events := p_counted kMaxEventsPerDelivery too_many_events readLifecycleEvent in
  let! epoch := Read.num in
  let! authorityIncarnation := read_opaque in
  let! term := Read.num in
  let! targetIncarnation := read_opaque in
  let! acknowledgedFromReconcile := Read.boolean in
  let! superseded := Read.boolean in
  let! createdAtMillis := Read.i64 in
  let! updatedAtMillis := Read.i64 in
  p_ret (mkDeliveryRecord id setId rolloutSet target key artifact revision generation digest schema
           schemaVersion sizeBytes requirement guarantee state attempt failures code directive
           lastDetail events epoch authorityIncarnation term targetIncarnation
           acknowledgedFromReconcile superseded createdAtMillis updatedAtMillis).

Record delivery_wf (r : DeliveryRecord) : Prop := {
  dwf_id : id_valid (dr_id r);
  dwf_setId : id_valid (dr_setId r);
  dwf_rolloutSet : id_optional (dr_rolloutSet r);
  dwf_target : id_valid (dr_target r);
  dwf_key : id_valid (dr_key r);
  dwf_artifact : id_valid (dr_artifact r);
  dwf_revision : fits 64 (value (dr_revision r));
  dwf_generation : fits 64 (value (dr_generation r));
  dwf_generation_set : negb (value (dr_generation r) =? 0) = true;
  dwf_digest : digest_wf (dr_digest r);
  dwf_schema : id_valid (dr_schema r);
  dwf_schemaVersion : fits 32 (value (dr_schemaVersion r));
  dwf_sizeBytes : fits 64 (dr_sizeBytes r);
  dwf_attempt : fits 64 (value (dr_attempt r));
  dwf_failures : fits 32 (dr_failures r);
  dwf_lastDetail : text_fits kMaxDeliveryDetailBytes (dr_lastDetail r);
  dwf_events : zlen (dr_events r) <= kMaxEventsPerDelivery ∧ Forall event_wf (dr_events r);
  dwf_epoch : fits 64 (value (dr_authorityEpoch r));
  dwf_authority : opaque_wf (dr_authorityIncarnation r);
  dwf_term : fits 64 (value (dr_targetTerm r));
  dwf_targetIncarnation : opaque_wf (dr_targetIncarnation r);
  dwf_created : fits_i64 (dr_createdAtMillis r);
  dwf_updated : fits_i64 (dr_updatedAtMillis r);
}.

#[global] Arguments writeDeliveryRecord : simpl never.
#[global] Arguments w_counted : simpl never.
#[global] Instance delivery_wire : Wire writeDeliveryRecord readDeliveryRecord delivery_wf.
Proof.
  split.
  - intros [] []. unfold writeDeliveryRecord, readDeliveryRecord. simpl in *. repeat reads_step.
  - intros r a r' H. unfold readDeliveryRecord in H. inv_wire.
    split; [by constructor|]. unfold writeDeliveryRecord. simpl. solve_emits.
Qed.

(** ** Exposed encoders and decoders *)

Definition checkBounded (text : string) (bound : Z) (what : string) : Status :=
  if slen text >? bound then fail ErrorCode.LimitExceeded (what +:+ " exceeds its bound") else Ok tt.

Definition encodeTargetRuntime (r : TargetRuntime) : Writer :=
  do* checkBounded (str (tr_id r)) kMaxIdentifierLength "target id" in writeTargetRuntime r.
Definition decodeTargetRuntime : list byte → Result TargetRuntime := decode_all readTargetRuntime.

Definition encodeDeliveryRecord (r : DeliveryRecord) : Writer :=
  do* checkBounded (str (dr_id r)) kMaxIdentifierLength "deployment id" in
  do* checkBounded (dr_lastDetail r) kMaxDeliveryDetailBytes "delivery detail" in
  if zlen (dr_events r) >? kMaxEventsPerDelivery
  then fail ErrorCode.LimitExceeded "delivery carries too many lifecycle events"
  else writeDeliveryRecord r.
Definition decodeDeliveryRecord : list byte → Result DeliveryRecord := decode_all readDeliveryRecord.

(** ** Lemmas *)

Lemma checkBounded_Ok text bound what : slen text <= bound → checkBounded text bound what = Ok tt.
Proof. intros. unfold checkBounded. by destruct (Z.gtb_spec (slen text) bound); [lia|]. Qed.

Lemma id_valid_length {Tag} (id : StrongString Tag) :
  id_valid id → slen (str id) <= kMaxIdentifierLength.
Proof. intros Hid. apply (valid_text_fits _ Hid). Qed.

Lemma encodeDeliveryRecord_wf r : delivery_wf r → encodeDeliveryRecord r = writeDeliveryRecord r.
Proof.
  intros []. unfold encodeDeliveryRecord.
  rewrite checkBounded_Ok by by apply id_valid_length. simpl.
  rewrite checkBounded_Ok by apply dwf_lastDetail0. simpl.
  destruct (Z.gtb_spec (zlen (dr_events r)) kMaxEventsPerDelivery); [lia|done].
Qed.

Lemma encodeTargetRuntime_wf r : runtime_wf r → encodeTargetRuntime r = writeTargetRuntime r.
Proof.
  intros []. unfold encodeTargetRuntime. by rewrite checkBounded_Ok by by apply id_valid_length.
Qed.

Lemma set_contact_wf c r : runtime_wf r → runtime_wf (set_contact c r).
Proof. by intros []. Qed.
Lemma writeTargetRuntime_contact c r : writeTargetRuntime (set_contact c r) = writeTargetRuntime r.
Proof. done. Qed.

(** ** Properties *)

(** A well-formed delivery record round-trips through its encoding, no
    strict prefix of the encoding decodes, and the encoder refuses nothing
    well formed. *)
Theorem delivery_record_roundtrip r (Hr : delivery_wf r) :
  ∃ bs, encodeDeliveryRecord r = Ok bs ∧ decodeDeliveryRecord bs = Ok r
    ∧ ∀ n b, (n < length bs)%nat → decodeDeliveryRecord (take n bs) ≠ Ok b.
Proof.
  destruct (encode_Ok writeDeliveryRecord readDeliveryRecord delivery_wf r Hr) as [bs Hbs].
  assert (decode_all readDeliveryRecord bs = Ok r) as Hd
    by by apply (decode_encode writeDeliveryRecord readDeliveryRecord delivery_wf).
  exists bs. rewrite encodeDeliveryRecord_wf by done. split; [done|]. split; [done|].
  intros n b Hn.
  by apply (decode_truncated writeDeliveryRecord readDeliveryRecord delivery_wf r).
Qed.

(** A delivery record accepted from any byte string is well formed - valid
    identifiers, a set generation, at most 64 events, bounded text - and its
    encoding is exactly that byte string. *)
Theorem delivery_record_canonical bs r (H : decodeDeliveryRecord bs = Ok r) :
  delivery_wf r ∧ encodeDeliveryRecord r = Ok bs.
Proof.
  apply (decode_canonical writeDeliveryRecord readDeliveryRecord delivery_wf) in H as [Hr Hw].
  split; [done|]. by rewrite encodeDeliveryRecord_wf.
Qed.

(** Decoding a target runtime gives back everything that was written
    except the process-local contact evidence, which is always cleared: a
    restart never inherits a live session. *)
Theorem target_runtime_roundtrip r (Hr : runtime_wf r) :
  ∃ bs, encodeTargetRuntime r = Ok bs ∧ decodeTargetRuntime bs = Ok (set_contact false r).
Proof.
  pose proof (conj (set_contact_wf false r Hr) eq_refl : runtime_stored (set_contact false r)) as Hs.
  destruct (encode_Ok writeTargetRuntime readTargetRuntime runtime_stored _ Hs) as [bs Hbs].
  exists bs. rewrite encodeTargetRuntime_wf by done. split; [done|].
  by apply (decode_encode writeTargetRuntime readTargetRuntime runtime_stored).
Qed.

Definition example_event : LifecycleEvent :=
  mkLifecycleEvent EvidenceKind.OfferedToTarget DeliveryState.Prepared DeliveryState.Offered
    (fromValue 2) (fromBytes (repeat Byte.x05 32)) ErrorCode.Ok RetryDirective.DoNotRetry
    (fromValue 1) (mkOpaque (repeat Byte.x01 16)) (fromValue 4) (mkOpaque (repeat Byte.x02 16))
    false 1700000000000 "offered".

Definition example_delivery : DeliveryRecord :=
  mkDeliveryRecord (mkString "d1") (mkString "set-1") (mkString "") (mkString "target-1")
    (mkString "routing/bgp") (mkString "artifact-1") (fromValue 3) (fromValue 2)
    (fromBytes (repeat Byte.x05 32)) (mkString "schema/v1") (fromValue 1) 17
    GuaranteeRequirement.RequireAtomic ApplyGuarantee.AtomicActivate DeliveryState.Offered
    (fromValue 1) 0 ErrorCode.Ok RetryDirective.DoNotRetry "" [example_event] (fromValue 1)
    (mkOpaque (repeat Byte.x01 16)) (fromValue 4) (mkOpaque (repeat Byte.x02 16)) false false
    1700000000000 1700000000000.

(** A closed goal [fits w v] or [text_fits n s], by evaluation. *)
Ltac solve_range_closed := split; vm_compute; first [reflexivity | discriminate].

Lemma example_event_wf : event_wf example_event.
Proof. split; first [reflexivity | solve_range_closed]. Qed.

Lemma example_delivery_wf : delivery_wf example_delivery.
Proof.
  split; try first [reflexivity | left; reflexivity | solve_range_closed].
  split; [vm_compute; discriminate|]. apply Forall_cons_iff. split; [apply example_event_wf|constructor].
Qed.

Lemma delivery_record_roundtrip_witness :
  ∃ bs, encodeDeliveryRecord example_delivery = Ok bs
        ∧ decodeDeliveryRecord bs = Ok example_delivery.
Proof.
  destruct (delivery_record_roundtrip example_delivery example_delivery_wf) as (bs & H1 & H2 & _).
  exists bs. split; [exact H1|exact H2].
Defined.

Lemma delivery_record_canonical_witness : delivery_wf example_delivery.
Proof.
  destruct (encodeDeliveryRecord example_delivery) as [bs|e|w] eqn:E; [|discriminate E..].
  refine (proj1 (delivery_record_canonical bs example_delivery _)).
  injection E as <-. vm_compute. reflexivity.
Defined.

Definition example_runtime : TargetRuntime :=
  mkTargetRuntime (mkString "target-1") TargetClass.NetworkDevice ApplyGuarantee.AtomicActivate
    (fromValue 4) (mkOpaque (repeat Byte.x02 16)) (fromValue 1) (fromBytes (repeat Byte.x05 32))
    (mkString "") 1700000000000 true 3 0 false (mkString "") num_unset digest_unset "host:8080".

Lemma example_runtime_wf : runtime_wf example_runtime.
Proof.
  split; try first [reflexivity | left; reflexivity | solve_range_closed].
  split; [solve_range_closed|]. right. eexists. vm_compute. reflexivity.
Qed.

Lemma target_runtime_roundtrip_witness :
  ∃ bs, encodeTargetRuntime example_runtime = Ok bs
        ∧ decodeTargetRuntime bs = Ok (set_contact false example_runtime).
Proof. apply (target_runtime_roundtrip example_runtime), example_runtime_wf. Defined.
