(* ===== verification/Messages.v ===== *)
(** * Protocol messages

    Models the messages of include/cf/protocol.hpp and their codecs in
    src/protocol.cpp. Per message: its record, the bytes the encoder writes and
    the fields the decoder reads ([write_x], [read_x]), the checks the decoder
    makes after the last field ([check_x]), and encodeX and decodeX themselves.
    Every pair is an instance of [Codec]: what a valid message encodes to is
    decoded to it, and what is accepted is valid and is the encoding of the
    result. *)

From Stdlib Require Import Strings.Byte.
From S2P Require Import Prelude Result Hash Ids Codec Lifecycle Journal Artifact Records Frame.

Definition kAuthTagBytes : nat := kSha256Bytes.
Definition kMaxMessageDetailBytes : Z := 256.
Definition kMaxTransfersInReport : Z := 64.
Definition kMaxFindingsInReport : Z := 64.
Definition kMaxChunkPayloadBytes : Z := kAbsoluteMaxPayloadBytes / 2.
Definition kMaxControlCommandBytes : Z := 32.
Definition kMaxControlArguments : Z := 16.
Definition kMaxControlArgumentBytes : Z := 512.
Definition kMaxControlBodyBytes : Z := 512 * 1024.

(** ** Capabilities *)

Definition kCapabilityAtomicApply : Z := Z.shiftl 1 0.
Definition kCapabilityPrepareCommit : Z := Z.shiftl 1 1.
Definition kCapabilityReconcile : Z := Z.shiftl 1 2.
Definition kCapabilityResumeTransfer : Z := Z.shiftl 1 3.
Definition kCapabilityRetire : Z := Z.shiftl 1 4.
Definition kCapabilityKnownMask : Z := 0x1F.

Definition has_capability (capabilities bit : Z) : bool := negb (Z.land capabilities bit =? 0).
Definition unknown_capabilities (capabilities : Z) : bool :=
  has_capability capabilities (Z.lnot kCapabilityKnownMask).

Definition capabilitiesFor (guarantee : ApplyGuarantee) : Z :=
  let capabilities :=
    Z.lor (Z.lor kCapabilityReconcile kCapabilityResumeTransfer) kCapabilityRetire in
  match guarantee with
  | ApplyGuarantee.AtomicActivate => Z.lor capabilities kCapabilityAtomicApply
  | ApplyGuarantee.PrepareCommitAbort => Z.lor capabilities kCapabilityPrepareCommit
  end.
Definition capabilitySupportsGuarantee (capabilities : Z) (guarantee : ApplyGuarantee) : bool :=
  match guarantee with
  | ApplyGuarantee.AtomicActivate => has_capability capabilities kCapabilityAtomicApply
  | ApplyGuarantee.PrepareCommitAbort => has_capability capabilities kCapabilityPrepareCommit
  end.
Definition renderCapabilities (capabilities : Z) : string :=
  let append (bit : Z) (name out : string) :=
    if has_capability capabilities bit
    then (if decide (out = "") then "" else out +:+ ",") +:+ name else out in
  let out := append kCapabilityAtomicApply "atomic-apply" "" in
  let out := append kCapabilityPrepareCommit "prepare-commit-abort" out in
  let out := append kCapabilityReconcile "reconcile" out in
  let out := append kCapabilityResumeTransfer "resume-transfer" out in
  let out := append kCapabilityRetire "retire" out in
  if decide (out = "") then "none" else out.

(** ** The contract of a message codec *)

Class Codec {M} (encode : M → Result (list byte)) (decode : list byte → Result M)
    (ok : M → Prop) := {
  codec_complete : ∀ m, ok m → ∃ bs, encode m = Ok bs ∧ decode bs = Ok m;
  codec_sound : ∀ bs m, decode bs = Ok m → ok m ∧ encode m = Ok bs;
}.

Section codec.
Context {M} (w : M → Writer) (p : Parser M) (wf : M → Prop) `{!Wire w p wf}.

Lemma codec_checked (check : M → Status) encode decode :
  (∀ m, wf m → check m = Ok tt → encode m = w m) →
  (∀ bs, decode bs = let* m := decode_all p bs in do* check m in Ok m) →
  Codec encode decode (λ m, wf m ∧ check m = Ok tt).
Proof using Type*.
  intros Hw Hd. split.
  - intros m [Hm Hc]. destruct (encode_Ok w p wf m Hm) as [bs Hbs].
    exists bs. rewrite Hw, Hd, (decode_encode w p wf m bs) by done. simpl. by rewrite Hc.
  - intros bs m. rewrite Hd. intros (m' & Hdec & ([] & Hc & [= ->])%try_bind_Ok)%try_bind_Ok.
    apply (decode_canonical w p wf) in Hdec as [Hm Hbs]. by rewrite Hw.
Qed.

Lemma codec_plain encode decode :
  (∀ m, wf m → encode m = w m) → (∀ bs, decode bs = decode_all p bs) → Codec encode decode wf.
Proof using Type*.
  intros Hw Hd. split.
  - intros m Hm. destruct (encode_Ok w p wf m Hm) as [bs Hbs].
    exists bs. by rewrite Hw, Hd, (decode_encode w p wf m bs).
  - intros bs m. rewrite Hd. intros Hdec.
    apply (decode_canonical w p wf) in Hdec as [Hm Hbs]. by rewrite Hw.
Qed.

(** The writer may differ outside the well-formed values. *)
Lemma wire_ext (w' : M → Writer) : (∀ m, wf m → w' m = w m) → Wire w' p wf.
Proof using Type*.
  intros Hw. split.
  - intros m Hm. rewrite Hw by done. by apply wire_complete.
  - intros r m r' H. apply wire_sound in H as [Hm He]. by rewrite Hw.
Qed.
End codec.

(** A record whose reader mirrors its writer. *)
Ltac wire_record w p :=
  split;
  [intros [] []; unfold w, p; simpl in *; repeat reads_step
  |intros r a r' H; unfold p in H; inv_wire; split; [by constructor|]; unfold w; simpl; solve_emits].

(** ** Field readers *)

Definition unknown_enumerator (v : Z) : Error :=
  mkError ErrorCode.MalformedInput "message carries an unknown enumerator" (to_string v).
Definition readDeliveryState : Parser DeliveryState := read_enum8_or state_in_range unknown_enumerator.
Definition readTargetClass : Parser TargetClass := read_enum8_or klass_in_range unknown_enumerator.
Definition readApplyGuarantee : Parser ApplyGuarantee :=
  read_enum8_or guarantee_in_range unknown_enumerator.
Definition readGuaranteeRequirement : Parser GuaranteeRequirement :=
  read_enum8_or requirement_in_range unknown_enumerator.
Definition readRetryDirective : Parser RetryDirective :=
  read_enum8_or directive_in_range unknown_enumerator.
Definition readErrorCode : Parser ErrorCode :=
  read_code_or (λ v, mkError ErrorCode.MalformedInput "message carries an unknown error code"
                       (to_string v)).

#[global] Instance readDeliveryState_wire : Wire write_enum8 readDeliveryState (λ _, True) :=
  enum8_or_wire _.
#[global] Instance readTargetClass_wire : Wire write_enum8 readTargetClass (λ _, True) :=
  enum8_or_wire _.
#[global] Instance readApplyGuarantee_wire : Wire write_enum8 readApplyGuarantee (λ _, True) :=
  enum8_or_wire _.
#[global] Instance readGuaranteeRequirement_wire :
  Wire write_enum8 readGuaranteeRequirement (λ _, True) := enum8_or_wire _.
#[global] Instance readRetryDirective_wire : Wire write_enum8 readRetryDirective (λ _, True) :=
  enum8_or_wire _.
#[global] Instance readErrorCode_wire : Wire write_code readErrorCode (λ _, True) :=
  code_or_wire _.

Definition num64 {Tag} (n : StrongUint Tag) : Prop := fits 64 (value n).
Definition num32 {Tag} (n : StrongUint Tag) : Prop := fits 32 (value n).
Definition tag_wf (l : list byte) : Prop := length l = kSha256Bytes.
#[global] Instance num64_wire Tag : Wire Write.num Read.num (num64 (Tag := Tag)) := num_wire Tag.
#[global] Instance tag_wire : Wire Write.sha256 Read.sha256 tag_wf := sha256_wire.

(** A 32-bit strong integer. *)
Definition write_num32 {Tag} (n : StrongUint Tag) : Writer := Write.u32 (value n).
Definition read_num32 {Tag} : Parser (StrongUint Tag) := let! v := Read.u32 in p_ret (fromValue v).
#[global] Instance num32_wire Tag : Wire write_num32 read_num32 (num32 (Tag := Tag)).
Proof.
  apply (wire_map Write.u32 Read.u32 (fits 32) fromValue value);
    [apply _|by intros []|by intros ?].
Qed.

(** A generation that must be set. *)
Definition readGeneration : Parser Generation :=
  let! raw := Read.u64 in
  do! p_require (negb (raw =? 0)) ErrorCode.MalformedInput
        "message carries the unset generation 0" in
  p_ret (fromValue raw).
Definition generation_ok (g : Generation) : Prop := num64 g ∧ num_isSet g = true.
#[global] Instance readGeneration_wire : Wire Write.num readGeneration generation_ok.
Proof.
  split.
  - intros [v] [Hv Hs]. unfold readGeneration, Write.num. cbn [value].
    eapply reads_last; [by apply (wire_complete (p := Read.u64))|].
    eapply reads_pure; [by apply reads_check|]. apply reads_ret.
  - intros r g r' Hr. unfold readGeneration in Hr. inv_parse.
    by apply (wire_sound (p := Read.u64)) in H as [Hv He].
Qed.

Definition writeDetail (detail : string) : Writer := Write.string kMaxMessageDetailBytes detail.
Definition readDetail : Parser string := Read.string kMaxMessageDetailBytes.
#[global] Instance detail_wire :
  Wire writeDetail readDetail (text_fits kMaxMessageDetailBytes) := string_wire _.
Definition checkDetail (detail : string) : Status :=
  if slen detail >? kMaxMessageDetailBytes
  then fail_detail ErrorCode.LimitExceeded "message detail exceeds its bound"
         (to_string (slen detail))
  else Ok tt.
Lemma checkDetail_fits detail : text_fits kMaxMessageDetailBytes detail → checkDetail detail = Ok tt.
Proof.
  intros [Hd _]. unfold checkDetail.
  by destruct (Z.gtb_spec (slen detail) kMaxMessageDetailBytes); [lia|].
Qed.

(** The bytes of a chunk travel as a string. *)
Definition write_data (data : list byte) : Writer :=
  Write.string kMaxChunkPayloadBytes (string_of_bytes data).
Definition read_data : Parser (list byte) :=
  let! data := Read.string kMaxChunkPayloadBytes in p_ret (bytes_of_string data).
Definition data_ok (data : list byte) : Prop := zlen data <= kAbsoluteMaxFieldBytes.
Lemma data_text data :
  data_ok data ↔ text_fits kMaxChunkPayloadBytes (string_of_bytes data).
Proof.
  unfold data_ok, text_fits. rewrite slen_string_of_bytes.
  change kMaxChunkPayloadBytes with 8388608. change kAbsoluteMaxFieldBytes with 1048576. lia.
Qed.
#[global] Instance data_wire : Wire write_data read_data data_ok.
Proof.
  apply (wire_map (Write.string kMaxChunkPayloadBytes) (Read.string kMaxChunkPayloadBytes)
           (text_fits kMaxChunkPayloadBytes) bytes_of_string string_of_bytes); [apply _|..].
  - intros data Hd. rewrite bytes_of_string_of_bytes. by rewrite <- data_text.
  - intros text Ht. rewrite data_text. by rewrite string_of_bytes_of_string.
Qed.

(** The command must not be empty; the check comes before the next field. *)
Definition read_command : Parser string :=
  let! command := Read.string kMaxControlCommandBytes in
  do! p_require (negb (bool_decide (command = ""))) ErrorCode.MissingField
        "control request has no command" in
  p_ret command.
Definition command_ok (text : string) : Prop :=
  text_fits kMaxControlCommandBytes text ∧ text ≠ "".
#[global] Instance command_wire : Wire (Write.string kMaxControlCommandBytes) read_command command_ok.
Proof.
  split.
  - intros text [Ht Hne]. unfold read_command. eapply reads_last.
    + by apply (wire_complete (p := Read.string _)).
    + eapply reads_pure; [apply reads_check; by rewrite bool_decide_eq_false_2|]. apply reads_ret.
  - intros r text r' Hr. unfold read_command in Hr. inv_parse.
    apply (wire_sound (p := Read.string _)) in H as [Ht He].
    match goal with H : negb _ = true |- _ => apply negb_true_iff, bool_decide_eq_false in H end.
    by split.
Qed.

(** Discharge the two equations of [codec_plain] and [codec_checked]: the
    encoder's own checks follow from the well-formedness of the fields. *)
Lemma gtb_le_false a b : a <= b → (a >? b) = false.
Proof. intros H. destruct (Z.gtb_spec a b); [lia|done]. Qed.
Ltac codec_encoder :=
  try (intros bs; reflexivity);
  intros m Hm; intros; destruct Hm;
  lazymatch goal with
  | |- ?e _ = _ => unfold e
  end;
  unfold text_fits, command_ok in *; destruct_and?;
  rewrite ?checkDetail_fits by (by split);
  rewrite ?gtb_le_false by first [eassumption | lia];
  rewrite ?bool_decide_eq_false_2 by assumption;
  first
    [ reflexivity
    | lazymatch goal with H : ?check _ = Ok tt |- _ => unfold check in H end;
      case_match; [discriminate|reflexivity] ].

(** ** Session establishment *)

Record HelloMessage := mkHelloMessage {
  he_nodeId : NodeId;
  he_epoch : Epoch;
  he_incarnation : IncarnationId;
  he_nonce : SessionNonce;
  he_minWireVersion : Z;
  he_maxWireVersion : Z;
  he_maxPayloadBytes : Z;
  he_capabilities : Z;
  he_authTag : list byte;
}.
Definition write_hello (m : HelloMessage) : Writer :=
  write_id (he_nodeId m)
    +++ Write.num (he_epoch m)
    +++ write_opaque (he_incarnation m)
    +++ write_opaque (he_nonce m)
    +++ Write.u16 (he_minWireVersion m)
    +++ Write.u16 (he_maxWireVersion m)
    +++ Write.u32 (he_maxPayloadBytes m)
    +++ Write.u32 (he_capabilities m)
    +++ Write.sha256 (he_authTag m).
Definition read_hello : Parser HelloMessage :=
  let! nodeId := read_id "node id" in
  let! epoch := Read.num in
  let! incarnation := read_opaque in
  let! nonce := read_opaque in
  let! minWireVersion := Read.u16 in
  let! maxWireVersion := Read.u16 in
  let! maxPayloadBytes := Read.u32 in
  let! capabilities := Read.u32 in
  let! authTag := Read.sha256 in
  p_ret (mkHelloMessage nodeId epoch incarnation nonce minWireVersion maxWireVersion
           maxPayloadBytes capabilities authTag).
Record hello_wf (m : HelloMessage) : Prop := {
  hew_nodeId : id_valid (he_nodeId m);
  hew_epoch : num64 (he_epoch m);
  hew_incarnation : opaque_wf (he_incarnation m);
  hew_nonce : opaque_wf (he_nonce m);
  hew_minWireVersion : fits 16 (he_minWireVersion m);
  hew_maxWireVersion : fits 16 (he_maxWireVersion m);
  hew_maxPayloadBytes : fits 32 (he_maxPayloadBytes m);
  hew_capabilities : fits 32 (he_capabilities m);
  hew_authTag : tag_wf (he_authTag m);
}.
#[global] Instance hello_wire : Wire write_hello read_hello hello_wf.
Proof. wire_record write_hello read_hello. Qed.
#[global] Arguments write_hello : simpl never.
Definition check_hello (m : HelloMessage) : Status :=
  if he_minWireVersion m >? he_maxWireVersion m
  then fail ErrorCode.ProtocolViolation "hello advertises an inverted version range"
  else if unknown_capabilities (he_capabilities m)
  then fail ErrorCode.CapabilityMismatch "hello advertises unknown capability bits"
  else if (he_maxPayloadBytes m =? 0) || (he_maxPayloadBytes m >? kAbsoluteMaxPayloadBytes)
  then fail ErrorCode.OversizePayload "hello advertises an out-of-range payload ceiling"
  else Ok tt.
Definition encodeHello (m : HelloMessage) : Result (list byte) :=
  if he_minWireVersion m >? he_maxWireVersion m
  then fail ErrorCode.InvalidArgument "hello version range is inverted"
  else write_hello m.
Definition decodeHello (payload : list byte) : Result HelloMessage :=
  let* m := decode_all read_hello payload in do* check_hello m in Ok m.
#[global] Instance hello_codec :
  Codec encodeHello decodeHello (λ m, hello_wf m ∧ check_hello m = Ok tt).
Proof. apply (codec_checked write_hello read_hello hello_wf check_hello); codec_encoder. Qed.

Record HelloAckMessage := mkHelloAckMessage {
  ha_wireVersion : Z;
  ha_target : TargetId;
  ha_targetClass : TargetClass;
  ha_guarantee : ApplyGuarantee;
  ha_term : Term;
  ha_incarnation : IncarnationId;
  ha_nonce : SessionNonce;
  ha_maxPayloadBytes : Z;
  ha_capabilities : Z;
  ha_committedGeneration : Generation;
  ha_committedDigest : Digest;
  ha_committedArtifact : ArtifactId;
  ha_restartCount : Z;
  ha_authTag : list byte;
}.
Definition write_hello_ack (m : HelloAckMessage) : Writer :=
  Write.u16 (ha_wireVersion m)
    +++ write_id (ha_target m)
    +++ write_enum8 (ha_targetClass m)
    +++ write_enum8 (ha_guarantee m)
    +++ Write.num (ha_term m)
    +++ write_opaque (ha_incarnation m)
    +++ write_opaque (ha_nonce m)
    +++ Write.u32 (ha_maxPayloadBytes m)
    +++ Write.u32 (ha_capabilities m)
    +++ Write.num (ha_committedGeneration m)
    +++ Write.digest (ha_committedDigest m)
    +++ write_id (ha_committedArtifact m)
    +++ Write.u32 (ha_restartCount m)
    +++ Write.sha256 (ha_authTag m).
Definition read_hello_ack : Parser HelloAckMessage :=
  let! wireVersion := Read.u16 in
  let! target := read_id "target id" in
  let! targetClass := readTargetClass in
  let! guarantee := readApplyGuarantee in
  let! term := Read.num in
  let! incarnation := read_opaque in
  let! nonce := read_opaque in
  let! maxPayloadBytes := Read.u32 in
  let! capabilities := Read.u32 in
  let! committedGeneration := Read.num in
  let! committedDigest := Read.digest in
  let! committedArtifact := read_optional_id "artifact id" in
  let! restartCount := Read.u32 in
  let! authTag := Read.sha256 in
  p_ret (mkHelloAckMessage wireVersion target targetClass guarantee term incarnation nonce
           maxPayloadBytes capabilities committedGeneration committedDigest committedArtifact
           restartCount authTag).
Record hello_ack_wf (m : HelloAckMessage) : Prop := {
  haw_wireVersion : fits 16 (ha_wireVersion m);
  haw_target : id_valid (ha_target m);
  haw_term : num64 (ha_term m);
  haw_incarnation : opaque_wf (ha_incarnation m);
  haw_nonce : opaque_wf (ha_nonce m);
  haw_maxPayloadBytes : fits 32 (ha_maxPayloadBytes m);
  haw_capabilities : fits 32 (ha_capabilities m);
  haw_committedGeneration : num64 (ha_committedGeneration m);
  haw_committedDigest : digest_wf (ha_committedDigest m);
  haw_committedArtifact : id_optional (ha_committedArtifact m);
  haw_restartCount : fits 32 (ha_restartCount m);
  haw_authTag : tag_wf (ha_authTag m);
}.
#[global] Instance hello_ack_wire : Wire write_hello_ack read_hello_ack hello_ack_wf.
Proof. wire_record write_hello_ack read_hello_ack. Qed.
#[global] Arguments write_hello_ack : simpl never.
Definition check_hello_ack (m : HelloAckMessage) : Status :=
  if negb (ha_wireVersion m =? kWireVersion)
  then fail_detail ErrorCode.UnsupportedVersion
        "hello-ack negotiated an unsupported wire version" (to_string (ha_wireVersion m))
  else if negb (num_isSet (ha_term m))
  then fail ErrorCode.ProtocolViolation "hello-ack carries the unset term 0"
  else if (ha_maxPayloadBytes m =? 0) || (ha_maxPayloadBytes m >? kAbsoluteMaxPayloadBytes)
  then fail ErrorCode.OversizePayload "hello-ack advertises an out-of-range payload ceiling"
  else if unknown_capabilities (ha_capabilities m)
  then fail ErrorCode.CapabilityMismatch "hello-ack advertises unknown capability bits"
  else if negb (capabilitySupportsGuarantee (ha_capabilities m) (ha_guarantee m))
  then fail ErrorCode.CapabilityMismatch
        "hello-ack advertises a guarantee its capability bits do not support"
  else Ok tt.
Definition encodeHelloAck (m : HelloAckMessage) : Result (list byte) :=
  write_hello_ack m.
Definition decodeHelloAck (payload : list byte) : Result HelloAckMessage :=
  let* m := decode_all read_hello_ack payload in do* check_hello_ack m in Ok m.
#[global] Instance hello_ack_codec :
  Codec encodeHelloAck decodeHelloAck (λ m, hello_ack_wf m ∧ check_hello_ack m = Ok tt).
Proof.
  apply (codec_checked write_hello_ack read_hello_ack hello_ack_wf check_hello_ack);
    codec_encoder.
Qed.

Record HelloConfirmMessage := mkHelloConfirmMessage {
  hc_authTag : list byte;
}.
Definition write_hello_confirm (m : HelloConfirmMessage) : Writer :=
  Write.sha256 (hc_authTag m).
Definition read_hello_confirm : Parser HelloConfirmMessage :=
  let! authTag := Read.sha256 in
  p_ret (mkHelloConfirmMessage authTag).
Record hello_confirm_wf (m : HelloConfirmMessage) : Prop := {
  hcw_authTag : tag_wf (hc_authTag m);
}.
#[global] Instance hello_confirm_wire :
  Wire write_hello_confirm read_hello_confirm hello_confirm_wf.
Proof. wire_record write_hello_confirm read_hello_confirm. Qed.
#[global] Arguments write_hello_confirm : simpl never.
Definition encodeHelloConfirm (m : HelloConfirmMessage) : Result (list byte) :=
  write_hello_confirm m.
Definition decodeHelloConfirm (payload : list byte) : Result HelloConfirmMessage :=
  decode_all read_hello_confirm payload.
#[global] Instance hello_confirm_codec :
  Codec encodeHelloConfirm decodeHelloConfirm hello_confirm_wf.
Proof.
  apply (codec_plain write_hello_confirm read_hello_confirm hello_confirm_wf);
    codec_encoder.
Qed.

Record AuthRejectMessage := mkAuthRejectMessage {
  ar_code : ErrorCode;
  ar_detail : string;
}.
Definition write_auth_reject (m : AuthRejectMessage) : Writer :=
  write_code (ar_code m)
    +++ writeDetail (ar_detail m).
Definition read_auth_reject : Parser AuthRejectMessage :=
  let! code := readErrorCode in
  let! detail := readDetail in
  p_ret (mkAuthRejectMessage code detail).
Record auth_reject_wf (m : AuthRejectMessage) : Prop := {
  arw_detail : text_fits kMaxMessageDetailBytes (ar_detail m);
}.
#[global] Instance auth_reject_wire : Wire write_auth_reject read_auth_reject auth_reject_wf.
Proof. wire_record write_auth_reject read_auth_reject. Qed.
#[global] Arguments write_auth_reject : simpl never.
Definition encodeAuthReject (m : AuthRejectMessage) : Result (list byte) :=
  do* checkDetail (ar_detail m) in write_auth_reject m.
Definition decodeAuthReject (payload : list byte) : Result AuthRejectMessage :=
  decode_all read_auth_reject payload.
#[global] Instance auth_reject_codec : Codec encodeAuthReject decodeAuthReject auth_reject_wf.
Proof. apply (codec_plain write_auth_reject read_auth_reject auth_reject_wf); codec_encoder. Qed.

(** ** Delivery *)

Record PrepareMessage := mkPrepareMessage {
  pr_deployment : DeploymentId;
  pr_key : ConfigKey;
  pr_artifact : ArtifactId;
  pr_generation : Generation;
  pr_digest : Digest;
  pr_sizeBytes : Z;
  pr_schema : SchemaId;
  pr_schemaVersion : SchemaVersion;
  pr_requirement : GuaranteeRequirement;
  pr_guarantee : ApplyGuarantee;
  pr_authorityEpoch : Epoch;
  pr_attempt : AttemptId;
  pr_stream : StreamId;
  pr_chunkBytes : Z;
  pr_resumeFromOffset : Z;
}.
Definition write_prepare (m : PrepareMessage) : Writer :=
  write_id (pr_deployment m)
    +++ write_id (pr_key m)
    +++ write_id (pr_artifact m)
    +++ Write.num (pr_generation m)
    +++ Write.digest (pr_digest m)
    +++ Write.u64 (pr_sizeBytes m)
    +++ write_id (pr_schema m)
    +++ write_num32 (pr_schemaVersion m)
    +++ write_enum8 (pr_requirement m)
    +++ write_enum8 (pr_guarantee m)
    +++ Write.num (pr_authorityEpoch m)
    +++ Write.num (pr_attempt m)
    +++ Write.num (pr_stream m)
    +++ Write.u32 (pr_chunkBytes m)
    +++ Write.u64 (pr_resumeFromOffset m).
Definition read_prepare : Parser PrepareMessage :=
  let! deployment := read_id "deployment id" in
  let! key := read_id "config key" in
  let! artifact := read_id "artifact id" in
  let! generation := readGeneration in
  let! digest := Read.digest in
  let! sizeBytes := Read.u64 in
  let! schema := read_id "schema id" in
  let! schemaVersion := read_num32 in
  let! requirement := readGuaranteeRequirement in
  let! guarantee := readApplyGuarantee in
  let! authorityEpoch := Read.num in
  let! attempt := Read.num in
  let! stream := Read.num in
  let! chunkBytes := Read.u32 in
  let! resumeFromOffset := Read.u64 in
  p_ret (mkPrepareMessage deployment key artifact generation digest sizeBytes schema
           schemaVersion requirement guarantee authorityEpoch attempt stream chunkBytes
           resumeFromOffset).
Record prepare_wf (m : PrepareMessage) : Prop := {
  prw_deployment : id_valid (pr_deployment m);
  prw_key : id_valid (pr_key m);
  prw_artifact : id_valid (pr_artifact m);
  prw_generation : generation_ok (pr_generation m);
  prw_digest : digest_wf (pr_digest m);
  prw_sizeBytes : fits 64 (pr_sizeBytes m);
  prw_schema : id_valid (pr_schema m);
  prw_schemaVersion : num32 (pr_schemaVersion m);
  prw_authorityEpoch : num64 (pr_authorityEpoch m);
  prw_attempt : num64 (pr_attempt m);
  prw_stream : num64 (pr_stream m);
  prw_chunkBytes : fits 32 (pr_chunkBytes m);
  prw_resumeFromOffset : fits 64 (pr_resumeFromOffset m);
}.
#[global] Instance prepare_wire : Wire write_prepare read_prepare prepare_wf.
Proof. wire_record write_prepare read_prepare. Qed.
#[global] Arguments write_prepare : simpl never.
Definition check_prepare (m : PrepareMessage) : Status :=
  if negb (digest_isSet (pr_digest m))
  then fail ErrorCode.MalformedInput "prepare carries the all-zero digest"
  else if pr_sizeBytes m =? 0
  then fail ErrorCode.MalformedInput "prepare declares an empty artifact"
  else if (pr_chunkBytes m =? 0) || (pr_chunkBytes m >? kMaxChunkPayloadBytes)
  then fail ErrorCode.OversizePayload "prepare declares an out-of-range chunk size"
  else if negb (num_isSet (pr_stream m))
  then fail ErrorCode.MalformedInput "prepare carries the unset stream id 0"
  else if negb (num_isSet (pr_authorityEpoch m))
  then fail ErrorCode.MalformedInput "prepare carries the unset authority epoch 0"
  else Ok tt.
Definition encodePrepare (m : PrepareMessage) : Result (list byte) :=
  write_prepare m.
Definition decodePrepare (payload : list byte) : Result PrepareMessage :=
  let* m := decode_all read_prepare payload in do* check_prepare m in Ok m.
#[global] Instance prepare_codec :
  Codec encodePrepare decodePrepare (λ m, prepare_wf m ∧ check_prepare m = Ok tt).
Proof.
  apply (codec_checked write_prepare read_prepare prepare_wf check_prepare);
    codec_encoder.
Qed.

Record PrepareAckMessage := mkPrepareAckMessage {
  pa_deployment : DeploymentId;
  pa_stream : StreamId;
  pa_resumeFromOffset : Z;
  pa_committedGeneration : Generation;
  pa_committedDigest : Digest;
  pa_duplicateSuppressed : bool;
  pa_priorState : DeliveryState;
  pa_priorGeneration : Generation;
  pa_priorDigest : Digest;
}.
Definition write_prepare_ack (m : PrepareAckMessage) : Writer :=
  write_id (pa_deployment m)
    +++ Write.num (pa_stream m)
    +++ Write.u64 (pa_resumeFromOffset m)
    +++ Write.num (pa_committedGeneration m)
    +++ Write.digest (pa_committedDigest m)
    +++ Write.boolean (pa_duplicateSuppressed m)
    +++ write_enum8 (pa_priorState m)
    +++ Write.num (pa_priorGeneration m)
    +++ Write.digest (pa_priorDigest m).
Definition read_prepare_ack : Parser PrepareAckMessage :=
  let! deployment := read_id "deployment id" in
  let! stream := Read.num in
  let! resumeFromOffset := Read.u64 in
  let! committedGeneration := Read.num in
  let! committedDigest := Read.digest in
  let! duplicateSuppressed := Read.boolean in
  let! priorState := readDeliveryState in
  let! priorGeneration := Read.num in
  let! priorDigest := Read.digest in
  p_ret (mkPrepareAckMessage deployment stream resumeFromOffset committedGeneration
           committedDigest duplicateSuppressed priorState priorGeneration priorDigest).
Record prepare_ack_wf (m : PrepareAckMessage) : Prop := {
  paw_deployment : id_valid (pa_deployment m);
  paw_stream : num64 (pa_stream m);
  paw_resumeFromOffset : fits 64 (pa_resumeFromOffset m);
  paw_committedGeneration : num64 (pa_committedGeneration m);
  paw_committedDigest : digest_wf (pa_committedDigest m);
  paw_priorGeneration : num64 (pa_priorGeneration m);
  paw_priorDigest : digest_wf (pa_priorDigest m);
}.
#[global] Instance prepare_ack_wire : Wire write_prepare_ack read_prepare_ack prepare_ack_wf.
Proof. wire_record write_prepare_ack read_prepare_ack. Qed.
#[global] Arguments write_prepare_ack : simpl never.
Definition encodePrepareAck (m : PrepareAckMessage) : Result (list byte) :=
  write_prepare_ack m.
Definition decodePrepareAck (payload : list byte) : Result PrepareAckMessage :=
  decode_all read_prepare_ack payload.
#[global] Instance prepare_ack_codec : Codec encodePrepareAck decodePrepareAck prepare_ack_wf.
Proof. apply (codec_plain write_prepare_ack read_prepare_ack prepare_ack_wf); codec_encoder. Qed.

Record PrepareRejectMessage := mkPrepareRejectMessage {
  pj_deployment : DeploymentId;
  pj_code : ErrorCode;
  pj_detail : string;
  pj_observedState : DeliveryState;
  pj_committedGeneration : Generation;
}.
Definition write_prepare_reject (m : PrepareRejectMessage) : Writer :=
  write_id (pj_deployment m)
    +++ write_code (pj_code m)
    +++ writeDetail (pj_detail m)
    +++ write_enum8 (pj_observedState m)
    +++ Write.num (pj_committedGeneration m).
Definition read_prepare_reject : Parser PrepareRejectMessage :=
  let! deployment := read_id "deployment id" in
  let! code := readErrorCode in
  let! detail := readDetail in
  let! observedState := readDeliveryState in
  let! committedGeneration := Read.num in
  p_ret (mkPrepareRejectMessage deployment code detail observedState committedGeneration).
Record prepare_reject_wf (m : PrepareRejectMessage) : Prop := {
  pjw_deployment : id_valid (pj_deployment m);
  pjw_detail : text_fits kMaxMessageDetailBytes (pj_detail m);
  pjw_committedGeneration : num64 (pj_committedGeneration m);
}.
#[global] Instance prepare_reject_wire :
  Wire write_prepare_reject read_prepare_reject prepare_reject_wf.
Proof. wire_record write_prepare_reject read_prepare_reject. Qed.
#[global] Arguments write_prepare_reject : simpl never.
Definition encodePrepareReject (m : PrepareRejectMessage) : Result (list byte) :=
  do* checkDetail (pj_detail m) in write_prepare_reject m.
Definition decodePrepareReject (payload : list byte) : Result PrepareRejectMessage :=
  decode_all read_prepare_reject payload.
#[global] Instance prepare_reject_codec :
  Codec encodePrepareReject decodePrepareReject prepare_reject_wf.
Proof.
  apply (codec_plain write_prepare_reject read_prepare_reject prepare_reject_wf);
    codec_encoder.
Qed.

Record ChunkMessage := mkChunkMessage {
  ck_stream : StreamId;
  ck_sequence : Sequence;
  ck_offset : Z;
  ck_data : list byte;
}.
Definition write_chunk (m : ChunkMessage) : Writer :=
  Write.num (ck_stream m)
    +++ Write.num (ck_sequence m)
    +++ Write.u64 (ck_offset m)
    +++ write_data (ck_data m).
Definition read_chunk : Parser ChunkMessage :=
  let! stream := Read.num in
  let! sequence := Read.num in
  let! offset := Read.u64 in
  let! data := read_data in
  p_ret (mkChunkMessage stream sequence offset data).
Record chunk_wf (m : ChunkMessage) : Prop := {
  ckw_stream : num64 (ck_stream m);
  ckw_sequence : num64 (ck_sequence m);
  ckw_offset : fits 64 (ck_offset m);
  ckw_data : data_ok (ck_data m);
}.
#[global] Instance chunk_wire : Wire write_chunk read_chunk chunk_wf.
Proof. wire_record write_chunk read_chunk. Qed.
#[global] Arguments write_chunk : simpl never.
Definition check_chunk (m : ChunkMessage) : Status :=
  if negb (num_isSet (ck_stream m))
  then fail ErrorCode.MalformedInput "chunk carries the unset stream id"
  else if bool_decide (ck_data m = [])
  then fail ErrorCode.MalformedInput "chunk carries no payload"
  else Ok tt.
Definition encodeChunk (m : ChunkMessage) : Result (list byte) :=
  if zlen (ck_data m) >? kMaxChunkPayloadBytes
  then fail_detail ErrorCode.OversizePayload
        "chunk payload exceeds the protocol maximum" (to_string (zlen (ck_data m)))
  else write_chunk m.
Definition decodeChunk (payload : list byte) : Result ChunkMessage :=
  let* m := decode_all read_chunk payload in do* check_chunk m in Ok m.
#[global] Instance chunk_codec :
  Codec encodeChunk decodeChunk (λ m, chunk_wf m ∧ check_chunk m = Ok tt).
Proof.
  apply (codec_checked write_chunk read_chunk chunk_wf check_chunk); [|done].
  intros m [] _. rename ckw_data0 into Hd. unfold encodeChunk, data_ok in *.
  rewrite gtb_le_false; [done|].
  change kMaxChunkPayloadBytes with 8388608. change kAbsoluteMaxFieldBytes with 1048576 in Hd. lia.
Qed.

Record ChunkAckMessage := mkChunkAckMessage {
  ca_stream : StreamId;
  ca_sequence : Sequence;
  ca_code : ErrorCode;
  ca_bytesReceived : Z;
  ca_detail : string;
}.
Definition write_chunk_ack (m : ChunkAckMessage) : Writer :=
  Write.num (ca_stream m)
    +++ Write.num (ca_sequence m)
    +++ write_code (ca_code m)
    +++ Write.u64 (ca_bytesReceived m)
    +++ writeDetail (ca_detail m).
Definition read_chunk_ack : Parser ChunkAckMessage :=
  let! stream := Read.num in
  let! sequence := Read.num in
  let! code := readErrorCode in
  let! bytesReceived := Read.u64 in
  let! detail := readDetail in
  p_ret (mkChunkAckMessage stream sequence code bytesReceived detail).
Record chunk_ack_wf (m : ChunkAckMessage) : Prop := {
  caw_stream : num64 (ca_stream m);
  caw_sequence : num64 (ca_sequence m);
  caw_bytesReceived : fits 64 (ca_bytesReceived m);
  caw_detail : text_fits kMaxMessageDetailBytes (ca_detail m);
}.
#[global] Instance chunk_ack_wire : Wire write_chunk_ack read_chunk_ack chunk_ack_wf.
Proof. wire_record write_chunk_ack read_chunk_ack. Qed.
#[global] Arguments write_chunk_ack : simpl never.
Definition encodeChunkAck (m : ChunkAckMessage) : Result (list byte) :=
  do* checkDetail (ca_detail m) in write_chunk_ack m.
Definition decodeChunkAck (payload : list byte) : Result ChunkAckMessage :=
  decode_all read_chunk_ack payload.
#[global] Instance chunk_ack_codec : Codec encodeChunkAck decodeChunkAck chunk_ack_wf.
Proof. apply (codec_plain write_chunk_ack read_chunk_ack chunk_ack_wf); codec_encoder. Qed.

Record TransferCompleteMessage := mkTransferCompleteMessage {
  xc_deployment : DeploymentId;
  xc_stream : StreamId;
  xc_digest : Digest;
  xc_sizeBytes : Z;
}.
Definition write_transfer_complete (m : TransferCompleteMessage) : Writer :=
  write_id (xc_deployment m)
    +++ Write.num (xc_stream m)
    +++ Write.digest (xc_digest m)
    +++ Write.u64 (xc_sizeBytes m).
Definition read_transfer_complete : Parser TransferCompleteMessage :=
  let! deployment := read_id "deployment id" in
  let! stream := Read.num in
  let! digest := Read.digest in
  let! sizeBytes := Read.u64 in
  p_ret (mkTransferCompleteMessage deployment stream digest sizeBytes).
Record transfer_complete_wf (m : TransferCompleteMessage) : Prop := {
  xcw_deployment : id_valid (xc_deployment m);
  xcw_stream : num64 (xc_stream m);
  xcw_digest : digest_wf (xc_digest m);
  xcw_sizeBytes : fits 64 (xc_sizeBytes m);
}.
#[global] Instance transfer_complete_wire :
  Wire write_transfer_complete read_transfer_complete transfer_complete_wf.
Proof. wire_record write_transfer_complete read_transfer_complete. Qed.
#[global] Arguments write_transfer_complete : simpl never.
Definition encodeTransferComplete (m : TransferCompleteMessage) : Result (list byte) :=
  write_transfer_complete m.
Definition decodeTransferComplete (payload : list byte) : Result TransferCompleteMessage :=
  decode_all read_transfer_complete payload.
#[global] Instance transfer_complete_codec :
  Codec encodeTransferComplete decodeTransferComplete transfer_complete_wf.
Proof.
  apply (codec_plain write_transfer_complete read_transfer_complete transfer_complete_wf);
    codec_encoder.
Qed.

Record TransferResultMessage := mkTransferResultMessage {
  xr_deployment : DeploymentId;
  xr_stream : StreamId;
  xr_verified : bool;
  xr_bytesReceived : Z;
  xr_code : ErrorCode;
  xr_detail : string;
}.
Definition write_transfer_result (m : TransferResultMessage) : Writer :=
  write_id (xr_deployment m)
    +++ Write.num (xr_stream m)
    +++ Write.boolean (xr_verified m)
    +++ Write.u64 (xr_bytesReceived m)
    +++ write_code (xr_code m)
    +++ writeDetail (xr_detail m).
Definition read_transfer_result : Parser TransferResultMessage :=
  let! deployment := read_id "deployment id" in
  let! stream := Read.num in
  let! verified := Read.boolean in
  let! bytesReceived := Read.u64 in
  let! code := readErrorCode in
  let! detail := readDetail in
  p_ret (mkTransferResultMessage deployment stream verified bytesReceived code detail).
Record transfer_result_wf (m : TransferResultMessage) : Prop := {
  xrw_deployment : id_valid (xr_deployment m);
  xrw_stream : num64 (xr_stream m);
  xrw_bytesReceived : fits 64 (xr_bytesReceived m);
  xrw_detail : text_fits kMaxMessageDetailBytes (xr_detail m);
}.
#[global] Instance transfer_result_wire :
  Wire write_transfer_result read_transfer_result transfer_result_wf.
Proof. wire_record write_transfer_result read_transfer_result. Qed.
#[global] Arguments write_transfer_result : simpl never.
Definition encodeTransferResult (m : TransferResultMessage) : Result (list byte) :=
  do* checkDetail (xr_detail m) in write_transfer_result m.
Definition decodeTransferResult (payload : list byte) : Result TransferResultMessage :=
  decode_all read_transfer_result payload.
#[global] Instance transfer_result_codec :
  Codec encodeTransferResult decodeTransferResult transfer_result_wf.
Proof.
  apply (codec_plain write_transfer_result read_transfer_result transfer_result_wf);
    codec_encoder.
Qed.

Record StageMessage := mkStageMessage {
  sg_deployment : DeploymentId;
  sg_stream : StreamId;
  sg_generation : Generation;
  sg_digest : Digest;
}.
Definition write_stage (m : StageMessage) : Writer :=
  write_id (sg_deployment m)
    +++ Write.num (sg_stream m)
    +++ Write.num (sg_generation m)
    +++ Write.digest (sg_digest m).
Definition read_stage : Parser StageMessage :=
  let! deployment := read_id "deployment id" in
  let! stream := Read.num in
  let! generation := readGeneration in
  let! digest := Read.digest in
  p_ret (mkStageMessage deployment stream generation digest).
Record stage_wf (m : StageMessage) : Prop := {
  sgw_deployment : id_valid (sg_deployment m);
  sgw_stream : num64 (sg_stream m);
  sgw_generation : generation_ok (sg_generation m);
  sgw_digest : digest_wf (sg_digest m);
}.
#[global] Instance stage_wire : Wire write_stage read_stage stage_wf.
Proof. wire_record write_stage read_stage. Qed.
#[global] Arguments write_stage : simpl never.
Definition encodeStage (m : StageMessage) : Result (list byte) :=
  write_stage m.
Definition decodeStage (payload : list byte) : Result StageMessage :=
  decode_all read_stage payload.
#[global] Instance stage_codec : Codec encodeStage decodeStage stage_wf.
Proof. apply (codec_plain write_stage read_stage stage_wf); codec_encoder. Qed.

Record StageAckMessage := mkStageAckMessage {
  sa_deployment : DeploymentId;
  sa_staged : bool;
  sa_code : ErrorCode;
  sa_detail : string;
}.
Definition write_stage_ack (m : StageAckMessage) : Writer :=
  write_id (sa_deployment m)
    +++ Write.boolean (sa_staged m)
    +++ write_code (sa_code m)
    +++ writeDetail (sa_detail m).
Definition read_stage_ack : Parser StageAckMessage :=
  let! deployment := read_id "deployment id" in
  let! staged := Read.boolean in
  let! code := readErrorCode in
  let! detail := readDetail in
  p_ret (mkStageAckMessage deployment staged code detail).
Record stage_ack_wf (m : StageAckMessage) : Prop := {
  saw_deployment : id_valid (sa_deployment m);
  saw_detail : text_fits kMaxMessageDetailBytes (sa_detail m);
}.
#[global] Instance stage_ack_wire : Wire write_stage_ack read_stage_ack stage_ack_wf.
Proof. wire_record write_stage_ack read_stage_ack. Qed.
#[global] Arguments write_stage_ack : simpl never.
Definition encodeStageAck (m : StageAckMessage) : Result (list byte) :=
  do* checkDetail (sa_detail m) in write_stage_ack m.
Definition decodeStageAck (payload : list byte) : Result StageAckMessage :=
  decode_all read_stage_ack payload.
#[global] Instance stage_ack_codec : Codec encodeStageAck decodeStageAck stage_ack_wf.
Proof. apply (codec_plain write_stage_ack read_stage_ack stage_ack_wf); codec_encoder. Qed.

Record ApplyPrepareMessage := mkApplyPrepareMessage {
  ap_deployment : DeploymentId;
  ap_generation : Generation;
  ap_digest : Digest;
}.
Definition write_apply_prepare (m : ApplyPrepareMessage) : Writer :=
  write_id (ap_deployment m)
    +++ Write.num (ap_generation m)
    +++ Write.digest (ap_digest m).
Definition read_apply_prepare : Parser ApplyPrepareMessage :=
  let! deployment := read_id "deployment id" in
  let! generation := readGeneration in
  let! digest := Read.digest in
  p_ret (mkApplyPrepareMessage deployment generation digest).
Record apply_prepare_wf (m : ApplyPrepareMessage) : Prop := {
  apw_deployment : id_valid (ap_deployment m);
  apw_generation : generation_ok (ap_generation m);
  apw_digest : digest_wf (ap_digest m);
}.
#[global] Instance apply_prepare_wire :
  Wire write_apply_prepare read_apply_prepare apply_prepare_wf.
Proof. wire_record write_apply_prepare read_apply_prepare. Qed.
#[global] Arguments write_apply_prepare : simpl never.
Definition encodeApplyPrepare (m : ApplyPrepareMessage) : Result (list byte) :=
  write_apply_prepare m.
Definition decodeApplyPrepare (payload : list byte) : Result ApplyPrepareMessage :=
  decode_all read_apply_prepare payload.
#[global] Instance apply_prepare_codec :
  Codec encodeApplyPrepare decodeApplyPrepare apply_prepare_wf.
Proof.
  apply (codec_plain write_apply_prepare read_apply_prepare apply_prepare_wf);
    codec_encoder.
Qed.

Record ApplyPrepareAckMessage := mkApplyPrepareAckMessage {
  apa_deployment : DeploymentId;
  apa_prepared : bool;
  apa_code : ErrorCode;
  apa_detail : string;
}.
Definition write_apply_prepare_ack (m : ApplyPrepareAckMessage) : Writer :=
  write_id (apa_deployment m)
    +++ Write.boolean (apa_prepared m)
    +++ write_code (apa_code m)
    +++ writeDetail (apa_detail m).
Definition read_apply_prepare_ack : Parser ApplyPrepareAckMessage :=
  let! deployment := read_id "deployment id" in
  let! prepared := Read.boolean in
  let! code := readErrorCode in
  let! detail := readDetail in
  p_ret (mkApplyPrepareAckMessage deployment prepared code detail).
Record apply_prepare_ack_wf (m : ApplyPrepareAckMessage) : Prop := {
  apaw_deployment : id_valid (apa_deployment m);
  apaw_detail : text_fits kMaxMessageDetailBytes (apa_detail m);
}.
#[global] Instance apply_prepare_ack_wire :
  Wire write_apply_prepare_ack read_apply_prepare_ack apply_prepare_ack_wf.
Proof. wire_record write_apply_prepare_ack read_apply_prepare_ack. Qed.
#[global] Arguments write_apply_prepare_ack : simpl never.
Definition encodeApplyPrepareAck (m : ApplyPrepareAckMessage) : Result (list byte) :=
  do* checkDetail (apa_detail m) in write_apply_prepare_ack m.
Definition decodeApplyPrepareAck (payload : list byte) : Result ApplyPrepareAckMessage :=
  decode_all read_apply_prepare_ack payload.
#[global] Instance apply_prepare_ack_codec :
  Codec encodeApplyPrepareAck decodeApplyPrepareAck apply_prepare_ack_wf.
Proof.
  apply (codec_plain write_apply_prepare_ack read_apply_prepare_ack apply_prepare_ack_wf);
    codec_encoder.
Qed.

Record ApplyCommitMessage := mkApplyCommitMessage {
  ac_deployment : DeploymentId;
  ac_generation : Generation;
  ac_digest : Digest;
}.
Definition write_apply_commit (m : ApplyCommitMessage) : Writer :=
  write_id (ac_deployment m)
    +++ Write.num (ac_generation m)
    +++ Write.digest (ac_digest m).
Definition read_apply_commit : Parser ApplyCommitMessage :=
  let! deployment := read_id "deployment id" in
  let! generation := readGeneration in
  let! digest := Read.digest in
  p_ret (mkApplyCommitMessage deployment generation digest).
Record apply_commit_wf (m : ApplyCommitMessage) : Prop := {
  acw_deployment : id_valid (ac_deployment m);
  acw_generation : generation_ok (ac_generation m);
  acw_digest : digest_wf (ac_digest m);
}.
#[global] Instance apply_commit_wire : Wire write_apply_commit read_apply_commit apply_commit_wf.
Proof. wire_record write_apply_commit read_apply_commit. Qed.
#[global] Arguments write_apply_commit : simpl never.
Definition encodeApplyCommit (m : ApplyCommitMessage) : Result (list byte) :=
  write_apply_commit m.
Definition decodeApplyCommit (payload : list byte) : Result ApplyCommitMessage :=
  decode_all read_apply_commit payload.
#[global] Instance apply_commit_codec : Codec encodeApplyCommit decodeApplyCommit apply_commit_wf.
Proof. apply (codec_plain write_apply_commit read_apply_commit apply_commit_wf); codec_encoder. Qed.

Record ApplyCommitAckMessage := mkApplyCommitAckMessage {
  aca_deployment : DeploymentId;
  aca_committed : bool;
  aca_state : DeliveryState;
  aca_committedGeneration : Generation;
  aca_committedDigest : Digest;
  aca_code : ErrorCode;
  aca_detail : string;
}.
Definition write_apply_commit_ack (m : ApplyCommitAckMessage) : Writer :=
  write_id (aca_deployment m)
    +++ Write.boolean (aca_committed m)
    +++ write_enum8 (aca_state m)
    +++ Write.num (aca_committedGeneration m)
    +++ Write.digest (aca_committedDigest m)
    +++ write_code (aca_code m)
    +++ writeDetail (aca_detail m).
Definition read_apply_commit_ack : Parser ApplyCommitAckMessage :=
  let! deployment := read_id "deployment id" in
  let! committed := Read.boolean in
  let! state := readDeliveryState in
  let! committedGeneration := Read.num in
  let! committedDigest := Read.digest in
  let! code := readErrorCode in
  let! detail := readDetail in
  p_ret (mkApplyCommitAckMessage deployment committed state committedGeneration
           committedDigest code detail).
Record apply_commit_ack_wf (m : ApplyCommitAckMessage) : Prop := {
  acaw_deployment : id_valid (aca_deployment m);
  acaw_committedGeneration : num64 (aca_committedGeneration m);
  acaw_committedDigest : digest_wf (aca_committedDigest m);
  acaw_detail : text_fits kMaxMessageDetailBytes (aca_detail m);
}.
#[global] Instance apply_commit_ack_wire :
  Wire write_apply_commit_ack read_apply_commit_ack apply_commit_ack_wf.
Proof. wire_record write_apply_commit_ack read_apply_commit_ack. Qed.
#[global] Arguments write_apply_commit_ack : simpl never.
Definition encodeApplyCommitAck (m : ApplyCommitAckMessage) : Result (list byte) :=
  do* checkDetail (aca_detail m) in write_apply_commit_ack m.
Definition decodeApplyCommitAck (payload : list byte) : Result ApplyCommitAckMessage :=
  decode_all read_apply_commit_ack payload.
#[global] Instance apply_commit_ack_codec :
  Codec encodeApplyCommitAck decodeApplyCommitAck apply_commit_ack_wf.
Proof.
  apply (codec_plain write_apply_commit_ack read_apply_commit_ack apply_commit_ack_wf);
    codec_encoder.
Qed.

Record ApplyAbortMessage := mkApplyAbortMessage {
  ab_deployment : DeploymentId;
  ab_generation : Generation;
  ab_reason : string;
}.
Definition write_apply_abort (m : ApplyAbortMessage) : Writer :=
  write_id (ab_deployment m)
    +++ Write.num (ab_generation m)
    +++ writeDetail (ab_reason m).
Definition read_apply_abort : Parser ApplyAbortMessage :=
  let! deployment := read_id "deployment id" in
  let! generation := readGeneration in
  let! reason := readDetail in
  p_ret (mkApplyAbortMessage deployment generation reason).
Record apply_abort_wf (m : ApplyAbortMessage) : Prop := {
  abw_deployment : id_valid (ab_deployment m);
  abw_generation : generation_ok (ab_generation m);
  abw_reason : text_fits kMaxMessageDetailBytes (ab_reason m);
}.
#[global] Instance apply_abort_wire : Wire write_apply_abort read_apply_abort apply_abort_wf.
Proof. wire_record write_apply_abort read_apply_abort. Qed.
#[global] Arguments write_apply_abort : simpl never.
Definition encodeApplyAbort (m : ApplyAbortMessage) : Result (list byte) :=
  do* checkDetail (ab_reason m) in write_apply_abort m.
Definition decodeApplyAbort (payload : list byte) : Result ApplyAbortMessage :=
  decode_all read_apply_abort payload.
#[global] Instance apply_abort_codec : Codec encodeApplyAbort decodeApplyAbort apply_abort_wf.
Proof. apply (codec_plain write_apply_abort read_apply_abort apply_abort_wf); codec_encoder. Qed.

Record ApplyAbortAckMessage := mkApplyAbortAckMessage {
  aba_deployment : DeploymentId;
  aba_aborted : bool;
  aba_code : ErrorCode;
  aba_detail : string;
}.
Definition write_apply_abort_ack (m : ApplyAbortAckMessage) : Writer :=
  write_id (aba_deployment m)
    +++ Write.boolean (aba_aborted m)
    +++ write_code (aba_code m)
    +++ writeDetail (aba_detail m).
Definition read_apply_abort_ack : Parser ApplyAbortAckMessage :=
  let! deployment := read_id "deployment id" in
  let! aborted := Read.boolean in
  let! code := readErrorCode in
  let! detail := readDetail in
  p_ret (mkApplyAbortAckMessage deployment aborted code detail).
Record apply_abort_ack_wf (m : ApplyAbortAckMessage) : Prop := {
  abaw_deployment : id_valid (aba_deployment m);
  abaw_detail : text_fits kMaxMessageDetailBytes (aba_detail m);
}.
#[global] Instance apply_abort_ack_wire :
  Wire write_apply_abort_ack read_apply_abort_ack apply_abort_ack_wf.
Proof. wire_record write_apply_abort_ack read_apply_abort_ack. Qed.
#[global] Arguments write_apply_abort_ack : simpl never.
Definition encodeApplyAbortAck (m : ApplyAbortAckMessage) : Result (list byte) :=
  do* checkDetail (aba_detail m) in write_apply_abort_ack m.
Definition decodeApplyAbortAck (payload : list byte) : Result ApplyAbortAckMessage :=
  decode_all read_apply_abort_ack payload.
#[global] Instance apply_abort_ack_codec :
  Codec encodeApplyAbortAck decodeApplyAbortAck apply_abort_ack_wf.
Proof.
  apply (codec_plain write_apply_abort_ack read_apply_abort_ack apply_abort_ack_wf);
    codec_encoder.
Qed.

(** ** Evidence *)

Record DeliveryAckMessage := mkDeliveryAckMessage {
  da_deployment : DeploymentId;
  da_key : ConfigKey;
  da_generation : Generation;
  da_digest : Digest;
  da_artifact : ArtifactId;
  da_state : DeliveryState;
  da_term : Term;
  da_incarnation : IncarnationId;
  da_authorityEpoch : Epoch;
  da_guarantee : ApplyGuarantee;
  da_bytesTransferred : Z;
  da_targetTimestampMillis : Z;
  da_evidenceFromReconcile : bool;
}.
Definition write_delivery_ack (m : DeliveryAckMessage) : Writer :=
  write_id (da_deployment m)
    +++ write_id (da_key m)
    +++ Write.num (da_generation m)
    +++ Write.digest (da_digest m)
    +++ write_id (da_artifact m)
    +++ write_enum8 (da_state m)
    +++ Write.num (da_term m)
    +++ write_opaque (da_incarnation m)
    +++ Write.num (da_authorityEpoch m)
    +++ write_enum8 (da_guarantee m)
    +++ Write.u64 (da_bytesTransferred m)
    +++ Write.i64 (da_targetTimestampMillis m)
    +++ Write.boolean (da_evidenceFromReconcile m).
Definition read_delivery_ack : Parser DeliveryAckMessage :=
  let! deployment := read_id "deployment id" in
  let! key := read_id "config key" in
  let! generation := readGeneration in
  let! digest := Read.digest in
  let! artifact := read_optional_id "artifact id" in
  let! state := readDeliveryState in
  let! term := Read.num in
  let! incarnation := read_opaque in
  let! authorityEpoch := Read.num in
  let! guarantee := readApplyGuarantee in
  let! bytesTransferred := Read.u64 in
  let! targetTimestampMillis := Read.i64 in
  let! evidenceFromReconcile := Read.boolean in
  p_ret (mkDeliveryAckMessage deployment key generation digest artifact state term
           incarnation authorityEpoch guarantee bytesTransferred targetTimestampMillis
           evidenceFromReconcile).
Record delivery_ack_wf (m : DeliveryAckMessage) : Prop := {
  daw_deployment : id_valid (da_deployment m);
  daw_key : id_valid (da_key m);
  daw_generation : generation_ok (da_generation m);
  daw_digest : digest_wf (da_digest m);
  daw_artifact : id_optional (da_artifact m);
  daw_term : num64 (da_term m);
  daw_incarnation : opaque_wf (da_incarnation m);
  daw_authorityEpoch : num64 (da_authorityEpoch m);
  daw_bytesTransferred : fits 64 (da_bytesTransferred m);
  daw_targetTimestampMillis : fits_i64 (da_targetTimestampMillis m);
}.
#[global] Instance delivery_ack_wire : Wire write_delivery_ack read_delivery_ack delivery_ack_wf.
Proof. wire_record write_delivery_ack read_delivery_ack. Qed.
#[global] Arguments write_delivery_ack : simpl never.
Definition check_delivery_ack (m : DeliveryAckMessage) : Status :=
  if negb (isActivationState (da_state m))
  then fail ErrorCode.ProtocolViolation
        "delivery-ack must report an activation state; failures use delivery-nack"
  else if negb (num_isSet (da_term m)) || negb (opaque_isSet (da_incarnation m))
  then fail ErrorCode.ProtocolViolation "delivery-ack carries unset target authority"
  else Ok tt.
Definition encodeDeliveryAck (m : DeliveryAckMessage) : Result (list byte) :=
  write_delivery_ack m.
Definition decodeDeliveryAck (payload : list byte) : Result DeliveryAckMessage :=
  let* m := decode_all read_delivery_ack payload in do* check_delivery_ack m in Ok m.
#[global] Instance delivery_ack_codec :
  Codec encodeDeliveryAck decodeDeliveryAck
    (λ m, delivery_ack_wf m ∧ check_delivery_ack m = Ok tt).
Proof.
  apply (codec_checked write_delivery_ack read_delivery_ack delivery_ack_wf check_delivery_ack);
    codec_encoder.
Qed.

Record DeliveryNackMessage := mkDeliveryNackMessage {
  dn_deployment : DeploymentId;
  dn_key : ConfigKey;
  dn_generation : Generation;
  dn_digest : Digest;
  dn_code : ErrorCode;
  dn_directive : RetryDirective;
  dn_term : Term;
  dn_incarnation : IncarnationId;
  dn_detail : string;
}.
Definition write_delivery_nack (m : DeliveryNackMessage) : Writer :=
  write_id (dn_deployment m)
    +++ write_id (dn_key m)
    +++ Write.num (dn_generation m)
    +++ Write.digest (dn_digest m)
    +++ write_code (dn_code m)
    +++ write_enum8 (dn_directive m)
    +++ Write.num (dn_term m)
    +++ write_opaque (dn_incarnation m)
    +++ writeDetail (dn_detail m).
Definition read_delivery_nack : Parser DeliveryNackMessage :=
  let! deployment := read_id "deployment id" in
  let! key := read_id "config key" in
  let! generation := readGeneration in
  let! digest := Read.digest in
  let! code := readErrorCode in
  let! directive := readRetryDirective in
  let! term := Read.num in
  let! incarnation := read_opaque in
  let! detail := readDetail in
  p_ret (mkDeliveryNackMessage deployment key generation digest code directive term
           incarnation detail).
Record delivery_nack_wf (m : DeliveryNackMessage) : Prop := {
  dnw_deployment : id_valid (dn_deployment m);
  dnw_key : id_valid (dn_key m);
  dnw_generation : generation_ok (dn_generation m);
  dnw_digest : digest_wf (dn_digest m);
  dnw_term : num64 (dn_term m);
  dnw_incarnation : opaque_wf (dn_incarnation m);
  dnw_detail : text_fits kMaxMessageDetailBytes (dn_detail m);
}.
#[global] Instance delivery_nack_wire :
  Wire write_delivery_nack read_delivery_nack delivery_nack_wf.
Proof. wire_record write_delivery_nack read_delivery_nack. Qed.
#[global] Arguments write_delivery_nack : simpl never.
Definition encodeDeliveryNack (m : DeliveryNackMessage) : Result (list byte) :=
  do* checkDetail (dn_detail m) in write_delivery_nack m.
Definition decodeDeliveryNack (payload : list byte) : Result DeliveryNackMessage :=
  decode_all read_delivery_nack payload.
#[global] Instance delivery_nack_codec :
  Codec encodeDeliveryNack decodeDeliveryNack delivery_nack_wf.
Proof.
  apply (codec_plain write_delivery_nack read_delivery_nack delivery_nack_wf);
    codec_encoder.
Qed.

(** ** Reconciliation *)

Record ReconcileRequestMessage := mkReconcileRequestMessage {
  rq_nodeId : NodeId;
  rq_epoch : Epoch;
  rq_incarnation : IncarnationId;
  rq_maxFindings : Z;
}.
Definition write_reconcile_request (m : ReconcileRequestMessage) : Writer :=
  write_id (rq_nodeId m)
    +++ Write.num (rq_epoch m)
    +++ write_opaque (rq_incarnation m)
    +++ Write.u32 (rq_maxFindings m).
Definition read_reconcile_request : Parser ReconcileRequestMessage :=
  let! nodeId := read_id "node id" in
  let! epoch := Read.num in
  let! incarnation := read_opaque in
  let! maxFindings := Read.u32 in
  p_ret (mkReconcileRequestMessage nodeId epoch incarnation maxFindings).
Record reconcile_request_wf (m : ReconcileRequestMessage) : Prop := {
  rqw_nodeId : id_valid (rq_nodeId m);
  rqw_epoch : num64 (rq_epoch m);
  rqw_incarnation : opaque_wf (rq_incarnation m);
  rqw_maxFindings : fits 32 (rq_maxFindings m);
}.
#[global] Instance reconcile_request_wire :
  Wire write_reconcile_request read_reconcile_request reconcile_request_wf.
Proof. wire_record write_reconcile_request read_reconcile_request. Qed.
#[global] Arguments write_reconcile_request : simpl never.
Definition check_reconcile_request (m : ReconcileRequestMessage) : Status :=
  if negb (num_isSet (rq_epoch m))
  then fail ErrorCode.MalformedInput "reconcile request carries the unset epoch 0"
  else if rq_maxFindings m >? kMaxFindingsInReport
  then fail ErrorCode.OversizePayload
        "reconcile request asks for more findings than the protocol allows"
  else Ok tt.
Definition encodeReconcileRequest (m : ReconcileRequestMessage) : Result (list byte) :=
  write_reconcile_request m.
Definition decodeReconcileRequest (payload : list byte) : Result ReconcileRequestMessage :=
  let* m := decode_all read_reconcile_request payload in do* check_reconcile_request m in Ok m.
#[global] Instance reconcile_request_codec :
  Codec encodeReconcileRequest decodeReconcileRequest
    (λ m, reconcile_request_wf m ∧ check_reconcile_request m = Ok tt).
Proof.
  apply (codec_checked write_reconcile_request read_reconcile_request reconcile_request_wf
           check_reconcile_request);
    codec_encoder.
Qed.

Record TransferStatusRecord := mkTransferStatusRecord {
  ts_deployment : DeploymentId;
  ts_stream : StreamId;
  ts_key : ConfigKey;
  ts_generation : Generation;
  ts_digest : Digest;
  ts_bytesReceived : Z;
  ts_totalBytes : Z;
  ts_verified : bool;
  ts_staged : bool;
}.
Definition write_transfer_status (m : TransferStatusRecord) : Writer :=
  write_id (ts_deployment m)
    +++ Write.num (ts_stream m)
    +++ write_id (ts_key m)
    +++ Write.num (ts_generation m)
    +++ Write.digest (ts_digest m)
    +++ Write.u64 (ts_bytesReceived m)
    +++ Write.u64 (ts_totalBytes m)
    +++ Write.boolean (ts_verified m)
    +++ Write.boolean (ts_staged m).
Definition read_transfer_status : Parser TransferStatusRecord :=
  let! deployment := read_id "deployment id" in
  let! stream := Read.num in
  let! key := read_id "config key" in
  let! generation := readGeneration in
  let! digest := Read.digest in
  let! bytesReceived := Read.u64 in
  let! totalBytes := Read.u64 in
  let! verified := Read.boolean in
  let! staged := Read.boolean in
  do! p_require (negb (bytesReceived >? totalBytes)) ErrorCode.MalformedInput
        "reconcile transfer reports more bytes than its total" in
  p_ret (mkTransferStatusRecord deployment stream key generation digest bytesReceived
           totalBytes verified staged).
Record transfer_status_wf (m : TransferStatusRecord) : Prop := {
  tsw_deployment : id_valid (ts_deployment m);
  tsw_stream : num64 (ts_stream m);
  tsw_key : id_valid (ts_key m);
  tsw_generation : generation_ok (ts_generation m);
  tsw_digest : digest_wf (ts_digest m);
  tsw_bytesReceived : fits 64 (ts_bytesReceived m);
  tsw_totalBytes : fits 64 (ts_totalBytes m);
  tsw_bounded : negb (ts_bytesReceived m >? ts_totalBytes m) = true;
}.
#[global] Instance transfer_status_wire :
  Wire write_transfer_status read_transfer_status transfer_status_wf.
Proof. wire_record write_transfer_status read_transfer_status. Qed.
#[global] Arguments write_transfer_status : simpl never.

Record ReconcileFinding := mkReconcileFinding {
  rf_key : ConfigKey;
  rf_generation : Generation;
  rf_digest : Digest;
  rf_artifact : ArtifactId;
  rf_deployment : DeploymentId;
  rf_state : DeliveryState;
  rf_recordedAtMillis : Z;
}.
Definition write_reconcile_finding (m : ReconcileFinding) : Writer :=
  write_id (rf_key m)
    +++ Write.num (rf_generation m)
    +++ Write.digest (rf_digest m)
    +++ write_id (rf_artifact m)
    +++ write_id (rf_deployment m)
    +++ write_enum8 (rf_state m)
    +++ Write.i64 (rf_recordedAtMillis m).
Definition read_reconcile_finding : Parser ReconcileFinding :=
  let! key := read_id "config key" in
  let! generation := readGeneration in
  let! digest := Read.digest in
  let! artifact := read_optional_id "artifact id" in
  let! deployment := read_id "deployment id" in
  let! state := readDeliveryState in
  let! recordedAtMillis := Read.i64 in
  p_ret (mkReconcileFinding key generation digest artifact deployment state recordedAtMillis).
Record reconcile_finding_wf (m : ReconcileFinding) : Prop := {
  rfw_key : id_valid (rf_key m);
  rfw_generation : generation_ok (rf_generation m);
  rfw_digest : digest_wf (rf_digest m);
  rfw_artifact : id_optional (rf_artifact m);
  rfw_deployment : id_valid (rf_deployment m);
  rfw_recordedAtMillis : fits_i64 (rf_recordedAtMillis m);
}.
#[global] Instance reconcile_finding_wire :
  Wire write_reconcile_finding read_reconcile_finding reconcile_finding_wf.
Proof. wire_record write_reconcile_finding read_reconcile_finding. Qed.
#[global] Arguments write_reconcile_finding : simpl never.

Definition too_many_transfers (count : Z) : Error :=
  mkError ErrorCode.OversizePayload "reconcile report declares too many transfers"
    (to_string count).
Definition too_many_findings (count : Z) : Error :=
  mkError ErrorCode.OversizePayload "reconcile report declares too many findings" (to_string count).
Definition transfers_ok (l : list TransferStatusRecord) : Prop :=
  zlen l <= kMaxTransfersInReport ∧ Forall transfer_status_wf l.
Definition findings_ok (l : list ReconcileFinding) : Prop :=
  zlen l <= kMaxFindingsInReport ∧ Forall reconcile_finding_wf l.

Record ReconcileReportMessage := mkReconcileReportMessage {
  rp_target : TargetId;
  rp_targetClass : TargetClass;
  rp_guarantee : ApplyGuarantee;
  rp_term : Term;
  rp_incarnation : IncarnationId;
  rp_committedGeneration : Generation;
  rp_committedDigest : Digest;
  rp_committedArtifact : ArtifactId;
  rp_applyPrepared : bool;
  rp_preparedDeployment : DeploymentId;
  rp_preparedGeneration : Generation;
  rp_preparedDigest : Digest;
  rp_restartCount : Z;
  rp_applyRollbacks : Z;
  rp_transfers : list TransferStatusRecord;
  rp_findings : list ReconcileFinding;
}.
Definition write_reconcile_report (m : ReconcileReportMessage) : Writer :=
  write_id (rp_target m)
    +++ write_enum8 (rp_targetClass m)
    +++ write_enum8 (rp_guarantee m)
    +++ Write.num (rp_term m)
    +++ write_opaque (rp_incarnation m)
    +++ Write.num (rp_committedGeneration m)
    +++ Write.digest (rp_committedDigest m)
    +++ write_id (rp_committedArtifact m)
    +++ Write.boolean (rp_applyPrepared m)
    +++ write_id (rp_preparedDeployment m)
    +++ Write.num (rp_preparedGeneration m)
    +++ Write.digest (rp_preparedDigest m)
    +++ Write.u32 (rp_restartCount m)
    +++ Write.u32 (rp_applyRollbacks m)
    +++ w_counted write_transfer_status (rp_transfers m)
    +++ w_counted write_reconcile_finding (rp_findings m).
Definition read_reconcile_report : Parser ReconcileReportMessage :=
  let! target := read_id "target id" in
  let! targetClass := readTargetClass in
  let! guarantee := readApplyGuarantee in
  let! term := Read.num in
  let! incarnation := read_opaque in
  let! committedGeneration := Read.num in
  let! committedDigest := Read.digest in
  let! committedArtifact := read_optional_id "artifact id" in
  let! applyPrepared := Read.boolean in
  let! preparedDeployment := read_optional_id "deployment id" in
  let! preparedGeneration := Read.num in
  let! preparedDigest := Read.digest in
  let! restartCount := Read.u32 in
  let! applyRollbacks := Read.u32 in
  let! transfers := p_counted kMaxTransfersInReport too_many_transfers read_transfer_status in
  let! findings := p_counted kMaxFindingsInReport too_many_findings read_reconcile_finding in
  p_ret (mkReconcileReportMessage target targetClass guarantee term incarnation
           committedGeneration committedDigest committedArtifact applyPrepared
           preparedDeployment preparedGeneration preparedDigest restartCount applyRollbacks
           transfers findings).
Record reconcile_report_wf (m : ReconcileReportMessage) : Prop := {
  rpw_target : id_valid (rp_target m);
  rpw_term : num64 (rp_term m);
  rpw_incarnation : opaque_wf (rp_incarnation m);
  rpw_committedGeneration : num64 (rp_committedGeneration m);
  rpw_committedDigest : digest_wf (rp_committedDigest m);
  rpw_committedArtifact : id_optional (rp_committedArtifact m);
  rpw_preparedDeployment : id_optional (rp_preparedDeployment m);
  rpw_preparedGeneration : num64 (rp_preparedGeneration m);
  rpw_preparedDigest : digest_wf (rp_preparedDigest m);
  rpw_restartCount : fits 32 (rp_restartCount m);
  rpw_applyRollbacks : fits 32 (rp_applyRollbacks m);
  rpw_transfers : transfers_ok (rp_transfers m);
  rpw_findings : findings_ok (rp_findings m);
}.
#[global] Instance reconcile_report_wire :
  Wire write_reconcile_report read_reconcile_report reconcile_report_wf.
Proof. wire_record write_reconcile_report read_reconcile_report. Qed.
#[global] Arguments write_reconcile_report : simpl never.
Definition check_reconcile_report (m : ReconcileReportMessage) : Status :=
  if negb (num_isSet (rp_term m)) || negb (opaque_isSet (rp_incarnation m))
  then fail ErrorCode.ProtocolViolation "reconcile report carries unset target authority"
  else Ok tt.
Definition encodeReconcileReport (m : ReconcileReportMessage) : Result (list byte) :=
  if (zlen (rp_transfers m) >? kMaxTransfersInReport)
     || (zlen (rp_findings m) >? kMaxFindingsInReport)
  then fail ErrorCode.OversizePayload "reconcile report exceeds the bound collection sizes"
  else write_reconcile_report m.
Definition decodeReconcileReport (payload : list byte) : Result ReconcileReportMessage :=
  let* m := decode_all read_reconcile_report payload in do* check_reconcile_report m in Ok m.
#[global] Instance reconcile_report_codec :
  Codec encodeReconcileReport decodeReconcileReport
    (λ m, reconcile_report_wf m ∧ check_reconcile_report m = Ok tt).
Proof.
  apply (codec_checked write_reconcile_report read_reconcile_report reconcile_report_wf
           check_reconcile_report); [|done].
  intros m [] _. destruct rpw_transfers0 as [Ht _], rpw_findings0 as [Hf _].
  unfold encodeReconcileReport. by rewrite !gtb_le_false.
Qed.

(** ** Control and teardown *)

Record RetireMessage := mkRetireMessage {
  rt_deployment : DeploymentId;
  rt_generation : Generation;
  rt_reason : string;
}.
Definition write_retire (m : RetireMessage) : Writer :=
  write_id (rt_deployment m)
    +++ Write.num (rt_generation m)
    +++ writeDetail (rt_reason m).
Definition read_retire : Parser RetireMessage :=
  let! deployment := read_id "deployment id" in
  let! generation := readGeneration in
  let! reason := readDetail in
  p_ret (mkRetireMessage deployment generation reason).
Record retire_wf (m : RetireMessage) : Prop := {
  rtw_deployment : id_valid (rt_deployment m);
  rtw_generation : generation_ok (rt_generation m);
  rtw_reason : text_fits kMaxMessageDetailBytes (rt_reason m);
}.
#[global] Instance retire_wire : Wire write_retire read_retire retire_wf.
Proof. wire_record write_retire read_retire. Qed.
#[global] Arguments write_retire : simpl never.
Definition encodeRetire (m : RetireMessage) : Result (list byte) :=
  do* checkDetail (rt_reason m) in write_retire m.
Definition decodeRetire (payload : list byte) : Result RetireMessage :=
  decode_all read_retire payload.
#[global] Instance retire_codec : Codec encodeRetire decodeRetire retire_wf.
Proof. apply (codec_plain write_retire read_retire retire_wf); codec_encoder. Qed.

Record RetireAckMessage := mkRetireAckMessage {
  ra_deployment : DeploymentId;
  ra_retired : bool;
}.
Definition write_retire_ack (m : RetireAckMessage) : Writer :=
  write_id (ra_deployment m)
    +++ Write.boolean (ra_retired m).
Definition read_retire_ack : Parser RetireAckMessage :=
  let! deployment := read_id "deployment id" in
  let! retired := Read.boolean in
  p_ret (mkRetireAckMessage deployment retired).
Record retire_ack_wf (m : RetireAckMessage) : Prop := {
  raw_deployment : id_valid (ra_deployment m);
}.
#[global] Instance retire_ack_wire : Wire write_retire_ack read_retire_ack retire_ack_wf.
Proof. wire_record write_retire_ack read_retire_ack. Qed.
#[global] Arguments write_retire_ack : simpl never.
Definition encodeRetireAck (m : RetireAckMessage) : Result (list byte) :=
  write_retire_ack m.
Definition decodeRetireAck (payload : list byte) : Result RetireAckMessage :=
  decode_all read_retire_ack payload.
#[global] Instance retire_ack_codec : Codec encodeRetireAck decodeRetireAck retire_ack_wf.
Proof. apply (codec_plain write_retire_ack read_retire_ack retire_ack_wf); codec_encoder. Qed.

Record PingMessage := mkPingMessage {
  pi_nonce : Z;
}.
Definition write_ping (m : PingMessage) : Writer :=
  Write.u64 (pi_nonce m).
Definition read_ping : Parser PingMessage :=
  let! nonce := Read.u64 in
  p_ret (mkPingMessage nonce).
Record ping_wf (m : PingMessage) : Prop := {
  piw_nonce : fits 64 (pi_nonce m);
}.
#[global] Instance ping_wire : Wire write_ping read_ping ping_wf.
Proof. wire_record write_ping read_ping. Qed.
#[global] Arguments write_ping : simpl never.
Definition encodePing (m : PingMessage) : Result (list byte) :=
  write_ping m.
Definition decodePing (payload : list byte) : Result PingMessage :=
  decode_all read_ping payload.
#[global] Instance ping_codec : Codec encodePing decodePing ping_wf.
Proof. apply (codec_plain write_ping read_ping ping_wf); codec_encoder. Qed.

Record PongMessage := mkPongMessage {
  po_nonce : Z;
}.
Definition write_pong (m : PongMessage) : Writer :=
  Write.u64 (po_nonce m).
Definition read_pong : Parser PongMessage :=
  let! nonce := Read.u64 in
  p_ret (mkPongMessage nonce).
Record pong_wf (m : PongMessage) : Prop := {
  pow_nonce : fits 64 (po_nonce m);
}.
#[global] Instance pong_wire : Wire write_pong read_pong pong_wf.
Proof. wire_record write_pong read_pong. Qed.
#[global] Arguments write_pong : simpl never.
Definition encodePong (m : PongMessage) : Result (list byte) :=
  write_pong m.
Definition decodePong (payload : list byte) : Result PongMessage :=
  decode_all read_pong payload.
#[global] Instance pong_codec : Codec encodePong decodePong pong_wf.
Proof. apply (codec_plain write_pong read_pong pong_wf); codec_encoder. Qed.

Record GoodbyeMessage := mkGoodbyeMessage {
  gb_code : ErrorCode;
  gb_reason : string;
}.
Definition write_goodbye (m : GoodbyeMessage) : Writer :=
  write_code (gb_code m)
    +++ writeDetail (gb_reason m).
Definition read_goodbye : Parser GoodbyeMessage :=
  let! code := readErrorCode in
  let! reason := readDetail in
  p_ret (mkGoodbyeMessage code reason).
Record goodbye_wf (m : GoodbyeMessage) : Prop := {
  gbw_reason : text_fits kMaxMessageDetailBytes (gb_reason m);
}.
#[global] Instance goodbye_wire : Wire write_goodbye read_goodbye goodbye_wf.
Proof. wire_record write_goodbye read_goodbye. Qed.
#[global] Arguments write_goodbye : simpl never.
Definition encodeGoodbye (m : GoodbyeMessage) : Result (list byte) :=
  do* checkDetail (gb_reason m) in write_goodbye m.
Definition decodeGoodbye (payload : list byte) : Result GoodbyeMessage :=
  decode_all read_goodbye payload.
#[global] Instance goodbye_codec : Codec encodeGoodbye decodeGoodbye goodbye_wf.
Proof. apply (codec_plain write_goodbye read_goodbye goodbye_wf); codec_encoder. Qed.

Record ErrorMessage := mkErrorMessage {
  er_code : ErrorCode;
  er_directive : RetryDirective;
  er_detail : string;
}.
Definition write_error (m : ErrorMessage) : Writer :=
  write_code (er_code m)
    +++ write_enum8 (er_directive m)
    +++ writeDetail (er_detail m).
Definition read_error : Parser ErrorMessage :=
  let! code := readErrorCode in
  let! directive := readRetryDirective in
  let! detail := readDetail in
  p_ret (mkErrorMessage code directive detail).
Record error_wf (m : ErrorMessage) : Prop := {
  erw_detail : text_fits kMaxMessageDetailBytes (er_detail m);
}.
#[global] Instance error_wire : Wire write_error read_error error_wf.
Proof. wire_record write_error read_error. Qed.
#[global] Arguments write_error : simpl never.
Definition encodeError (m : ErrorMessage) : Result (list byte) :=
  do* checkDetail (er_detail m) in write_error m.
Definition decodeError (payload : list byte) : Result ErrorMessage :=
  decode_all read_error payload.
#[global] Instance error_codec : Codec encodeError decodeError error_wf.
Proof. apply (codec_plain write_error read_error error_wf); codec_encoder. Qed.

(** ** Inspection control channel *)

Record ControlHelloMessage := mkControlHelloMessage {
  ch_clientName : string;
  ch_nonce : SessionNonce;
  ch_authTag : list byte;
}.
Definition write_control_hello (m : ControlHelloMessage) : Writer :=
  Write.string kMaxIdentifierLength (ch_clientName m)
    +++ write_opaque (ch_nonce m)
    +++ Write.sha256 (ch_authTag m).
Definition read_control_hello : Parser ControlHelloMessage :=
  let! clientName := Read.string kMaxIdentifierLength in
  let! nonce := read_opaque in
  let! authTag := Read.sha256 in
  p_ret (mkControlHelloMessage clientName nonce authTag).
Record control_hello_wf (m : ControlHelloMessage) : Prop := {
  chw_clientName : text_fits kMaxIdentifierLength (ch_clientName m);
  chw_nonce : opaque_wf (ch_nonce m);
  chw_authTag : tag_wf (ch_authTag m);
}.
#[global] Instance control_hello_wire :
  Wire write_control_hello read_control_hello control_hello_wf.
Proof. wire_record write_control_hello read_control_hello. Qed.
#[global] Arguments write_control_hello : simpl never.
Definition check_control_hello (m : ControlHelloMessage) : Status :=
  if bool_decide (ch_clientName m = "")
  then fail ErrorCode.MissingField "control client name must not be empty"
  else Ok tt.
Definition encodeControlHello (m : ControlHelloMessage) : Result (list byte) :=
  if slen (ch_clientName m) >? kMaxIdentifierLength
  then fail ErrorCode.LimitExceeded "control client name exceeds its bound"
  else write_control_hello m.
Definition decodeControlHello (payload : list byte) : Result ControlHelloMessage :=
  let* m := decode_all read_control_hello payload in do* check_control_hello m in Ok m.
#[global] Instance control_hello_codec :
  Codec encodeControlHello decodeControlHello
    (λ m, control_hello_wf m ∧ check_control_hello m = Ok tt).
Proof.
  apply (codec_checked write_control_hello read_control_hello control_hello_wf check_control_hello);
    codec_encoder.
Qed.

Record ControlHelloAckMessage := mkControlHelloAckMessage {
  cha_nodeId : NodeId;
  cha_epoch : Epoch;
  cha_incarnation : IncarnationId;
  cha_nonce : SessionNonce;
  cha_authTag : list byte;
}.
Definition write_control_hello_ack (m : ControlHelloAckMessage) : Writer :=
  write_id (cha_nodeId m)
    +++ Write.num (cha_epoch m)
    +++ write_opaque (cha_incarnation m)
    +++ write_opaque (cha_nonce m)
    +++ Write.sha256 (cha_authTag m).
Definition read_control_hello_ack : Parser ControlHelloAckMessage :=
  let! nodeId := read_id "node id" in
  let! epoch := Read.num in
  let! incarnation := read_opaque in
  let! nonce := read_opaque in
  let! authTag := Read.sha256 in
  p_ret (mkControlHelloAckMessage nodeId epoch incarnation nonce authTag).
Record control_hello_ack_wf (m : ControlHelloAckMessage) : Prop := {
  chaw_nodeId : id_valid (cha_nodeId m);
  chaw_epoch : num64 (cha_epoch m);
  chaw_incarnation : opaque_wf (cha_incarnation m);
  chaw_nonce : opaque_wf (cha_nonce m);
  chaw_authTag : tag_wf (cha_authTag m);
}.
#[global] Instance control_hello_ack_wire :
  Wire write_control_hello_ack read_control_hello_ack control_hello_ack_wf.
Proof. wire_record write_control_hello_ack read_control_hello_ack. Qed.
#[global] Arguments write_control_hello_ack : simpl never.
Definition encodeControlHelloAck (m : ControlHelloAckMessage) : Result (list byte) :=
  write_control_hello_ack m.
Definition decodeControlHelloAck (payload : list byte) : Result ControlHelloAckMessage :=
  decode_all read_control_hello_ack payload.
#[global] Instance control_hello_ack_codec :
  Codec encodeControlHelloAck decodeControlHelloAck control_hello_ack_wf.
Proof.
  apply (codec_plain write_control_hello_ack read_control_hello_ack control_hello_ack_wf);
    codec_encoder.
Qed.

(** Each argument is checked as it is written. *)
Definition write_argument (argument : string) : Writer :=
  if slen argument >? kMaxControlArgumentBytes
  then fail ErrorCode.LimitExceeded "control argument exceeds its bound"
  else Write.string kMaxControlArgumentBytes argument.
#[global] Instance argument_wire :
  Wire write_argument (Read.string kMaxControlArgumentBytes) (text_fits kMaxControlArgumentBytes).
Proof.
  apply (wire_ext (Write.string kMaxControlArgumentBytes) (Read.string kMaxControlArgumentBytes)
           (text_fits kMaxControlArgumentBytes)).
  intros text [Ht _].
  unfold write_argument. by destruct (Z.gtb_spec (slen text) kMaxControlArgumentBytes); [lia|].
Qed.
Definition too_many_arguments (count : Z) : Error :=
  mkError ErrorCode.OversizePayload "control request declares too many arguments" "".
Definition arguments_ok (l : list string) : Prop :=
  zlen l <= kMaxControlArguments ∧ Forall (text_fits kMaxControlArgumentBytes) l.

Record ControlRequestMessage := mkControlRequestMessage {
  cq_command : string;
  cq_arguments : list string;
}.
Definition write_control_request (m : ControlRequestMessage) : Writer :=
  Write.string kMaxControlCommandBytes (cq_command m)
    +++ w_counted write_argument (cq_arguments m).
Definition read_control_request : Parser ControlRequestMessage :=
  let! command := read_command in
  let! arguments :=
      p_counted kMaxControlArguments too_many_arguments (Read.string kMaxControlArgumentBytes) in
  p_ret (mkControlRequestMessage command arguments).
Record control_request_wf (m : ControlRequestMessage) : Prop := {
  cqw_command : command_ok (cq_command m);
  cqw_arguments : arguments_ok (cq_arguments m);
}.
#[global] Instance control_request_wire :
  Wire write_control_request read_control_request control_request_wf.
Proof. wire_record write_control_request read_control_request. Qed.
#[global] Arguments write_control_request : simpl never.
Definition encodeControlRequest (m : ControlRequestMessage) : Result (list byte) :=
  if bool_decide (cq_command m = "") || (slen (cq_command m) >? kMaxControlCommandBytes)
  then fail ErrorCode.InvalidArgument "control command is empty or too long"
  else if zlen (cq_arguments m) >? kMaxControlArguments
  then fail ErrorCode.LimitExceeded "control request has too many arguments"
  else write_control_request m.
Definition decodeControlRequest (payload : list byte) : Result ControlRequestMessage :=
  decode_all read_control_request payload.
#[global] Instance control_request_codec :
  Codec encodeControlRequest decodeControlRequest control_request_wf.
Proof.
  apply (codec_plain write_control_request read_control_request control_request_wf); [|done].
  intros m []. destruct cqw_command0 as [[Hc _] Hne], cqw_arguments0 as [Ha _].
  unfold encodeControlRequest. by rewrite bool_decide_eq_false_2, !gtb_le_false.
Qed.

Record ControlResponseMessage := mkControlResponseMessage {
  cr_code : ErrorCode;
  cr_body : string;
}.
Definition write_control_response (m : ControlResponseMessage) : Writer :=
  write_code (cr_code m)
    +++ Write.string kMaxControlBodyBytes (cr_body m).
Definition read_control_response : Parser ControlResponseMessage :=
  let! code := readErrorCode in
  let! body := Read.string kMaxControlBodyBytes in
  p_ret (mkControlResponseMessage code body).
Record control_response_wf (m : ControlResponseMessage) : Prop := {
  crw_body : text_fits kMaxControlBodyBytes (cr_body m);
}.
#[global] Instance control_response_wire :
  Wire write_control_response read_control_response control_response_wf.
Proof. wire_record write_control_response read_control_response. Qed.
#[global] Arguments write_control_response : simpl never.
Definition encodeControlResponse (m : ControlResponseMessage) : Result (list byte) :=
  if slen (cr_body m) >? kMaxControlBodyBytes
  then fail ErrorCode.LimitExceeded "control response body exceeds its bound"
  else write_control_response m.
Definition decodeControlResponse (payload : list byte) : Result ControlResponseMessage :=
  decode_all read_control_response payload.
#[global] Instance control_response_codec :
  Codec encodeControlResponse decodeControlResponse control_response_wf.
Proof.
  apply (codec_plain write_control_response read_control_response control_response_wf);
    codec_encoder.
Qed.
