(* ===== verification/Protocol.v ===== *)
(** * Protocol: all messages together, and authentication

    Collects the message codecs of Messages.v under one type, tagged by the
    frame type each travels in, and states what they give together with the
    frame layer. Also models sealAuthenticated, verifyAuthenticated and
    renderMessageSummary of src/protocol.cpp. *)

From Stdlib Require Import Strings.Byte.
From S2P Require Import Prelude Result Hash Ids Codec Lifecycle Journal Artifact Records Frame.
From S2P Require Import Messages.

(** ** The messages and their frame types *)

Inductive ProtocolMessage :=
  | MHello (m : HelloMessage)
  | MHelloAck (m : HelloAckMessage)
  | MHelloConfirm (m : HelloConfirmMessage)
  | MAuthReject (m : AuthRejectMessage)
  | MPrepare (m : PrepareMessage)
  | MPrepareAck (m : PrepareAckMessage)
  | MPrepareReject (m : PrepareRejectMessage)
  | MChunk (m : ChunkMessage)
  | MChunkAck (m : ChunkAckMessage)
  | MTransferComplete (m : TransferCompleteMessage)
  | MTransferResult (m : TransferResultMessage)
  | MStage (m : StageMessage)
  | MStageAck (m : StageAckMessage)
  | MApplyPrepare (m : ApplyPrepareMessage)
  | MApplyPrepareAck (m : ApplyPrepareAckMessage)
  | MApplyCommit (m : ApplyCommitMessage)
  | MApplyCommitAck (m : ApplyCommitAckMessage)
  | MApplyAbort (m : ApplyAbortMessage)
  | MApplyAbortAck (m : ApplyAbortAckMessage)
  | MDeliveryAck (m : DeliveryAckMessage)
  | MDeliveryNack (m : DeliveryNackMessage)
  | MReconcileRequest (m : ReconcileRequestMessage)
  | MReconcileReport (m : ReconcileReportMessage)
  | MRetire (m : RetireMessage)
  | MRetireAck (m : RetireAckMessage)
  | MPing (m : PingMessage)
  | MPong (m : PongMessage)
  | MGoodbye (m : GoodbyeMessage)
  | MError (m : ErrorMessage)
  | MControlHello (m : ControlHelloMessage)
  | MControlHelloAck (m : ControlHelloAckMessage)
  | MControlRequest (m : ControlRequestMessage)
  | MControlResponse (m : ControlResponseMessage).

Definition message_type (m : ProtocolMessage) : FrameType :=
  match m with
  | MHello _ => FrameType.Hello
  | MHelloAck _ => FrameType.HelloAck
  | MHelloConfirm _ => FrameType.HelloConfirm
  | MAuthReject _ => FrameType.AuthReject
  | MPrepare _ => FrameType.Prepare
  | MPrepareAck _ => FrameType.PrepareAck
  | MPrepareReject _ => FrameType.PrepareReject
  | MChunk _ => FrameType.Chunk
  | MChunkAck _ => FrameType.ChunkAck
  | MTransferComplete _ => FrameType.TransferComplete
  | MTransferResult _ => FrameType.TransferResult
  | MStage _ => FrameType.Stage
  | MStageAck _ => FrameType.StageAck
  | MApplyPrepare _ => FrameType.ApplyPrepare
  | MApplyPrepareAck _ => FrameType.ApplyPrepareAck
  | MApplyCommit _ => FrameType.ApplyCommit
  | MApplyCommitAck _ => FrameType.ApplyCommitAck
  | MApplyAbort _ => FrameType.ApplyAbort
  | MApplyAbortAck _ => FrameType.ApplyAbortAck
  | MDeliveryAck _ => FrameType.DeliveryAck
  | MDeliveryNack _ => FrameType.DeliveryNack
  | MReconcileRequest _ => FrameType.ReconcileRequest
  | MReconcileReport _ => FrameType.ReconcileReport
  | MRetire _ => FrameType.Retire
  | MRetireAck _ => FrameType.RetireAck
  | MPing _ => FrameType.Ping
  | MPong _ => FrameType.Pong
  | MGoodbye _ => FrameType.Goodbye
  | MError _ => FrameType.Error
  | MControlHello _ => FrameType.ControlHello
  | MControlHelloAck _ => FrameType.ControlHelloAck
  | MControlRequest _ => FrameType.ControlRequest
  | MControlResponse _ => FrameType.ControlResponse
  end.

Definition encodeMessage (m : ProtocolMessage) : Result (list byte) :=
  match m with
  | MHello m => encodeHello m
  | MHelloAck m => encodeHelloAck m
  | MHelloConfirm m => encodeHelloConfirm m
  | MAuthReject m => encodeAuthReject m
  | MPrepare m => encodePrepare m
  | MPrepareAck m => encodePrepareAck m
  | MPrepareReject m => encodePrepareReject m
  | MChunk m => encodeChunk m
  | MChunkAck m => encodeChunkAck m
  | MTransferComplete m => encodeTransferComplete m
  | MTransferResult m => encodeTransferResult m
  | MStage m => encodeStage m
  | MStageAck m => encodeStageAck m
  | MApplyPrepare m => encodeApplyPrepare m
  | MApplyPrepareAck m => encodeApplyPrepareAck m
  | MApplyCommit m => encodeApplyCommit m
  | MApplyCommitAck m => encodeApplyCommitAck m
  | MApplyAbort m => encodeApplyAbort m
  | MApplyAbortAck m => encodeApplyAbortAck m
  | MDeliveryAck m => encodeDeliveryAck m
  | MDeliveryNack m => encodeDeliveryNack m
  | MReconcileRequest m => encodeReconcileRequest m
  | MReconcileReport m => encodeReconcileReport m
  | MRetire m => encodeRetire m
  | MRetireAck m => encodeRetireAck m
  | MPing m => encodePing m
  | MPong m => encodePong m
  | MGoodbye m => encodeGoodbye m
  | MError m => encodeError m
  | MControlHello m => encodeControlHello m
  | MControlHelloAck m => encodeControlHelloAck m
  | MControlRequest m => encodeControlRequest m
  | MControlResponse m => encodeControlResponse m
  end.

(** The decoder for a frame of type [t]; no message travels in an invalid frame. *)
Definition decodeMessage (t : FrameType) (payload : list byte) : Result ProtocolMessage :=
  match t with
  | FrameType.Invalid => fail ErrorCode.UnexpectedMessage "frame carries no message"
  | FrameType.Hello => let* m := decodeHello payload in Ok (MHello m)
  | FrameType.HelloAck => let* m := decodeHelloAck payload in Ok (MHelloAck m)
  | FrameType.HelloConfirm => let* m := decodeHelloConfirm payload in Ok (MHelloConfirm m)
  | FrameType.AuthReject => let* m := decodeAuthReject payload in Ok (MAuthReject m)
  | FrameType.Prepare => let* m := decodePrepare payload in Ok (MPrepare m)
  | FrameType.PrepareAck => let* m := decodePrepareAck payload in Ok (MPrepareAck m)
  | FrameType.PrepareReject => let* m := decodePrepareReject payload in Ok (MPrepareReject m)
  | FrameType.Chunk => let* m := decodeChunk payload in Ok (MChunk m)
  | FrameType.ChunkAck => let* m := decodeChunkAck payload in Ok (MChunkAck m)
  | FrameType.TransferComplete => let* m := decodeTransferComplete payload in Ok (MTransferComplete m)
  | FrameType.TransferResult => let* m := decodeTransferResult payload in Ok (MTransferResult m)
  | FrameType.Stage => let* m := decodeStage payload in Ok (MStage m)
  | FrameType.StageAck => let* m := decodeStageAck payload in Ok (MStageAck m)
  | FrameType.ApplyPrepare => let* m := decodeApplyPrepare payload in Ok (MApplyPrepare m)
  | FrameType.ApplyPrepareAck => let* m := decodeApplyPrepareAck payload in Ok (MApplyPrepareAck m)
  | FrameType.ApplyCommit => let* m := decodeApplyCommit payload in Ok (MApplyCommit m)
  | FrameType.ApplyCommitAck => let* m := decodeApplyCommitAck payload in Ok (MApplyCommitAck m)
  | FrameType.ApplyAbort => let* m := decodeApplyAbort payload in Ok (MApplyAbort m)
  | FrameType.ApplyAbortAck => let* m := decodeApplyAbortAck payload in Ok (MApplyAbortAck m)
  | FrameType.DeliveryAck => let* m := decodeDeliveryAck payload in Ok (MDeliveryAck m)
  | FrameType.DeliveryNack => let* m := decodeDeliveryNack payload in Ok (MDeliveryNack m)
  | FrameType.ReconcileRequest => let* m := decodeReconcileRequest payload in Ok (MReconcileRequest m)
  | FrameType.ReconcileReport => let* m := decodeReconcileReport payload in Ok (MReconcileReport m)
  | FrameType.Retire => let* m := decodeRetire payload in Ok (MRetire m)
  | FrameType.RetireAck => let* m := decodeRetireAck payload in Ok (MRetireAck m)
  | FrameType.Ping => let* m := decodePing payload in Ok (MPing m)
  | FrameType.Pong => let* m := decodePong payload in Ok (MPong m)
  | FrameType.Goodbye => let* m := decodeGoodbye payload in Ok (MGoodbye m)
  | FrameType.Error => let* m := decodeError payload in Ok (MError m)
  | FrameType.ControlHello => let* m := decodeControlHello payload in Ok (MControlHello m)
  | FrameType.ControlHelloAck => let* m := decodeControlHelloAck payload in Ok (MControlHelloAck m)
  | FrameType.ControlRequest => let* m := decodeControlRequest payload in Ok (MControlRequest m)
  | FrameType.ControlResponse => let* m := decodeControlResponse payload in Ok (MControlResponse m)
  end.

Definition protocol_ok (m : ProtocolMessage) : Prop :=
  match m with
  | MHello m => hello_wf m ∧ check_hello m = Ok tt
  | MHelloAck m => hello_ack_wf m ∧ check_hello_ack m = Ok tt
  | MHelloConfirm m => hello_confirm_wf m
  | MAuthReject m => auth_reject_wf m
  | MPrepare m => prepare_wf m ∧ check_prepare m = Ok tt
  | MPrepareAck m => prepare_ack_wf m
  | MPrepareReject m => prepare_reject_wf m
  | MChunk m => chunk_wf m ∧ check_chunk m = Ok tt
  | MChunkAck m => chunk_ack_wf m
  | MTransferComplete m => transfer_complete_wf m
  | MTransferResult m => transfer_result_wf m
  | MStage m => stage_wf m
  | MStageAck m => stage_ack_wf m
  | MApplyPrepare m => apply_prepare_wf m
  | MApplyPrepareAck m => apply_prepare_ack_wf m
  | MApplyCommit m => apply_commit_wf m
  | MApplyCommitAck m => apply_commit_ack_wf m
  | MApplyAbort m => apply_abort_wf m
  | MApplyAbortAck m => apply_abort_ack_wf m
  | MDeliveryAck m => delivery_ack_wf m ∧ check_delivery_ack m = Ok tt
  | MDeliveryNack m => delivery_nack_wf m
  | MReconcileRequest m => reconcile_request_wf m ∧ check_reconcile_request m = Ok tt
  | MReconcileReport m => reconcile_report_wf m ∧ check_reconcile_report m = Ok tt
  | MRetire m => retire_wf m
  | MRetireAck m => retire_ack_wf m
  | MPing m => ping_wf m
  | MPong m => pong_wf m
  | MGoodbye m => goodbye_wf m
  | MError m => error_wf m
  | MControlHello m => control_hello_wf m ∧ check_control_hello m = Ok tt
  | MControlHelloAck m => control_hello_ack_wf m
  | MControlRequest m => control_request_wf m
  | MControlResponse m => control_response_wf m
  end.

Lemma codec_inj_complete {M} (enc : M → Result (list byte)) dec ok (inj : M → ProtocolMessage)
    `{!Codec enc dec ok} m :
  ok m → ∃ bs, enc m = Ok bs ∧ (let* x := dec bs in Ok (inj x)) = Ok (inj m).
Proof.
  intros Hm. destruct (codec_complete (encode := enc) m Hm) as (bs & He & Hd).
  exists bs. by rewrite Hd.
Qed.

Lemma codec_inj_sound {M} (enc : M → Result (list byte)) dec ok (inj : M → ProtocolMessage)
    `{!Codec enc dec ok} bs x :
  (let* m := dec bs in Ok (inj m)) = Ok x → ∃ m, x = inj m ∧ ok m ∧ enc m = Ok bs.
Proof.
  intros (m & Hd & [= <-])%try_bind_Ok. exists m. split; [done|].
  by apply (codec_sound (decode := dec)).
Qed.

(** Every message of the protocol is one [Codec]. *)
Lemma message_codec t :
  Codec encodeMessage (decodeMessage t) (λ m, protocol_ok m ∧ message_type m = t).
Proof.
  split.
  - intros m [Hm <-]. destruct m; simpl in *.
    all: by eapply codec_inj_complete; [apply _|].
  - intros bs x Hx. destruct t; simpl in Hx; [done|..].
    all: eapply codec_inj_sound in Hx as (m & -> & Hok & He); [|apply _]; by simpl.
Qed.

(** ** Sizes *)

Definition sized (w : Writer) (n : Z) : Prop := ∀ bs, w = Ok bs → zlen bs <= n.
(** What a writer emits for a well-formed value has at most [n] bytes. *)
Class WireSize {A} (w : A → Writer) (wf : A → Prop) (n : Z) :=
  wire_size : ∀ a, wf a → sized (w a) n.
#[global] Hint Mode WireSize - ! - - : typeclass_instances.

Lemma w_append_Ok (a b : Writer) bs :
  a +++ b = Ok bs → ∃ x y, a = Ok x ∧ b = Ok y ∧ bs = x ++ y.
Proof. unfold w_append. intros (x & -> & (y & -> & [= <-])%try_bind_Ok)%try_bind_Ok. eauto. Qed.
Lemma sized_app a b n m : sized a n → sized b m → sized (a +++ b) (n + m).
Proof.
  intros Ha Hb bs (x & y & Hx & Hy & ->)%w_append_Ok. rewrite zlen_app.
  specialize (Ha x Hx). specialize (Hb y Hy). lia.
Qed.
Lemma sized_le w n m : sized w n → n <= m → sized w m.
Proof. intros Hw Hle bs Hbs. specialize (Hw bs Hbs). lia. Qed.
Lemma sized_exact bs n : zlen bs = n → sized (Ok bs) n.
Proof. intros Hn bs' [= <-]. lia. Qed.

Ltac sized_field :=
  match goal with
  | H : ?wf ?a |- sized (?w ?a) _ => apply (wire_size (w := w) (wf := wf) a H)
  | |- sized (?w ?a) _ => apply (wire_size (w := w) (wf := λ _, True) a I)
  end.
Ltac wire_size_record w :=
  intros [] []; unfold w; simpl in *; eapply sized_le;
  [repeat (eapply sized_app; [sized_field|]); sized_field|vm_compute; discriminate].

#[global] Instance u8_size : WireSize Write.u8 (fits 8) 1.
Proof. intros v _. by apply sized_exact. Qed.
#[global] Instance u16_size : WireSize Write.u16 (fits 16) 2.
Proof. intros v _. by apply sized_exact. Qed.
#[global] Instance u32_size : WireSize Write.u32 (fits 32) 4.
Proof. intros v _. apply sized_exact, zlen_le_bytes. Qed.
#[global] Instance u64_size : WireSize Write.u64 (fits 64) 8.
Proof. intros v _. apply sized_exact, zlen_le_bytes. Qed.
#[global] Instance i64_size : WireSize Write.i64 fits_i64 8.
Proof. intros v _. apply sized_exact, zlen_le_bytes. Qed.
#[global] Instance boolean_size : WireSize Write.boolean (λ _, True) 1.
Proof. intros b _. by apply sized_exact. Qed.
#[global] Instance num64_size Tag : WireSize (Write.num (Tag := Tag)) num64 8.
Proof. intros n _. apply sized_exact, zlen_le_bytes. Qed.
#[global] Instance generation_size : WireSize Write.num generation_ok 8.
Proof. intros n _. apply sized_exact, zlen_le_bytes. Qed.
#[global] Instance num32_size Tag : WireSize (write_num32 (Tag := Tag)) num32 4.
Proof. intros n _. apply sized_exact, zlen_le_bytes. Qed.
#[global] Instance digest_size : WireSize Write.digest digest_wf 32.
Proof. intros d Hd. apply sized_exact. unfold zlen. by rewrite Hd. Qed.
#[global] Instance sha256_size : WireSize Write.sha256 tag_wf 32.
Proof. intros d Hd. apply sized_exact. unfold zlen. by rewrite Hd. Qed.
#[global] Instance opaque_size Tag : WireSize (write_opaque (Tag := Tag)) opaque_wf 16.
Proof. intros o Ho. apply sized_exact. unfold zlen. by rewrite Ho. Qed.
#[global] Instance enum8_size A `{WireEnum A} : WireSize (write_enum8 (A := A)) (λ _, True) 1.
Proof. intros a _. by apply sized_exact. Qed.
#[global] Instance code_size : WireSize write_code (λ _, True) 2.
Proof. intros c _. by apply sized_exact. Qed.

Lemma string_sized maxBytes s : sized (Write.string maxBytes s) (4 + maxBytes).
Proof.
  intros bs Hbs. unfold Write.string in Hbs.
  apply try_bind_Ok in Hbs as ([] & H1%contract_Ok & Hbs).
  apply try_bind_Ok in Hbs as ([] & H2%contract_Ok & Hbs).
  apply w_append_Ok in Hbs as (x & y & [= <-] & [= <-] & ->).
  rewrite zlen_app, zlen_le_bytes, zlen_bytes_of_string. apply Z.leb_le in H1. lia.
Qed.
#[global] Instance id_valid_size Tag : WireSize (write_id (Tag := Tag)) id_valid 132.
Proof. intros i _. apply string_sized. Qed.
#[global] Instance id_optional_size Tag : WireSize (write_id (Tag := Tag)) id_optional 132.
Proof. intros i _. apply string_sized. Qed.
#[global] Instance string_size n : WireSize (Write.string n) (text_fits n) (4 + n).
Proof. intros s _. apply string_sized. Qed.
#[global] Instance command_size : WireSize (Write.string kMaxControlCommandBytes) command_ok 36.
Proof. intros s _. apply string_sized. Qed.
#[global] Instance detail_size : WireSize writeDetail (text_fits kMaxMessageDetailBytes) 260.
Proof. intros s _. apply string_sized. Qed.
#[global] Instance argument_size :
  WireSize write_argument (text_fits kMaxControlArgumentBytes) 516.
Proof. intros s _. unfold write_argument. case_match; [by intros bs|]. apply string_sized. Qed.
Lemma data_sized data : sized (write_data data) (4 + zlen data).
Proof.
  intros bs Hbs. unfold write_data, Write.string in Hbs.
  apply try_bind_Ok in Hbs as ([] & _ & Hbs). apply try_bind_Ok in Hbs as ([] & _ & Hbs).
  apply w_append_Ok in Hbs as (x & y & [= <-] & [= <-] & ->).
  rewrite zlen_app, zlen_le_bytes, zlen_bytes_of_string, slen_string_of_bytes. lia.
Qed.
#[global] Instance data_size : WireSize write_data data_ok (4 + kAbsoluteMaxFieldBytes).
Proof. intros d Hd. eapply sized_le; [apply data_sized|]. unfold data_ok in Hd. lia. Qed.

Lemma each_sized {A} (w : A → Writer) wf n `{!WireSize w wf n} l :
  0 <= n → Forall wf l → sized (w_each w l) (zlen l * n).
Proof.
  intros Hn. induction 1 as [|a l Ha Hl IH]; simpl.
  - intros bs [= <-]. done.
  - rewrite zlen_cons. eapply sized_le; [apply sized_app; [by apply wire_size|done]|]. lia.
Qed.
Lemma counted_sized {A} (w : A → Writer) wf n bound `{!WireSize w wf n} l :
  0 <= n → zlen l <= bound ∧ Forall wf l → sized (w_counted w l) (4 + bound * n).
Proof.
  intros Hn [Hl Hf]. eapply sized_le.
  - apply sized_app; [apply sized_exact, zlen_le_bytes|by eapply each_sized].
  - simpl. nia.
Qed.
#[global] Instance arguments_size : WireSize (w_counted write_argument) arguments_ok 8260.
Proof. intros l Hl. by apply (counted_sized write_argument _ 516 kMaxControlArguments). Qed.

(** *** Messages *)

#[global] Instance hello_size : WireSize write_hello hello_wf 1024.
Proof. wire_size_record write_hello. Qed.
#[global] Instance hello_ack_size : WireSize write_hello_ack hello_ack_wf 1024.
Proof. wire_size_record write_hello_ack. Qed.
#[global] Instance hello_confirm_size : WireSize write_hello_confirm hello_confirm_wf 1024.
Proof. wire_size_record write_hello_confirm. Qed.
#[global] Instance auth_reject_size : WireSize write_auth_reject auth_reject_wf 1024.
Proof. wire_size_record write_auth_reject. Qed.
#[global] Instance prepare_size : WireSize write_prepare prepare_wf 1024.
Proof. wire_size_record write_prepare. Qed.
#[global] Instance prepare_ack_size : WireSize write_prepare_ack prepare_ack_wf 1024.
Proof. wire_size_record write_prepare_ack. Qed.
#[global] Instance prepare_reject_size : WireSize write_prepare_reject prepare_reject_wf 1024.
Proof. wire_size_record write_prepare_reject. Qed.
#[global] Instance chunk_size : WireSize write_chunk chunk_wf (kAbsoluteMaxFieldBytes + 28).
Proof. wire_size_record write_chunk. Qed.
#[global] Instance chunk_ack_size : WireSize write_chunk_ack chunk_ack_wf 1024.
Proof. wire_size_record write_chunk_ack. Qed.
#[global] Instance transfer_complete_size : WireSize write_transfer_complete transfer_complete_wf 1024.
Proof. wire_size_record write_transfer_complete. Qed.
#[global] Instance transfer_result_size : WireSize write_transfer_result transfer_result_wf 1024.
Proof. wire_size_record write_transfer_result. Qed.
#[global] Instance stage_size : WireSize write_stage stage_wf 1024.
Proof. wire_size_record write_stage. Qed.
#[global] Instance stage_ack_size : WireSize write_stage_ack stage_ack_wf 1024.
Proof. wire_size_record write_stage_ack. Qed.
#[global] Instance apply_prepare_size : WireSize write_apply_prepare apply_prepare_wf 1024.
Proof. wire_size_record write_apply_prepare. Qed.
#[global] Instance apply_prepare_ack_size : WireSize write_apply_prepare_ack apply_prepare_ack_wf 1024.
Proof. wire_size_record write_apply_prepare_ack. Qed.
#[global] Instance apply_commit_size : WireSize write_apply_commit apply_commit_wf 1024.
Proof. wire_size_record write_apply_commit. Qed.
#[global] Instance apply_commit_ack_size : WireSize write_apply_commit_ack apply_commit_ack_wf 1024.
Proof. wire_size_record write_apply_commit_ack. Qed.
#[global] Instance apply_abort_size : WireSize write_apply_abort apply_abort_wf 1024.
Proof. wire_size_record write_apply_abort. Qed.
#[global] Instance apply_abort_ack_size : WireSize write_apply_abort_ack apply_abort_ack_wf 1024.
Proof. wire_size_record write_apply_abort_ack. Qed.
#[global] Instance delivery_ack_size : WireSize write_delivery_ack delivery_ack_wf 1024.
Proof. wire_size_record write_delivery_ack. Qed.
#[global] Instance delivery_nack_size : WireSize write_delivery_nack delivery_nack_wf 1024.
Proof. wire_size_record write_delivery_nack. Qed.
#[global] Instance reconcile_request_size : WireSize write_reconcile_request reconcile_request_wf 1024.
Proof. wire_size_record write_reconcile_request. Qed.
#[global] Instance transfer_status_size : WireSize write_transfer_status transfer_status_wf 1024.
Proof. wire_size_record write_transfer_status. Qed.
#[global] Instance reconcile_finding_size : WireSize write_reconcile_finding reconcile_finding_wf 1024.
Proof. wire_size_record write_reconcile_finding. Qed.
#[global] Instance transfers_size : WireSize (w_counted write_transfer_status) transfers_ok 65540.
Proof. intros l Hl. by apply (counted_sized write_transfer_status _ 1024 kMaxTransfersInReport). Qed.
#[global] Instance findings_size : WireSize (w_counted write_reconcile_finding) findings_ok 65540.
Proof. intros l Hl. by apply (counted_sized write_reconcile_finding _ 1024 kMaxFindingsInReport). Qed.
#[global] Instance reconcile_report_size : WireSize write_reconcile_report reconcile_report_wf 262144.
Proof. wire_size_record write_reconcile_report. Qed.
#[global] Instance retire_size : WireSize write_retire retire_wf 1024.
Proof. wire_size_record write_retire. Qed.
#[global] Instance retire_ack_size : WireSize write_retire_ack retire_ack_wf 1024.
Proof. wire_size_record write_retire_ack. Qed.
#[global] Instance ping_size : WireSize write_ping ping_wf 1024.
Proof. wire_size_record write_ping. Qed.
#[global] Instance pong_size : WireSize write_pong pong_wf 1024.
Proof. wire_size_record write_pong. Qed.
#[global] Instance goodbye_size : WireSize write_goodbye goodbye_wf 1024.
Proof. wire_size_record write_goodbye. Qed.
#[global] Instance error_size : WireSize write_error error_wf 1024.
Proof. wire_size_record write_error. Qed.
#[global] Instance control_hello_size : WireSize write_control_hello control_hello_wf 1024.
Proof. wire_size_record write_control_hello. Qed.
#[global] Instance control_hello_ack_size : WireSize write_control_hello_ack control_hello_ack_wf 1024.
Proof. wire_size_record write_control_hello_ack. Qed.
#[global] Instance control_request_size : WireSize write_control_request control_request_wf 16384.
Proof. wire_size_record write_control_request. Qed.
#[global] Instance control_response_size : WireSize write_control_response control_response_wf (kMaxControlBodyBytes + 6).
Proof. wire_size_record write_control_response. Qed.

Lemma chunk_sized m : chunk_wf m → sized (write_chunk m) (28 + zlen (ck_data m)).
Proof.
  intros []. unfold write_chunk. eapply sized_le.
  - repeat (eapply sized_app; [sized_field|]). apply data_sized.
  - lia.
Qed.

(** The messages that fit the default ceiling: all, except chunks above half
    of it, which no sender produces. *)
Definition frame_sized (m : ProtocolMessage) : Prop :=
  match m with
  | MChunk c => zlen (ck_data c) <= kDefaultMaxPayloadBytes / 2
  | _ => True
  end.

(** The encoders write what their writer writes, or fail. *)
Ltac encoder_writes :=
  lazymatch goal with
  | He : (if ?b then fail _ _ else _) = Ok _ |- _ =>
      destruct b; [discriminate He|encoder_writes]
  | He : (if ?b then fail_detail _ _ _ else _) = Ok _ |- _ =>
      destruct b; [discriminate He|encoder_writes]
  | He : try_bind (checkDetail _) _ = Ok _ |- _ =>
      apply try_bind_Ok in He as ([] & _ & He); encoder_writes
  | _ => idtac
  end.
Ltac message_sized :=
  lazymatch goal with
  | He : ?enc ?m = Ok ?bs, H : ?wf ?m |- zlen ?bs <= _ =>
      unfold enc in He; encoder_writes;
      lazymatch type of He with
      | ?w m = Ok bs =>
          eapply Z.le_trans; [exact (wire_size (w := w) (wf := wf) m H bs He)|];
          vm_compute; discriminate
      end
  end.

Lemma message_size m bs :
  protocol_ok m → frame_sized m → encodeMessage m = Ok bs → zlen bs <= kDefaultMaxPayloadBytes.
Proof.
  intros Hm Hs He. destruct m; cbn [encodeMessage protocol_ok frame_sized] in *;
    try lazymatch type of Hm with _ ∧ _ => destruct Hm as [Hm _] end.
  all: try (clear Hs; message_sized).
  unfold encodeChunk in He. encoder_writes. apply (chunk_sized m Hm) in He.
  change (kDefaultMaxPayloadBytes / 2) with 524288 in Hs. change kDefaultMaxPayloadBytes with 1048576.
  lia.
Qed.

(** ** Authentication *)

Definition zero_tag : list byte := repeat Byte.x00 kAuthTagBytes.

(** The payload with its last 32 bytes replaced. *)
Definition retag (tag payload : list byte) : list byte :=
  take (length payload - kAuthTagBytes) payload ++ tag.

Definition sealAuthenticated (payload key : list byte) : Result (list byte) :=
  if (length payload <? kAuthTagBytes)%nat
  then fail ErrorCode.Internal "payload is too short to carry an authentication tag"
  else
    let zeroed := retag zero_tag payload in
    Ok (retag (hmacSha256 key zeroed) zeroed).

Definition verifyAuthenticated (payload key : list byte) : Status :=
  if (length payload <? kAuthTagBytes)%nat
  then fail ErrorCode.Unauthenticated "payload is too short to carry an authentication tag"
  else
    let tagOffset := (length payload - kAuthTagBytes)%nat in
    let scratch := retag zero_tag payload in
    let expected := hmacSha256 key scratch in
    if negb (constantTimeEquals (take kAuthTagBytes (drop tagOffset payload)) expected)
    then fail ErrorCode.Unauthenticated "peer authentication tag does not match"
    else Ok tt.

Lemma length_hmac key message : length (hmacSha256 key message) = kAuthTagBytes.
Proof. apply Sha256.finish_length. Qed.

Lemma retag_app (body t t' : list byte) : length t = kAuthTagBytes → retag t' (body ++ t) = body ++ t'.
Proof.
  intros Ht. unfold retag. rewrite length_app, Ht, Nat.add_sub, take_app_length. done.
Qed.

Lemma split_tag (payload : list byte) :
  (kAuthTagBytes <= length payload)%nat →
  ∃ body t, payload = body ++ t ∧ length t = kAuthTagBytes.
Proof.
  intros Hl. exists (take (length payload - kAuthTagBytes) payload),
    (drop (length payload - kAuthTagBytes) payload).
  rewrite take_drop, length_drop. split; [done|lia].
Qed.

Lemma seal_split body t key :
  length t = kAuthTagBytes →
  sealAuthenticated (body ++ t) key = Ok (body ++ hmacSha256 key (body ++ zero_tag)).
Proof.
  intros Ht. unfold sealAuthenticated. rewrite length_app, Ht.
  destruct (Nat.ltb_spec (length body + kAuthTagBytes) kAuthTagBytes); [lia|].
  by rewrite !retag_app.
Qed.

Lemma verify_split body t key :
  length t = kAuthTagBytes →
  verifyAuthenticated (body ++ t) key = Ok tt ↔ t = hmacSha256 key (body ++ zero_tag).
Proof.
  intros Ht. unfold verifyAuthenticated. rewrite length_app, Ht.
  destruct (Nat.ltb_spec (length body + kAuthTagBytes) kAuthTagBytes); [lia|].
  rewrite Nat.add_sub, drop_app_length, take_ge, retag_app by lia.
  destruct (constantTimeEquals _ _) eqn:E; cbn [negb].
  - apply constantTimeEquals_eq in E. tauto.
  - split; [done|]. intros Heq%constantTimeEquals_eq. congruence.
Qed.

(** *** The messages that carry a tag *)

(** The encoding ends in the tag, and nothing else depends on it. *)
Definition tagged (w : list byte → Writer) : Prop :=
  ∀ t bs, w t = Ok bs → ∃ body, bs = body ++ t ∧ ∀ t', w t' = Ok (body ++ t').

Lemma tagged_last : tagged Write.sha256.
Proof. intros t bs [= <-]. by exists []. Qed.
Lemma tagged_app a w : tagged w → tagged (λ t, a +++ w t).
Proof.
  intros Hw t bs (x & y & -> & Hy & ->)%w_append_Ok.
  destruct (Hw t y Hy) as (body & -> & Hall). exists (x ++ body).
  rewrite <- app_assoc. split; [done|]. intros t'. by rewrite Hall, <- app_assoc.
Qed.
Lemma tagged_guard c e w : tagged w → tagged (λ t, if c : bool then Fail e else w t).
Proof. intros Hw t bs. by destruct c; [|apply Hw]. Qed.

Class Authenticated {M} (encode : M → Result (list byte)) (tag : M → list byte)
    (with_tag : list byte → M → M) (ok : M → Prop) := {
  auth_tagged : ∀ m, tagged (λ t, encode (with_tag t m));
  auth_same : ∀ m, with_tag (tag m) m = m;
  auth_ok : ∀ m t, ok m → length t = kAuthTagBytes → ok (with_tag t m);
  auth_length : ∀ m, ok m → length (tag m) = kAuthTagBytes;
}.

Ltac authenticated enc w :=
  split;
  [intros m; unfold enc, fail, w; simpl; try apply tagged_guard;
   repeat apply tagged_app; apply tagged_last
  |by intros []
  |intros [] t Hok Ht;
   lazymatch type of Hok with _ ∧ _ => destruct Hok as [[] ?]; split; [|assumption] | _ => destruct Hok end;
   constructor; assumption
  |intros m Hok; lazymatch type of Hok with _ ∧ _ => by destruct Hok as [[] _] | _ => by destruct Hok end].

Definition hello_with_tag (t : list byte) (m : HelloMessage) : HelloMessage :=
  mkHelloMessage (he_nodeId m) (he_epoch m) (he_incarnation m) (he_nonce m)
    (he_minWireVersion m) (he_maxWireVersion m) (he_maxPayloadBytes m) (he_capabilities m) t.
#[global] Instance hello_authenticated :
  Authenticated encodeHello he_authTag hello_with_tag
    (λ m, hello_wf m ∧ check_hello m = Ok tt).
Proof. authenticated encodeHello write_hello. Qed.
Definition hello_ack_with_tag (t : list byte) (m : HelloAckMessage) : HelloAckMessage :=
  mkHelloAckMessage (ha_wireVersion m) (ha_target m) (ha_targetClass m) (ha_guarantee m)
    (ha_term m) (ha_incarnation m) (ha_nonce m) (ha_maxPayloadBytes m) (ha_capabilities m)
    (ha_committedGeneration m) (ha_committedDigest m) (ha_committedArtifact m)
    (ha_restartCount m) t.
#[global] Instance hello_ack_authenticated :
  Authenticated encodeHelloAck ha_authTag hello_ack_with_tag
    (λ m, hello_ack_wf m ∧ check_hello_ack m = Ok tt).
Proof. authenticated encodeHelloAck write_hello_ack. Qed.
Definition hello_confirm_with_tag (t : list byte) (m : HelloConfirmMessage) : HelloConfirmMessage :=
  mkHelloConfirmMessage t.
#[global] Instance hello_confirm_authenticated :
  Authenticated encodeHelloConfirm hc_authTag hello_confirm_with_tag hello_confirm_wf.
Proof. authenticated encodeHelloConfirm write_hello_confirm. Qed.
Definition control_hello_with_tag (t : list byte) (m : ControlHelloMessage) : ControlHelloMessage :=
  mkControlHelloMessage (ch_clientName m) (ch_nonce m) t.
#[global] Instance control_hello_authenticated :
  Authenticated encodeControlHello ch_authTag control_hello_with_tag
    (λ m, control_hello_wf m ∧ check_control_hello m = Ok tt).
Proof. authenticated encodeControlHello write_control_hello. Qed.
Definition control_hello_ack_with_tag (t : list byte) (m : ControlHelloAckMessage)
    : ControlHelloAckMessage :=
  mkControlHelloAckMessage (cha_nodeId m) (cha_epoch m) (cha_incarnation m) (cha_nonce m) t.
#[global] Instance control_hello_ack_authenticated :
  Authenticated encodeControlHelloAck cha_authTag control_hello_ack_with_tag control_hello_ack_wf.
Proof. authenticated encodeControlHelloAck write_control_hello_ack. Qed.

(** ** Log summaries *)

Definition renderMessageSummary (type : FrameType) (payload : list byte) : string :=
  frameTypeName type +:+
  match type with
  | FrameType.Prepare =>
      match decodePrepare payload with
      | Ok m => " deployment=" +:+ str (pr_deployment m) +:+ " gen="
                +:+ to_string (value (pr_generation m)) +:+ " digest=" +:+ shortDigest (pr_digest m)
      | _ => ""
      end
  | FrameType.Chunk =>
      match decodeChunk payload with
      | Ok m => " stream=" +:+ to_string (value (ck_stream m)) +:+ " seq="
                +:+ to_string (value (ck_sequence m)) +:+ " offset=" +:+ to_string (ck_offset m)
                +:+ " bytes=" +:+ to_string (zlen (ck_data m))
      | _ => ""
      end
  | FrameType.DeliveryAck =>
      match decodeDeliveryAck payload with
      | Ok m => " deployment=" +:+ str (da_deployment m) +:+ " state="
                +:+ deliveryStateName (da_state m)
      | _ => ""
      end
  | FrameType.DeliveryNack =>
      match decodeDeliveryNack payload with
      | Ok m => " deployment=" +:+ str (dn_deployment m) +:+ " code=" +:+ errorCodeName (dn_code m)
      | _ => ""
      end
  | _ => ""
  end.

(** ** Messages over a connection *)

(** The bytes a sender puts on the connection for a list of messages, stopping
    at the first that cannot be encoded. *)
Fixpoint send_all (maxPayloadBytes : Z) (ms : list ProtocolMessage) : Result (list byte) :=
  match ms with
  | [] => Ok []
  | m :: ms =>
      let* payload := encodeMessage m in
      let* frame := encodeFrame (message_type m) 0 payload maxPayloadBytes in
      let* rest := send_all maxPayloadBytes ms in
      Ok (frame ++ rest)
  end.
(** What a receiver makes of a frame. *)
Definition decode_frame (f : Frame) : Result ProtocolMessage :=
  decodeMessage (ftype (header f)) (fpayload f).

Lemma send_all_wire maxPayloadBytes ms :
  kDefaultMaxPayloadBytes <= maxPayloadBytes <= kAbsoluteMaxPayloadBytes →
  Forall protocol_ok ms → Forall frame_sized ms →
  ∃ fms, send_all maxPayloadBytes ms = Ok (wire fms) ∧ Forall (message_ok maxPayloadBytes) fms
    ∧ map decode_frame (map as_frame fms) = map Ok ms.
Proof.
  intros Hmax. induction ms as [|m ms IH]; intros Hok Hs.
  { by exists []. }
  apply Forall_cons_iff in Hok as [Hm Hok], Hs as [Hms Hs].
  destruct (IH Hok Hs) as (fms & Hsend & Hfms & Hdec). clear IH.
  destruct (message_codec (message_type m)) as [Hc _].
  destruct (Hc m (conj Hm eq_refl)) as (bs & He & Hd).
  pose proof (message_size m bs Hm Hms He) as Hsize.
  assert (sendable maxPayloadBytes 0 bs) as Hsd.
  { split; [lia|]. by vm_compute. }
  exists (mkMessage (message_type m) 0 bs :: fms). cbn [send_all map].
  rewrite He, Hsend. cbn [try_bind]. rewrite encodeFrame_sent by done. cbn [try_bind].
  split; [done|]. split; [by constructor|]. rewrite Hdec. f_equal. exact Hd.
Qed.

(** ** Properties *)

(** C32: the codecs of all thirty-three messages are exact. A payload is accepted
    for a frame type if and only if it is what the encoder writes for a
    well-formed message of that type, so no two payloads decode to one message
    and no payload decodes to two; and every well-formed message can be
    encoded. *)
Theorem message_codec_exact t bs m :
  (decodeMessage t bs = Ok m ↔ message_type m = t ∧ protocol_ok m ∧ encodeMessage m = Ok bs)
  ∧ (protocol_ok m → ∃ bs, encodeMessage m = Ok bs ∧ decodeMessage (message_type m) bs = Ok m).
Proof.
  destruct (message_codec t) as [Hc Hs]. split; [split|].
  - intros Hd. apply Hs in Hd as [[Hok Ht] He]. done.
  - intros (Ht & Hok & He). destruct (Hc m (conj Hok Ht)) as (bs' & He' & Hd).
    rewrite He in He'. by injection He' as ->.
  - intros Hok. destruct (message_codec (message_type m)) as [Hc' _]. by apply Hc'.
Qed.

Definition example_id {Tag} : StrongString Tag := mkString "d1".
Definition example_digest : Digest := fromBytes (repeat Byte.x07 32).
Definition example_prepare : PrepareMessage :=
  mkPrepareMessage example_id example_id example_id (fromValue 3) example_digest 10 example_id
    (fromValue 1) GuaranteeRequirement.RequireAtomic ApplyGuarantee.AtomicActivate (fromValue 1)
    (fromValue 1) (fromValue 9) 1024 0.
Definition example_conversation : list ProtocolMessage :=
  [MPrepare example_prepare;
   MChunk (mkChunkMessage (fromValue 9) (fromValue 0) 0 (repeat Byte.x41 10));
   MPing (mkPingMessage 5)].

Lemma example_conversation_ok : Forall protocol_ok example_conversation.
Proof.
  repeat constructor; try (vm_compute; first [reflexivity|discriminate|split; congruence]).
Qed.

Lemma message_codec_exact_witness :
  ∃ bs, encodeMessage (MPrepare example_prepare) = Ok bs
    ∧ decodeMessage FrameType.Prepare bs = Ok (MPrepare example_prepare).
Proof.
  apply (message_codec_exact FrameType.Prepare [] (MPrepare example_prepare)).
  exact (Forall_inv example_conversation_ok).
Defined.

(** A conversation arrives as it was sent. Any sequence of well-formed
    messages is encoded and framed within the default payload ceiling, and
    however the byte stream is cut into reads, the receiver decodes exactly
    that sequence, in order, with nothing left over. *)
Theorem conversation_delivered maxPayloadBytes ms
    (Hmax : kDefaultMaxPayloadBytes <= maxPayloadBytes <= kAbsoluteMaxPayloadBytes)
    (Hok : Forall protocol_ok ms) (Hsized : Forall frame_sized ms) :
  ∃ stream, send_all maxPayloadBytes ms = Ok stream
    ∧ ∀ chunks, concat chunks = stream → zlen stream < 2 ^ 64 →
      ∃ d frames, feed_all chunks (newDecoder maxPayloadBytes) = (d, frames, Ok tt)
        ∧ finish "stream" d = Ok tt ∧ map decode_frame frames = map Ok ms.
Proof.
  destruct (send_all_wire maxPayloadBytes ms Hmax Hok Hsized) as (fms & Hsend & Hfms & Hdec).
  exists (wire fms). split; [done|]. intros chunks Hc Hlen.
  destruct (stream_decodes maxPayloadBytes fms chunks) as (d & Hrun & Hfin); [|done..|].
  { change kDefaultMaxPayloadBytes with 1048576 in Hmax. lia. }
  by exists d, (map as_frame fms).
Qed.

Lemma conversation_delivered_witness :
  ∃ stream, send_all kDefaultMaxPayloadBytes example_conversation = Ok stream.
Proof.
  destruct (conversation_delivered kDefaultMaxPayloadBytes example_conversation)
    as (stream & Hsend & _).
  - split; vm_compute; discriminate.
  - exact example_conversation_ok.
  - repeat constructor; vm_compute; discriminate.
  - by exists stream.
Defined.

(** Sealing and verification agree exactly. A payload verifies under a key
    if and only if sealing it changes nothing, and whatever has been sealed
    verifies; so for given content and key exactly one tag is accepted. *)
Theorem seal_verify_exact payload key :
  (verifyAuthenticated payload key = Ok tt ↔ sealAuthenticated payload key = Ok payload)
  ∧ match sealAuthenticated payload key with
    | Ok sealed => verifyAuthenticated sealed key = Ok tt ∧ length sealed = length payload
    | _ => (length payload < kAuthTagBytes)%nat
    end.
Proof.
  destruct (Nat.ltb_spec (length payload) kAuthTagBytes) as [Hs|Hs].
  - unfold verifyAuthenticated, sealAuthenticated.
    rewrite (proj2 (Nat.ltb_lt _ _) Hs). done.
  - destruct (split_tag payload Hs) as (body & t & -> & Ht). rewrite seal_split, verify_split by done.
    split; [split|split].
    + by intros ->.
    + intros [= Heq]. by apply app_inv_head in Heq.
    + apply verify_split; [apply length_hmac|done].
    + by rewrite !length_app, length_hmac, Ht.
Qed.

(** What sealing and verifying do to an encoded message with a tag. *)
Lemma authentication_exact {M} (encode : M → Result (list byte)) decode ok tag with_tag
    `{!Codec encode decode ok} `{!Authenticated encode tag with_tag ok} bs m key
    (Hd : decode bs = Ok m) :
  ∃ zeroed, encode (with_tag zero_tag m) = Ok zeroed
    ∧ (verifyAuthenticated bs key = Ok tt ↔ tag m = hmacSha256 key zeroed)
    ∧ ∃ sealed, sealAuthenticated bs key = Ok sealed ∧ verifyAuthenticated sealed key = Ok tt
      ∧ decode sealed = Ok (with_tag (hmacSha256 key zeroed) m).
Proof.
  apply (codec_sound (decode := decode)) in Hd as [Hok He].
  rewrite <- (auth_same (encode := encode) m) in He.
  destruct (auth_tagged (encode := encode) m _ _ He) as (body & -> & Hall).
  pose proof (auth_length (encode := encode) m Hok) as Hl.
  exists (body ++ zero_tag). split; [apply Hall|]. split; [by apply verify_split|].
  exists (body ++ hmacSha256 key (body ++ zero_tag)). split; [by apply seal_split|].
  split; [apply verify_split; [apply length_hmac|done]|].
  destruct (codec_complete (decode := decode) (with_tag (hmacSha256 key (body ++ zero_tag)) m))
    as (bs & He' & Hd'); [by apply (auth_ok (encode := encode)), length_hmac|].
  rewrite Hall in He'. by injection He' as <-.
Qed.

(** C33: a handshake message is accepted under a key exactly when its tag is the
    HMAC of the message with a zero tag: the tag covers every field and the
    layout of the message; and sealing an encoded message changes the tag and
    nothing else. *)
Theorem handshake_authenticated {M} (encode : M → Result (list byte)) decode ok tag with_tag
    `{!Codec encode decode ok} `{!Authenticated encode tag with_tag ok} bs m key
    (Hd : decode bs = Ok m) :
  ∃ zeroed, encode (with_tag zero_tag m) = Ok zeroed
    ∧ (verifyAuthenticated bs key = Ok tt ↔ tag m = hmacSha256 key zeroed)
    ∧ ∃ sealed, sealAuthenticated bs key = Ok sealed ∧ verifyAuthenticated sealed key = Ok tt
      ∧ decode sealed = Ok (with_tag (hmacSha256 key zeroed) m).
Proof. by apply (authentication_exact encode decode ok tag with_tag). Qed.

Definition example_hello : HelloMessage :=
  mkHelloMessage example_id (fromValue 1) (mkOpaque (repeat Byte.x01 16))
    (mkOpaque (repeat Byte.x02 16)) 1 1 1024 0x1F zero_tag.

Lemma handshake_authenticated_witness :
  ∃ bs zeroed, decodeHello bs = Ok example_hello
    ∧ encodeHello (hello_with_tag zero_tag example_hello) = Ok zeroed
    ∧ (verifyAuthenticated bs [Byte.x41] = Ok tt ↔ zero_tag = hmacSha256 [Byte.x41] zeroed).
Proof.
  destruct (codec_complete (encode := encodeHello) example_hello) as (bs & _ & Hd).
  { split; [|reflexivity]. split; vm_compute; first [reflexivity|split; congruence]. }
  destruct (handshake_authenticated encodeHello decodeHello _ he_authTag hello_with_tag
              bs example_hello [Byte.x41] Hd) as (zeroed & He & Hv & _).
  by exists bs, zeroed.
Defined.

(** C38: a chunk between 1 MiB and the 8 MiB that kMaxChunkPayloadBytes allows
    ends the process: encodeChunk accepts its size, and the contract of
    ByteWriter::string, which bounds every field by 1 MiB, fails. *)
Theorem large_chunk_aborts m
    (Hlarge : kAbsoluteMaxFieldBytes < zlen (ck_data m) <= kMaxChunkPayloadBytes) :
  encodeChunk m = Abort "encoded string exceeds the absolute bound".
Proof.
  unfold encodeChunk. rewrite gtb_le_false by lia. unfold write_chunk, write_data, Write.string.
  rewrite slen_string_of_bytes, (proj2 (Z.leb_le _ _)) by lia.
  by rewrite (proj2 (Z.leb_gt _ _)) by lia.
Qed.

Lemma large_chunk_aborts_witness :
  encodeChunk (mkChunkMessage (fromValue 1) (fromValue 0) 0 (repeat Byte.x00 (Z.to_nat 2097152)))
  = Abort "encoded string exceeds the absolute bound".
Proof.
  apply (large_chunk_aborts
           (mkChunkMessage (fromValue 1) (fromValue 0) 0 (repeat Byte.x00 (Z.to_nat 2097152)))).
  unfold zlen. cbn [ck_data]. rewrite repeat_length, Z2Nat.id by lia. split; reflexivity || discriminate.
Defined.
