(* ===== verification/Reconciliation.v ===== *)
(** * Reconciliation

    Models include/cf/reconciliation.hpp and src/reconciliation.cpp: what a
    distributor concludes about one delivery from the live report of its
    target. [None] stands for the null report pointer. *)

From Stdlib Require Import Strings.Byte.
From S2P Require Import Prelude Result Hash Ids Codec Lifecycle Messages.

Module ReconcileOutcome.
Inductive t :=
  | DriveNormally
  | AdoptActivation
  | ResumeTransfer
  | RetireStale
  | ResolvePrepareWindow
  | FenceAuthority
  | UnknownAtTarget.
End ReconcileOutcome.
Abbreviation ReconcileOutcome := ReconcileOutcome.t.
#[global] Instance ReconcileOutcome_eq_dec : EqDecision ReconcileOutcome.
Proof. solve_decision. Defined.

Definition reconcileOutcomeName (outcome : ReconcileOutcome) : string :=
  match outcome with
  | ReconcileOutcome.DriveNormally => "drive-normally"
  | ReconcileOutcome.AdoptActivation => "adopt-activation"
  | ReconcileOutcome.ResumeTransfer => "resume-transfer"
  | ReconcileOutcome.RetireStale => "retire-stale"
  | ReconcileOutcome.ResolvePrepareWindow => "resolve-prepare-window"
  | ReconcileOutcome.FenceAuthority => "fence-authority"
  | ReconcileOutcome.UnknownAtTarget => "unknown-at-target"
  end.

Record ReconcileInput := mkReconcileInput {
  ri_report : option ReconcileReportMessage;
  ri_sessionTerm : Term;
  ri_sessionIncarnation : IncarnationId;
  ri_desiredGeneration : Generation;
  ri_desiredDigest : Digest;
  ri_key : ConfigKey;
  ri_deployment : DeploymentId;
  ri_state : DeliveryState;
  ri_guarantee : ApplyGuarantee;
  ri_requirement : GuaranteeRequirement;
  ri_artifactAvailable : bool;
}.

Record ReconcileDecision := mkReconcileDecision {
  rd_outcome : ReconcileOutcome;
  rd_reason : string;
  rd_adoptedState : DeliveryState;
  rd_resumeFromOffset : Z;
  rd_targetGeneration : Generation;
  rd_targetDigest : Digest;
}.

(** A decision with every optional field at its default. *)
Definition plain_decision (outcome : ReconcileOutcome) (reason : string) : ReconcileDecision :=
  mkReconcileDecision outcome reason DeliveryState.Applied 0 num_unset digest_unset.

Definition ReconcileDecision_render (d : ReconcileDecision) : string :=
  "reconcile: " +:+ reconcileOutcomeName (rd_outcome d) +:+ " - " +:+ rd_reason d
    +:+ (if bool_decide (rd_outcome d = ReconcileOutcome.ResumeTransfer)
         then " resume-from=" +:+ to_string (rd_resumeFromOffset d) else "")
    +:+ (if bool_decide (rd_outcome d = ReconcileOutcome.RetireStale)
         then " target-generation=" +:+ to_string (value (rd_targetGeneration d)) else "").

(** The first transfer of the report with that deployment. *)
Definition findTransferStatus (report : ReconcileReportMessage) (deployment : DeploymentId)
    : option TransferStatusRecord :=
  List.find (λ t, bool_decide (ts_deployment t = deployment)) (rp_transfers report).

(** The key is taken and ignored, as in the code. *)
Definition finding_proves (generation : Generation) (digest : Digest) (f : ReconcileFinding) : bool :=
  bool_decide (rf_generation f = generation) && bool_decide (rf_digest f = digest)
  && isActivationState (rf_state f).
Definition reportProvesActivation (report : ReconcileReportMessage) (generation : Generation)
    (digest : Digest) (key : ConfigKey) : bool :=
  if negb (num_isSet generation) || negb (digest_isSet digest) then false
  else if negb (bool_decide (rp_committedGeneration report = generation))
          || negb (bool_decide (rp_committedDigest report = digest))
  then existsb (finding_proves generation digest) (rp_findings report)
  else true.

(** The last part: nothing is proved, so the transfers decide. *)
Definition reconcileTransfer (input : ReconcileInput) (report : ReconcileReportMessage)
    : ReconcileDecision :=
  let desired := ri_desiredGeneration input in
  let transfer := findTransferStatus report (ri_deployment input) in
  let current (t : TransferStatusRecord) :=
    bool_decide (ts_generation t = desired)
    && bool_decide (ts_digest t = ri_desiredDigest input) in
  let resumable (t : TransferStatusRecord) :=
    (ts_bytesReceived t >? 0) && current t && (ts_bytesReceived t <? ts_totalBytes t) in
  let nothing :=
    plain_decision ReconcileOutcome.DriveNormally
      "the target holds nothing usable for this deployment; it is driven normally" in
  match transfer with
  | Some t =>
      if resumable t
      then mkReconcileDecision ReconcileOutcome.ResumeTransfer
             ("the target holds " +:+ to_string (ts_bytesReceived t)
              +:+ " verified byte(s) for this deployment; restarting the transfer would discard them")
             DeliveryState.Applied (ts_bytesReceived t) num_unset digest_unset
      else if ts_verified t && ts_staged t && current t
      then plain_decision ReconcileOutcome.DriveNormally
             "the target holds a verified, staged artifact for this generation; activation is the remaining boundary"
      else nothing
  | None =>
      if negb (num_isSet (rp_committedGeneration report))
         && bool_decide (length (rp_findings report) = 0%nat)
      then plain_decision ReconcileOutcome.UnknownAtTarget
             "the target reports no state at all; the delivery starts from the beginning"
      else nothing
  end.

Definition reconcileDelivery (input : ReconcileInput) : ReconcileDecision :=
  match ri_report input with
  | None =>
      plain_decision ReconcileOutcome.DriveNormally
        "no live report from the target in this session; persisted evidence is not treated as current, so the delivery is driven from its recorded state"
  | Some report =>
      let desired := ri_desiredGeneration input in
      if negb (bool_decide (rp_term report = ri_sessionTerm input))
         || negb (bool_decide (rp_incarnation report = ri_sessionIncarnation input))
      then plain_decision ReconcileOutcome.FenceAuthority
             "the report carries target authority that does not match the authenticated session"
      else if rp_applyPrepared report
      then plain_decision ReconcileOutcome.ResolvePrepareWindow
             ("the target reports an unresolved prepare/commit window for generation "
              +:+ to_string (value (rp_preparedGeneration report))
              +:+ "; committing blind could activate content the target never verified")
      else if num_isSet (rp_committedGeneration report)
              && num_lt desired (rp_committedGeneration report)
      then mkReconcileDecision ReconcileOutcome.RetireStale
             ("the target is already at generation "
              +:+ to_string (value (rp_committedGeneration report))
              +:+ ", which is newer than the desired generation " +:+ to_string (value desired)
              +:+ "; pushing this delivery would move the target backwards")
             DeliveryState.Applied 0 (rp_committedGeneration report) (rp_committedDigest report)
      else if reportProvesActivation report desired (ri_desiredDigest input) (ri_key input)
      then plain_decision ReconcileOutcome.AdoptActivation
             ("the target reports generation " +:+ to_string (value desired)
              +:+ " with the expected digest as active under the current incarnation")
      else reconcileTransfer input report
  end.

(** ** What each outcome rests on *)

(** The report comes from the session's own target process. *)
Definition authoritative (input : ReconcileInput) (report : ReconcileReportMessage) : Prop :=
  ri_report input = Some report ∧ rp_term report = ri_sessionTerm input
  ∧ rp_incarnation report = ri_sessionIncarnation input.

(** No window is open and nothing newer is committed. *)
Definition settled (input : ReconcileInput) (report : ReconcileReportMessage) : Prop :=
  rp_applyPrepared report = false
  ∧ (num_isSet (rp_committedGeneration report) = true →
     value (rp_committedGeneration report) <= value (ri_desiredGeneration input)).

(** The target runs exactly the desired content, or recorded its activation. *)
Definition activation_evidence (input : ReconcileInput) (report : ReconcileReportMessage) : Prop :=
  (rp_committedGeneration report = ri_desiredGeneration input
   ∧ rp_committedDigest report = ri_desiredDigest input)
  ∨ ∃ f, f ∈ rp_findings report ∧ rf_generation f = ri_desiredGeneration input
      ∧ rf_digest f = ri_desiredDigest input ∧ isActivationState (rf_state f) = true.

Lemma reportProvesActivation_iff report generation digest key :
  reportProvesActivation report generation digest key = true ↔
  num_isSet generation = true ∧ digest_isSet digest = true
  ∧ ((rp_committedGeneration report = generation ∧ rp_committedDigest report = digest)
     ∨ ∃ f, f ∈ rp_findings report ∧ rf_generation f = generation ∧ rf_digest f = digest
         ∧ isActivationState (rf_state f) = true).
Proof.
  assert (existsb (finding_proves generation digest) (rp_findings report) = true ↔
          ∃ f, f ∈ rp_findings report ∧ rf_generation f = generation ∧ rf_digest f = digest
            ∧ isActivationState (rf_state f) = true) as Hf.
  { rewrite existsb_exists. unfold finding_proves.
    setoid_rewrite andb_true_iff. setoid_rewrite andb_true_iff.
    setoid_rewrite bool_decide_eq_true. setoid_rewrite <- list_elem_of_In. naive_solver. }
  unfold reportProvesActivation.
  destruct (num_isSet generation), (digest_isSet digest); cbn [negb orb]; [|naive_solver..].
  destruct (bool_decide_reflect (rp_committedGeneration report = generation)),
    (bool_decide_reflect (rp_committedDigest report = digest)); cbn [negb orb]; rewrite ?Hf;
    naive_solver.
Qed.

Lemma findTransferStatus_Some report deployment t :
  findTransferStatus report deployment = Some t →
  t ∈ rp_transfers report ∧ ts_deployment t = deployment.
Proof.
  unfold findTransferStatus. intros [Hin Hd]%find_some.
  apply list_elem_of_In in Hin. by apply bool_decide_eq_true in Hd.
Qed.

(** Walk through the guards of [reconcileDelivery]. *)
Ltac split_ifs :=
  repeat match goal with |- context [if ?b then _ else _] => destruct b eqn:? end.
Ltac split_reconcile :=
  unfold reconcileDelivery;
  lazymatch goal with |- context [ri_report ?i] => destruct (ri_report i) eqn:? end; split_ifs;
  unfold reconcileTransfer; cbv zeta;
  try (lazymatch goal with
       | |- context [findTransferStatus ?r ?d] => destruct (findTransferStatus r d) eqn:?
       end; split_ifs);
  unfold plain_decision; cbn [rd_outcome rd_resumeFromOffset rd_targetGeneration rd_targetDigest].

Lemma settled_intro input report :
  rp_applyPrepared report = false →
  num_isSet (rp_committedGeneration report)
  && num_lt (ri_desiredGeneration input) (rp_committedGeneration report) = false →
  settled input report.
Proof.
  intros Hp Hc. split; [done|]. intros Hs. rewrite Hs in Hc. unfold num_lt in Hc. simpl in Hc. lia.
Qed.

Lemma authoritative_intro input report :
  ri_report input = Some report →
  negb (bool_decide (rp_term report = ri_sessionTerm input))
  || negb (bool_decide (rp_incarnation report = ri_sessionIncarnation input)) = false →
  authoritative input report.
Proof.
  intros Hr [H1 H2]%orb_false_iff. apply negb_false_iff, bool_decide_eq_true in H1, H2. done.
Qed.

(** What the outcome of [reconcileDelivery] rests on, case by case. *)
Lemma outcome_rests_on input :
  let d := reconcileDelivery input in
  match rd_outcome d with
  | ReconcileOutcome.AdoptActivation =>
      ∃ report, authoritative input report ∧ settled input report
        ∧ activation_evidence input report
  | ReconcileOutcome.ResumeTransfer =>
      ∃ report t, authoritative input report ∧ settled input report ∧ t ∈ rp_transfers report
        ∧ ts_deployment t = ri_deployment input ∧ ts_generation t = ri_desiredGeneration input
        ∧ ts_digest t = ri_desiredDigest input ∧ rd_resumeFromOffset d = ts_bytesReceived t
        ∧ 0 < ts_bytesReceived t < ts_totalBytes t
  | ReconcileOutcome.RetireStale =>
      ∃ report, authoritative input report ∧ rp_applyPrepared report = false
        ∧ rd_targetGeneration d = rp_committedGeneration report
        ∧ value (ri_desiredGeneration input) < value (rp_committedGeneration report)
  | ReconcileOutcome.ResolvePrepareWindow =>
      ∃ report, authoritative input report ∧ rp_applyPrepared report = true
  | ReconcileOutcome.FenceAuthority =>
      ∃ report, ri_report input = Some report ∧ ¬ authoritative input report
  | ReconcileOutcome.UnknownAtTarget =>
      ∃ report, authoritative input report ∧ num_isSet (rp_committedGeneration report) = false
        ∧ rp_findings report = []
  | ReconcileOutcome.DriveNormally => True
  end.
Proof.
  cbv zeta. split_reconcile; try done; eexists.
  - split; [done|]. intros (Hr & Ht & Hi). simplify_eq. by rewrite !bool_decide_true in * by done.
  - split; [by apply authoritative_intro|done].
  - split; [by apply authoritative_intro|]. split; [done|]. split; [done|].
    unfold num_lt in *. lia.
  - split; [by apply authoritative_intro|]. split; [by apply settled_intro|].
    by eapply reportProvesActivation_iff.
  - apply findTransferStatus_Some in Heqo0 as [Hin Hd].
    repeat match goal with H : _ && _ = true |- _ => apply andb_true_iff in H as [? ?] end.
    repeat match goal with H : bool_decide _ = true |- _ => apply bool_decide_eq_true in H end.
    eexists. split; [by apply authoritative_intro|]. split; [by apply settled_intro|].
    repeat split; try done; lia.
  - split; [by apply authoritative_intro|].
    repeat match goal with H : _ && _ = true |- _ => apply andb_true_iff in H as [? ?] end.
    split; [by apply negb_true_iff|]. by eapply length_zero_iff_nil, bool_decide_eq_true_1.
Qed.

(** What the outcome must be, given what the report says. *)
Lemma outcome_complete input report (Hauth : authoritative input report) :
  let out := rd_outcome (reconcileDelivery input) in
  (rp_applyPrepared report = true → out = ReconcileOutcome.ResolvePrepareWindow)
  ∧ (rp_applyPrepared report = false → num_isSet (rp_committedGeneration report) = true →
     value (ri_desiredGeneration input) < value (rp_committedGeneration report) →
     out = ReconcileOutcome.RetireStale)
  ∧ (settled input report → activation_evidence input report →
     num_isSet (ri_desiredGeneration input) = true → digest_isSet (ri_desiredDigest input) = true →
     out = ReconcileOutcome.AdoptActivation).
Proof.
  destruct Hauth as (Hr & Ht & Hi). cbv zeta. unfold reconcileDelivery.
  rewrite Hr, !bool_decide_true by done. cbn [negb orb]. split; [|split].
  - by intros ->.
  - intros -> -> Hlt. unfold num_lt. by rewrite (proj2 (Z.ltb_lt _ _) Hlt).
  - intros [-> Hset] Hev Hg Hd.
    assert (num_isSet (rp_committedGeneration report)
            && num_lt (ri_desiredGeneration input) (rp_committedGeneration report) = false) as ->.
    { destruct (num_isSet _); [|done]. unfold num_lt. specialize (Hset eq_refl). lia. }
    by rewrite (proj2 (reportProvesActivation_iff report _ _ (ri_key input))).
Qed.

(** ** Properties *)

(** Every conclusion that changes a delivery rests on evidence from the
    authenticated target process. An activation is adopted only when no prepare
    window is open, nothing newer is committed, and the target runs, or recorded
    activating, exactly the desired generation and digest; a transfer resumes
    strictly inside the bytes the target holds for that very content; a delivery
    is retired only for a strictly newer committed generation. *)
Theorem reconcile_evidence input :
  let d := reconcileDelivery input in
  match rd_outcome d with
  | ReconcileOutcome.AdoptActivation =>
      ∃ report, authoritative input report ∧ settled input report
        ∧ activation_evidence input report
  | ReconcileOutcome.ResumeTransfer =>
      ∃ report t, authoritative input report ∧ settled input report ∧ t ∈ rp_transfers report
        ∧ ts_deployment t = ri_deployment input ∧ ts_generation t = ri_desiredGeneration input
        ∧ ts_digest t = ri_desiredDigest input ∧ rd_resumeFromOffset d = ts_bytesReceived t
        ∧ 0 < ts_bytesReceived t < ts_totalBytes t
  | ReconcileOutcome.RetireStale =>
      ∃ report, authoritative input report ∧ rp_applyPrepared report = false
        ∧ rd_targetGeneration d = rp_committedGeneration report
        ∧ value (ri_desiredGeneration input) < value (rp_committedGeneration report)
  | ReconcileOutcome.ResolvePrepareWindow =>
      ∃ report, authoritative input report ∧ rp_applyPrepared report = true
  | ReconcileOutcome.FenceAuthority =>
      ∃ report, ri_report input = Some report ∧ ¬ authoritative input report
  | ReconcileOutcome.UnknownAtTarget =>
      ∃ report, authoritative input report ∧ num_isSet (rp_committedGeneration report) = false
        ∧ rp_findings report = []
  | ReconcileOutcome.DriveNormally => True
  end.
Proof. exact (outcome_rests_on input). Qed.

(** Conclusions are complete: a report that proves the activation and is
    current is always adopted, an open window is always resolved first, and a
    newer committed generation always retires the delivery, whatever the
    transfers and findings say. *)
Theorem reconcile_complete input report (Hauth : authoritative input report) :
  let out := rd_outcome (reconcileDelivery input) in
  (rp_applyPrepared report = true → out = ReconcileOutcome.ResolvePrepareWindow)
  ∧ (rp_applyPrepared report = false → num_isSet (rp_committedGeneration report) = true →
     value (ri_desiredGeneration input) < value (rp_committedGeneration report) →
     out = ReconcileOutcome.RetireStale)
  ∧ (settled input report → activation_evidence input report →
     num_isSet (ri_desiredGeneration input) = true → digest_isSet (ri_desiredDigest input) = true →
     out = ReconcileOutcome.AdoptActivation).
Proof. exact (outcome_complete input report Hauth). Qed.

Definition example_report (committed : Generation) (digest : Digest)
    (findings : list ReconcileFinding) : ReconcileReportMessage :=
  mkReconcileReportMessage (mkString "t1") TargetClass.Unspecified ApplyGuarantee.AtomicActivate
    (fromValue 4) (mkOpaque (repeat Byte.x09 16)) committed digest id_empty false id_empty
    num_unset digest_unset 0 0 [] findings.
Definition example_input (report : ReconcileReportMessage) : ReconcileInput :=
  mkReconcileInput (Some report) (fromValue 4) (mkOpaque (repeat Byte.x09 16)) (fromValue 7)
    (fromBytes (repeat Byte.x07 32)) (mkString "routes") (mkString "d1") DeliveryState.Offered
    ApplyGuarantee.AtomicActivate GuaranteeRequirement.RequireAtomic true.

Lemma reconcile_complete_witness :
  let report := example_report (fromValue 7) (fromBytes (repeat Byte.x07 32)) [] in
  rd_outcome (reconcileDelivery (example_input report)) = ReconcileOutcome.AdoptActivation.
Proof.
  intros report. apply (reconcile_complete (example_input report) report).
  - done.
  - split; [done|]. by vm_compute.
  - by left.
  - reflexivity.
  - reflexivity.
Defined.

(** An activation recorded for another configuration key, and no longer
    live, is adopted for this one: the target has generation 3 of some content
    committed, its findings mention the desired generation and digest under the
    key "acl", and the delivery under the key "routes" is adopted as applied. *)
Theorem foreign_finding_adopted :
  let finding := mkReconcileFinding (mkString "acl") (fromValue 7) (fromBytes (repeat Byte.x07 32))
                   id_empty (mkString "d0") DeliveryState.Applied 0 in
  let report := example_report (fromValue 3) (fromBytes (repeat Byte.x03 32)) [finding] in
  let d := reconcileDelivery (example_input report) in
  rd_outcome d = ReconcileOutcome.AdoptActivation ∧ rd_adoptedState d = DeliveryState.Applied
  ∧ rf_key finding ≠ ri_key (example_input report)
  ∧ rp_committedGeneration report ≠ ri_desiredGeneration (example_input report).
Proof. repeat split; done. Qed.
