(* ===== verification/State.v ===== *)
(** * Authoritative state

    Models [ControllerState] and [AgentState] of include/cf/state.hpp with
    their queries, snapshot codecs and journal-record application in
    src/state.cpp. Applying a record reads the payload field by field and
    assigns as it reads, so a record that fails half way leaves the state
    partly changed; [Step] threads the state through success and failure. *)

From Stdlib Require Import Strings.Byte.
From S2P Require Import Prelude Result StdMap Hash Ids Codec Lifecycle Journal Artifact Records.

(** ** Stateful reading *)

Definition Step (S A : Type) : Type := S → ByteReader → S * Result (A * ByteReader).

Definition st_read {S A} (p : Parser A) : Step S A := λ s r, (s, p r).
Definition st_set {S} (f : S → S) : Step S unit := λ s r, (f s, Ok (tt, r)).
Definition st_bind {S A B} (m : Step S A) (k : A → Step S B) : Step S B := λ s r,
  match m s r with
  | (s', Ok (a, r')) => k a s' r'
  | (s', Fail e) => (s', Fail e)
  | (s', Abort w) => (s', Abort w)
  end.
Notation "'let+' x := p 'in' k" := (st_bind (st_read p) (λ x, k))
  (at level 10, x pattern, p at level 100, k at level 200) : cf_scope.
Notation "'set+' f 'in' k" := (st_bind (st_set f) (λ _, k))
  (at level 10, f at level 100, k at level 200) : cf_scope.

(** Run the case of one record, then require the end of the payload. *)
Definition run_apply {S} (step : Step S unit) (s : S) (payload : list byte) : S * Status :=
  match step s (reader payload) with
  | (s', Ok (_, r)) => (s', let* _ := Read.requireEnd r in Ok tt)
  | (s', Fail e) => (s', Fail e)
  | (s', Abort w) => (s', Abort w)
  end.

(** ** Controller state *)

Record ControllerState := mkControllerState {
  cs_nodeId : NodeId;
  cs_epoch : Epoch;
  cs_incarnation : IncarnationId;
  cs_startedAtMillis : Z;
  cs_targets : list (TargetId * TargetRuntime);
  cs_deliveries : list (DeploymentId * DeliveryRecord);
  cs_artifacts : list (Digest * ArtifactMetadata);
}.

Definition ControllerState_default : ControllerState :=
  mkControllerState id_empty num_unset opaque_unset 0 [] [] [].

Definition cs_set_nodeId v s := mkControllerState v (cs_epoch s) (cs_incarnation s)
  (cs_startedAtMillis s) (cs_targets s) (cs_deliveries s) (cs_artifacts s).
Definition cs_set_epoch v s := mkControllerState (cs_nodeId s) v (cs_incarnation s)
  (cs_startedAtMillis s) (cs_targets s) (cs_deliveries s) (cs_artifacts s).
Definition cs_set_incarnation v s := mkControllerState (cs_nodeId s) (cs_epoch s) v
  (cs_startedAtMillis s) (cs_targets s) (cs_deliveries s) (cs_artifacts s).
Definition cs_set_startedAt v s := mkControllerState (cs_nodeId s) (cs_epoch s) (cs_incarnation s)
  v (cs_targets s) (cs_deliveries s) (cs_artifacts s).
Definition cs_set_targets v s := mkControllerState (cs_nodeId s) (cs_epoch s) (cs_incarnation s)
  (cs_startedAtMillis s) v (cs_deliveries s) (cs_artifacts s).
Definition cs_set_deliveries v s := mkControllerState (cs_nodeId s) (cs_epoch s) (cs_incarnation s)
  (cs_startedAtMillis s) (cs_targets s) v (cs_artifacts s).
Definition cs_set_artifacts v s := mkControllerState (cs_nodeId s) (cs_epoch s) (cs_incarnation s)
  (cs_startedAtMillis s) (cs_targets s) (cs_deliveries s) v.

(** *** Queries *)

Definition pendingDeliveries (s : ControllerState) : list DeliveryRecord :=
  filter (λ r, isPendingState (dr_state r) = true) (map snd (cs_deliveries s)).
Definition findDelivery (id : DeploymentId) (s : ControllerState) : option DeliveryRecord :=
  map_find id (cs_deliveries s).
Definition findTarget (id : TargetId) (s : ControllerState) : option TargetRuntime :=
  map_find id (cs_targets s).

(** [a] is newer than [b] within a lineage; [std::string] comparison of the
    identities breaks ties. *)
Definition newer_delivery (a b : DeliveryRecord) : bool :=
  (value (dr_generation a) >? value (dr_generation b))
  || ((value (dr_generation a) =? value (dr_generation b))
      && match key_cmp (str (dr_id a)) (str (dr_id b)) with Gt => true | _ => false end).

Definition latestForLineage (target : TargetId) (key : ConfigKey) (s : ControllerState)
    : option DeliveryRecord :=
  foldl (λ newest r,
    if negb (bool_decide (dr_target r = target)) || negb (bool_decide (dr_key r = key)) then newest
    else match newest with
         | None => Some r
         | Some n => if newer_delivery r n then Some r else newest
         end) None (map snd (cs_deliveries s)).

(** *** Snapshot *)

Definition kMaxSnapshotEntries : Z := 100000.

(** A metadata record nested as a string. *)
Definition write_metadata (m : ArtifactMetadata) : Writer :=
  let* encoded := encodeArtifactMetadata m in
  Write.string kAbsoluteMaxFieldBytes (string_of_bytes encoded).
Definition read_metadata : Parser ArtifactMetadata :=
  let! encoded := Read.string kAbsoluteMaxFieldBytes in
  p_lift (decodeArtifactMetadata (bytes_of_string encoded)).

Definition Controller_encodeSnapshot (s : ControllerState) : Writer :=
  if (map_size (cs_targets s) >? kMaxSnapshotEntries)
     || (map_size (cs_deliveries s) >? kMaxSnapshotEntries)
  then fail ErrorCode.LimitExceeded "controller state exceeds the snapshot bound"
  else
    Write.u16 kStateFormatVersion
      +++ write_id (cs_nodeId s)
      +++ Write.num (cs_epoch s)
      +++ write_opaque (cs_incarnation s)
      +++ Write.i64 (cs_startedAtMillis s)
      +++ w_counted writeTargetRuntime (map snd (cs_targets s))
      +++ w_counted writeDeliveryRecord (map snd (cs_deliveries s))
      +++ w_counted write_metadata (map snd (cs_artifacts s)).

Definition declares_too_many (what : string) (count : Z) : Error :=
  mkError ErrorCode.OversizePayload what "".

Definition read_controller_snapshot : Parser ControllerState :=
  let! version := Read.u16 in
  do! p_require_detail (version =? kStateFormatVersion) ErrorCode.UnsupportedVersion
        "controller state snapshot version is not supported" (to_string version) in
  let! nodeId := read_optional_id "node id" in
  let! epoch := Read.num in
  let! incarnation := read_opaque in
  let! startedAtMillis := Read.i64 in
  let! targets := p_counted kMaxSnapshotEntries
    (declares_too_many "controller state snapshot declares too many targets") readTargetRuntime in
  let! deliveries := p_counted kMaxSnapshotEntries
    (declares_too_many "controller state snapshot declares too many deliveries")
    readDeliveryRecord in
  let! artifacts := p_counted kMaxSnapshotEntries
    (declares_too_many "controller state snapshot declares too many artifacts") read_metadata in
  p_ret (mkControllerState nodeId epoch incarnation startedAtMillis (map_build tr_id targets [])
           (map_build dr_id deliveries []) (map_build md_digest artifacts [])).

Definition Controller_decodeSnapshot : list byte → Result ControllerState :=
  decode_all read_controller_snapshot.

(** *** Applying a journal record *)

Definition apply_target (runtime : TargetRuntime) (s : ControllerState) : ControllerState :=
  let runtime :=
    match map_find (tr_id runtime) (cs_targets s) with
    | Some existing => set_contact (tr_contactEstablishedThisProcess existing) runtime
    | None => runtime
    end in
  cs_set_targets (map_assign (tr_id runtime) runtime (cs_targets s)) s.

Definition Controller_apply_step (type : JournalRecordType) : Step ControllerState unit :=
  match type with
  | JournalRecordType.ControllerIdentity =>
      let+ nodeId := read_id "node id" in
      set+ cs_set_nodeId nodeId in
      let+ epoch := Read.num in
      set+ cs_set_epoch epoch in
      let+ incarnation := read_opaque in
      set+ cs_set_incarnation incarnation in
      let+ startedAtMillis := Read.i64 in
      st_set (cs_set_startedAt startedAtMillis)
  | JournalRecordType.ControllerEpoch =>
      let+ epoch := Read.num in
      let+ _ := p_require (num_isSet epoch) ErrorCode.MalformedInput
                  "recorded epoch 0 is not a valid authority" in
      st_set (cs_set_epoch epoch)
  | JournalRecordType.TargetUpsert =>
      let+ runtime := readTargetRuntime in st_set (apply_target runtime)
  | JournalRecordType.TargetRemove =>
      let+ target := read_id "target id" in
      st_set (λ s, cs_set_targets (map_erase target (cs_targets s)) s)
  | JournalRecordType.DeliveryUpsert =>
      let+ record := readDeliveryRecord in
      st_set (λ s, cs_set_deliveries (map_assign (dr_id record) record (cs_deliveries s)) s)
  | JournalRecordType.DeliveryRemove =>
      let+ deployment := read_id "deployment id" in
      st_set (λ s, cs_set_deliveries (map_erase deployment (cs_deliveries s)) s)
  | JournalRecordType.ArtifactUpsert =>
      let+ metadata := read_metadata in
      st_set (λ s, cs_set_artifacts (map_assign (md_digest metadata) metadata (cs_artifacts s)) s)
  | JournalRecordType.ArtifactRemove =>
      let+ digest := Read.digest in
      st_set (λ s, cs_set_artifacts (map_erase digest (cs_artifacts s)) s)
  | JournalRecordType.Note =>
      let+ _ := Read.string kMaxNoteBytes in st_set id
  | _ => st_read (λ _, fail_detail ErrorCode.UnexpectedMessage
                         "record type is not valid for controller state"
                         (journalRecordTypeName type))
  end.

Definition Controller_apply (s : ControllerState) (type : JournalRecordType) (payload : list byte)
    : ControllerState * Status :=
  run_apply (Controller_apply_step type) s payload.

(** ** Agent state *)

(** The fields of [AgentState], grouped by the journal record that owns
    them. *)
Record AgentIdentity := mkIdentity {
  target : TargetId;
  klass : TargetClass;
  guarantee : ApplyGuarantee;
  term : Term;
  incarnation : IncarnationId;
  restartCount : Z;
}.
Record ControllerFence := mkFence {
  lastControllerEpoch : Epoch;
  lastControllerIncarnation : IncarnationId;
  lastControllerNode : NodeId;
}.
Record TargetCommit := mkCommit {
  committedGeneration : Generation;
  committedDigest : Digest;
  committedArtifact : ArtifactId;
}.
Record ApplyWindow := mkWindow {
  applyPrepared : bool;
  preparedDeployment : DeploymentId;
  preparedGeneration : Generation;
  preparedDigest : Digest;
}.
Record AgentCounters := mkCounters {
  activations : Z;
  duplicatesSuppressed : Z;
  staleOffersRefused : Z;
  digestRejections : Z;
  applyRollbacks : Z;
}.
Record AgentState := mkAgentState {
  as_identity : AgentIdentity;
  as_fence : ControllerFence;
  as_commit : TargetCommit;
  as_window : ApplyWindow;
  as_transfers : list (DeploymentId * TransferRecord);
  as_findings : list AppliedFinding;
  as_counters : AgentCounters;
}.

Definition closed_window : ApplyWindow := mkWindow false id_empty num_unset digest_unset.
Definition AgentState_default : AgentState :=
  mkAgentState
    (mkIdentity id_empty TargetClass.Unspecified ApplyGuarantee.AtomicActivate num_unset
       opaque_unset 0)
    (mkFence num_unset opaque_unset id_empty) (mkCommit num_unset digest_unset id_empty)
    closed_window [] [] (mkCounters 0 0 0 0 0).

Definition upd_identity f s := mkAgentState (f (as_identity s)) (as_fence s) (as_commit s)
  (as_window s) (as_transfers s) (as_findings s) (as_counters s).
Definition upd_fence f s := mkAgentState (as_identity s) (f (as_fence s)) (as_commit s)
  (as_window s) (as_transfers s) (as_findings s) (as_counters s).
Definition upd_commit f s := mkAgentState (as_identity s) (as_fence s) (f (as_commit s))
  (as_window s) (as_transfers s) (as_findings s) (as_counters s).
Definition upd_window f s := mkAgentState (as_identity s) (as_fence s) (as_commit s)
  (f (as_window s)) (as_transfers s) (as_findings s) (as_counters s).
Definition upd_transfers f s := mkAgentState (as_identity s) (as_fence s) (as_commit s)
  (as_window s) (f (as_transfers s)) (as_findings s) (as_counters s).
Definition upd_findings f s := mkAgentState (as_identity s) (as_fence s) (as_commit s)
  (as_window s) (as_transfers s) (f (as_findings s)) (as_counters s).
Definition upd_counters f s := mkAgentState (as_identity s) (as_fence s) (as_commit s)
  (as_window s) (as_transfers s) (as_findings s) (f (as_counters s)).

Definition findFinding (key : ConfigKey) (digest : Digest) (s : AgentState) : option AppliedFinding :=
  snd <$> list_find (λ f, fd_key f = key ∧ fd_digest f = digest) (as_findings s).

(** *** Snapshot *)

Definition Agent_encodeSnapshot (s : AgentState) : Writer :=
  let i := as_identity s in
  let f := as_fence s in
  let c := as_commit s in
  let w := as_window s in
  let n := as_counters s in
  if (zlen (as_findings s) >? kMaxFindingsPerAgent)
     || (map_size (as_transfers s) >? kMaxSnapshotEntries)
  then fail ErrorCode.LimitExceeded "agent state exceeds the snapshot bound"
  else
    Write.u16 kStateFormatVersion
      +++ write_id (target i)
      +++ write_enum8 (klass i)
      +++ write_enum8 (guarantee i)
      +++ Write.num (term i)
      +++ write_opaque (incarnation i)
      +++ Write.u32 (restartCount i)
      +++ Write.num (lastControllerEpoch f)
      +++ write_opaque (lastControllerIncarnation f)
      +++ write_id (lastControllerNode f)
      +++ Write.num (committedGeneration c)
      +++ Write.digest (committedDigest c)
      +++ write_id (committedArtifact c)
      +++ Write.boolean (applyPrepared w)
      +++ write_id (preparedDeployment w)
      +++ Write.num (preparedGeneration w)
      +++ Write.digest (preparedDigest w)
      +++ Write.u64 (activations n)
      +++ Write.u64 (duplicatesSuppressed n)
      +++ Write.u64 (staleOffersRefused n)
      +++ Write.u64 (digestRejections n)
      +++ Write.u64 (applyRollbacks n)
      +++ w_counted writeTransferRecord (map snd (as_transfers s))
      +++ w_counted writeAppliedFinding (as_findings s).

Definition read_agent_snapshot : Parser AgentState :=
  let! version := Read.u16 in
  do! p_require_detail (version =? kStateFormatVersion) ErrorCode.UnsupportedVersion
        "agent state snapshot version is not supported" (to_string version) in
  let! target := read_optional_id "target id" in
  let! klass := read_enum8 klass_in_range "agent state has an unknown class" in
  let! guarantee := read_enum8 guarantee_in_range "agent state has an unknown guarantee" in
  let! term := Read.num in
  let! incarnation := read_opaque in
  let! restartCount := Read.u32 in
  let! epoch := Read.num in
  let! controllerIncarnation := read_opaque in
  let! controllerNode := read_optional_id "node id" in
  let! committed := Read.num in
  let! committedDigest := Read.digest in
  let! artifact := read_optional_id "artifact id" in
  let! applyPrepared := Read.boolean in
  let! preparedDeployment := read_optional_id "deployment id" in
  let! preparedGeneration := Read.num in
  let! preparedDigest := Read.digest in
  let! activations := Read.u64 in
  let! duplicatesSuppressed := Read.u64 in
  let! staleOffersRefused := Read.u64 in
  let! digestRejections := Read.u64 in
  let! applyRollbacks := Read.u64 in
  let! transfers := p_counted kMaxSnapshotEntries
    (declares_too_many "agent state declares too many transfers") readTransferRecord in
  let! findings := p_counted kMaxFindingsPerAgent
    (declares_too_many "agent state declares too many findings") readAppliedFinding in
  p_ret (mkAgentState
    (mkIdentity target klass guarantee term incarnation restartCount)
    (mkFence epoch controllerIncarnation controllerNode)
    (mkCommit committed committedDigest artifact)
    (mkWindow applyPrepared preparedDeployment preparedGeneration preparedDigest)
    (map_build tx_deployment transfers []) findings
    (mkCounters activations duplicatesSuppressed staleOffersRefused digestRejections
       applyRollbacks)).

Definition Agent_decodeSnapshot : list byte → Result AgentState := decode_all read_agent_snapshot.

(** *** Applying a journal record *)

(** [AgentFindingUpsert]: replace the finding of the same key and digest, or
    append, dropping the oldest when the table is full. *)
Fixpoint replace_finding (finding : AppliedFinding) (fs : list AppliedFinding)
    : option (list AppliedFinding) :=
  match fs with
  | [] => None
  | existing :: fs =>
      if bool_decide (fd_key existing = fd_key finding)
         && bool_decide (fd_digest existing = fd_digest finding)
      then Some (finding :: fs)
      else cons existing <$> replace_finding finding fs
  end.

Definition upsert_finding (finding : AppliedFinding) (fs : list AppliedFinding)
    : list AppliedFinding :=
  match replace_finding finding fs with
  | Some replaced => replaced
  | None => (if zlen fs >=? kMaxFindingsPerAgent then drop 1 fs else fs) ++ [finding]
  end.

Definition Agent_apply_step (type : JournalRecordType) : Step AgentState unit :=
  match type with
  | JournalRecordType.AgentIdentity =>
      let+ t := read_id "target id" in
      set+ upd_identity (λ i, mkIdentity t (klass i) (guarantee i) (term i) (incarnation i)
                                (restartCount i)) in
      let+ k := read_enum8 klass_in_range "agent identity has an unknown class" in
      set+ upd_identity (λ i, mkIdentity (target i) k (guarantee i) (term i) (incarnation i)
                                (restartCount i)) in
      let+ g := read_enum8 guarantee_in_range "agent identity has an unknown guarantee" in
      set+ upd_identity (λ i, mkIdentity (target i) (klass i) g (term i) (incarnation i)
                                (restartCount i)) in
      let+ bootTerm := Read.num in
      let+ _ := p_require (num_isSet bootTerm) ErrorCode.MalformedInput
                  "agent identity carries the unset term 0" in
      set+ upd_identity (λ i, mkIdentity (target i) (klass i) (guarantee i) bootTerm
                                (incarnation i) (restartCount i)) in
      let+ inc := read_opaque in
      set+ upd_identity (λ i, mkIdentity (target i) (klass i) (guarantee i) (term i) inc
                                (restartCount i)) in
      let+ count := Read.u32 in
      st_set (upd_identity (λ i, mkIdentity (target i) (klass i) (guarantee i) (term i)
                                   (incarnation i) count))
  | JournalRecordType.AgentControllerFence =>
      let+ epoch := Read.num in
      set+ upd_fence (λ f, mkFence epoch (lastControllerIncarnation f) (lastControllerNode f)) in
      let+ inc := read_opaque in
      set+ upd_fence (λ f, mkFence (lastControllerEpoch f) inc (lastControllerNode f)) in
      let+ node := read_optional_id "node id" in
      st_set (if id_isSet node
              then upd_fence (λ f, mkFence (lastControllerEpoch f) (lastControllerIncarnation f) node)
              else id)
  | JournalRecordType.AgentTargetCommit =>
      let+ generation := Read.num in
      set+ upd_commit (λ c, mkCommit generation (committedDigest c) (committedArtifact c)) in
      let+ digest := Read.digest in
      set+ upd_commit (λ c, mkCommit (committedGeneration c) digest (committedArtifact c)) in
      let+ artifact := read_optional_id "artifact id" in
      st_set (if id_isSet artifact
              then upd_commit (λ c, mkCommit (committedGeneration c) (committedDigest c) artifact)
              else id)
  | JournalRecordType.AgentTransferUpsert =>
      let+ record := readTransferRecord in
      st_set (upd_transfers (map_assign (tx_deployment record) record))
  | JournalRecordType.AgentTransferRemove =>
      let+ deployment := read_id "deployment id" in
      st_set (upd_transfers (map_erase deployment))
  | JournalRecordType.AgentFindingUpsert =>
      let+ finding := readAppliedFinding in st_set (upd_findings (upsert_finding finding))
  | JournalRecordType.AgentApplyPrepared =>
      let+ deployment := read_id "deployment id" in
      set+ upd_window (λ w, mkWindow (applyPrepared w) deployment (preparedGeneration w)
                              (preparedDigest w)) in
      let+ generation := Read.num in
      set+ upd_window (λ w, mkWindow (applyPrepared w) (preparedDeployment w) generation
                              (preparedDigest w)) in
      let+ digest := Read.digest in
      st_set (upd_window (λ w, mkWindow true (preparedDeployment w) (preparedGeneration w) digest))
  | JournalRecordType.AgentApplyResolved =>
      set+ upd_window (λ _, closed_window) in
      let+ count := Read.u64 in
      st_set (upd_counters (λ n, mkCounters count (duplicatesSuppressed n) (staleOffersRefused n)
                                   (digestRejections n) (applyRollbacks n)))
  | JournalRecordType.AgentRollbackNote =>
      let+ rollbacks := Read.u64 in
      set+ upd_counters (λ n, mkCounters (activations n) (duplicatesSuppressed n)
                                (staleOffersRefused n) (digestRejections n) rollbacks) in
      let+ duplicates := Read.u64 in
      set+ upd_counters (λ n, mkCounters (activations n) duplicates (staleOffersRefused n)
                                (digestRejections n) (applyRollbacks n)) in
      let+ stale := Read.u64 in
      set+ upd_counters (λ n, mkCounters (activations n) (duplicatesSuppressed n) stale
                                (digestRejections n) (applyRollbacks n)) in
      let+ rejections := Read.u64 in
      st_set (upd_counters (λ n, mkCounters (activations n) (duplicatesSuppressed n)
                                   (staleOffersRefused n) rejections (applyRollbacks n)))
  | JournalRecordType.Note =>
      let+ _ := Read.string kMaxNoteBytes in st_set id
  | _ => st_read (λ _, fail_detail ErrorCode.UnexpectedMessage
                         "record type is not valid for agent state"
                         (journalRecordTypeName type))
  end.

Definition Agent_apply (s : AgentState) (type : JournalRecordType) (payload : list byte)
    : AgentState * Status :=
  run_apply (Agent_apply_step type) s payload.

(** ** Lemmas *)

(** *** Invariants of stateful reads *)

(** [step] keeps [I], whether it succeeds or fails. *)
Definition st_keeps {S A} (I : S → Prop) (step : Step S A) : Prop :=
  ∀ s r, I s → I (step s r).1.

Section keeps.
Context {S : Type} (I : S → Prop).

Lemma keeps_set (f : S → S) : (∀ s, I s → I (f s)) → st_keeps I (st_set f).
Proof. intros Hf s r Hs. by apply Hf. Qed.

Lemma keeps_set_bind {B} (f : S → S) (k : Step S B) :
  (∀ s, I s → I (f s)) → st_keeps I k → st_keeps I (st_bind (st_set f) (λ _, k)).
Proof. intros Hf Hk s r Hs. apply Hk. by apply Hf. Qed.

(** What was read is well formed in the continuation. *)
Lemma keeps_read {A B} w (p : Parser A) wf `{!Wire w p wf} (k : A → Step S B) :
  (∀ a, wf a → st_keeps I (k a)) → st_keeps I (st_bind (st_read p) k).
Proof.
  intros Hk s r Hs. unfold st_bind, st_read.
  destruct (p r) as [[a r']| |] eqn:E; [|done..].
  apply (wire_sound (p := p)) in E as [Ha _]. by apply Hk.
Qed.

Lemma keeps_check {B} ok e (k : Step S B) :
  (ok = true → st_keeps I k) → st_keeps I (st_bind (st_read (p_check ok e)) (λ _, k)).
Proof.
  intros Hk s r Hs. unfold st_bind, st_read, p_check. destruct ok; [|done]. by apply Hk.
Qed.

Lemma keeps_fail {A} (p : Parser A) : st_keeps I (st_read p).
Proof. by intros s r Hs. Qed.

Lemma keeps_run (step : Step S unit) s payload :
  st_keeps I step → I s → I (run_apply step s payload).1.
Proof.
  intros Hstep Hs. specialize (Hstep s (reader payload) Hs). unfold run_apply.
  by destruct (step s (reader payload)) as [s' [[]| |]].
Qed.
End keeps.

(** Two states that agree under [D] are not told apart by [step]. *)
Definition st_respects {S A} (D : S → S) (step : Step S A) : Prop :=
  ∀ s s' r, D s = D s' → (step s r).2 = (step s' r).2 ∧ D (step s r).1 = D (step s' r).1.

Section respects.
Context {S : Type} (D : S → S).

Lemma respects_set (f : S → S) :
  (∀ s s', D s = D s' → D (f s) = D (f s')) → st_respects D (st_set f).
Proof. intros Hf s s' r Hs. split; [done|]. by apply Hf. Qed.

Lemma respects_read {A} (p : Parser A) : st_respects D (st_read p).
Proof. by intros s s' r Hs. Qed.

Lemma respects_bind {A B} (m : Step S A) (k : A → Step S B) :
  st_respects D m → (∀ a, st_respects D (k a)) → st_respects D (st_bind m k).
Proof.
  intros Hm Hk s s' r Hs. destruct (Hm s s' r Hs) as [H1 H2]. unfold st_bind.
  destruct (m s r) as [t x], (m s' r) as [t' x']. simpl in *. subst x'.
  destruct x as [[a r']| |]; [by apply Hk|done..].
Qed.

Lemma respects_run (step : Step S unit) s s' payload :
  st_respects D step → D s = D s' →
  (run_apply step s payload).2 = (run_apply step s' payload).2
  ∧ D (run_apply step s payload).1 = D (run_apply step s' payload).1.
Proof.
  intros Hstep Hs. destruct (Hstep s s' (reader payload) Hs) as [H1 H2]. unfold run_apply.
  destruct (step s _) as [t x], (step s' _) as [t' x']. simpl in *. subst x'.
  by destruct x as [[[] r']| |].
Qed.
End respects.

(** *** Nested metadata *)

Lemma zlen_string n s bs : Write.string n s = Ok bs → zlen bs = 4 + slen s.
Proof.
  unfold Write.string, Write.u32, Write.bytes, w_append. intros H. inv_try. simplify_eq/=.
  rewrite zlen_app, zlen_le_bytes, zlen_bytes_of_string. done.
Qed.

Lemma metadata_size m bs :
  metadata_wf m → encodeArtifactMetadata m = Ok bs → zlen bs <= 1024.
Proof.
  intros Hm Henc. destruct (encode_Ok writeMetadataBody readMetadataBody metadata_wf m Hm) as [body Hb].
  rewrite (encodeArtifactMetadata_wf _ _ Hm Hb) in Henc. injection Henc as <-.
  rewrite zlen_app, zlen_le_bytes.
  enough (zlen body <= 1000) by lia.
  unfold writeMetadataBody, w_append, write_id, write_num32, Write.num, Write.digest, Write.bytes,
    Write.i64, Write.u64, Write.u32, Write.u16 in Hb.
  inv_try. repeat match goal with
    | H : Ok _ = Ok _ |- _ => injection H as H; subst
    | H : Write.string _ _ = Ok _ |- _ => apply zlen_string in H
    end.
  destruct Hm as [Hid _ Hschema _ Hd _ [Hmedia _] [Hprod _] _ _].
  apply valid_text_fits in Hid as [Hid _], Hschema as [Hschema _].
  unfold digest_wf, kSha256Bytes, kMaxIdentifierLength, kMaxMediaTypeBytes, kMaxProducerBytes in *.
  rewrite !zlen_app, ?zlen_le_bytes in *. unfold zlen in *. simpl length. lia.
Qed.

#[global] Instance metadata_wire : Wire write_metadata read_metadata metadata_wf.
Proof.
  split.
  - intros m Hm. destruct (artifact_metadata_ok m Hm) as (bs & Henc & Hdec).
    unfold write_metadata, read_metadata. rewrite Henc. simpl.
    eapply reads_last.
    + apply (wire_complete (p := Read.string _)).
      pose proof (metadata_size _ _ Hm Henc). unfold text_fits. rewrite slen_string_of_bytes.
      unfold kAbsoluteMaxFieldBytes. change (Z.shiftl 1 20) with 1048576. lia.
    + apply reads_lift. by rewrite bytes_of_string_of_bytes.
  - intros r m r' Hr. unfold read_metadata in Hr. inv_parse.
    apply (wire_sound (p := Read.string _)) in H as [Ht He].
    apply artifact_metadata_accepts in H0 as [Hm Henc]. split; [done|].
    unfold write_metadata. rewrite Henc. simpl. by rewrite string_of_bytes_of_string.
Qed.

(** *** Well-formed states *)

Record controller_wf (s : ControllerState) : Prop := {
  cwf_nodeId : id_optional (cs_nodeId s);
  cwf_epoch : fits 64 (value (cs_epoch s));
  cwf_incarnation : opaque_wf (cs_incarnation s);
  cwf_started : fits_i64 (cs_startedAtMillis s);
  cwf_targets : keyed tr_id runtime_wf (cs_targets s);
  cwf_deliveries : keyed dr_id delivery_wf (cs_deliveries s);
  cwf_artifacts : keyed md_digest metadata_wf (cs_artifacts s);
}.

Record agent_wf (s : AgentState) : Prop := {
  awf_target : id_optional (target (as_identity s));
  awf_term : fits 64 (value (term (as_identity s)));
  awf_incarnation : opaque_wf (incarnation (as_identity s));
  awf_restarts : fits 32 (restartCount (as_identity s));
  awf_epoch : fits 64 (value (lastControllerEpoch (as_fence s)));
  awf_controller : opaque_wf (lastControllerIncarnation (as_fence s));
  awf_node : id_optional (lastControllerNode (as_fence s));
  awf_committed : fits 64 (value (committedGeneration (as_commit s)));
  awf_digest : digest_wf (committedDigest (as_commit s));
  awf_artifact : id_optional (committedArtifact (as_commit s));
  awf_deployment : id_optional (preparedDeployment (as_window s));
  awf_prepared : fits 64 (value (preparedGeneration (as_window s)));
  awf_preparedDigest : digest_wf (preparedDigest (as_window s));
  awf_transfers : keyed tx_deployment transfer_wf (as_transfers s);
  awf_findings : Forall finding_wf (as_findings s);
  awf_findings_bound : zlen (as_findings s) <= kMaxFindingsPerAgent;
  awf_activations : fits 64 (activations (as_counters s));
  awf_duplicates : fits 64 (duplicatesSuppressed (as_counters s));
  awf_stale : fits 64 (staleOffersRefused (as_counters s));
  awf_rejections : fits 64 (digestRejections (as_counters s));
  awf_rollbacks : fits 64 (applyRollbacks (as_counters s));
}.

Lemma valid_optional {Tag} (i : StrongString Tag) : id_valid i → id_optional i.
Proof. by right. Qed.
#[export] Hint Resolve valid_optional : core.

Lemma controller_default_wf : controller_wf ControllerState_default.
Proof. split; try first [by left | solve_range_closed | apply keyed_nil | reflexivity]. Qed.
Lemma agent_default_wf : agent_wf AgentState_default.
Proof.
  split; try first [by left | solve_range_closed | apply keyed_nil | reflexivity | by constructor].
  vm_compute. discriminate.
Qed.

Lemma apply_target_wf r s : runtime_wf r → controller_wf s → controller_wf (apply_target r s).
Proof.
  intros Hr []. unfold apply_target, cs_set_targets. split; simpl; try done.
  destruct (map_find (tr_id r) (cs_targets s)) as [e|]; [|by apply keyed_assign].
  apply (keyed_assign tr_id runtime_wf (set_contact (tr_contactEstablishedThisProcess e) r)); [|done].
  by apply set_contact_wf.
Qed.

(** One case of [apply]: every read gives a well-formed value, every
    assignment keeps the invariant. *)
Ltac keeps_step :=
  lazymatch goal with
  | |- st_keeps _ (st_bind (st_read (p_check _ _)) _) => apply keeps_check; intros ?
  | |- st_keeps _ (st_bind (st_read ?p) _) =>
      let I := constr:(_ : Wire _ p _) in
      apply (@keeps_read _ _ _ _ _ _ _ I); intros ? ?
  | |- st_keeps _ (st_bind (st_set _) _) =>
      apply keeps_set_bind; [intros ? []; split; simpl; auto with std_map|]
  | |- st_keeps _ (st_set (if ?b then _ else _)) => destruct b
  | |- st_keeps _ (st_set id) => by apply keeps_set
  | |- st_keeps _ (st_set _) => apply keeps_set; intros ? []; split; simpl; auto with std_map
  | |- st_keeps _ (st_read _) => apply keeps_fail
  end.

Lemma controller_step_keeps type : st_keeps controller_wf (Controller_apply_step type).
Proof.
  destruct type; simpl; try (repeat keeps_step; fail).
  - keeps_step. destruct H. apply keeps_set. intros s. by apply apply_target_wf.
Qed.

Lemma replace_finding_Forall f fs fs' (P : AppliedFinding → Prop) :
  P f → Forall P fs → replace_finding f fs = Some fs' → Forall P fs' ∧ length fs' = length fs.
Proof.
  intros Hf. revert fs'. induction fs as [|e fs IH]; intros fs' Hfs; [done|].
  apply Forall_cons_iff in Hfs as [He Hfs]. simpl. case_match.
  - intros [= <-]. split; [by constructor|done].
  - destruct (replace_finding f fs) as [rest|]; [|done]. intros [= <-].
    destruct (IH rest Hfs eq_refl) as [? Hl]. split; [by constructor|simpl; by rewrite Hl].
Qed.

Lemma upsert_finding_wf (P : AppliedFinding → Prop) f fs :
  P f → Forall P fs → zlen fs <= kMaxFindingsPerAgent →
  Forall P (upsert_finding f fs) ∧ zlen (upsert_finding f fs) <= kMaxFindingsPerAgent.
Proof.
  intros Hf Hfs Hlen. unfold upsert_finding.
  destruct (replace_finding f fs) as [fs'|] eqn:E.
  - destruct (replace_finding_Forall f fs fs' P Hf Hfs E) as [? Hl].
    split; [done|]. unfold zlen in *. by rewrite Hl.
  - rewrite Forall_app, zlen_app. change (zlen [f]) with 1.
    destruct (Z.geb_spec (zlen fs) kMaxFindingsPerAgent).
    + split; [split; [by apply Forall_drop|by constructor]|].
      unfold zlen in *. rewrite length_drop. unfold kMaxFindingsPerAgent in *. lia.
    + split; [split; [done|by constructor]|lia].
Qed.

Lemma agent_step_keeps type : st_keeps agent_wf (Agent_apply_step type).
Proof.
  destruct type; simpl; try (repeat keeps_step; fail).
  - keeps_step. apply keeps_set. intros s []. split; simpl; try done.
    all: by apply (upsert_finding_wf finding_wf).
  - apply keeps_set_bind; [|repeat keeps_step].
    intros s []. split; simpl; first [done | by left].
Qed.

(** *** Snapshots *)

Lemma counted_reads {A} (w : A → Writer) p wf `{!Wire w p wf} bound e l :
  (bound <? 2 ^ 32) = true → zlen l <= bound → Forall wf l →
  reads_back (p_counted bound e p) (w_counted w l) l.
Proof.
  intros Hb Hl Hf.
  assert (TCEq (bound <? 2 ^ 32) true) by (by rewrite Hb).
  by apply (wire_complete (p := p_counted bound e p)).
Qed.

Definition clear_contacts (s : ControllerState) : ControllerState :=
  cs_set_targets (map_values (set_contact false) (cs_targets s)) s.

Lemma map_snd_clear m : map snd (map (λ e : TargetId * TargetRuntime, (e.1, set_contact false e.2)) m)
  = map (set_contact false) (map snd m).
Proof. by rewrite !map_map. Qed.

Lemma w_each_contact rs : w_each writeTargetRuntime (map (set_contact false) rs)
  = w_each writeTargetRuntime rs.
Proof. induction rs as [|r rs IH]; simpl; [done|]. by rewrite IH. Qed.

Lemma clear_keyed m : keyed tr_id runtime_wf m →
  keyed tr_id runtime_stored (map (λ e, (e.1, set_contact false e.2)) m).
Proof.
  intros [Hs Hf]. split.
  - clear Hf. induction m as [|[k v] m IH]; simpl in *; [done|]. destruct Hs as [Hb Hs].
    split; [|by apply IH]. unfold below in *. by apply Forall_map.
  - apply Forall_map. revert Hf. apply Forall_impl. intros [k v] [Hk Hv]. simpl in *.
    split; [done|]. split; [by apply set_contact_wf|done].
Qed.

Lemma controller_snapshot_reads s :
  controller_wf s → map_size (cs_targets s) <= kMaxSnapshotEntries →
  map_size (cs_deliveries s) <= kMaxSnapshotEntries →
  map_size (cs_artifacts s) <= kMaxSnapshotEntries →
  reads_back read_controller_snapshot (Controller_encodeSnapshot s) (clear_contacts s).
Proof.
  intros [] Ht Hd Ha. unfold Controller_encodeSnapshot, read_controller_snapshot, map_size in *.
  destruct (Z.gtb_spec (zlen (cs_targets s)) kMaxSnapshotEntries); [lia|].
  destruct (Z.gtb_spec (zlen (cs_deliveries s)) kMaxSnapshotEntries); [lia|]. simpl orb. cbv iota.
  do 6 reads_step.
  assert (∀ A B (m : list (A * B)), zlen m <= kMaxSnapshotEntries →
            zlen (map snd m) <= kMaxSnapshotEntries) as Hsize
    by (intros A B m; unfold zlen; by rewrite length_map).
  assert (w_counted writeTargetRuntime (map snd (cs_targets s))
          = w_counted writeTargetRuntime (map (set_contact false) (map snd (cs_targets s)))) as ->.
  { unfold w_counted. rewrite w_each_contact. unfold zlen. by rewrite (length_map (set_contact false)). }
  rewrite <- map_snd_clear. pose proof (clear_keyed _ cwf_targets0) as Hclear.
  eapply reads_bind.
  { apply (counted_reads _ _ runtime_stored); [done| |by apply (keyed_values tr_id)].
    unfold zlen. rewrite !length_map. done. }
  eapply reads_bind.
  { apply (counted_reads _ _ delivery_wf); [done|by apply Hsize|by apply (keyed_values dr_id)]. }
  eapply reads_last.
  { apply (counted_reads _ _ metadata_wf); [done|by apply Hsize|by apply (keyed_values md_digest)]. }
  rewrite (map_build_rebuild tr_id runtime_stored), (map_build_rebuild dr_id delivery_wf),
    (map_build_rebuild md_digest metadata_wf) by done.
  apply reads_ret.
Qed.

Lemma agent_snapshot_reads s :
  agent_wf s → map_size (as_transfers s) <= kMaxSnapshotEntries →
  reads_back read_agent_snapshot (Agent_encodeSnapshot s) s.
Proof.
  intros [] Ht. unfold Agent_encodeSnapshot, read_agent_snapshot, map_size in *.
  destruct (Z.gtb_spec (zlen (as_findings s)) kMaxFindingsPerAgent); [lia|].
  destruct (Z.gtb_spec (zlen (as_transfers s)) kMaxSnapshotEntries); [lia|]. simpl orb. cbv iota.
  do 23 reads_step.
  eapply reads_bind.
  { apply (counted_reads _ _ transfer_wf); [done| |by apply (keyed_values tx_deployment)].
    unfold zlen. by rewrite length_map. }
  eapply reads_last; [by apply (counted_reads _ _ finding_wf)|].
  rewrite (map_build_rebuild tx_deployment transfer_wf) by done.
  assert (mkAgentState
    (mkIdentity (target (as_identity s)) (klass (as_identity s)) (guarantee (as_identity s))
       (term (as_identity s)) (incarnation (as_identity s)) (restartCount (as_identity s)))
    (mkFence (lastControllerEpoch (as_fence s)) (lastControllerIncarnation (as_fence s))
       (lastControllerNode (as_fence s)))
    (mkCommit (committedGeneration (as_commit s)) (committedDigest (as_commit s))
       (committedArtifact (as_commit s)))
    (mkWindow (applyPrepared (as_window s)) (preparedDeployment (as_window s))
       (preparedGeneration (as_window s)) (preparedDigest (as_window s)))
    (as_transfers s) (as_findings s)
    (mkCounters (activations (as_counters s)) (duplicatesSuppressed (as_counters s))
       (staleOffersRefused (as_counters s)) (digestRejections (as_counters s))
       (applyRollbacks (as_counters s))) = s) as ->.
  { by destruct s as [[] [] [] [] ? ? []]. }
  apply reads_ret.
Qed.

(** Clearing the contacts is compatible with every record. *)
Lemma clear_eq_fields s s' : clear_contacts s = clear_contacts s' →
  map_values (set_contact false) (cs_targets s) = map_values (set_contact false) (cs_targets s')
  ∧ ∀ m, cs_set_targets m s = cs_set_targets m s'.
Proof. destruct s, s'. unfold clear_contacts, cs_set_targets. simpl. by intros [= <- <- <- <- -> <- <-]. Qed.

Lemma clear_set_targets f s s' :
  (map_values (set_contact false) (f s) = map_values (set_contact false) (f s')) →
  clear_contacts s = clear_contacts s' →
  clear_contacts (cs_set_targets (f s) s) = clear_contacts (cs_set_targets (f s') s').
Proof.
  intros Hf Hs. apply clear_eq_fields in Hs as [_ Hset]. unfold clear_contacts.
  specialize (Hset (map_values (set_contact false) (f s))). rewrite Hf in Hset at 2.
  by destruct s, s'.
Qed.

Lemma apply_target_clear r s s' :
  clear_contacts s = clear_contacts s' →
  clear_contacts (apply_target r s) = clear_contacts (apply_target r s').
Proof.
  intros Hs. set (merged s := match map_find (tr_id r) (cs_targets s) with
    | Some existing => set_contact (tr_contactEstablishedThisProcess existing) r | None => r end).
  assert (∀ s, apply_target r s
               = cs_set_targets (map_assign (tr_id r) (merged s) (cs_targets s)) s) as E.
  { intros t. unfold apply_target, merged. by destruct (map_find _ _). }
  rewrite !E. apply (clear_set_targets (λ s, map_assign (tr_id r) (merged s) (cs_targets s))); [|done].
  apply clear_eq_fields in Hs as [Hm _]. rewrite !map_assign_values, Hm. unfold merged.
  by destruct (map_find _ (cs_targets s)), (map_find _ (cs_targets s')).
Qed.

Lemma controller_step_respects type : st_respects clear_contacts (Controller_apply_step type).
Proof.
  destruct type; simpl; try apply respects_read;
    repeat first
      [ apply respects_bind; [apply respects_read|intros ?]
      | apply respects_bind; [apply respects_set|intros ?]
      | apply respects_set ]; intros s s' Hs; try (by apply apply_target_clear).
  all: try (apply (clear_set_targets (λ s, map_erase _ (cs_targets s))); [|done];
            apply clear_eq_fields in Hs as [Hm _]; by rewrite !map_erase_values, Hm).
  all: destruct s, s'; unfold clear_contacts, cs_set_targets, cs_set_nodeId, cs_set_epoch, cs_set_incarnation,
         cs_set_startedAt, cs_set_deliveries, cs_set_artifacts in *; simpl in *;
       injection Hs; intros; congruence.
Qed.

Lemma agent_step_respects type : st_respects id (Agent_apply_step type).
Proof. by intros s s' r Hs; unfold id in Hs; subst. Qed.

Lemma clear_contacts_idemp s : clear_contacts (clear_contacts s) = clear_contacts s.
Proof.
  destruct s. unfold clear_contacts, map_values. simpl. by rewrite map_map.
Qed.

(** A snapshot that decodes is a well-formed state. *)
Lemma controller_snapshot_sound data s :
  Controller_decodeSnapshot data = Ok s → controller_wf s.
Proof.
  unfold Controller_decodeSnapshot, decode_all. intros H. inv_try. destruct x as [s' r]. inv_try.
  unfold read_controller_snapshot in H. inv_wire.
  repeat match goal with H : _ ∧ Forall _ _ |- _ => destruct H as [_ H] end.
  split; simpl; try done; apply keyed_build; try apply keyed_nil; try done.
  match goal with H : Forall runtime_stored _ |- _ => revert H end. apply Forall_impl. by intros ? [].
Qed.

Lemma agent_snapshot_sound data s : Agent_decodeSnapshot data = Ok s → agent_wf s.
Proof.
  unfold Agent_decodeSnapshot, decode_all. intros H. inv_try. destruct x as [s' r]. inv_try.
  unfold read_agent_snapshot in H. inv_wire.
  repeat match goal with H : _ ∧ Forall _ _ |- _ => destruct H as [? H] end.
  split; simpl; try done. by apply keyed_build, keyed_nil.
Qed.

(** A record of one field: read it, then change the state. *)
Lemma run_apply_reads {S A} (p : Parser A) (f : A → S → S) s bs a :
  parses p bs a → run_apply (let+ a := p in st_set (f a)) s bs = (f a s, Ok tt).
Proof.
  intros Hp. unfold run_apply, st_bind, st_read, st_set.
  rewrite (parses_all p bs a Hp). by rewrite requireEnd_all.
Qed.

(** *** The findings table *)

Lemma replace_finding_spec f fs fs' :
  replace_finding f fs = Some fs' →
  ∃ pre e post, fs = pre ++ e :: post ∧ fs' = pre ++ f :: post
    ∧ fd_key e = fd_key f ∧ fd_digest e = fd_digest f
    ∧ Forall (λ g, ¬ (fd_key g = fd_key f ∧ fd_digest g = fd_digest f)) pre.
Proof.
  revert fs'. induction fs as [|e fs IH]; intros fs'; simpl; [done|].
  destruct (decide (fd_key e = fd_key f ∧ fd_digest e = fd_digest f)) as [[Hk Hd]|Hne].
  - rewrite !bool_decide_eq_true_2 by done. intros [= <-]. by exists [], e, fs.
  - assert (bool_decide (fd_key e = fd_key f) && bool_decide (fd_digest e = fd_digest f) = false) as ->.
    { apply not_true_iff_false. intros [H1 H2]%andb_prop. apply Hne.
      by apply bool_decide_eq_true in H1, H2. }
    destruct (replace_finding f fs) as [rest|]; [|done]. intros [= <-].
    destruct (IH rest eq_refl) as (pre & e' & post & -> & -> & ? & ? & ?).
    exists (e :: pre), e', post. repeat split; try done. by constructor.
Qed.

Lemma replace_finding_None f fs :
  replace_finding f fs = None →
  Forall (λ g, ¬ (fd_key g = fd_key f ∧ fd_digest g = fd_digest f)) fs.
Proof.
  induction fs as [|e fs IH]; simpl; [by constructor|].
  destruct (bool_decide (fd_key e = fd_key f) && bool_decide (fd_digest e = fd_digest f)) eqn:E; [done|].
  destruct (replace_finding f fs); [done|]. intros _. constructor; [|by apply IH].
  intros [Hk Hd]. by rewrite !bool_decide_eq_true_2 in E.
Qed.

Lemma findFinding_list key digest pre f post :
  fd_key f = key → fd_digest f = digest →
  Forall (λ g, ¬ (fd_key g = key ∧ fd_digest g = digest)) pre →
  snd <$> list_find (λ g, fd_key g = key ∧ fd_digest g = digest) (pre ++ f :: post) = Some f.
Proof.
  intros Hk Hd Hpre. induction Hpre as [|g pre Hg Hpre IH]; simpl.
  - by rewrite decide_True.
  - rewrite decide_False by done.
    destruct (list_find _ (pre ++ f :: post)) as [[i x]|]; simpl in *; congruence.
Qed.

(** ** Properties *)

(** C31: no journal payload, accepted or refused, can break the controller
    state or the agent state: identifiers stay valid, integers in range, maps
    sorted and keyed by the identity of their records, and the findings table
    bounded, even when a record fails half way through its fields. *)
Theorem apply_preserves_wf cs ags type payload :
  (controller_wf cs → controller_wf (Controller_apply cs type payload).1)
  ∧ (agent_wf ags → agent_wf (Agent_apply ags type payload).1).
Proof.
  split; intros H; unfold Controller_apply, Agent_apply.
  - apply keeps_run; [apply controller_step_keeps|done].
  - apply keeps_run; [apply agent_step_keeps|done].
Qed.

(** A controller snapshot restores the state it was taken of, with the
    process-local contact evidence of every target cleared, and nothing else
    changed. *)
Theorem controller_snapshot_roundtrip s
    (Hs : controller_wf s) (Ht : map_size (cs_targets s) <= kMaxSnapshotEntries)
    (Hd : map_size (cs_deliveries s) <= kMaxSnapshotEntries)
    (Ha : map_size (cs_artifacts s) <= kMaxSnapshotEntries) :
  ∃ data, Controller_encodeSnapshot s = Ok data
    ∧ Controller_decodeSnapshot data = Ok (clear_contacts s).
Proof.
  pose proof (controller_snapshot_reads s Hs Ht Hd Ha) as Hr.
  destruct Hr as (data & Hdata & Hp). exists data. split; [done|].
  apply (decode_reads_back _ (Controller_encodeSnapshot s)); [|done]. by exists data.
Qed.

Definition example_controller : ControllerState :=
  mkControllerState (mkString "node-1") (fromValue 3) (mkOpaque (repeat Byte.x01 16)) 1700000000000
    [(tr_id example_runtime, example_runtime)] [(dr_id example_delivery, example_delivery)]
    [(md_digest example_metadata, example_metadata)].

Lemma example_controller_wf : controller_wf example_controller.
Proof.
  split; try first [by right | reflexivity | solve_range_closed].
  - apply (keyed_assign tr_id runtime_wf example_runtime []); [apply example_runtime_wf|apply keyed_nil].
  - apply (keyed_assign dr_id delivery_wf example_delivery []); [apply example_delivery_wf|apply keyed_nil].
  - apply (keyed_assign md_digest metadata_wf example_metadata []);
      [apply example_metadata_wf|apply keyed_nil].
Qed.

Lemma controller_snapshot_roundtrip_witness :
  ∃ data, Controller_encodeSnapshot example_controller = Ok data
    ∧ Controller_decodeSnapshot data = Ok (clear_contacts example_controller).
Proof.
  apply (controller_snapshot_roundtrip example_controller example_controller_wf);
    vm_compute; discriminate.
Defined.

(** An agent snapshot restores exactly the state it was taken of, and
    every snapshot that decodes, whatever bytes it came from, is a well-formed
    state. *)
Theorem agent_snapshot_roundtrip s
    (Hs : agent_wf s) (Ht : map_size (as_transfers s) <= kMaxSnapshotEntries) :
  (∃ data, Agent_encodeSnapshot s = Ok data ∧ Agent_decodeSnapshot data = Ok s)
  ∧ ∀ data s', Agent_decodeSnapshot data = Ok s' → agent_wf s'.
Proof.
  split; [|apply agent_snapshot_sound].
  pose proof (agent_snapshot_reads s Hs Ht) as (data & Hdata & Hp). exists data. split; [done|].
  apply (decode_reads_back _ (Agent_encodeSnapshot s)); [|done]. by exists data.
Qed.

Lemma agent_snapshot_roundtrip_witness :
  ∃ data, Agent_encodeSnapshot AgentState_default = Ok data
    ∧ Agent_decodeSnapshot data = Ok AgentState_default.
Proof.
  refine (proj1 (agent_snapshot_roundtrip AgentState_default agent_default_wf _)).
  vm_compute. discriminate.
Defined.

(** A target update keeps the live evidence of the running process: the
    record stored is the one written, except that its contact flag is the one
    the process already held (false for a target it did not know), and no
    other target, delivery or artifact changes. *)
Theorem target_upsert_effect s r
    (Hs : controller_wf s) (Hr : runtime_wf r) :
  ∃ bs s', encodeTargetRuntime r = Ok bs
    ∧ Controller_apply s JournalRecordType.TargetUpsert bs = (s', Ok tt)
    ∧ findTarget (tr_id r) s'
      = Some (set_contact (match findTarget (tr_id r) s with
                           | Some e => tr_contactEstablishedThisProcess e | None => false end) r)
    ∧ (∀ id, id ≠ tr_id r → findTarget id s' = findTarget id s)
    ∧ cs_deliveries s' = cs_deliveries s ∧ cs_artifacts s' = cs_artifacts s.
Proof.
  pose proof (conj (set_contact_wf false r Hr) eq_refl : runtime_stored (set_contact false r)) as Hst.
  destruct (wire_complete (p := readTargetRuntime) _ Hst) as (bs & Hbs & Hp).
  exists bs, (apply_target (set_contact false r) s). rewrite encodeTargetRuntime_wf by done.
  split; [done|]. split; [|split; [|split; [|done]]].
  - by apply (run_apply_reads readTargetRuntime apply_target).
  - unfold findTarget, apply_target. simpl.
    destruct (map_find (tr_id r) (cs_targets s)); simpl; by rewrite map_find_assign_eq.
  - intros id Hid. unfold findTarget, apply_target. simpl.
    destruct (map_find (tr_id r) (cs_targets s)); simpl; by rewrite map_find_assign_ne.
Qed.

Lemma target_upsert_effect_witness :
  ∃ bs s', encodeTargetRuntime example_runtime = Ok bs
    ∧ Controller_apply ControllerState_default JournalRecordType.TargetUpsert bs = (s', Ok tt)
    ∧ findTarget (tr_id example_runtime) s' = Some (set_contact false example_runtime).
Proof.
  destruct (target_upsert_effect ControllerState_default example_runtime controller_default_wf
              example_runtime_wf) as (bs & s' & H1 & H2 & H3 & _).
  exists bs, s'. split; [exact H1|]. split; [exact H2|exact H3].
Defined.

(** The findings table remembers the last outcome: after recording a
    finding it is what its key and digest look up; every other finding is
    still there unless the full table had to drop its single oldest entry, and
    the table never exceeds its bound. *)
Theorem finding_upsert_effect f s
    (Hb : zlen (as_findings s) <= kMaxFindingsPerAgent) :
  let s' := upd_findings (upsert_finding f) s in
  findFinding (fd_key f) (fd_digest f) s' = Some f
  ∧ zlen (as_findings s') <= kMaxFindingsPerAgent
  ∧ ∀ g, g ∈ as_findings s → ¬ (fd_key g = fd_key f ∧ fd_digest g = fd_digest f) →
      g ∈ as_findings s'
      ∨ (zlen (as_findings s) = kMaxFindingsPerAgent ∧ head (as_findings s) = Some g).
Proof.
  intros s'. subst s'. unfold findFinding. simpl. split; [|split].
  - unfold upsert_finding. destruct (replace_finding f (as_findings s)) as [fs'|] eqn:E.
    + apply replace_finding_spec in E as (pre & e & post & _ & -> & _ & _ & Hpre).
      by apply findFinding_list.
    + apply replace_finding_None in E. apply findFinding_list; [done..|].
      destruct (zlen (as_findings s) >=? kMaxFindingsPerAgent); [by apply Forall_drop|done].
  - apply (upsert_finding_wf (λ _, True)); [done|by apply Forall_true|done].
  - intros g Hg Hne. unfold upsert_finding.
    destruct (replace_finding f (as_findings s)) as [fs'|] eqn:E.
    + left. apply replace_finding_spec in E as (pre & e & post & Hfs & -> & Hk & Hd & _).
      rewrite Hfs in Hg. rewrite elem_of_app, elem_of_cons in Hg |- *.
      destruct Hg as [?|[->|?]]; [by left| |by right; right]. by destruct Hne.
    + destruct (Z.geb_spec (zlen (as_findings s)) kMaxFindingsPerAgent);
        [|left; apply elem_of_app; by left].
      destruct (as_findings s) as [|o fs] eqn:Efs; [by apply elem_of_nil in Hg|].
      simpl. rewrite drop_0. apply elem_of_cons in Hg as [->|Hg].
      * right. split; [lia|done].
      * left. apply elem_of_app. by left.
Qed.

Lemma finding_upsert_effect_witness :
  let f := mkAppliedFinding (mkString "k") (fromValue 1) digest_unset (mkString "")
             (mkString "d") DeliveryState.Applied 0 in
  findFinding (fd_key f) (fd_digest f) (upd_findings (upsert_finding f) AgentState_default) = Some f.
Proof.
  intros f. refine (proj1 (finding_upsert_effect f AgentState_default _)).
  vm_compute. discriminate.
Defined.
