(* ===== verification/Convergence.v ===== *)
(** * Convergence reporting

    Models include/cf/convergence.hpp and src/convergence.cpp: the policy input
    of a delivery, the report over every (target, config key) lineage with its
    reasons and blockers, its rendering and fingerprint, and the explanation of
    one target. All of it is pure: a function of the controller state, the
    policy and the current time. *)

From stdpp Require Import gmap sorting.
From Stdlib Require Import Strings.Ascii.
From S2P Require Import Prelude Result StdMap Hash Ids Text Lifecycle Policy Artifact Records State.

(** ** Contact evidence and the policy input *)

Definition isFreshContact (runtime : TargetRuntime) (policy : DistributorPolicy) (now : Z) : bool :=
  if negb (tr_contactEstablishedThisProcess runtime) then false
  else if tr_lastContactMillis runtime <=? 0 then false
  else
    let age := now - tr_lastContactMillis runtime in
    (age >=? 0) && (age <=? livenessFreshnessMillis policy).

(** [other] is a failed delivery of the same content to the same lineage. *)
Definition failed_twin (delivery other : DeliveryRecord) : bool :=
  if bool_decide (dr_id other = dr_id delivery) then false
  else bool_decide (dr_target other = dr_target delivery)
       && bool_decide (dr_key other = dr_key delivery)
       && bool_decide (dr_generation other = dr_generation delivery)
       && bool_decide (dr_digest other = dr_digest delivery)
       && bool_decide (dr_state other = DeliveryState.Failed).

Definition superseded_by (s : ControllerState) (delivery : DeliveryRecord) : bool :=
  match latestForLineage (dr_target delivery) (dr_key delivery) s with
  | Some latest =>
      negb (bool_decide (str (dr_id latest) = str (dr_id delivery)))
      && num_lt (dr_generation delivery) (dr_generation latest)
  | None => false
  end.

Definition buildDecisionInput (s : ControllerState) (policy : DistributorPolicy)
    (delivery : DeliveryRecord) (now : Z) : DecisionInput :=
  let runtime := findTarget (dr_target delivery) s in
  mkInput (dr_state delivery) (dr_failures delivery) (dr_attempt delivery)
    (match runtime with Some r => tr_guarantee r | None => ApplyGuarantee.AtomicActivate end)
    (dr_requirement delivery) (dr_generation delivery)
    (match runtime with Some r => tr_committedGeneration r | None => num_unset end)
    (dr_digest delivery)
    (match runtime with Some r => tr_committedDigest r | None => digest_unset end)
    (match runtime with Some r => isFreshContact r policy now | None => false end)
    (match runtime with Some r => negb (tr_contactEstablishedThisProcess r) | None => false end)
    (match runtime with Some r => tr_applyPrepared r | None => false end)
    (bool_decide (is_Some (map_find (dr_digest delivery) (cs_artifacts s))))
    (existsb (failed_twin delivery) (map snd (cs_deliveries s)))
    (superseded_by s delivery) (now - dr_updatedAtMillis delivery).

(** ** Blockers *)
Module BlockerKind.
Inductive t :=
  | None | NotYetDelivered | DeliveryInFlight | AwaitingAcknowledgement | RetryBudgetExhausted
  | TargetUnreachable | TargetAuthorityFenced | GuaranteeUnsupported | ArtifactUnavailable
  | DigestMismatchReported | SizeMismatchReported | SchemaUnsupported | PolicyRejected
  | TargetAheadOfDesired | Superseded | LivenessEvidenceStale | PrepareWindowOpen
  | LivePointerUnverified.
End BlockerKind.
Abbreviation BlockerKind := BlockerKind.t.
#[global] Instance BlockerKind_eq_dec : EqDecision BlockerKind.
Proof. solve_decision. Defined.

Definition BlockerKind_raw (b : BlockerKind) : Z :=
  match b with
  | BlockerKind.None => 0 | BlockerKind.NotYetDelivered => 1
  | BlockerKind.DeliveryInFlight => 2 | BlockerKind.AwaitingAcknowledgement => 3
  | BlockerKind.RetryBudgetExhausted => 4 | BlockerKind.TargetUnreachable => 5
  | BlockerKind.TargetAuthorityFenced => 6 | BlockerKind.GuaranteeUnsupported => 7
  | BlockerKind.ArtifactUnavailable => 8 | BlockerKind.DigestMismatchReported => 9
  | BlockerKind.SizeMismatchReported => 10 | BlockerKind.SchemaUnsupported => 11
  | BlockerKind.PolicyRejected => 12 | BlockerKind.TargetAheadOfDesired => 13
  | BlockerKind.Superseded => 14 | BlockerKind.LivenessEvidenceStale => 15
  | BlockerKind.PrepareWindowOpen => 16 | BlockerKind.LivePointerUnverified => 17
  end.

Definition blockerKindName (b : BlockerKind) : string :=
  match b with
  | BlockerKind.None => "none" | BlockerKind.NotYetDelivered => "not-yet-delivered"
  | BlockerKind.DeliveryInFlight => "delivery-in-flight"
  | BlockerKind.AwaitingAcknowledgement => "awaiting-acknowledgement"
  | BlockerKind.RetryBudgetExhausted => "retry-budget-exhausted"
  | BlockerKind.TargetUnreachable => "target-unreachable"
  | BlockerKind.TargetAuthorityFenced => "target-authority-fenced"
  | BlockerKind.GuaranteeUnsupported => "guarantee-unsupported"
  | BlockerKind.ArtifactUnavailable => "artifact-unavailable"
  | BlockerKind.DigestMismatchReported => "digest-mismatch-reported"
  | BlockerKind.SizeMismatchReported => "size-mismatch-reported"
  | BlockerKind.SchemaUnsupported => "schema-unsupported"
  | BlockerKind.PolicyRejected => "policy-rejected"
  | BlockerKind.TargetAheadOfDesired => "target-ahead-of-desired"
  | BlockerKind.Superseded => "superseded"
  | BlockerKind.LivenessEvidenceStale => "liveness-evidence-stale"
  | BlockerKind.PrepareWindowOpen => "prepare-window-open"
  | BlockerKind.LivePointerUnverified => "live-pointer-unverified"
  end.

(** ** The report *)

Record LineageConvergence := mkLineage {
  ln_target : TargetId;
  ln_key : ConfigKey;
  ln_artifact : ArtifactId;
  ln_desiredGeneration : Generation;
  ln_desiredDigest : Digest;
  ln_currentGeneration : Generation;
  ln_currentDigest : Digest;
  ln_state : DeliveryState;
  ln_guarantee : ApplyGuarantee;
  ln_requirement : GuaranteeRequirement;
  ln_converged : bool;
  ln_currentReason : string;
  ln_blockers : list BlockerKind;
  ln_pending : list string;
  ln_contactEstablishedThisProcess : bool;
  ln_evidenceFromReconciliation : bool;
  ln_attempts : Z;
  ln_failures : Z;
}.

Record ConvergenceReport := mkReport {
  cr_nodeId : NodeId;
  cr_epoch : Epoch;
  cr_incarnation : IncarnationId;
  cr_lineageCount : Z;
  cr_convergedCount : Z;
  cr_pendingCount : Z;
  cr_blockedCount : Z;
  cr_divergedCount : Z;
  cr_lineages : list LineageConvergence;
  cr_retiredCount : Z;
  cr_rejectedCount : Z;
}.

Definition report_converged (r : ConvergenceReport) : bool :=
  (cr_blockedCount r =? 0) && (cr_divergedCount r =? 0) && (cr_pendingCount r =? 0).

(** *** Lineages *)

Definition lineage_of (r : DeliveryRecord) : string * string := (str (dr_target r), str (dr_key r)).

(** [lineages[{target, key}].push_back(&record)] *)
Definition push_lineage (m : list ((string * string) * list DeliveryRecord)) (r : DeliveryRecord)
    : list ((string * string) * list DeliveryRecord) :=
  map_assign (lineage_of r) (default [] (map_find (lineage_of r) m) ++ [r]) m.
Definition lineages_of (s : ControllerState) : list ((string * string) * list DeliveryRecord) :=
  foldl push_lineage [] (map snd (cs_deliveries s)).

(** The order of [std::sort], as the relation "not after". *)
Definition record_le (a b : DeliveryRecord) : Prop :=
  value (dr_generation a) < value (dr_generation b)
  ∨ (value (dr_generation a) = value (dr_generation b)
     ∧ key_cmp (str (dr_id a)) (str (dr_id b)) ≠ Gt).
#[global] Instance record_le_dec : RelDecision record_le.
Proof. intros a b. unfold record_le. apply _. Defined.

(** *** What the state of the newest delivery says *)

Definition failed_blockers (e : ErrorCode) : list BlockerKind :=
  match e with
  | ErrorCode.DigestMismatch => [BlockerKind.DigestMismatchReported]
  | ErrorCode.SizeMismatch => [BlockerKind.SizeMismatchReported]
  | ErrorCode.ArtifactUnavailable => [BlockerKind.ArtifactUnavailable]
  | ErrorCode.StaleEpoch | ErrorCode.StaleGeneration | ErrorCode.FencedIncarnation =>
      [BlockerKind.TargetAuthorityFenced]
  | ErrorCode.GenerationConflict | ErrorCode.Conflict => [BlockerKind.PolicyRejected]
  | _ => []
  end.

Definition rejected_blocker (e : ErrorCode) : BlockerKind :=
  match e with
  | ErrorCode.GuaranteeUnsupported => BlockerKind.GuaranteeUnsupported
  | ErrorCode.ArtifactUnavailable => BlockerKind.ArtifactUnavailable
  | ErrorCode.SchemaUnsupported => BlockerKind.SchemaUnsupported
  | _ => BlockerKind.PolicyRejected
  end.

(** The switch: converged, blockers, pending work, reason. *)
Definition state_findings (policy : DistributorPolicy) (desired : DeliveryRecord)
    : bool * list BlockerKind * list string * string :=
  match dr_state desired with
  | DeliveryState.Acknowledged =>
      (true, [], [],
       "the target reported activation of the desired generation and the acknowledgement was durably recorded under the current authority"
       +:+ (if dr_acknowledgedFromReconcile desired
            then " (evidence recovered by reconciliation)" else ""))
  | DeliveryState.Applied =>
      (false, [BlockerKind.AwaitingAcknowledgement],
       ["await the activation acknowledgement or reconcile it"],
       "the target reports the desired generation active, but the acknowledgement boundary has not been recorded")
  | DeliveryState.Staged | DeliveryState.Verified =>
      (false, [BlockerKind.DeliveryInFlight], ["activate the staged artifact"],
       "the artifact is verified and staged at the target")
  | DeliveryState.Offered | DeliveryState.Transferred =>
      (false, [BlockerKind.DeliveryInFlight], ["finish transferring the artifact"],
       "the transfer to the target has started but has not completed")
  | DeliveryState.Prepared =>
      (false, [BlockerKind.NotYetDelivered], ["deliver the artifact to the target"],
       "the delivery has been prepared but nothing has been sent")
  | DeliveryState.Failed =>
      (false,
       (if dr_failures desired >=? maxAttempts policy
        then [BlockerKind.RetryBudgetExhausted] else [BlockerKind.DeliveryInFlight])
       ++ failed_blockers (dr_lastError desired),
       (if dr_failures desired >=? maxAttempts policy
        then ["operator action: raise the retry budget or fix the target"]
        else ["retry the delivery"]),
       "the last attempt failed: " +:+ dr_lastDetail desired)
  | DeliveryState.Rejected =>
      (false, [rejected_blocker (dr_lastError desired)],
       ["operator action: change the deployment instruction"],
       "the delivery was refused: " +:+ dr_lastDetail desired)
  | DeliveryState.Retired =>
      (false, [BlockerKind.Superseded], [], "the delivery was superseded")
  end.

(** What the target's runtime record adds: blockers, pending work, reason. *)
Definition runtime_findings (policy : DistributorPolicy) (now : Z) (desired : DeliveryRecord)
    (runtime : option TargetRuntime) (reason : string) : list BlockerKind * list string * string :=
  match runtime with
  | None =>
      ([BlockerKind.TargetUnreachable], [],
       if decide (reason = "")
       then "the target has never been contacted by this controller" else reason)
  | Some r =>
      let stale := negb (isFreshContact r policy now) && isPendingState (dr_state desired) in
      let ahead := num_lt (dr_generation desired) (tr_committedGeneration r) in
      ((if stale then [BlockerKind.LivenessEvidenceStale] else [])
       ++ (if tr_applyPrepared r then [BlockerKind.PrepareWindowOpen] else [])
       ++ (if ahead then [BlockerKind.TargetAheadOfDesired] else []),
       (if stale then ["establish a live session with the target"] else [])
       ++ (if tr_applyPrepared r then ["resolve the target's prepare/commit window"] else []),
       if ahead
       then "the target is at generation " +:+ to_string (value (tr_committedGeneration r))
            +:+ ", which is newer than the desired generation "
            +:+ to_string (value (dr_generation desired))
       else reason)
  end.

(** *** One lineage *)

(** [erase(unique(...))]: consecutive duplicates. *)
Fixpoint unique `{EqDecision A} (l : list A) : list A :=
  match l with
  | a :: (b :: _) as rest => if decide (a = b) then unique rest else a :: unique rest
  | l => l
  end.

Definition blocker_le (a b : BlockerKind) : Prop := BlockerKind_raw a <= BlockerKind_raw b.
#[global] Instance blocker_le_dec : RelDecision blocker_le.
Proof. intros a b. unfold blocker_le. apply _. Defined.
Definition text_le (a b : string) : Prop := key_cmp a b ≠ Gt.
#[global] Instance text_le_dec : RelDecision text_le.
Proof. intros a b. unfold text_le. apply _. Defined.

Definition lineage_convergence (s : ControllerState) (policy : DistributorPolicy) (now : Z)
    (desired : DeliveryRecord) : LineageConvergence :=
  let runtime := findTarget (dr_target desired) s in
  let '(converged, blockers, pending, reason) := state_findings policy desired in
  let '(blockers', pending', reason') := runtime_findings policy now desired runtime reason in
  mkLineage (dr_target desired) (dr_key desired) (dr_artifact desired) (dr_generation desired)
    (dr_digest desired)
    (match runtime with Some r => tr_committedGeneration r | None => num_unset end)
    (match runtime with Some r => tr_committedDigest r | None => digest_unset end)
    (dr_state desired)
    (match runtime with Some r => tr_guarantee r | None => dr_effectiveGuarantee desired end)
    (dr_requirement desired) converged reason'
    (unique (merge_sort blocker_le (blockers ++ blockers')))
    (unique (merge_sort text_le (pending ++ pending')))
    (match runtime with Some r => tr_contactEstablishedThisProcess r | None => false end)
    (dr_acknowledgedFromReconcile desired)
    (Z.min (value (dr_attempt desired)) 4294967295) (dr_failures desired).

(** *** Counting *)

Inductive Tally := TallyConverged | TallyBlocked | TallyDiverged | TallyPending.
#[global] Instance Tally_eq_dec : EqDecision Tally.
Proof. solve_decision. Defined.

Definition blocking (b : BlockerKind) : bool :=
  match b with
  | BlockerKind.RetryBudgetExhausted | BlockerKind.GuaranteeUnsupported
  | BlockerKind.ArtifactUnavailable | BlockerKind.PolicyRejected
  | BlockerKind.TargetAheadOfDesired | BlockerKind.DigestMismatchReported
  | BlockerKind.SchemaUnsupported => true
  | _ => false
  end.

Definition tally_of (l : LineageConvergence) : Tally :=
  if ln_converged l then TallyConverged
  else if match ln_blockers l with front :: _ => blocking front | [] => false end then TallyBlocked
  else if num_isSet (ln_currentGeneration l)
          && num_lt (ln_currentGeneration l) (ln_desiredGeneration l) then TallyDiverged
  else TallyPending.

Definition one_if (b : bool) : Z := if b then 1 else 0.

Definition add_lineage (l : LineageConvergence) (retired rejected : Z) (r : ConvergenceReport)
    : ConvergenceReport :=
  let count t := one_if (bool_decide (tally_of l = t)) in
  mkReport (cr_nodeId r) (cr_epoch r) (cr_incarnation r) (cr_lineageCount r + 1)
    (cr_convergedCount r + count TallyConverged) (cr_pendingCount r + count TallyPending)
    (cr_blockedCount r + count TallyBlocked) (cr_divergedCount r + count TallyDiverged)
    (cr_lineages r ++ [l]) (cr_retiredCount r + retired) (cr_rejectedCount r + rejected).

Definition is_retired (r : DeliveryRecord) : bool :=
  bool_decide (dr_state r = DeliveryState.Retired).

(** [records.back()] after the sort; a lineage has at least one record. *)
Definition desired_of (records : list DeliveryRecord) : option DeliveryRecord :=
  List.last (map Some (merge_sort record_le records)) None.

Definition report_lineage (s : ControllerState) (policy : DistributorPolicy) (now : Z)
    (r : ConvergenceReport) (lineage : (string * string) * list DeliveryRecord)
    : ConvergenceReport :=
  match desired_of lineage.2 with
  | None => r
  | Some desired =>
      add_lineage (lineage_convergence s policy now desired)
        (zlen (List.filter is_retired lineage.2))
        (one_if (bool_decide (dr_state desired = DeliveryState.Rejected))) r
  end.

Definition empty_report (s : ControllerState) : ConvergenceReport :=
  mkReport (cs_nodeId s) (cs_epoch s) (cs_incarnation s) 0 0 0 0 0 [] 0 0.

Definition buildConvergenceReport (s : ControllerState) (policy : DistributorPolicy) (now : Z)
    : ConvergenceReport :=
  foldl (report_lineage s policy now) (empty_report s) (lineages_of s).

(** ** Rendering *)

Definition line (text : string) : string := text +:+ newline.

Definition generation_or_none (none : string) (g : Generation) : string :=
  if num_isSet g then to_string (value g) else none.
Definition digest_or_none (d : Digest) : string :=
  if digest_isSet d then shortDigest d else "none".

Definition lineage_render (l : LineageConvergence) : string :=
  "target=" +:+ str (ln_target l) +:+ " key=" +:+ str (ln_key l)
    +:+ " desired-generation=" +:+ to_string (value (ln_desiredGeneration l))
    +:+ " desired-digest=" +:+ shortDigest (ln_desiredDigest l)
    +:+ " current-generation=" +:+ generation_or_none "none" (ln_currentGeneration l)
    +:+ " current-digest=" +:+ digest_or_none (ln_currentDigest l)
    +:+ " state=" +:+ deliveryStateName (ln_state l)
    +:+ " guarantee=" +:+ applyGuaranteeName (ln_guarantee l)
    +:+ " required=" +:+ guaranteeRequirementName (ln_requirement l)
    +:+ " outcome=" +:+ (if ln_converged l then "converged" else "not-converged") +:+ newline
    +:+ line ("  reason: " +:+ ln_currentReason l)
    +:+ (if bool_decide (ln_blockers l = []) then ""
         else "  blockers:"
                +:+ foldr (λ b out, " " +:+ blockerKindName b +:+ out) newline (ln_blockers l))
    +:+ (if bool_decide (ln_pending l = []) then ""
         else "  pending:" +:+ newline
                +:+ foldr (λ item out, line ("    - " +:+ item) +:+ out) "" (ln_pending l)).

Definition ConvergenceReport_render (r : ConvergenceReport) : string :=
  "convergence node=" +:+ str (cr_nodeId r) +:+ " epoch=" +:+ to_string (value (cr_epoch r))
    +:+ " incarnation=" +:+ str_take 8 (toHex (opaque_bytes (cr_incarnation r))) +:+ newline
    +:+ "lineages=" +:+ to_string (cr_lineageCount r)
    +:+ " converged=" +:+ to_string (cr_convergedCount r)
    +:+ " pending=" +:+ to_string (cr_pendingCount r)
    +:+ " diverged=" +:+ to_string (cr_divergedCount r)
    +:+ " blocked=" +:+ to_string (cr_blockedCount r)
    +:+ " retired=" +:+ to_string (cr_retiredCount r)
    +:+ " rejected=" +:+ to_string (cr_rejectedCount r) +:+ newline
    +:+ line ("state=" +:+ (if report_converged r then "converged" else "not-converged"))
    +:+ foldr (λ l out, lineage_render l +:+ out) "" (cr_lineages r).

Definition lineage_material (l : LineageConvergence) : string :=
  str (ln_target l) +:+ ":" +:+ str (ln_key l) +:+ ":"
    +:+ to_string (value (ln_desiredGeneration l)) +:+ ":"
    +:+ generation_or_none "-" (ln_currentGeneration l) +:+ ":"
    +:+ deliveryStateName (ln_state l) +:+ ":" +:+ (if ln_converged l then "1" else "0") +:+ ";".

Definition report_material (r : ConvergenceReport) : string :=
  str (cr_nodeId r) +:+ "|" +:+ to_string (value (cr_epoch r)) +:+ "|"
    +:+ foldr (λ l out, lineage_material l +:+ out) "" (cr_lineages r).

Definition ConvergenceReport_fingerprint (r : ConvergenceReport) : string :=
  shortDigest (Digest_ofText (report_material r)).

(** ** Explaining one target *)

Definition opaque_or_unset {Tag} (o : OpaqueIdentity Tag) (text : string → string) : string :=
  if opaque_isSet o then text (toHex (opaque_bytes o)) else "unset".

Definition runtime_explanation (policy : DistributorPolicy) (now : Z)
    (runtime : option TargetRuntime) : string :=
  match runtime with
  | None => line "  runtime: never contacted"
  | Some r =>
      line ("  class = " +:+ targetClassName (tr_klass r))
        +:+ line ("  apply-guarantee = " +:+ applyGuaranteeName (tr_guarantee r))
        +:+ line ("  target-term = " +:+ to_string (value (tr_term r)))
        +:+ line ("  target-incarnation = " +:+ opaque_or_unset (tr_incarnation r) id)
        +:+ line ("  committed-generation = "
                    +:+ generation_or_none "none" (tr_committedGeneration r))
        +:+ line ("  committed-digest = "
                    +:+ (if digest_isSet (tr_committedDigest r)
                         then digest_hex (tr_committedDigest r) else "none"))
        +:+ line ("  contact-established-this-process = "
                    +:+ bool_text (tr_contactEstablishedThisProcess r))
        +:+ line ("  sessions-established = " +:+ to_string (tr_sessionsEstablished r))
        +:+ line ("  restarts-observed = " +:+ to_string (tr_restartsObserved r))
        +:+ line ("  unresolved-prepare-window = " +:+ bool_text (tr_applyPrepared r))
        +:+ line ("  live = " +:+ bool_text (isFreshContact r policy now))
  end.

Definition last_error_line (r : DeliveryRecord) : string :=
  if decide (dr_lastError r = ErrorCode.Ok) then ""
  else
    line ("    last-error = " +:+ errorCodeName (dr_lastError r) +:+ " ("
            +:+ retryDirectiveName (dr_lastDirective r) +:+ ")"
            +:+ (if decide (dr_lastDetail r = "") then "" else ": " +:+ dr_lastDetail r)).

Definition evidence_lines (events : list LifecycleEvent) : string :=
  if bool_decide (events = []) then ""
  else
    line "    evidence:"
      +:+ foldr (λ e out, line ("      - " +:+ LifecycleEvent_render e) +:+ out) "" events.

Definition delivery_explanation (r : DeliveryRecord) : string :=
  line ("  delivery " +:+ str (dr_id r))
    +:+ line ("    deployment-set = " +:+ str (dr_setId r))
    +:+ line ("    config-key = " +:+ str (dr_key r))
    +:+ line ("    artifact = " +:+ str (dr_artifact r)
                +:+ " revision=" +:+ to_string (value (dr_revision r)))
    +:+ line ("    generation = " +:+ to_string (value (dr_generation r))
                +:+ " digest = " +:+ digest_hex (dr_digest r))
    +:+ line ("    schema = " +:+ str (dr_schema r)
                +:+ " schema-version=" +:+ to_string (value (dr_schemaVersion r)))
    +:+ line ("    requirement = " +:+ guaranteeRequirementName (dr_requirement r)
                +:+ " effective-guarantee = " +:+ applyGuaranteeName (dr_effectiveGuarantee r))
    +:+ line ("    state = " +:+ deliveryStateName (dr_state r)
                +:+ " attempt = " +:+ to_string (value (dr_attempt r))
                +:+ " failures = " +:+ to_string (dr_failures r))
    +:+ last_error_line r
    +:+ line ("    authority-epoch = " +:+ to_string (value (dr_authorityEpoch r))
                +:+ " authority-incarnation = "
                +:+ opaque_or_unset (dr_authorityIncarnation r) (str_take 8))
    +:+ line ("    acknowledged-from-reconciliation = "
                +:+ bool_text (dr_acknowledgedFromReconcile r))
    +:+ evidence_lines (dr_events r).

(** The lines of a text: a final newline starts no further line. *)
Definition text_lines (text : string) : list string :=
  match rev (split_on "010" text) with
  | EmptyString :: fields => rev fields
  | fields => rev fields
  end.

Definition decision_explanation (s : ControllerState) (policy : DistributorPolicy) (now : Z)
    (r : DeliveryRecord) : string :=
  let decision := Decide.decide policy (buildDecisionInput s policy r now) (cs_epoch s)
                    (dr_generation r) in
  "    " +:+ foldr (λ text out, "    " +:+ text +:+ newline +:+ out) ""
                 (text_lines (Decision_render decision policy)).

Definition explainTarget (s : ControllerState) (policy : DistributorPolicy) (target : TargetId)
    (now : Z) : string :=
  let records := List.filter (λ r, bool_decide (dr_target r = target)) (map snd (cs_deliveries s)) in
  line ("target: " +:+ str target)
    +:+ runtime_explanation policy now (findTarget target s)
    +:+ (if bool_decide (records = [])
         then line "  no deliveries are recorded for this target"
         else foldr (λ r out, delivery_explanation r +:+ decision_explanation s policy now r +:+ out)
                "" records).

(** ** Lemmas *)

(** *** Grouping *)

Definition in_lineage (k : string * string) (r : DeliveryRecord) : bool := bool_decide (lineage_of r = k).

Definition some_if_any {A} (l : list A) : option (list A) :=
  match l with [] => None | _ => Some l end.

Lemma push_lineage_eq m r :
  push_lineage m r
  = map_assign (lineage_of r) (default [] (map_find (lineage_of r) m) ++ [r]) m.
Proof. reflexivity. Qed.

Lemma lineages_sorted l : map_sorted (foldl push_lineage [] l).
Proof.
  induction l as [|r l IH] using rev_ind; [done|]. rewrite foldl_app. by apply map_assign_sorted.
Qed.

Lemma lineages_find l k :
  map_find k (foldl push_lineage [] l) = some_if_any (List.filter (in_lineage k) l).
Proof.
  induction l as [|r l IH] using rev_ind; [done|]. rewrite foldl_app, List.filter_app.
  cbn [foldl List.filter]. rewrite push_lineage_eq. unfold in_lineage at 2.
  destruct (decide (lineage_of r = k)) as [<-|Hne].
  - rewrite map_find_assign_eq, IH, bool_decide_true by done.
    by destruct (List.filter (in_lineage (lineage_of r)) l).
  - by rewrite map_find_assign_ne, IH, bool_decide_false, app_nil_r by done.
Qed.

(** *** The newest record of a lineage *)

#[global] Instance record_le_total : Total record_le.
Proof.
  intros a b. unfold record_le. rewrite (key_cmp_antisym (str (dr_id a))).
  destruct (key_cmp (str (dr_id a)) (str (dr_id b))); simpl; 
    destruct (Z.lt_trichotomy (value (dr_generation a)) (value (dr_generation b))) as [?|[?|?]]; 
    first [by left; left|by right; left|by left; right|by right; right].
Qed.
Lemma key_le_trans `{OrderedKey K} (a b c : K) :
  key_cmp a b ≠ Gt → key_cmp b c ≠ Gt → key_cmp a c ≠ Gt.
Proof.
  intros H1 H2. destruct (key_cmp a b) eqn:E1; [|destruct (key_cmp b c) eqn:E2|done].
  - by apply key_cmp_eq in E1 as ->.
  - apply key_cmp_eq in E2 as <-. by rewrite E1.
  - by rewrite (key_cmp_trans _ _ _ E1 E2).
  - done.
Qed.
#[global] Instance record_le_trans : Transitive record_le.
Proof.
  intros a b c [H1|[H1 H1']] [H2|[H2 H2']]; unfold record_le; try (left; lia).
  right. split; [lia|]. by eapply key_le_trans.
Qed.
Lemma record_le_same a b : record_le a b → record_le b a → dr_id a = dr_id b.
Proof.
  intros [H1|[H1 H1']] [H2|[H2 H2']]; try lia. apply str_inj, key_cmp_eq.
  rewrite key_cmp_antisym in H2'.
  by destruct (key_cmp (str (dr_id a)) (str (dr_id b))).
Qed.

Definition newest (d : DeliveryRecord) (l : list DeliveryRecord) : Prop :=
  d ∈ l ∧ ∀ r, r ∈ l → record_le r d.

Lemma newest_unique d d' l : NoDup (map dr_id l) → newest d l → newest d' l → d = d'.
Proof.
  intros Hnd [Hd Hmax] [Hd' Hmax']. pose proof (record_le_same _ _ (Hmax _ Hd') (Hmax' _ Hd)) as E.
  clear Hmax Hmax'. revert Hnd Hd Hd'. induction l as [|r l IH]; intros Hnd Hd Hd'; [by apply elem_of_nil in Hd|].
  cbn [map] in Hnd. inversion_clear Hnd as [|? ? Hr Hnd'].
  assert (∀ x, x ∈ l → dr_id x ≠ dr_id r) as Hne.
  { intros x Hx Ex. apply Hr. rewrite <- Ex. by apply list_elem_of_fmap_2. }
  apply elem_of_cons in Hd as [->|Hd]; apply elem_of_cons in Hd' as [->|Hd'].
  - done.
  - by destruct (Hne d' Hd').
  - by destruct (Hne d Hd).
  - by apply IH.
Qed.

Lemma desired_of_newest l : l ≠ [] → ∃ d, desired_of l = Some d ∧ newest d l.
Proof.
  intros Hne. unfold desired_of. pose proof (merge_sort_Permutation record_le l) as Hp.
  pose proof (StronglySorted_merge_sort record_le l) as Hs.
  assert (merge_sort record_le l ≠ []) as Hne'.
  { intros E. rewrite E in Hp. by apply Permutation_nil in Hp. }
  destruct (exists_last Hne') as (init & d & E). rewrite E in Hp, Hs |- *. exists d.
  rewrite map_app. cbn [map]. rewrite last_last. split; [done|]. split.
  - rewrite <- Hp. set_solver.
  - intros r Hr. rewrite <- Hp in Hr. apply elem_of_app in Hr as [Hr|Hr].
    + eapply StronglySorted_app_1_elem_of; [exact Hs|done|set_solver].
    + apply list_elem_of_singleton in Hr as ->. right. split; [done|]. by rewrite key_cmp_refl.
Qed.

(** The scan of [latestForLineage]. *)
Definition newest_step (newest : option DeliveryRecord) (r : DeliveryRecord) : option DeliveryRecord :=
  match newest with
  | None => Some r
  | Some n => if newer_delivery r n then Some r else newest
  end.

Lemma newer_delivery_le r n : (newer_delivery r n = true → record_le n r) ∧ (newer_delivery r n = false → record_le r n).
Proof.
  unfold newer_delivery, record_le. rewrite (key_cmp_antisym (str (dr_id r)) (str (dr_id n))).
  destruct (Z.gtb_spec (value (dr_generation r)) (value (dr_generation n)));
    [by split; [left|]|].
  destruct (Z.eqb_spec (value (dr_generation r)) (value (dr_generation n))) as [E|];
    cbn [orb andb]; [rewrite E|by split; [|left; lia]].
  destruct (key_cmp (str (dr_id r)) (str (dr_id n))); simpl; split; try done; intros _; right; done.
Qed.

Lemma newest_fold l : l ≠ [] → ∃ d, foldl newest_step None l = Some d ∧ newest d l.
Proof.
  induction l as [|r l IH] using rev_ind; [done|]. intros _. rewrite foldl_app. cbn [foldl].
  destruct (decide (l = [])) as [->|Hne].
  - exists r. split; [done|]. split; [set_solver|]. intros x Hx. apply list_elem_of_singleton in Hx as ->.
    right. split; [done|]. by rewrite key_cmp_refl.
  - destruct (IH Hne) as (d & -> & Hd & Hmax). cbn [newest_step].
    destruct (newer_delivery_le r d) as [Ht Hf]. destruct (newer_delivery r d).
    + exists r. split; [done|]. split; [set_solver|]. intros x [Hx|Hx]%elem_of_app.
      * transitivity d; [by apply Hmax|by apply Ht].
      * apply list_elem_of_singleton in Hx as ->. right. split; [done|]. by rewrite key_cmp_refl.
    + exists d. split; [done|]. split; [set_solver|]. intros x [Hx|Hx]%elem_of_app; [by apply Hmax|].
      apply list_elem_of_singleton in Hx as ->. by apply Hf.
Qed.

Lemma in_lineage_parts target key r :
  in_lineage (str target, str key) r
  = bool_decide (dr_target r = target) && bool_decide (dr_key r = key).
Proof.
  unfold in_lineage, lineage_of. rewrite <- bool_decide_and. apply bool_decide_ext. split.
  - intros [= Et Ek]. split; by apply str_inj.
  - by intros [-> ->].
Qed.

Lemma latestForLineage_fold target key s :
  latestForLineage target key s
  = foldl newest_step None
      (List.filter (in_lineage (str target, str key)) (map snd (cs_deliveries s))).
Proof.
  unfold latestForLineage. generalize (@None DeliveryRecord).
  induction (map snd (cs_deliveries s)) as [|r l IH]; intros n; [done|]. cbn [foldl List.filter].
  rewrite in_lineage_parts, <- negb_andb. 
  destruct (bool_decide (dr_target r = target) && bool_decide (dr_key r = key)); apply IH.
Qed.

Definition values_of (s : ControllerState) : list DeliveryRecord := map snd (cs_deliveries s).

(** The sorted lineage's last record is the newest delivery. *)
Lemma desired_is_latest s target key :
  NoDup (map dr_id (values_of s)) →
  let records := List.filter (in_lineage (str target, str key)) (values_of s) in
  records ≠ [] → desired_of records = latestForLineage target key s
                 ∧ is_Some (latestForLineage target key s).
Proof.
  intros Hnd records Hne. rewrite latestForLineage_fold.
  destruct (desired_of_newest records Hne) as (d & -> & Hd).
  destruct (newest_fold records Hne) as (d' & E & Hd'). fold (values_of s) in *.
  change (List.filter (in_lineage (str target, str key)) (values_of s)) with records.
  rewrite E. split; [|done]. f_equal. apply (newest_unique d d' records); [|done|done].
  unfold records. clear - Hnd. induction (values_of s) as [|r l IH]; [done|]. cbn [map List.filter] in *.
  inversion_clear Hnd as [|? ? Hr Hnd']. destruct (in_lineage _ r); [|by apply IH].
  cbn [map]. apply NoDup_cons_2; [|by apply IH]. intros Hin. apply Hr.
  apply list_elem_of_fmap in Hin as (x & -> & Hx). apply list_elem_of_fmap. exists x.
  split; [done|]. apply list_elem_of_In in Hx. apply list_elem_of_In.
  by apply List.filter_In in Hx as [Hx _].
Qed.

Lemma deliveries_distinct s : keyed dr_id delivery_wf (cs_deliveries s) → NoDup (map dr_id (values_of s)).
Proof.
  intros [Hs Hf]. unfold values_of. induction (cs_deliveries s) as [|[k r] m IH]; [apply NoDup_nil_2|].
  cbn [map snd map_sorted] in *. destruct Hs as [Hb Hs]. apply Forall_cons_iff in Hf as [[Hk _] Hf].
  simpl in Hk. subst k. apply NoDup_cons_2; [|by apply IH]. intros Hin.
  apply list_elem_of_fmap in Hin as (x & Ex & Hx). apply list_elem_of_fmap in Hx as ([k y] & -> & Hy).
  cbn [snd] in Ex. apply list_elem_of_In in Hy. unfold below in Hb. rewrite List.Forall_forall in Hb, Hf.
  pose proof (Hb _ Hy) as Hlt. destruct (Hf _ Hy) as [E _]. cbn [fst snd] in Hlt, E. subst k. rewrite Ex in Hlt.
  by rewrite key_cmp_refl in Hlt.
Qed.

(** *** The report as a whole *)

Definition tally_count (t : Tally) (ls : list LineageConvergence) : Z :=
  zlen (List.filter (λ l, bool_decide (tally_of l = t)) ls).

Lemma tally_count_app t a b : tally_count t (a ++ b) = tally_count t a + tally_count t b.
Proof. unfold tally_count. by rewrite List.filter_app, zlen_app. Qed.
Lemma tally_count_one t l : tally_count t [l] = one_if (bool_decide (tally_of l = t)).
Proof. unfold tally_count. cbn [List.filter]. by case_bool_decide. Qed.
Lemma tally_count_0 t ls : tally_count t ls = 0 ↔ ∀ l, l ∈ ls → tally_of l ≠ t.
Proof.
  unfold tally_count. split.
  - intros Hz%zlen_0_nil l Hl E. apply list_elem_of_In in Hl.
    assert (In l (List.filter (λ l, bool_decide (tally_of l = t)) ls)) as Hin
      by (apply List.filter_In; by rewrite bool_decide_true).
    by rewrite Hz in Hin.
  - intros Hne. destruct (List.filter _ ls) as [|l rest] eqn:E; [done|].
    assert (In l ls ∧ bool_decide (tally_of l = t) = true) as [Hl Ht]
      by (apply (proj1 (List.filter_In (λ l, bool_decide (tally_of l = t)) l ls)); rewrite E; by left).
    apply bool_decide_eq_true in Ht. by destruct (Hne l (proj2 (list_elem_of_In _ _) Hl)).
Qed.

Lemma tally_one l :
  one_if (bool_decide (tally_of l = TallyConverged)) + one_if (bool_decide (tally_of l = TallyPending))
  + one_if (bool_decide (tally_of l = TallyBlocked)) + one_if (bool_decide (tally_of l = TallyDiverged))
  = 1.
Proof. by destruct (tally_of l). Qed.

(** The counts and lineages of [r], with those of [ls] added. *)
Record counted (r : ConvergenceReport) (ls : list LineageConvergence) (r' : ConvergenceReport) : Prop := {
  ct_lineages : cr_lineages r' = cr_lineages r ++ ls;
  ct_all : cr_lineageCount r' = cr_lineageCount r + zlen ls;
  ct_converged : cr_convergedCount r' = cr_convergedCount r + tally_count TallyConverged ls;
  ct_pending : cr_pendingCount r' = cr_pendingCount r + tally_count TallyPending ls;
  ct_blocked : cr_blockedCount r' = cr_blockedCount r + tally_count TallyBlocked ls;
  ct_diverged : cr_divergedCount r' = cr_divergedCount r + tally_count TallyDiverged ls;
  ct_head : cr_nodeId r' = cr_nodeId r ∧ cr_epoch r' = cr_epoch r
            ∧ cr_incarnation r' = cr_incarnation r;
}.

Definition entry_lineage (s : ControllerState) (policy : DistributorPolicy) (now : Z)
    (e : (string * string) * list DeliveryRecord) : option LineageConvergence :=
  lineage_convergence s policy now <$> desired_of e.2.

Lemma counted_refl r : counted r [] r.
Proof.
  assert (∀ t, tally_count t [] = 0) as E by done.
  split; rewrite ?E, ?app_nil_r, ?zlen_nil; done || lia.
Qed.
Lemma counted_trans r a r' b r'' : counted r a r' → counted r' b r'' → counted r (a ++ b) r''.
Proof.
  intros [H1 H2 H3 H4 H5 H6 (H7 & H8 & H9)] [K1 K2 K3 K4 K5 K6 (K7 & K8 & K9)].
  split; rewrite ?tally_count_app, ?zlen_app; [|lia..|].
  - by rewrite K1, H1, app_assoc.
  - split; [congruence|]. split; congruence.
Qed.
Lemma counted_add l retired rejected r : counted r [l] (add_lineage l retired rejected r).
Proof. split; rewrite ?tally_count_one; done. Qed.

Lemma entry_lineage_eq s policy now e :
  entry_lineage s policy now e = lineage_convergence s policy now <$> desired_of e.2.
Proof. reflexivity. Qed.
Lemma report_lineage_eq s policy now r e :
  report_lineage s policy now r e
  = match desired_of e.2 with
    | None => r
    | Some desired =>
        add_lineage (lineage_convergence s policy now desired) (zlen (List.filter is_retired e.2))
          (one_if (bool_decide (dr_state desired = DeliveryState.Rejected))) r
    end.
Proof. reflexivity. Qed.

Lemma report_counts s policy now m r :
  counted r (omap (entry_lineage s policy now) m) (foldl (report_lineage s policy now) r m).
Proof.
  revert r. induction m as [|e m IH]; intros r; [apply counted_refl|].
  cbn [foldl omap list_omap]. specialize (IH (report_lineage s policy now r e)).
  unfold entry_lineage at 1. rewrite report_lineage_eq in IH |- *.
  destruct (desired_of e.2) as [d|]; cbn [fmap option_fmap option_map]; [|exact IH].
  eapply (counted_trans _ [_]); [apply counted_add|exact IH].
Qed.

(** The lineages of the report, in the order of their keys. *)
Lemma report_lineages s policy now :
  NoDup (map dr_id (values_of s)) →
  let keys := map fst (lineages_of s) in
  map Some (omap (entry_lineage s policy now) (lineages_of s))
  = map (λ k, lineage_convergence s policy now <$> latestForLineage (mkString k.1) (mkString k.2) s) keys
  ∧ (∀ k, k ∈ keys ↔ ∃ d, d ∈ values_of s ∧ lineage_of d = k)
  ∧ map_sorted (lineages_of s).
Proof.
  intros Hnd keys. pose proof (lineages_sorted (values_of s)) as Hs. fold (lineages_of s) in Hs.
  assert (∀ k records, (k, records) ∈ lineages_of s →
            records = List.filter (in_lineage k) (values_of s) ∧ records ≠ []) as He.
  { intros k records Hin%map_find_elem; [|done]. unfold lineages_of in Hin. rewrite lineages_find in Hin.
    fold (values_of s) in Hin. unfold some_if_any in Hin.
    destruct (List.filter (in_lineage k) (values_of s)); [done|]. by injection Hin as <-. }
  split; [|split; [|done]].
  - unfold keys. clear keys Hs. induction (lineages_of s) as [|[k records] m IH]; [done|].
    destruct (He k records) as [E Hne]; [by left|]. cbn [omap list_omap map fst].
    unfold entry_lineage at 1. cbn [snd]. rewrite E in Hne |- *. destruct k as [t k].
    destruct (desired_is_latest s (mkString t) (mkString k) Hnd Hne) as [Ed [d Hd]].
    cbn [str] in Ed. rewrite Ed. cbn [fst snd]. rewrite Hd. cbn [fmap option_fmap option_map map].
    f_equal. apply IH. intros k' records' Hin. apply He. by right.
  - intros k. unfold keys. split.
    + intros ([k' records] & -> & Hin)%list_elem_of_fmap. destruct (He _ _ Hin) as [-> Hne].
      cbn [fst]. destruct (List.filter (in_lineage k') (values_of s)) as [|d rest] eqn:E; [done|].
      assert (In d (values_of s) ∧ in_lineage k' d = true) as [Hd Hk]
        by (apply (proj1 (List.filter_In (in_lineage k') d (values_of s))); rewrite E; by left).
      exists d. split; [by apply list_elem_of_In|]. by apply bool_decide_eq_true in Hk.
    + intros (d & Hd & <-). apply list_elem_of_fmap.
      pose proof (lineages_find (values_of s) (lineage_of d)) as Hf.
      destruct (List.filter (in_lineage (lineage_of d)) (values_of s)) as [|x rest] eqn:E.
      * exfalso. assert (In d (List.filter (in_lineage (lineage_of d)) (values_of s))) as Hin.
        { apply List.filter_In. split; [by apply list_elem_of_In|]. by apply bool_decide_eq_true. }
        by rewrite E in Hin.
      * exists (lineage_of d, x :: rest). split; [done|]. apply map_find_elem; [done|]. exact Hf.
Qed.

Lemma built_report s policy now :
  counted (empty_report s) (omap (entry_lineage s policy now) (lineages_of s))
    (buildConvergenceReport s policy now).
Proof. apply report_counts. Qed.

Lemma lineage_converged s policy now d :
  ln_converged (lineage_convergence s policy now d) = true ↔ dr_state d = DeliveryState.Acknowledged.
Proof.
  unfold lineage_convergence, state_findings.
  destruct (dr_state d) eqn:E; destruct (runtime_findings _ _ _ _ _) as [[] ]; cbn; split; congruence.
Qed.
Lemma tally_converged l : tally_of l = TallyConverged ↔ ln_converged l = true.
Proof.
  unfold tally_of. destruct (ln_converged l); [done|]. split; [|done].
  destruct (match ln_blockers l with [] => _ | _ => _ end); [done|]. by destruct (_ && _).
Qed.

(** ** Properties *)

(** The report leaves no lineage out and counts each one once. For a
    well-formed controller state, its lineages are, in strictly increasing
    order of (target, key), exactly those that have a delivery; each is judged
    by the delivery [latestForLineage] names, the one the scheduler treats as
    current; and every lineage is counted in exactly one of converged,
    pending, blocked and diverged, which add up to the number of lineages. *)
Theorem report_complete s policy now (Hwf : controller_wf s) :
  let r := buildConvergenceReport s policy now in
  (∃ keys, map_sorted (map (λ k, (k, tt)) keys)
     ∧ (∀ k, k ∈ keys ↔ ∃ d, d ∈ map snd (cs_deliveries s) ∧ lineage_of d = k)
     ∧ map Some (cr_lineages r)
       = map (λ k, lineage_convergence s policy now
                     <$> latestForLineage (mkString k.1) (mkString k.2) s) keys)
  ∧ cr_lineageCount r = zlen (cr_lineages r)
  ∧ cr_lineageCount r
    = cr_convergedCount r + cr_pendingCount r + cr_blockedCount r + cr_divergedCount r.
Proof.
  intros r. pose proof (built_report s policy now) as [H1 H2 H3 H4 H5 H6 _]. fold r in H1, H2, H3, H4, H5, H6.
  destruct (report_lineages s policy now) as (Hl & Hk & Hs); [by apply deliveries_distinct, Hwf|].
  cbn [empty_report cr_lineages cr_lineageCount cr_convergedCount cr_pendingCount cr_blockedCount
       cr_divergedCount app] in *. split; [|split].
  - exists (map fst (lineages_of s)). split; [|split; [exact Hk|by rewrite H1]].
    revert Hs. clear. induction (lineages_of s) as [|[k records] m IH]; [done|].
    cbn [map map_sorted fst]. intros [Hb Hm]. split; [|by apply IH]. revert Hb. unfold below.
    clear. induction m as [|e m IH]; [done|]. intros [Hh Ht]%Forall_cons_iff.
    cbn [map]. apply Forall_cons_iff. split; [done|by apply IH].
  - rewrite H2, H1. lia.
  - rewrite H2, H3, H4, H5, H6. generalize (omap (entry_lineage s policy now) (lineages_of s)).
    clear. induction l as [|l ls IH]; [done|]. change (l :: ls) with ([l] ++ ls).
    rewrite !tally_count_app, zlen_app, !tally_count_one. change (zlen [l]) with 1.
    pose proof (tally_one l). lia.
Qed.

(** C26: "converged" means acknowledged everywhere. The report of a well-formed
    state calls the fabric converged exactly when the newest delivery of every
    lineage is acknowledged. *)
Theorem report_converged_iff s policy now (Hwf : controller_wf s) :
  report_converged (buildConvergenceReport s policy now) = true
  ↔ ∀ d, d ∈ map snd (cs_deliveries s) →
      ∃ latest, latestForLineage (dr_target d) (dr_key d) s = Some latest
        ∧ dr_state latest = DeliveryState.Acknowledged.
Proof.
  pose proof (built_report s policy now) as [_ _ _ H4 H5 H6 _].
  destruct (report_lineages s policy now) as (Hl & Hk & _); [by apply deliveries_distinct, Hwf|].
  set (ls := omap (entry_lineage s policy now) (lineages_of s)) in *.
  assert (report_converged (buildConvergenceReport s policy now) = true
          ↔ ∀ l, l ∈ ls → ln_converged l = true) as ->.
  { unfold report_converged. rewrite H4, H5, H6. cbn [empty_report cr_pendingCount cr_blockedCount cr_divergedCount].
    rewrite !andb_true_iff, !Z.eqb_eq, !Z.add_0_l, !tally_count_0. split.
    - intros [[Hb Hd] Hp] l Hin. apply tally_converged.
      specialize (Hb l Hin). specialize (Hd l Hin). specialize (Hp l Hin). by destruct (tally_of l).
    - intros Hall. split; [split|]; intros l Hin E;
        pose proof (proj2 (tally_converged l) (Hall l Hin)); congruence. }
  split.
  - intros Hall d Hd. assert (lineage_of d ∈ map fst (lineages_of s)) as Hin by (apply Hk; by exists d).
    assert (lineage_convergence s policy now <$> latestForLineage (dr_target d) (dr_key d) s ∈ map Some ls) as Hm.
    { rewrite Hl. apply list_elem_of_fmap. exists (lineage_of d). split; [|done].
      unfold lineage_of. cbn [fst snd]. by destruct (dr_target d), (dr_key d). }
    apply list_elem_of_fmap in Hm as (l & E & Hin').
    destruct (latestForLineage (dr_target d) (dr_key d) s) as [latest|]; [|done].
    injection E as E. exists latest. split; [done|]. apply (lineage_converged s policy now).
    rewrite E. by apply Hall.
  - intros Hall l Hin. assert (Some l ∈ map Some ls) as Hm by (by apply list_elem_of_fmap_2).
    rewrite Hl in Hm. apply list_elem_of_fmap in Hm as (k & E & Hkin). apply Hk in Hkin as (d & Hd & <-).
    destruct (Hall d Hd) as (latest & Hlat & Hack). unfold lineage_of in E. cbn [fst snd] in E.
    replace (mkString (str (dr_target d))) with (dr_target d) in E by (by destruct (dr_target d)).
    replace (mkString (str (dr_key d))) with (dr_key d) in E by (by destruct (dr_key d)).
    rewrite Hlat in E. injection E as ->. by apply lineage_converged.
Qed.

(** The fingerprint does not read the clock. Two reports over the same
    state and policy have the same fingerprint, whenever they are built. (The
    rendering does read it: see [render_reads_clock].) *)
Theorem fingerprint_ignores_clock s policy now now' :
  ConvergenceReport_fingerprint (buildConvergenceReport s policy now)
  = ConvergenceReport_fingerprint (buildConvergenceReport s policy now').
Proof.
  unfold ConvergenceReport_fingerprint. do 2 f_equal. unfold report_material.
  pose proof (built_report s policy now) as [-> _ _ _ _ _ (-> & -> & _)].
  pose proof (built_report s policy now') as [-> _ _ _ _ _ (-> & -> & _)].
  do 4 f_equal. cbn [empty_report cr_lineages app].
  induction (lineages_of s) as [|e m IH]; [done|]. cbn [omap list_omap]. rewrite !entry_lineage_eq.
  destruct (desired_of e.2) as [d|]; cbn [fmap option_fmap option_map foldr]; [|exact IH].
  rewrite IH. f_equal. unfold lineage_convergence.
  destruct (state_findings policy d) as [[[c b] p] reason].
  by destruct (runtime_findings policy now d _ reason) as [[] ], (runtime_findings policy now' d _ reason) as [[] ].
Qed.

(** Every delivery carries the identity derived from its lineage, generation
    and content, as [acceptInstruction] of the distributor creates it. *)
Definition derived_identities (s : ControllerState) : Prop :=
  ∀ d, d ∈ map snd (cs_deliveries s) →
    dr_id d = deriveDeploymentId (dr_target d) (dr_key d) (dr_generation d) (dr_digest d).

Lemma resume_needs_evidence policy input epoch generation :
  in_resumableTransfer input = false →
  action (Decide.decide policy input epoch generation) ≠ PolicyAction.ResumeTransfer.
Proof. intros H. unfold Decide.decide. rewrite H. repeat case_match; done. Qed.

(** A transfer is never resumed. Among deliveries with derived identities
    there is no second delivery of the same content to the same lineage, which
    is what the policy input takes for the evidence of a partial transfer: the
    evidence is never there, and the decision is never to resume. *)
Theorem resume_unreachable s policy delivery now
    (Hids : derived_identities s) (Hd : delivery ∈ map snd (cs_deliveries s)) :
  in_resumableTransfer (buildDecisionInput s policy delivery now) = false
  ∧ action (Decide.decide policy (buildDecisionInput s policy delivery now) (cs_epoch s)
              (dr_generation delivery)) ≠ PolicyAction.ResumeTransfer.
Proof.
  assert (in_resumableTransfer (buildDecisionInput s policy delivery now) = false) as H.
  { cbn [buildDecisionInput in_resumableTransfer].
    apply not_true_is_false. intros (other & Hin & Htwin)%existsb_exists.
    unfold failed_twin in Htwin. case_bool_decide as Hne; [done|].
    rewrite !andb_true_iff, !bool_decide_eq_true in Htwin. destruct Htwin as [[[[Et Ek] Eg] Ed] _].
    apply Hne. rewrite (Hids other), (Hids delivery) by (done || by apply list_elem_of_In). congruence. }
  split; [done|]. by apply resume_needs_evidence.
Qed.

(** ** Examples and witnesses *)

(** [example_delivery] with another state and its derived identity. *)
Definition restated (st : DeliveryState) : DeliveryRecord :=
  let r := example_delivery in
  mkDeliveryRecord (deriveDeploymentId (dr_target r) (dr_key r) (dr_generation r) (dr_digest r))
    (dr_setId r) (dr_rolloutSet r) (dr_target r) (dr_key r) (dr_artifact r) (dr_revision r)
    (dr_generation r) (dr_digest r) (dr_schema r) (dr_schemaVersion r) (dr_sizeBytes r)
    (dr_requirement r) (dr_effectiveGuarantee r) st (dr_attempt r) (dr_failures r) (dr_lastError r)
    (dr_lastDirective r) (dr_lastDetail r) (dr_events r) (dr_authorityEpoch r)
    (dr_authorityIncarnation r) (dr_targetTerm r) (dr_targetIncarnation r)
    (dr_acknowledgedFromReconcile r) (dr_superseded r) (dr_createdAtMillis r) (dr_updatedAtMillis r).

Definition one_delivery (targets : list (TargetId * TargetRuntime)) (st : DeliveryState)
    : ControllerState :=
  mkControllerState (mkString "node-1") (fromValue 3) (mkOpaque (repeat Byte.x01 16)) 1700000000000
    targets [(dr_id (restated st), restated st)] [].
Definition contacted : list (TargetId * TargetRuntime) := [(tr_id example_runtime, example_runtime)].

Lemma restated_wf st : delivery_wf (restated st).
Proof.
  pose proof example_delivery_wf as []. split; [|assumption..].
  exact (proj2 (proj1 (parseId_Ok _ _ _) (proj1 (deriveDeploymentId_valid _ _ _ _)))).
Qed.

Lemma one_delivery_wf st : controller_wf (one_delivery contacted st).
Proof.
  split; try first [by right | reflexivity | solve_range_closed].
  - apply (keyed_assign tr_id runtime_wf example_runtime []); [apply example_runtime_wf|apply keyed_nil].
  - apply (keyed_assign dr_id delivery_wf (restated st) []); [apply restated_wf|apply keyed_nil].
  - apply keyed_nil.
Qed.

Lemma report_complete_witness :
  cr_lineageCount (buildConvergenceReport example_controller defaultPolicy 0) = 1.
Proof.
  rewrite (proj1 (proj2 (report_complete example_controller defaultPolicy 0 example_controller_wf))).
  vm_compute. reflexivity.
Defined.

Lemma report_converged_iff_witness :
  report_converged (buildConvergenceReport (one_delivery contacted DeliveryState.Acknowledged)
                      defaultPolicy 0) = true.
Proof.
  apply (proj2 (report_converged_iff (one_delivery contacted DeliveryState.Acknowledged) defaultPolicy 0
                  (one_delivery_wf _))).
  intros d Hd. cbn in Hd. apply list_elem_of_singleton in Hd as ->.
  exists (restated DeliveryState.Acknowledged). split; vm_compute; reflexivity.
Defined.

Lemma resume_unreachable_witness :
  in_resumableTransfer (buildDecisionInput (one_delivery contacted DeliveryState.Offered) defaultPolicy
                          (restated DeliveryState.Offered) 0) = false.
Proof.
  refine (proj1 (resume_unreachable (one_delivery contacted DeliveryState.Offered) defaultPolicy
                   (restated DeliveryState.Offered) 0 _ _)).
  - intros d Hd. cbn in Hd. apply list_elem_of_singleton in Hd as ->. vm_compute. reflexivity.
  - cbn. by apply list_elem_of_singleton.
Defined.

(** The rendering reads the clock: a contact that grows old adds a blocker. *)
Example render_reads_clock :
  let render now := ConvergenceReport_render
    (buildConvergenceReport (one_delivery contacted DeliveryState.Offered) defaultPolicy now) in
  render 1700000000001 ≠ render 1700000900000.
Proof. vm_compute. discriminate. Qed.

(** A refused delivery to a target that was never contacted is counted as
    pending: only the first blocker, in the order of the enumeration, is
    looked at, and "target unreachable" comes before the reasons of a refusal. *)
Example rejected_counts_as_pending :
  let r := buildConvergenceReport (one_delivery [] DeliveryState.Rejected) defaultPolicy 0 in
  cr_pendingCount r = 1 ∧ cr_blockedCount r = 0 ∧ cr_rejectedCount r = 1
  ∧ map ln_blockers (cr_lineages r) = [[BlockerKind.TargetUnreachable; BlockerKind.PolicyRejected]].
Proof. vm_compute. repeat split. Qed.

(** A lineage whose newest delivery is retired keeps the fabric unconverged. *)
Example retired_counts_as_diverged :
  let r := buildConvergenceReport (one_delivery contacted DeliveryState.Retired) defaultPolicy 0 in
  cr_divergedCount r = 1 ∧ report_converged r = false.
Proof. vm_compute. repeat split. Qed.
