(* ===== verification/Store.v ===== *)
(** * The durable state store

    Models [DurableStore<State, Codec>] of include/cf/store.hpp: opening with
    recovery (newest snapshot, then the journal records behind it), commit and
    compaction. [StoreCodec] is the interface the template expects of its
    codec; [StoreLaws] is what the recovery theorems need of it. *)

From stdpp Require Import gmap.
From Stdlib Require Import Strings.Byte.
From S2P Require Import Prelude Result StdMap Checked Hash Ids Codec Lifecycle Files Journal Snapshot.
From S2P Require Import Artifact Records State.

(** ** The codec interface *)

Class StoreCodec (S : Type) := {
  sc_default : S;
  sc_encodeSnapshot : S → Writer;
  sc_decodeSnapshot : list byte → Result S;
  sc_apply : S → JournalRecordType → list byte → S * Status;
}.

#[global] Instance controller_codec : StoreCodec ControllerState := {|
  sc_default := ControllerState_default;
  sc_encodeSnapshot := Controller_encodeSnapshot;
  sc_decodeSnapshot := Controller_decodeSnapshot;
  sc_apply := Controller_apply;
|}.
#[global] Instance agent_codec : StoreCodec AgentState := {|
  sc_default := AgentState_default;
  sc_encodeSnapshot := Agent_encodeSnapshot;
  sc_decodeSnapshot := Agent_decodeSnapshot;
  sc_apply := Agent_apply;
|}.

(** [sc_durable]: what of a state survives a restart (everything but
    process-local evidence). [sc_restorable]: the states whose snapshot can be
    read back. *)
Class StoreLaws (S : Type) `{StoreCodec S} := {
  sc_durable : S → S;
  sc_restorable : S → Prop;
  sc_durable_idemp : ∀ s, sc_durable (sc_durable s) = sc_durable s;
  sc_durable_apply : ∀ s s' t p, sc_durable s = sc_durable s' →
    (sc_apply s t p).2 = (sc_apply s' t p).2
    ∧ sc_durable (sc_apply s t p).1 = sc_durable (sc_apply s' t p).1;
  sc_segment : ∀ s p, is_ok (sc_apply s JournalRecordType.SegmentStart p).2 = false;
  sc_snapshot : ∀ s data, sc_restorable s → sc_encodeSnapshot s = Ok data →
    sc_decodeSnapshot data = Ok (sc_durable s);
}.

(** ** The store *)

Record StoreOptions := mkStoreOptions {
  directory : string;
  name : string;
  compactAfterBytes : Z;
}.

Record Store (S : Type) := mkStore {
  options_ : StoreOptions;
  journal_ : Journal;
  state_ : S;
  failed_ : bool;
}.
Arguments mkStore {S} options_ journal_ state_ failed_.
Arguments options_ {S} s.
Arguments journal_ {S} s.
Arguments state_ {S} s.
Arguments failed_ {S} s.

Record StoreRecovery := mkStoreRecovery {
  r_journal : JournalRecovery;
  r_snapshotLoaded : bool;
  r_snapshotSlot : string;
  r_snapshotCovered : Sequence;
  r_snapshotDetail : string;
  r_recordsReplayed : Z;
}.

Definition StoreRecovery_render (r : StoreRecovery) : string :=
  "snapshot=" +:+ (if r_snapshotLoaded r then "loaded" else "none")
    +:+ (if r_snapshotLoaded r
         then "(" +:+ r_snapshotSlot r +:+ " covered=" +:+ to_string (value (r_snapshotCovered r))
              +:+ ")" else "")
    +:+ " journal=" +:+ JournalRecovery_render (r_journal r)
    +:+ " replayed=" +:+ to_string (r_recordsReplayed r)
    +:+ (if decide (r_snapshotDetail r = "") then ""
         else " snapshot-notes=" +:+ r_snapshotDetail r).

Definition snapshotOptions (o : StoreOptions) : SnapshotOptions :=
  mkSnapshotOptions (directory o +:+ "/" +:+ name o +:+ ".snapshot") kMaxSnapshotBytes.
Definition journalPath (o : StoreOptions) : string :=
  directory o +:+ "/" +:+ name o +:+ ".journal".

Section store.
Context {S : Type} `{!StoreCodec S}.

(** The replay loop: segment records and covered records are skipped, a
    record that does not apply fails the open. Returns the state and the
    number of records replayed. *)
Fixpoint replay (covered : Z) (s : S) (count : Z) (rs : list JournalRecord) : Result (S * Z) :=
  match rs with
  | [] => Ok (s, count)
  | r :: rs =>
      if bool_decide (rec_type r = JournalRecordType.SegmentStart) then replay covered s count rs
      else if value (rec_sequence r) <=? covered then replay covered s count rs
      else
        let '(s', st) := sc_apply s (rec_type r) (rec_payload r) in
        do* st in replay covered s' (count + 1) rs
  end.

(** The base sequence: the first segment record. *)
Fixpoint findBase (rs : list JournalRecord) : Result Z :=
  match rs with
  | [] => Ok 0
  | r :: rs =>
      if bool_decide (rec_type r = JournalRecordType.SegmentStart) then
        if negb (length (rec_payload r) =? 8)%nat
        then fail ErrorCode.IntegrityFailure "journal segment-start record is malformed"
        else Ok (le_load (rec_payload r))
      else findBase rs
  end.

Definition set_outcome (o : Outcome.t) (r : JournalRecovery) : JournalRecovery :=
  mkRecovery o (discardedBytes r) (recordsRecovered r) (lastSequence r) (rdetail r).

Definition loaded_covered (loaded : option (Loaded * S)) : Z :=
  match loaded with Some (l, _) => value (coveredSequence l) | None => 0 end.
Definition loaded_state (loaded : option (Loaded * S)) : S :=
  match loaded with Some (_, s) => s | None => sc_default end.

(** From the loaded snapshot and the opened journal to the store. *)
Definition recover (o : StoreOptions) (loaded : option (Loaded * S)) (journal : Journal)
    (records : list JournalRecord) : Result (Store S * Z) :=
  let* baseSequence := findBase records in
  if baseSequence =? 0
  then fail ErrorCode.IntegrityFailure "journal does not begin with a segment-start record"
  else
    let covered := loaded_covered loaded in
    if baseSequence >? (covered + 1) mod 2 ^ 64
    then fail_detail ErrorCode.IntegrityFailure
           "durable state has a gap between the newest loadable snapshot and the journal base"
           ("snapshot-covered=" +:+ to_string covered +:+ " journal-base="
            +:+ to_string baseSequence)
    else
      let* (s, replayed) := replay covered (loaded_state loaded) 0 records in
      Ok (mkStore o journal s false, replayed).

(** The loaded snapshot, decoded; no snapshot is not an error. *)
Definition decode_loaded (snapshot : Result Loaded) : Result (option (Loaded * S)) :=
  match snapshot with
  | Ok l => let* decoded := sc_decodeSnapshot (payload l) in Ok (Some (l, decoded))
  | Fail e => if bool_decide (code e = ErrorCode.NotFound) then Ok None else Fail e
  | Abort w => Abort w
  end.

(** [DurableStore::open]; [ho] and [so] are the outcomes of creating the
    journal, [cs] where the process ends at a journal torn in a payload. *)
Definition store_open (ho : WriteOutcome) (so : RestartOutcome) (cs : ClosedStream)
    (o : StoreOptions) (fs : FileSystem) : FileSystem * Result (Store S * StoreRecovery) :=
  if decide (directory o = "")
  then (fs, fail ErrorCode.InvalidArgument "state store directory must not be empty")
  else
    let '(snapshot, notes) := SnapshotFile_load (snapshotOptions o) fs in
    let loaded := decode_loaded snapshot in
    match loaded with
    | Fail e => (fs, Fail e)
    | Abort w => (fs, Abort w)
    | Ok loaded =>
        let '(fs1, recovery, journal) :=
          Journal_open ho so cs (journalPath o) kMaxJournalRecordBytes fs in
        match journal with
        | Fail e => (fs1, Fail e)
        | Abort w => (fs1, Abort w)
        | Ok journal =>
            let created := bool_decide (outcome recovery = Outcome.Created) in
            let '(recovery2, records) := readFile (journalPath o) fs1 in
            (fs1,
             let* records := records in
             let* (store, replayed) := recover o loaded journal records in
             Ok (store,
                 mkStoreRecovery
                   (if created then set_outcome Outcome.Created recovery2 else recovery2)
                   (match loaded with Some _ => true | None => false end)
                   (match loaded with Some (l, _) => slot_char (slot l) | None => "?" end)
                   (match loaded with Some (l, _) => coveredSequence l | None => num_unset end)
                   notes replayed))
        end
    end.

Definition set_state (s : S) (st : Store S) : Store S :=
  mkStore (options_ st) (journal_ st) s (failed_ st).
Definition set_journal (j : Journal) (st : Store S) : Store S :=
  mkStore (options_ st) j (state_ st) (failed_ st).

(** [commit]: the state is changed before the record is appended. *)
Definition commit (o : WriteOutcome) (st : Store S) (type : JournalRecordType)
    (payload : list byte) (fs : FileSystem) : FileSystem * Store S * Status :=
  if failed_ st
  then (fs, st, fail ErrorCode.Internal
                  "durable state store is failed; no further commits are accepted")
  else if zlen payload >? j_maxRecordBytes (journal_ st)
  then (fs, st, fail ErrorCode.OversizePayload "state record exceeds the journal bound")
  else
    let '(s', applied) := sc_apply (state_ st) type payload in
    let st1 := set_state s' st in
    match applied with
    | Fail e => (fs, st1, Fail e)
    | Abort w => (fs, st1, Abort w)
    | Ok _ =>
        let '(fs1, appended) := append o (journal_ st) type payload fs in
        match appended with
        | Ok j => (fs1, set_journal j st1, Ok tt)
        | Fail e => (fs1, st1, Fail e)
        | Abort w => (fs1, st1, Abort w)
        end
    end.

(** [compact]: [faults] and [suffix] are those of the snapshot write. *)
Definition compact (faults : AtomicFaults) (suffix : list byte) (ro : RestartOutcome)
    (st : Store S) (fs : FileSystem) : FileSystem * Store S * Status :=
  if failed_ st
  then (fs, st, fail ErrorCode.Internal "durable state store is failed")
  else
    match sc_encodeSnapshot (state_ st) with
    | Fail e => (fs, st, Fail e)
    | Abort w => (fs, st, Abort w)
    | Ok encoded =>
        let covered := j_lastSequence (journal_ st) in
        let '(fs1, written) :=
          SnapshotFile_write faults suffix (snapshotOptions (options_ st)) covered encoded fs in
        match written with
        | Fail e => (fs1, st, Fail e)
        | Abort w => (fs1, st, Abort w)
        | Ok _ =>
            let '(fs2, restarted) :=
              restartSegment ro (journal_ st) (fromValue ((value covered + 1) mod 2 ^ 64)) fs1 in
            match restarted with
            | Ok j => (fs2, set_journal j st, Ok tt)
            | Fail e => (fs2, st, Fail e)
            | Abort w => (fs2, st, Abort w)
            end
        end
    end.

Definition journal_size (st : Store S) (fs : FileSystem) : Z :=
  match fs !! j_path (journal_ st) with Some bytes => zlen bytes | None => 0 end.

Definition compactIfNeeded (faults : AtomicFaults) (suffix : list byte) (ro : RestartOutcome)
    (st : Store S) (fs : FileSystem) : FileSystem * Store S * Status :=
  if journal_size st fs <? compactAfterBytes (options_ st) then (fs, st, Ok tt)
  else compact faults suffix ro st fs.

Definition markFailed (st : Store S) : Store S :=
  mkStore (options_ st) (journal_ st) (state_ st) true.
End store.

(** ** Instances of the laws *)

#[global, program] Instance controller_laws : StoreLaws ControllerState := {|
  sc_durable := clear_contacts;
  sc_restorable s := controller_wf s ∧ map_size (cs_artifacts s) <= kMaxSnapshotEntries;
|}.
Next Obligation. apply clear_contacts_idemp. Qed.
Next Obligation. intros s s' t p Hs. by apply respects_run; [apply controller_step_respects|]. Qed.
Next Obligation. done. Qed.
Next Obligation.
  intros s data [Hwf Hart] Hdata. simpl in *.
  assert (map_size (cs_targets s) <= kMaxSnapshotEntries
          ∧ map_size (cs_deliveries s) <= kMaxSnapshotEntries) as [Ht Hd].
  { unfold Controller_encodeSnapshot in Hdata.
    destruct (Z.gtb_spec (map_size (cs_targets s)) kMaxSnapshotEntries); [done|].
    destruct (Z.gtb_spec (map_size (cs_deliveries s)) kMaxSnapshotEntries); [done|]. done. }
  apply (decode_reads_back read_controller_snapshot _ _ _
           (controller_snapshot_reads s Hwf Ht Hd Hart) Hdata).
Qed.

#[global, program] Instance agent_laws : StoreLaws AgentState := {|
  sc_durable := id;
  sc_restorable := agent_wf;
|}.
Next Obligation. done. Qed.
Next Obligation. intros s s' t p Hs. unfold id in Hs. by subst. Qed.
Next Obligation. done. Qed.
Next Obligation.
  intros s data Hwf Hdata. simpl in *.
  assert (map_size (as_transfers s) <= kMaxSnapshotEntries) as Ht.
  { unfold Agent_encodeSnapshot in Hdata.
    destruct (Z.gtb_spec (map_size (as_transfers s)) kMaxSnapshotEntries); [|done].
    by rewrite orb_true_r in Hdata. }
  apply (decode_reads_back read_agent_snapshot _ _ _ (agent_snapshot_reads s Hwf Ht) Hdata).
Qed.
