(* ===== verification/Recovery.v ===== *)
(** * Durability of the state store

    The recovery theorems of [DurableStore]: what a store holds in memory is,
    up to process-local evidence, what opening its directory gives back,
    whatever sequence of commits, compactions, failures and crashes led there.
    Stated against the [StoreLaws] interface, so they hold of the controller's
    store and the agent's store alike. *)

From stdpp Require Import gmap.
From Stdlib Require Import Strings.Byte.
From S2P Require Import Prelude Result StdMap Checked Hash Ids Codec Lifecycle Files Journal Snapshot.
From S2P Require Import Artifact Records State Store.

(** ** Paths *)

Lemma string_app_assoc (a b c : string) : (a +:+ b) +:+ c = a +:+ (b +:+ c).
Proof.
  induction a as [|x a IH]; [done|].
  change (String.String x ((a +:+ b) +:+ c) = String.String x (a +:+ (b +:+ c))). by rewrite IH.
Qed.

Lemma string_app_nil (a : string) : a +:+ "" = a.
Proof.
  induction a as [|x a IH]; [done|]. change (String.String x (a +:+ "") = String.String x a).
  by rewrite IH.
Qed.

(** The journal's name and everything derived from a snapshot slot differ in
    the first letter of the extension. *)
Lemma journal_path_ne o s rest : journalPath o ≠ slotPath (snapshotOptions o) s +:+ rest.
Proof.
  unfold journalPath, slotPath, snapshotOptions. cbn [snap_path].
  rewrite !string_app_assoc. intros E. do 3 apply string_app_inj_l in E. discriminate E.
Qed.

Lemma journal_not_slot o s : journalPath o ≠ slotPath (snapshotOptions o) s.
Proof.
  rewrite <- (string_app_nil (slotPath _ _)). apply journal_path_ne.
Qed.

Lemma journal_not_temp o s suffix :
  journalPath o ≠ tempSiblingPath suffix (slotPath (snapshotOptions o) s).
Proof. apply journal_path_ne. Qed.

Lemma journalPath_nonempty o : journalPath o ≠ "".
Proof.
  unfold journalPath. intros E. apply (f_equal slen) in E. rewrite !slen_append in E.
  change (slen ".journal") with 8 in E. change (slen "") with 0 in E.
  change (slen "/") with 1 in E. unfold slen in E. lia.
Qed.

(** ** Sequences of a chain *)

Lemma last_sequence_cons r r' rs : last_sequence (r :: r' :: rs) = last_sequence (r' :: rs).
Proof. done. Qed.

Lemma chain_last rs e : chain (Some e) rs → rs ≠ [] → value e < value (last_sequence rs).
Proof.
  revert e. induction rs as [|r rs IH]; [done|]. intros e [Hf Hc] _. simpl in Hf.
  destruct rs as [|r' rs]; [cbn; lia|]. rewrite last_sequence_cons.
  specialize (IH (rec_sequence r) Hc ltac:(done)). lia.
Qed.

Lemma chain_bounded rs e :
  chain e rs → Forall (λ r, value (rec_sequence r) <= value (last_sequence rs)) rs.
Proof.
  revert e. induction rs as [|r rs IH]; intros e Hc; [by constructor|]. destruct Hc as [_ Hc].
  destruct rs as [|r' rs].
  - apply Forall_cons_iff. split; [cbn; lia|by constructor].
  - rewrite last_sequence_cons. apply Forall_cons_iff. split.
    + pose proof (chain_last (r' :: rs) _ Hc ltac:(done)). lia.
    + by apply (IH (Some (rec_sequence r))).
Qed.

Lemma last_fits m r rs : segment_ok m (r :: rs) → fits 64 (value (last_sequence (r :: rs))).
Proof.
  intros [Hall _].
  assert (0 < value (last_sequence (r :: rs)) < 2 ^ 64) as Hl; [|unfold fits; lia].
  induction rs as [|r2 rs IH] using rev_ind.
  - by apply Forall_cons_iff in Hall as [[] _].
  - rewrite app_comm_cons, last_sequence_snoc. rewrite app_comm_cons in Hall.
    apply Forall_app in Hall as [_ Hr]. by apply Forall_cons_iff in Hr as [[] _].
Qed.

Lemma journal_inv_file fs fs' j rs :
  journal_inv fs j rs → fs' !! j_path j = fs !! j_path j → journal_inv fs' j rs.
Proof. intros [? ? ? ? ? ?] E. split; [by rewrite E|assumption..]. Qed.

Lemma header_only : journalFile [] = journalHeaderBytes.
Proof. unfold journalFile, segmentBytes. simpl. by rewrite app_nil_r. Qed.

(** ** Durable equality *)

Section recovery.
Context {S : Type} `{StoreLaws S}.

(** Equal up to what a restart forgets. *)
Definition durable_eq (s t : S) : Prop := sc_durable s = sc_durable t.

#[export] Instance durable_eq_equiv : Equivalence durable_eq.
Proof. unfold durable_eq. split; congruence. Qed.

#[export] Instance sc_durable_proper : Proper (durable_eq ==> eq) sc_durable.
Proof. by intros s t Hst. Qed.

#[export] Instance apply_proper t p :
  Proper (durable_eq ==> durable_eq) (λ s, (sc_apply s t p).1).
Proof. intros s s' Hs. by apply sc_durable_apply. Qed.

Lemma durable_self s : durable_eq (sc_durable s) s.
Proof. apply sc_durable_idemp. Qed.

(** One committed change. *)
Definition apply_change (s : S) (c : JournalRecordType * list byte) : S := (sc_apply s c.1 c.2).1.

#[export] Instance apply_change_proper : Proper (durable_eq ==> eq ==> durable_eq) apply_change.
Proof. intros s s' Hs c _ <-. unfold apply_change. by apply sc_durable_apply. Qed.

(** ** Replay *)

Lemma replay_covered covered s n rs :
  Forall (λ r, value (rec_sequence r) <= covered) rs → replay covered s n rs = Ok (s, n).
Proof.
  induction rs as [|r rs IH]; [done|]. intros [Hr Hrs]%Forall_cons_iff. simpl.
  case_bool_decide; [by apply IH|]. destruct (Z.leb_spec (value (rec_sequence r)) covered); [|lia].
  by apply IH.
Qed.

Lemma replay_snoc covered s n rs s' n' r :
  replay covered s n rs = Ok (s', n') → covered < value (rec_sequence r) →
  rec_type r ≠ JournalRecordType.SegmentStart →
  replay covered s n (rs ++ [r])
  = let '(s2, st) := sc_apply s' (rec_type r) (rec_payload r) in
    let* _ := st in Ok (s2, n' + 1).
Proof.
  intros Hrun Hseq Htype. revert s n Hrun. induction rs as [|r0 rs IH]; intros s n; simpl.
  - intros [= -> ->]. rewrite bool_decide_false by done.
    by destruct (Z.leb_spec (value (rec_sequence r)) covered); [lia|].
  - case_bool_decide; [by apply IH|]. destruct (_ <=? covered); [by apply IH|].
    destruct (sc_apply s _ _) as [s1 [[]| |]]; simpl; [by apply IH|done..].
Qed.

(** ** What a directory holds *)

Context (o : StoreOptions).

(** The snapshot a directory gives. *)
Definition loads (fs : FileSystem) : Result (option (Loaded * S)) :=
  decode_loaded (SnapshotFile_load (snapshotOptions o) fs).1.

(** The snapshot [loaded] and the journal records [rs] give the state [s]. *)
Record recovers (loaded : option (Loaded * S)) (rs : list JournalRecord) (s : S) : Prop := {
  rv_base : ∃ base tail, rs = segmentStart base :: tail ∧ 0 < base < 2 ^ 64
              ∧ base <= loaded_covered loaded + 1;
  rv_covered : 0 <= loaded_covered loaded <= value (last_sequence rs);
  rv_room : loaded_covered loaded < 2 ^ 64 - 1;
  rv_replay : ∃ s' n, replay (loaded_covered loaded) (loaded_state loaded) 0 rs = Ok (s', n)
                ∧ durable_eq s' s;
}.

(** An open store and its files. *)
Record store_inv (fs : FileSystem) (st : Store S) (rs : list JournalRecord) : Prop := {
  si_options : options_ st = o;
  si_directory : directory o ≠ "";
  si_journal : journal_inv fs (journal_ st) rs;
  si_path : j_path (journal_ st) = journalPath o;
  si_max : j_maxRecordBytes (journal_ st) = kMaxJournalRecordBytes;
  si_recovers : ∃ loaded, loads fs = Ok loaded ∧ recovers loaded rs (state_ st);
}.

(** Writing the journal does not change what the snapshot gives. *)
Lemma loads_other fs fs' :
  (∀ s, fs' !! slotPath (snapshotOptions o) s = fs !! slotPath (snapshotOptions o) s) →
  loads fs' = loads fs.
Proof.
  intros Hs. unfold loads. rewrite !load_newest.
  by rewrite !(slotContent_lookup _ fs fs') by done.
Qed.

Lemma loads_journal fs bytes : loads (<[journalPath o := bytes]> fs) = loads fs.
Proof. apply loads_other. intros s. rewrite lookup_insert_ne; [done|]. apply journal_not_slot. Qed.

Lemma loads_None fs :
  (∀ s, fs !! slotPath (snapshotOptions o) s = None) → loads fs = Ok None.
Proof.
  intros Hs. unfold loads. rewrite load_newest. unfold slotContent. by rewrite !Hs.
Qed.

(** ** Opening *)

Lemma findBase_segment base tail : 0 < base < 2 ^ 64 →
  findBase (segmentStart base :: tail) = Ok base.
Proof.
  intros Hb. simpl. unfold storeLe64. rewrite length_le_bytes. simpl.
  by rewrite le_load_bytes_fits by (unfold fits; lia).
Qed.

Lemma recover_ok loaded j rs s :
  recovers loaded rs s →
  ∃ s' n, recover o loaded j rs = Ok (mkStore o j s' false, n) ∧ durable_eq s' s.
Proof.
  intros [(base & tail & -> & Hb & Hgap) Hcov Hroom (s' & n & Hrun & Hs)].
  exists s', n. split; [|done]. unfold recover. rewrite findBase_segment by done. cbn [try_bind].
  destruct (Z.eqb_spec base 0); [lia|]. rewrite Z.mod_small by lia.
  destruct (Z.gtb_spec base (loaded_covered loaded + 1)); [lia|]. by rewrite Hrun.
Qed.

Lemma recovers_eq loaded rs s t : durable_eq s t → recovers loaded rs s → recovers loaded rs t.
Proof.
  intros Hst [Hb Hc Hr (s' & n & Hrun & Hs)]. split; [done..|]. exists s', n. split; [done|].
  by rewrite Hs.
Qed.

(** Opening a directory whose journal opens with the records [rs]. *)
Lemma open_with ho so cs fs fs1 rec j rs s loaded :
  directory o ≠ "" →
  Journal_open ho so cs (journalPath o) kMaxJournalRecordBytes fs = (fs1, rec, Ok j) →
  journal_inv fs1 j rs → j_path j = journalPath o → j_maxRecordBytes j = kMaxJournalRecordBytes →
  loads fs = Ok loaded → loads fs1 = Ok loaded → recovers loaded rs s →
  ∃ st r, store_open ho so cs o fs = (fs1, Ok (st, r)) ∧ store_inv fs1 st rs
    ∧ durable_eq (state_ st) s ∧ failed_ st = false.
Proof.
  intros Hd Hopen Hj Hp Hm Hload Hload1 Hrec.
  destruct (recover_ok loaded j rs s Hrec) as (s' & n & Hrun & Hs).
  unfold store_open. rewrite decide_False by done. unfold loads in Hload.
  destruct (SnapshotFile_load _ fs) as [snapshot notes]. simpl in Hload. rewrite Hload, Hopen.
  assert (readFile (journalPath o) fs1
          = (mkRecovery Outcome.Clean 0 (zlen rs) (last_sequence rs) "", Ok rs)) as ->.
  { apply (readFile_segment _ _ _ kMaxJournalRecordBytes); [by rewrite <- Hp; apply Hj|
      rewrite <- Hm; apply Hj|lia]. }
  cbn [try_bind]. rewrite Hrun. cbn [try_bind]. eexists _, _. split; [done|].
  split; [|done]. split; try done. exists loaded. split; [done|].
  by apply (recovers_eq _ _ s).
Qed.

Lemma recovers_fresh : recovers None [segmentStart 1] sc_default.
Proof.
  split; simpl; [|lia|lia|by eexists _, _].
  by exists 1, [].
Qed.

Lemma open_fresh cs fs :
  directory o ≠ "" → fs !! journalPath o = None →
  (∀ s, fs !! slotPath (snapshotOptions o) s = None) →
  ∃ fs' st r, store_open Written (Restarted Written) cs o fs = (fs', Ok (st, r))
    ∧ store_inv fs' st [segmentStart 1] ∧ durable_eq (state_ st) sc_default
    ∧ failed_ st = false.
Proof.
  intros Hd Hj Hs.
  destruct (open_created (Restarted Written) cs (journalPath o) kMaxJournalRecordBytes fs)
    as (fs' & j & rec & Hopen & _ & Hinv & Hfs & Hp & Hm);
    [apply journalPath_nonempty|vm_compute; split; congruence|done..|].
  destruct (open_with Written (Restarted Written) cs fs fs' rec j [segmentStart 1] sc_default None)
    as (st & r & Hrun & Hst); try done.
  - by apply loads_None.
  - rewrite Hfs, loads_journal. by apply loads_None.
  - apply recovers_fresh.
  - eexists _, _, _. done.
Qed.

(** The journal of the directory ends inside the payload of a record, so that
    opening it ends the process. *)
Definition ends_in_payload (fs : FileSystem) : bool :=
  match fs !! journalPath o with
  | Some bytes =>
      match s_end (scan_file kMaxJournalRecordBytes bytes) with TornPayload => true | _ => false end
  | None => false
  end.

(** What must be on disk for the state [s] to come back: the records [rs] and
    possibly a part of one more; [torn] when that part reaches into its
    payload. *)
Record disk_ok (torn : bool) (fs : FileSystem) (rs : list JournalRecord) (s : S) : Prop := {
  dk_directory : directory o ≠ "";
  dk_segment : segment_ok kMaxJournalRecordBytes rs;
  dk_file : ∃ r n, record_ok kMaxJournalRecordBytes r ∧ (n < length (recordBytes r))%nat
    ∧ torn = (kJournalRecordHeaderBytes <=? n)%nat
    ∧ fs !! journalPath o = Some (journalFile rs ++ take n (recordBytes r));
  dk_recovers : ∃ loaded, loads fs = Ok loaded ∧ recovers loaded rs s;
}.

Lemma max_record_bounds : 0 < kMaxJournalRecordBytes <= kMaxJournalRecordBytes.
Proof. vm_compute. split; congruence. Qed.

Lemma segmentStart_record_ok base : 0 < base < 2 ^ 64 →
  record_ok kMaxJournalRecordBytes (segmentStart base).
Proof.
  intros Hb. destruct (segmentStart_ok kMaxJournalRecordBytes base) as [Hall _];
    [vm_compute; congruence|done|]. by apply Forall_cons_iff in Hall as [? _].
Qed.

Lemma disk_whole fs rs s :
  directory o ≠ "" → segment_ok kMaxJournalRecordBytes rs →
  fs !! journalPath o = Some (journalFile rs) →
  (∃ loaded, loads fs = Ok loaded ∧ recovers loaded rs s) → disk_ok false fs rs s.
Proof.
  intros Hd Hseg Hf Hr. split; [done..| |done]. exists (segmentStart 1), 0%nat.
  split; [by apply segmentStart_record_ok|]. split; [rewrite length_recordBytes; unfold kJournalRecordHeaderBytes; lia|].
  split; [done|]. by rewrite take_0, app_nil_r.
Qed.

Lemma store_inv_disk fs st rs : store_inv fs st rs → disk_ok false fs rs (state_ st).
Proof.
  intros [Ho Hd Hj Hp Hm Hr].
  apply disk_whole; [done|rewrite <- Hm; apply Hj|rewrite <- Hp; apply Hj|done].
Qed.

Lemma disk_ok_eq torn fs rs s t : durable_eq s t → disk_ok torn fs rs s → disk_ok torn fs rs t.
Proof.
  intros Hst [Hd Hseg Hf (loaded & Hl & Hr)]. split; [done..|]. exists loaded. split; [done|].
  by apply (recovers_eq _ _ s).
Qed.

Lemma disk_torn torn fs rs s : disk_ok torn fs rs s → ends_in_payload fs = torn.
Proof.
  intros [Hd Hseg (r & n & Hr & Hn & -> & Hf) _]. unfold ends_in_payload. rewrite Hf.
  pose proof max_record_bounds as [_ Hmax]. destruct (decide (n = 0)%nat) as [->|Hn0].
  - by rewrite take_0, app_nil_r, scan_clean.
  - rewrite scan_torn by (done || lia). cbn [s_end].
    by destruct (Nat.leb_spec kJournalRecordHeaderBytes n), (Nat.ltb_spec n kJournalRecordHeaderBytes);
      try lia.
Qed.

Lemma open_disk ho so cs fs rs s :
  disk_ok false fs rs s →
  ∃ fs' st r, store_open ho so cs o fs = (fs', Ok (st, r)) ∧ store_inv fs' st rs
    ∧ durable_eq (state_ st) s ∧ failed_ st = false.
Proof.
  intros [Hd Hseg (r & n & Hr & Hn & Htorn & Hf) (loaded & Hload & Hrec)].
  symmetry in Htorn. apply Nat.leb_gt in Htorn. pose proof max_record_bounds as Hmax.
  destruct (decide (n = 0)%nat) as [->|Hn0].
  - rewrite take_0, app_nil_r in Hf.
    destruct (open_segment ho so cs (journalPath o) kMaxJournalRecordBytes fs rs)
      as (j & rec & Hopen & _ & Hinv & Hp & Hm); [apply journalPath_nonempty|done..|].
    exists fs. eapply open_with; eauto.
  - destruct (open_torn_header (journalPath o) kMaxJournalRecordBytes fs rs r n
                (journalPath_nonempty o) Hmax Hf Hseg Hr ho so cs)
      as (j & rec & Hopen & _ & _ & Hinv & Hp & Hm); [lia|].
    eexists _. eapply open_with; eauto. by rewrite loads_journal.
Qed.

(** A journal that ends inside a payload: the process ends, and either nothing
    has changed or the torn record is cut off. *)
Lemma open_disk_torn ho so cs fs rs s :
  disk_ok true fs rs s →
  ∃ fs' why, store_open ho so cs o fs = (fs', Abort why)
    ∧ match cs with
      | EndsInFlush => fs' = fs
      | EndsInClose => fs' = <[journalPath o := journalFile rs]> fs ∧ disk_ok false fs' rs s
      end.
Proof.
  intros [Hd Hseg (r & n & Hr & Hn & Htorn & Hf) (loaded & Hload & Hrec)].
  symmetry in Htorn. apply Nat.leb_le in Htorn.
  destruct (open_torn_payload (journalPath o) kMaxJournalRecordBytes fs rs r n
              (journalPath_nonempty o) max_record_bounds Hf Hseg Hr ho so cs ltac:(lia))
    as (rec & Hopen).
  unfold store_open. rewrite decide_False by done. pose proof Hload as Hload2. unfold loads in Hload.
  destruct (SnapshotFile_load _ fs) as [snapshot notes]. simpl in Hload. rewrite Hload, Hopen.
  eexists _, _. split; [done|]. destruct cs; [done|]. split; [done|]. cbn [closed_stream_leaves].
  apply disk_whole; [done|done|by rewrite lookup_insert_eq|].
  exists loaded. by rewrite loads_journal.
Qed.

(** ** Commit *)

Lemma recovers_append loaded rs s r s2 :
  recovers loaded rs s → value (rec_sequence r) = value (last_sequence rs) + 1 →
  value (rec_sequence r) < 2 ^ 64 →
  sc_apply s (rec_type r) (rec_payload r) = (s2, Ok tt) → recovers loaded (rs ++ [r]) s2.
Proof.
  intros [(base & tail & -> & Hb & Hgap) Hcov Hroom (s' & n & Hrun & Hs)] Hseq Hfit Happly. split.
  - exists base, (tail ++ [r]). by rewrite app_comm_cons.
  - rewrite last_sequence_snoc. lia.
  - done.
  - destruct (sc_durable_apply s' s (rec_type r) (rec_payload r) Hs) as [Hst Hd].
    rewrite Happly in Hst, Hd. rewrite (replay_snoc _ _ _ _ s' n); [|done|lia|].
    + destruct (sc_apply s' _ _) as [s3 st]. simpl in *. subst st. by eexists _, _.
    + intros Ht. rewrite Ht in Happly. pose proof (sc_segment s (rec_payload r)) as Hseg.
      by rewrite Happly in Hseg.
Qed.

(** What a commit of a change that applies leaves, on disk and in memory: the
    change is in memory whatever happened to its record, and on disk exactly
    if its record was written whole. *)
Lemma commit_spec wo fs st rs type p s2 :
  store_inv fs st rs → failed_ st = false → appendable (journal_ st) type p →
  sc_apply (state_ st) type p = (s2, Ok tt) →
  let r := nextRecord (journal_ st) type p in
  ∃ fs' st' ret, commit wo st type p fs = (fs', st', ret)
    ∧ fs' = <[journalPath o := journalFile rs ++ written_part wo (recordBytes r)]> fs
    ∧ disk_ok (cut_in_payload wo r) fs' (if whole_record wo r then rs ++ [r] else rs)
        (if whole_record wo r then s2 else state_ st)
    ∧ state_ st' = s2 ∧ failed_ st' = false ∧ options_ st' = options_ st
    ∧ match wo with
      | Written => ret = Ok tt ∧ store_inv fs' st' (rs ++ [r])
      | Torn _ => is_ok ret = false ∧ journal_ st' = journal_ st
      end.
Proof.
  intros Hinv Hfailed Ha Happly r.
  destruct Hinv as [Ho Hd Hj Hp Hm (loaded & Hload & Hrec)].
  assert (recovers loaded (rs ++ [r]) s2) as Hrec2.
  { apply (recovers_append _ _ (state_ st)); [done|..|done]; simpl.
    - by rewrite (ji_last _ _ _ Hj).
    - destruct Ha as (_ & _ & ?). lia. }
  destruct (next_record_ok _ _ _ _ _ Hj Ha) as [Hr Hseg].
  pose proof (append_spec wo fs _ rs type p Hj Ha) as [Hfs Hret].
  pose proof (append_Ok_written wo fs (journal_ st) type p) as Hok.
  unfold commit. rewrite Hfailed.
  destruct (Z.gtb_spec (zlen p) (j_maxRecordBytes (journal_ st)));
    [destruct Ha as (_ & ? & _); lia|].
  rewrite Happly. destruct (append wo (journal_ st) type p fs) as [fs1 ret] eqn:Eappend.
  simpl in Hfs, Hok, Hret. rewrite Hp in Hfs. fold r in Hfs.
  exists fs1, (match ret with Ok j => set_journal j (set_state s2 st) | _ => set_state s2 st end),
    (let* _ := ret in Ok tt).
  split; [by destruct ret|]. split; [done|]. split.
  { rewrite Hm in Hr, Hseg. fold r in Hr, Hseg. rewrite Hfs.
    destruct (write_cases wo r)
      as [(n & -> & Hn & -> & ->)|[(n & -> & Hn & -> & ->)|(-> & -> & ->)]].
    - split; [done|by rewrite <- Hm; apply Hj| |exists loaded; by rewrite loads_journal].
      exists r, n. split; [done|]. split; [rewrite length_recordBytes; lia|].
      split; [symmetry; by apply Nat.leb_gt|]. by rewrite lookup_insert_eq.
    - split; [done|by rewrite <- Hm; apply Hj| |exists loaded; by rewrite loads_journal].
      exists r, n. split; [done|]. split; [lia|]. split; [symmetry; apply Nat.leb_le; lia|].
      by rewrite lookup_insert_eq.
    - apply disk_whole; [done|done| |exists loaded; by rewrite loads_journal].
      by rewrite lookup_insert_eq, journalFile_snoc. }
  split; [by destruct ret|]. split; [by destruct ret|]. split; [by destruct ret|].
  destruct wo as [|n].
  - rewrite (Hret eq_refl). split; [done|].
    destruct (append_inv fs (journal_ st) rs type p Hj Ha) as (fs2 & j2 & Hrun & Hj2 & _ & Hp2).
    rewrite Eappend, (Hret eq_refl) in Hrun. injection Hrun as <- <-.
    split; simpl; try done. exists loaded. by rewrite Hfs, loads_journal.
  - destruct ret as [j| |]; [by specialize (Hok eq_refl)|done..].
Qed.

(** A commit that fails even when everything can be written wrote nothing. *)
Lemma commit_refused wo st type p fs :
  is_ok (commit Written st type p fs).2 = false → (commit wo st type p fs).1.1 = fs.
Proof.
  unfold commit. destruct (failed_ st); [done|]. destruct (_ >? _); [done|].
  destruct (sc_apply (state_ st) type p) as [s2 [[]| |]]; [|done..]. unfold append.
  destruct (negb _); [done|]. destruct (_ >? _); [done|]. idtac.
  destruct (checkedAdd _ _ _); done.
Qed.

(** A commit behind whatever the journal file holds. *)
Lemma commit_after fs st content type p s2 :
  failed_ st = false → appendable (journal_ st) type p →
  sc_apply (state_ st) type p = (s2, Ok tt) → fs !! j_path (journal_ st) = Some content →
  ∃ st', commit Written st type p fs
      = (<[j_path (journal_ st) := content ++ recordBytes (nextRecord (journal_ st) type p)]> fs,
         st', Ok tt)
    ∧ state_ st' = s2 ∧ failed_ st' = false.
Proof.
  intros Hf (Ht & Hp & Hs) Happly Hfile. unfold commit. rewrite Hf.
  destruct (Z.gtb_spec (zlen p) (j_maxRecordBytes (journal_ st))); [lia|]. rewrite Happly.
  unfold append. rewrite Ht. cbn [negb].
  destruct (Z.gtb_spec (zlen p) (j_maxRecordBytes (journal_ st))); [lia|].
  rewrite checkedAdd_spec by (unfold fits; lia). rewrite decide_True by lia.
  unfold writeRecord, io_bind. rewrite Hfile. cbn [default from_option id written_part io_ret].
  eexists. split; [done|]. by split.
Qed.

Lemma commit_not_aborted n st type p fs fs' st' why :
  sc_apply (state_ st) type p = ((sc_apply (state_ st) type p).1, Ok tt) →
  commit (Torn n) st type p fs ≠ (fs', st', Abort why).
Proof.
  unfold commit. intros ->. destruct (failed_ st); [done|]. destruct (_ >? _); [done|].
  unfold append. destruct (negb _); [done|]. destruct (_ >? _); [done|].
  destruct (checkedAdd _ _ _); [|done]. unfold writeRecord, io_bind. by repeat case_match.
Qed.

(** A commit that fails keeps the journal handle. *)
Lemma commit_failed wo st type p fs fs' st' ret :
  commit wo st type p fs = (fs', st', ret) → is_ok ret = false →
  journal_ st' = journal_ st ∧ options_ st' = options_ st ∧ failed_ st' = failed_ st.
Proof.
  unfold commit. destruct (failed_ st) eqn:Hf; [by intros [= <- <- <-]|].
  destruct (_ >? _); [by intros [= <- <- <-]|].
  destruct (sc_apply (state_ st) type p) as [s2 [[]| |]]; [|by intros [= <- <- <-]..].
  destruct (append _ _ _ _ fs) as [fs1 [j| |]]; by intros [= <- <- <-].
Qed.

(** ** Compaction *)

Lemma segment_bounded m rs :
  segment_ok m rs → Forall (λ r, value (rec_sequence r) <= value (last_sequence rs)) rs.
Proof. intros [_ Hc]. by apply (chain_bounded rs None). Qed.

Lemma snap_path_nonempty : snap_path (snapshotOptions o) ≠ "".
Proof.
  unfold snapshotOptions. cbn [snap_path]. intros E. apply (f_equal slen) in E.
  rewrite !slen_append in E. change (slen ".snapshot") with 9 in E.
  change (slen "") with 0 in E. unfold slen in E. lia.
Qed.

Lemma snap_bound : snap_maxBytes (snapshotOptions o) <= kMaxSnapshotBytes.
Proof. done. Qed.

(** Once a snapshot covers the last record, it gives the state by itself. *)
Lemma recovers_taken loaded rs s fs fs' encoded :
  recovers loaded rs s → loads fs = Ok loaded → sc_restorable s →
  sc_encodeSnapshot s = Ok encoded → segment_ok kMaxJournalRecordBytes rs →
  value (last_sequence rs) < 2 ^ 64 - 1 →
  snapshot_taken (snapshotOptions o) fs fs' (last_sequence rs) encoded →
  ∃ loaded', loads fs' = Ok loaded'
    ∧ recovers loaded' rs s ∧ recovers loaded' [segmentStart (value (last_sequence rs) + 1)] s.
Proof.
  intros [Hbase Hcov Hroom (s' & n & Hrun & Hs)] Hload Hrest Henc Hseg Hlast Htaken.
  pose proof (segment_bounded _ _ Hseg) as Hall.
  assert (∃ loaded', loads fs' = Ok loaded'
            ∧ loaded_covered loaded' = value (last_sequence rs)
            ∧ durable_eq (loaded_state loaded') s) as (loaded' & Hload' & Hcov' & Hs').
  { destruct Htaken as [Hnew | (old & Hold & Hnew & Hc)].
    - unfold loads. rewrite Hnew. simpl. rewrite (sc_snapshot s encoded) by done. simpl.
      eexists. split; [done|]. split; [done|]. apply durable_self.
    - assert (loads fs' = Ok loaded) as Hsame.
      { rewrite <- Hload. unfold loads. by rewrite Hnew, Hold. }
      exists loaded. split; [done|].
      assert (loaded_covered loaded = value (last_sequence rs)) as Hc2.
      { unfold loads in Hsame. rewrite Hnew in Hsame. simpl in Hsame.
        destruct (sc_decodeSnapshot (payload old)); simpl in Hsame; [|done..].
        by injection Hsame as <-. }
      split; [done|]. rewrite Hc2, (replay_covered _ _ _ _ Hall) in Hrun. by simplify_eq. }
  exists loaded'. split; [done|].
  destruct Hbase as (base & tail & Hrs & Hb & Hgap). split.
  - split; [|lia|lia|].
    + exists base, tail. split; [done|]. split; [done|]. lia.
    + rewrite Hcov', (replay_covered _ _ _ _ Hall). by eexists _, _.
  - split; [|simpl; lia|lia|].
    + eexists _, []. split; [done|]. lia.
    + simpl. by eexists _, _.
Qed.

Lemma covered_le fs loaded rs s old :
  recovers loaded rs s → loads fs = Ok loaded →
  (SnapshotFile_load (snapshotOptions o) fs).1 = Ok old →
  value (coveredSequence old) <= value (last_sequence rs).
Proof.
  intros [_ Hcov _ _] Hload Hold. unfold loads in Hload. rewrite Hold in Hload. simpl in Hload.
  destruct (sc_decodeSnapshot (payload old)); simpl in Hload; [|done..].
  injection Hload as <-. simpl in Hcov. lia.
Qed.

(** A process that ends inside the snapshot write of a compaction. *)
Lemma compact_crash suffix fs st rs encoded fs' :
  store_inv fs st rs → sc_restorable (state_ st) → sc_encodeSnapshot (state_ st) = Ok encoded →
  zlen encoded <= kMaxSnapshotBytes → value (j_lastSequence (journal_ st)) < 2 ^ 64 - 1 →
  writeFileAtomic_crash suffix
    (slotPath (snapshotOptions o) (writeSlot (snapshotOptions o) fs))
    (snapshotBytes (j_lastSequence (journal_ st)) encoded) fs fs' →
  store_inv fs' st rs.
Proof.
  intros Hinv Hrest Henc Hsize Hlast Hcrash.
  destruct Hinv as [Ho Hd Hj Hp Hm (loaded & Hload & Hrec)].
  rewrite (ji_last _ _ _ Hj) in *.
  assert (fits 64 (value (last_sequence rs))) as Hfit
    by (destruct Hrec as [_ ? _ _]; unfold fits; lia).
  apply (write_crash (snapshotOptions o) fs _ _ suffix) in Hcrash as [Hout Hother];
    [|apply snap_path_nonempty|done|apply snap_bound|intros old Hold; by eapply covered_le|done].
  assert (journal_inv fs' (journal_ st) rs) as Hj'.
  { apply (journal_inv_file fs); [done|]. rewrite Hp.
    apply Hother; intros s; [apply journal_not_slot|apply journal_not_temp]. }
  split; try done.
  destruct Hout as [Hsame|Htaken].
  - exists loaded. split; [|done]. unfold loads. by rewrite Hsame.
  - destruct (recovers_taken loaded rs (state_ st) fs fs' encoded) as (l2 & ? & ? & _);
      try done; [rewrite <- Hm; apply Hj|]. by exists l2.
Qed.

(** The restart of a compaction left the journal either as it was or with its
    first segment record written whole. *)
Definition restart_whole (ro : RestartOutcome) (base : Z) : bool :=
  match ro with
  | NotTruncated => true
  | Restarted wo => whole_record wo (segmentStart base)
  end.

Definition restart_completes (ro : RestartOutcome) : Prop :=
  ro = NotTruncated ∨ ro = Restarted Written.

(** The restart of a compaction: the journal holds the old records, or the new
    segment record, or a part of it and the restart failed. *)
Lemma restart_cases ro fs j rs fs' r base :
  journal_inv fs j rs → j_maxRecordBytes j = kMaxJournalRecordBytes → 0 < base < 2 ^ 64 →
  restartSegment ro j (fromValue base) fs = (fs', r) →
  (∃ bytes, fs' = <[j_path j := bytes]> fs)
  ∧ ((restart_completes ro ∧ ∃ e, r = Fail e ∧ journal_inv fs' j rs)
     ∨ (restart_completes ro ∧ ∃ j', r = Ok j' ∧ j_path j' = j_path j
          ∧ j_maxRecordBytes j' = kMaxJournalRecordBytes ∧ journal_inv fs' j' [segmentStart base])
     ∨ ∃ n e, ro = Restarted (Torn n) ∧ r = Fail e
         ∧ fs' !! j_path j = Some (journalHeaderBytes ++ take n (recordBytes (segmentStart base)))).
Proof.
  intros Hj Hm Hb Hrun. destruct ro as [|[|n]].
  - unfold restartSegment in Hrun. cbn [value] in Hrun. destruct (Z.eqb_spec base 0); [lia|].
    rewrite (ji_file _ _ _ Hj) in Hrun. cbn [default from_option id] in Hrun.
    assert (journalHeaderBytes ++ drop kJournalHeaderBytes (journalFile rs) = journalFile rs) as E.
    { rewrite <- length_journalHeader. unfold journalFile. by rewrite drop_app_length. }
    rewrite E in Hrun. injection Hrun as <- <-. split; [by eexists|]. left.
    split; [by left|]. eexists. split; [done|]. apply (journal_inv_file fs); [done|].
    by rewrite lookup_insert_eq, (ji_file _ _ _ Hj).
  - destruct (restart_inv fs j base Hb) as (fs2 & j2 & Hrun2 & Hj2 & Hfs & Hp2);
      [rewrite Hm; vm_compute; split; congruence|apply Hj|].
    rewrite Hrun in Hrun2. injection Hrun2 as -> ->. split; [by eexists|]. right. left.
    split; [by right|]. exists j2. split; [done|]. split; [done|]. split; [|done].
    unfold restartSegment in Hrun. cbn [value] in Hrun. destruct (Z.eqb_spec base 0); [lia|].
    cbn [writeRecord io_bind io_ret] in Hrun. injection Hrun as _ <-. exact Hm.
  - unfold restartSegment in Hrun. cbn [value] in Hrun. destruct (Z.eqb_spec base 0); [lia|].
    unfold writeRecord, io_bind in Hrun. rewrite lookup_insert_eq in Hrun.
    cbn [default from_option id] in Hrun.
    change (mkRecord _ _ _) with (segmentStart base) in Hrun.
    destruct (_ <? _)%nat in Hrun; [|destruct (_ <? _)%nat in Hrun]; injection Hrun as <- <-;
      (split; [by rewrite insert_insert_eq; eexists|]; right; right; eexists n, _;
       split; [done|]; split; [done|]; by rewrite lookup_insert_eq).
Qed.

(** Whatever its outcomes, a compaction leaves the store as usable as it was,
    unless the journal was truncated and its first segment record was not
    reported as written. *)
Lemma compact_cases faults suffix ro fs st rs fs' st' r :
  store_inv fs st rs → failed_ st = false → sc_restorable (state_ st) →
  value (j_lastSequence (journal_ st)) < 2 ^ 64 - 1 →
  compact faults suffix ro st fs = (fs', st', r) →
  let base := value (j_lastSequence (journal_ st)) + 1 in
  (∃ rs', store_inv fs' st' rs' ∧ state_ st' = state_ st ∧ failed_ st' = false
    ∧ (is_ok r = true → rs' = [segmentStart base]))
  ∨ ∃ n loaded, ro = Restarted (Torn n) ∧ is_ok r = false ∧ st' = st ∧ 0 < base < 2 ^ 64
      ∧ fs' !! journalPath o = Some (journalHeaderBytes ++ take n (recordBytes (segmentStart base)))
      ∧ loads fs' = Ok loaded ∧ recovers loaded [segmentStart base] (state_ st).
Proof.
  intros Hinv Hfailed Hrest Hlast Hrun base. unfold compact in Hrun. rewrite Hfailed in Hrun.
  destruct (sc_encodeSnapshot (state_ st)) as [encoded|e|w] eqn:Henc;
    [|injection Hrun as <- <- <-; left; by exists rs..].
  pose proof Hinv as [Ho Hd Hj Hp Hm (loaded & Hload & Hrec)]. unfold base. clear base.
  rewrite Ho, (ji_last _ _ _ Hj) in *.
  assert (fits 64 (value (last_sequence rs))) as Hfit
    by (destruct Hrec as [_ ? _ _]; unfold fits; lia).
  destruct (SnapshotFile_write _ _ _ _ _ fs) as [fs1 written] eqn:Hwrite.
  apply (write_outcome (snapshotOptions o) fs _ _ suffix) in Hwrite as [Hout Hother];
    [|apply snap_path_nonempty|done|apply snap_bound|intros old Hold; by eapply covered_le].
  assert (journal_inv fs1 (journal_ st) rs) as Hj1.
  { apply (journal_inv_file fs); [done|]. rewrite Hp.
    apply Hother; intros s; [apply journal_not_slot|apply journal_not_temp]. }
  destruct written as [slot|e|]; [| |done].
  - destruct (recovers_taken loaded rs (state_ st) fs fs1 encoded) as (l2 & Hl2 & Hr2 & Hr2');
      try done; [rewrite <- Hm; apply Hj|].
    assert (0 < value (last_sequence rs) + 1 < 2 ^ 64) as Hb by (unfold fits in Hfit; lia).
    rewrite Z.mod_small in Hrun by lia.
    destruct (restartSegment ro (journal_ st) _ fs1) as [fs2 restarted] eqn:Hrestart.
    destruct (restart_cases _ _ _ _ _ _ _ Hj1 Hm Hb Hrestart)
      as [(bytes & Hfs2) [(_ & e & -> & Hj2) | [(_ & j2 & -> & Hp2 & Hm2 & Hj2)
           | (n & e & -> & -> & Hfile)]]];
      injection Hrun as <- <- <-; rewrite Hp in Hfs2.
    + left. exists rs. split; [|done]. split; try done. exists l2. by rewrite Hfs2, loads_journal.
    + left. eexists. split; [|by split]. split; simpl; [done|done|done|congruence|done|].
      exists l2. by rewrite Hfs2, loads_journal.
    + right. exists n, l2. split_and!; [done..|lia|lia|by rewrite <- Hp| |done].
      by rewrite Hfs2, loads_journal.
  - injection Hrun as <- <- <-. left. exists rs. split; [|done]. split; try done.
    exists loaded. split; [|done]. unfold loads. by rewrite Hout.
Qed.

Lemma header_segment n base :
  (length (recordBytes (segmentStart base)) <= n)%nat →
  journalHeaderBytes ++ take n (recordBytes (segmentStart base)) = journalFile [segmentStart base].
Proof.
  intros Hn. rewrite take_ge by done. unfold journalFile, segmentBytes. simpl. by rewrite app_nil_r.
Qed.

(** The state is on disk after a compaction whose restart was whole, even if it
    was reported as a failure. *)
Lemma compact_disk faults suffix ro fs st rs fs' st' r :
  store_inv fs st rs → failed_ st = false → sc_restorable (state_ st) →
  value (j_lastSequence (journal_ st)) < 2 ^ 64 - 1 →
  restart_whole ro (value (j_lastSequence (journal_ st)) + 1) = true →
  compact faults suffix ro st fs = (fs', st', r) →
  ∃ rs', disk_ok false fs' rs' (state_ st).
Proof.
  intros Hinv Hf Hrest Hlast Hro Hrun.
  destruct (compact_cases _ _ _ _ _ _ _ _ _ Hinv Hf Hrest Hlast Hrun)
    as [(rs' & Hinv' & Hst & _) | (n & loaded & -> & _ & -> & Hb & Hfile & Hl & Hr)].
  - exists rs'. rewrite <- Hst. by apply store_inv_disk.
  - cbn [restart_whole whole_record] in Hro. apply Nat.leb_le in Hro.
    rewrite header_segment in Hfile by done. exists [segmentStart (value (j_lastSequence (journal_ st)) + 1)].
    apply disk_whole; [apply Hinv| |done|by exists loaded].
    apply segmentStart_ok; [vm_compute; congruence|done].
Qed.

(** ** Histories *)

Lemma commit_Ok_appendable wo st type p fs fs' st' :
  fits 64 (value (j_lastSequence (journal_ st))) →
  commit wo st type p fs = (fs', st', Ok tt) →
  failed_ st = false ∧ appendable (journal_ st) type p
  ∧ sc_apply (state_ st) type p = (apply_change (state_ st) (type, p), Ok tt).
Proof.
  intros Hfit Hrun. unfold commit in Hrun. destruct (failed_ st) eqn:Hf; [done|].
  destruct (zlen p >? _); [done|]. unfold apply_change. simpl.
  destruct (sc_apply (state_ st) type p) as [s2 [[]| |]] eqn:E; [|done..].
  split; [done|]. split; [|done]. unfold append in Hrun.
  destruct (isKnownRecordType (raw type)) eqn:Hk; [|done]. cbn [negb] in Hrun.
  destruct (Z.gtb_spec (zlen p) (j_maxRecordBytes (journal_ st))); [done|].
  rewrite checkedAdd_spec in Hrun by (done || (unfold fits; lia)).
  unfold fits in Hfit. destruct (decide _) as [Hd|]; [|done]. split; [done|]. lia.
Qed.

(** The change a commit adds to what the directory holds: it is there exactly if
    the commit is not refused and its record is written whole, which the commit
    may report as a failure when the sync that follows fails. *)
Definition recorded (wo : WriteOutcome) (st : Store S) (type : JournalRecordType)
    (p : list byte) (fs : FileSystem) : list (JournalRecordType * list byte) :=
  if is_ok (commit Written st type p fs).2 && whole_record wo (nextRecord (journal_ st) type p)
  then [(type, p)] else [].

(** What a controller or agent process does with its directory over any number
    of runs; the store is [None] between two runs. It creates the store in an
    empty directory, commits changes, goes on after a refused commit that left
    the state as it was, compacts (with any failure of the snapshot write, and a
    restart of the journal that completes), and ends: between operations, inside
    a commit or after a failed one, inside the snapshot write of a compaction,
    or around the restart of its journal once the segment record is whole. An
    opening may have any outcome, the end of the process included. [h] lists the
    changes that are recorded; every commit that reported success is one.

    What is left out, because there the code keeps no such promise: a process
    that goes on after an append failed or after a refused change was applied in
    part ([failed_commit_diverges]), and the end of a process after the journal
    was truncated and before its segment record is whole
    ([truncated_journal_never_opens]). *)
Inductive history
  : FileSystem → option (Store S) → list (JournalRecordType * list byte) → Prop :=
  | history_create cs fs fs' st r :
      directory o ≠ "" → fs !! journalPath o = None →
      (∀ s, fs !! slotPath (snapshotOptions o) s = None) →
      store_open Written (Restarted Written) cs o fs = (fs', Ok (st, r)) →
      history fs' (Some st) []
  | history_commit fs st h wo type p fs' st' :
      history fs (Some st) h → commit wo st type p fs = (fs', st', Ok tt) →
      history fs' (Some st') (h ++ [(type, p)])
  | history_refused fs st h wo type p st' r :
      history fs (Some st) h → commit wo st type p fs = (fs, st', r) → is_ok r = false →
      durable_eq (state_ st') (state_ st) →
      history fs (Some st') h
  | history_commit_end fs st h wo type p :
      history fs (Some st) h →
      history (commit wo st type p fs).1.1 None (h ++ recorded wo st type p fs)
  | history_compact fs st h faults suffix ro fs' st' r :
      history fs (Some st) h → sc_restorable (state_ st) →
      value (j_lastSequence (journal_ st)) < 2 ^ 64 - 1 → restart_completes ro →
      compact faults suffix ro st fs = (fs', st', r) →
      history fs' (Some st') h
  | history_compact_end fs st h faults suffix ro fs' st' r :
      history fs (Some st) h → sc_restorable (state_ st) →
      value (j_lastSequence (journal_ st)) < 2 ^ 64 - 1 →
      restart_whole ro (value (j_lastSequence (journal_ st)) + 1) = true →
      compact faults suffix ro st fs = (fs', st', r) →
      history fs' None h
  | history_compact_crash fs st h suffix encoded fs' :
      history fs (Some st) h → sc_restorable (state_ st) →
      value (j_lastSequence (journal_ st)) < 2 ^ 64 - 1 →
      sc_encodeSnapshot (state_ st) = Ok encoded → zlen encoded <= kMaxSnapshotBytes →
      writeFileAtomic_crash suffix
        (slotPath (snapshotOptions o) (writeSlot (snapshotOptions o) fs))
        (snapshotBytes (j_lastSequence (journal_ st)) encoded) fs fs' →
      history fs' None h
  | history_end fs st h : history fs (Some st) h → history fs None h
  | history_open fs h ho so cs :
      history fs None h →
      history (store_open ho so cs o fs).1
        match (store_open ho so cs o fs).2 with Ok (st, _) => Some st | _ => None end h.

Lemma foldl_snoc {A B} (f : A → B → A) a l x : foldl f a (l ++ [x]) = f (foldl f a l) x.
Proof. by rewrite foldl_app. Qed.

(** What holds of a directory, and of the store that runs on it. *)
Definition live_inv (fs : FileSystem) (live : option (Store S)) (s : S) : Prop :=
  match live with
  | Some st => ∃ rs, store_inv fs st rs ∧ failed_ st = false ∧ durable_eq (state_ st) s
  | None => ∃ torn rs, disk_ok torn fs rs s
  end.

Lemma live_stops fs st s : live_inv fs (Some st) s → live_inv fs None s.
Proof.
  intros (rs & Hinv & _ & Heq). exists false, rs. apply (disk_ok_eq _ _ _ (state_ st)); [done|].
  by apply store_inv_disk.
Qed.

Lemma store_sequence_fits fs st rs :
  store_inv fs st rs → fits 64 (value (j_lastSequence (journal_ st))).
Proof.
  intros [_ _ Hj _ _ (loaded & _ & [(base & tail & Hrs & _) _ _ _])].
  rewrite (ji_last _ _ _ Hj). subst rs. apply (last_fits _ _ _ (ji_segment _ _ _ Hj)).
Qed.

Lemma live_commit wo fs st s type p fs' st' :
  live_inv fs (Some st) s → commit wo st type p fs = (fs', st', Ok tt) →
  live_inv fs' (Some st') (apply_change s (type, p)).
Proof.
  intros (rs & Hinv & Hf & Heq) Hrun.
  destruct (commit_Ok_appendable _ _ _ _ _ _ _ (store_sequence_fits _ _ _ Hinv) Hrun)
    as (_ & Ha & Happly).
  destruct (commit_spec wo fs st rs type p _ Hinv Hf Ha Happly)
    as (fs2 & st2 & r & Hrun2 & _ & _ & Hst & Hf2 & _ & Hwo).
  rewrite Hrun in Hrun2. injection Hrun2 as <- <- <-.
  destruct wo; [|by destruct Hwo]. destruct Hwo as [_ Hinv2].
  eexists. split; [done|]. split; [done|]. rewrite Hst. by rewrite Heq.
Qed.

Lemma live_commit_end wo fs st s type p :
  live_inv fs (Some st) s →
  live_inv (commit wo st type p fs).1.1 None (foldl apply_change s (recorded wo st type p fs)).
Proof.
  intros Hlive. pose proof Hlive as (rs & Hinv & Hf & Heq). unfold recorded.
  destruct (commit Written st type p fs) as [[fsw stw] [[]| |]] eqn:Hw; cbn [fst snd is_ok andb].
  2,3: rewrite commit_refused by (by rewrite Hw); by apply live_stops in Hlive.
  destruct (commit_Ok_appendable _ _ _ _ _ _ _ (store_sequence_fits _ _ _ Hinv) Hw)
    as (_ & Ha & Happly).
  destruct (commit_spec wo fs st rs type p _ Hinv Hf Ha Happly)
    as (fs2 & st2 & r & -> & _ & Hdisk & _).
  eexists _, _. refine (disk_ok_eq _ _ _ _ _ _ Hdisk).
  destruct (whole_record _ _); cbn [foldl]; [by rewrite Heq|done].
Qed.

Lemma live_open ho so cs fs s :
  live_inv fs None s →
  live_inv (store_open ho so cs o fs).1
    match (store_open ho so cs o fs).2 with Ok (st, _) => Some st | _ => None end s.
Proof.
  intros ([|] & rs & Hdisk).
  - destruct (open_disk_torn ho so cs fs rs s Hdisk) as (fs' & why & -> & Hcs). simpl.
    destruct cs; [subst fs'; by exists true, rs|]. exists false, rs. apply Hcs.
  - destruct (open_disk ho so cs fs rs s Hdisk) as (fs' & st & r & -> & Hinv & Heq & Hf).
    by exists rs.
Qed.

Lemma history_inv fs live h :
  history fs live h → live_inv fs live (foldl apply_change sc_default h).
Proof.
  induction 1 as [cs fs fs' st r Hd Hj Hs Hopen
                 |fs st h wo type p fs' st' _ IH Hrun
                 |fs st h wo type p st' r _ (rs & Hinv & Hf & Heq) Hrun Hr Hst
                 |fs st h wo type p _ IH
                 |fs st h faults suffix ro fs' st' r _ (rs & Hinv & Hf & Heq) Hrest Hlast Hro Hrun
                 |fs st h faults suffix ro fs' st' r _ (rs & Hinv & Hf & Heq) Hrest Hlast Hro Hrun
                 |fs st h suffix encoded fs' _ (rs & Hinv & Hf & Heq) Hrest Hlast Henc Hsz Hcrash
                 |fs st h _ IH
                 |fs h ho so cs _ IH].
  - destruct (open_fresh cs fs Hd Hj Hs) as (fs2 & st2 & r2 & Hrun & Hinv & Heq & Hf).
    rewrite Hopen in Hrun. injection Hrun as -> -> ->. by eexists.
  - rewrite foldl_snoc. by eapply live_commit.
  - destruct (commit_failed _ _ _ _ _ _ _ _ Hrun Hr) as (Hj & Ho & Hf').
    destruct Hinv as [? ? ? ? ? (loaded & Hl & Hrec)]. exists rs.
    split; [|split; [congruence|by etransitivity]].
    split; try (rewrite ?Hj, ?Ho; done). exists loaded. split; [done|].
    by apply (recovers_eq _ _ (state_ st)).
  - rewrite foldl_app. by apply live_commit_end.
  - destruct (compact_cases _ _ _ _ _ _ _ _ _ Hinv Hf Hrest Hlast Hrun)
      as [(rs' & Hinv' & Hst & Hf' & _)|(n & _ & -> & _)]; [|by destruct Hro].
    exists rs'. by rewrite Hst.
  - destruct (compact_disk _ _ _ _ _ _ _ _ _ Hinv Hf Hrest Hlast Hro Hrun) as [rs' Hdisk].
    exists false, rs'. by apply (disk_ok_eq _ _ _ (state_ st)).
  - apply (live_stops _ st). exists rs. split; [|done]. by eapply compact_crash.
  - by apply live_stops in IH.
  - by apply live_open.
Qed.

(** What a history leaves on disk. *)
Lemma history_disk fs live h :
  history fs live h →
  ∃ rs, disk_ok (ends_in_payload fs) fs rs (foldl apply_change sc_default h)
    ∧ (ends_in_payload fs = true → live = None).
Proof.
  intros Hh. pose proof (history_inv _ _ _ Hh) as Hlive.
  assert (∃ torn rs, disk_ok torn fs rs (foldl apply_change sc_default h)
            ∧ (torn = true → live = None)) as (torn & rs & Hdisk & Hnone).
  { destruct live as [st|]; [|destruct Hlive as (torn & rs & ?); by exists torn, rs].
    destruct Hlive as (rs & Hinv & _ & Heq). exists false, rs. split; [|done].
    apply (disk_ok_eq _ _ _ (state_ st)); [done|]. by apply store_inv_disk. }
  exists rs. by rewrite (disk_torn _ _ _ _ Hdisk).
Qed.

(** What the next opening of the directory does. *)
Lemma history_opens fs live h ho so cs :
  history fs live h →
  if ends_in_payload fs
  then live = None
       ∧ ∃ fs' why, store_open ho so cs o fs = (fs', Abort why)
           ∧ match cs with
             | EndsInFlush => fs' = fs
             | EndsInClose => ends_in_payload fs' = false ∧ history fs' None h
             end
  else ∃ fs' st r, store_open ho so cs o fs = (fs', Ok (st, r))
       ∧ durable_eq (state_ st) (foldl apply_change sc_default h).
Proof.
  intros Hh. destruct (history_disk _ _ _ Hh) as (rs & Hdisk & Hnone).
  destruct (ends_in_payload fs).
  - specialize (Hnone eq_refl). split; [done|]. subst live.
    destruct (open_disk_torn ho so cs fs rs _ Hdisk) as (fs' & why & Hopen & Hcs).
    exists fs', why. split; [done|]. destruct cs; [done|]. destruct Hcs as [_ Hdisk'].
    split; [by apply (disk_torn _ _ _ _ Hdisk')|].
    pose proof (history_open fs h ho so EndsInClose Hh) as Hh'. by rewrite Hopen in Hh'.
  - destruct (open_disk ho so cs fs rs _ Hdisk) as (fs' & st & r & Hopen & _ & Heq & _).
    by exists fs', st, r.
Qed.

(** *** A journal without its segment record *)

(** The journal was truncated, and less than its first segment record written. *)
Definition headless (fs : FileSystem) : Prop :=
  ∃ base n, 0 < base < 2 ^ 64 ∧ (n < length (recordBytes (segmentStart base)))%nat
    ∧ fs !! journalPath o = Some (journalHeaderBytes ++ take n (recordBytes (segmentStart base))).

(** Such a directory does not open, and an opening leaves it such a directory. *)
Lemma headless_open ho so cs fs loaded :
  directory o ≠ "" → loads fs = Ok loaded → headless fs →
  let '(fs', r) := store_open (S := S) ho so cs o fs in
  is_ok r = false ∧ loads fs' = Ok loaded ∧ headless fs'.
Proof.
  intros Hd Hload (base & n & Hbase & Hn & Hfile). pose proof max_record_bounds as Hmax.
  assert (segment_ok kMaxJournalRecordBytes []) as Hseg by (split; [by constructor|done]).
  pose proof (segmentStart_record_ok base Hbase) as Hrec.
  assert (∀ fs', fs' !! journalPath o = Some (journalFile []) → headless fs') as Hempty.
  { intros fs' Hf'. exists base, 0%nat. split; [done|]. split; [lia|].
    by rewrite take_0, app_nil_r, Hf', header_only. }
  assert (∀ fs' j rec, Journal_open ho so cs (journalPath o) kMaxJournalRecordBytes fs = (fs', rec, Ok j) →
            fs' !! journalPath o = Some (journalFile []) → loads fs' = Ok loaded →
            let '(fs', r) := store_open (S := S) ho so cs o fs in
            is_ok r = false ∧ loads fs' = Ok loaded ∧ headless fs') as Hopened.
  { intros fs' j rec Hopen Hf' Hl'. unfold store_open. rewrite decide_False by done.
    unfold loads in Hload. destruct (SnapshotFile_load _ fs) as [snapshot notes]. simpl in Hload.
    rewrite Hload, Hopen.
    rewrite (readFile_segment _ _ [] kMaxJournalRecordBytes) by done. by auto. }
  rewrite <- header_only in Hfile.
  destruct (decide (n = 0)%nat) as [->|Hn0]; [|destruct (decide (n < kJournalRecordHeaderBytes)%nat)].
  - rewrite take_0, app_nil_r in Hfile.
    destruct (open_segment ho so cs (journalPath o) kMaxJournalRecordBytes fs [])
      as (j & rec & Hopen & _); [apply journalPath_nonempty|done..|]. by apply (Hopened fs j rec).
  - destruct (open_torn_header (journalPath o) kMaxJournalRecordBytes fs [] (segmentStart base) n
                (journalPath_nonempty o) Hmax Hfile Hseg Hrec ho so cs)
      as (j & rec & Hopen & _); [lia|].
    apply (Hopened _ j rec Hopen); [by rewrite lookup_insert_eq|by rewrite loads_journal].
  - destruct (open_torn_payload (journalPath o) kMaxJournalRecordBytes fs [] (segmentStart base) n
                (journalPath_nonempty o) Hmax Hfile Hseg Hrec ho so cs ltac:(lia)) as (rec & Hopen).
    unfold store_open. rewrite decide_False by done. pose proof Hload as Hload2.
    unfold loads in Hload. destruct (SnapshotFile_load _ fs) as [snapshot notes]. simpl in Hload.
    rewrite Hload, Hopen. split; [done|]. destruct cs; cbn [closed_stream_leaves].
    + split; [done|]. exists base, n. split; [done|]. split; [done|]. by rewrite Hfile, header_only.
    + rewrite loads_journal. split; [done|]. apply Hempty. by rewrite lookup_insert_eq.
Qed.
End recovery.

(** ** Properties *)


(** A controller's store over an empty file system, and one committed note. *)
Definition example_options : StoreOptions := mkStoreOptions "state" "controller" 4194304.
Definition example_note : list byte := storeLe32 3 ++ bytes_of_string "abc".

Definition example_opened : option (FileSystem * Store ControllerState) :=
  match store_open Written (Restarted Written) EndsInClose example_options ∅ with
  | (fs, Ok (st, _)) => Some (fs, st)
  | _ => None
  end.
Definition example_committed : option (FileSystem * Store ControllerState) :=
  match example_opened with
  | Some (fs, st) =>
      match commit Written st JournalRecordType.Note example_note fs with
      | (fs, st, Ok _) => Some (fs, st)
      | _ => None
      end
  | None => None
  end.

Lemma example_opens : bool_decide (is_Some example_opened) = true.
Proof. vm_compute. reflexivity. Qed.
Lemma example_commits : bool_decide (is_Some example_committed) = true.
Proof. vm_compute. reflexivity. Qed.

Lemma example_create fs st :
  example_opened = Some (fs, st) → history example_options fs (Some st) [].
Proof.
  unfold example_opened. destruct (store_open _ _ _ _ ∅) as [fs1 [[st1 r]| |]] eqn:E; [|done..].
  intros [= <- <-]. by apply (history_create example_options EndsInClose ∅ fs1 st1 r).
Qed.

Lemma example_history fs st :
  example_committed = Some (fs, st) →
  history example_options fs (Some st) [(JournalRecordType.Note, example_note)].
Proof.
  unfold example_committed. destruct example_opened as [[fs0 st0]|] eqn:E0; [|done].
  destruct (commit _ st0 _ _ fs0) as [[fs1 st1] [[]| |]] eqn:E; [|done..]. intros [= <- <-].
  apply (history_commit example_options fs0 st0 [] Written); [by apply example_create|done].
Qed.


(** C8: what a crash in a commit leaves. If the process ends before the payload
    of the record is being written, reopening the directory succeeds and gives
    the state from before the commit; if the record is whole, it gives the state
    after it, and a commit that reported success is always whole. If the process
    ends inside the payload, the commit did not report success and the next
    opening ends the process; the directory is then as it was, or has the torn
    record cut off, and gives the state from before the commit. No crash gives
    any other state. *)
Theorem commit_crash_atomic `{StoreLaws State} o wo ho so cs fs st rs type p s2
    (Hinv : store_inv o fs st rs) (Hf : failed_ st = false)
    (Ha : appendable (journal_ st) type p) (Happly : sc_apply (state_ st) type p = (s2, Ok tt)) :
  let r := nextRecord (journal_ st) type p in
  let fs1 := (commit wo st type p fs).1.1 in
  (is_ok (commit wo st type p fs).2 = true → whole_record wo r = true)
  ∧ (cut_in_payload wo r = false →
     ∃ fs' st' rs' rec, store_open ho so cs o fs1 = (fs', Ok (st', rec)) ∧ store_inv o fs' st' rs'
       ∧ durable_eq (state_ st') (if whole_record wo r then s2 else state_ st))
  ∧ (cut_in_payload wo r = true →
     ∃ fs' why, store_open ho so cs o fs1 = (fs', Abort why)
       ∧ match cs with
         | EndsInFlush => fs' = fs1
         | EndsInClose =>
             ∀ ho so cs, ∃ fs2 st' rec, store_open ho so cs o fs' = (fs2, Ok (st', rec))
               ∧ store_inv o fs2 st' rs ∧ durable_eq (state_ st') (state_ st)
         end).
Proof.
  cbv zeta. destruct (commit_spec o wo fs st rs type p s2 Hinv Hf Ha Happly)
    as (fs1 & st1 & ret & -> & _ & Hdisk & _ & _ & _ & Hwo). cbn [fst snd].
  split; [by destruct wo; [done|destruct Hwo as [-> _]]|].
  split; intros Hcut; rewrite Hcut in Hdisk.
  - destruct (open_disk o ho so cs _ _ _ Hdisk) as (fs' & st' & rec & ? & ? & ? & _).
    eexists _, _, _, _. done.
  - assert (whole_record wo (nextRecord (journal_ st) type p) = false) as Hwhole.
    { by destruct (write_cases wo (nextRecord (journal_ st) type p))
        as [(n & _ & _ & Hc & _)|[(n & _ & _ & _ & Hw)|(_ & Hc & _)]]; [congruence| |congruence]. }
    rewrite Hwhole in Hdisk.
    destruct (open_disk_torn o ho so cs _ _ _ Hdisk) as (fs' & why & Hopen & Hcs).
    exists fs', why. split; [done|]. destruct cs; [done|]. destruct Hcs as [_ Hdisk'].
    intros ho' so' cs'. destruct (open_disk o ho' so' cs' _ _ _ Hdisk')
      as (fs2 & st' & rec & ? & ? & ? & _). by exists fs2, st', rec.
Qed.

Lemma example_appendable fs st : example_opened = Some (fs, st) →
  failed_ st = false ∧ appendable (journal_ st) JournalRecordType.Note example_note
  ∧ sc_apply (state_ st) JournalRecordType.Note example_note = (state_ st, Ok tt).
Proof.
  intros E. assert (match example_opened with
    | Some (_, st) => failed_ st = false
        ∧ appendable (journal_ st) JournalRecordType.Note example_note
        ∧ sc_apply (state_ st) JournalRecordType.Note example_note = (state_ st, Ok tt)
    | None => True end) as H; [|by rewrite E in H].
  vm_compute. repeat split; discriminate.
Qed.

(** A commit cut in the header of its record, and one cut in its payload. *)
Lemma commit_crash_atomic_witness :
  ∃ fs0 st0, example_opened = Some (fs0, st0)
    ∧ (∃ fs' (st' : Store ControllerState) rec,
         store_open Written (Restarted Written) EndsInClose example_options
           (commit (Torn 5) st0 JournalRecordType.Note example_note fs0).1.1 = (fs', Ok (st', rec)))
    ∧ ∃ fs' why,
        store_open (S := ControllerState) Written (Restarted Written) EndsInClose example_options
          (commit (Torn 21) st0 JournalRecordType.Note example_note fs0).1.1 = (fs', Abort why).
Proof.
  destruct example_opened as [[fs st]|] eqn:E; [|by pose proof example_opens; rewrite E in *].
  exists fs, st. split; [reflexivity|].
  destruct (history_inv _ _ _ _ (example_create fs st E)) as (rs & Hinv & _ & _).
  destruct (example_appendable fs st E) as (Hf & Ha & Happly).
  split.
  - destruct (commit_crash_atomic example_options (Torn 5) Written (Restarted Written) EndsInClose
                fs st rs JournalRecordType.Note example_note (state_ st) Hinv Hf Ha Happly)
      as (_ & H & _).
    destruct (H eq_refl) as (fs' & st' & _ & rec & Hopen & _). exists fs', st', rec. exact Hopen.
  - destruct (commit_crash_atomic example_options (Torn 21) Written (Restarted Written) EndsInClose
                fs st rs JournalRecordType.Note example_note (state_ st) Hinv Hf Ha Happly)
      as (_ & _ & H).
    destruct (H eq_refl) as (fs' & why & Hopen & _). exists fs', why. exact Hopen.
Defined.


Lemma example_fresh fs st : example_opened = Some (fs, st) →
  state_ st = ControllerState_default ∧ j_lastSequence (journal_ st) = fromValue 1.
Proof.
  intros E. assert (match example_opened with
    | Some (_, st) => state_ st = ControllerState_default ∧ j_lastSequence (journal_ st) = fromValue 1
    | None => True end) as H; [|by rewrite E in H].
  vm_compute. by split.
Qed.


(** C12: The one gap in the durability of compaction. If the process ends (or
    the device fails) after the journal was truncated and before its first
    segment record is complete, the directory never opens again, although the
    new snapshot holds the whole state: after any number of attempts, whatever
    they met, the next opening does not succeed either. *)
Theorem truncated_journal_never_opens `{StoreLaws State} o fs base n loaded
    (attempts : list (WriteOutcome * RestartOutcome * ClosedStream)) ho so cs
    (Hd : directory o ≠ "") (Hbase : 0 < base < 2 ^ 64)
    (Hn : (n < length (recordBytes (segmentStart base)))%nat)
    (Hfile : fs !! journalPath o = Some (journalHeaderBytes ++ take n (recordBytes (segmentStart base))))
    (Hload : loads (S := State) o fs = Ok loaded) :
  let attempt fs a := (store_open (S := State) a.1.1 a.1.2 a.2 o fs).1 in
  is_ok (store_open (S := State) ho so cs o (foldl attempt fs attempts)).2 = false.
Proof.
  cbv zeta. assert (headless o fs) as Hh by (exists base, n; done). clear Hn Hfile.
  revert fs Hload Hh. induction attempts as [|a attempts IH]; intros fs Hload Hh; cbn [foldl].
  - pose proof (headless_open o ho so cs fs loaded Hd Hload Hh) as Hopen.
    by destruct (store_open _ _ _ o fs) as [fs' r]; destruct Hopen.
  - pose proof (headless_open o a.1.1 a.1.2 a.2 fs loaded Hd Hload Hh) as Hopen.
    destruct (store_open a.1.1 _ _ o fs) as [fs' r]. destruct Hopen as (_ & Hl & Hh'). by apply IH.
Qed.

Lemma truncated_journal_never_opens_witness :
  let fs : FileSystem :=
    {[ journalPath example_options := journalHeaderBytes ++ take 21 (recordBytes (segmentStart 3)) ]} in
  is_ok (store_open (S := ControllerState) Written (Restarted Written) EndsInClose example_options
           (store_open (S := ControllerState) Written (Restarted Written) EndsInClose
              example_options fs).1).2 = false.
Proof.
  intros fs.
  refine (truncated_journal_never_opens (State := ControllerState) example_options fs 3 21 None
              [(Written, Restarted Written, EndsInClose)] Written (Restarted Written) EndsInClose
              _ _ _ _ _).
  - discriminate.
  - split; reflexivity.
  - apply Nat.ltb_lt. vm_compute. reflexivity.
  - vm_compute. reflexivity.
  - vm_compute. reflexivity.
Defined.


Lemma example_epochs fs st : example_opened = Some (fs, st) →
  failed_ st = false
  ∧ appendable (journal_ st) JournalRecordType.ControllerEpoch (storeLe64 7)
  ∧ appendable (journal_ st) JournalRecordType.ControllerEpoch (storeLe64 8)
  ∧ sc_apply (state_ st) JournalRecordType.ControllerEpoch (storeLe64 7)
    = (cs_set_epoch (fromValue 7) (state_ st), Ok tt)
  ∧ sc_apply (cs_set_epoch (fromValue 7) (state_ st)) JournalRecordType.ControllerEpoch (storeLe64 8)
    = (cs_set_epoch (fromValue 8) (cs_set_epoch (fromValue 7) (state_ st)), Ok tt).
Proof.
  intros E. assert (match example_opened with
    | Some (_, st) => failed_ st = false
        ∧ appendable (journal_ st) JournalRecordType.ControllerEpoch (storeLe64 7)
        ∧ appendable (journal_ st) JournalRecordType.ControllerEpoch (storeLe64 8)
        ∧ sc_apply (state_ st) JournalRecordType.ControllerEpoch (storeLe64 7)
          = (cs_set_epoch (fromValue 7) (state_ st), Ok tt)
        ∧ sc_apply (cs_set_epoch (fromValue 7) (state_ st)) JournalRecordType.ControllerEpoch (storeLe64 8)
          = (cs_set_epoch (fromValue 8) (cs_set_epoch (fromValue 7) (state_ st)), Ok tt)
    | None => True end) as H; [|by rewrite E in H].
  vm_compute. repeat split; discriminate.
Qed.


(** With five bytes of the failed record in the file, the next commit still
    reports success, and the directory then refuses to open. *)
Example commit_after_failure_loses_store :
  match example_opened with
  | Some (fs0, st0) =>
      let '(fs1, st1, r1) :=
        commit (Torn 5) st0 JournalRecordType.ControllerEpoch (storeLe64 7) fs0 in
      let '(fs2, st2, r2) :=
        commit Written st1 JournalRecordType.ControllerEpoch (storeLe64 8) fs1 in
      value (cs_epoch (state_ st0)) = 0
      ∧ is_ok r1 = false ∧ failed_ st1 = false ∧ value (cs_epoch (state_ st1)) = 7
      ∧ is_ok r2 = true
      ∧ match (store_open (S := ControllerState) Written (Restarted Written) EndsInClose
                 example_options fs2).2 with
        | Fail e => code e = ErrorCode.IntegrityFailure
        | _ => False
        end
  | None => False
  end.
Proof. vm_compute. repeat split. Qed.
