(* ===== verification/Offline.v ===== *)
(** * Reading durable state without opening it

    Models [loadOffline], [loadControllerStateOffline] and
    [loadAgentStateOffline] of src/state.cpp: the newest valid snapshot and the
    journal records past it, without the recovery that opening a store
    performs. Compares what they return with what opening the store gives. *)

From stdpp Require Import gmap.
From Stdlib Require Import Strings.Byte.
From S2P Require Import Prelude Result StdMap Checked Hash Ids Codec Lifecycle Files Journal Snapshot.
From S2P Require Import Artifact Records State Store Recovery.

Section offline.
Context {S : Type} `{!StoreCodec S}.

(** The base sequence: of the first segment record with a payload of eight
    bytes; 0 when there is none. *)
Fixpoint segment_base (rs : list JournalRecord) : Z :=
  match rs with
  | [] => 0
  | r :: rs =>
      if bool_decide (rec_type r = JournalRecordType.SegmentStart)
         && (length (rec_payload r) =? 8)%nat
      then le_load (rec_payload r) else segment_base rs
  end.

(** A snapshot that does not load is no snapshot. *)
Definition offline_loaded (snapshot : Result Loaded) : Result (option (Loaded * S)) :=
  match snapshot with
  | Ok l => let* decoded := sc_decodeSnapshot (payload l) in Ok (Some (l, decoded))
  | _ => Ok None
  end.

(** The state, and the text of the [detail] argument ("" where it is not
    assigned); [gap] is the message for a gap before the journal. *)
Definition loadOffline (gap : string) (o : StoreOptions) (fs : FileSystem) : string * Result S :=
  let '(snapshot, notes) := SnapshotFile_load (snapshotOptions o) fs in
  match offline_loaded snapshot with
  | Fail e => ("", Fail e)
  | Abort why => ("", Abort why)
  | Ok loaded =>
      let notes := match loaded with
                   | Some (l, _) => notes +:+ " snapshot-slot=" +:+ slot_char (slot l)
                   | None => notes
                   end in
      let covered := loaded_covered loaded in
      let '(recovery, records) := readFile (journalPath o) fs in
      let detail := notes +:+ " journal=" +:+ JournalRecovery_render recovery in
      match records with
      | Fail e => (detail, Fail e)
      | Abort why => (detail, Abort why)
      | Ok records =>
          let base := segment_base records in
          if base >? (covered + 1) mod 2 ^ 64
          then ("", fail_detail ErrorCode.IntegrityFailure gap
                      ("snapshot-covered=" +:+ to_string covered +:+ " journal-base="
                       +:+ to_string base))
          else
            match replay covered (loaded_state loaded) 0 records with
            | Ok (state, _) => (detail, Ok state)
            | Fail e => ("", Fail e)
            | Abort why => ("", Abort why)
            end
      end
  end.
End offline.

Definition loadControllerStateOffline (dir : string) : FileSystem → string * Result ControllerState :=
  loadOffline "durable state has a gap between the newest loadable snapshot and the journal base"
    (mkStoreOptions dir "controller" 0).
Definition loadAgentStateOffline (dir : string) : FileSystem → string * Result AgentState :=
  loadOffline "agent state has a gap between the newest loadable snapshot and the journal base"
    (mkStoreOptions dir "agent" 0).

(** ** Lemmas *)

(** *** The journal without its torn tail *)

Lemma loadLe_take n off k (l : list byte) : (off + n <= k)%nat → loadLe n off (take k l) = loadLe n off l.
Proof. intros Hk. unfold loadLe. rewrite !take_drop_commute, take_take. by rewrite Nat.min_l. Qed.

Lemma scan_nothing fuel maxRecordBytes offset e :
  scan_loop fuel maxRecordBytes offset [] offset e = mkScan [] offset EndOfFile.
Proof. destruct fuel; [done|]. simpl. by rewrite Z.eqb_refl. Qed.

(** One iteration: it stops, or takes a record whose bytes alone decide it. *)
Lemma scan_iteration fuel maxRecordBytes size rest offset e :
  let s := scan_loop (Datatypes.S fuel) maxRecordBytes size rest offset e in
  (s_records s = [] ∧ s_lastGoodOffset s = offset)
  ∨ ∃ r p, (kJournalRecordHeaderBytes + p <= length rest)%nat
      ∧ ∀ size' k, (kJournalRecordHeaderBytes + p <= k)%nat →
          scan_loop (Datatypes.S fuel) maxRecordBytes size' (take k rest) offset e
          = scan_cons r
              (scan_loop fuel maxRecordBytes size'
                 (take (k - (kJournalRecordHeaderBytes + p)) (drop (kJournalRecordHeaderBytes + p) rest))
                 (offset + Z.of_nat (kJournalRecordHeaderBytes + p)) (Some (rec_sequence r))).
Proof.
  cbv zeta. cbn [scan_loop].
  destruct (Nat.ltb_spec (length rest) kJournalRecordHeaderBytes) as [|Hlen]; [by left|].
  destruct (negb _) eqn:Hplausible; [by left|].
  destruct ((loadLe 4 0 rest >? 0) && _) eqn:Htorn; [by left|].
  destruct (negb (recordChecksum _ _ _ =? _)) eqn:Hcrc; [by left|].
  destruct (match e with Some _ => _ | None => _ end) eqn:Hseq; [by left|].
  right. set (n := loadLe 4 0 rest) in *.
  assert (0 <= n) as Hn by apply le_load_fits.
  eexists (mkRecord (default JournalRecordType.Invalid (of_raw (loadLe 4 4 rest)))
             (fromValue (loadLe 8 12 rest))
             (take (Z.to_nat n) (drop kJournalRecordHeaderBytes rest))), (Z.to_nat n).
  assert (kJournalRecordHeaderBytes + Z.to_nat n <= length rest)%nat as Hfits.
  { apply andb_false_iff in Htorn. unfold zlen in Htorn. rewrite length_drop in Htorn.
    unfold kJournalRecordHeaderBytes in *. rewrite Z.gtb_ltb in Htorn.
    destruct Htorn as [?%Z.ltb_ge|?%Z.ltb_ge]; lia. }
  split; [done|]. intros size' k Hk.
  assert (∀ a b, (a + b <= 20)%nat → loadLe b a (take k rest) = loadLe b a rest) as Hload.
  { intros a b Hab. apply loadLe_take. unfold kJournalRecordHeaderBytes in Hk. lia. }
  cbn [scan_loop]. rewrite length_take.
  destruct (Nat.ltb_spec (k `min` length rest) kJournalRecordHeaderBytes); [lia|].
  rewrite !Hload by lia. fold n. rewrite Hplausible.
  rewrite skipn_firstn_comm, firstn_firstn, Nat.min_l by lia.
  rewrite Hcrc, Hseq.
  replace ((n >? 0) && _) with false.
  2: { symmetry. apply andb_false_iff. right. apply Z.ltb_ge. unfold zlen.
       rewrite length_take, length_drop. lia. }
  f_equal. f_equal; [|lia].
  rewrite skipn_firstn_comm, skipn_skipn, (Nat.add_comm (Z.to_nat n)).
  by rewrite Nat.sub_add_distr.
Qed.

(** A scan that does not end in the middle of the file gives the same records
    on what precedes the torn tail. *)
Lemma scan_prefix fuel maxRecordBytes size rest offset e :
  ∃ n, s_lastGoodOffset (scan_loop fuel maxRecordBytes size rest offset e) = offset + Z.of_nat n
    ∧ (n <= length rest)%nat
    ∧ scan_loop fuel maxRecordBytes (offset + Z.of_nat n) (take n rest) offset e
      = mkScan (s_records (scan_loop fuel maxRecordBytes size rest offset e)) (offset + Z.of_nat n)
          EndOfFile.
Proof.
  revert rest offset e. induction fuel as [|fuel IH]; intros rest offset e.
  { exists 0%nat. simpl. rewrite Z.add_0_r. split_and!; [done|lia|done]. }
  destruct (scan_iteration fuel maxRecordBytes size rest offset e) as [[Hr Ho]|(r & p & Hp & Hstep)].
  { exists 0%nat. rewrite Hr, Ho, Z.add_0_r, take_0, scan_nothing. split_and!; [done|lia|done]. }
  pose proof (Hstep size (length rest) Hp) as Hs. rewrite firstn_all, take_ge in Hs
    by (rewrite length_drop; lia).
  rewrite Hs. clear Hs. cbn [scan_cons s_records s_lastGoodOffset].
  set (rest' := drop _ rest) in *. set (offset' := offset + _) in *.
  destruct (IH rest' offset' (Some (rec_sequence r))) as (n & Hlast & Hn & Hrun).
  exists (kJournalRecordHeaderBytes + p + n)%nat. rewrite Hlast.
  assert (offset + Z.of_nat (kJournalRecordHeaderBytes + p + n) = offset' + Z.of_nat n) as -> by lia.
  split; [done|]. split; [unfold rest' in Hn; rewrite length_drop in Hn; lia|].
  rewrite Hstep by lia. replace (kJournalRecordHeaderBytes + p + n - _)%nat with n by lia.
  fold rest' offset'. by rewrite Hrun.
Qed.

(** *** Opening and reading *)

Lemma take_header n (bytes : list byte) :
  (n <= length bytes)%nat → ∀ k, (n <= k)%nat → take n (take k bytes) = take n bytes.
Proof. intros Hl k Hk. by rewrite take_take, Nat.min_l. Qed.

(** The file cut where its torn tail begins. *)
Lemma read_truncated path fs bytes :
  (kJournalHeaderBytes <= length bytes)%nat →
  validateJournalHeader (take kJournalHeaderBytes bytes) = Ok tt →
  let s := scan_file kMaxJournalRecordBytes bytes in
  (readFile path (<[path := take (Z.to_nat (s_lastGoodOffset s)) bytes]> fs)).2 = Ok (s_records s).
Proof.
  intros Hlen Hhead. cbv zeta. unfold scan_file.
  destruct (scan_prefix (Datatypes.S (length bytes)) kMaxJournalRecordBytes (zlen bytes)
              (drop kJournalHeaderBytes bytes) (Z.of_nat kJournalHeaderBytes) None)
    as (n & -> & Hn & Hrun). rewrite length_drop in Hn.
  set (cut := take _ bytes).
  assert (length cut = kJournalHeaderBytes + n)%nat as Hcut by (unfold cut; rewrite length_take; lia).
  unfold readFile, scanInto. rewrite lookup_insert_eq.
  destruct (Nat.ltb_spec (length cut) kJournalHeaderBytes); [lia|].
  assert (take kJournalHeaderBytes cut = take kJournalHeaderBytes bytes) as ->
    by (apply take_header; lia).
  rewrite Hhead. unfold scan_file.
  assert (drop kJournalHeaderBytes cut = take n (drop kJournalHeaderBytes bytes)) as ->.
  { unfold cut. rewrite skipn_firstn_comm. f_equal. lia. }
  replace (zlen cut) with (Z.of_nat kJournalHeaderBytes + Z.of_nat n) by (unfold zlen; lia).
  rewrite (scan_loop_fuel _ _ _ (Datatypes.S (length bytes))).
  - by rewrite Hrun.
  - rewrite length_take, length_drop. lia.
  - rewrite length_take, length_drop. lia.
Qed.

(** Opening a journal that is there: it succeeds where reading does, and the
    records read afterwards are the same. *)
Lemma open_reads ho so cs path fs bytes fs1 recovery opened :
  path ≠ "" → fs !! path = Some bytes →
  Journal_open ho so cs path kMaxJournalRecordBytes fs = (fs1, recovery, opened) →
  is_ok opened = is_ok (readFile path fs).2
  ∧ (is_ok opened = true →
     (readFile path fs1).2 = (readFile path fs).2).
Proof.
  intros Hp Hf Hopen. unfold Journal_open in Hopen. rewrite decide_False, Hf in Hopen by done.
  cbn [Z.eqb Z.gtb orb] in Hopen. unfold readFile, scanInto in *. rewrite Hf in *.
  destruct (Nat.ltb_spec (length bytes) kJournalHeaderBytes) as [|Hlen].
  { by injection Hopen as <- <- <-. }
  destruct (validateJournalHeader _) as [[]|e|why] eqn:Hhead; [|by injection Hopen as <- <- <-..].
  pose proof (read_truncated path fs bytes Hlen Hhead) as Hcut. cbv zeta in Hcut.
  destruct (s_end (scan_file kMaxJournalRecordBytes bytes)) eqn:Hend;
    injection Hopen as <- <- <-; (split; [done|]); intros Hok;
    cbn [snd fst sr_status sr_records try_bind].
  - rewrite Hf. destruct (Nat.ltb_spec (length bytes) kJournalHeaderBytes); [lia|].
    by rewrite Hhead, Hend.
  - exact Hcut.
  - discriminate Hok.
  - discriminate Hok.
Qed.

(** *** Offline and open *)

Section agree.
Context {S : Type} `{!StoreCodec S}.
Context (gap : string) (o : StoreOptions).

Lemma offline_decode snapshot :
  (∀ e, snapshot = Fail e → code e = ErrorCode.NotFound) → (∀ why, snapshot ≠ Abort why) →
  offline_loaded (S := S) snapshot = decode_loaded snapshot.
Proof.
  intros Hf Ha. destruct snapshot as [l|e|why]; [done| |by destruct (Ha why)]. simpl.
  by rewrite bool_decide_true by by apply Hf.
Qed.

(** The only way a snapshot does not load is that there is none. *)
Lemma snapshot_absent so fs :
  match (SnapshotFile_load so fs).1 with
  | Ok _ => True | Fail e => code e = ErrorCode.NotFound | Abort _ => False
  end.
Proof.
  unfold SnapshotFile_load. destruct (loadSlot _ _ _ _) as [[b|] notes]; done.
Qed.

Lemma segment_base_found rs base : findBase rs = Ok base → base ≠ 0 → segment_base rs = base.
Proof.
  induction rs as [|r rs IH]; simpl; [by intros [= <-]|].
  case_bool_decide; [|done]. destruct (length (rec_payload r) =? 8)%nat; [by intros [= <-]|done].
Qed.

(** Reading a directory whose journal is there. *)
Lemma offline_at fs loaded rs :
  decode_loaded (SnapshotFile_load (snapshotOptions o) fs).1 = Ok loaded →
  (readFile (journalPath o) fs).2 = Ok rs →
  (loadOffline (S := S) gap o fs).2
  = if segment_base rs >? (loaded_covered loaded + 1) mod 2 ^ 64
    then fail_detail ErrorCode.IntegrityFailure gap
           ("snapshot-covered=" +:+ to_string (loaded_covered loaded) +:+ " journal-base="
            +:+ to_string (segment_base rs))
    else let* (s, _) := replay (loaded_covered loaded) (loaded_state loaded) 0 rs in Ok s.
Proof.
  intros Hl Hr. unfold loadOffline. pose proof (snapshot_absent (snapshotOptions o) fs) as Ha.
  destruct (SnapshotFile_load _ fs) as [snapshot notes]. cbn [fst] in *.
  rewrite offline_decode, Hl.
  - destruct (readFile _ fs) as [recovery records]. cbn [snd] in Hr. rewrite Hr. cbv zeta.
    destruct (_ >? _); [done|]. by destruct (replay _ _ _ _) as [[]| |].
  - intros e ->. done.
  - intros why ->. done.
Qed.

(** A directory that opens is read offline to the same state. *)
Lemma open_offline ho so cs fs fs' st r :
  fs !! journalPath o ≠ None → store_open (S := S) ho so cs o fs = (fs', Ok (st, r)) →
  (loadOffline gap o fs).2 = Ok (state_ st).
Proof.
  intros Hj Hopen. unfold store_open in Hopen. case_decide; [done|].
  destruct (fs !! journalPath o) as [bytes|] eqn:Hf; [|done].
  destruct (SnapshotFile_load _ fs) as [snapshot notes] eqn:Hload.
  destruct (decode_loaded snapshot) as [loaded| |] eqn:Hd; [|done..].
  destruct (Journal_open _ _ _ _ _ fs) as [[fs1 recovery] opened] eqn:Hjo.
  destruct (open_reads _ _ _ _ _ _ _ _ _ (journalPath_nonempty o) Hf Hjo) as [_ Hsame].
  destruct opened as [j| |]; [|done..]. specialize (Hsame eq_refl).
  destruct (readFile _ fs1) as [recovery2 records]. cbn [snd] in Hsame. injection Hopen as <- Hopen.
  destruct records as [records| |]; [|done..]. cbn [try_bind] in Hopen.
  unfold recover in Hopen. destruct (findBase records) as [base| |] eqn:Hbase; [|done..].
  cbn [try_bind] in Hopen. destruct (Z.eqb_spec base 0); [done|].
  destruct (base >? _) eqn:Hgap; [done|].
  rewrite (offline_at fs loaded records); [|by rewrite Hload|done].
  rewrite (segment_base_found records base), Hgap by done.
  destruct (replay _ _ _ _) as [[s replayed]| |]; [|done..]. by injection Hopen as <- <-.
Qed.

(** What is read offline opens, if the journal says where it begins. *)
Lemma offline_open ho so cs fs s :
  directory o ≠ "" →
  (∀ rs, (readFile (journalPath o) fs).2 = Ok rs → ∃ base, findBase rs = Ok base ∧ base ≠ 0) →
  (loadOffline gap o fs).2 = Ok s →
  ∃ fs' st r, store_open (S := S) ho so cs o fs = (fs', Ok (st, r)) ∧ state_ st = s.
Proof.
  intros Hdir Hbase Hread.
  destruct (SnapshotFile_load (snapshotOptions o) fs) as [snapshot notes] eqn:Hload.
  pose proof (snapshot_absent (snapshotOptions o) fs) as Ha. rewrite Hload in Ha. cbn [fst] in Ha.
  assert (∃ loaded, decode_loaded (S := S) snapshot = Ok loaded) as [loaded Hd].
  { unfold loadOffline in Hread. rewrite Hload, offline_decode in Hread by (by intros ? ->).
    destruct (decode_loaded snapshot) as [l| |]; [by exists l|done..]. }
  assert (∃ rs, (readFile (journalPath o) fs).2 = Ok rs) as [rs Hrs].
  { unfold loadOffline in Hread. rewrite Hload, offline_decode, Hd in Hread by (by intros ? ->).
    destruct (readFile _ fs) as [recovery [rs| |]]; [by exists rs|done..]. }
  rewrite (offline_at fs loaded rs) in Hread by (by rewrite ?Hload).
  destruct (Hbase rs Hrs) as (base & Hb & Hnz).
  rewrite (segment_base_found rs base) in Hread by done.
  destruct (base >? _) eqn:Hgap; [done|].
  destruct (replay _ _ 0 rs) as [[s' replayed]| |] eqn:Hrun; [|done..]. injection Hread as <-.
  destruct (fs !! journalPath o) as [bytes|] eqn:Hf.
  2: { unfold readFile, scanInto in Hrs. by rewrite Hf in Hrs. }
  unfold store_open. rewrite decide_False, Hload, Hd by done.
  destruct (Journal_open _ _ _ _ _ fs) as [[fs1 recovery] opened] eqn:Hjo.
  destruct (open_reads _ _ _ _ _ _ _ _ _ (journalPath_nonempty o) Hf Hjo) as [Hok Hsame].
  rewrite Hrs in Hok. destruct opened as [j| |]; [|done..]. specialize (Hsame eq_refl).
  destruct (readFile _ fs1) as [recovery2 records]. cbn [snd] in Hsame. rewrite Hsame, Hrs.
  eexists fs1, _, _. unfold recover. cbn [try_bind]. rewrite Hb. cbn [try_bind].
  destruct (Z.eqb_spec base 0); [done|]. rewrite Hgap, Hrun. by split.
Qed.
End agree.

(** A journal that ends inside a payload ends the process that reads it. *)
Lemma offline_torn `{StoreLaws State} gap o fs rs s :
  disk_ok o true fs rs s → ∃ why, (loadOffline (S := State) gap o fs).2 = Abort why.
Proof.
  intros [Hd Hseg (r & n & Hr & Hn & Htorn & Hf) (loaded & Hload & _)].
  symmetry in Htorn. apply Nat.leb_le in Htorn.
  pose proof (readFile_torn_payload _ _ _ _ _ kMaxJournalRecordBytes (journalPath_nonempty o)
                (Z.le_refl _) Hf Hseg Hr (conj Htorn Hn)) as Hread.
  unfold loadOffline. pose proof (snapshot_absent (snapshotOptions o) fs) as Ha. unfold loads in Hload.
  destruct (SnapshotFile_load _ fs) as [snapshot notes]. cbn [fst] in *.
  rewrite offline_decode, Hload by (by intros ? ->).
  destruct (readFile _ fs) as [recovery records]. cbn [snd] in Hread. rewrite Hread. by eexists.
Qed.

(** ** Properties *)



(** A journal that is only a header is read offline as the empty state,
    although no open accepts it. *)
Example headless_journal_reads_empty :
  let fs : FileSystem := {["state/controller.journal" := journalHeaderBytes]} in
  (loadControllerStateOffline "state" fs).2 = Ok ControllerState_default
  ∧ is_ok (store_open (S := ControllerState) Written (Restarted Written) EndsInClose
             example_options fs).2 = false.
Proof. vm_compute. split; reflexivity. Qed.
