(* ===== verification/Agent.v ===== *)
(** * The target agent

    Models [TargetAgent] of include/cf/agent.hpp and src/agent.cpp: the
    session handshake, every message handler, activation, the start-up
    recovery of the live area, opening and serving. The state a handler can
    change is a [World] (files, durable store, frames sent, process-local
    counter), threaded by a monad; what the operating system answers is an
    environment [Env] indexed by the number of calls made so far. A process
    that dies ([crashNow]) ends in [Abort]. *)

From stdpp Require Import gmap sorting.
From Stdlib Require Import Strings.Byte.
From S2P Require Import Prelude Result StdMap Checked Hash Ids Text Codec Lifecycle Files Journal.
From S2P Require Import Snapshot Artifact FaultPlan AgentFiles Frame Records Messages Protocol.
From S2P Require Import State Store.

(** ** Options, environment, world *)

Record AgentOptions := mkAgentOptions {
  o_stateDirectory : string;
  o_liveDirectory : string;
  o_target : TargetId;
  o_klass : TargetClass;
  o_guarantee : ApplyGuarantee;
  o_maxArtifactBytes : Z;
  o_retainedPayloadsPerKey : nat;
  o_key : list byte;
  o_authenticate : bool;
  o_verifyCommittedPayloadOnStart : bool;
  o_faults : FaultPlan;
}.

(** The answers of the operating system to the [n]-th call, and the payload
    ceiling of the connection. *)
Record Env := mkEnv {
  env_maxPayload : Z;
  env_append : nat → WriteOutcome;
  env_write : nat → AtomicFaults;
  env_copy : nat → CopyFaults;
  env_chunk : nat → ChunkFaults;
  env_read_fails : nat → bool;
  env_mkdir_fails : nat → bool;
  env_remove_fails : nat → bool;
  env_resize_fails : nat → bool;
  env_send_fails : nat → option Error;
  env_random : nat → list byte;
  env_now : nat → Z;
  env_listing : nat → list (string * Z);
}.

Record World := mkWorld {
  w_fs : FileSystem;
  w_store : Store AgentState;
  w_sent : list Message;
  w_inbox : list (Result Frame);
  w_chunkCounter : Z;
  w_closed : bool;
  w_calls : nat;
}.
Definition w_state (w : World) : AgentState := state_ (w_store w).

Definition set_fs fs w := mkWorld fs (w_store w) (w_sent w) (w_inbox w) (w_chunkCounter w)
  (w_closed w) (w_calls w).
Definition set_store st w := mkWorld (w_fs w) st (w_sent w) (w_inbox w) (w_chunkCounter w)
  (w_closed w) (w_calls w).
Definition set_sent l w := mkWorld (w_fs w) (w_store w) l (w_inbox w) (w_chunkCounter w)
  (w_closed w) (w_calls w).
Definition set_inbox l w := mkWorld (w_fs w) (w_store w) (w_sent w) l (w_chunkCounter w)
  (w_closed w) (w_calls w).
Definition set_chunkCounter n w := mkWorld (w_fs w) (w_store w) (w_sent w) (w_inbox w) n
  (w_closed w) (w_calls w).
Definition set_closed b w := mkWorld (w_fs w) (w_store w) (w_sent w) (w_inbox w)
  (w_chunkCounter w) b (w_calls w).
Definition next_call w := mkWorld (w_fs w) (w_store w) (w_sent w) (w_inbox w)
  (w_chunkCounter w) (w_closed w) (S (w_calls w)).

(** ** The agent monad *)

Definition M (A : Type) : Type := World → World * Result A.

Definition m_ret {A} (a : A) : M A := λ w, (w, Ok a).
Definition m_lift {A} (r : Result A) : M A := λ w, (w, r).
Definition m_bind {A B} (m : M A) (k : A → M B) : M B := λ w,
  match m w with
  | (w', Ok a) => k a w'
  | (w', Fail e) => (w', Fail e)
  | (w', Abort why) => (w', Abort why)
  end.
(** The result is inspected instead of propagated. *)
Definition m_try {A} (m : M A) : M (Result A) := λ w,
  match m w with
  | (w', Abort why) => (w', Abort why)
  | (w', r) => (w', Ok r)
  end.
Definition m_get {A} (f : World → A) : M A := λ w, (w, Ok (f w)).
Definition m_modify (f : World → World) : M unit := λ w, (f w, Ok tt).
Definition m_when (b : bool) (m : M unit) : M unit := if b then m else m_ret tt.

Notation "'let@' x := m 'in' k" := (m_bind m (λ x, k))
  (at level 10, x pattern, m at level 100, k at level 200) : cf_scope.
Notation "'do@' m 'in' k" := (m_bind m (λ _, k))
  (at level 10, m at level 100, k at level 200) : cf_scope.

(** One answer of the environment. *)
Definition m_call {A} (f : nat → A) : M A := λ w, (next_call w, Ok (f (w_calls w))).
Definition m_io {A} (op : IO A) : M A := λ w, let '(fs, r) := op (w_fs w) in (set_fs fs w, r).
Definition get_state : M AgentState := m_get w_state.
Definition modify_state (f : AgentState → AgentState) : M unit :=
  m_modify (λ w, set_store (set_state (f (w_state w)) (w_store w)) w).
(** [crashNow]. *)
Definition crashNow : M unit := m_lift (Abort "crash").

Definition inc64 (v : Z) : Z := (v + 1) mod 2 ^ 64.
Definition count_stale (n : AgentCounters) := mkCounters (activations n) (duplicatesSuppressed n)
  (inc64 (staleOffersRefused n)) (digestRejections n) (applyRollbacks n).
Definition count_duplicate (n : AgentCounters) := mkCounters (activations n)
  (inc64 (duplicatesSuppressed n)) (staleOffersRefused n) (digestRejections n) (applyRollbacks n).
Definition count_rejection (n : AgentCounters) := mkCounters (activations n)
  (duplicatesSuppressed n) (staleOffersRefused n) (inc64 (digestRejections n)) (applyRollbacks n).
Definition count_rollback (n : AgentCounters) := mkCounters (activations n)
  (duplicatesSuppressed n) (staleOffersRefused n) (digestRejections n) (inc64 (applyRollbacks n)).
Definition count_activation (n : AgentCounters) := mkCounters
  (if activations n =? 0xFFFFFFFFFFFFFFFF then activations n else activations n + 1)
  (duplicatesSuppressed n) (staleOffersRefused n) (digestRejections n) (applyRollbacks n).

Definition rollbackPayload (s : AgentState) : Writer :=
  Write.u64 (applyRollbacks (as_counters s))
    +++ Write.u64 (duplicatesSuppressed (as_counters s))
    +++ Write.u64 (staleOffersRefused (as_counters s))
    +++ Write.u64 (digestRejections (as_counters s)).

Definition committed_set (s : AgentState) : bool := num_isSet (committedGeneration (as_commit s)).
Definition committed_state (s : AgentState) : DeliveryState :=
  if committed_set s then DeliveryState.Applied else DeliveryState.Prepared.
Definition is_stale (s : AgentState) (generation : Generation) : bool :=
  committed_set s && num_lt generation (committedGeneration (as_commit s)).
Definition same_generation (s : AgentState) (generation : Generation) : bool :=
  committed_set s && bool_decide (generation = committedGeneration (as_commit s)).

Definition result_code {A} (r : Result A) : ErrorCode :=
  match r with Fail e => code e | _ => ErrorCode.Ok end.
Definition result_str {A} (r : Result A) : string :=
  match r with Fail e => Error_str e | _ => errorCodeName ErrorCode.Ok end.

Definition kTransferCheckpointChunks : Z := 16.

Section agent.
Context (opts : AgentOptions) (env : Env).

Definition liveRoot : string :=
  if decide (o_liveDirectory opts = "") then o_stateDirectory opts +:+ "/live"
  else o_liveDirectory opts.
Definition stagingRoot : string := o_stateDirectory opts +:+ "/staging".
Definition key_directory : ConfigKey → string := liveKeyDirectory liveRoot.
Definition staging_path : DeploymentId → string := stagingPath stagingRoot.

(** ** Primitive steps *)

Definition m_commit (type : JournalRecordType) (record : Writer) : M unit :=
  let@ payload := m_lift record in
  let@ outcome := m_call (env_append env) in
  λ w, let '(fs, st, r) := commit outcome (w_store w) type payload (w_fs w) in
       (set_store st (set_fs fs w), r).

(** [FramedConnection::send]. *)
Definition m_send (type : FrameType) (flags : Z) (payload : list byte) : M unit :=
  let@ _ := m_lift (encodeFrame type flags payload (env_maxPayload env)) in
  let@ failure := m_call (env_send_fails env) in
  match failure with
  | Some e => m_lift (Fail e)
  | None => m_modify (λ w, set_sent (w_sent w ++ [mkMessage type flags payload]) w)
  end.
Definition m_reply (type : FrameType) (flags : Z) (encoded : Result (list byte)) : M unit :=
  let@ payload := m_lift encoded in m_send type flags payload.

(** [FramedConnection::receive]; an exhausted inbox is an idle peer. *)
Definition m_receive : M Frame := λ w,
  match w_inbox w with
  | [] => (w, fail ErrorCode.PeerIdleTimeout "no frame arrived before the deadline")
  | frame :: inbox => (set_inbox inbox w, frame)
  end.

(** [std::filesystem::remove] with its error ignored. *)
Definition m_remove (path : string) : M unit :=
  let@ fails := m_call (env_remove_fails env) in
  if (fails : bool) then m_ret tt else m_modify (λ w, set_fs (delete path (w_fs w)) w).
Definition m_write (path text : string) : M unit :=
  let@ faults := m_call (env_write env) in
  let@ suffix := m_call (env_random env) in
  m_io (writeFileAtomic faults suffix path (bytes_of_string text)).
Definition m_file_size (path : string) : M (option Z) := m_get (λ w, file_size path (w_fs w)).
Definition m_hash (path : string) (expectedBytes : Z) : M Digest :=
  let@ fails := m_call (env_read_fails env) in m_io (hashStagingFile fails path expectedBytes).
Definition m_now : M Z := m_call (env_now env).
Definition m_fault (point : string) : M unit := m_when (armed (o_faults opts) point) crashNow.

Definition m_rollbackNote : M unit :=
  let@ s := get_state in m_commit JournalRecordType.AgentRollbackNote (rollbackPayload s).
Definition m_count (f : AgentCounters → AgentCounters) : M unit :=
  do@ modify_state (upd_counters f) in m_rollbackNote.

Definition note (text : string) : M unit :=
  if slen text >? kMaxNoteBytes
  then m_lift (fail ErrorCode.LimitExceeded "note exceeds its bound")
  else m_commit JournalRecordType.Note (Write.string kMaxNoteBytes text).

(** ** Transfers *)

Definition checkpointTransfer (record : TransferRecord) : M unit :=
  m_commit JournalRecordType.AgentTransferUpsert (writeTransferRecord record).

Definition destroyTransfer (deployment : DeploymentId) : M unit :=
  do@ m_remove (staging_path deployment) in
  let@ s := get_state in
  match map_find deployment (as_transfers s) with
  | None => m_ret tt
  | Some _ => m_commit JournalRecordType.AgentTransferRemove (write_id deployment)
  end.

Definition beginTransfer (message : PrepareMessage) (resumeFrom : Z) : M unit :=
  let@ now := m_now in
  checkpointTransfer
    (mkTransferRecord (pr_deployment message) (pr_stream message) (pr_key message)
       (pr_artifact message) (pr_generation message) (pr_digest message) (pr_sizeBytes message)
       resumeFrom false false now).

Definition m_prunePayloads (key : ConfigKey) : M unit :=
  let@ listing := m_call (env_listing env) in
  m_modify (λ w, set_fs (prunePayloads (o_retainedPayloadsPerKey opts)
                           (key_directory key +:+ "/payload") listing (w_fs w)) w).

Definition set_bytesReceived (n : Z) (r : TransferRecord) := mkTransferRecord (tx_deployment r)
  (tx_stream r) (tx_key r) (tx_artifact r) (tx_generation r) (tx_digest r) (tx_totalBytes r) n
  (tx_verified r) (tx_staged r) (tx_updatedAtMillis r).
Definition set_verified (r : TransferRecord) := mkTransferRecord (tx_deployment r)
  (tx_stream r) (tx_key r) (tx_artifact r) (tx_generation r) (tx_digest r) (tx_totalBytes r)
  (tx_bytesReceived r) true (tx_staged r) (tx_updatedAtMillis r).
Definition set_staged (r : TransferRecord) := mkTransferRecord (tx_deployment r)
  (tx_stream r) (tx_key r) (tx_artifact r) (tx_generation r) (tx_digest r) (tx_totalBytes r)
  (tx_bytesReceived r) (tx_verified r) true (tx_updatedAtMillis r).
Definition set_updatedAt (now : Z) (r : TransferRecord) := mkTransferRecord (tx_deployment r)
  (tx_stream r) (tx_key r) (tx_artifact r) (tx_generation r) (tx_digest r) (tx_totalBytes r)
  (tx_bytesReceived r) (tx_verified r) (tx_staged r) now.

(** ** Evidence *)

Record Session := mkSession {
  se_peerMaxPayload : Z;
  se_authorityEpoch : Epoch;
  se_authorityIncarnation : IncarnationId;
  se_authorityNode : NodeId;
}.

Definition sendNack (deployment : DeploymentId) (key : ConfigKey) (generation : Generation)
    (digest : Digest) (c : ErrorCode) (detail : string) : M unit :=
  let@ s := get_state in
  m_reply FrameType.DeliveryNack 0
    (encodeDeliveryNack
       (mkDeliveryNackMessage deployment key
          (if num_isSet generation then generation else fromValue 1)
          (if digest_isSet digest then digest else Digest_ofText "no-digest")
          c (retryDirectiveFor c) (term (as_identity s)) (incarnation (as_identity s))
          (str_take (Z.to_nat kMaxMessageDetailBytes) detail))).

Definition sendAck (session : Session) (deployment : DeploymentId) (key : ConfigKey)
    (generation : Generation) (digest : Digest) (state : DeliveryState)
    (bytesTransferred : Z) (fromReconcile : bool) : M unit :=
  if armed (o_faults opts) kWithholdAck then m_ret tt
  else
    let@ s := get_state in
    let@ now := m_now in
    m_reply FrameType.DeliveryAck 0
      (encodeDeliveryAck
         (mkDeliveryAckMessage deployment key generation digest
            (committedArtifact (as_commit s)) state (term (as_identity s))
            (incarnation (as_identity s)) (se_authorityEpoch session)
            (guarantee (as_identity s)) bytesTransferred now fromReconcile)).

Definition refusePrepare (message : PrepareMessage) (c : ErrorCode) (detail : string)
    (observed : DeliveryState) : M unit :=
  let@ s := get_state in
  m_reply FrameType.PrepareReject kFrameFlagResponse
    (encodePrepareReject
       (mkPrepareRejectMessage (pr_deployment message) c
          (str_take (Z.to_nat kMaxMessageDetailBytes) detail) observed
          (committedGeneration (as_commit s)))).

(** ** Prepare *)

(** Where the transfer may resume: the bytes on disk decide. *)
Definition resumePoint (message : PrepareMessage) : M Z :=
  let@ s := get_state in
  match map_find (pr_deployment message) (as_transfers s) with
  | None => m_ret 0
  | Some record =>
      let sameContent :=
        bool_decide (tx_digest record = pr_digest message)
        && bool_decide (tx_generation record = pr_generation message)
        && (tx_totalBytes record =? pr_sizeBytes message) in
      if sameContent && tx_verified record then
        let@ onDisk := m_file_size (staging_path (pr_deployment message)) in
        if bool_decide (onDisk = Some (tx_totalBytes record))
        then m_ret (tx_totalBytes record)
        else do@ destroyTransfer (pr_deployment message) in m_ret 0
      else if sameContent then
        let@ onDisk := m_file_size (staging_path (pr_deployment message)) in
        m_ret (match onDisk with Some size => Z.min (tx_bytesReceived record) size | None => 0 end)
      else do@ destroyTransfer (pr_deployment message) in m_ret 0
  end.

Definition prepareAck (s : AgentState) (message : PrepareMessage) (resumeFrom : Z)
    : PrepareAckMessage :=
  let c := as_commit s in
  mkPrepareAckMessage (pr_deployment message) (pr_stream message) resumeFrom
    (committedGeneration c) (committedDigest c) false (committed_state s)
    (committedGeneration c) (committedDigest c).
Definition duplicateAck (s : AgentState) (message : PrepareMessage) (finding : AppliedFinding)
    : PrepareAckMessage :=
  let c := as_commit s in
  mkPrepareAckMessage (pr_deployment message) (pr_stream message) (pr_sizeBytes message)
    (committedGeneration c) (committedDigest c) true (fd_state finding)
    (fd_generation finding) (fd_digest finding).

Definition onPrepare (bytes : list byte) : M unit :=
  let@ message := m_lift (decodePrepare bytes) in
  let@ s := get_state in
  if pr_sizeBytes message >? o_maxArtifactBytes opts then
    refusePrepare message ErrorCode.OversizePayload "artifact exceeds this target's size bound"
      (committed_state s)
  else if is_stale s (pr_generation message) then
    do@ m_count count_stale in
    refusePrepare message ErrorCode.StaleGeneration
      "offered generation is older than the committed generation" DeliveryState.Applied
  else if same_generation s (pr_generation message)
          && negb (bool_decide (pr_digest message = committedDigest (as_commit s))) then
    do@ m_count count_stale in
    refusePrepare message ErrorCode.GenerationConflict
      "a different content digest is already committed for this generation" DeliveryState.Applied
  else if negb (guaranteeSatisfies (guarantee (as_identity s)) (pr_requirement message)) then
    refusePrepare message ErrorCode.GuaranteeUnsupported
      ("target offers '" +:+ applyGuaranteeName (guarantee (as_identity s))
       +:+ "' which cannot satisfy '" +:+ guaranteeRequirementName (pr_requirement message)
       +:+ "'") DeliveryState.Prepared
  else if applyPrepared (as_window s) then
    refusePrepare message ErrorCode.Busy "an unresolved prepare window is open on this target"
      DeliveryState.Staged
  else
    match findFinding (pr_key message) (pr_digest message) s with
    | Some finding =>
        if isActivationState (fd_state finding)
           && bool_decide (fd_generation finding = pr_generation message)
        then
          do@ m_count count_duplicate in
          m_reply FrameType.PrepareAck kFrameFlagResponse
            (encodePrepareAck (duplicateAck s message finding))
        else
          let@ resumeFrom := resumePoint message in
          do@ beginTransfer message resumeFrom in
          do@ m_reply FrameType.PrepareAck kFrameFlagResponse
                (encodePrepareAck (prepareAck s message resumeFrom)) in
          m_fault kAfterOffer
    | None =>
        let@ resumeFrom := resumePoint message in
        do@ beginTransfer message resumeFrom in
        do@ m_reply FrameType.PrepareAck kFrameFlagResponse
              (encodePrepareAck (prepareAck s message resumeFrom)) in
        m_fault kAfterOffer
    end.

(** ** Chunks *)

Definition chunkAck (chunk : ChunkMessage) (c : ErrorCode) (received : Z) (detail : string)
    : M unit :=
  m_reply FrameType.ChunkAck kFrameFlagResponse
    (encodeChunkAck (mkChunkAckMessage (ck_stream chunk) (ck_sequence chunk) c received detail)).

(** The first open transfer of the stream, in the order of the map. *)
Definition transferOfStream (stream : StreamId) (s : AgentState) : option TransferRecord :=
  match list_find (λ e : DeploymentId * TransferRecord, tx_stream e.2 = stream) (as_transfers s) with
  | Some (_, (deployment, record)) => if id_isSet deployment then Some record else None
  | None => None
  end.

Definition corrupted (data : list byte) : list byte :=
  match data with
  | [] => []
  | b :: data => byte_of (Z.lxor (byte_val b) 0xFF) :: data
  end.

(** Where the chunk ends, when it may be accepted. *)
Definition chunkEnd (current : TransferRecord) (chunk : ChunkMessage) : option Z :=
  match checkedAdd 64 (ck_offset chunk) (zlen (ck_data chunk)) with
  | Some e => if e >? tx_totalBytes current then None else Some e
  | None => None
  end.

Definition m_writeChunk (current : TransferRecord) (chunk : ChunkMessage) : M (option ChunkFailure) :=
  let written := if armed (o_faults opts) kCorruptChunk then corrupted (ck_data chunk)
                 else ck_data chunk in
  let@ faults := m_call (env_chunk env) in
  λ w, let '(fs, failure) :=
         writeChunk faults (staging_path (tx_deployment current)) (tx_bytesReceived current =? 0)
           (Z.to_nat (ck_offset chunk)) written (w_fs w) in
       (set_fs fs w, Ok failure).

Definition onChunk (bytes : list byte) : M unit :=
  let@ chunk := m_lift (decodeChunk bytes) in
  let@ s := get_state in
  match transferOfStream (ck_stream chunk) s with
  | None => chunkAck chunk ErrorCode.NotFound 0 "no transfer is open for this stream"
  | Some current =>
      if negb (ck_offset chunk =? tx_bytesReceived current) then
        chunkAck chunk ErrorCode.ReorderedFrame (tx_bytesReceived current)
          (if ck_offset chunk <? tx_bytesReceived current then "duplicate chunk"
           else "chunk arrived out of order")
      else
        match chunkEnd current chunk with
        | None =>
            chunkAck chunk ErrorCode.SizeMismatch (tx_bytesReceived current)
              "chunk would extend past the declared artifact size"
        | Some e =>
            let@ failure := m_writeChunk current chunk in
            match failure with
            | Some CannotOpen =>
                chunkAck chunk ErrorCode.IoFailure (tx_bytesReceived current)
                  "cannot open the staging file"
            | Some CannotPersist =>
                chunkAck chunk ErrorCode.IoFailure (tx_bytesReceived current)
                  "cannot persist the chunk"
            | None =>
                let@ now := m_now in
                let updated := set_updatedAt now (set_bytesReceived e current) in
                do@ m_modify (λ w, set_chunkCounter (inc64 (w_chunkCounter w)) w) in
                let@ counter := m_get w_chunkCounter in
                do@ (if (counter mod kTransferCheckpointChunks =? 0)
                        || (tx_bytesReceived updated =? tx_totalBytes updated)
                     then checkpointTransfer updated
                     else modify_state (upd_transfers
                            (map_assign (tx_deployment current) updated))) in
                let injected := countFor (o_faults opts) kAfterChunk in
                do@ m_when (negb (injected =? 0) && (counter >=? injected)) crashNow in
                chunkAck chunk ErrorCode.Ok (tx_bytesReceived updated) ""
            end
        end
  end.

(** ** Completion *)

Definition transferResult (message : TransferCompleteMessage) (verified : bool) (received : Z)
    (c : ErrorCode) (detail : string) : M unit :=
  m_reply FrameType.TransferResult kFrameFlagResponse
    (encodeTransferResult (mkTransferResultMessage (xc_deployment message) (xc_stream message)
       verified received c detail)).

Definition hash_matches (actual : Result Digest) (declared : Digest) : bool :=
  match actual with Ok digest => bool_decide (digest = declared) | _ => false end.

Definition onTransferComplete (bytes : list byte) : M unit :=
  let@ message := m_lift (decodeTransferComplete bytes) in
  let@ s := get_state in
  match map_find (xc_deployment message) (as_transfers s) with
  | None =>
      transferResult message false 0 ErrorCode.NotFound "no transfer is open for this deployment"
  | Some current =>
      let received := tx_bytesReceived current in
      if negb (received =? tx_totalBytes current) then
        transferResult message false received ErrorCode.SizeMismatch
          "the transfer is incomplete at the target"
      else if negb (bool_decide (xc_digest message = tx_digest current))
              || negb (xc_sizeBytes message =? tx_totalBytes current) then
        transferResult message false received ErrorCode.Conflict
          "the completion message describes different content"
      else
        let@ actual := m_try (m_hash (staging_path (xc_deployment message))
                                (tx_totalBytes current)) in
        if hash_matches actual (tx_digest current) then
          let@ now := m_now in
          do@ checkpointTransfer (set_updatedAt now (set_verified current)) in
          do@ transferResult message true received ErrorCode.Ok "" in
          m_fault kAfterVerify
        else
          do@ m_count count_rejection in
          do@ destroyTransfer (xc_deployment message) in
          do@ transferResult message false received
                (match actual with Ok _ => ErrorCode.DigestMismatch | _ => result_code actual end)
                "the staged content does not hash to the declared digest" in
          sendNack (xc_deployment message) (tx_key current) (tx_generation current)
            (tx_digest current) ErrorCode.DigestMismatch "digest mismatch at the target"
  end.

(** ** Staging *)

Definition stageAck (message : StageMessage) (staged : bool) (c : ErrorCode) (detail : string)
    : M unit :=
  m_reply FrameType.StageAck kFrameFlagResponse
    (encodeStageAck (mkStageAckMessage (sg_deployment message) staged c detail)).

(** Copy the staged artifact into the live area. *)
Definition m_place (current : TransferRecord) : M unit :=
  let@ faults := m_call (env_copy env) in
  let@ suffix := m_call (env_random env) in
  m_io (copyFileAtomic faults suffix (staging_path (tx_deployment current))
          (payloadPath (key_directory (tx_key current)) (tx_generation current)
             (tx_digest current))).

Definition onStage (bytes : list byte) : M unit :=
  let@ message := m_lift (decodeStage bytes) in
  let@ s := get_state in
  match map_find (sg_deployment message) (as_transfers s) with
  | None => stageAck message false ErrorCode.NotFound "no transfer is open for this deployment"
  | Some current =>
      if negb (tx_verified current) then
        stageAck message false ErrorCode.NotPrepared "the staged artifact has not been verified"
      else if negb (bool_decide (sg_digest message = tx_digest current))
              || negb (bool_decide (sg_generation message = tx_generation current)) then
        stageAck message false ErrorCode.Conflict "the stage message describes different content"
      else if is_stale s (sg_generation message) then
        stageAck message false ErrorCode.StaleGeneration
          "staging a generation older than the committed one is refused"
      else
        let@ mkdirFails := m_call (env_mkdir_fails env) in
        if (mkdirFails : bool) then
          stageAck message false ErrorCode.OpenFailed "cannot create the live payload directory"
        else
          let@ copied := m_try (m_place current) in
          match copied with
          | Ok _ =>
              let@ now := m_now in
              do@ checkpointTransfer (set_updatedAt now (set_staged current)) in
              do@ stageAck message true ErrorCode.Ok "" in
              m_fault kAfterStage
          | failed =>
              stageAck message false (result_code failed)
                "cannot place the artifact into the live area"
          end
  end.

(** ** The prepare window *)

Definition prepareRecord (r : TransferRecord) : Writer :=
  write_id (tx_deployment r) +++ Write.num (tx_generation r) +++ Write.digest (tx_digest r).

Definition applyPrepareAck (message : ApplyPrepareMessage) (prepared : bool) (c : ErrorCode)
    (detail : string) : M unit :=
  m_reply FrameType.ApplyPrepareAck kFrameFlagResponse
    (encodeApplyPrepareAck (mkApplyPrepareAckMessage (ap_deployment message) prepared c detail)).

Definition onApplyPrepare (bytes : list byte) : M unit :=
  let@ message := m_lift (decodeApplyPrepare bytes) in
  let@ s := get_state in
  if bool_decide (guarantee (as_identity s) = ApplyGuarantee.AtomicActivate) then
    applyPrepareAck message false ErrorCode.UnexpectedMessage
      "this target activates atomically; a prepare/commit window would weaken its contract"
  else
    match map_find (ap_deployment message) (as_transfers s) with
    | None =>
        applyPrepareAck message false ErrorCode.NotPrepared
          "no staged artifact is available for this deployment"
    | Some current =>
        if negb (tx_staged current) then
          applyPrepareAck message false ErrorCode.NotPrepared
            "no staged artifact is available for this deployment"
        else if is_stale s (ap_generation message) then
          applyPrepareAck message false ErrorCode.StaleGeneration
            "prepare refused: the generation is older than the committed one"
        else if negb (bool_decide (ap_digest message = tx_digest current))
                || negb (bool_decide (ap_generation message = tx_generation current)) then
          applyPrepareAck message false ErrorCode.Conflict "prepare describes different content"
        else if applyPrepared (as_window s) then
          applyPrepareAck message false ErrorCode.Busy "a prepare window is already open"
        else
          let@ written :=
            m_try (m_write (pendingPath (key_directory (tx_key current)))
                     (pointerText (tx_generation current) (tx_digest current) id_empty)) in
          match written with
          | Ok _ =>
              do@ m_commit JournalRecordType.AgentApplyPrepared (prepareRecord current) in
              do@ applyPrepareAck message true ErrorCode.Ok "" in
              do@ m_fault kAfterPrepare in
              if armed (o_faults opts) kDropAfterPrepare then
                do@ m_modify (set_closed true) in
                m_lift (fail ErrorCode.ConnectionClosed
                          "session dropped inside the prepare window")
              else m_ret tt
          | failed =>
              applyPrepareAck message false (result_code failed) "cannot write the prepare marker"
          end
    end.

(** ** Activation *)

Definition resolvedRecord (activations : Z) : Writer := Write.u64 activations.
Definition commitRecord (generation : Generation) (digest : Digest) (artifact : ArtifactId) : Writer :=
  Write.num generation +++ Write.digest digest +++ write_id artifact.

Definition commitGeneration (deployment : DeploymentId) (key : ConfigKey)
    (generation : Generation) (digest : Digest) (artifact : ArtifactId) : M unit :=
  let@ s := get_state in
  do@ m_when (applyPrepared (as_window s))
        (m_commit JournalRecordType.AgentApplyResolved
           (resolvedRecord (inc64 (activations (as_counters s))))) in
  do@ m_commit JournalRecordType.AgentTargetCommit (commitRecord generation digest artifact) in
  let@ now := m_now in
  do@ m_commit JournalRecordType.AgentFindingUpsert
        (writeAppliedFinding (mkAppliedFinding key generation digest artifact deployment
           DeliveryState.Applied now)) in
  m_count count_activation.

Definition activate (transfer : TransferRecord) (explicitPrepare : bool) : M unit :=
  let@ s := get_state in
  let directory := key_directory (tx_key transfer) in
  let marker := pointerText (tx_generation transfer) (tx_digest transfer) (tx_artifact transfer) in
  do@ m_when (explicitPrepare && negb (applyPrepared (as_window s)))
        (do@ m_write (pendingPath directory) marker in
         m_commit JournalRecordType.AgentApplyPrepared (prepareRecord transfer)) in
  do@ m_fault kBeforeCommit in
  do@ m_write (currentPath directory) marker in
  do@ m_when explicitPrepare (m_remove (pendingPath directory)) in
  do@ m_fault kAfterSwitch in
  do@ commitGeneration (tx_deployment transfer) (tx_key transfer) (tx_generation transfer)
        (tx_digest transfer) (tx_artifact transfer) in
  m_prunePayloads (tx_key transfer).

(** ** Commit *)

Definition applyCommitAck (ack : ApplyCommitAckMessage) : M unit :=
  m_reply FrameType.ApplyCommitAck kFrameFlagResponse (encodeApplyCommitAck ack).

(** The acknowledgement before the outcome is known. *)
Definition commitAck (s : AgentState) (message : ApplyCommitMessage) (committed : bool)
    (state : DeliveryState) (c : ErrorCode) (detail : string) : ApplyCommitAckMessage :=
  mkApplyCommitAckMessage (ac_deployment message) committed state
    (committedGeneration (as_commit s)) (committedDigest (as_commit s)) c detail.

(** Refuse: the acknowledgement, then the nack. *)
Definition refuseCommit (s : AgentState) (message : ApplyCommitMessage) (key : ConfigKey)
    (c : ErrorCode) (detail nackDetail : string) : M unit :=
  do@ applyCommitAck (commitAck s message false (committed_state s) c detail) in
  sendNack (ac_deployment message) key (ac_generation message) (ac_digest message) c nackDetail.
(** Already active: the acknowledgement, then the evidence. *)
Definition suppressCommit (session : Session) (s : AgentState) (message : ApplyCommitMessage)
    (detail : string) : M unit :=
  do@ applyCommitAck
        (commitAck s message true DeliveryState.Applied ErrorCode.DuplicateSuppressed detail) in
  sendAck session (ac_deployment message) id_empty (ac_generation message) (ac_digest message)
    DeliveryState.Applied 0 false.

Definition recordedActivation (message : ApplyCommitMessage) (s : AgentState) : bool :=
  existsb (λ f, bool_decide (fd_generation f = ac_generation message)
                && bool_decide (fd_digest f = ac_digest message)
                && isActivationState (fd_state f)) (as_findings s).

Definition stagedTransfer (deployment : DeploymentId) (s : AgentState) : option TransferRecord :=
  match map_find deployment (as_transfers s) with
  | Some r => if tx_staged r then Some r else None
  | None => None
  end.

(** The commit of a staged transfer. *)
Definition commitStaged (session : Session) (s : AgentState) (message : ApplyCommitMessage)
    (current : TransferRecord) : M unit :=
  let explicitPrepare :=
    bool_decide (guarantee (as_identity s) = ApplyGuarantee.PrepareCommitAbort) in
  if negb (bool_decide (ac_digest message = tx_digest current))
     || negb (bool_decide (ac_generation message = tx_generation current)) then
    refuseCommit s message (tx_key current) ErrorCode.Conflict
      "commit describes different content than the staged artifact" "commit content conflict"
  else if explicitPrepare && negb (applyPrepared (as_window s)) then
    refuseCommit s message (tx_key current) ErrorCode.NotPrepared
      "this target requires an explicit prepare window before a commit"
      "this target requires an explicit prepare window before a commit"
  else if applyPrepared (as_window s)
          && negb (bool_decide (preparedDeployment (as_window s) = ac_deployment message)) then
    refuseCommit s message (tx_key current) ErrorCode.Conflict
      "a different deployment holds the open prepare window"
      "a different deployment holds the open prepare window"
  else
    let@ activated := m_try (activate current explicitPrepare) in
    match activated with
    | Ok _ =>
        let@ s' := get_state in
        do@ applyCommitAck (commitAck s' message true DeliveryState.Applied ErrorCode.Ok "") in
        do@ m_fault kAfterCommit in
        sendAck session (ac_deployment message) (tx_key current) (tx_generation current)
          (tx_digest current) DeliveryState.Applied (tx_totalBytes current) false
    | failed =>
        refuseCommit s message (tx_key current) (result_code failed) (result_str failed)
          (result_str failed)
    end.

Definition onApplyCommit (session : Session) (bytes : list byte) : M unit :=
  let@ message := m_lift (decodeApplyCommit bytes) in
  let@ s := get_state in
  if is_stale s (ac_generation message) then
    do@ m_count count_stale in
    refuseCommit s message id_empty ErrorCode.StaleGeneration
      "commit refused: the generation is older than the committed one"
      "stale commit refused at the target"
  else if same_generation s (ac_generation message)
          && bool_decide (ac_digest message = committedDigest (as_commit s)) then
    do@ m_count count_duplicate in
    suppressCommit session s message
      "the generation is already active; the commit was not re-applied"
  else if same_generation s (ac_generation message) then
    refuseCommit s message id_empty ErrorCode.GenerationConflict
      "a different digest is already committed for this generation"
      "generation conflict at the target"
  else
    match stagedTransfer (ac_deployment message) s with
    | None =>
        if recordedActivation message s then
          suppressCommit session s message "activation for this content is already recorded"
        else
          refuseCommit s message id_empty ErrorCode.NotPrepared
            "no staged artifact is available for this deployment"
            "commit without a staged artifact"
    | Some current => commitStaged session s message current
    end.

(** ** Abort, reconcile, retire, ping *)

Definition applyAbortAck (message : ApplyAbortMessage) (aborted : bool) (c : ErrorCode)
    (detail : string) : M unit :=
  m_reply FrameType.ApplyAbortAck kFrameFlagResponse
    (encodeApplyAbortAck (mkApplyAbortAckMessage (ab_deployment message) aborted c detail)).

Definition onApplyAbort (bytes : list byte) : M unit :=
  let@ message := m_lift (decodeApplyAbort bytes) in
  let@ s := get_state in
  let window := as_window s in
  if negb (applyPrepared window) then
    applyAbortAck message false ErrorCode.NotPrepared "no prepare window is open"
  else if negb (bool_decide (ab_deployment message = preparedDeployment window))
          || negb (bool_decide (ab_generation message = preparedGeneration window)) then
    applyAbortAck message false ErrorCode.Conflict "the abort describes a different prepare window"
  else
    do@ match list_find (λ e : DeploymentId * TransferRecord,
                           tx_deployment e.2 = preparedDeployment window) (as_transfers s) with
        | Some (_, (_, record)) => m_remove (pendingPath (key_directory (tx_key record)))
        | None => m_ret tt
        end in
    do@ m_count count_rollback in
    do@ m_commit JournalRecordType.AgentApplyResolved
          (resolvedRecord (activations (as_counters s))) in
    applyAbortAck message true ErrorCode.Ok "".

(** A transfer is resumable up to the bytes on disk. *)
Definition transferStatus (fs : FileSystem) (r : TransferRecord) : TransferStatusRecord :=
  let usable := default 0 (file_size (staging_path (tx_deployment r)) fs) in
  let received := Z.min (tx_bytesReceived r) usable in
  mkTransferStatusRecord (tx_deployment r) (tx_stream r) (tx_key r) (tx_generation r)
    (tx_digest r) received (tx_totalBytes r)
    (tx_verified r && (received =? tx_totalBytes r)) (tx_staged r).
Definition reportedFinding (f : AppliedFinding) : ReconcileFinding :=
  mkReconcileFinding (fd_key f) (fd_generation f) (fd_digest f) (fd_artifact f)
    (fd_deployment f) (fd_state f) (fd_recordedAtMillis f).

Definition reconcileReport (fs : FileSystem) (s : AgentState) (maxFindings : Z)
    : ReconcileReportMessage :=
  let i := as_identity s in
  let c := as_commit s in
  let window := as_window s in
  let requested := Z.min maxFindings kMaxFindingsInReport in
  let take' := Z.min requested (zlen (as_findings s)) in
  mkReconcileReportMessage (target i) (klass i) (guarantee i) (term i) (incarnation i)
    (committedGeneration c) (committedDigest c) (committedArtifact c)
    (applyPrepared window) (preparedDeployment window) (preparedGeneration window)
    (preparedDigest window) (restartCount i)
    (Z.min (applyRollbacks (as_counters s)) 0xFFFFFFFF)
    (map (λ e, transferStatus fs (snd e)) (take (Z.to_nat kMaxTransfersInReport) (as_transfers s)))
    (map reportedFinding (drop (Z.to_nat (zlen (as_findings s) - take')) (as_findings s))).

Definition onReconcileRequest (bytes : list byte) : M unit :=
  let@ request := m_lift (decodeReconcileRequest bytes) in
  let@ report := m_get (λ w, reconcileReport (w_fs w) (w_state w) (rq_maxFindings request)) in
  m_reply FrameType.ReconcileReport kFrameFlagResponse (encodeReconcileReport report).

Definition retireAck (message : RetireMessage) (retired : bool) : M unit :=
  m_reply FrameType.RetireAck kFrameFlagResponse
    (encodeRetireAck (mkRetireAckMessage (rt_deployment message) retired)).

Definition onRetire (bytes : list byte) : M unit :=
  let@ message := m_lift (decodeRetire bytes) in
  let@ s := get_state in
  if committed_set s
     && negb (num_lt (rt_generation message) (committedGeneration (as_commit s)))
  then retireAck message false
  else do@ destroyTransfer (rt_deployment message) in retireAck message true.

Definition onPing (bytes : list byte) : M unit :=
  let@ ping := m_lift (decodePing bytes) in
  m_reply FrameType.Pong kFrameFlagResponse (encodePong (mkPongMessage (pi_nonce ping))).

(** ** Dispatch *)

(** [true]: the session goes on. *)
Definition dispatch (session : Session) (frame : Frame) : M bool :=
  let bytes := fpayload frame in
  let handled (m : M unit) : M bool := do@ m in m_ret true in
  match ftype (header frame) with
  | FrameType.Prepare => handled (onPrepare bytes)
  | FrameType.Chunk => handled (onChunk bytes)
  | FrameType.TransferComplete => handled (onTransferComplete bytes)
  | FrameType.Stage => handled (onStage bytes)
  | FrameType.ApplyPrepare => handled (onApplyPrepare bytes)
  | FrameType.ApplyCommit => handled (onApplyCommit session bytes)
  | FrameType.ApplyAbort => handled (onApplyAbort bytes)
  | FrameType.ReconcileRequest => handled (onReconcileRequest bytes)
  | FrameType.Retire => handled (onRetire bytes)
  | FrameType.Ping => handled (onPing bytes)
  | FrameType.Goodbye => let@ _ := m_lift (decodeGoodbye bytes) in m_ret false
  | other =>
      m_lift (fail_detail ErrorCode.UnexpectedMessage "message is not valid on an agent session"
                (frameTypeName other))
  end.

(** ** The handshake *)

Definition refuseHandshake {A} (c : ErrorCode) (detail : string) : M A :=
  let@ _ := m_try (m_reply FrameType.AuthReject kFrameFlagResponse
                     (encodeAuthReject (mkAuthRejectMessage c detail))) in
  m_lift (fail c detail).

Definition fenceRecord (hello : HelloMessage) : Writer :=
  Write.num (he_epoch hello) +++ write_opaque (he_incarnation hello)
    +++ write_id (he_nodeId hello).

Definition helloAck (s : AgentState) (nonce : list byte) : HelloAckMessage :=
  let i := as_identity s in
  let c := as_commit s in
  mkHelloAckMessage kWireVersion (target i) (klass i) (guarantee i) (term i) (incarnation i)
    (mkOpaque nonce) kDefaultMaxPayloadBytes (capabilitiesFor (guarantee i))
    (committedGeneration c) (committedDigest c) (committedArtifact c) (restartCount i)
    (repeat Byte.x00 kAuthTagBytes).

(** The expected transcript: the sent acknowledgement under the confirmed tag. *)
Definition with_tag (payload tag : list byte) : list byte :=
  take (length payload - kAuthTagBytes) payload ++ tag.

Definition handshake : M Session :=
  let@ frame := m_receive in
  if negb (bool_decide (ftype (header frame) = FrameType.Hello)) then
    m_lift (fail_detail ErrorCode.UnexpectedMessage "expected a hello frame"
              (frameTypeName (ftype (header frame))))
  else
    let@ hello := m_lift (decodeHello (fpayload frame)) in
    let@ s := get_state in
    let fence := as_fence s in
    if (he_minWireVersion hello >? kWireVersion) || (he_maxWireVersion hello <? kWireVersion) then
      refuseHandshake ErrorCode.UnsupportedVersion "no mutually supported wire version"
    else if o_authenticate opts && negb (is_ok (verifyAuthenticated (fpayload frame) (o_key opts)))
    then
      refuseHandshake ErrorCode.Unauthenticated "peer authentication tag did not verify"
    else if num_isSet (lastControllerEpoch fence)
            && num_lt (he_epoch hello) (lastControllerEpoch fence) then
      refuseHandshake ErrorCode.StaleEpoch
        ("controller authority epoch is older than the accepted one: "
         +:+ to_string (value (he_epoch hello)) +:+ " < "
         +:+ to_string (value (lastControllerEpoch fence)))
    else if num_isSet (lastControllerEpoch fence)
            && bool_decide (he_epoch hello = lastControllerEpoch fence)
            && opaque_isSet (lastControllerIncarnation fence)
            && negb (bool_decide (he_incarnation hello = lastControllerIncarnation fence)) then
      refuseHandshake ErrorCode.FencedIncarnation
        "a different controller incarnation claims an already accepted epoch"
    else
      do@ m_commit JournalRecordType.AgentControllerFence (fenceRecord hello) in
      let session := mkSession (Z.min (he_maxPayloadBytes hello) kAbsoluteMaxPayloadBytes)
                       (he_epoch hello) (he_incarnation hello) (he_nodeId hello) in
      let@ s := get_state in
      let@ nonce := m_call (env_random env) in
      let@ encoded := m_lift (encodeHelloAck (helloAck s nonce)) in
      let@ encoded := m_lift (if o_authenticate opts then sealAuthenticated encoded (o_key opts)
                              else Ok encoded) in
      do@ m_send FrameType.HelloAck kFrameFlagResponse encoded in
      let@ confirmFrame := m_receive in
      if negb (bool_decide (ftype (header confirmFrame) = FrameType.HelloConfirm)) then
        m_lift (fail_detail ErrorCode.UnexpectedMessage "expected a hello-confirm frame"
                  (frameTypeName (ftype (header confirmFrame))))
      else
        let@ confirm := m_lift (decodeHelloConfirm (fpayload confirmFrame)) in
        if o_authenticate opts then
          if is_ok (verifyAuthenticated (with_tag encoded (hc_authTag confirm)) (o_key opts))
          then m_ret session
          else refuseHandshake ErrorCode.Unauthenticated
                 "controller failed to confirm the session transcript"
        else if any_nonzero (hc_authTag confirm)
        then refuseHandshake ErrorCode.Unauthenticated
               "authentication is disabled but the controller sent a tag"
        else m_ret session.

(** ** Serving one session *)

Fixpoint serve_loop (fuel : nat) (session : Session) : M unit :=
  match fuel with
  | O => m_ret tt
  | S fuel =>
      let@ received := m_try m_receive in
      match received with
      | Ok frame =>
          let@ keepGoing := dispatch session frame in
          if (keepGoing : bool) then serve_loop fuel session else m_ret tt
      | Fail e =>
          if bool_decide (code e = ErrorCode.PeerIdleTimeout)
             || bool_decide (code e = ErrorCode.ConnectionClosed)
          then m_ret tt else m_lift (Fail e)
      | Abort why => m_lift (Abort why)
      end
  end.

(** Every iteration takes a frame, so the length of the inbox is enough fuel. *)
Definition serve : M unit :=
  let@ session := handshake in
  let@ frames := m_get (λ w, length (w_inbox w)) in
  serve_loop (S frames) session.
End agent.
