(* ===== verification/AgentStart.v ===== *)
(** * Starting an agent

    Models [TargetAgent::open], [recoverLiveArea] and [readLivePointer] of
    src/agent.cpp: the durable state is opened, the new incarnation is
    recorded, and the live area and the state are brought back into
    agreement. The directory iterators are arguments ([env_listing]); their
    order is not specified. *)

From stdpp Require Import gmap sorting.
From Stdlib Require Import Strings.Ascii Strings.Byte.
From S2P Require Import Prelude Result StdMap Checked Hash Ids Text Codec Lifecycle Files Journal.
From S2P Require Import Snapshot Artifact FaultPlan AgentFiles Frame Records Messages.
From S2P Require Import State Store Agent.

Record LiveRecovery := mkLiveRecovery {
  rolledBackUnresolvedPrepare : bool;
  adoptedCompletedSwitch : bool;
  clearedUnverifiableCommit : bool;
  removedStagingFiles : Z;
  verifiedPayloads : Z;
  lr_detail : string;
}.
Definition LiveRecovery_default : LiveRecovery := mkLiveRecovery false false false 0 0 "".

Definition lr_rolledBack r := mkLiveRecovery true (adoptedCompletedSwitch r)
  (clearedUnverifiableCommit r) (removedStagingFiles r) (verifiedPayloads r) (lr_detail r).
Definition lr_adopted r := mkLiveRecovery (rolledBackUnresolvedPrepare r) true
  (clearedUnverifiableCommit r) (removedStagingFiles r) (verifiedPayloads r) (lr_detail r).
Definition lr_cleared r := mkLiveRecovery (rolledBackUnresolvedPrepare r)
  (adoptedCompletedSwitch r) true (removedStagingFiles r) (verifiedPayloads r) (lr_detail r).
Definition lr_removed r := mkLiveRecovery (rolledBackUnresolvedPrepare r)
  (adoptedCompletedSwitch r) (clearedUnverifiableCommit r) (removedStagingFiles r + 1)
  (verifiedPayloads r) (lr_detail r).
Definition lr_verified r := mkLiveRecovery (rolledBackUnresolvedPrepare r)
  (adoptedCompletedSwitch r) (clearedUnverifiableCommit r) (removedStagingFiles r)
  (verifiedPayloads r + 1) (lr_detail r).
Definition lr_note (text : string) r := mkLiveRecovery (rolledBackUnresolvedPrepare r)
  (adoptedCompletedSwitch r) (clearedUnverifiableCommit r) (removedStagingFiles r)
  (verifiedPayloads r) (lr_detail r +:+ text).

Section start.
Context (opts : AgentOptions) (env : Env).

Definition m_exists (path : string) : M bool :=
  m_get (λ w, bool_decide (is_Some (w_fs w !! path))).
Definition m_readPointer (path : string) : M (Result string) :=
  m_try (m_io (readLiveValue path)).

(** [readLivePointer]. *)
Definition readLivePointer (key : ConfigKey) : M (option (Generation * Digest)) :=
  let@ text := m_readPointer (currentPath (key_directory opts key)) in
  match text with
  | Ok text =>
      let@ parsed := m_lift (parsePointer text) in
      m_ret (Some (pv_generation parsed, pv_digest parsed))
  | _ => m_ret None
  end.

(** ** Staging files *)

Fixpoint removeStrays (paths : list string) (known : list string) (recovery : LiveRecovery)
    : M LiveRecovery :=
  match paths with
  | [] => m_ret recovery
  | path :: paths =>
      let name := filename path in
      let stem := default name (before ".part" name) in
      if bool_decide (stem ∈ known) then removeStrays paths known recovery
      else
        let@ fails := m_call (env_remove_fails env) in
        if (fails : bool) then removeStrays paths known recovery
        else
          do@ m_modify (λ w, set_fs (delete path (w_fs w)) w) in
          removeStrays paths known (lr_removed recovery)
  end.

(** Each transfer against the bytes on disk: what to discard, and what was cut
    back to the recorded resume point. *)
Fixpoint checkTransfers (records : list TransferRecord)
    : M (list DeploymentId * list TransferRecord) :=
  match records with
  | [] => m_ret ([], [])
  | record :: records =>
      let path := staging_path opts (tx_deployment record) in
      let@ onDisk := m_file_size path in
      let discard :=
        let@ (discarded, resized) := checkTransfers records in
        m_ret (tx_deployment record :: discarded, resized) in
      match onDisk with
      | None => discard
      | Some size =>
          if size <? tx_bytesReceived record then discard
          else if size >? tx_bytesReceived record then
            let@ fails := m_call (env_resize_fails env) in
            if (fails : bool) then discard
            else
              do@ m_modify (λ w, set_fs (alter (take (Z.to_nat (tx_bytesReceived record))) path
                                           (w_fs w)) w) in
              let@ (discarded, resized) := checkTransfers records in
              m_ret (discarded, record :: resized)
          else checkTransfers records
      end
  end.

Fixpoint discardTransfers (deployments : list DeploymentId) (recovery : LiveRecovery)
    : M LiveRecovery :=
  match deployments with
  | [] => m_ret recovery
  | deployment :: deployments =>
      do@ destroyTransfer opts env deployment in
      discardTransfers deployments
        (lr_note ("discarded-transfer=" +:+ str deployment +:+ " ") recovery)
  end.

Fixpoint checkpointAll (records : list TransferRecord) : M unit :=
  match records with
  | [] => m_ret tt
  | record :: records => do@ checkpointTransfer env record in checkpointAll records
  end.

(** ** Key directories *)

Definition clearCommit : M unit :=
  m_commit env JournalRecordType.AgentTargetCommit (commitRecord num_unset digest_unset id_empty).

(** Close the durable prepare window. *)
Definition resolveWindow : M unit :=
  let@ s := get_state in
  m_commit env JournalRecordType.AgentApplyResolved (resolvedRecord (activations (as_counters s))).

(** The prepare marker: the switch completed, or the window is rolled back. *)
Definition recoverMarker (directory : string) (live : option PointerValue)
    (recovery : LiveRecovery) : M LiveRecovery :=
  let@ s := get_state in
  let completed :=
    match live with
    | Some p => bool_decide (pv_generation p = preparedGeneration (as_window s))
                && bool_decide (pv_digest p = preparedDigest (as_window s))
    | None => false
    end in
  let@ recovery :=
    if completed then m_ret (lr_note "adopted-completed-switch=" (lr_adopted recovery))
    else
      do@ m_count env count_rollback in
      m_ret (lr_note "aborted-unresolved-prepare=" (lr_rolledBack recovery)) in
  do@ m_remove env (pendingPath directory) in
  let@ s := get_state in
  do@ m_when (applyPrepared (as_window s)) resolveWindow in
  m_ret (lr_note (directory +:+ " ") recovery).

(** The live pointer decides what is committed. *)
Definition recoverPointer (directory : string) (live : option PointerValue)
    (recovery : LiveRecovery) : M LiveRecovery :=
  match live with
  | Some p =>
      let path := payloadPath directory (pv_generation p) (pv_digest p) in
      let@ verified :=
        if o_verifyCommittedPayloadOnStart opts then
          let@ actual := m_try (m_hash env path 0) in m_ret (hash_matches actual (pv_digest p))
        else m_ret true in
      let recovery :=
        if o_verifyCommittedPayloadOnStart opts then lr_verified recovery else recovery in
      let@ s := get_state in
      let c := as_commit s in
      let alreadyCommitted :=
        bool_decide (pv_generation p = committedGeneration c)
        && bool_decide (pv_digest p = committedDigest c) && committed_set s in
      if negb verified then
        do@ clearCommit in
        m_ret (lr_note ("unverifiable-payload=" +:+ path +:+ " ") (lr_cleared recovery))
      else if negb alreadyCommitted then
        do@ m_commit env JournalRecordType.AgentTargetCommit
              (commitRecord (pv_generation p) (pv_digest p) (pv_artifact p)) in
        m_ret (lr_note ("adopted-live-pointer=" +:+ directory +:+ " ") (lr_adopted recovery))
      else m_ret recovery
  | None =>
      let@ s := get_state in
      if committed_set s then
        do@ clearCommit in
        m_ret (lr_note ("missing-live-pointer=" +:+ directory +:+ " ") (lr_cleared recovery))
      else m_ret recovery
  end.

(** The usable live pointer of a directory; an unreadable one is removed. *)
Definition readUsable (directory : string) (recovery : LiveRecovery)
    : M (option PointerValue * LiveRecovery) :=
  let@ pointer := m_readPointer (currentPath directory) in
  match pointer with
  | Ok text =>
      match parsePointer text with
      | Ok parsed => m_ret (Some parsed, recovery)
      | _ =>
          do@ m_remove env (currentPath directory) in
          m_ret (None, lr_note ("unreadable-live-pointer=" +:+ directory +:+ " ")
                         (lr_cleared recovery))
      end
  | _ => m_ret (None, recovery)
  end.

Definition recoverDirectory (directory : string) (recovery : LiveRecovery) : M LiveRecovery :=
  let@ currentPresent := m_exists (currentPath directory) in
  let@ pendingPresent := m_exists (pendingPath directory) in
  if negb currentPresent && negb pendingPresent then m_ret recovery
  else if bool_decide (filename directory = "payload") then m_ret recovery
  else
    let@ (live, recovery) := readUsable directory recovery in
    let@ recovery :=
      if (pendingPresent : bool) then recoverMarker directory live recovery
      else m_ret recovery in
    recoverPointer directory live recovery.

Fixpoint recoverDirectories (directories : list string) (recovery : LiveRecovery)
    : M LiveRecovery :=
  match directories with
  | [] => m_ret recovery
  | directory :: directories =>
      let@ recovery := recoverDirectory directory recovery in
      recoverDirectories directories recovery
  end.

(** A durable prepare marker with no live area behind it is an abort. *)
Definition recoverWindow (recovery : LiveRecovery) : M LiveRecovery :=
  let@ s := get_state in
  if applyPrepared (as_window s) then
    do@ m_count env count_rollback in
    do@ resolveWindow in
    m_ret (lr_rolledBack recovery)
  else m_ret recovery.

(** The staged files and the transfer records. *)
Definition recoverTransfers (recovery : LiveRecovery) : M LiveRecovery :=
  let@ s := get_state in
  let@ listing := m_call (env_listing env) in
  let@ strays :=
    m_get (λ w, filter (λ p, direct_child (stagingRoot opts) p = true ∧ is_Some (w_fs w !! p))
                  (map fst listing)) in
  let@ recovery :=
    removeStrays strays
      (map (λ e : DeploymentId * TransferRecord, str e.1) (as_transfers s)) recovery in
  let@ (discarded, resized) := checkTransfers (map snd (as_transfers s)) in
  let@ recovery := discardTransfers discarded recovery in
  do@ checkpointAll resized in
  m_ret recovery.

Definition recoverLiveArea (recovery : LiveRecovery) : M LiveRecovery :=
  let@ recovery := recoverTransfers recovery in
  let@ directories := m_call (env_listing env) in
  let@ recovery := recoverDirectories (map fst directories) recovery in
  recoverWindow recovery.

(** ** Opening *)

Definition store_options : StoreOptions :=
  mkStoreOptions (o_stateDirectory opts) "agent" (4 * 1024 * 1024).

(** A state that another target, class or guarantee left behind. *)
Definition checkIdentity (s : AgentState) : Status :=
  let i := as_identity s in
  if id_isSet (target i) && negb (bool_decide (target i = o_target opts))
  then fail_detail ErrorCode.Conflict "durable agent state belongs to a different target"
         (str (target i) +:+ " != " +:+ str (o_target opts))
  else if num_isSet (term i) && negb (bool_decide (klass i = o_klass opts))
  then fail ErrorCode.Conflict "durable agent state declares a different target class"
  else if num_isSet (term i) && negb (bool_decide (guarantee i = o_guarantee opts))
  then fail ErrorCode.GuaranteeUnsupported
         ("durable agent state declares a different apply guarantee; changing it would silently "
          +:+ "change what activation means for this target")
  else Ok tt.

Definition identityRecord (nextTerm nextRestarts : Z) (incarnation : list byte) : Writer :=
  write_id (o_target opts) +++ write_enum8 (o_klass opts) +++ write_enum8 (o_guarantee opts)
    +++ Write.u64 nextTerm +++ Write.opaque128 incarnation +++ Write.u32 nextRestarts.

(** From the opened store on; [ro] is the outcome of a compaction. *)
Definition start (ro : RestartOutcome) : M LiveRecovery :=
  let@ s := get_state in
  do@ m_lift (checkIdentity s) in
  let@ nextTerm :=
    m_lift (match checkedAdd 64 (value (term (as_identity s))) 1 with
            | Some t => Ok t
            | None => fail ErrorCode.ArithmeticOverflow "agent term exhausted"
            end) in
  let@ nextRestarts :=
    m_lift (match checkedAdd 32 (restartCount (as_identity s)) 1 with
            | Some n => Ok n
            | None => fail ErrorCode.ArithmeticOverflow "agent restart counter exhausted"
            end) in
  let@ incarnation := m_call (env_random env) in
  do@ m_commit env JournalRecordType.AgentIdentity
        (identityRecord nextTerm nextRestarts incarnation) in
  let@ recovery := recoverLiveArea LiveRecovery_default in
  let@ faults := m_call (env_write env) in
  let@ suffix := m_call (env_random env) in
  do@ (λ w, let '(fs, st, r) := compactIfNeeded faults suffix ro (w_store w) (w_fs w) in
            (set_store st (set_fs fs w), r)) in
  m_ret recovery.

Definition new_world (fs : FileSystem) (st : Store AgentState) (calls : nat) : World :=
  mkWorld fs st [] [] 0 false calls.

(** [TargetAgent::open]; [ho] and [so] are the outcomes of creating the
    journal, [cs] where the process ends at a journal torn in a payload. *)
Definition agent_open (ho : WriteOutcome) (so ro : RestartOutcome) (cs : ClosedStream)
    (fs : FileSystem)
    : FileSystem * Result (World * StoreRecovery * LiveRecovery) :=
  if decide (o_stateDirectory opts = "")
  then (fs, fail ErrorCode.InvalidArgument "agent state directory must not be empty")
  else if negb (id_isSet (o_target opts))
  then (fs, fail ErrorCode.InvalidArgument "agent target id must be set")
  else if (o_maxArtifactBytes opts =? 0) || (o_retainedPayloadsPerKey opts =? 0)%nat
  then (fs, fail ErrorCode.InvalidArgument "agent bounds must be non-zero")
  else if env_mkdir_fails env 0
  then (fs, fail_detail ErrorCode.OpenFailed "cannot create the live configuration area"
              (liveRoot opts))
  else if env_mkdir_fails env 1
  then (fs, fail_detail ErrorCode.OpenFailed "cannot create the staging area"
              (stagingRoot opts))
  else
    let '(fs1, opened) := store_open ho so cs store_options fs in
    match opened with
    | Fail e => (fs1, Fail e)
    | Abort why => (fs1, Abort why)
    | Ok (st, recovery) =>
        let '(w, started) := start ro (new_world fs1 st 2) in
        (w_fs w,
         let* live := started in Ok (w, recovery, live))
    end.
End start.
