(* ===== verification/AgentExample.v ===== *)
(** * A small agent to run

    An agent on a fresh directory, an operating system that never fails, and
    the messages of one delivery: the concrete inputs of the examples and
    witnesses of the agent files. *)

From stdpp Require Import gmap.
From Stdlib Require Import Strings.Byte.
From S2P Require Import Prelude Result StdMap Hash Ids Codec Lifecycle Files Journal Snapshot.
From S2P Require Import Artifact FaultPlan AgentFiles Frame Records Messages Protocol State Store.
From S2P Require Import Agent AgentStart.

(** Every call succeeds; the directory iterators report [listing]. *)
Definition calm_env (listing : list (string * Z)) : Env :=
  mkEnv kDefaultMaxPayloadBytes (λ _, Written) (λ _, no_faults) (λ _, no_copy_faults)
    (λ _, no_chunk_faults) (λ _, false) (λ _, false) (λ _, false) (λ _, false) (λ _, None)
    (λ _, repeat Byte.x11 16) (λ _, 1700000000000) (λ _, listing).

Definition example_agent (guarantee : ApplyGuarantee) : AgentOptions :=
  mkAgentOptions "s" "" (mkString "t1") TargetClass.NetworkDevice guarantee 1048576 4
    [Byte.x41] true true [].

Definition empty_world : World :=
  new_world ∅ (mkStore (mkStoreOptions "" "" 0) (mkJournal "" 0 num_unset 0) AgentState_default
                 false) 0.

(** The agent after [TargetAgent::open] on an empty directory. *)
Definition opened_world (guarantee : ApplyGuarantee) : World :=
  match (agent_open (example_agent guarantee) (calm_env []) Written (Restarted Written)
           (Restarted Written) EndsInClose ∅).2 with
  | Ok (w, _, _) => w
  | _ => empty_world
  end.

Definition example_session : Session :=
  mkSession 1048576 (fromValue 1) (mkOpaque (repeat Byte.x01 16)) (mkString "n1").

(** The frame that carries a message. *)
Definition frame_of (m : ProtocolMessage) : Frame :=
  match encodeMessage m with
  | Ok bytes => mkFrame (frame_header (message_type m) 0 bytes) bytes
  | _ => mkFrame (frame_header (message_type m) 0 []) []
  end.

Fixpoint deliver (opts : AgentOptions) (env : Env) (session : Session) (frames : list Frame)
    : M unit :=
  match frames with
  | [] => m_ret tt
  | frame :: frames =>
      let@ _ := dispatch opts env session frame in deliver opts env session frames
  end.

(** One delivery: [key], generation and content. *)
Section messages.
Context (deployment : DeploymentId) (key : ConfigKey) (artifact : ArtifactId).
Context (generation : Generation) (stream : StreamId) (content : list byte).
Abbreviation digest := (Digest_ofContent content).

Definition example_prepare : PrepareMessage :=
  mkPrepareMessage deployment key artifact generation digest (zlen content) (mkString "schema")
    (fromValue 1) GuaranteeRequirement.AllowPrepareCommit ApplyGuarantee.AtomicActivate
    (fromValue 1) (fromValue 1) stream 1024 0.
Definition example_transfer : list ProtocolMessage :=
  [ MPrepare example_prepare;
    MChunk (mkChunkMessage stream (fromValue 1) 0 content);
    MTransferComplete (mkTransferCompleteMessage deployment stream digest (zlen content));
    MStage (mkStageMessage deployment stream generation digest) ].
Definition example_apply_prepare : ProtocolMessage :=
  MApplyPrepare (mkApplyPrepareMessage deployment generation digest).
Definition example_commit : ProtocolMessage :=
  MApplyCommit (mkApplyCommitMessage deployment generation digest).
End messages.

Definition example_content : list byte := bytes_of_string "hello".
Definition example_delivery : list ProtocolMessage :=
  example_transfer (mkString "d1") (mkString "k1") (mkString "a1") (fromValue 5) (fromValue 7)
    example_content.

(** The world after the first four messages of the delivery. *)
Definition staged_world (guarantee : ApplyGuarantee) : World :=
  (deliver (example_agent guarantee) (calm_env []) example_session (map frame_of example_delivery)
     (opened_world guarantee)).1.

Definition commit_frame : Frame :=
  frame_of (example_commit (mkString "d1") (fromValue 5) example_content).

(** The whole delivery ends with the acknowledged activation. *)
Example example_delivery_runs :
  let '(w, r) := deliver (example_agent ApplyGuarantee.AtomicActivate) (calm_env []) example_session
                   [commit_frame] (staged_world ApplyGuarantee.AtomicActivate) in
  r = Ok tt
  ∧ map m_type (w_sent w)
    = [FrameType.PrepareAck; FrameType.ChunkAck; FrameType.TransferResult; FrameType.StageAck;
       FrameType.ApplyCommitAck; FrameType.DeliveryAck]
  ∧ w_fs w !! "s/live/k1/current"
    = Some (bytes_of_string (pointerText (fromValue 5) (Digest_ofContent example_content)
              (mkString "a1")))
  ∧ w_fs w !! "s/live/k1/payload/5-2cf24dba5fb0.cfg" = Some example_content.
Proof. vm_compute. repeat split. Qed.
