(* ===== verification/AgentEffects.v ===== *)
(** * The journal records of the agent

    What each record the agent writes does to its state when it is applied:
    the writers of src/agent.cpp against [Agent_apply] of src/state.cpp. *)

From stdpp Require Import gmap.
From Stdlib Require Import Strings.Byte.
From S2P Require Import Prelude Result StdMap Hash Ids Codec Lifecycle Files Journal Artifact.
From S2P Require Import Records Messages State Store AgentFiles FaultPlan Agent.

(** ** Running a step on what a writer wrote *)

Definition runs {S} (step : Step S unit) (w : Writer) (f : S → S) : Prop :=
  ∃ bs, w = Ok bs ∧
    ∀ s r rest, pending r = bs ++ rest → step s r = (f s, Ok (tt, advance (length bs) r)).

Section runs.
Context {S : Type}.

Lemma runs_set (f : S → S) : runs (st_set f) (Ok []) f.
Proof. exists []. split; [done|]. intros s r rest _. unfold st_set. by rewrite advance_0. Qed.

Lemma runs_set_bind (f g : S → S) (k : Step S unit) w :
  runs k w g → runs (st_bind (st_set f) (λ _, k)) w (λ s, g (f s)).
Proof.
  intros (bs & -> & Hk). exists bs. split; [done|]. intros s r rest Hr.
  unfold st_bind, st_set. by rewrite (Hk _ _ _ Hr).
Qed.

Lemma runs_read {A} (p : Parser A) (k : A → Step S unit) w1 w2 a f :
  reads_back p w1 a → runs (k a) w2 f → runs (st_bind (st_read p) k) (w1 +++ w2) f.
Proof.
  intros (bs1 & -> & Hp) (bs2 & -> & Hk). exists (bs1 ++ bs2). split; [done|].
  intros s r rest Hr. rewrite <- app_assoc in Hr. unfold st_bind, st_read.
  rewrite (Hp _ _ Hr). rewrite (Hk _ _ rest) by (by apply pending_app).
  by rewrite advance_advance, length_app.
Qed.

Lemma runs_read_last {A} (p : Parser A) (k : A → Step S unit) w a f :
  reads_back p w a → runs (k a) (Ok []) f → runs (st_bind (st_read p) k) w f.
Proof.
  intros Hp Hk. destruct (runs_read p k w (Ok []) a f Hp Hk) as (bs & Hw & H). exists bs.
  split; [|done]. destruct Hp as (bs1 & -> & _). unfold w_append, try_bind in Hw.
  by rewrite app_nil_r in Hw.
Qed.

Lemma runs_check ok e (k : Step S unit) w f :
  ok = true → runs k w f → runs (st_bind (st_read (p_check ok e)) (λ _, k)) w f.
Proof. intros -> (bs & -> & Hk). exists bs. split; [done|]. intros s r rest Hr. by apply (Hk _ _ rest). Qed.

Lemma runs_ext (step : Step S unit) w f g : (∀ s, f s = g s) → runs step w f → runs step w g.
Proof.
  intros Hfg (bs & -> & H). exists bs. split; [done|]. intros s r rest Hr. by rewrite <- Hfg, (H _ _ _ Hr).
Qed.

Lemma runs_apply (step : Step S unit) w f :
  runs step w f → ∃ bs, w = Ok bs ∧ ∀ s, run_apply step s bs = (f s, Ok tt).
Proof.
  intros (bs & -> & H). exists bs. split; [done|]. intros s. unfold run_apply.
  rewrite (H s (reader bs) []) by (by rewrite app_nil_r). simpl. by rewrite requireEnd_all.
Qed.
End runs.

Ltac runs_step :=
  lazymatch goal with
  | |- runs (st_bind (st_read (p_check _ _)) _) _ _ => apply runs_check; [try done|]
  | |- runs (st_bind (st_set _) _) _ _ => apply runs_set_bind
  | |- runs (st_set _) _ _ => apply runs_set
  | |- runs (st_bind (st_read ?p) _) (_ +++ _) _ =>
      let I := constr:(_ : Wire _ p _) in
      eapply runs_read; [eapply (@wire_complete _ _ _ _ I); wire_side|cbn beta]
  | |- runs (st_bind (st_read ?p) _) _ _ =>
      let I := constr:(_ : Wire _ p _) in
      eapply runs_read_last; [eapply (@wire_complete _ _ _ _ I); wire_side|cbn beta]
  end.

(** [type] with the bytes of [w] changes the state by [f]. *)
Definition applies (type : JournalRecordType) (w : Writer) (f : AgentState → AgentState) : Prop :=
  ∃ bs, w = Ok bs ∧ ∀ s, Agent_apply s type bs = (f s, Ok tt).

Ltac applies_record :=
  unfold applies, Agent_apply; apply runs_apply; cbn [Agent_apply_step];
  eapply runs_ext; [|repeat runs_step]; cbn beta;
  try (intros []; reflexivity).

Lemma id_valid_isSet {Tag} (i : StrongString Tag) : id_valid i → id_isSet i = true.
Proof.
  unfold id_valid, id_isSet. intros Hi. rewrite bool_decide_eq_false_2; [done|]. intros E.
  by rewrite E in Hi.
Qed.

(** ** The records *)

Definition set_notes (n : AgentCounters) (m : AgentCounters) : AgentCounters :=
  mkCounters (activations m) (duplicatesSuppressed n) (staleOffersRefused n)
    (digestRejections n) (applyRollbacks n).

Lemma applies_note s :
  agent_wf s →
  applies JournalRecordType.AgentRollbackNote (rollbackPayload s)
    (upd_counters (set_notes (as_counters s))).
Proof.
  intros []. unfold rollbackPayload. applies_record.
Qed.

Definition assign_transfer (r : TransferRecord) : AgentState → AgentState :=
  upd_transfers (map_assign (tx_deployment r) r).

Lemma applies_transfer r :
  transfer_wf r →
  applies JournalRecordType.AgentTransferUpsert (writeTransferRecord r) (assign_transfer r).
Proof. intros Hr. applies_record. Qed.

Lemma applies_remove (deployment : DeploymentId) :
  id_valid deployment →
  applies JournalRecordType.AgentTransferRemove (write_id deployment)
    (upd_transfers (map_erase deployment)).
Proof. intros Hd. applies_record. Qed.

Lemma applies_finding f :
  finding_wf f →
  applies JournalRecordType.AgentFindingUpsert (writeAppliedFinding f)
    (upd_findings (upsert_finding f)).
Proof. intros Hf. applies_record. Qed.

Definition opened_window (r : TransferRecord) : ApplyWindow :=
  mkWindow true (tx_deployment r) (tx_generation r) (tx_digest r).

Lemma applies_prepared r :
  transfer_wf r →
  applies JournalRecordType.AgentApplyPrepared (prepareRecord r)
    (upd_window (λ _, opened_window r)).
Proof. intros []. unfold prepareRecord. applies_record. Qed.

Definition resolve_window (count : Z) (s : AgentState) : AgentState :=
  upd_counters (λ n, mkCounters count (duplicatesSuppressed n) (staleOffersRefused n)
                       (digestRejections n) (applyRollbacks n))
    (upd_window (λ _, closed_window) s).

Lemma applies_resolved count :
  fits 64 count →
  applies JournalRecordType.AgentApplyResolved (resolvedRecord count) (resolve_window count).
Proof. intros Hc. unfold resolvedRecord. applies_record. Qed.

(** An empty artifact keeps the previous one. *)
Definition commit_to (generation : Generation) (digest : Digest) (artifact : ArtifactId)
    (c : TargetCommit) : TargetCommit :=
  mkCommit generation digest (if id_isSet artifact then artifact else committedArtifact c).

Lemma applies_commit generation digest (artifact : ArtifactId) :
  fits 64 (value generation) → digest_wf digest → id_optional artifact →
  applies JournalRecordType.AgentTargetCommit (commitRecord generation digest artifact)
    (upd_commit (commit_to generation digest artifact)).
Proof.
  intros Hg Hd Ha. unfold commitRecord. applies_record. unfold commit_to.
  by destruct (id_isSet artifact).
Qed.

Definition fence_to (hello : HelloMessage) : ControllerFence :=
  mkFence (he_epoch hello) (he_incarnation hello) (he_nodeId hello).

Lemma applies_fence hello :
  hello_wf hello →
  applies JournalRecordType.AgentControllerFence (fenceRecord hello)
    (upd_fence (λ _, fence_to hello)).
Proof.
  intros []. pose proof (valid_optional _ hew_nodeId). unfold fenceRecord. applies_record.
  intros []. rewrite (id_valid_isSet _ hew_nodeId). reflexivity.
Qed.
