(* ===== verification/AgentLogic.v ===== *)
(** * A program logic for the agent

    Triples over what a handler can change (the files and the durable store),
    the invariant of a running agent, and the proof that every handler except
    the commit keeps the invariant and leaves alone what is activated: the
    committed generation, the recorded findings, the live pointers. *)

From stdpp Require Import gmap.
From Stdlib Require Import Strings.Byte.
From S2P Require Import Prelude Result StdMap Checked Hash Ids Text Codec Lifecycle Files Journal.
From S2P Require Import Snapshot Artifact FaultPlan AgentFiles AgentPaths Frame Records Messages.
From S2P Require Import Protocol State Store Agent AgentEffects.

(** ** Triples *)

Definition Assertion : Type := FileSystem → Store AgentState → Prop.

Definition hoare {A} (P : Assertion) (m : M A) (Q : Result A → Assertion) : Prop :=
  ∀ w, P (w_fs w) (w_store w) → Q (m w).2 (w_fs (m w).1) (w_store (m w).1).
Abbreviation keeps P m := (hoare P m (λ _, P)).

(** [m] touches neither the files nor the store. *)
Definition quiet {A} (m : M A) : Prop :=
  ∀ w, w_fs (m w).1 = w_fs w ∧ w_store (m w).1 = w_store w.

Section rules.
Context {A B : Type}.
Implicit Types P : Assertion.

Lemma hoare_pre P P' (m : M A) Q : (∀ fs st, P fs st → P' fs st) → hoare P' m Q → hoare P m Q.
Proof. intros Hp Hm w Hw. by apply Hm, Hp. Qed.

(** A fact that does not depend on the files or the store. *)
Lemma hoare_pure P (φ : Prop) (m : M A) Q :
  (φ → hoare P m Q) → hoare (λ fs st, P fs st ∧ φ) m Q.
Proof. intros Hm w [Hp Hφ]. by apply Hm. Qed.

(** What the precondition implies. *)
Lemma hoare_derive P (φ : Prop) (m : M A) Q :
  (∀ fs st, P fs st → φ) → (φ → hoare P m Q) → hoare P m Q.
Proof. intros Hφ Hm w Hw. apply (Hm (Hφ _ _ Hw) w Hw). Qed.

Lemma hoare_post P (m : M A) Q Q' :
  (∀ r fs st, Q r fs st → Q' r fs st) → hoare P m Q → hoare P m Q'.
Proof. intros Hq Hm w Hw. by apply Hq, Hm. Qed.

Lemma hoare_bind P (m : M A) (k : A → M B) Q R :
  hoare P m Q → (∀ a, hoare (Q (Ok a)) (k a) R) →
  (∀ e fs st, Q (Fail e) fs st → R (Fail e) fs st) →
  (∀ why fs st, Q (Abort why) fs st → R (Abort why) fs st) →
  hoare P (m_bind m k) R.
Proof.
  intros Hm Hk Hf Ha w Hw. specialize (Hm w Hw). unfold m_bind.
  destruct (m w) as [w' [a|e|why]]; simpl in *; [by apply Hk|by apply Hf|by apply Ha].
Qed.

Lemma keeps_bind P (m : M A) (k : A → M B) :
  keeps P m → (∀ a, keeps P (k a)) → keeps P (m_bind m k).
Proof. intros Hm Hk. by eapply hoare_bind. Qed.

(** The state that was read is the current one in the continuation. *)
Lemma hoare_state P (k : AgentState → M B) Q :
  (∀ s, hoare (λ fs st, P fs st ∧ state_ st = s) (k s) Q) → hoare P (m_bind get_state k) Q.
Proof. intros Hk w Hw. unfold m_bind, get_state, m_get. simpl. by apply (Hk (w_state w) w). Qed.

Lemma keeps_lift P (r : Result A) : keeps P (m_lift r).
Proof. by intros w Hw. Qed.
Lemma keeps_ret P (a : A) : keeps P (m_ret a).
Proof. by intros w Hw. Qed.

(** A value that is lifted is known in the continuation. *)
Lemma keeps_lift_bind P (r : Result A) (k : A → M B) :
  (∀ a, r = Ok a → keeps P (k a)) → keeps P (m_bind (m_lift r) k).
Proof. intros Hk w Hw. unfold m_bind, m_lift. destruct r as [a| |]; [by apply Hk|done..]. Qed.
Lemma hoare_lift_bind P (r : Result A) (k : A → M B) (Q : Assertion) :
  (∀ fs st, P fs st → Q fs st) →
  (∀ a, r = Ok a → hoare P (k a) (λ _, Q)) → hoare P (m_bind (m_lift r) k) (λ _, Q).
Proof.
  intros Hp Hk w Hw. unfold m_bind, m_lift. destruct r as [a| |]; [by apply Hk|by apply Hp..].
Qed.

Lemma hoare_try P (m : M A) Q :
  hoare P m Q →
  hoare P (m_try m) (λ r, match r with
                          | Ok inner => Q inner
                          | Fail _ => λ _ _, False
                          | Abort why => Q (Abort why)
                          end).
Proof.
  intros Hm w Hw. specialize (Hm w Hw). unfold m_try.
  by destruct (m w) as [w' [a|e|why]].
Qed.
Lemma keeps_try P (m : M A) : keeps P m → keeps P (m_try m).
Proof.
  intros Hm w Hw. specialize (Hm w Hw). unfold m_try. by destruct (m w) as [w' [a|e|why]].
Qed.

(** Weakening the assertion of a computation that keeps the weaker one. *)
Lemma hoare_weaken P (Q : Assertion) (m : M A) :
  (∀ fs st, P fs st → Q fs st) → keeps Q m → hoare P m (λ _, Q).
Proof. intros Hpq Hm w Hw. by apply Hm, Hpq. Qed.

Lemma hoare_bind_weaken P (Q : Assertion) (m : M A) (k : A → M B) :
  hoare P m (λ _, Q) → (∀ a, keeps Q (k a)) → hoare P (m_bind m k) (λ _, Q).
Proof. intros Hm Hk. by eapply hoare_bind. Qed.

Lemma quiet_keeps P (m : M A) : quiet m → keeps P m.
Proof. intros Hm w Hw. by destruct (Hm w) as [-> ->]. Qed.

Lemma quiet_bind (m : M A) (k : A → M B) : quiet m → (∀ a, quiet (k a)) → quiet (m_bind m k).
Proof.
  intros Hm Hk w. unfold m_bind. specialize (Hm w).
  destruct (m w) as [w' [a|e|why]]; [|done..]. destruct (Hk a w') as [-> ->]. done.
Qed.
Lemma quiet_lift (r : Result A) : quiet (m_lift r).
Proof. done. Qed.
Lemma quiet_ret (a : A) : quiet (m_ret a).
Proof. done. Qed.
Lemma quiet_call (f : nat → A) : quiet (m_call f).
Proof. done. Qed.
Lemma quiet_get (f : World → A) : quiet (m_get f).
Proof. done. Qed.
Lemma quiet_try (m : M A) : quiet m → quiet (m_try m).
Proof. intros Hm w. specialize (Hm w). unfold m_try. by destruct (m w) as [w' [a|e|why]]. Qed.
End rules.

Lemma quiet_when b m : quiet m → quiet (m_when b m).
Proof. by destruct b. Qed.
Lemma keeps_when (P : Assertion) b m : keeps P m → keeps P (m_when b m).
Proof. destruct b; [done|]. intros _. apply keeps_ret. Qed.
Lemma quiet_state : quiet get_state.
Proof. done. Qed.
Lemma quiet_crash : quiet crashNow.
Proof. done. Qed.

Create HintDb agent discriminated.
#[export] Hint Constants Opaque : agent.
#[export] Hint Resolve quiet_bind quiet_lift quiet_ret quiet_call quiet_get quiet_try quiet_when
  quiet_state quiet_crash : agent.
#[export] Hint Resolve keeps_ret keeps_lift : agent.

(** Step through a computation that keeps an assertion. *)
Ltac step_quiet := apply quiet_keeps; auto with agent.
Ltac step_lift := apply keeps_lift_bind; intros ? ?.

Section quiet.
Context (opts : AgentOptions) (env : Env).

Lemma quiet_send type flags payload : quiet (m_send env type flags payload).
Proof.
  unfold m_send. apply quiet_bind; [apply quiet_lift|intros _].
  apply quiet_bind; [apply quiet_call|]. by intros [e|].
Qed.
Lemma quiet_reply type flags encoded : quiet (m_reply env type flags encoded).
Proof. unfold m_reply. apply quiet_bind; [apply quiet_lift|]. intros ?. apply quiet_send. Qed.
Lemma quiet_receive : quiet m_receive.
Proof. intros w. unfold m_receive. by destruct (w_inbox w). Qed.
Lemma quiet_fault point : quiet (m_fault opts point).
Proof. unfold m_fault. auto with agent. Qed.
Lemma quiet_now : quiet (m_now env).
Proof. unfold m_now. auto with agent. Qed.
Lemma quiet_hash path n : quiet (m_hash env path n).
Proof.
  unfold m_hash. apply quiet_bind; [apply quiet_call|]. intros fails w. unfold m_io, hashStagingFile.
  by destruct (w_fs w !! path).
Qed.
Lemma quiet_file_size path : quiet (m_file_size path).
Proof. unfold m_file_size. auto with agent. Qed.
Lemma quiet_chunkCounter f : quiet (m_modify (λ w, set_chunkCounter (f w) w)).
Proof. done. Qed.
Lemma quiet_closed b : quiet (m_modify (set_closed b)).
Proof. done. Qed.
Lemma quiet_sendNack dep key g d c detail : quiet (sendNack env dep key g d c detail).
Proof. unfold sendNack. apply quiet_bind; [apply quiet_get|intros ?]. apply quiet_reply. Qed.
Lemma quiet_sendAck se dep key g d x n b : quiet (sendAck opts env se dep key g d x n b).
Proof.
  unfold sendAck. case_match; [apply quiet_ret|].
  apply quiet_bind; [apply quiet_get|intros ?]. apply quiet_bind; [apply quiet_now|intros ?].
  apply quiet_reply.
Qed.
Lemma quiet_refusePrepare message c detail x : quiet (refusePrepare env message c detail x).
Proof. unfold refusePrepare. apply quiet_bind; [apply quiet_get|intros ?]. apply quiet_reply. Qed.
Lemma quiet_refuseCommit s message key c d d' : quiet (refuseCommit env s message key c d d').
Proof.
  unfold refuseCommit. apply quiet_bind; [apply quiet_reply|intros _]. apply quiet_sendNack.
Qed.
Lemma quiet_suppressCommit se s message d : quiet (suppressCommit opts env se s message d).
Proof.
  unfold suppressCommit. apply quiet_bind; [apply quiet_reply|intros _]. apply quiet_sendAck.
Qed.
Lemma quiet_refuseHandshake {A} c d : quiet (refuseHandshake (A := A) env c d).
Proof.
  unfold refuseHandshake. apply quiet_bind; [apply quiet_try, quiet_reply|intros _]. apply quiet_lift.
Qed.
End quiet.
#[export] Hint Resolve quiet_send quiet_reply quiet_receive quiet_fault quiet_now quiet_hash
  quiet_file_size quiet_chunkCounter quiet_closed quiet_sendNack quiet_sendAck quiet_refusePrepare
  quiet_refuseCommit quiet_suppressCommit quiet_refuseHandshake : agent.
#[export] Hint Extern 1 (quiet (chunkAck _ _ _ _ _)) => unfold chunkAck : agent.
#[export] Hint Extern 1 (quiet (transferResult _ _ _ _ _ _)) => unfold transferResult : agent.
#[export] Hint Extern 1 (quiet (stageAck _ _ _ _ _)) => unfold stageAck : agent.
#[export] Hint Extern 1 (quiet (applyPrepareAck _ _ _ _ _)) => unfold applyPrepareAck : agent.
#[export] Hint Extern 1 (quiet (applyAbortAck _ _ _ _ _)) => unfold applyAbortAck : agent.
#[export] Hint Extern 1 (quiet (applyCommitAck _ _)) => unfold applyCommitAck : agent.
#[export] Hint Extern 1 (quiet (retireAck _ _ _)) => unfold retireAck : agent.
