(* ===== verification/AgentInv.v ===== *)
(** * The invariant of a running agent

    [inv]: what every message handler keeps, whatever the operating system
    answers. [untouched]: what no handler but the commit changes. *)

From stdpp Require Import gmap.
From Stdlib Require Import Strings.Byte.
From S2P Require Import Prelude Result StdMap Checked Hash Ids Text Codec Lifecycle Files Journal.
From S2P Require Import Snapshot Artifact FaultPlan AgentFiles AgentPaths Frame Records Messages.
From S2P Require Import Protocol State Store Agent AgentStart AgentEffects AgentLogic.

(** ** States *)

(** A transfer as the handlers leave it: staged only after verification,
    verified only when every declared byte was received. *)
Record transfer_ok (r : TransferRecord) : Prop := {
  to_generation : num_isSet (tx_generation r) = true;
  to_staged : tx_staged r = true → tx_verified r = true;
  to_verified : tx_verified r = true → tx_bytesReceived r = tx_totalBytes r;
  to_total : tx_totalBytes r ≠ 0;
}.

Record state_ok (s : AgentState) : Prop := {
  so_wf : agent_wf s;
  so_transfers : Forall (λ e, transfer_ok e.2) (as_transfers s);
  so_findings : Forall (λ f, num_isSet (fd_generation f) = true) (as_findings s);
  so_window : guarantee (as_identity s) = ApplyGuarantee.AtomicActivate →
              applyPrepared (as_window s) = false;
}.

Section inv.
Context (opts : AgentOptions).
Abbreviation staging := (staging_path opts).
Abbreviation directory_of := (key_directory opts).

(** The bytes staged for a verified transfer are the declared content. *)
Definition staging_ok (fs : FileSystem) (s : AgentState) : Prop :=
  ∀ deployment r content,
    map_find deployment (as_transfers s) = Some r → tx_verified r = true →
    fs !! staging deployment = Some content → Digest_ofContent content = tx_digest r.

(** A payload in the live area hashes to the digest in its name. *)
Definition payload_ok (fs : FileSystem) : Prop :=
  ∀ key generation digest content,
    digest_wf digest → fs !! payloadPath (directory_of key) generation digest = Some content →
    shortDigest (Digest_ofContent content) = shortDigest digest.

Record inv (fs : FileSystem) (st : Store AgentState) : Prop := {
  inv_state : state_ok (state_ st);
  inv_staging : staging_ok fs (state_ st);
  inv_payload : payload_ok fs;
  inv_journal : j_path (journal_ st) = journalPath (store_options opts);
}.

(** What only a commit may change. *)
Record untouched (fs0 : FileSystem) (st0 : Store AgentState) (fs : FileSystem)
    (st : Store AgentState) : Prop := {
  un_identity : as_identity (state_ st) = as_identity (state_ st0);
  un_fence : as_fence (state_ st) = as_fence (state_ st0);
  un_commit : as_commit (state_ st) = as_commit (state_ st0);
  un_findings : as_findings (state_ st) = as_findings (state_ st0);
  un_live : ∀ key, fs !! currentPath (directory_of key) = fs0 !! currentPath (directory_of key);
}.

Lemma untouched_refl fs st : untouched fs st fs st.
Proof. by split. Qed.
Lemma untouched_trans fs st fs1 st1 fs2 st2 :
  untouched fs st fs1 st1 → untouched fs1 st1 fs2 st2 → untouched fs st fs2 st2.
Proof. intros [] []. split; congruence. Qed.

(** ** Lookups *)

Lemma transfer_found s deployment r :
  state_ok s → map_find deployment (as_transfers s) = Some r →
  deployment = tx_deployment r ∧ transfer_wf r ∧ transfer_ok r.
Proof.
  intros [[] Ht _ _] Hr. destruct (keyed_find _ _ _ _ _ awf_transfers Hr) as [-> Hwf].
  split; [done|]. split; [done|]. apply map_find_elem in Hr; [|by apply awf_transfers].
  rewrite Forall_forall in Ht. apply (Ht _ (proj1 (list_elem_of_In _ _) Hr)).
Qed.

Lemma transferOfStream_found s stream r :
  state_ok s → transferOfStream stream s = Some r →
  map_find (tx_deployment r) (as_transfers s) = Some r ∧ tx_stream r = stream.
Proof.
  intros Hs. unfold transferOfStream.
  destruct (list_find _ (as_transfers s)) as [[i [d r']]|] eqn:E; [|done].
  destruct (id_isSet d); [|done]. intros [= ->].
  apply list_find_Some in E as (Hi & Hstream & _). simpl in Hstream.
  apply list_elem_of_lookup_2 in Hi. destruct Hs as [[] _ _ _].
  apply map_find_elem in Hi; [|by apply awf_transfers].
  destruct (keyed_find _ _ _ _ _ awf_transfers Hi) as [-> _]. done.
Qed.

(** ** Names *)

Lemma journal_ending : ending (journalPath (store_options opts)) = "rnal".
Proof.
  unfold journalPath. rewrite <- !append_assoc. by rewrite ending_append by (simpl; lia).
Qed.

Lemma journal_ne p :
  ending p ≠ "rnal" → p ≠ journalPath (store_options opts).
Proof. intros Hp ->. by rewrite journal_ending in Hp. Qed.

(** Two file systems agree on the names of a kind. *)
Lemma staging_ok_files fs fs' s :
  (∀ d, fs' !! staging d = fs !! staging d) → staging_ok fs s → staging_ok fs' s.
Proof. intros Hf Hs d r c Hr Hv Hc. rewrite Hf in Hc. by apply (Hs d r c). Qed.

Lemma payload_ok_files fs fs' :
  (∀ k g x c, fs' !! payloadPath (directory_of k) g x = Some c →
              fs !! payloadPath (directory_of k) g x = Some c) →
  payload_ok fs → payload_ok fs'.
Proof. intros Hf Hp k g x c Hx Hc. apply (Hp k g x c Hx). by apply Hf. Qed.

(** ** Committing a record *)

Record after_commit (f : AgentState → AgentState) (fs : FileSystem) (st : Store AgentState)
    (r : Status) (fs' : FileSystem) (st' : Store AgentState) : Prop := {
  ac_files : ∀ p, p ≠ j_path (journal_ st) → fs' !! p = fs !! p;
  ac_journal : j_path (journal_ st') = j_path (journal_ st);
  ac_state : state_ st' = state_ st ∨ state_ st' = f (state_ st);
  ac_done : is_ok r = true → state_ st' = f (state_ st);
}.

Lemma append_files o j type payload fs p :
  p ≠ j_path j → (append o j type payload fs).1 !! p = fs !! p.
Proof.
  intros Hp. unfold append. case_match; [done|]. case_match; [done|]. case_match; [|done].
  unfold io_bind, writeRecord. destruct o; simpl; [by rewrite lookup_insert_ne by done|].
  repeat case_match; simpl; simplify_eq; by rewrite lookup_insert_ne by done.
Qed.

Lemma append_path o j type payload fs fs' j' :
  append o j type payload fs = (fs', Ok j') → j_path j' = j_path j.
Proof.
  unfold append. case_match; [done|]. case_match; [done|]. case_match; [|done].
  unfold io_bind, writeRecord. destruct o; simpl; [by intros [= _ <-]|].
  repeat case_match; simplify_eq; done.
Qed.

Lemma commit_effect o st type payload fs f :
  (∀ s, Agent_apply s type payload = (f s, Ok tt)) →
  let '(fs', st', r) := commit o st type payload fs in after_commit f fs st r fs' st'.
Proof.
  intros Hf. unfold commit. destruct (failed_ st); [split; auto; done|].
  destruct (zlen payload >? _); [split; auto; done|]. cbn [sc_apply agent_codec]. rewrite Hf.
  destruct (append o (journal_ st) type payload fs) as [fs1 [j|e|w]] eqn:E; split; simpl; auto.
  all: try (intros p Hp; pose proof (append_files o _ type payload fs p Hp) as Ha;
            by rewrite E in Ha).
  by apply append_path in E.
Qed.

Section env.
Context (env : Env).

Lemma hoare_commit (P : Assertion) Q type w f :
  applies type w f →
  (∀ fs st r fs' st', P fs st → after_commit f fs st r fs' st' → Q r fs' st') →
  hoare P (m_commit env type w) Q.
Proof.
  intros (bs & -> & Hf) Hq world Hw. unfold m_commit, m_bind, m_lift, m_call.
  pose proof (commit_effect (env_append env (w_calls world)) (w_store world) type bs (w_fs world)
                f Hf) as Hc. simpl.
  destruct (commit _ (w_store world) type bs (w_fs world)) as [[fs' st'] r]. simpl.
  by apply (Hq _ _ _ _ _ Hw).
Qed.
End env.

(** A committed change keeps the invariant when its result is acceptable. *)
Lemma inv_commit f fs st r fs' st' :
  inv fs st → state_ok (f (state_ st)) → staging_ok fs (f (state_ st)) →
  after_commit f fs st r fs' st' → inv fs' st'.
Proof.
  intros [Hs Hst Hp Hj] Hf Hfs [Hfiles Hj' Hstate _].
  assert (∀ p, ending p ≠ "rnal" → fs' !! p = fs !! p) as Hother.
  { intros p Hend. apply Hfiles. rewrite Hj. by apply journal_ne. }
  split.
  - by destruct Hstate as [-> | ->].
  - apply (staging_ok_files fs).
    + intros d. apply Hother. unfold staging_path. by rewrite ending_staging.
    + by destruct Hstate as [-> | ->].
  - apply (payload_ok_files fs); [|done]. intros k g x c. rewrite Hother; [done|].
    by rewrite ending_payload.
  - congruence.
Qed.

Lemma untouched_commit f fs0 st0 fs st r fs' st' :
  inv fs st → untouched fs0 st0 fs st →
  (∀ s, as_identity (f s) = as_identity s ∧ as_fence (f s) = as_fence s
        ∧ as_commit (f s) = as_commit s ∧ as_findings (f s) = as_findings s) →
  after_commit f fs st r fs' st' → untouched fs0 st0 fs' st'.
Proof.
  intros Hinv [] Hf [Hfiles _ Hstate _]. destruct (Hf (state_ st)) as (H1 & H2 & H3 & H4).
  assert (∀ key, fs' !! currentPath (directory_of key) = fs !! currentPath (directory_of key)) as Hlive.
  { intros key. apply Hfiles. rewrite (inv_journal _ _ Hinv). apply journal_ne.
    by rewrite ending_current. }
  split; [destruct Hstate as [-> | ->]; congruence..|]. intros key. by rewrite Hlive.
Qed.

(** ** Changes of the state *)

Definition counters_fit (n : AgentCounters) : Prop :=
  fits 64 (activations n) ∧ fits 64 (duplicatesSuppressed n) ∧ fits 64 (staleOffersRefused n)
  ∧ fits 64 (digestRejections n) ∧ fits 64 (applyRollbacks n).

Lemma agent_wf_counters s : agent_wf s → counters_fit (as_counters s).
Proof. by intros []. Qed.

Lemma state_ok_counters f s :
  (∀ n, counters_fit n → counters_fit (f n)) → state_ok s → state_ok (upd_counters f s).
Proof.
  intros Hf [Hwf Ht Hd Hw]. destruct (Hf _ (agent_wf_counters s Hwf)) as (? & ? & ? & ? & ?).
  split; simpl; [|done..]. destruct Hwf. by split.
Qed.

Lemma state_ok_assign r s :
  transfer_wf r → transfer_ok r → state_ok s → state_ok (assign_transfer r s).
Proof.
  intros Hr Hok [[] Ht Hd Hw]. split; simpl; [|by apply map_assign_Forall|done..].
  split; simpl; try done. by apply keyed_assign.
Qed.

Lemma state_ok_erase d s : state_ok s → state_ok (upd_transfers (map_erase d) s).
Proof.
  intros [[] Ht Hd Hw]. split; simpl; [|by apply map_erase_Forall|done..].
  split; simpl; try done. by apply keyed_erase.
Qed.

Lemma state_ok_open r s :
  transfer_wf r → guarantee (as_identity s) ≠ ApplyGuarantee.AtomicActivate →
  state_ok s → state_ok (upd_window (λ _, opened_window r) s).
Proof.
  intros Hr Hg [[] Ht Hd Hw]. split; simpl; [|done..|done]. destruct Hr.
  split; simpl; try done. by right.
Qed.

Lemma state_ok_resolve n s : fits 64 n → state_ok s → state_ok (resolve_window n s).
Proof.
  intros Hn [[] Ht Hd Hw]. split; simpl; [|done..]. split; simpl; try done; by left.
Qed.

Lemma inc64_fits v : fits 64 (inc64 v).
Proof. unfold inc64, fits. apply Z.mod_pos_bound. lia. Qed.

(** The counters the handlers touch stay in range. *)
Lemma count_stale_fit n : counters_fit n → counters_fit (count_stale n).
Proof. intros (? & ? & ? & ? & ?). split_and!; try done; apply inc64_fits. Qed.
Lemma count_duplicate_fit n : counters_fit n → counters_fit (count_duplicate n).
Proof. intros (? & ? & ? & ? & ?). split_and!; try done; apply inc64_fits. Qed.
Lemma count_rejection_fit n : counters_fit n → counters_fit (count_rejection n).
Proof. intros (? & ? & ? & ? & ?). split_and!; try done; apply inc64_fits. Qed.
Lemma count_rollback_fit n : counters_fit n → counters_fit (count_rollback n).
Proof. intros (? & ? & ? & ? & ?). split_and!; try done; apply inc64_fits. Qed.
Lemma count_activation_fit n : counters_fit n → counters_fit (count_activation n).
Proof.
  intros ([H0 H1] & ? & ? & ? & ?). unfold count_activation. split_and!; try done. simpl.
  destruct (Z.eqb_spec (activations n) 18446744073709551615); unfold fits in *; lia.
Qed.
Lemma set_notes_fit n m : counters_fit n → counters_fit m → counters_fit (set_notes n m).
Proof. intros (? & ? & ? & ? & ?) (? & ? & ? & ? & ?). by split_and!. Qed.
End inv.
