(* ===== verification/AgentHandlers.v ===== *)
(** * The message handlers keep the invariant

    Every handler but the commit keeps [inv] and leaves [untouched] what is
    activated, for every answer of the operating system. *)

From stdpp Require Import gmap.
From Stdlib Require Import Strings.Byte.
From S2P Require Import Prelude Result StdMap Checked Hash Ids Text Codec Lifecycle Files Journal.
From S2P Require Import Snapshot Artifact FaultPlan AgentFiles AgentPaths Frame Records Messages.
From S2P Require Import Protocol State Store Agent AgentStart AgentEffects AgentLogic AgentInv.

(** What was decoded is well formed. *)
Lemma decoded_ok {M} (encode : M → Result (list byte)) decode ok `{!Codec encode decode ok} bs m :
  decode bs = Ok m → ok m.
Proof. intros H. by apply codec_sound in H as [? _]. Qed.
Arguments decoded_ok {M encode decode ok Codec0 bs m}.

Section primitives.
Context (opts : AgentOptions) (env : Env).
(** The clock is a 64-bit count. *)
Context (Hclock : ∀ n, fits_i64 (env_now env n)).
Context (fs0 : FileSystem) (st0 : Store AgentState).
Abbreviation staging := (staging_path opts).
Abbreviation directory_of := (key_directory opts).

Definition settled (fs : FileSystem) (st : Store AgentState) : Prop :=
  inv opts fs st ∧ untouched opts fs0 st0 fs st.

(** ** Primitive steps *)

Lemma settled_files fs fs' st :
  (∀ d c, fs' !! staging d = Some c → fs !! staging d = Some c) →
  (∀ k g x c, fs' !! payloadPath (directory_of k) g x = Some c →
              fs !! payloadPath (directory_of k) g x = Some c) →
  (∀ k, fs' !! currentPath (directory_of k) = fs !! currentPath (directory_of k)) →
  settled fs st → settled fs' st.
Proof.
  intros Hs Hp Hl [[] []]. split; split; try done.
  - intros d r c Hr Hv Hc. by apply (inv_staging d r c); [..|apply Hs].
  - by apply (payload_ok_files opts fs).
  - intros key. by rewrite Hl.
Qed.

Lemma settled_delete p fs st :
  (∀ k, p ≠ currentPath (directory_of k)) → settled fs st → settled (delete p fs) st.
Proof.
  intros Hp. apply settled_files.
  - by intros d c [_ Hc]%lookup_delete_Some.
  - by intros k g x c [_ Hc]%lookup_delete_Some.
  - intros k. by rewrite lookup_delete_ne.
Qed.

Lemma settled_commit f fs st r fs' st' :
  state_ok (f (state_ st)) → staging_ok opts fs (f (state_ st)) →
  (∀ s, as_identity (f s) = as_identity s ∧ as_fence (f s) = as_fence s
        ∧ as_commit (f s) = as_commit s ∧ as_findings (f s) = as_findings s) →
  settled fs st → after_commit f fs st r fs' st' → settled fs' st'.
Proof.
  intros Hs Hst Hf [Hinv Hun] Hc. split; [by apply (inv_commit opts f fs st r)|].
  by apply (untouched_commit opts f fs0 st0 fs st r).
Qed.

Lemma keeps_counters f :
  (∀ n, counters_fit n → counters_fit (f n)) → keeps settled (modify_state (upd_counters f)).
Proof.
  intros Hf w [[] []]. split; split; simpl; try done. by apply state_ok_counters.
Qed.

Lemma keeps_rollbackNote : keeps settled (m_rollbackNote env).
Proof.
  unfold m_rollbackNote. apply hoare_state. intros s w [HJ <-].
  pose proof (inv_state _ _ _ (proj1 HJ)) as Hok.
  revert w HJ Hok. intros w HJ Hok.
  refine (hoare_commit env (λ fs st, settled fs st ∧ state_ st = state_ (w_store w)) (λ _, settled)
            _ _ _ (applies_note _ (so_wf _ Hok)) _ w (conj HJ eq_refl)).
  intros fs st r fs' st' [HJ' Hst]. apply settled_commit; [..|done].
  - rewrite Hst. apply state_ok_counters; [|done]. intros n.
    apply set_notes_fit, agent_wf_counters, Hok.
  - rewrite Hst. intros d r' c. simpl. rewrite <- Hst. apply (inv_staging _ _ _ (proj1 HJ')).
  - by intros [].
Qed.

Lemma keeps_count f :
  (∀ n, counters_fit n → counters_fit (f n)) → keeps settled (m_count env f).
Proof.
  intros Hf. unfold m_count. apply keeps_bind; [by apply keeps_counters|]. intros _.
  apply keeps_rollbackNote.
Qed.

Lemma keeps_remove p :
  (∀ k, p ≠ currentPath (directory_of k)) → keeps settled (m_remove env p).
Proof.
  intros Hp. unfold m_remove. apply keeps_bind; [apply quiet_keeps, quiet_call|]. intros [].
  - apply keeps_ret.
  - intros w Hw. by apply settled_delete.
Qed.

Lemma staging_not_live d k : staging d ≠ currentPath (directory_of k).
Proof. apply ending_ne. unfold staging_path. by rewrite ending_staging, ending_current. Qed.
Lemma pending_not_live d k : pendingPath d ≠ currentPath (directory_of k).
Proof. apply ending_ne. by rewrite ending_pending, ending_current. Qed.

Lemma keeps_destroy d : id_valid d → keeps settled (destroyTransfer opts env d).
Proof.
  intros Hd. unfold destroyTransfer. apply keeps_bind.
  { apply keeps_remove. apply staging_not_live. }
  intros _. apply hoare_state. intros s. case_match.
  - eapply hoare_commit; [by apply applies_remove|]. intros fs st r fs' st' [HJ <-].
    apply settled_commit; [..|done].
    + by apply state_ok_erase, (inv_state opts fs), HJ.
    + intros d' r' c Hr'. simpl in Hr'. apply (inv_staging _ _ _ (proj1 HJ)).
      pose proof (so_wf _ (inv_state _ _ _ (proj1 HJ))) as [].
      destruct (decide (d' = d)) as [->|Hne].
      * rewrite map_find_erase_eq in Hr'; [done|]. apply awf_transfers.
      * by rewrite map_find_erase_ne in Hr'.
    + by intros [].
  - apply (hoare_weaken _ settled); [by intros ?? []|apply keeps_ret].
Qed.

(** A transfer record that may be stored. *)
Record record_ok (fs : FileSystem) (r : TransferRecord) : Prop := {
  ro_wf : transfer_wf r;
  ro_ok : transfer_ok r;
  ro_staging : tx_verified r = true → ∀ content,
    fs !! staging (tx_deployment r) = Some content → Digest_ofContent content = tx_digest r;
}.

Lemma assign_staging fs s r :
  record_ok fs r → staging_ok opts fs s → staging_ok opts fs (assign_transfer r s).
Proof.
  intros [_ _ Hr] Hs d r' c Hr' Hv Hc. simpl in Hr'.
  destruct (decide (d = tx_deployment r)) as [->|Hne].
  - rewrite map_find_assign_eq in Hr'. injection Hr' as <-. by apply Hr.
  - rewrite map_find_assign_ne in Hr' by done. by apply (Hs d r' c).
Qed.

Lemma hoare_checkpoint r :
  hoare (λ fs st, settled fs st ∧ record_ok fs r) (checkpointTransfer env r) (λ _, settled).
Proof.
  intros w [HJ Hr]. revert w HJ Hr. intros w HJ Hr.
  refine (hoare_commit env (λ fs st, settled fs st ∧ record_ok fs r) (λ _, settled)
            _ _ _ (applies_transfer _ (ro_wf _ _ Hr)) _ w (conj HJ Hr)).
  intros fs st r' fs' st' [HJ' [Hwf Hok Hs]]. apply settled_commit; [..|done].
  - apply state_ok_assign; [done..|]. apply (inv_state _ _ _ (proj1 HJ')).
  - apply assign_staging; [done|]. apply (inv_staging _ _ _ (proj1 HJ')).
  - by intros [].
Qed.

Lemma hoare_assign r :
  hoare (λ fs st, settled fs st ∧ record_ok fs r) (modify_state (assign_transfer r))
    (λ _, settled).
Proof.
  intros w [[[] []] Hr]. split; split; simpl; try done.
  - by apply state_ok_assign; [apply Hr..|].
  - by apply assign_staging.
Qed.

(** The clock. *)
Lemma hoare_now {A} (P : Assertion) (k : Z → M A) Q :
  (∀ t, fits_i64 t → hoare P (k t) Q) → hoare P (m_bind (m_now env) k) Q.
Proof. intros Hk w Hw. unfold m_bind, m_now, m_call. by apply (Hk _ (Hclock _) (next_call w)). Qed.

(** A quiet step keeps everything, also what is known of the state. *)
Lemma hoare_quiet {A B} (P : Assertion) (m : M A) (k : A → M B) (Q : Assertion) :
  quiet m → (∀ fs st, P fs st → Q fs st) → (∀ a, hoare P (k a) (λ _, Q)) →
  hoare P (m_bind m k) (λ _, Q).
Proof.
  intros Hm Hpq Hk. apply (hoare_bind _ _ _ (λ _, P)); [by apply quiet_keeps|done|..]; auto.
Qed.

End primitives.

(** Step through a handler that keeps what is settled. *)
Ltac keeps_settled :=
  repeat
    lazymatch goal with
    | H : hoare ?P ?m ?Q |- hoare ?P ?m ?Q => exact H
    | |- hoare _ (m_count _ _) _ =>
        apply keeps_count;
        first [exact count_stale_fit | exact count_duplicate_fit | exact count_rejection_fit
              | exact count_rollback_fit]
    | |- hoare _ (match _ with _ => _ end) _ => case_match
    | |- hoare _ _ _ =>
        first [ apply quiet_keeps; solve [auto 6 with agent] | apply keeps_bind; [|intros ?] ]
    end.

Section handlers.
Context (opts : AgentOptions) (env : Env).
Context (Hclock : ∀ n, fits_i64 (env_now env n)).
Context (fs0 : FileSystem) (st0 : Store AgentState).
Abbreviation staging := (staging_path opts).
Abbreviation directory_of := (key_directory opts).
Abbreviation settled := (settled opts fs0 st0).
Abbreviation record_ok := (record_ok opts).

(** ** Prepare *)

Lemma decodePrepare_ok bytes message :
  decodePrepare bytes = Ok message → prepare_wf message ∧ check_prepare message = Ok tt.
Proof. by intros [Hok _]%(codec_sound (encode := encodePrepare)). Qed.

Lemma hoare_resumePoint message :
  prepare_wf message →
  hoare settled (resumePoint opts env message)
    (λ r fs st, settled fs st
       ∧ ∀ v, r = Ok v → 0 <= v <= pr_sizeBytes message).
Proof.
  intros Hm.
  assert (0 <= pr_sizeBytes message) as Hsize by apply Hm.
  assert (hoare settled (do@ destroyTransfer opts env (pr_deployment message) in m_ret 0)
            (λ r fs st, settled fs st ∧ ∀ v, r = Ok v → 0 <= v <= pr_sizeBytes message)) as Hdestroy.
  { eapply hoare_bind; [apply keeps_destroy, Hm| |by split..].
    intros _ w Hw. split; [done|]. by intros v [= <-]. }
  unfold resumePoint. apply hoare_state. intros s.
  destruct (map_find (pr_deployment message) (as_transfers s)) as [record|] eqn:Hfind.
  2: { intros w [Hw _]. split; [done|]. by intros v [= <-]. }
  case_match eqn:Hverified.
  - apply andb_true_iff in Hverified as [Hsame Hv]. intros w [HJ _].
    apply andb_true_iff in Hsame as [_ Htotal%Z.eqb_eq].
    unfold m_file_size, m_get, m_bind. simpl. case_bool_decide.
    + split; [done|]. intros v [= <-]. rewrite Htotal. lia.
    + by apply Hdestroy.
  - case_match eqn:Hsame; [|intros w [HJ _]; by apply Hdestroy].
    apply andb_true_iff in Hsame as [_ Htotal%Z.eqb_eq]. intros w [HJ <-].
    split; [done|]. intros v [= <-].
    destruct (transfer_found _ _ _ (inv_state _ _ _ (proj1 HJ)) Hfind) as (_ & [] & _).
    destruct (file_size _ _) as [size|] eqn:E; [|lia].
    unfold file_size in E. destruct (w_fs w !! _) as [c|]; [|done]. injection E as <-.
    pose proof (zlen_nonneg c). unfold fits in *.
    destruct (Z.gtb_spec (tx_bytesReceived record) (tx_totalBytes record)); [done|]. lia.
Qed.

Lemma prepared_record_ok fs message v t :
  prepare_wf message → check_prepare message = Ok tt → 0 <= v <= pr_sizeBytes message →
  fits_i64 t →
  record_ok fs
    (mkTransferRecord (pr_deployment message) (pr_stream message) (pr_key message)
       (pr_artifact message) (pr_generation message) (pr_digest message) (pr_sizeBytes message)
       v false false t).
Proof.
  intros [] Hc Hv Ht. unfold check_prepare in Hc.
  destruct (negb (digest_isSet _)); [done|]. destruct (Z.eqb_spec (pr_sizeBytes message) 0); [done|].
  destruct prw_generation as [Hg Hset]. split; [split|split|done]; simpl; try done.
  - by right.
  - unfold fits in *. lia.
  - rewrite gtb_le_false by lia. done.
Qed.

Lemma keeps_onPrepare bytes : keeps settled (onPrepare opts env bytes).
Proof.
  unfold onPrepare. step_lift. rename a into message.
  match goal with H : decodePrepare _ = _ |- _ => apply decodePrepare_ok in H as [Hwf Hcheck] end.
  apply hoare_state. intros s. apply (hoare_weaken _ settled); [by intros ?? []|].
  assert (keeps settled
    (let@ resumeFrom := resumePoint opts env message in
     do@ beginTransfer env message resumeFrom in
     do@ m_reply env FrameType.PrepareAck kFrameFlagResponse
           (encodePrepareAck (prepareAck s message resumeFrom)) in
     m_fault opts kAfterOffer)) as Hbegin.
  { eapply hoare_bind; [by apply hoare_resumePoint| |by intros ??? []..].
    intros v. simpl.
    apply (hoare_bind_weaken _ settled).
    - apply hoare_pure. intros Hv. unfold beginTransfer. apply (hoare_now env Hclock). intros t Ht.
      eapply hoare_pre; [|apply hoare_checkpoint]. intros fs st HJ'. split; [done|].
      by apply prepared_record_ok; [..|apply Hv|].
    - intros _. apply keeps_bind; [step_quiet|intros _; step_quiet]. }
  keeps_settled.
Qed.

(** ** Chunks *)

Lemma decodeChunk_ok bytes chunk :
  decodeChunk bytes = Ok chunk → chunk_wf chunk ∧ ck_data chunk ≠ [].
Proof.
  intros [[Hwf Hc] _]%(codec_sound (encode := encodeChunk)). split; [done|]. unfold check_chunk in Hc.
  destruct (negb _); [done|]. by case_bool_decide.
Qed.

Lemma chunkEnd_spec current chunk e :
  chunk_wf chunk → chunkEnd current chunk = Some e →
  e = ck_offset chunk + zlen (ck_data chunk) ∧ e <= tx_totalBytes current ∧ fits 64 e.
Proof.
  intros [] He. unfold chunkEnd in He. destruct (checkedAdd 64 _ _) as [x|] eqn:Ea; [|done].
  destruct (Z.gtb_spec x (tx_totalBytes current)); [done|]. injection He as <-.
  unfold checkedAdd in Ea. pose proof (zlen_nonneg (ck_data chunk)). unfold num64, fits in *.
  destruct (Z.gtb_spec (ck_offset chunk) (2 ^ 64 - 1 - zlen (ck_data chunk))); [done|].
  injection Ea as <-.
  rewrite Z.mod_small in * by lia. lia.
Qed.

(** Accepting a chunk: the transfer is not verified yet. *)
Lemma chunk_unverified current chunk e :
  transfer_ok current → chunk_wf chunk → ck_data chunk ≠ [] →
  ck_offset chunk = tx_bytesReceived current → chunkEnd current chunk = Some e →
  tx_verified current = false.
Proof.
  intros [] Hwf Hne Hoff He. destruct (chunkEnd_spec _ _ _ Hwf He) as (-> & Hle & _).
  destruct (tx_verified current); [|done]. rewrite to_verified in Hoff by done.
  destruct (ck_data chunk); [done|]. rewrite zlen_cons in Hle.
  pose proof (zlen_nonneg l). lia.
Qed.

Lemma writeChunk_other faults path first offset data fs p :
  p ≠ path → (writeChunk faults path first offset data fs).1 !! p = fs !! p.
Proof.
  intros Hp. unfold writeChunk.
  destruct (if chunk_open_fails faults then _ else _) as [content|]; [|done].
  destruct (chunk_seek_fails faults); simpl; by rewrite lookup_insert_ne.
Qed.

Lemma keeps_writeChunk current chunk :
  hoare (λ fs st, settled fs st ∧
           map_find (tx_deployment current) (as_transfers (state_ st)) = Some current
           ∧ tx_verified current = false)
    (m_writeChunk opts env current chunk)
    (λ _ fs st, settled fs st ∧
       map_find (tx_deployment current) (as_transfers (state_ st)) = Some current).
Proof.
  intros w [HJ [Hfind Hv]]. unfold m_writeChunk, m_bind, m_call.
  match goal with |- context [writeChunk ?f ?p ?b ?o ?d ?fs] =>
    pose proof (λ q, writeChunk_other f p b o d fs q) as Ho;
    destruct (writeChunk f p b o d fs) as [fs' failure] end.
  simpl in *. split; [|done]. destruct HJ as [[Hs Hst Hp Hj] [Hu1 Hu2 Hu3 Hu4 Hl]]. split; split; try done.
  - intros d r c Hr Hv' Hc.
    destruct (decide (d = tx_deployment current)) as [->|Hne]; [congruence|].
    rewrite Ho in Hc; [by apply (Hst d r c)|]. intros E. by apply stagingPath_inj in E.
  - apply (payload_ok_files opts (w_fs w)); [|done]. intros k g x c. rewrite Ho; [done|].
    apply ending_ne. unfold staging_path. by rewrite ending_payload, ending_staging.
  - intros k. rewrite Ho; [done|]. apply not_eq_sym, staging_not_live.
Qed.

Lemma received_record_ok fs current chunk e t :
  transfer_wf current → transfer_ok current → tx_verified current = false →
  chunk_wf chunk → chunkEnd current chunk = Some e → fits_i64 t →
  record_ok fs (set_updatedAt t (set_bytesReceived e current)).
Proof.
  intros [] [] Hv Hwf He Ht. destruct (chunkEnd_spec _ _ _ Hwf He) as (_ & Hle & Hfit).
  split; [split|split|]; simpl; try done; try congruence.
  by rewrite gtb_le_false.
Qed.

Lemma keeps_onChunk bytes : keeps settled (onChunk opts env bytes).
Proof.
  unfold onChunk. step_lift. rename a into chunk.
  match goal with H : decodeChunk _ = _ |- _ => apply decodeChunk_ok in H as [Hwf Hne] end.
  apply hoare_state. intros s.
  destruct (transferOfStream (ck_stream chunk) s) as [current|] eqn:Hstream;
    [|apply (hoare_weaken _ settled); [by intros ?? []|keeps_settled]].
  destruct (Z.eqb_spec (ck_offset chunk) (tx_bytesReceived current)) as [Hoff|]; cbn [negb];
    [|apply (hoare_weaken _ settled); [by intros ?? []|keeps_settled]].
  destruct (chunkEnd current chunk) as [e|] eqn:He;
    [|apply (hoare_weaken _ settled); [by intros ?? []|keeps_settled]].
  set (P := λ fs st, settled fs st ∧
         map_find (tx_deployment current) (as_transfers (state_ st)) = Some current).
  assert (∀ fs st, P fs st → settled fs st) as Hweak by (by intros ?? []).
  apply (hoare_bind _ _ _ (λ _, P)); [|intros failure|by intros ??? []..].
  { eapply hoare_pre; [|apply keeps_writeChunk]. intros fs st [HJ <-].
    pose proof (inv_state _ _ _ (proj1 HJ)) as Hok.
    destruct (transferOfStream_found _ _ _ Hok Hstream) as [Hfind _].
    destruct (transfer_found _ _ _ Hok Hfind) as (_ & _ & Htok).
    split; [done|]. split; [done|]. by apply (chunk_unverified current chunk e). }
  destruct failure as [[]|]; [apply (hoare_weaken _ settled); [done|keeps_settled]..|].
  apply (hoare_now env Hclock). intros t Ht.
  do 2 (apply hoare_quiet; [auto with agent|done|intros ?]).
  apply (hoare_bind_weaken _ settled); [|intros _; keeps_settled].
  assert (∀ fs st, P fs st → settled fs st
            ∧ record_ok fs (set_updatedAt t (set_bytesReceived e current))) as Hpre.
  { intros fs st [HJ Hfind]. split; [done|]. pose proof (inv_state _ _ _ (proj1 HJ)) as Hok.
    destruct (transfer_found _ _ _ Hok Hfind) as (_ & Htwf & Htok).
    apply received_record_ok with (chunk := chunk); try done.
    by apply (chunk_unverified current chunk e). }
  case_match; (eapply hoare_pre; [exact Hpre|]).
  - apply hoare_checkpoint.
  - apply (hoare_assign opts fs0 st0 (set_updatedAt t (set_bytesReceived e current))).
Qed.

(** ** Completion *)

Lemma hoare_hash (P : Assertion) path n :
  hoare P (m_hash env path n)
    (λ r fs st, P fs st ∧ ∀ digest content, r = Ok digest → fs !! path = Some content →
       Digest_ofContent content = digest).
Proof.
  intros w Hw. unfold m_hash, m_bind, m_call, m_io, hashStagingFile. simpl. split; [done|].
  intros digest content. destruct (w_fs w !! path) as [c|]; [|done].
  destruct (env_read_fails env (w_calls w)); [done|]. destruct (checkedAdd _ _ _); [|done].
  case_match; [done|]. by intros [= <-] [= <-].
Qed.

Lemma keeps_onTransferComplete bytes : keeps settled (onTransferComplete opts env bytes).
Proof.
  unfold onTransferComplete. step_lift. rename a into message.
  match goal with H : decodeTransferComplete _ = _ |- _ => apply decoded_ok in H as [Hid _ _ _] end.
  apply hoare_state. intros s.
  destruct (map_find (xc_deployment message) (as_transfers s)) as [current|] eqn:Hfind;
    [|apply (hoare_weaken _ settled); [by intros ?? []|keeps_settled]].
  destruct (Z.eqb_spec (tx_bytesReceived current) (tx_totalBytes current)) as [Hall|];
    cbn [negb]; [|apply (hoare_weaken _ settled); [by intros ?? []|keeps_settled]].
  case_match; [apply (hoare_weaken _ settled); [by intros ?? []|keeps_settled]|].
  eapply hoare_bind; [apply hoare_try, hoare_hash|intros actual|intros ??? []|by intros ??? [[]]].
  cbn beta iota. destruct (hash_matches actual (tx_digest current)) eqn:Hmatch.
  - apply (hoare_now env Hclock). intros t Ht.
    apply (hoare_bind_weaken _ settled); [|intros _; keeps_settled].
    eapply hoare_pre; [|apply hoare_checkpoint]. intros fs st [[HJ <-] Hhash].
    split; [done|]. pose proof (inv_state _ _ _ (proj1 HJ)) as Hok.
    destruct (transfer_found _ _ _ Hok Hfind) as (Hd & [] & []).
    split; [by split|by split|]. intros _ content. cbn [set_updatedAt set_verified tx_deployment tx_digest].
    rewrite <- Hd. intros Hc. unfold hash_matches in Hmatch.
    destruct actual as [digest| |]; [|done..]. apply bool_decide_eq_true in Hmatch as <-.
    by apply Hhash.
  - apply (hoare_weaken _ settled); [by intros ?? [[]]|].
    apply keeps_bind; [keeps_settled|intros _].
    apply keeps_bind; [by apply keeps_destroy|intros _]. keeps_settled.
Qed.

(** ** Staging *)

(** The copy either leaves every proper name alone or puts the content of the
    source under the destination. *)
Lemma copyFileAtomic_spec faults suffix source destination fs :
  let '(fs', r) := copyFileAtomic faults suffix source destination fs in
  (∀ p, proper p → p ≠ destination → fs' !! p = fs !! p)
  ∧ (proper destination →
     fs' !! destination = fs !! destination ∨ fs' !! destination = fs !! source)
  ∧ (is_ok r = true → is_Some (fs !! source) ∧ (proper destination → fs' !! destination = fs !! source)).
Proof.
  unfold copyFileAtomic. set (temporary := tempSiblingPath suffix destination).
  assert (∀ p, proper p → p ≠ temporary) as Htemp by (intros p; apply proper_ne).
  destruct (fs !! source) as [content|] eqn:Hsource; [|split_and!; [done|by left|done]].
  destruct (copy_open_fails faults); [split_and!; [done|by left|done]|].
  assert ((∀ p, proper p → p ≠ destination → delete temporary fs !! p = fs !! p)
          ∧ (proper destination → delete temporary fs !! destination = fs !! destination)) as [Hd1 Hd2].
  { split; intros; rewrite lookup_delete_ne; auto; by apply not_eq_sym, Htemp. }
  assert (∀ p, proper p → p ≠ destination →
            file_rename temporary destination (<[temporary:=content]> fs) !! p = fs !! p) as Hr1.
  { intros p Hp Hne. rewrite file_rename_other; [|by apply Htemp|done].
    by rewrite lookup_insert_ne by (by apply not_eq_sym, Htemp). }
  assert (file_rename temporary destination (<[temporary:=content]> fs) !! destination
          = Some content) as Hr2.
  { unfold file_rename. by rewrite lookup_insert_eq, lookup_insert_eq. }
  destruct (copy_read_stops faults); [split_and!; [done|by left; auto|done]|].
  destruct (copy_write_stops faults); [split_and!; [done|by left; auto|done]|].
  destruct (copy_flush_fails faults); [split_and!; [done|by left; auto|done]|].
  destruct (copy_rename_fails faults); [split_and!; [done|by left; auto|done]|].
  split_and!; [done|by right|]. intros _. split; [done|]. intros _. by rewrite Hr2.
Qed.

Lemma keeps_place s current :
  map_find (tx_deployment current) (as_transfers s) = Some current → tx_verified current = true →
  hoare (λ fs st, settled fs st ∧ state_ st = s) (m_place opts env current)
    (λ _ fs st, settled fs st ∧ state_ st = s).
Proof.
  intros Hfind Hv w [[[Hok Hst Hp Hj] [Hu1 Hu2 Hu3 Hu4 Hl]] Hs]. unfold m_place, m_bind, m_call, m_io. simpl.
  pose proof (copyFileAtomic_spec (env_copy env (w_calls w)) (env_random env (S (w_calls w)))
    (staging (tx_deployment current))
    (payloadPath (directory_of (tx_key current)) (tx_generation current) (tx_digest current))
    (w_fs w)) as Hc.
  destruct (copyFileAtomic _ _ _ _ _) as [fs' r]. destruct Hc as (Hother & Hdest & _).
  simpl. split; [|done]. split; split; try done.
  - apply (staging_ok_files opts (w_fs w)); [|done]. intros d. apply Hother; [apply proper_staging|].
    apply ending_ne. unfold staging_path. by rewrite ending_staging, ending_payload.
  - intros k g x c Hx Hlook.
    destruct (decide (payloadPath (directory_of k) g x
      = payloadPath (directory_of (tx_key current)) (tx_generation current) (tx_digest current)))
      as [E|Hne].
    2: { rewrite Hother in Hlook by (done || apply proper_payload). by apply (Hp k g x c). }
    destruct (Hdest (proper_payload _ _ _)) as [Hd|Hd]; rewrite E, Hd in Hlook.
    + rewrite <- E in Hlook. by apply (Hp k g x c).
    + rewrite Hs in Hst. rewrite (Hst _ _ _ Hfind Hv Hlook). symmetry.
      rewrite <- Hs in Hfind. destruct (transfer_found _ _ _ Hok Hfind) as (_ & [] & _).
      by apply payloadPath_short in E.
  - intros k. rewrite Hother; [done|apply proper_current|].
    apply ending_ne. by rewrite ending_current, ending_payload.
Qed.

Lemma keeps_onStage bytes : keeps settled (onStage opts env bytes).
Proof.
  unfold onStage. step_lift. rename a into message. apply hoare_state. intros s.
  destruct (map_find (sg_deployment message) (as_transfers s)) as [current|] eqn:Hfind;
    [|apply (hoare_weaken _ settled); [by intros ?? []|keeps_settled]].
  destruct (tx_verified current) eqn:Hv; cbn [negb];
    [|apply (hoare_weaken _ settled); [by intros ?? []|keeps_settled]].
  do 2 (case_match; [apply (hoare_weaken _ settled); [by intros ?? []|keeps_settled]|]).
  apply hoare_quiet; [auto with agent|by intros ?? []|intros mkdirFails].
  destruct mkdirFails; [apply (hoare_weaken _ settled); [by intros ?? []|keeps_settled]|].
  set (P := λ fs st, settled fs st ∧ state_ st = s).
  assert (∀ fs st, P fs st → settled fs st) as Hweak by (by intros ?? []).
  assert (∀ fs st, P fs st → sg_deployment message = tx_deployment current ∧ transfer_wf current
            ∧ transfer_ok current) as Hcurrent.
  { intros fs st [HJ <-]. by apply (transfer_found (state_ st)); [apply HJ|]. }
  apply (hoare_bind _ _ _ (λ _, P)); [|intros copied|by intros ??? []..].
  { apply keeps_try. intros w Hw. destruct (Hcurrent _ _ Hw) as (Hd & _ & _).
    apply keeps_place; [by rewrite <- Hd|done|exact Hw]. }
  destruct copied; [|apply (hoare_weaken _ settled); [done|keeps_settled]..].
  apply (hoare_now env Hclock). intros t Ht. apply (hoare_bind_weaken _ settled); [|intros _; keeps_settled].
  eapply hoare_pre; [|apply hoare_checkpoint]. intros fs st HP. split; [by apply Hweak|].
  destruct (Hcurrent _ _ HP) as (Hd & [] & []). destruct HP as [[[_ Hst _ _] _] <-].
  split; [by split|by split|]. intros _ content. simpl. rewrite <- Hd. by apply (Hst _ current).
Qed.

(** ** The prepare window *)

(** An atomic replacement of a proper name changes no other proper name. *)
Lemma write_other w path text p :
  proper p → p ≠ path →
  w_fs (m_write env path text w).1 !! p = w_fs w !! p
  ∧ w_store (m_write env path text w).1 = w_store w.
Proof.
  intros Hp Hne. unfold m_write, m_bind, m_call, m_io. simpl.
  match goal with |- context [writeFileAtomic ?f ?x ?path ?c ?fs] =>
    pose proof (writeFileAtomic_other f x path c fs p Hne (proper_ne _ _ _ Hp)) as Ho;
    destruct (writeFileAtomic f x path c fs) as [fs' r] end.
  done.
Qed.

Lemma keeps_write_pending s d text :
  keeps (λ fs st, settled fs st ∧ state_ st = s) (m_write env (pendingPath d) text).
Proof.
  intros w [HJ Hs].
  assert (∀ p, proper p → ending p ≠ "ding" →
            w_fs (m_write env (pendingPath d) text w).1 !! p = w_fs w !! p) as Ho.
  { intros p Hp Hend. apply write_other; [done|]. intros ->. by rewrite ending_pending in Hend. }
  destruct (write_other w (pendingPath d) text (currentPath d)) as [_ Hstore];
    [apply proper_current|apply ending_ne; by rewrite ending_current, ending_pending|].
  rewrite Hstore. split; [|done]. revert HJ. apply settled_files.
  - intros e c. rewrite Ho; [done|apply proper_staging|]. unfold staging_path.
    by rewrite ending_staging.
  - intros k g x c. rewrite Ho; [done|apply proper_payload|]. by rewrite ending_payload.
  - intros k. rewrite Ho; [done|apply proper_current|]. by rewrite ending_current.
Qed.

(** Opening the window, on a target that does not activate atomically. *)
Lemma hoare_openWindow s r :
  transfer_wf r → guarantee (as_identity s) ≠ ApplyGuarantee.AtomicActivate →
  hoare (λ fs st, settled fs st ∧ state_ st = s)
    (m_commit env JournalRecordType.AgentApplyPrepared (prepareRecord r)) (λ _, settled).
Proof.
  intros Hr Hg. eapply hoare_commit; [by apply applies_prepared|].
  intros fs st r' fs' st' [HJ Hs]. apply settled_commit; [..|done].
  - apply state_ok_open; [done|by rewrite Hs|]. apply HJ.
  - intros d x c. apply (inv_staging _ _ _ (proj1 HJ)).
  - by intros [].
Qed.

Lemma keeps_onApplyPrepare bytes : keeps settled (onApplyPrepare opts env bytes).
Proof.
  unfold onApplyPrepare. step_lift. rename a into message. apply hoare_state. intros s.
  case_bool_decide as Hg; [apply (hoare_weaken _ settled); [by intros ?? []|keeps_settled]|].
  destruct (map_find (ap_deployment message) (as_transfers s)) as [current|] eqn:Hfind;
    [|apply (hoare_weaken _ settled); [by intros ?? []|keeps_settled]].
  do 4 (case_match; [apply (hoare_weaken _ settled); [by intros ?? []|keeps_settled]|]).
  set (P := λ fs st, settled fs st ∧ state_ st = s).
  assert (∀ fs st, P fs st → settled fs st) as Hweak by (by intros ?? []).
  apply (hoare_bind _ _ _ (λ _, P)); [|intros written|by intros ??? []..].
  { apply keeps_try, keeps_write_pending. }
  destruct written; [|apply (hoare_weaken _ settled); [done|keeps_settled]..].
  apply (hoare_bind_weaken _ settled); [|intros _; keeps_settled].
  intros w HP. apply (hoare_openWindow s); [|done|exact HP]. destruct HP as [HJ <-].
  by apply (transfer_found _ _ _ (inv_state _ _ _ (proj1 HJ)) Hfind).
Qed.

Lemma keeps_resolve n :
  fits 64 n →
  keeps settled (m_commit env JournalRecordType.AgentApplyResolved (resolvedRecord n)).
Proof.
  intros Hn. eapply hoare_commit; [by apply applies_resolved|].
  intros fs st r fs' st' HJ. apply settled_commit; [..|done].
  - apply state_ok_resolve; [done|]. apply HJ.
  - intros d x c. apply (inv_staging _ _ _ (proj1 HJ)).
  - by intros [].
Qed.

Lemma keeps_onApplyAbort bytes : keeps settled (onApplyAbort opts env bytes).
Proof.
  unfold onApplyAbort. step_lift. rename a into message. apply hoare_state. intros s.
  do 2 (case_match; [apply (hoare_weaken _ settled); [by intros ?? []|keeps_settled]|]).
  apply (hoare_derive _ (fits 64 (activations (as_counters s)))); [intros fs st [HJ <-]; apply HJ|].
  intros Hn. apply (hoare_weaken _ settled); [by intros ?? []|].
  apply keeps_bind; [|intros _].
  - destruct (list_find _ _) as [[? [? record]]|]; [|apply keeps_ret].
    apply keeps_remove. apply pending_not_live.
  - apply keeps_bind; [keeps_settled|intros _].
    apply keeps_bind; [by apply keeps_resolve|intros _]. keeps_settled.
Qed.

(** ** The other messages *)

Lemma keeps_onRetire bytes : keeps settled (onRetire opts env bytes).
Proof.
  unfold onRetire. step_lift. rename a into message.
  match goal with H : decodeRetire _ = _ |- _ => apply decoded_ok in H as [Hid _ _] end.
  apply hoare_state. intros s. apply (hoare_weaken _ settled); [by intros ?? []|].
  case_match; [keeps_settled|]. apply keeps_bind; [by apply keeps_destroy|intros _]. keeps_settled.
Qed.

Lemma quiet_onPing bytes : quiet (onPing env bytes).
Proof. unfold onPing. auto with agent. Qed.
Lemma quiet_onReconcileRequest bytes : quiet (onReconcileRequest opts env bytes).
Proof. unfold onReconcileRequest. auto with agent. Qed.

(** Every frame but a commit keeps the invariant and what is activated. *)
Lemma keeps_dispatch session frame :
  ftype (header frame) ≠ FrameType.ApplyCommit →
  keeps settled (dispatch opts env session frame).
Proof.
  intros Ht. unfold dispatch.
  destruct (ftype (header frame)); try done; try (apply keeps_lift);
    try (apply keeps_bind; [|intros _; apply keeps_ret]).
  - apply keeps_onPrepare.
  - apply keeps_onChunk.
  - apply keeps_onTransferComplete.
  - apply keeps_onStage.
  - apply keeps_onApplyPrepare.
  - apply keeps_onApplyAbort.
  - apply quiet_keeps, quiet_onReconcileRequest.
  - apply keeps_onRetire.
  - apply quiet_keeps, quiet_onPing.
  - apply quiet_keeps. auto with agent.
Qed.
End handlers.
