(* ===== verification/AgentCommit.v ===== *)
(** * Activation

    What a commit may do: which commits are carried out, how the live pointer
    and the committed generation move, and that no sequence of messages and no
    failure of the operating system moves the committed generation back. *)

From stdpp Require Import gmap sorting.
From Stdlib Require Import Strings.Ascii Strings.Byte.
From S2P Require Import Prelude Result StdMap Checked Hash Ids Text Codec Lifecycle Files Journal.
From S2P Require Import Snapshot Artifact FaultPlan AgentFiles AgentPaths Frame Records Messages.
From S2P Require Import Protocol State Store Agent AgentStart AgentEffects AgentLogic AgentInv AgentHandlers.

(** ** Pruning *)

Lemma delete_entries_lookup (l : list (string * Z)) (fs : FileSystem) p :
  let fs' := foldr (λ e fs, delete e.1 fs) fs l in
  fs' !! p = fs !! p ∨ (fs' !! p = None ∧ ∃ e, e ∈ l ∧ e.1 = p).
Proof.
  simpl. induction l as [|[q t] l IH]; simpl; [by left|].
  destruct (decide (q = p)) as [->|Hne].
  - right. rewrite lookup_delete_eq. split; [done|]. exists (p, t). by split; [left|].
  - rewrite lookup_delete_ne by done. destruct IH as [IH|[IH (e & He & Hp)]]; [by left|right].
    split; [done|]. exists e. by split; [right|].
Qed.

Lemma prune_lookup n directory listing fs p :
  let fs' := prunePayloads n directory listing fs in
  fs' !! p = fs !! p ∨ (fs' !! p = None ∧ direct_child directory p = true).
Proof.
  unfold prunePayloads. cbn zeta. case_match; [by left|].
  destruct (delete_entries_lookup
              (drop n (merge_sort newer (filter (λ e : string * Z,
                 direct_child directory e.1 = true ∧ is_Some (fs !! e.1)) listing))) fs p)
    as [E|[E (e & He & <-)]]; [by left|right]. split; [done|].
  assert (e ∈ merge_sort newer (filter (λ e : string * Z,
            direct_child directory e.1 = true ∧ is_Some (fs !! e.1)) listing)) as Hin.
  { rewrite <- (take_drop n (merge_sort _ _)). apply elem_of_app. by right. }
  rewrite (merge_sort_Permutation newer) in Hin. by apply list_elem_of_filter in Hin as [[? _] _].
Qed.

(** The last separator of a text. *)
Lemma append_last_separator c (a b x y : string) :
  without c x → without c y → a +:+ String c x = b +:+ String c y → a = b ∧ x = y.
Proof.
  intros Hx Hy. revert b. induction a as [|d a IH]; intros [|e b] E.
  - injection E as ->. by split.
  - change (String c x = String e (b +:+ String c y)) in E. injection E as <- ->.
    apply without_app in Hx as [_ Hx]. by apply without_cons in Hx as [[] _].
  - change (String d (a +:+ String c x) = String c y) in E. injection E as -> <-.
    apply without_app in Hy as [_ Hy]. by apply without_cons in Hy as [[] _].
  - change (String d (a +:+ String c x) = String e (b +:+ String c y)) in E. injection E as -> E.
    destruct (IH b E) as [-> ->]. by split.
Qed.

(** The only live pointer among the payloads of a key is the one of the key
    that ends in "/payload". *)
Lemma pointer_in_payloads root key key' :
  direct_child (liveKeyDirectory root key +:+ "/payload") (currentPath (liveKeyDirectory root key'))
  = true → str key' = str key +:+ "/payload".
Proof.
  unfold direct_child. intros [Hp Hx]%andb_true_iff. apply is_prefix_spec in Hp as [x E].
  rewrite E in Hx. rewrite <- (Nat.add_0_r (String.length _)), str_drop_append in Hx.
  unfold currentPath in E. rewrite append_assoc in E.
  apply (append_last_separator "/" _ _ "current" x) in E as [E _]; [|done|exact Hx].
  unfold liveKeyDirectory in E. rewrite !append_assoc in E.
  by apply append_inj_head, append_inj_head in E.
Qed.

(** ** The switch *)

Section commit.
Context (opts : AgentOptions) (env : Env).
Context (Hclock : ∀ n, fits_i64 (env_now env n)).
Context (fs0 : FileSystem) (st0 : Store AgentState).
Abbreviation directory_of := (key_directory opts).
Abbreviation settled := (settled opts fs0 st0).

(** During the activation for [key]: what holds of the committed generation
    ([C]) and of the live pointer of the key ([L]); everything else that is
    activated is as it was. *)
Record switching (key : ConfigKey) (C : TargetCommit → Prop) (L : option (list byte) → Prop)
    (fs : FileSystem) (st : Store AgentState) : Prop := {
  sw_inv : inv opts fs st;
  sw_identity : as_identity (state_ st) = as_identity (state_ st0);
  sw_fence : as_fence (state_ st) = as_fence (state_ st0);
  sw_commit : C (as_commit (state_ st));
  sw_pointer : L (fs !! currentPath (directory_of key));
  sw_others : ∀ key', key' ≠ key → str key' ≠ str key +:+ "/payload" →
    fs !! currentPath (directory_of key') = fs0 !! currentPath (directory_of key');
}.

Lemma settled_switching key fs st :
  settled fs st →
  switching key (λ c, c = as_commit (state_ st0))
    (λ p, p = fs0 !! currentPath (directory_of key)) fs st.
Proof. intros [Hinv []]. by split. Qed.

Lemma switching_mono key (C C' : _ → Prop) (L L' : _ → Prop) fs st :
  (∀ c, C c → C' c) → (∀ p, L p → L' p) → switching key C L fs st → switching key C' L' fs st.
Proof. intros HC HL []. split; auto. Qed.

(** Committing a record, as seen by the activation. *)
Lemma switching_commit key (C C' : _ → Prop) L f fs st r fs' st' :
  switching key C L fs st → after_commit f fs st r fs' st' →
  state_ok (f (state_ st)) → as_transfers (f (state_ st)) = as_transfers (state_ st) →
  as_identity (f (state_ st)) = as_identity (state_ st) →
  as_fence (f (state_ st)) = as_fence (state_ st) →
  (∀ c, C c → C' c) → C' (as_commit (f (state_ st))) → switching key C' L fs' st'.
Proof.
  intros [] Hc Hok Htx Hid Hfence HC Hf.
  assert (∀ k, fs' !! currentPath (directory_of k) = fs !! currentPath (directory_of k)) as Hlive.
  { intros k. apply (ac_files _ _ _ _ _ _ Hc). rewrite (inv_journal _ _ _ sw_inv0).
    apply journal_ne. by rewrite ending_current. }
  split.
  - apply (inv_commit opts f fs st r); try done. intros d x c. rewrite Htx.
    apply (inv_staging _ _ _ sw_inv0).
  - destruct (ac_state _ _ _ _ _ _ Hc) as [-> | ->]; congruence.
  - destruct (ac_state _ _ _ _ _ _ Hc) as [-> | ->]; congruence.
  - destruct (ac_state _ _ _ _ _ _ Hc) as [-> | ->]; auto.
  - by rewrite Hlive.
  - intros k Hk Hk'. rewrite Hlive. auto.
Qed.

Lemma switching_files key C L fs fs' st :
  (∀ p c, fs' !! p = Some c → fs !! p = Some c) →
  (∀ key', str key' ≠ str key +:+ "/payload" →
     fs' !! currentPath (directory_of key') = fs !! currentPath (directory_of key')) →
  switching key C L fs st → switching key C L fs' st.
Proof.
  intros Hsub Hlive [[] ]. split; try done.
  - split; try done.
    + intros d r c Hr Hv Hc. by apply (inv_staging d r c); [..|apply Hsub].
    + intros k g x c Hx Hc. apply (inv_payload k g x c Hx). by apply Hsub.
  - rewrite Hlive; [done|]. intros E. apply (f_equal slen) in E. rewrite slen_append in E.
    change (slen "/payload") with 8 in E. lia.
  - intros k Hk Hk'. rewrite Hlive by done. auto.
Qed.

Lemma switching_remove key C L d :
  keeps (switching key C L) (m_remove env (pendingPath d)).
Proof.
  unfold m_remove. apply keeps_bind; [apply quiet_keeps, quiet_call|]. intros [].
  - apply keeps_ret.
  - intros w. apply switching_files; simpl.
    + by intros p c [_ Hc]%lookup_delete_Some.
    + intros k _. rewrite lookup_delete_ne; [done|]. apply pending_not_live.
Qed.

Lemma switching_prune key C L : keeps (switching key C L) (m_prunePayloads opts env key).
Proof.
  unfold m_prunePayloads. apply keeps_bind; [apply quiet_keeps, quiet_call|]. intros listing w.
  apply switching_files; simpl.
  - intros p c Hc.
    destruct (prune_lookup (o_retainedPayloadsPerKey opts) (directory_of key +:+ "/payload")
                listing (w_fs w) p) as [E|[E _]]; congruence.
  - intros k Hk.
    destruct (prune_lookup (o_retainedPayloadsPerKey opts) (directory_of key +:+ "/payload")
                listing (w_fs w) (currentPath (directory_of k))) as [E|[_ E]]; [done|].
    by apply pointer_in_payloads in E.
Qed.

(** The replacement of the live pointer. *)
Lemma switching_write key (old : option (list byte)) text C :
  hoare (switching key C (λ p, p = old)) (m_write env (currentPath (directory_of key)) text)
    (λ r, match r with
          | Ok _ => switching key C (λ p, p = Some (bytes_of_string text))
          | _ => switching key C (λ p, p = old ∨ p = None)
          end).
Proof.
  intros w Hw.
  pose proof (λ p, write_other env w (currentPath (directory_of key)) text p) as Hother.
  revert Hother. unfold m_write, m_bind, m_call, m_io. simpl.
  match goal with |- context [writeFileAtomic ?f ?x ?path ?c ?fs] =>
    pose proof (writeFileAtomic_cases f x path c fs) as Hcases;
    destruct (writeFileAtomic f x path c fs) as [fs' r] end.
  simpl. intros Hother. destruct Hcases as [Hr _].
  assert (∀ L, L (fs' !! currentPath (directory_of key)) →
               switching key C L fs' (w_store w)) as Hsw.
  { intros L HL. destruct Hw as [[]]. split; try done.
    - split; try done.
      + apply (staging_ok_files opts (w_fs w)); [|done]. intros d.
        apply Hother; [apply proper_staging|apply staging_not_live].
      + apply (payload_ok_files opts (w_fs w)); [|done]. intros k g x c.
        destruct (Hother (payloadPath (directory_of k) g x)) as [E _]; [apply proper_payload| |].
        * apply ending_ne. by rewrite ending_payload, ending_current.
        * by rewrite E.
    - intros k Hk Hk'. destruct (Hother (currentPath (directory_of k))) as [E _].
      + apply proper_current.
      + intros E%currentPath_inj. by apply key_directory_inj in E.
      + rewrite E. auto. }
  destruct r; apply Hsw; [apply Hr| |done].
  destruct Hr as [-> | (_ & -> & _)]; [left; apply Hw|by right].
Qed.

(** ** Committing the generation *)

Lemma state_ok_commit g d (a : ArtifactId) s :
  fits 64 (value g) → digest_wf d → id_optional a → state_ok s →
  state_ok (upd_commit (commit_to g d a) s).
Proof.
  intros Hg Hd Ha [[] ? ? ?]. split; simpl; try done. split; simpl; try done.
  by destruct (id_isSet a).
Qed.

Lemma state_ok_finding f s :
  finding_wf f → num_isSet (fd_generation f) = true → state_ok s →
  state_ok (upd_findings (upsert_finding f) s).
Proof.
  intros Hf Hg [[] ? Hfs ?].
  destruct (upsert_finding_wf finding_wf f (as_findings s)) as [H1 H2]; [done..|].
  split; simpl; try done; try (by split).
  by apply (upsert_finding_wf (λ f, num_isSet (fd_generation f) = true)).
Qed.

(** The commit of the transfer [r]: the generation it replaces, and the one it
    makes current. *)
Definition old_commit : TargetCommit := as_commit (state_ st0).
Definition new_commit (r : TransferRecord) : TargetCommit :=
  commit_to (tx_generation r) (tx_digest r) (tx_artifact r) old_commit.

Lemma hoare_commitGeneration r L :
  transfer_wf r → transfer_ok r →
  hoare (switching (tx_key r) (λ c, c = old_commit) L)
    (commitGeneration env (tx_deployment r) (tx_key r) (tx_generation r) (tx_digest r)
       (tx_artifact r))
    (λ res, match res with
            | Ok _ => switching (tx_key r) (λ c, c = new_commit r) L
            | _ => switching (tx_key r) (λ c, c = old_commit ∨ c = new_commit r) L
            end).
Proof.
  intros Hwf Hok. unfold commitGeneration.
  set (either := λ c, c = old_commit ∨ c = new_commit r).
  set (sw := λ C, switching (tx_key r) C L).
  assert (∀ fs st, sw (λ c, c = old_commit) fs st → sw either fs st) as Hold
    by (intros ??; apply switching_mono; unfold either; auto).
  assert (∀ fs st, sw (λ c, c = new_commit r) fs st → sw either fs st) as Hnew
    by (intros ??; apply switching_mono; unfold either; auto).
  apply hoare_state. intros s.
  eapply (hoare_bind _ _ _ (λ _, sw (λ c, c = old_commit))); [|intros _|auto..].
  { intros w [Hw Hs]. assert (fits 64 (inc64 (activations (as_counters s)))) as Hn by apply inc64_fits.
    revert w Hw Hs. intros w Hw _. revert w Hw.
    change (keeps (sw (λ c, c = old_commit))
      (m_when (applyPrepared (as_window s)) (m_commit env JournalRecordType.AgentApplyResolved
           (resolvedRecord (inc64 (activations (as_counters s))))))).
    apply keeps_when. eapply hoare_commit; [by apply applies_resolved|].
    intros fs st res fs' st' Hsw Hc.
    eapply (switching_commit _ _ _ _ _ _ _ _ _ _ Hsw Hc); try done.
    - apply state_ok_resolve; [done|]. apply Hsw.
    - apply Hsw. }
  eapply (hoare_bind _ _ _ (λ res, match res with Ok _ => sw (λ c, c = new_commit r)
                                    | _ => sw either end)); [|intros _|done..].
  { eapply hoare_commit; [apply applies_commit; apply Hwf|].
    intros fs st res fs' st' Hsw Hc.
    assert (as_commit (upd_commit (commit_to (tx_generation r) (tx_digest r) (tx_artifact r))
              (state_ st)) = new_commit r) as Enew.
    { unfold new_commit. simpl. destruct Hsw as [_ _ _ -> _ _]. done. }
    assert (sw either fs' st') as Heither.
    { eapply (switching_commit _ _ _ _ _ _ _ _ _ _ Hsw Hc); try done.
      - apply state_ok_commit; try apply Hwf. apply Hsw.
      - unfold either. auto.
      - unfold either. auto. }
    destruct res; [|done..]. destruct Heither as [? ? ? ? ? ?]. split; try done.
    rewrite (ac_done _ _ _ _ _ _ Hc eq_refl). exact Enew. }
  cbn beta iota. apply (hoare_post _ _ (λ _, sw (λ c, c = new_commit r))).
  { intros []; auto. }
  apply (hoare_now env Hclock). intros t Ht. apply keeps_bind; [|intros _].
  - assert (finding_wf (mkAppliedFinding (tx_key r) (tx_generation r) (tx_digest r) (tx_artifact r)
              (tx_deployment r) DeliveryState.Applied t)) as Hf by (destruct Hwf; by split).
    eapply hoare_commit; [apply applies_finding, Hf|]. intros fs st res fs' st' Hsw Hc.
    eapply (switching_commit _ _ _ _ _ _ _ _ _ _ Hsw Hc); try done.
    + apply state_ok_finding; [done|apply Hok|apply Hsw].
    + apply Hsw.
  - unfold m_count. apply keeps_bind; [|intros _].
    + intros w [[] ]. split; simpl; try done. split; simpl; try done.
      by apply state_ok_counters; [apply count_activation_fit|].
    + unfold m_rollbackNote. apply hoare_state. intros s' w [Hsw <-].
      pose proof (inv_state _ _ _ (sw_inv _ _ _ _ _ Hsw)) as Hs.
      refine (hoare_commit env (λ fs st, sw (λ c, c = new_commit r) fs st
                                         ∧ state_ st = state_ (w_store w))
                (λ _, sw (λ c, c = new_commit r)) _ _ _ (applies_note _ (so_wf _ Hs)) _ w
                (conj Hsw eq_refl)).
      intros fs st res fs' st' [Hsw' Hst] Hc.
      eapply (switching_commit _ _ _ _ _ _ _ _ _ _ Hsw' Hc); try done.
      * apply state_ok_counters; [|apply Hsw']. intros n. apply set_notes_fit, agent_wf_counters, Hs.
      * apply Hsw'.
Qed.

(** ** Activating a staged transfer *)

Definition old_pointer (r : TransferRecord) : option (list byte) :=
  fs0 !! currentPath (directory_of (tx_key r)).
Definition new_pointer (r : TransferRecord) : option (list byte) :=
  Some (bytes_of_string (pointerText (tx_generation r) (tx_digest r) (tx_artifact r))).

(** A switch that was tried: the live pointer was not replaced (it may be
    lost), or it was and the record of it may be missing. *)
Inductive attempted (r : TransferRecord) (fs : FileSystem) (st : Store AgentState) : Prop :=
  | not_switched :
      switching (tx_key r) (λ c, c = old_commit) (λ p, p = old_pointer r ∨ p = None) fs st →
      attempted r fs st
  | switched :
      switching (tx_key r) (λ c, c = old_commit ∨ c = new_commit r) (λ p, p = new_pointer r) fs st →
      attempted r fs st.

Lemma hoare_activate s r explicitPrepare :
  transfer_wf r → transfer_ok r →
  explicitPrepare && negb (applyPrepared (as_window s)) = false →
  hoare (λ fs st, settled fs st ∧ state_ st = s) (activate opts env r explicitPrepare)
    (λ res, match res with
            | Ok _ => switching (tx_key r) (λ c, c = new_commit r) (λ p, p = new_pointer r)
            | _ => attempted r
            end).
Proof.
  intros Hwf Hok Hwindow. unfold activate. set (key := tx_key r).
  set (before := switching key (λ c, c = old_commit) (λ p, p = old_pointer r)).
  set (after := switching key (λ c, c = old_commit) (λ p, p = new_pointer r)).
  assert (∀ fs st, before fs st → attempted r fs st) as Hbefore.
  { intros fs st H. apply not_switched. revert H. apply switching_mono; auto. }
  assert (∀ fs st, after fs st → attempted r fs st) as Hafter.
  { intros fs st H. apply switched. revert H. apply switching_mono; auto. }
  apply hoare_state. intros s'.
  apply (hoare_pre _ (λ fs st, before fs st ∧ s' = s)).
  { intros fs st [[HJ <-] <-]. split; [by apply settled_switching|done]. }
  apply hoare_pure. intros ->. rewrite Hwindow. cbn [m_when].
  apply (hoare_bind _ _ _ (λ _, before)); [apply keeps_ret|intros _|auto..].
  apply (hoare_bind _ _ _ (λ _, before)); [apply quiet_keeps, quiet_fault|intros _|auto..].
  eapply hoare_bind; [apply switching_write|intros u| |].
  2,3: intros ? fs st H; apply not_switched; exact H.
  apply (hoare_bind _ _ _ (λ _, after)); [|intros _|auto..].
  { apply keeps_when. apply switching_remove. }
  apply (hoare_bind _ _ _ (λ _, after)); [apply quiet_keeps, quiet_fault|intros _|auto..].
  eapply hoare_bind; [by apply hoare_commitGeneration|intros u2| |].
  2,3: intros ? fs st H; apply switched; exact H.
  cbn beta iota. eapply hoare_post; [|apply switching_prune].
  intros [] fs st H; [done| |]; apply switched; revert H; apply switching_mono; auto.
Qed.

(** A commit that may be carried out. *)
Record authorised (s : AgentState) (m : ApplyCommitMessage) (r : TransferRecord) : Prop := {
  au_transfer : map_find (ac_deployment m) (as_transfers s) = Some r;
  au_deployment : tx_deployment r = ac_deployment m;
  au_staged : tx_staged r = true;
  au_verified : tx_verified r = true;
  au_complete : tx_bytesReceived r = tx_totalBytes r;
  au_digest : tx_digest r = ac_digest m;
  au_generation : tx_generation r = ac_generation m;
  au_newer : value (committedGeneration (as_commit s)) < value (ac_generation m);
  au_explicit : guarantee (as_identity s) = ApplyGuarantee.PrepareCommitAbort →
                applyPrepared (as_window s) = true;
  au_window : applyPrepared (as_window s) = true →
              preparedDeployment (as_window s) = ac_deployment m;
}.

(** What a commit message leads to. *)
Definition commit_effect (bytes : list byte) (fs : FileSystem) (st : Store AgentState) : Prop :=
  settled fs st
  ∨ ∃ m r, decodeApplyCommit bytes = Ok m ∧ authorised (state_ st0) m r ∧ attempted r fs st.

Lemma newer_generation s (g : Generation) :
  generation_ok g → is_stale s g = false → same_generation s g = false →
  value (committedGeneration (as_commit s)) < value g.
Proof.
  intros [[Hg _] Hset] Hstale Hsame. unfold is_stale, same_generation, committed_set in *.
  destruct (num_isSet (committedGeneration (as_commit s))) eqn:E; simpl in *.
  - unfold num_lt in Hstale. destruct (Z.ltb_spec (value g) (value (committedGeneration (as_commit s)))); [done|].
    apply bool_decide_eq_false in Hsame.
    destruct (decide (value (committedGeneration (as_commit s)) = value g)) as [E'|]; [|lia].
    destruct Hsame. destruct g, (committedGeneration (as_commit s)); simpl in *. congruence.
  - unfold num_isSet in *. apply negb_false_iff, Z.eqb_eq in E. rewrite E.
    apply negb_true_iff, Z.eqb_neq in Hset. lia.
Qed.

Lemma hoare_onApplyCommit session bytes :
  hoare (λ fs st, settled fs st ∧ state_ st = state_ st0) (onApplyCommit opts env session bytes)
    (λ _, commit_effect bytes).
Proof.
  assert (∀ fs st, settled fs st → commit_effect bytes fs st) as Hkept by (by left).
  unfold onApplyCommit. apply hoare_lift_bind; [intros fs st []; auto|]. intros m Hm.
  apply hoare_state. intros s.
  apply (hoare_pre _ (λ fs st, (settled fs st ∧ state_ st = s) ∧ s = state_ st0)).
  { intros fs st [[HJ Hs0] <-]. by split. }
  apply hoare_pure. intros Hs.
  assert (∀ n, keeps settled n → hoare (λ fs st, settled fs st ∧ state_ st = s) n
            (λ _ : Result unit, commit_effect bytes)) as Hrefuse.
  { intros n Hn. eapply hoare_pre; [|eapply hoare_post; [|exact Hn]]; [by intros ?? []|auto]. }
  destruct (is_stale s (ac_generation m)) eqn:Hstale; [apply Hrefuse; keeps_settled|].
  destruct (same_generation s (ac_generation m)) eqn:Hsame; cbn [andb].
  { case_match; apply Hrefuse; keeps_settled. }
  destruct (stagedTransfer (ac_deployment m) s) as [r|] eqn:Hfind; [|apply Hrefuse; keeps_settled].
  unfold stagedTransfer in Hfind.
  destruct (map_find (ac_deployment m) (as_transfers s)) as [r'|] eqn:Hmap; [|done].
  destruct (tx_staged r') eqn:Hstaged; [|done]. injection Hfind as ->.
  unfold commitStaged.
  destruct (bool_decide (ac_digest m = tx_digest r)) eqn:Hdigest; cbn [negb orb];
    [|apply Hrefuse; keeps_settled].
  destruct (bool_decide (ac_generation m = tx_generation r)) eqn:Hgeneration; cbn [negb];
    [|apply Hrefuse; keeps_settled].
  apply bool_decide_eq_true in Hdigest, Hgeneration.
  destruct (_ && negb (applyPrepared _)) eqn:Hexplicit; [apply Hrefuse; keeps_settled|].
  destruct (applyPrepared (as_window s) && _) eqn:Hwindow; [apply Hrefuse; keeps_settled|].
  apply (hoare_derive _ (state_ok s)); [intros fs st [HJ <-]; apply HJ|intros Hok].
  destruct (transfer_found _ _ _ Hok Hmap) as (Hdep & Htwf & Htok).
  assert (authorised s m r) as Hauth.
  { split; try done; try (apply Htok; by try apply Htok).
    - apply newer_generation; try done. by apply decoded_ok in Hm as [_ ? _].
    - intros Hg. rewrite bool_decide_eq_true_2 in Hexplicit by done. simpl in Hexplicit.
      by apply negb_false_iff in Hexplicit.
    - intros Hprep. rewrite Hprep in Hwindow. simpl in Hwindow.
      by apply negb_false_iff, bool_decide_eq_true in Hwindow. }
  assert (∀ fs st, attempted r fs st → commit_effect bytes fs st) as Hattempt.
  { intros fs st Ha. right. exists m, r. by rewrite <- Hs. }
  eapply hoare_bind; [apply hoare_try, (hoare_activate s r); [done..|exact Hexplicit]| |by intros|].
  2: { intros why fs st H. by apply Hattempt. }
  intros activated. cbn beta iota.
  apply (hoare_pre _ (attempted r)).
  { intros fs st. destruct activated; [|done..]. intros H. apply switched. revert H.
    apply switching_mono; auto. }
  apply (hoare_post _ _ (λ _, attempted r)); [auto|].
  apply quiet_keeps. destruct activated; auto 12 with agent.
Qed.
End commit.
