(* ===== verification/AgentSpec.v ===== *)
(** * What an agent promises

    The abstract target: a register that holds one activated generation and
    only ever moves forward. Every message handler refines one of its steps
    and every session a sequence of them, whatever the peer sends and whatever
    the operating system answers; and a commit is carried out only for content
    that was received completely, verified, staged and, on a target that
    cannot activate atomically, prepared. *)

From stdpp Require Import gmap.
From Stdlib Require Import Strings.Byte.
From S2P Require Import Prelude Result StdMap Checked Hash Ids Text Codec Lifecycle Files Journal.
From S2P Require Import Snapshot Artifact FaultPlan AgentFiles AgentPaths Frame Records Messages.
From S2P Require Import Protocol State Store Agent AgentStart AgentEffects AgentLogic AgentInv.
From S2P Require Import AgentExample AgentHandlers AgentCommit.

(** ** The abstract target *)

Record Target := mkTarget { t_generation : Generation; t_digest : Digest }.

Inductive target_step : Target → Target → Prop :=
  | target_idle t : target_step t t
  | target_advance t g d : value (t_generation t) < value g → target_step t (mkTarget g d).

Lemma target_never_back t t' :
  rtc target_step t t' →
  value (t_generation t) <= value (t_generation t')
  ∧ (t_generation t = t_generation t' → t_digest t = t_digest t').
Proof.
  induction 1 as [t|t t1 t2 Hstep _ [IH1 IH2]]; [by split; [lia|]|].
  destruct Hstep as [t|t g d Hlt]; [done|]. simpl in *. split; [lia|].
  intros E. rewrite E in Hlt. lia.
Qed.

(** The abstraction of a running agent. *)
Definition target_of (st : Store AgentState) : Target :=
  mkTarget (committedGeneration (as_commit (state_ st))) (committedDigest (as_commit (state_ st))).

Section spec.
Context (opts : AgentOptions) (env : Env).
Context (Hclock : ∀ n, fits_i64 (env_now env n)).

(** ** One message *)

(** What one frame may lead to. *)
Definition frame_effect (frame : Frame) (fs : FileSystem) (st : Store AgentState)
    (fs' : FileSystem) (st' : Store AgentState) : Prop :=
  untouched opts fs st fs' st'
  ∨ ∃ m r, ftype (header frame) = FrameType.ApplyCommit
      ∧ decodeApplyCommit (fpayload frame) = Ok m
      ∧ authorised (state_ st) m r ∧ attempted opts fs st r fs' st'.

Lemma dispatch_effect session frame w :
  inv opts (w_fs w) (w_store w) →
  let w' := (dispatch opts env session frame w).1 in
  inv opts (w_fs w') (w_store w') ∧ frame_effect frame (w_fs w) (w_store w) (w_fs w') (w_store w').
Proof.
  intros Hinv w'. subst w'.
  assert (settled opts (w_fs w) (w_store w) (w_fs w) (w_store w)) as Hsettled
    by (split; [done|apply untouched_refl]).
  destruct (decide (ftype (header frame) = FrameType.ApplyCommit)) as [Ht|Ht].
  - assert (dispatch opts env session frame
            = do@ onApplyCommit opts env session (fpayload frame) in m_ret true) as ->.
    { unfold dispatch. by rewrite Ht. }
    assert (hoare (λ fs st, settled opts (w_fs w) (w_store w) fs st
                            ∧ state_ st = state_ (w_store w))
              (do@ onApplyCommit opts env session (fpayload frame) in m_ret true)
              (λ _, commit_effect opts (w_fs w) (w_store w) (fpayload frame))) as H.
    { eapply hoare_bind; [by apply hoare_onApplyCommit|intros u; apply keeps_ret|done|done]. }
    destruct (H w (conj Hsettled eq_refl)) as [[? ?]|(m & r & Hm & Ha & Hatt)].
    + split; [done|by left].
    + split; [destruct Hatt as [[] |[] ]; done|]. right. by exists m, r.
  - destruct (keeps_dispatch opts env Hclock _ _ session frame Ht w Hsettled).
    split; [done|by left].
Qed.

Lemma frame_effect_refines frame fs st fs' st' :
  frame_effect frame fs st fs' st' → target_step (target_of st) (target_of st').
Proof.
  intros [[_ _ Hc _ _]|(m & r & _ & _ & Ha & Hatt)]; unfold target_of.
  - rewrite Hc. apply target_idle.
  - assert (target_step (target_of st)
              (mkTarget (committedGeneration (new_commit st r)) (committedDigest (new_commit st r))))
      as Hadvance.
    { apply target_advance. simpl. rewrite (au_generation _ _ _ Ha). apply Ha. }
    destruct Hatt as [[_ _ _ Hc _ _] | [_ _ _ [Hc|Hc] _ _]]; rewrite Hc; try done; apply target_idle.
Qed.

(** ** A session *)

(** What holds during a session that began in [st0]. *)
Definition evolved (st0 : Store AgentState) (fs : FileSystem) (st : Store AgentState) : Prop :=
  inv opts fs st ∧ as_identity (state_ st) = as_identity (state_ st0)
  ∧ rtc target_step (target_of st0) (target_of st).

Lemma effect_identity frame fs st fs' st' :
  frame_effect frame fs st fs' st' → as_identity (state_ st') = as_identity (state_ st).
Proof. by intros [[] |(m & r & _ & _ & _ & [[] |[] ])]. Qed.

Lemma keeps_evolved_dispatch st0 session frame :
  keeps (evolved st0) (dispatch opts env session frame).
Proof.
  intros w (Hinv & Hid & Hrun). destruct (dispatch_effect session frame w Hinv) as [Hinv' Heff].
  split; [done|]. split; [by rewrite (effect_identity _ _ _ _ _ Heff)|].
  eapply rtc_r; [done|]. by eapply frame_effect_refines.
Qed.

Lemma keeps_evolved_fence st0 hello :
  hello_wf hello →
  keeps (evolved st0) (m_commit env JournalRecordType.AgentControllerFence (fenceRecord hello)).
Proof.
  intros Hh. eapply hoare_commit; [by apply applies_fence|].
  intros fs st r fs' st' (Hinv & Hid & Hrun) Hc. split.
  - apply (inv_commit opts (upd_fence (λ _, fence_to hello)) fs st r); try done.
    + destruct (inv_state _ _ _ Hinv) as [[] ? ? ?]. destruct Hh. split; simpl; try done.
      split; simpl; try done. by right.
    + apply Hinv.
  - destruct (ac_state _ _ _ _ _ _ Hc) as [E|E]; unfold target_of; rewrite E; by split.
Qed.

Lemma keeps_evolved_handshake st0 : keeps (evolved st0) (handshake opts env).
Proof.
  unfold handshake. apply keeps_bind; [step_quiet|intros frame].
  case_match; [apply keeps_lift|]. step_lift. rename a into hello.
  match goal with H : decodeHello _ = _ |- _ => apply decoded_ok in H as [Hh _] end.
  apply hoare_state. intros s. apply (hoare_weaken _ (evolved st0)); [by intros ?? []|].
  do 4 (case_match; [step_quiet|]).
  apply keeps_bind; [by apply keeps_evolved_fence|intros _].
  step_quiet. apply quiet_bind; [apply quiet_state|intros s']. apply quiet_bind; [apply quiet_call|intros nonce].
  do 2 (apply quiet_bind; [apply quiet_lift|intros ?]).
  apply quiet_bind; [apply quiet_send|intros _]. apply quiet_bind; [apply quiet_receive|intros confirm].
  case_match; [apply quiet_lift|]. apply quiet_bind; [apply quiet_lift|intros ?].
  repeat case_match; auto with agent.
Qed.

Lemma keeps_evolved_loop st0 fuel session : keeps (evolved st0) (serve_loop opts env fuel session).
Proof.
  revert session. induction fuel as [|fuel IH]; intros session; simpl; [apply keeps_ret|].
  apply keeps_bind; [step_quiet|]. intros [frame|e|why]; [|case_match|]; try apply keeps_lift.
  apply keeps_bind; [apply keeps_evolved_dispatch|]. intros []; [apply IH|apply keeps_ret].
Qed.

Lemma keeps_evolved_serve st0 : keeps (evolved st0) (serve opts env).
Proof.
  unfold serve. apply keeps_bind; [apply keeps_evolved_handshake|intros session].
  apply keeps_bind; [step_quiet|intros n]. apply keeps_evolved_loop.
Qed.

Lemma keeps_inv_deliver session frames : keeps (inv opts) (deliver opts env session frames).
Proof.
  induction frames as [|frame frames IH]; simpl; [apply keeps_ret|].
  apply keeps_bind; [|intros _; done]. intros w Hw. by apply dispatch_effect.
Qed.
End spec.

(** ** The example agent keeps the invariant *)

Lemma calm_clock listing n : fits_i64 (env_now (calm_env listing) n).
Proof. split; vm_compute; [discriminate|reflexivity]. Qed.

Definition opened_state (g : ApplyGuarantee) : AgentState :=
  mkAgentState
    (mkIdentity (mkString "t1") TargetClass.NetworkDevice g (fromValue 1)
       (mkOpaque (repeat Byte.x11 16)) 1)
    (mkFence num_unset opaque_unset id_empty) (mkCommit num_unset digest_unset id_empty)
    closed_window [] [] (mkCounters 0 0 0 0 0).

Lemma opened_state_eq g : state_ (w_store (opened_world g)) = opened_state g.
Proof. destruct g; vm_compute; reflexivity. Qed.

Lemma opened_state_ok g : state_ok (opened_state g).
Proof.
  split; simpl; [|by constructor..|done].
  split; simpl; first [by left | by right | solve_range_closed | apply keyed_nil | reflexivity
    | by constructor | vm_compute; discriminate].
Qed.

Lemma opened_files g p content :
  w_fs (opened_world g) !! p = Some content → p = "s/agent.journal".
Proof.
  intros H. assert (map_to_list (w_fs (opened_world g))
    = [("s/agent.journal", default [] (w_fs (opened_world g) !! "s/agent.journal"))]) as E
    by (destruct g; vm_compute; reflexivity).
  apply elem_of_map_to_list in H. rewrite E in H. apply list_elem_of_singleton in H.
  exact (f_equal fst H).
Qed.

Lemma opened_inv g : inv (example_agent g) (w_fs (opened_world g)) (w_store (opened_world g)).
Proof.
  split.
  - rewrite opened_state_eq. apply opened_state_ok.
  - rewrite opened_state_eq. intros d r c Hr. exfalso. clear - Hr. by destruct g.
  - intros k x d c _ Hl%opened_files. exfalso. revert Hl. clear. apply ending_ne. by rewrite ending_payload.
  - destruct g; vm_compute; reflexivity.
Qed.

Lemma staged_inv g : inv (example_agent g) (w_fs (staged_world g)) (w_store (staged_world g)).
Proof.
  apply (keeps_inv_deliver (example_agent g) (calm_env []) (calm_clock []) example_session
           (map frame_of example_delivery) (opened_world g) (opened_inv g)).
Qed.

(** ** Properties *)

(** C1: only an authorised commit activates anything. Whatever frame arrives and
    whatever the operating system answers, either the committed generation,
    the recorded findings and every live pointer stay as they are, or the
    frame is a commit of a transfer that was staged and verified, with every
    declared byte received, whose generation is newer than the committed one
    and for which a target that cannot activate atomically has its prepare
    window open. In that case the live pointer of the key becomes the pointer
    to exactly that generation and digest, or is left (or, when the fallback
    of the replacement fails, lost) and then nothing is committed; no other
    key is touched, except a key that ends in "/payload" (see
    [retention_deletes_activated]); and a payload in the live area always hashes to
    the digest in its name. *)
Theorem activation_authorised opts env session frame w
    (Hclock : ∀ n, fits_i64 (env_now env n)) (Hinv : inv opts (w_fs w) (w_store w)) :
  let w' := (dispatch opts env session frame w).1 in
  inv opts (w_fs w') (w_store w')
  ∧ (untouched opts (w_fs w) (w_store w) (w_fs w') (w_store w')
     ∨ ∃ m r,
         ftype (header frame) = FrameType.ApplyCommit
         ∧ decodeApplyCommit (fpayload frame) = Ok m
         ∧ authorised (w_state w) m r
         ∧ as_identity (w_state w') = as_identity (w_state w)
         ∧ (let pointer := currentPath (key_directory opts (tx_key r)) in
            (as_commit (w_state w') = as_commit (w_state w)
             ∧ (w_fs w' !! pointer = w_fs w !! pointer ∨ w_fs w' !! pointer = None))
            ∨ ((as_commit (w_state w') = as_commit (w_state w)
                ∨ as_commit (w_state w')
                  = commit_to (ac_generation m) (ac_digest m) (tx_artifact r)
                      (as_commit (w_state w)))
               ∧ w_fs w' !! pointer
                 = Some (bytes_of_string (pointerText (ac_generation m) (ac_digest m)
                           (tx_artifact r)))))
         ∧ ∀ key, key ≠ tx_key r → str key ≠ str (tx_key r) +:+ "/payload" →
             w_fs w' !! currentPath (key_directory opts key)
             = w_fs w !! currentPath (key_directory opts key)).
Proof.
  intros w'. destruct (dispatch_effect opts env Hclock session frame w Hinv) as [Hinv' Heff].
  split; [done|]. destruct Heff as [H|(m & r & Ht & Hm & Ha & Hatt)]; [by left|right].
  exists m, r. do 3 (split; [done|]).
  assert (new_commit (w_store w) r
          = commit_to (ac_generation m) (ac_digest m) (tx_artifact r) (as_commit (w_state w))) as Enew.
  { unfold new_commit, old_commit. by rewrite (au_generation _ _ _ Ha), (au_digest _ _ _ Ha). }
  destruct Hatt as [[_ Hid _ Hc Hp Ho]|[_ Hid _ Hc Hp Ho]]; (split; [done|split; [|done]]).
  - left. by split.
  - right. unfold new_pointer in Hp. rewrite Enew in Hc.
    rewrite (au_generation _ _ _ Ha), (au_digest _ _ _ Ha) in Hp. by split.
Qed.

Lemma activation_authorised_witness :
  let w := staged_world ApplyGuarantee.AtomicActivate in
  let w' := (dispatch (example_agent ApplyGuarantee.AtomicActivate) (calm_env []) example_session
               commit_frame w).1 in
  inv (example_agent ApplyGuarantee.AtomicActivate) (w_fs w') (w_store w')
  ∧ committedGeneration (as_commit (w_state w')) = fromValue 5.
Proof.
  split; [|vm_compute; reflexivity].
  refine (proj1 (activation_authorised (example_agent ApplyGuarantee.AtomicActivate) (calm_env [])
    example_session commit_frame (staged_world ApplyGuarantee.AtomicActivate) (calm_clock [])
    (staged_inv ApplyGuarantee.AtomicActivate))).
Defined.

(** A session refines the abstract target. Whatever the peer sends and
    whatever the operating system answers, including an end of the process at
    any point, serving a session is a sequence of steps of a register that
    only moves forward: the committed generation never decreases, a generation
    keeps the digest it was first committed with, and the identity of the
    target does not change. *)
Theorem session_refines_target opts env w
    (Hclock : ∀ n, fits_i64 (env_now env n)) (Hinv : inv opts (w_fs w) (w_store w)) :
  let w' := (serve opts env w).1 in
  rtc target_step (target_of (w_store w)) (target_of (w_store w'))
  ∧ as_identity (w_state w') = as_identity (w_state w)
  ∧ inv opts (w_fs w') (w_store w')
  ∧ let c := as_commit (w_state w) in
    let c' := as_commit (w_state w') in
    value (committedGeneration c) <= value (committedGeneration c')
    ∧ (committedGeneration c = committedGeneration c' → committedDigest c = committedDigest c').
Proof.
  intros w'. destruct (keeps_evolved_serve opts env Hclock (w_store w) w) as (Hi & Hid & Hrun).
  { split; [done|]. by split. }
  do 3 (split; [done|]). by apply (target_never_back _ _ Hrun).
Qed.

Definition example_hello_frame : Frame :=
  let hello := mkHelloMessage (mkString "n1") (fromValue 1) (mkOpaque (repeat Byte.x01 16))
                 (mkOpaque (repeat Byte.x02 16)) 1 1 1048576 0x1F zero_tag in
  match encodeHello hello with
  | Ok bytes =>
      match sealAuthenticated bytes [Byte.x41] with
      | Ok sealed => mkFrame (frame_header FrameType.Hello 0 sealed) sealed
      | _ => frame_of (MHello hello)
      end
  | _ => frame_of (MHello hello)
  end.

Lemma inv_inbox opts frames w :
  inv opts (w_fs w) (w_store w) →
  inv opts (w_fs (set_inbox frames w)) (w_store (set_inbox frames w)).
Proof. done. Qed.

Lemma session_refines_target_witness :
  let w := set_inbox [Ok example_hello_frame] (staged_world ApplyGuarantee.AtomicActivate) in
  let w' := (serve (example_agent ApplyGuarantee.AtomicActivate) (calm_env []) w).1 in
  rtc target_step (target_of (w_store w)) (target_of (w_store w'))
  ∧ map m_type (w_sent w') = map m_type (w_sent w) ++ [FrameType.HelloAck].
Proof.
  split; [|vm_compute; reflexivity].
  refine (proj1 (session_refines_target (example_agent ApplyGuarantee.AtomicActivate) (calm_env [])
    (set_inbox [Ok example_hello_frame] (staged_world ApplyGuarantee.AtomicActivate)) (calm_clock [])
    (inv_inbox _ _ _ (staged_inv ApplyGuarantee.AtomicActivate)))).
Defined.
