(* ===== verification/AgentWp.v ===== *)
(** * Postconditions of agent computations

    The weakest precondition of a computation of the agent over whole worlds,
    its rules, and what committing a record and sending a message do to a
    world. The triples of AgentLogic.v speak of files and store only; here the
    frames received and sent count too. *)

From stdpp Require Import gmap.
From Stdlib Require Import Strings.Byte.
From S2P Require Import Prelude Result StdMap Checked Hash Ids Text Codec Lifecycle Files Journal.
From S2P Require Import Snapshot Artifact FaultPlan AgentFiles AgentPaths Frame Records Messages.
From S2P Require Import Protocol State Store Agent AgentStart AgentEffects AgentLogic AgentInv.

Definition wp {A} (m : M A) (Q : World → Result A → Prop) (w : World) : Prop :=
  Q (m w).1 (m w).2.

Section rules.
Context {A B : Type}.
Implicit Types Q : World → Result A → Prop.

Lemma wp_mono (m : M A) Q Q' w : (∀ w' r, Q w' r → Q' w' r) → wp m Q w → wp m Q' w.
Proof. intros H. apply H. Qed.
Lemma wp_bind (m : M A) (k : A → M B) (Q : World → Result B → Prop) w :
  wp m (λ w' r, match r with
                | Ok a => wp (k a) Q w'
                | Fail e => Q w' (Fail e)
                | Abort why => Q w' (Abort why)
                end) w →
  wp (m_bind m k) Q w.
Proof. unfold wp, m_bind. by destruct (m w) as [w' [a|e|why]]. Qed.
Lemma wp_ret (a : A) Q w : Q w (Ok a) → wp (m_ret a) Q w.
Proof. done. Qed.
Lemma wp_lift (r : Result A) Q w : Q w r → wp (m_lift r) Q w.
Proof. done. Qed.
Lemma wp_get (f : World → A) Q w : Q w (Ok (f w)) → wp (m_get f) Q w.
Proof. done. Qed.
Lemma wp_call (f : nat → A) Q w : Q (next_call w) (Ok (f (w_calls w))) → wp (m_call f) Q w.
Proof. done. Qed.
Lemma wp_try (m : M A) (Q : World → Result (Result A) → Prop) w :
  wp m (λ w' r, match r with Abort why => Q w' (Abort why) | r => Q w' (Ok r) end) w →
  wp (m_try m) Q w.
Proof. unfold wp, m_try. by destruct (m w) as [w' [a|e|why]]. Qed.
End rules.

Lemma wp_modify f (Q : World → Result unit → Prop) w : Q (f w) (Ok tt) → wp (m_modify f) Q w.
Proof. done. Qed.
Lemma wp_state (Q : World → Result AgentState → Prop) w : Q w (Ok (w_state w)) → wp get_state Q w.
Proof. done. Qed.

(** What a quiet computation leaves of a world. *)
Lemma wp_quiet {A} (m : M A) (Q : World → Result A → Prop) w :
  quiet m → (∀ w' r, w_fs w' = w_fs w → w_store w' = w_store w → Q w' r) → wp m Q w.
Proof. intros Hm HQ. destruct (Hm w). by apply HQ. Qed.

Section env.
Context (env : Env).

(** The world after the store has changed. *)
Definition stored (fs : FileSystem) (st : Store AgentState) (w : World) : World :=
  set_store st (set_fs fs (next_call w)).

Lemma wp_commit (Q : World → Result unit → Prop) type w f world :
  applies type w f →
  (∀ fs' st' r, after_commit f (w_fs world) (w_store world) r fs' st' →
     Q (stored fs' st' world) r) →
  wp (m_commit env type w) Q world.
Proof.
  intros (bs & -> & Hf) HQ. unfold wp, m_commit, m_bind, m_lift, m_call.
  pose proof (commit_effect (env_append env (w_calls world)) (w_store world) type bs (w_fs world)
                f Hf) as Hc. simpl.
  destruct (commit _ (w_store world) type bs (w_fs world)) as [[fs' st'] r]. simpl.
  by apply HQ.
Qed.

(** A message is sent, or nothing but the count of calls changes. *)
Lemma wp_send (Q : World → Result unit → Prop) type flags payload world :
  Q (set_sent (w_sent world ++ [mkMessage type flags payload]) (next_call world)) (Ok tt) →
  (∀ w' r, w' = world ∨ w' = next_call world → is_ok r = false → Q w' r) →
  wp (m_send env type flags payload) Q world.
Proof.
  intros Hsent Hfail. unfold wp, m_send, m_bind, m_lift, m_call.
  destruct (encodeFrame _ _ _ _); [|apply Hfail; auto..]. simpl.
  destruct (env_send_fails env (w_calls world)); [apply Hfail; auto|]. exact Hsent.
Qed.

Lemma wp_receive (Q : World → Result Frame → Prop) world :
  (∀ r, (∀ frame, r ≠ Ok frame) → ∀ w', w_fs w' = w_fs world → w_store w' = w_store world →
        Q w' r) →
  (∀ frame inbox, w_inbox world = Ok frame :: inbox → Q (set_inbox inbox world) (Ok frame)) →
  wp m_receive Q world.
Proof.
  intros Hfail Hok. unfold wp, m_receive. destruct (w_inbox world) as [|[frame|e|why] inbox];
    [by apply Hfail|by apply Hok|by apply Hfail..].
Qed.
End env.

(** The steps that need no thought. *)
Ltac wp_step :=
  lazymatch goal with
  | |- wp (m_bind _ _) _ _ => apply wp_bind
  | |- wp (m_ret _) _ _ => apply wp_ret
  | |- wp (m_lift _) _ _ => apply wp_lift
  | |- wp (m_get _) _ _ => apply wp_get
  | |- wp get_state _ _ => apply wp_state
  | |- wp (m_call _) _ _ => apply wp_call
  | |- wp (m_modify _) _ _ => apply wp_modify
  | |- wp (m_try _) _ _ => apply wp_try
  end; cbn beta iota.
