(* ===== verification/AgentAnswers.v ===== *)
(** * Fences, pointers and reports of the agent

    The handshake admits an authority only behind the fence of the last one;
    the live pointer can be read back; the reconciliation report says what the
    state holds and can always be decoded; and the replies that cannot. *)

From stdpp Require Import gmap.
From Stdlib Require Import Strings.Ascii Strings.Byte.
From S2P Require Import Prelude Result StdMap Checked Hash Ids Text Codec Lifecycle Files Journal.
From S2P Require Import Snapshot Artifact FaultPlan AgentFiles AgentPaths Frame Records Messages.
From S2P Require Import Protocol State Store Agent AgentStart AgentEffects AgentLogic AgentInv.
From S2P Require Import AgentWp AgentExample AgentHandlers AgentCommit AgentSpec.

(** ** The live pointer *)

Lemma identifier_not_padding c : identifier_char c = true → negb (pointer_padding c) = true.
Proof.
  intros Hc. unfold pointer_padding. apply negb_true_iff.
  destruct (Ascii.eqb_spec c "010") as [->|_]; [done|].
  destruct (Ascii.eqb_spec c "013") as [->|_]; [done|].
  destruct (Ascii.eqb_spec c " ") as [->|_]; done.
Qed.

Lemma optional_characters {Tag} (i : StrongString Tag) :
  id_optional i → string_forallb identifier_char (str i) = true.
Proof.
  intros [->|Hi]; [done|]. unfold id_valid, isValidIdentifier in Hi.
  destruct (str i) as [|c s]; [done|]. case_match; [done|]. case_match; [done|]. done.
Qed.

Lemma hex_without_space bytes : without " " (toHex bytes).
Proof.
  apply (string_forallb_impl identifier_char); [|apply hex_identifier].
  intros c Hc. apply identifier_not_padding, negb_true_iff in Hc. unfold pointer_padding in Hc.
  apply orb_false_iff in Hc as [_ Hc]. by rewrite Hc.
Qed.

(** The longest text of a pointer: twenty digits, the digest, an identifier. *)
Lemma slen_pointerText generation digest artifact :
  fits 64 (value generation) → digest_wf digest → id_optional artifact →
  slen (pointerText generation digest artifact) <= 20 + 1 + 64 + 1 + kMaxIdentifierLength + 1.
Proof.
  intros [H0 H1] Hd Ha. unfold pointerText, slen. rewrite !length_append.
  assert (slen (to_string (value generation)) <= 20) as Hn by (apply slen_to_string; lia).
  assert (slen (str artifact) <= kMaxIdentifierLength) as Hi.
  { destruct Ha as [-> |Ha]; [done|by apply id_valid_length]. }
  assert (slen (digest_hex digest) = 64) as Hx.
  { unfold slen, digest_hex. by rewrite length_toHex, Hd. }
  unfold slen in *. change (String.length newline) with 1%nat. change (String.length " ") with 1%nat.
  lia.
Qed.

Lemma parsePointer_text generation digest artifact :
  fits 64 (value generation) → digest_wf digest → id_optional artifact →
  parsePointer (pointerText generation digest artifact)
  = Ok (mkPointer generation digest artifact).
Proof.
  intros Hg Hd Ha. unfold parsePointer, pointerText.
  assert (∀ x y, x +:+ " " +:+ y = x +:+ String " " y) as Hsep by done.
  rewrite !Hsep, cut_app by (apply to_string_without; [apply Hg|vm_compute; auto]).
  rewrite cut_app by apply hex_without_space.
  unfold newline. rewrite (trim_back_snoc _ (str artifact)); [|..|done].
  2: { eapply string_forallb_impl; [apply identifier_not_padding|]. by apply optional_characters. }
  rewrite parse_decimal_to_string by done. simpl. rewrite Digest_parse_hex by done. simpl.
  case_decide as E.
  - simpl. destruct generation, artifact. simpl in *. by subst.
  - destruct Ha as [Ha|Ha]; [done|].
    assert (parseArtifactId (str artifact) = Ok artifact) as ->.
    { apply parseId_Ok. by destruct artifact. }
    simpl. by destruct generation.
Qed.

Lemma parsePointer_range text pointer :
  parsePointer text = Ok pointer →
  fits 64 (value (pv_generation pointer)) ∧ digest_wf (pv_digest pointer)
  ∧ id_optional (pv_artifact pointer).
Proof.
  unfold parsePointer. case_match; [|done]. case_match. case_match; [|done]. case_match.
  destruct (parse_decimal _ _ _ _ _) as [g| |] eqn:Eg; [|done..]. simpl.
  destruct (Digest_parse _) as [d| |] eqn:Ed; [|done..]. simpl.
  case_decide; simpl.
  - intros [= <-]. split_and!; simpl; [by eapply parse_decimal_range|by eapply Digest_parse_wf|by left].
  - destruct (parseArtifactId _) as [a| |] eqn:Ea; [|done..]. intros [= <-].
    split_and!; simpl; [by eapply parse_decimal_range|by eapply Digest_parse_wf|].
    right. by apply parseId_Ok in Ea as [-> ?].
Qed.

(** The live pointer survives its file: reading back the text written for a
    generation, digest and artifact gives exactly them, the text fits the
    bound of the reader, and a text that parses holds a 64-bit generation, a
    digest of 32 bytes and a valid or empty artifact. *)
Theorem live_pointer_roundtrip generation digest artifact fs path text pointer
    (Hg : fits 64 (value generation)) (Hd : digest_wf digest) (Ha : id_optional artifact)
    (Hfile : fs !! path = Some (bytes_of_string (pointerText generation digest artifact)))
    (Hparse : parsePointer text = Ok pointer) :
  (readLiveValue path fs).2 = Ok (pointerText generation digest artifact)
  ∧ parsePointer (pointerText generation digest artifact)
    = Ok (mkPointer generation digest artifact)
  ∧ fits 64 (value (pv_generation pointer)) ∧ digest_wf (pv_digest pointer)
  ∧ id_optional (pv_artifact pointer).
Proof.
  split; [|split; [by apply parsePointer_text|by eapply parsePointer_range]].
  pose proof (slen_pointerText _ _ _ Hg Hd Ha) as Hlen.
  unfold readLiveValue, io_bind, readFileBounded. rewrite Hfile. cbn [snd].
  rewrite zlen_bytes_of_string. destruct (Z.gtb_spec (slen (pointerText generation digest artifact))
    kMaxLiveValueBytes) as [Hgt|_].
  - unfold kMaxLiveValueBytes, kMaxIdentifierLength in *. lia.
  - unfold io_ret. simpl. by rewrite string_of_bytes_of_string.
Qed.

Lemma live_pointer_roundtrip_witness :
  let text := pointerText (fromValue 18446744073709551615) (Digest_ofText "x") (mkString "a1") in
  parsePointer text
  = Ok (mkPointer (fromValue 18446744073709551615) (Digest_ofText "x") (mkString "a1")).
Proof.
  refine (proj1 (proj2 (live_pointer_roundtrip (fromValue 18446744073709551615) (Digest_ofText "x")
    (mkString "a1") {[ "c" := bytes_of_string (pointerText (fromValue 18446744073709551615)
                                (Digest_ofText "x") (mkString "a1")) ]} "c"
    (pointerText (fromValue 0) (Digest_ofText "y") id_empty)
    (mkPointer (fromValue 0) (Digest_ofText "y") id_empty) _ _ _ _ _))).
  - split; vm_compute; congruence.
  - vm_compute. reflexivity.
  - right. reflexivity.
  - apply lookup_singleton_eq.
  - vm_compute. reflexivity.
Defined.

(** ** The handshake *)

(** The hello that raises the fence. *)
Record admitted (opts : AgentOptions) (s : AgentState) (frame : Frame) (hello : HelloMessage)
    : Prop := {
  ad_type : ftype (header frame) = FrameType.Hello;
  ad_hello : decodeHello (fpayload frame) = Ok hello;
  ad_version : he_minWireVersion hello <= kWireVersion <= he_maxWireVersion hello;
  ad_tag : o_authenticate opts = true → verifyAuthenticated (fpayload frame) (o_key opts) = Ok tt;
  ad_epoch : value (lastControllerEpoch (as_fence s)) <= value (he_epoch hello);
  ad_incarnation :
    num_isSet (lastControllerEpoch (as_fence s)) = true →
    he_epoch hello = lastControllerEpoch (as_fence s) →
    opaque_isSet (lastControllerIncarnation (as_fence s)) = true →
    he_incarnation hello = lastControllerIncarnation (as_fence s);
}.

(** The confirmation that opens the session after the acknowledgement [ack]. *)
Record confirmed (opts : AgentOptions) (ack : Message) (frame : Frame) : Prop := {
  cf_type : ftype (header frame) = FrameType.HelloConfirm;
  cf_tag : ∃ confirm, decodeHelloConfirm (fpayload frame) = Ok confirm
    ∧ if o_authenticate opts
      then verifyAuthenticated (with_tag (m_payload ack) (hc_authTag confirm)) (o_key opts) = Ok tt
      else any_nonzero (hc_authTag confirm) = false;
}.

Definition handshake_effect (opts : AgentOptions) (w w' : World) (r : Result Session) : Prop :=
  (w_state w' = w_state w ∧ is_ok r = false)
  ∨ ∃ frame hello rest,
      w_inbox w = Ok frame :: rest ∧ admitted opts (w_state w) frame hello
      ∧ (w_state w' = w_state w ∨ w_state w' = upd_fence (λ _, fence_to hello) (w_state w))
      ∧ ∀ session, r = Ok session →
          w_state w' = upd_fence (λ _, fence_to hello) (w_state w)
          ∧ se_authorityEpoch session = he_epoch hello
          ∧ se_authorityIncarnation session = he_incarnation hello
          ∧ ∃ confirm ack,
              rest = Ok confirm :: w_inbox w' ∧ confirmed opts ack confirm
              ∧ w_sent w' = w_sent w ++ [ack] ∧ m_type ack = FrameType.HelloAck.

Lemma is_ok_verify r : is_ok (r : Status) = true → r = Ok tt.
Proof. by destruct r as [[]| |]. Qed.

Lemma refuse_effect {A} env c d w (Q : World → Result A → Prop) :
  (∀ w' r, w_state w' = w_state w → is_ok r = false → Q w' r) → wp (refuseHandshake env c d) Q w.
Proof.
  intros HQ. unfold refuseHandshake. wp_step. apply wp_quiet; [auto with agent|].
  intros w' [a|e|why] _ Hst; [wp_step|..]; apply HQ; try done; unfold w_state; by rewrite Hst.
Qed.

(** From the committed fence on, only the connection changes. *)
Lemma confirm_effect opts env session w (Q : World → Result Session → Prop) :
  (∀ w' r, w_state w' = w_state w → is_ok r = false → Q w' r) →
  (∀ w' confirm ack, w_state w' = w_state w → w_inbox w = Ok confirm :: w_inbox w' →
     confirmed opts ack confirm → w_sent w' = w_sent w ++ [ack] → m_type ack = FrameType.HelloAck →
     Q w' (Ok session)) →
  wp (let@ s := get_state in
      let@ nonce := m_call (env_random env) in
      let@ encoded := m_lift (encodeHelloAck (helloAck s nonce)) in
      let@ encoded := m_lift (if o_authenticate opts then sealAuthenticated encoded (o_key opts)
                              else Ok encoded) in
      do@ m_send env FrameType.HelloAck kFrameFlagResponse encoded in
      let@ confirmFrame := m_receive in
      if negb (bool_decide (ftype (header confirmFrame) = FrameType.HelloConfirm)) then
        m_lift (fail_detail ErrorCode.UnexpectedMessage "expected a hello-confirm frame"
                  (frameTypeName (ftype (header confirmFrame))))
      else
        let@ confirm := m_lift (decodeHelloConfirm (fpayload confirmFrame)) in
        if o_authenticate opts then
          if is_ok (verifyAuthenticated (with_tag encoded (hc_authTag confirm)) (o_key opts))
          then m_ret session
          else refuseHandshake env ErrorCode.Unauthenticated
                 "controller failed to confirm the session transcript"
        else if any_nonzero (hc_authTag confirm)
        then refuseHandshake env ErrorCode.Unauthenticated
               "authentication is disabled but the controller sent a tag"
        else m_ret session) Q w.
Proof.
  intros Hfail Hok. do 4 wp_step. do 2 wp_step.
  destruct (encodeHelloAck _) as [encoded| |]; [|by apply Hfail..]. do 2 wp_step.
  destruct (if o_authenticate opts then _ else _) as [sealed| |]; [|by apply Hfail..].
  wp_step. apply wp_send; [|intros w' [u|e|why] [-> | ->]; done || (intros _; by apply Hfail)].
  wp_step. apply wp_receive.
  { intros r Hr w' _ Hst. destruct r as [frame| |]; [by destruct (Hr frame)|..];
      apply Hfail; try done; unfold w_state; by rewrite Hst. }
  intros frame inbox Hin. case_bool_decide as Ht; cbn [negb]; [|wp_step; by apply Hfail].
  do 2 wp_step. destruct (decodeHelloConfirm (fpayload frame)) as [confirm| |] eqn:Ec;
    [|by apply Hfail..].
  destruct (o_authenticate opts) eqn:Eauth.
  - destruct (is_ok (verifyAuthenticated _ _)) eqn:Ev; [|apply refuse_effect; intros w' r E; apply Hfail, E].
    wp_step. apply (Hok _ frame (mkMessage FrameType.HelloAck kFrameFlagResponse sealed)); try done.
    split; [done|]. exists confirm. rewrite Eauth. split; [done|]. by apply is_ok_verify.
  - destruct (any_nonzero _) eqn:Ez; [apply refuse_effect; intros w' r E; apply Hfail, E|].
    wp_step. apply (Hok _ frame (mkMessage FrameType.HelloAck kFrameFlagResponse sealed)); try done.
    split; [done|]. exists confirm. by rewrite Eauth.
Qed.

Lemma handshake_runs opts env w : wp (handshake opts env) (handshake_effect opts w) w.
Proof.
  assert (∀ w' r, w_state w' = w_state w → is_ok r = false → handshake_effect opts w w' r) as Hkept
    by (by left).
  unfold handshake. wp_step. apply wp_receive.
  { intros r Hr w' _ Hst. destruct r as [frame| |]; [by destruct (Hr frame)|..];
      apply Hkept; try done; unfold w_state; by rewrite Hst. }
  intros frame inbox Hin. case_bool_decide as Ht; cbn [negb]; [|wp_step; by apply Hkept].
  do 2 wp_step. destruct (decodeHello (fpayload frame)) as [hello| |] eqn:Eh; [|by apply Hkept..].
  do 2 wp_step. cbn zeta. set (s := w_state (set_inbox inbox w)).
  assert (∀ (c : ErrorCode) d, wp (refuseHandshake env c d) (handshake_effect opts w) (set_inbox inbox w))
    as Hrefuse by (intros c d; apply refuse_effect; intros w' r E; apply Hkept, E).
  destruct (_ || _) eqn:Ev; [apply Hrefuse|].
  destruct (o_authenticate opts && _) eqn:Ea; [apply Hrefuse|].
  destruct (num_isSet _ && num_lt _ _) eqn:Ee; [apply Hrefuse|].
  destruct (num_isSet _ && _ && _ && _) eqn:Ei; [apply Hrefuse|].
  assert (admitted opts (w_state w) frame hello) as Had.
  { pose proof (decoded_ok Eh) as [[] _]. split; try done.
    - apply orb_false_iff in Ev as [E1 E2]. rewrite Z.gtb_ltb in E1.
      apply Z.ltb_ge in E1, E2. lia.
    - intros Hauth. rewrite Hauth in Ea. simpl in Ea. apply negb_false_iff in Ea.
      by apply is_ok_verify.
    - apply andb_false_iff in Ee as [Ee|Ee].
      + unfold num_isSet in Ee. apply negb_false_iff, Z.eqb_eq in Ee.
        change (w_state w) with s. rewrite Ee. by destruct hew_epoch.
      + by apply Z.ltb_ge in Ee.
    - intros H1 H2 H3. change (w_state w) with s in *. rewrite H1, H3 in Ei.
      rewrite bool_decide_true in Ei by done. simpl in Ei. apply negb_false_iff in Ei.
      by apply bool_decide_eq_true in Ei. }
  wp_step. eapply wp_commit; [apply applies_fence; by destruct (decoded_ok Eh)|].
  intros fs' st' r Hc.
  assert (∀ w', w_state w' = state_ st' → w_state w' = w_state w
            ∨ w_state w' = upd_fence (λ _, fence_to hello) (w_state w)) as Hstate.
  { intros w' ->. apply (ac_state _ _ _ _ _ _ Hc). }
  assert (∀ w' r', w_state w' = state_ st' → is_ok r' = false → handshake_effect opts w w' r')
    as Hfailed.
  { intros w' r' Hw' Hr'. right. exists frame, hello, inbox. split; [done|]. split; [done|].
    split; [by apply Hstate|]. intros session ->. done. }
  destruct r as [[]| |]; [|by apply Hfailed..].
  apply confirm_effect; [intros w' r' E; by apply Hfailed|].
  intros w' confirm ack E1 E2 E3 E4 E5. right. exists frame, hello, inbox.
  split; [done|]. split; [done|]. split; [by apply Hstate|]. intros session [= <-].
  split; [rewrite E1; by apply (ac_done _ _ _ _ _ _ Hc)|]. do 2 (split; [done|]).
  by exists confirm, ack.
Qed.

(** C14: the handshake fences. Whatever the peer sends, the handshake changes
    nothing in the state but the fence, and that only for a hello whose wire
    version range covers this version, whose tag verifies when authentication
    is on, whose epoch is at least the accepted one and which, for the
    accepted epoch, names the accepted incarnation; so the accepted epoch never
    decreases and an accepted epoch keeps its incarnation. A session starts
    only after the fence was raised to the hello it came from and the
    controller confirmed the tag of the very acknowledgement that was sent. *)
Theorem handshake_fenced opts env w (Hstate : state_ok (w_state w)) :
  let w' := (handshake opts env w).1 in
  let f := as_fence (w_state w) in
  let f' := as_fence (w_state w') in
  handshake_effect opts w w' (handshake opts env w).2
  ∧ (∃ fence, w_state w' = upd_fence (λ _, fence) (w_state w))
  ∧ value (lastControllerEpoch f) <= value (lastControllerEpoch f')
  ∧ (num_isSet (lastControllerEpoch f) = true → opaque_isSet (lastControllerIncarnation f) = true →
     lastControllerEpoch f' = lastControllerEpoch f →
     lastControllerIncarnation f' = lastControllerIncarnation f)
  ∧ fits 64 (value (lastControllerEpoch f')).
Proof.
  pose proof (handshake_runs opts env w) as H. unfold wp in H.
  destruct (handshake opts env w) as [w' r].
  cbn [fst snd] in *. split; [done|].
  pose proof (awf_epoch _ (so_wf _ Hstate)) as Hfit.
  assert (∃ fence, w_state w = upd_fence (λ _, fence) (w_state w)) as Hsame.
  { exists (as_fence (w_state w)). by destruct (w_state w). }
  destruct H as [[-> _]|(frame & hello & rest & _ & Had & [-> | ->] & _)];
    [split_and!; done || lia..|].
  split; [by eexists|]. destruct Had as [_ Hd _ _ He Hi]. split; [done|]. split; [by intros; apply Hi|].
  exact (hew_epoch _ (proj1 (decoded_ok Hd))).
Qed.

Lemma state_ok_inbox opts frames w :
  inv opts (w_fs w) (w_store w) → state_ok (w_state (set_inbox frames w)).
Proof. intros []. done. Qed.

Lemma handshake_fenced_witness :
  let opts := example_agent ApplyGuarantee.AtomicActivate in
  let w := set_inbox [Ok example_hello_frame] (staged_world ApplyGuarantee.AtomicActivate) in
  let w' := (handshake opts (calm_env []) w).1 in
  handshake_effect opts w w' (handshake opts (calm_env []) w).2
  ∧ lastControllerEpoch (as_fence (w_state w')) = fromValue 1.
Proof.
  split; [|vm_compute; reflexivity].
  refine (proj1 (handshake_fenced (example_agent ApplyGuarantee.AtomicActivate) (calm_env [])
            (set_inbox [Ok example_hello_frame] (staged_world ApplyGuarantee.AtomicActivate))
            (state_ok_inbox (example_agent ApplyGuarantee.AtomicActivate) [Ok example_hello_frame]
               (staged_world ApplyGuarantee.AtomicActivate)
               (staged_inv ApplyGuarantee.AtomicActivate)))).
Defined.

(** ** Replies that cannot be decoded *)

(** A reader of two identifiers refuses what a writer of one identifier and an
    empty one wrote. *)
Lemma empty_id_refused {A Tag Tag'} what what' (d : StrongString Tag) (rest : Writer)
    (k : StrongString Tag → StrongString Tag' → Parser A) bs a :
  id_valid d → write_id d +++ (write_id (@id_empty Tag') +++ rest) = Ok bs →
  decode_all (let! x := read_id what in let! y := read_id what' in k x y) bs ≠ Ok a.
Proof.
  intros Hd Hw. destruct (wire_complete (p := read_id what) d Hd) as (bs1 & E1 & H1).
  destruct (wire_complete (w := Write.string kMaxIdentifierLength)
              (p := Read.string kMaxIdentifierLength) "") as (bs2 & E2 & H2).
  { vm_compute. split; congruence. }
  change (write_id (@id_empty Tag')) with (Write.string kMaxIdentifierLength "") in Hw.
  rewrite E1, E2 in Hw. destruct rest as [tail| |]; [|done..].
  unfold w_append, try_bind in Hw. injection Hw as <-.
  unfold decode_all. unfold p_bind at 1. rewrite (H1 _ (bs2 ++ tail)) by done. cbn [try_bind].
  unfold p_bind at 1. unfold read_id, p_bind at 1.
  rewrite (H2 _ tail) by (by apply (pending_app _ bs1)). done.
Qed.

(** An acknowledgement of the commit, or evidence its receiver cannot decode. *)
Definition lost_reply (m : Message) : Prop :=
  match m_type m with
  | FrameType.DeliveryNack => ∀ nack, decodeDeliveryNack (m_payload m) ≠ Ok nack
  | FrameType.DeliveryAck => ∀ ack, decodeDeliveryAck (m_payload m) ≠ Ok ack
  | type => type = FrameType.ApplyCommitAck
  end.
Definition sends_lost (w w' : World) : Prop :=
  ∃ replies, w_sent w' = w_sent w ++ replies ∧ Forall lost_reply replies.

Lemma sends_nothing w w' : w_sent w' = w_sent w → sends_lost w w'.
Proof. intros E. exists []. by rewrite app_nil_r. Qed.
Lemma sends_lost_trans w1 w2 w3 : sends_lost w1 w2 → sends_lost w2 w3 → sends_lost w1 w3.
Proof.
  intros (l1 & E1 & H1) (l2 & E2 & H2). exists (l1 ++ l2). rewrite E2, E1, app_assoc.
  split; [done|]. by apply Forall_app.
Qed.

Section lost.
Context (opts : AgentOptions) (env : Env).
Abbreviation loses m w := (wp m (λ w' _, sends_lost w w') w).

Lemma loses_bind {A B} (m : M A) (k : A → M B) w :
  loses m w → (∀ a w', sends_lost w w' → loses (k a) w') → loses (m_bind m k) w.
Proof.
  intros Hm Hk. wp_step. apply (wp_mono m _ _ _ (λ _ _ H, H)). unfold wp in *.
  destruct (m w) as [w' [a|e|why]]; simpl in *; [|done..].
  specialize (Hk a w' Hm). by eapply sends_lost_trans.
Qed.
Lemma loses_silent {A} (m : M A) w : w_sent (m w).1 = w_sent w → loses m w.
Proof. intros H. by apply sends_nothing. Qed.

Lemma loses_send type flags payload w :
  lost_reply (mkMessage type flags payload) → loses (m_send env type flags payload) w.
Proof.
  intros Hl. apply wp_send.
  - exists [mkMessage type flags payload]. split; [done|]. by constructor.
  - intros w' r [-> | ->] _; by apply sends_nothing.
Qed.

Lemma loses_reply type flags encoded w :
  (∀ bs, encoded = Ok bs → lost_reply (mkMessage type flags bs)) →
  loses (m_reply env type flags encoded) w.
Proof.
  intros Hl. unfold m_reply, m_bind, m_lift. unfold wp. destruct encoded as [bs| |];
    [by apply loses_send, Hl|by apply sends_nothing..].
Qed.

Lemma loses_nack (deployment : DeploymentId) generation digest c detail w :
  id_valid deployment → loses (sendNack env deployment id_empty generation digest c detail) w.
Proof.
  intros Hd. unfold sendNack. apply loses_bind; [by apply loses_silent|]. intros s w' _.
  apply loses_reply. intros bs Hbs nack. cbn [m_payload m_type]. unfold encodeDeliveryNack in Hbs.
  destruct (checkDetail _); [|done..]. cbn [try_bind] in Hbs. unfold write_delivery_nack in Hbs.
  by eapply (empty_id_refused "deployment id" "config key" deployment).
Qed.

Lemma loses_ack session (deployment : DeploymentId) generation digest x n b w :
  id_valid deployment → loses (sendAck opts env session deployment id_empty generation digest x n b) w.
Proof.
  intros Hd. unfold sendAck. case_match; [by apply loses_silent|].
  apply loses_bind; [by apply loses_silent|]. intros s w' _.
  apply loses_bind; [by apply loses_silent|]. intros now w'' _.
  apply loses_reply. intros bs Hbs ack. cbn [m_payload m_type]. unfold encodeDeliveryAck in Hbs.
  unfold write_delivery_ack in Hbs. unfold decodeDeliveryAck.
  destruct (decode_all read_delivery_ack bs) as [m| |] eqn:E; [|done..]. exfalso. revert E.
  by eapply (empty_id_refused "deployment id" "config key" deployment).
Qed.

Lemma loses_commitAck ack w : loses (applyCommitAck env ack) w.
Proof. by apply loses_reply. Qed.

Lemma loses_refuse s message c d d' w :
  id_valid (ac_deployment message) → loses (refuseCommit env s message id_empty c d d') w.
Proof.
  intros Hd. unfold refuseCommit. apply loses_bind; [apply loses_commitAck|]. intros u w' _.
  by apply loses_nack.
Qed.
Lemma loses_suppress session s message d w :
  id_valid (ac_deployment message) → loses (suppressCommit opts env session s message d) w.
Proof.
  intros Hd. unfold suppressCommit. apply loses_bind; [apply loses_commitAck|]. intros u w' _.
  by apply loses_ack.
Qed.

Lemma loses_commit type record w : loses (m_commit env type record) w.
Proof.
  apply loses_silent. unfold m_commit, m_bind, m_lift, m_call. destruct record; [|done..]. simpl.
  by destruct (commit _ _ _ _ _) as [[fs st] r].
Qed.
Lemma loses_count f w : loses (m_count env f) w.
Proof.
  unfold m_count. apply loses_bind; [by apply loses_silent|]. intros u w' _.
  unfold m_rollbackNote. apply loses_bind; [by apply loses_silent|]. intros s w'' _.
  apply loses_commit.
Qed.
End lost.

(** The evidence of a commit that finds no staged transfer is lost. When a
    commit is refused as stale or conflicting, is recognised as a duplicate, or
    names a deployment with nothing staged, every frame the agent sends is the
    commit acknowledgement or a delivery nack or ack without a configuration
    key, which the decoder of its receiver always refuses (agent.cpp sends
    ConfigKey{}, and protocol.cpp requires a valid key). *)
Theorem keyless_evidence_undecodable opts env session bytes message w
    (Hm : decodeApplyCommit bytes = Ok message)
    (Hkeyless : is_stale (w_state w) (ac_generation message) = true
      ∨ same_generation (w_state w) (ac_generation message) = true
      ∨ stagedTransfer (ac_deployment message) (w_state w) = None) :
  sends_lost w (onApplyCommit opts env session bytes w).1.
Proof.
  assert (id_valid (ac_deployment message)) as Hd by (by destruct (decoded_ok Hm)).
  change (wp (onApplyCommit opts env session bytes) (λ w' _, sends_lost w w') w).
  unfold onApplyCommit. do 2 wp_step. rewrite Hm. do 2 wp_step.
  destruct (is_stale _ _).
  { apply loses_bind; [apply loses_count|]. intros u w' _. by apply loses_refuse. }
  destruct (same_generation _ _); cbn [andb].
  { case_match; [|by apply loses_refuse].
    apply loses_bind; [apply loses_count|]. intros u w' _. by apply loses_suppress. }
  destruct Hkeyless as [[=]|[[=]| ->]]. case_match; [by apply loses_suppress|by apply loses_refuse].
Qed.

Definition unknown_commit : ApplyCommitMessage :=
  mkApplyCommitMessage (mkString "d9") (fromValue 5) (Digest_ofContent example_content).
Definition unknown_commit_bytes : list byte :=
  match encodeApplyCommit unknown_commit with Ok bs => bs | _ => [] end.
Lemma unknown_commit_decoded : decodeApplyCommit unknown_commit_bytes = Ok unknown_commit.
Proof. vm_compute. reflexivity. Qed.
Lemma unknown_commit_unstaged :
  stagedTransfer (ac_deployment unknown_commit)
    (w_state (staged_world ApplyGuarantee.AtomicActivate)) = None.
Proof. vm_compute. reflexivity. Qed.

Lemma keyless_evidence_undecodable_witness :
  let w := staged_world ApplyGuarantee.AtomicActivate in
  let w' := (onApplyCommit (example_agent ApplyGuarantee.AtomicActivate) (calm_env [])
               example_session unknown_commit_bytes w).1 in
  sends_lost w w'
  ∧ map m_type (w_sent w')
    = map m_type (w_sent w) ++ [FrameType.ApplyCommitAck; FrameType.DeliveryNack].
Proof.
  split; [|vm_compute; reflexivity].
  exact (keyless_evidence_undecodable (example_agent ApplyGuarantee.AtomicActivate) (calm_env [])
           example_session unknown_commit_bytes unknown_commit
           (staged_world ApplyGuarantee.AtomicActivate) unknown_commit_decoded
           (or_intror (or_intror unknown_commit_unstaged))).
Defined.

(** ** Retention *)

(** Retain one payload; the iterator reports both payloads of the key, the
    older one first. *)
Definition retaining_agent : AgentOptions :=
  mkAgentOptions "s" "" (mkString "t1") TargetClass.NetworkDevice ApplyGuarantee.AtomicActivate
    1048576 1 [Byte.x41] true true [].
Definition other_content : list byte := bytes_of_string "world".
Definition payload_of (generation : Generation) (content : list byte) : string :=
  payloadPath (key_directory retaining_agent (mkString "k1")) generation (Digest_ofContent content).
Definition retaining_env : Env :=
  calm_env [(payload_of (fromValue 5) example_content, 100);
            (payload_of (fromValue 7) other_content, 200)].

(** Generations 5 and 7 of one key are staged, then generation 5 is committed. *)
Definition two_deliveries : list Frame :=
  map frame_of
    (example_delivery
     ++ example_transfer (mkString "d2") (mkString "k1") (mkString "a2") (fromValue 7)
          (fromValue 8) other_content).
Definition retained_world : World :=
  (deliver retaining_agent retaining_env example_session (two_deliveries ++ [commit_frame])
     (opened_world ApplyGuarantee.AtomicActivate)).1.

(** Retention can delete what it activates. A commit keeps the newest
    payload files of the key, not the one it has just made live: with more
    generations staged than are retained, committing the oldest leaves a live
    pointer and a committed generation whose payload is gone, and reports the
    activation as done. (The next start then clears the commit.) Likewise the
    files of one key in the payload directory of another count as payloads:
    pruning the key "k" deletes the live pointer of the key "k/payload". *)
Theorem retention_deletes_activated :
  let payload := payload_of (fromValue 5) example_content in
  committedGeneration (as_commit (w_state retained_world)) = fromValue 5
  ∧ w_fs retained_world !! currentPath (key_directory retaining_agent (mkString "k1"))
    = Some (bytes_of_string (pointerText (fromValue 5) (Digest_ofContent example_content)
              (mkString "a1")))
  ∧ w_fs retained_world !! payload = None
  ∧ map m_type (rev (w_sent retained_world))
    = [FrameType.DeliveryAck; FrameType.ApplyCommitAck]
      ++ map m_type (rev (take 8 (w_sent retained_world)))
  ∧ ∀ content pointer,
      let live := "s/live" in
      let fs := {[ currentPath (liveKeyDirectory live (mkString "k/payload")) := pointer;
                   payloadPath (liveKeyDirectory live (mkString "k")) (fromValue 5)
                     (Digest_ofContent example_content) := content ]} : FileSystem in
      prunePayloads 1 (liveKeyDirectory live (mkString "k") +:+ "/payload")
        [(currentPath (liveKeyDirectory live (mkString "k/payload")), 100);
         (payloadPath (liveKeyDirectory live (mkString "k")) (fromValue 5)
            (Digest_ofContent example_content), 200)] fs
      !! currentPath (liveKeyDirectory live (mkString "k/payload")) = None.
Proof.
  split_and!; vm_compute; reflexivity.
Qed.
