(* ===== verification/AgentRestart.v ===== *)
(** * Recovery of the live area

    What [recoverLiveArea] (AgentStart.v) leaves when it succeeds, whatever
    crash or interference preceded it: the transfers, the prepare window and the
    committed generation agree with the files that are there. *)

From stdpp Require Import gmap.
From Stdlib Require Import Strings.Byte.
From S2P Require Import Prelude Result StdMap Checked Hash Ids Text Codec Lifecycle Files Journal.
From S2P Require Import Snapshot Artifact FaultPlan AgentFiles AgentPaths Frame Records Messages.
From S2P Require Import Protocol State Store Agent AgentStart AgentExample AgentEffects AgentLogic.
From S2P Require Import AgentInv AgentHandlers AgentCommit AgentSpec AgentWp AgentAnswers.

(** ** Successful runs *)

(** [Q] holds when the computation succeeds. *)
Definition gives {A} (m : M A) (Q : World → A → Prop) (w : World) : Prop :=
  wp m (λ w' r, ∀ a, r = Ok a → Q w' a) w.

Section rules.
Context {A B : Type}.
Implicit Types Q : World → A → Prop.

Lemma gives_mono (m : M A) Q Q' w : (∀ w' a, Q w' a → Q' w' a) → gives m Q w → gives m Q' w.
Proof. intros H Hm a Ha. by apply H, Hm. Qed.
Lemma gives_bind (m : M A) (k : A → M B) (Q : World → B → Prop) w :
  gives m (λ w' a, gives (k a) Q w') w → gives (m_bind m k) Q w.
Proof.
  intros Hm. apply wp_bind. revert Hm. apply wp_mono. intros w' [a|e|why] H; [by apply H|done..].
Qed.
Lemma gives_ret (a : A) Q w : Q w a → gives (m_ret a) Q w.
Proof. by intros H b [= <-]. Qed.
Lemma gives_get (f : World → A) Q w : Q w (f w) → gives (m_get f) Q w.
Proof. by intros H b [= <-]. Qed.
Lemma gives_call (f : nat → A) Q w : Q (next_call w) (f (w_calls w)) → gives (m_call f) Q w.
Proof. by intros H b [= <-]. Qed.
End rules.
Lemma gives_state Q w : Q w (w_state w) → gives get_state Q w.
Proof. by intros H b [= <-]. Qed.
Lemma gives_modify f (Q : World → unit → Prop) w : Q (f w) tt → gives (m_modify f) Q w.
Proof. by intros H [] _. Qed.

Section restart.
Context (opts : AgentOptions) (env : Env).

(** ** What every step keeps *)

Record running (w : World) : Prop := {
  rn_state : state_ok (w_state w);
  rn_journal : j_path (journal_ (w_store w)) = journalPath (store_options opts);
}.

Record moved (w w' : World) : Prop := {
  mv_running : running w';
  mv_identity : as_identity (w_state w') = as_identity (w_state w);
  mv_fence : as_fence (w_state w') = as_fence (w_state w);
  mv_findings : as_findings (w_state w') = as_findings (w_state w);
}.
Lemma recovering_refl w : running w → moved w w.
Proof. by split. Qed.
(** A step that leaves the store alone. *)
Lemma moved_store w w' : running w → w_store w' = w_store w → moved w w'.
Proof. intros [] Hst. split; [split|..]; unfold w_state in *; by rewrite Hst. Qed.
Lemma recovering_trans w w1 w2 : moved w w1 → moved w1 w2 → moved w w2.
Proof. intros [] []. split; [done|congruence..]. Qed.

(** The files with these names are as they were. *)
Definition same_files (names : string → Prop) (w w' : World) : Prop :=
  ∀ p, names p → w_fs w' !! p = w_fs w !! p.
Lemma same_files_trans names w w1 w2 :
  same_files names w w1 → same_files names w1 w2 → same_files names w w2.
Proof. intros H1 H2 p Hp. by rewrite H2, H1. Qed.
Lemma same_files_weaken (names names' : string → Prop) w w' :
  (∀ p, names' p → names p) → same_files names w w' → same_files names' w w'.
Proof. intros H Hs p Hp. by apply Hs, H. Qed.

Definition not_journal (p : string) : Prop := ending p ≠ "rnal".

(** A committed record. *)
Record recorded (f : AgentState → AgentState) (w w' : World) : Prop := {
  rc_moved : moved w w';
  rc_state : w_state w' = f (w_state w);
  rc_files : same_files not_journal w w';
}.

Lemma gives_commit type record f w :
  running w → applies type record f → state_ok (f (w_state w)) →
  (∀ s, as_identity (f s) = as_identity s ∧ as_fence (f s) = as_fence s
        ∧ as_findings (f s) = as_findings s) →
  gives (m_commit env type record) (λ w' _, recorded f w w') w.
Proof.
  intros [Hs Hj] Happly Hf Hkeep. apply (wp_commit env _ _ _ f); [done|].
  intros fs' st' r [Hfiles Hjournal _ Hdone] [] ->. specialize (Hdone eq_refl).
  destruct (Hkeep (w_state w)) as (Hi & Hfe & Hfi).
  split; [split; [split|..]|..]; unfold w_state in *; cbn; rewrite ?Hdone; try done; [congruence|].
  intros p Hp. cbn. apply Hfiles. rewrite Hj. by apply journal_ne.
Qed.

Lemma running_counters f w :
  (∀ n, counters_fit n → counters_fit (f n)) → running w →
  running (set_store (set_state (upd_counters f (w_state w)) (w_store w)) w).
Proof. intros Hf [Hs Hj]. split; [by apply state_ok_counters|done]. Qed.

(** Counting an event changes counters only. *)
Lemma gives_count f w : running w → (∀ n, counters_fit n → counters_fit (f n)) →
  gives (m_count env f)
    (λ w' _, moved w w' ∧ (∃ g, w_state w' = upd_counters g (w_state w)) ∧ same_files not_journal w w') w.
Proof.
  intros Hr Hf. unfold m_count. apply gives_bind. unfold modify_state. apply gives_modify.
  set (w1 := set_store _ w). assert (running w1) as Hr1 by by apply running_counters.
  unfold m_rollbackNote. apply gives_bind, gives_state.
  eapply gives_mono; [|apply (gives_commit _ _ _ w1 Hr1 (applies_note _ (so_wf _ (rn_state _ Hr1))))].
  - intros w2 [] [[Hr2 Hi Hfe Hfi] Hs Hfiles]. split; [split; done|]. split; [|done].
    eexists (λ n, set_notes (as_counters (w_state w1)) (f n)). by rewrite Hs.
  - apply state_ok_counters; [|apply Hr1]. intros n. apply set_notes_fit, agent_wf_counters, Hr1.
  - by intros [].
Qed.

Lemma gives_remove path w : running w →
  gives (m_remove env path)
    (λ w' _, moved w w' ∧ w_store w' = w_store w ∧ same_files (λ p, p ≠ path) w w'
             ∧ (w_fs w !! path = None → w_fs w' !! path = None)) w.
Proof.
  intros Hr. unfold m_remove. apply gives_bind, gives_call.
  destruct (env_remove_fails env (w_calls w)).
  - apply gives_ret. split; [by apply moved_store|]. split; [done|]. by split.
  - apply gives_modify. split; [by apply moved_store|]. split; [done|]. split.
    + intros p Hp. cbn. by rewrite lookup_delete_ne.
    + intros _. cbn. by rewrite lookup_delete_eq.
Qed.

(** ** Transfers *)

(** The staged bytes are those the record counts. *)
Definition supported (fs : FileSystem) (r : TransferRecord) : Prop :=
  ∃ content, fs !! staging_path opts (tx_deployment r) = Some content ∧ zlen content = tx_bytesReceived r.

Lemma supported_files fs fs' r :
  fs' !! staging_path opts (tx_deployment r) = fs !! staging_path opts (tx_deployment r) →
  supported fs r → supported fs' r.
Proof. intros E (content & Hc & Hl). exists content. by rewrite E. Qed.

Lemma removeStrays_moves paths known recovery w : running w →
  gives (removeStrays env paths known recovery) (λ w' _, w_store w' = w_store w) w.
Proof.
  revert recovery w. induction paths as [|path paths IH]; intros recovery w Hr; cbn [removeStrays];
    [by apply gives_ret|].
  case_bool_decide; [by apply IH|]. apply gives_bind, gives_call.
  destruct (env_remove_fails env (w_calls w)).
  - eapply gives_mono; [|apply IH; by apply (moved_store w)]. by intros w' a ->.
  - apply gives_bind, gives_modify.
    eapply gives_mono; [|apply IH; by apply (moved_store w)]. by intros w' a ->.
Qed.

(** The records of deployments that differ. *)
Abbreviation distinct records := (List.NoDup (map tx_deployment records)).

Definition staged_by (records : list TransferRecord) (p : string) : Prop :=
  ∃ r, r ∈ records ∧ p = staging_path opts (tx_deployment r).

Record checked (records : list TransferRecord) (w w' : World) (discarded : list DeploymentId)
    (resized : list TransferRecord) : Prop := {
  ck_store : w_store w' = w_store w;
  ck_files : same_files (λ p, ¬ staged_by records p) w w';
  ck_supported : ∀ r, r ∈ records → tx_deployment r ∈ discarded ∨ supported (w_fs w') r;
  ck_discarded : ∀ d, d ∈ discarded → ∃ r, r ∈ records ∧ tx_deployment r = d;
  ck_resized : ∀ r, r ∈ resized → r ∈ records ∧ tx_deployment r ∉ discarded;
}.

Section cons.
Context (r : TransferRecord) (records : list TransferRecord).
Hypothesis Hnew : ∀ r', r' ∈ records → tx_deployment r' ≠ tx_deployment r.

Lemma staged_by_cons p : ¬ staged_by (r :: records) p → ¬ staged_by records p.
Proof. intros H (r' & Hin & ->). apply H. exists r'. split; [by right|done]. Qed.
Lemma not_staged_by : ¬ staged_by records (staging_path opts (tx_deployment r)).
Proof. intros (r' & Hin & E%stagingPath_inj). by apply (Hnew r' Hin). Qed.

Lemma checked_discard w w' discarded resized :
  checked records w w' discarded resized →
  checked (r :: records) w w' (tx_deployment r :: discarded) resized.
Proof.
  intros [Hst Hf Hs Hd Hr]. split; [done|..].
  - revert Hf. apply same_files_weaken, staged_by_cons.
  - intros r' [->|Hin]%elem_of_cons; [left; by left|]. destruct (Hs r' Hin); [left; by right|by right].
  - intros d [->|Hin]%elem_of_cons; [exists r; split; [by left|done]|].
    destruct (Hd d Hin) as (r' & ? & ?). exists r'. split; [by right|done].
  - intros r' Hin. destruct (Hr r' Hin) as [Hin' Hno]. split; [by right|].
    intros [E|]%elem_of_cons; [by apply (Hnew r')|done].
Qed.

(** The record is kept, its file as it is in [w1]. *)
Lemma checked_keep (cut : bool) w w1 w' discarded resized :
  w_store w1 = w_store w →
  same_files (λ p, p ≠ staging_path opts (tx_deployment r)) w w1 → supported (w_fs w1) r →
  checked records w1 w' discarded resized →
  checked (r :: records) w w' discarded (if cut then r :: resized else resized).
Proof.
  intros Hst1 Hf1 Hsup [Hst Hf Hs Hd Hr].
  assert (tx_deployment r ∉ discarded) as Hno.
  { intros Hin. destruct (Hd _ Hin) as (r' & Hin' & E). by apply (Hnew r'). }
  assert (∀ r', r' ∈ resized → r' ∈ r :: records ∧ tx_deployment r' ∉ discarded) as Hrest.
  { intros r' Hin. destruct (Hr r' Hin). split; [by right|done]. }
  split; [congruence|..].
  - intros p Hp. rewrite Hf by by apply staged_by_cons. apply Hf1. intros ->. apply Hp.
    exists r. split; [by left|done].
  - intros r' [->|Hin]%elem_of_cons; [right|by apply Hs].
    revert Hsup. apply supported_files, Hf, not_staged_by.
  - intros d Hin. destruct (Hd d Hin) as (r' & ? & ?). exists r'. split; [by right|done].
  - destruct cut; [|done]. intros r' [->|Hin]%elem_of_cons; [|by apply Hrest].
    split; [by left|done].
Qed.
End cons.

Lemma checkTransfers_checked records w :
  distinct records → Forall transfer_wf records →
  gives (checkTransfers opts env records)
    (λ w' answer, checked records w w' answer.1 answer.2) w.
Proof.
  revert w. induction records as [|r records IH]; intros w Hd Hwf; cbn [checkTransfers].
  { apply gives_ret. split; [done|done|..]; intros ? Hin; by apply elem_of_nil in Hin. }
  apply NoDup_cons_iff in Hd as [Hnew' Hd]. apply Forall_cons_iff in Hwf as [Hr Hwf].
  assert (∀ r', r' ∈ records → tx_deployment r' ≠ tx_deployment r) as Hnew.
  { intros r' Hin E. apply Hnew'. rewrite <- E. apply in_map. by apply list_elem_of_In. }
  assert (∀ w0, w_store w0 = w_store w → w_fs w0 = w_fs w →
    gives (let@ (discarded, resized) := checkTransfers opts env records in
           m_ret (tx_deployment r :: discarded, resized))
      (λ w' answer, checked (r :: records) w w' answer.1 answer.2) w0) as Hdiscard.
  { intros w0 Hst Hfs. apply gives_bind. eapply gives_mono; [|by apply IH].
    intros w' [discarded resized] [Hs Hf ? ? ?]. apply gives_ret. apply checked_discard; [done|].
    split; [congruence| |done..]. intros p Hp. rewrite <- Hfs. by apply Hf. }
  apply gives_bind, gives_get. unfold file_size.
  destruct (w_fs w !! staging_path opts (tx_deployment r)) as [content|] eqn:Hfile; cbn [fmap option_fmap option_map];
    [|by apply Hdiscard].
  destruct (Z.ltb_spec (zlen content) (tx_bytesReceived r)); [by apply Hdiscard|].
  destruct (Z.gtb_spec (zlen content) (tx_bytesReceived r)).
  - apply gives_bind, gives_call. destruct (env_resize_fails env (w_calls w)); [by apply Hdiscard|].
    apply gives_bind, gives_modify. set (w1 := set_fs _ _). apply gives_bind.
    eapply gives_mono; [|apply (IH w1); done]. intros w' [discarded resized] Hck.
    apply gives_ret. apply (checked_keep r records Hnew true w w1); [done|..|done].
    + intros p Hp. cbn. by rewrite lookup_alter_ne.
    + exists (take (Z.to_nat (tx_bytesReceived r)) content). cbn. rewrite lookup_alter_eq, Hfile.
      split; [done|]. unfold zlen in *. rewrite length_take. pose proof (twf_received _ Hr). unfold fits in *. lia.
  - eapply gives_mono; [|apply (IH w); done]. intros w' [discarded resized] Hck.
    apply (checked_keep r records Hnew false w w); [done|done| |done]. exists content. split; [done|lia].
Qed.

(** The transfers may change, nothing else of the state. *)
Definition only_transfers (w w' : World) : Prop := ∃ g, w_state w' = upd_transfers g (w_state w).
Lemma only_transfers_refl w : only_transfers w w.
Proof. exists id. by destruct (w_state w). Qed.
Lemma only_transfers_trans w w1 w2 : only_transfers w w1 → only_transfers w1 w2 → only_transfers w w2.
Proof. intros [g Hg] [h Hh]. exists (λ m, h (g m)). by rewrite Hh, Hg. Qed.
Lemma only_transfers_step w w1 g : w_state w1 = upd_transfers g (w_state w) → only_transfers w w1.
Proof. by exists g. Qed.

Abbreviation transfer_of w d := (map_find d (as_transfers (w_state w))).

Lemma destroy_gives (d : DeploymentId) w : running w → id_valid d →
  gives (destroyTransfer opts env d)
    (λ w' _, moved w w' ∧ only_transfers w w'
       ∧ same_files (λ p, not_journal p ∧ p ≠ staging_path opts d) w w'
       ∧ transfer_of w' d = None
       ∧ ∀ d' : DeploymentId, d' ≠ d → transfer_of w' d' = transfer_of w d') w.
Proof.
  intros Hr Hd. unfold destroyTransfer. apply gives_bind.
  eapply gives_mono; [|by apply gives_remove]. intros w1 [] (Hm1 & Hst1 & Hf1 & _).
  assert (w_state w1 = w_state w) as Hs1 by (unfold w_state; by rewrite Hst1).
  apply gives_bind, gives_state. cbn beta. destruct (transfer_of w1 d) eqn:Hfind.
  - eapply gives_mono; [|apply (gives_commit _ _ _ w1 (mv_running _ _ Hm1) (applies_remove d Hd));
      [apply state_ok_erase, Hm1|by intros []]].
    intros w2 [] [Hm2 Hs2 Hf2]. rewrite Hs1 in Hs2. split; [by eapply recovering_trans|].
    split; [by eapply only_transfers_step|]. split; [|split].
    + intros p [Hj Hp]. by rewrite Hf2, Hf1.
    + rewrite Hs2. cbn. apply map_find_erase_eq, (awf_transfers _ (so_wf _ (rn_state _ Hr))).
    + intros d' Hne. rewrite Hs2. cbn. by rewrite map_find_erase_ne.
  - apply gives_ret. split; [done|]. split; [|split; [by intros p [_ Hp]; apply Hf1|]].
    + exists id. rewrite Hs1. by destruct (w_state w).
    + split; [done|]. intros d' _. by rewrite Hs1.
Qed.

Lemma discardTransfers_gives ds recovery w : running w → Forall id_valid ds →
  gives (discardTransfers opts env ds recovery)
    (λ w' _, moved w w' ∧ only_transfers w w'
       ∧ same_files (λ p, not_journal p ∧ ∀ d, d ∈ ds → p ≠ staging_path opts d) w w'
       ∧ ∀ (d : DeploymentId) r, transfer_of w' d = Some r → transfer_of w d = Some r ∧ d ∉ ds) w.
Proof.
  revert recovery w. induction ds as [|d ds IH]; intros recovery w Hr Hv; cbn [discardTransfers].
  { apply gives_ret. split; [by apply recovering_refl|]. split; [apply only_transfers_refl|].
    split; [done|]. intros d r Hd. split; [done|]. apply not_elem_of_nil. }
  apply Forall_cons_iff in Hv as [Hd Hv]. apply gives_bind.
  eapply gives_mono; [|by apply destroy_gives]. intros w1 [] (Hm1 & Ho1 & Hf1 & Hnone & Hsame).
  eapply gives_mono; [|apply (IH _ w1 (mv_running _ _ Hm1) Hv)]. intros w2 r2 (Hm2 & Ho2 & Hf2 & Hleft).
  split; [by eapply recovering_trans|]. split; [by eapply only_transfers_trans|]. split.
  - intros p [Hj Hp]. rewrite Hf2, Hf1; [done|split; [done|apply Hp; by left]|].
    split; [done|]. intros d' Hin. apply Hp. by right.
  - intros d' r Hfind. destruct (Hleft d' r Hfind) as [Hfind1 Hno].
    destruct (decide (d' = d)) as [->|Hne]; [congruence|]. rewrite <- Hsame by done.
    split; [done|]. by intros [|]%elem_of_cons.
Qed.

Lemma checkpointAll_gives records w : running w →
  Forall (λ r, transfer_wf r ∧ transfer_ok r) records →
  gives (checkpointAll env records)
    (λ w' _, moved w w' ∧ only_transfers w w' ∧ same_files not_journal w w'
       ∧ ∀ (d : DeploymentId) r, transfer_of w' d = Some r →
           transfer_of w d = Some r ∨ r ∈ records ∧ d = tx_deployment r) w.
Proof.
  revert w. induction records as [|r records IH]; intros w Hr Hall; cbn [checkpointAll].
  { apply gives_ret. split; [by apply recovering_refl|]. split; [apply only_transfers_refl|].
    split; [done|]. by left. }
  apply Forall_cons_iff in Hall as [[Hwf Hok] Hall]. apply gives_bind.
  eapply gives_mono; [|apply (gives_commit _ _ _ w Hr (applies_transfer r Hwf));
    [apply state_ok_assign; [done..|apply Hr]|by intros []]].
  intros w1 [] [Hm1 Hs1 Hf1].
  eapply gives_mono; [|apply (IH w1 (mv_running _ _ Hm1) Hall)]. intros w2 [] (Hm2 & Ho2 & Hf2 & Hleft).
  split; [by eapply recovering_trans|].
  split; [eapply only_transfers_trans; [by eapply only_transfers_step|done]|].
  split; [by eapply same_files_trans|]. intros d r' Hfind.
  destruct (Hleft d r' Hfind) as [Hfind1|[Hin ->]]; [|right; split; [by right|done]].
  rewrite Hs1 in Hfind1. cbn in Hfind1. destruct (decide (d = tx_deployment r)) as [->|Hne].
  - rewrite map_find_assign_eq in Hfind1. injection Hfind1 as <-. right. split; [by left|done].
  - rewrite map_find_assign_ne in Hfind1 by done. by left.
Qed.

(** The first half of the recovery: every transfer that is left is supported. *)
Definition all_supported (w : World) : Prop :=
  ∀ (d : DeploymentId) r, transfer_of w d = Some r → supported (w_fs w) r ∧ d = tx_deployment r.

Lemma supported_after (records resized : list TransferRecord) (discarded : list DeploymentId) w w1 w2 w3 :
  (∀ (d : DeploymentId) r, transfer_of w d = Some r → r ∈ records ∧ d = tx_deployment r) →
  w_state w1 = w_state w →
  (∀ r, r ∈ records → tx_deployment r ∈ discarded ∨ supported (w_fs w1) r) →
  (∀ r, r ∈ resized → r ∈ records ∧ tx_deployment r ∉ discarded) →
  same_files (λ p, not_journal p ∧ ∀ d, d ∈ discarded → p ≠ staging_path opts d) w1 w2 →
  (∀ (d : DeploymentId) r, transfer_of w2 d = Some r → transfer_of w1 d = Some r ∧ d ∉ discarded) →
  same_files not_journal w2 w3 →
  (∀ (d : DeploymentId) r, transfer_of w3 d = Some r →
     transfer_of w2 d = Some r ∨ r ∈ resized ∧ d = tx_deployment r) →
  all_supported w3.
Proof.
  intros Hkeys Hs1 Hsup Hres Hf2 Hleft2 Hf3 Hleft3 d r Hfind.
  assert (r ∈ records ∧ d = tx_deployment r ∧ tx_deployment r ∉ discarded) as (Hin & -> & Hno).
  { destruct (Hleft3 d r Hfind) as [Hfind2|[Hin ->]].
    - destruct (Hleft2 d r Hfind2) as [Hfind1 Hno]. rewrite Hs1 in Hfind1.
      destruct (Hkeys d r Hfind1) as [Hin ->]. done.
    - destruct (Hres r Hin). done. }
  split; [|done]. destruct (Hsup r Hin) as [|Hsupported]; [done|]. revert Hsupported.
  assert (not_journal (staging_path opts (tx_deployment r))) as Hname.
  { unfold not_journal, staging_path. by rewrite ending_staging. }
  apply supported_files. rewrite Hf3 by done. apply Hf2. split; [done|].
  intros d Hd E%stagingPath_inj. by subst.
Qed.

(** ** Key directories *)

(** The directory is not one the recovery looks at. *)
Definition skipped (fs : FileSystem) (directory : string) : Prop :=
  (fs !! currentPath directory = None ∧ fs !! pendingPath directory = None)
  ∨ filename directory = "payload".

(** What is committed is what a live pointer names, and the payload it names
    is there, if payloads are verified. *)
Definition backed (w : World) : Prop :=
  ∃ directory text p,
    (readLiveValue (currentPath directory) (w_fs w)).2 = Ok text
    ∧ parsePointer text = Ok p
    ∧ committedGeneration (as_commit (w_state w)) = pv_generation p
    ∧ committedDigest (as_commit (w_state w)) = pv_digest p
    ∧ (o_verifyCommittedPayloadOnStart opts = true → ∃ content,
         w_fs w !! payloadPath directory (pv_generation p) (pv_digest p) = Some content
         ∧ Digest_ofContent content = pv_digest p).

(** What the steps of a visit keep. *)
Record visited (w w' : World) : Prop := {
  vs_moved : moved w w';
  vs_transfers : as_transfers (w_state w') = as_transfers (w_state w);
  vs_files : same_files (λ p, not_journal p ∧ ending p ≠ "rent" ∧ ending p ≠ "ding") w w';
  vs_absent : ∀ p, not_journal p → w_fs w !! p = None → w_fs w' !! p = None;
}.
Lemma visited_refl w : running w → visited w w.
Proof. intros Hr. split; [by apply recovering_refl|done..]. Qed.
Lemma visited_trans w w1 w2 : visited w w1 → visited w1 w2 → visited w w2.
Proof.
  intros [] []. split; [by eapply recovering_trans|congruence|by eapply same_files_trans|auto].
Qed.
Lemma visited_commit w w' :
  moved w w' → as_transfers (w_state w') = as_transfers (w_state w) → same_files not_journal w w' →
  visited w w'.
Proof.
  intros Hm Ht Hf. split; [done|done| |].
  - revert Hf. apply same_files_weaken. by intros p [].
  - intros p Hp Hnone. by rewrite Hf.
Qed.

Abbreviation commit_of w := (as_commit (w_state w)).

Lemma clearCommit_gives w : running w →
  gives (clearCommit env) (λ w' _, visited w w' ∧ committed_set (w_state w') = false) w.
Proof.
  intros Hr. unfold clearCommit.
  assert (fits 64 0 ∧ digest_wf digest_unset ∧ id_optional (Tag := ArtifactIdTag) id_empty)
    as (Hg & Hd & Ha) by (split; [done|split; [done|by left]]).
  eapply gives_mono; [|apply (gives_commit _ _ _ w Hr (applies_commit num_unset _ _ Hg Hd Ha));
    [apply state_ok_commit; [done..|apply Hr]|by intros []]].
  intros w' [] [Hm Hs Hf]. split; [apply visited_commit; [done|by rewrite Hs|done]|by rewrite Hs].
Qed.

Lemma resolveWindow_gives w : running w →
  gives (resolveWindow env)
    (λ w' _, visited w w' ∧ commit_of w' = commit_of w ∧ same_files not_journal w w'
             ∧ applyPrepared (as_window (w_state w')) = false) w.
Proof.
  intros Hr. unfold resolveWindow. apply gives_bind, gives_state.
  assert (fits 64 (activations (as_counters (w_state w)))) as Hfit.
  { apply (awf_activations _ (so_wf _ (rn_state _ Hr))). }
  eapply gives_mono; [|apply (gives_commit _ _ _ w Hr (applies_resolved _ Hfit));
    [by apply state_ok_resolve, Hr|by intros []]].
  intros w' [] [Hm Hs Hf]. split; [apply visited_commit; [done|by rewrite Hs|done]|].
  split; [by rewrite Hs|]. split; [done|by rewrite Hs].
Qed.

Lemma rollback_gives w : running w →
  gives (m_count env count_rollback)
    (λ w' _, visited w w' ∧ commit_of w' = commit_of w ∧ same_files not_journal w w'
             ∧ as_window (w_state w') = as_window (w_state w)) w.
Proof.
  intros Hr. eapply gives_mono; [|by apply (gives_count _ _ Hr count_rollback_fit)].
  intros w' [] (Hm & [g Hs] & Hf). split; [apply visited_commit; [done|by rewrite Hs|done]|].
  split; [by rewrite Hs|]. split; [done|by rewrite Hs].
Qed.

Lemma remove_visited path w : running w → ending path = "rent" ∨ ending path = "ding" →
  gives (m_remove env path)
    (λ w' _, visited w w' ∧ w_store w' = w_store w ∧ same_files (λ p, p ≠ path) w w') w.
Proof.
  intros Hr Hend. eapply gives_mono; [|by apply gives_remove]. intros w' [] (Hm & Hst & Hf & Habsent).
  split; [|done]. split; [done|unfold w_state; by rewrite Hst|..].
  - revert Hf. apply same_files_weaken. intros p (_ & ? & ?) ->. by destruct Hend.
  - intros p _ Hnone. destruct (decide (p = path)) as [->|]; [by apply Habsent|]. by rewrite Hf.
Qed.

(** A pointer that was read, and is still there. *)
Definition pointer_read (directory : string) (live : option PointerValue) (w : World) : Prop :=
  match live with
  | Some p => ∃ text, (readLiveValue (currentPath directory) (w_fs w)).2 = Ok text
                      ∧ parsePointer text = Ok p
  | None => True
  end.

Lemma readLiveValue_files path fs fs' :
  fs' !! path = fs !! path → (readLiveValue path fs').2 = (readLiveValue path fs).2.
Proof. intros E. unfold readLiveValue, io_bind, readFileBounded. rewrite E. by repeat case_match. Qed.

Lemma pointer_read_files directory live w w' :
  w_fs w' !! currentPath directory = w_fs w !! currentPath directory →
  pointer_read directory live w → pointer_read directory live w'.
Proof.
  intros E. destruct live as [p|]; [|done]. intros (text & Ht & Hp). exists text.
  by rewrite (readLiveValue_files _ _ _ E).
Qed.

Lemma readPointer_gives path w :
  gives (m_readPointer path)
    (λ w' r, w_fs w' = w_fs w ∧ w_store w' = w_store w ∧ r = (readLiveValue path (w_fs w)).2) w.
Proof.
  intros r. unfold m_readPointer, m_try, m_io, readLiveValue, io_bind, readFileBounded. cbn.
  destruct (w_fs w !! path); [|by intros [= <-]].
  destruct (_ >? _); cbn; by intros [= <-].
Qed.

Lemma readUsable_gives directory recovery w : running w →
  gives (readUsable env directory recovery)
    (λ w' answer, visited w w' ∧ commit_of w' = commit_of w ∧ pointer_read directory answer.1 w') w.
Proof.
  intros Hr. unfold readUsable. apply gives_bind.
  eapply gives_mono; [|apply readPointer_gives]. intros w1 r (Hf & Hst & ->).
  assert (running w1) as Hr1.
  { destruct Hr as [Hs Hj]. split; unfold w_state in *; by rewrite Hst. }
  assert (visited w w1) as Hv.
  { split; [by apply moved_store|unfold w_state; by rewrite Hst|intros p _; by rewrite Hf|].
    intros p _. by rewrite Hf. }
  assert (commit_of w1 = commit_of w) as Hc by (unfold w_state; by rewrite Hst).
  destruct (readLiveValue _ (w_fs w)).2 as [text|e|why] eqn:Hread; [|by apply gives_ret..].
  destruct (parsePointer text) as [p|e|why] eqn:Hp.
  { apply gives_ret. split; [done|]. split; [done|]. exists text. by rewrite Hf. }
  all: apply gives_bind; (eapply gives_mono; [|apply (remove_visited _ w1 Hr1); left; apply ending_current]);
    intros w2 [] (Hv2 & Hst2 & _); apply gives_ret;
    (split; [by eapply visited_trans|]); (split; [|done]); unfold w_state; rewrite Hst2; exact Hc.
Qed.

Lemma recoverMarker_gives directory live recovery w : running w →
  gives (recoverMarker env directory live recovery)
    (λ w' _, visited w w' ∧ commit_of w' = commit_of w
       ∧ same_files (λ p, not_journal p ∧ p ≠ pendingPath directory) w w') w.
Proof.
  intros Hr. unfold recoverMarker. apply gives_bind, gives_state. cbn beta zeta.
  set (completed := match live with Some _ => _ | None => _ end).
  assert (gives (if completed then m_ret (lr_note "adopted-completed-switch=" (lr_adopted recovery))
                 else do@ m_count env count_rollback in
                      m_ret (lr_note "aborted-unresolved-prepare=" (lr_rolledBack recovery)))
            (λ w' _, visited w w' ∧ commit_of w' = commit_of w ∧ same_files not_journal w w') w) as Hfirst.
  { destruct completed; [apply gives_ret; split; [by apply visited_refl|done]|].
    apply gives_bind. eapply gives_mono; [|by apply rollback_gives].
    intros w' [] (Hv & Hc & Hf & _). by apply gives_ret. }
  apply gives_bind. eapply gives_mono; [|exact Hfirst]. intros w1 r1 (Hv1 & Hc1 & Hf1).
  apply gives_bind. eapply gives_mono;
    [|apply (remove_visited _ w1 (mv_running _ _ (vs_moved _ _ Hv1))); right; apply ending_pending].
  intros w2 [] (Hv2 & Hst2 & Hf2). apply gives_bind, gives_state. cbn beta.
  assert (visited w w2) as Hv by by eapply visited_trans.
  assert (commit_of w2 = commit_of w) as Hc by (unfold w_state in *; by rewrite Hst2).
  assert (same_files (λ p, not_journal p ∧ p ≠ pendingPath directory) w w2) as Hf.
  { intros p [Hj Hp]. by rewrite Hf2, Hf1. }
  apply gives_bind. unfold m_when. destruct (applyPrepared _).
  - eapply gives_mono; [|apply (resolveWindow_gives w2 (mv_running _ _ (vs_moved _ _ Hv)))].
    intros w3 [] (Hv3 & Hc3 & Hf3 & _). apply gives_ret. split; [by eapply visited_trans|].
    split; [congruence|]. intros p [Hj Hp]. by rewrite Hf3, Hf.
  - by apply gives_ret, gives_ret.
Qed.

(** After a visit, what is committed is what the directory says. *)
Definition decided (w : World) : Prop := backed w ∨ committed_set (w_state w) = false.

Lemma verified_gives p directory w : running w →
  gives (if o_verifyCommittedPayloadOnStart opts then
           let@ actual := m_try (m_hash env (payloadPath directory (pv_generation p) (pv_digest p)) 0) in
           m_ret (hash_matches actual (pv_digest p))
         else m_ret true)
    (λ w' ok, w_fs w' = w_fs w ∧ w_store w' = w_store w
       ∧ (ok = true → o_verifyCommittedPayloadOnStart opts = true → ∃ content,
            w_fs w !! payloadPath directory (pv_generation p) (pv_digest p) = Some content
            ∧ Digest_ofContent content = pv_digest p)) w.
Proof.
  intros Hr. destruct (o_verifyCommittedPayloadOnStart opts); [|by apply gives_ret].
  apply gives_bind. set (path := payloadPath _ _ _).
  assert (gives (m_try (m_hash env path 0))
            (λ w' r, w_fs w' = w_fs w ∧ w_store w' = w_store w
               ∧ ∀ d, r = Ok d → ∃ content, w_fs w !! path = Some content ∧ Digest_ofContent content = d) w)
    as Hhash.
  { intros r. unfold m_try, m_hash, m_bind, m_call, m_io, hashStagingFile. cbn.
    destruct (w_fs w !! path) as [content|]; [|intros [= <-]; by split_and!].
    destruct (env_read_fails env (w_calls w)); [intros [= <-]; by split_and!|].
    destruct (checkedAdd 64 0 (zlen content)); [|intros [= <-]; by split_and!]. cbn.
    intros [= <-]. split_and!; [done|done|]. intros d [= <-]. by exists content. }
  eapply gives_mono; [|exact Hhash]. intros w1 r (Hf & Hst & Hok). apply gives_ret.
  split; [done|]. split; [done|]. unfold hash_matches. destruct r as [d|e|why]; [|done..].
  intros Hd%bool_decide_eq_true _. destruct (Hok d eq_refl) as (content & Hc & Hx). exists content. by subst.
Qed.

Lemma same_world_running w w1 : running w → w_store w1 = w_store w → running w1.
Proof. intros [Hs Hj] Hst. split; unfold w_state in *; by rewrite Hst. Qed.
Lemma same_world_visited w w1 : running w → w_fs w1 = w_fs w → w_store w1 = w_store w → visited w w1.
Proof.
  intros Hr Hf Hst. split; [by apply moved_store|unfold w_state; by rewrite Hst|..]; intros p _; by rewrite Hf.
Qed.

(** A pointer with its payload backs the commit of its generation and digest. *)
Lemma backed_by directory p w w' :
  pointer_read directory (Some p) w →
  (o_verifyCommittedPayloadOnStart opts = true → ∃ content,
     w_fs w !! payloadPath directory (pv_generation p) (pv_digest p) = Some content
     ∧ Digest_ofContent content = pv_digest p) →
  same_files not_journal w w' →
  committedGeneration (commit_of w') = pv_generation p → committedDigest (commit_of w') = pv_digest p →
  backed w'.
Proof.
  intros (text & Ht & Hp) Hpayload Hf Hg Hd. exists directory, text, p.
  assert (w_fs w' !! currentPath directory = w_fs w !! currentPath directory) as Hc.
  { apply Hf. unfold not_journal. by rewrite ending_current. }
  split; [by rewrite (readLiveValue_files _ _ _ Hc)|]. do 3 (split; [done|]). intros Hv.
  destruct (Hpayload Hv) as (content & Hcontent & Hx). exists content. split; [|done].
  rewrite Hf; [done|]. unfold not_journal. by rewrite ending_payload.
Qed.

Lemma recoverPointer_gives directory live recovery w : running w → pointer_read directory live w →
  gives (recoverPointer opts env directory live recovery) (λ w' _, visited w w' ∧ decided w') w.
Proof.
  intros Hr Hread. unfold recoverPointer. destruct live as [p|].
  - apply gives_bind. eapply gives_mono; [|by apply verified_gives]. intros w1 ok (Hf1 & Hst1 & Hpayload).
    pose proof (same_world_running _ _ Hr Hst1) as Hr1.
    pose proof (same_world_visited _ _ Hr Hf1 Hst1) as Hv1.
    assert (same_files not_journal w w1) as Hsame1 by (intros q _; by rewrite Hf1).
    cbn zeta. apply gives_bind, gives_state. cbn beta.
    destruct ok; cbn [negb].
    + specialize (Hpayload eq_refl).
      destruct (bool_decide (pv_generation p = _) && bool_decide (pv_digest p = _) && _) eqn:Halready; cbn [negb].
      * apply andb_true_iff in Halready as [[Hg%bool_decide_eq_true Hd%bool_decide_eq_true]%andb_true_iff _].
        apply gives_ret. split; [done|]. left. by apply (backed_by directory p w w1).
      * destruct Hread as (text & Ht & Hp). destruct (parsePointer_range _ _ Hp) as (Hg & Hd & Ha).
        apply gives_bind. eapply gives_mono; [|apply (gives_commit _ _ _ w1 Hr1 (applies_commit _ _ _ Hg Hd Ha));
          [apply state_ok_commit; [done..|apply Hr1]|by intros []]].
        intros w2 [] [Hm2 Hs2 Hf2]. apply gives_ret. split.
        { eapply visited_trans; [done|]. apply visited_commit; [done|by rewrite Hs2|done]. }
        left. apply (backed_by directory p w w2); [by exists text|done|by eapply same_files_trans|..];
          by rewrite Hs2.
    + apply gives_bind. eapply gives_mono; [|by apply clearCommit_gives]. intros w2 [] [Hv2 Hc2].
      apply gives_ret. split; [by eapply visited_trans|by right].
  - apply gives_bind, gives_state. cbn beta. destruct (committed_set (w_state w)) eqn:Hset.
    + apply gives_bind. eapply gives_mono; [|by apply clearCommit_gives]. intros w2 [] [Hv2 Hc2].
      apply gives_ret. split; [done|by right].
    + apply gives_ret. split; [by apply visited_refl|by right].
Qed.

Lemma recoverDirectory_gives directory recovery w : running w →
  gives (recoverDirectory opts env directory recovery)
    (λ w' _, visited w w' ∧ (decided w' ∨ w' = w ∧ skipped (w_fs w) directory)) w.
Proof.
  intros Hr. unfold recoverDirectory. apply gives_bind, gives_get. apply gives_bind, gives_get. cbn beta.
  destruct (bool_decide (is_Some (w_fs w !! currentPath directory))) eqn:Hcurrent,
    (bool_decide (is_Some (w_fs w !! pendingPath directory))) eqn:Hpending; cbn [negb andb].
  4: { apply bool_decide_eq_false in Hcurrent, Hpending. apply gives_ret.
       split; [by apply visited_refl|]. right. split; [done|]. left.
       by rewrite !eq_None_not_Some. }
  all: destruct (bool_decide (filename directory = "payload")) eqn:Hname;
    [apply bool_decide_eq_true in Hname; apply gives_ret; split; [by apply visited_refl|];
     right; split; [done|by right]|].
  all: apply gives_bind; (eapply gives_mono; [|by apply readUsable_gives]);
    intros w1 [live r1] (Hv1 & Hc1 & Hread); cbn [fst] in Hread; apply gives_bind.
  all: pose proof (mv_running _ _ (vs_moved _ _ Hv1)) as Hr1.
  1,3: (eapply gives_mono; [|by apply recoverMarker_gives]); intros w2 r2 (Hv2 & Hc2 & Hf2);
    (eapply gives_mono; [|apply recoverPointer_gives; [apply Hv2|]]).
  1,3: intros w3 r3 [Hv3 Hd3]; (split; [by do 2 (eapply visited_trans; [done|])|by left]).
  1,2: revert Hread; apply pointer_read_files, Hf2; split;
    [unfold not_journal; by rewrite ending_current|apply ending_ne; by rewrite ending_current, ending_pending].
  apply gives_ret. eapply gives_mono; [|by apply recoverPointer_gives].
  intros w2 r2 [Hv2 Hd2]. split; [by eapply visited_trans|by left].
Qed.

Lemma recoverDirectories_gives directories recovery w : running w →
  gives (recoverDirectories opts env directories recovery)
    (λ w' _, visited w w'
       ∧ (decided w' ∨ w' = w ∧ ∀ d, d ∈ directories → skipped (w_fs w) d)) w.
Proof.
  revert recovery w. induction directories as [|d directories IH]; intros recovery w Hr;
    cbn [recoverDirectories].
  { apply gives_ret. split; [by apply visited_refl|]. right. split; [done|].
    intros d Hin. by apply elem_of_nil in Hin. }
  apply gives_bind. eapply gives_mono; [|by apply recoverDirectory_gives].
  intros w1 r1 (Hv1 & Hcase1). pose proof (mv_running _ _ (vs_moved _ _ Hv1)) as Hr1.
  eapply gives_mono; [|by apply IH]. intros w2 r2 (Hv2 & Hcase2). split; [by eapply visited_trans|].
  destruct Hcase2 as [|[-> Hrest]]; [by left|]. destruct Hcase1 as [|[-> Hskip]]; [by left|].
  right. split; [done|]. intros d' [->|Hin]%elem_of_cons; auto.
Qed.

Lemma recoverWindow_gives recovery w : running w →
  gives (recoverWindow env recovery)
    (λ w' _, visited w w' ∧ commit_of w' = commit_of w ∧ same_files not_journal w w'
       ∧ applyPrepared (as_window (w_state w')) = false) w.
Proof.
  intros Hr. unfold recoverWindow. apply gives_bind, gives_state. cbn beta.
  destruct (applyPrepared (as_window (w_state w))) eqn:Hopen.
  2: { apply gives_ret. split; [by apply visited_refl|done]. }
  apply gives_bind. eapply gives_mono; [|by apply rollback_gives]. intros w1 [] (Hv1 & Hc1 & Hf1 & _).
  apply gives_bind. eapply gives_mono; [|apply resolveWindow_gives, Hv1].
  intros w2 [] (Hv2 & Hc2 & Hf2 & Hclosed). apply gives_ret. split; [by eapply visited_trans|].
  split; [congruence|]. split; [by eapply same_files_trans|done].
Qed.

Lemma decided_kept w w' :
  commit_of w' = commit_of w → same_files not_journal w w' → decided w → decided w'.
Proof.
  intros Hc Hf [(directory & text & p & Ht & Hp & Hg & Hd & Hpayload)|Hunset].
  - left. apply (backed_by directory p w w'); [by exists text|done|done|congruence..].
  - right. unfold committed_set in *. by rewrite Hc.
Qed.

Lemma skipped_kept w w' directory :
  (∀ p, not_journal p → w_fs w !! p = None → w_fs w' !! p = None) →
  skipped (w_fs w) directory → skipped (w_fs w') directory.
Proof.
  intros Habsent [[Hc Hp]|]; [left|by right]. split; apply Habsent; try done; unfold not_journal;
    by rewrite ?ending_current, ?ending_pending.
Qed.

Lemma all_supported_kept w w' : visited w w' → all_supported w → all_supported w'.
Proof.
  intros Hv Hsup d r Hfind. rewrite (vs_transfers _ _ Hv) in Hfind.
  destruct (Hsup d r Hfind) as [Hs ->]. split; [|done]. revert Hs. apply supported_files.
  apply (vs_files _ _ Hv). unfold not_journal, staging_path. by rewrite ending_staging.
Qed.

(** The records of a well-formed map of transfers. *)
Lemma keyed_records m : keyed tx_deployment transfer_wf m →
  distinct (map snd m) ∧ Forall transfer_wf (map snd m)
  ∧ ∀ (d : DeploymentId) r, map_find d m = Some r → r ∈ map snd m ∧ d = tx_deployment r.
Proof.
  intros Hk. split; [|split].
  - destruct Hk as [Hs Hf]. induction m as [|[k r] m IH]; [constructor|].
    apply Forall_cons_iff in Hf as [[Hkey _] Hf]. cbn in Hkey. destruct Hs as [Hb Hs].
    cbn [map snd]. apply NoDup_cons; [|by apply IH]. intros Hin.
    apply in_map_iff in Hin as (r' & E & Hin). apply in_map_iff in Hin as ([k' r2] & E2 & Hin).
    cbn in E2. subst r2. rewrite Forall_forall in Hf. destruct (Hf _ Hin) as [Hk' _]. cbn in Hk'.
    assert (k' = k) as -> by congruence. apply list_elem_of_In in Hin.
    apply (map_find_elem k r' m Hs) in Hin. by rewrite (below_find _ _ Hb) in Hin.
  - by apply (keyed_values tx_deployment).
  - intros d r Hfind. destruct (keyed_find _ _ _ _ _ Hk Hfind) as [-> _]. split; [|done].
    apply map_find_elem in Hfind; [|apply Hk]. apply list_elem_of_In, in_map_iff.
    exists (tx_deployment r, r). split; [done|by apply list_elem_of_In].
Qed.

Lemma recoverTransfers_gives recovery w : running w →
  gives (recoverTransfers opts env recovery)
    (λ w' _, moved w w' ∧ only_transfers w w' ∧ all_supported w') w.
Proof.
  intros Hr. unfold recoverTransfers. apply gives_bind, gives_state. apply gives_bind, gives_call.
  apply gives_bind, gives_get. apply gives_bind.
  eapply gives_mono; [|apply removeStrays_moves; by apply (same_world_running w)].
  intros w1 r1 Hst1. cbn in Hst1.
  pose proof (same_world_running _ _ Hr Hst1) as Hr1.
  assert (w_state w1 = w_state w) as Hs1 by (unfold w_state; by rewrite Hst1).
  destruct (keyed_records _ (awf_transfers _ (so_wf _ (rn_state _ Hr)))) as (Hdistinct & Hwf & Hkeys).
  assert (∀ r, r ∈ map snd (as_transfers (w_state w)) → transfer_wf r ∧ transfer_ok r) as Hok.
  { intros r Hin. apply list_elem_of_In in Hin. split; [by apply (proj1 (Forall_forall _ _) Hwf)|].
    apply in_map_iff in Hin as (e & <- & Hin). pose proof (so_transfers _ (rn_state _ Hr)) as Ht.
    by apply (proj1 (Forall_forall _ _) Ht). }
  apply gives_bind. eapply gives_mono; [|by apply checkTransfers_checked].
  intros w2 [discarded resized] [Hst2 _ Hsup Hdisc Hres].
  cbn [fst snd] in *. pose proof (same_world_running _ _ Hr1 Hst2) as Hr2.
  assert (w_state w2 = w_state w) as Hs2 by (unfold w_state in *; congruence).
  apply gives_bind. eapply gives_mono; [|apply discardTransfers_gives; [done|]].
  2: { apply Forall_forall. intros d Hin. apply list_elem_of_In in Hin.
       destruct (Hdisc d Hin) as (r & Hr' & <-). apply (Hok r Hr'). }
  intros w3 r3 (Hm3 & Ho3 & Hf3 & Hleft3). apply gives_bind.
  eapply gives_mono; [|apply checkpointAll_gives; [apply Hm3|]].
  2: { apply Forall_forall. intros r Hin. apply list_elem_of_In in Hin.
       apply Hok. by apply Hres. }
  intros w4 [] (Hm4 & Ho4 & Hf4 & Hleft4). apply gives_ret.
  assert (moved w w2) as Hm2 by (apply moved_store; [done|congruence]).
  split; [eapply recovering_trans; [done|by eapply recovering_trans]|]. split.
  - apply (only_transfers_trans _ w3); [|done]. destruct Ho3 as [g Hg]. exists g. by rewrite Hg, Hs2.
  - by apply (supported_after (map snd (as_transfers (w_state w))) resized discarded w w2 w3 w4).
Qed.
End restart.

(** ** Properties *)

(** C9: recovery of the live area. Whatever a crash left behind - staged files
    without a record or shorter than their record, an open prepare window, a
    switched or half-switched pointer, a payload that is damaged - an agent whose
    recovery succeeds is in agreement with its files: every transfer that is left
    has exactly the bytes on disk that its record counts; no prepare window is
    open; a committed generation is one that a live pointer names, with a payload
    that hashes to the committed digest (when payloads are verified at start),
    or there is no key directory at all and the commit is the recorded one. The
    identity, the fence against older controllers and the evidence of earlier
    activations are as they were. *)
Theorem recovery_reconciles opts env w (Hrunning : running opts w) :
  let '(w', r) := recoverLiveArea opts env LiveRecovery_default w in
  ∀ recovery, r = Ok recovery →
    all_supported opts w'
    ∧ applyPrepared (as_window (w_state w')) = false
    ∧ (committed_set (w_state w') = true →
         backed opts w'
         ∨ as_commit (w_state w') = as_commit (w_state w)
           ∧ ∃ n, ∀ d, d ∈ map fst (env_listing env n) → skipped (w_fs w') d)
    ∧ moved opts w w'.
Proof.
  destruct (recoverLiveArea opts env LiveRecovery_default w) as [w' r] eqn:Hrun.
  intros recovery ->.
  assert (gives (recoverLiveArea opts env LiveRecovery_default)
            (λ w' _, all_supported opts w' ∧ applyPrepared (as_window (w_state w')) = false
               ∧ (committed_set (w_state w') = true → backed opts w'
                    ∨ as_commit (w_state w') = as_commit (w_state w)
                      ∧ ∃ n, ∀ d, d ∈ map fst (env_listing env n) → skipped (w_fs w') d)
               ∧ moved opts w w') w) as H.
  2: { unfold gives, wp in H. rewrite Hrun in H. by apply (H recovery). }
  clear Hrun w' recovery. unfold recoverLiveArea. apply gives_bind.
  eapply gives_mono; [|by apply recoverTransfers_gives]. intros w1 r1 (Hm1 & [g Hg] & Hsup1).
  apply gives_bind, gives_call. apply gives_bind. set (listing := env_listing env (w_calls w1)).
  pose proof (same_world_running opts w1 (next_call w1) (mv_running _ _ _ Hm1) eq_refl) as Hr1.
  eapply gives_mono; [|by apply recoverDirectories_gives]. intros w2 r2 (Hv2 & Hcase).
  eapply gives_mono; [|apply recoverWindow_gives, Hv2]. intros w3 r3 (Hv3 & Hc3 & Hf3 & Hclosed).
  assert (visited opts (next_call w1) w3) as Hv by by eapply visited_trans.
  split_and!; [by apply (all_supported_kept opts (next_call w1))|done| |].
  - intros Hset. destruct Hcase as [Hdec|[-> Hskip]].
    + destruct (decided_kept opts w2 w3 Hc3 Hf3 Hdec) as [|Hunset]; [by left|congruence].
    + right. split; [rewrite Hc3; by unfold w_state in *; cbn; rewrite Hg|].
      exists (w_calls w1). intros d Hin. apply (skipped_kept (next_call w1)); [apply Hv|by apply Hskip].
  - eapply recovering_trans; [exact Hm1|]. destruct (vs_moved _ _ _ Hv). by split.
Qed.

Lemma inv_running opts fs w : inv opts (w_fs w) (w_store w) → running opts (set_fs fs w).
Proof. by intros [Hs _ _ Hj]. Qed.

(** An agent that died between the switch of the live pointer and its record. *)
Definition half_switched : World :=
  let w := staged_world ApplyGuarantee.AtomicActivate in
  let pointer := pointerText (fromValue 5) (Digest_ofContent example_content) (mkString "a1") in
  set_fs (<["s/live/k1/current" := bytes_of_string pointer]>
            (<["s/live/k1/payload/5-2cf24dba5fb0.cfg" := example_content]> (w_fs w))) w.
Definition half_switched_recovered : World * Result LiveRecovery :=
  recoverLiveArea (example_agent ApplyGuarantee.AtomicActivate) (calm_env [("s/live/k1", 0)])
    LiveRecovery_default half_switched.

Lemma half_switched_adopted :
  is_ok half_switched_recovered.2 = true
  ∧ committedGeneration (as_commit (w_state half_switched_recovered.1)) = fromValue 5.
Proof. vm_compute. split; reflexivity. Qed.

Lemma recovery_reconciles_witness :
  committedGeneration (as_commit (w_state half_switched_recovered.1)) = fromValue 5
  ∧ all_supported (example_agent ApplyGuarantee.AtomicActivate) half_switched_recovered.1.
Proof.
  destruct half_switched_adopted as [Hok Hgeneration]. split; [exact Hgeneration|].
  assert (running (example_agent ApplyGuarantee.AtomicActivate) half_switched) as Hrunning.
  { exact (inv_running _ _ _ (staged_inv ApplyGuarantee.AtomicActivate)). }
  pose proof (recovery_reconciles (example_agent ApplyGuarantee.AtomicActivate)
    (calm_env [("s/live/k1", 0)]) half_switched Hrunning) as H.
  clear Hgeneration. unfold half_switched_recovered in *.
  destruct (recoverLiveArea _ _ _ _) as [w' [recovery|e|why]]; [|discriminate Hok..].
  apply (H recovery eq_refl).
Defined.

(** A key directory that is gone altogether leaves the committed generation in
    place, although nothing is activated. *)
Example lost_directory_stays_committed :
  let w := set_fs (delete "s/live/k1/current" (delete "s/live/k1/payload/5-2cf24dba5fb0.cfg"
             (w_fs half_switched_recovered.1))) half_switched_recovered.1 in
  committed_set (w_state (recoverLiveArea (example_agent ApplyGuarantee.AtomicActivate)
    (calm_env []) LiveRecovery_default w).1) = true.
Proof. vm_compute. reflexivity. Qed.
