(* ===== verification/AgentReport.v ===== *)
(** * The reconciliation report, end to end

    What an agent reports is what its state and its staging area hold, and it
    can always be encoded and decoded; so every conclusion the distributor
    draws from the report of the authenticated session (Reconciliation.v) is
    true of the agent (Agent.v). *)

From stdpp Require Import gmap.
From Stdlib Require Import Strings.Byte.
From S2P Require Import Prelude Result StdMap Checked Hash Ids Text Codec Lifecycle Files Journal.
From S2P Require Import Snapshot Artifact FaultPlan AgentFiles AgentPaths Frame Records Messages.
From S2P Require Import Protocol Reconciliation State Store Agent AgentStart AgentEffects AgentLogic.
From S2P Require Import AgentInv AgentWp AgentExample AgentHandlers AgentSpec.

(** The identity an opened agent has. *)
Record started (s : AgentState) : Prop := {
  sd_target : id_isSet (target (as_identity s)) = true;
  sd_term : num_isSet (term (as_identity s)) = true;
  sd_incarnation : opaque_isSet (incarnation (as_identity s)) = true;
}.

Lemma optional_isSet {Tag} (i : StrongString Tag) : id_optional i → id_isSet i = true → id_valid i.
Proof. intros [E|]; [|done]. unfold id_isSet. by rewrite bool_decide_true. Qed.

Section report.
Context (opts : AgentOptions) (fs : FileSystem).
Abbreviation staging := (staging_path opts).

(** A reported transfer is a recorded one, up to the bytes on disk. *)
Record status_true (s : AgentState) (t : TransferStatusRecord) (r : TransferRecord) : Prop := {
  st_record : map_find (ts_deployment t) (as_transfers s) = Some r;
  st_stream : ts_stream t = tx_stream r;
  st_key : ts_key t = tx_key r;
  st_generation : ts_generation t = tx_generation r;
  st_digest : ts_digest t = tx_digest r;
  st_total : ts_totalBytes t = tx_totalBytes r;
  st_staged : ts_staged t = tx_staged r;
  st_received : ts_bytesReceived t <= tx_bytesReceived r;
  st_on_disk : ts_bytesReceived t = 0
    ∨ ∃ content, fs !! staging (ts_deployment t) = Some content ∧ ts_bytesReceived t <= zlen content;
  st_verified : ts_verified t = true → tx_verified r = true ∧ ts_bytesReceived t = tx_totalBytes r;
}.

Lemma status_of_record s d r :
  state_ok s → (d, r) ∈ as_transfers s →
  transfer_status_wf (transferStatus opts fs r) ∧ status_true s (transferStatus opts fs r) r.
Proof.
  intros Hs Hin. pose proof Hs as [[] _ _ _].
  apply map_find_elem in Hin; [|by apply awf_transfers].
  destruct (transfer_found s d r Hs Hin) as (-> & [] & []).
  unfold transferStatus. cbn zeta.
  assert (0 <= default 0 (file_size (staging (tx_deployment r)) fs)) as Hsize.
  { unfold file_size. destruct (fs !! _); simpl; [apply zlen_nonneg|lia]. }
  set (usable := default 0 (file_size (staging (tx_deployment r)) fs)) in *.
  apply negb_true_iff in twf_bounded. rewrite Z.gtb_ltb in twf_bounded.
  apply Z.ltb_ge in twf_bounded. unfold fits in *.
  split; split; cbn [ts_deployment ts_stream ts_key ts_generation ts_digest ts_bytesReceived
    ts_totalBytes ts_verified ts_staged]; try done.
  - unfold fits. lia.
  - apply negb_true_iff. rewrite Z.gtb_ltb. apply Z.ltb_ge. lia.
  - lia.
  - subst usable. unfold file_size in *. destruct (fs !! _) as [c|]; simpl in *; [|left; lia].
    right. exists c. split; [done|]. lia.
  - intros [Hv Hb]%andb_true_iff. split; [done|]. by apply Z.eqb_eq in Hb.
Qed.

Lemma reported_finding_wf f :
  finding_wf f → num_isSet (fd_generation f) = true → reconcile_finding_wf (reportedFinding f).
Proof. intros [] Hg. by split. Qed.

Lemma report_ok s maxFindings :
  state_ok s → started s →
  reconcile_report_wf (reconcileReport opts fs s maxFindings)
  ∧ check_reconcile_report (reconcileReport opts fs s maxFindings) = Ok tt.
Proof.
  intros Hs [Ht Hterm Hinc]. pose proof Hs as [[] _ Hf _]. split.
  - split; simpl; try done.
    + by apply optional_isSet.
    + unfold fits in *. lia.
    + split.
      * unfold zlen. rewrite length_map, length_take. unfold kMaxTransfersInReport. lia.
      * apply List.Forall_map, Forall_take, List.Forall_forall. intros [d r] Hin%list_elem_of_In.
        apply (status_of_record s d r Hs Hin).
    + split.
      * unfold zlen. rewrite length_map, length_drop. unfold kMaxFindingsInReport. unfold zlen in *. lia.
      * apply List.Forall_map, Forall_drop. rewrite List.Forall_forall in *.
        intros f Hin. apply reported_finding_wf; auto.
  - unfold check_reconcile_report. simpl. by rewrite Hterm, Hinc.
Qed.
End report.

(** ** Answering a request *)

(** The answer to a request is the report, or an error that sends nothing. *)
Lemma dispatch_report opts env session frame w request :
  inv opts (w_fs w) (w_store w) → started (w_state w) →
  ftype (header frame) = FrameType.ReconcileRequest →
  decodeReconcileRequest (fpayload frame) = Ok request →
  let report := reconcileReport opts (w_fs w) (w_state w) (rq_maxFindings request) in
  wp (dispatch opts env session frame)
    (λ w' r, w_fs w' = w_fs w ∧ w_store w' = w_store w
       ∧ if is_ok r
         then ∃ payload, w_sent w' = w_sent w ++ [mkMessage FrameType.ReconcileReport
                                                   kFrameFlagResponse payload]
                ∧ decodeReconcileReport payload = Ok report
         else w_sent w' = w_sent w) w.
Proof.
  intros Hinv Hstart Ht Hreq report.
  assert (dispatch opts env session frame
          = do@ onReconcileRequest opts env (fpayload frame) in m_ret true) as ->
    by (unfold dispatch; by rewrite Ht).
  destruct (codec_complete (encode := encodeReconcileReport) report) as (bs & He & Hd).
  { by apply report_ok; [apply Hinv|]. }
  wp_step. unfold onReconcileRequest. do 2 wp_step. rewrite Hreq. do 2 wp_step.
  unfold m_reply. do 2 wp_step. fold report. rewrite He.
  apply wp_send.
  - wp_step. do 2 (split; [done|]). by exists bs.
  - intros w' [u|e|why] [-> | ->] Hr; done.
Qed.

(** An agent answers a reconcile request with what it holds. On a started
    agent whose invariant holds, the request changes neither files nor state,
    and unless the connection fails exactly one frame is sent, which decodes
    to the report: the committed generation, digest and artifact, the open
    window, every transfer (the first 64) with at most the bytes that are on
    disk and "verified" only for a complete verified one, and the last
    findings, as many as were asked for. *)
Theorem reconcile_report_faithful opts env session frame w request
    (Hinv : inv opts (w_fs w) (w_store w)) (Hstart : started (w_state w))
    (Ht : ftype (header frame) = FrameType.ReconcileRequest)
    (Hreq : decodeReconcileRequest (fpayload frame) = Ok request) :
  let w' := (dispatch opts env session frame w).1 in
  let s := w_state w in
  w_fs w' = w_fs w ∧ w_store w' = w_store w
  ∧ (is_ok (dispatch opts env session frame w).2 = true →
     ∃ payload report,
       w_sent w' = w_sent w ++ [mkMessage FrameType.ReconcileReport kFrameFlagResponse payload]
       ∧ decodeReconcileReport payload = Ok report
       ∧ rp_term report = term (as_identity s)
       ∧ rp_incarnation report = incarnation (as_identity s)
       ∧ rp_committedGeneration report = committedGeneration (as_commit s)
       ∧ rp_committedDigest report = committedDigest (as_commit s)
       ∧ rp_committedArtifact report = committedArtifact (as_commit s)
       ∧ rp_applyPrepared report = applyPrepared (as_window s)
       ∧ rp_preparedGeneration report = preparedGeneration (as_window s)
       ∧ length (rp_transfers report) = Nat.min 64 (length (as_transfers s))
       ∧ (∀ t, t ∈ rp_transfers report → ∃ r, status_true opts (w_fs w) s t r)
       ∧ ∃ older, map reportedFinding (as_findings s) = older ++ rp_findings report
           ∧ zlen (rp_findings report)
             = Z.min (rq_maxFindings request) (zlen (as_findings s))).
Proof.
  pose proof (dispatch_report opts env session frame w request Hinv Hstart Ht Hreq) as H.
  unfold wp in H. destruct (dispatch opts env session frame w) as [w' r]. cbn [fst snd] in *.
  destruct H as (Hfs & Hst & H). do 2 (split; [done|]). intros Hr. rewrite Hr in H.
  destruct H as (payload & Hsent & Hd).
  exists payload, (reconcileReport opts (w_fs w) (w_state w) (rq_maxFindings request)).
  do 9 (split; [done|]). split; [simpl; by rewrite length_map, length_take|]. split.
  - intros t Ht'. simpl in Ht'. apply list_elem_of_In, in_map_iff in Ht' as ([d rec] & <- & Hin).
    apply list_elem_of_In in Hin. exists rec.
    apply (status_of_record opts (w_fs w) (w_state w) d rec (inv_state _ _ _ Hinv)).
    rewrite <- (take_drop (Z.to_nat kMaxTransfersInReport) (as_transfers (w_state w))).
    apply elem_of_app. by left.
  - pose proof (decoded_ok Hreq) as [[_ _ _ [Hmin _]] Hmax].
    unfold check_reconcile_request in Hmax. case_match; [done|]. case_match eqn:E; [done|].
    rewrite Z.gtb_ltb in E. apply Z.ltb_ge in E. clear Hmax.
    unfold reconcileReport. cbn [rp_findings].
    set (n := Z.to_nat _).
    exists (map reportedFinding (take n (as_findings (w_state w)))).
    rewrite <- map_app, take_drop. split; [done|]. subst n.
    unfold zlen in *. rewrite length_map, length_drop. unfold kMaxFindingsInReport in *. lia.
Qed.

(** C6: the conclusions a distributor draws from the report of its session are
    true of the agent. If it adopts an activation, the agent has committed, or
    recorded activating, exactly that generation and digest and has no window
    open; if it resumes a transfer, the agent holds that very content up to the
    resume offset, and the bytes are on disk; if it retires a delivery, the
    agent has committed a newer generation; if it resolves a window, one is
    open; if it drives normally, the desired content is not what is committed;
    and an authentic report is never fenced. *)
Theorem reconcile_conclusions_true opts env session frame w request payload report input
    (Hinv : inv opts (w_fs w) (w_store w)) (Hstart : started (w_state w))
    (Ht : ftype (header frame) = FrameType.ReconcileRequest)
    (Hreq : decodeReconcileRequest (fpayload frame) = Ok request)
    (Hsent : w_sent (dispatch opts env session frame w).1
             = w_sent w ++ [mkMessage FrameType.ReconcileReport kFrameFlagResponse payload])
    (Hd : decodeReconcileReport payload = Ok report) (Hin : ri_report input = Some report)
    (Hterm : ri_sessionTerm input = term (as_identity (w_state w)))
    (Hinc : ri_sessionIncarnation input = incarnation (as_identity (w_state w))) :
  let s := w_state w in
  let d := reconcileDelivery input in
  let is_desired (g : Generation) (x : Digest) :=
    g = ri_desiredGeneration input ∧ x = ri_desiredDigest input in
  match rd_outcome d with
  | ReconcileOutcome.AdoptActivation =>
      applyPrepared (as_window s) = false
      ∧ (is_desired (committedGeneration (as_commit s)) (committedDigest (as_commit s))
         ∨ ∃ f, f ∈ as_findings s ∧ is_desired (fd_generation f) (fd_digest f)
             ∧ isActivationState (fd_state f) = true)
  | ReconcileOutcome.ResumeTransfer =>
      ∃ r content,
        map_find (ri_deployment input) (as_transfers s) = Some r
        ∧ is_desired (tx_generation r) (tx_digest r)
        ∧ w_fs w !! staging_path opts (ri_deployment input) = Some content
        ∧ 0 < rd_resumeFromOffset d <= tx_bytesReceived r
        ∧ rd_resumeFromOffset d <= zlen content
  | ReconcileOutcome.RetireStale =>
      value (ri_desiredGeneration input) < value (committedGeneration (as_commit s))
  | ReconcileOutcome.ResolvePrepareWindow => applyPrepared (as_window s) = true
  | ReconcileOutcome.UnknownAtTarget =>
      num_isSet (committedGeneration (as_commit s)) = false
      ∧ (rq_maxFindings request = 0 ∨ as_findings s = [])
  | ReconcileOutcome.DriveNormally =>
      num_isSet (ri_desiredGeneration input) = true → digest_isSet (ri_desiredDigest input) = true →
      ¬ is_desired (committedGeneration (as_commit s)) (committedDigest (as_commit s))
  | ReconcileOutcome.FenceAuthority => False
  end.
Proof.
  pose proof (dispatch_report opts env session frame w request Hinv Hstart Ht Hreq) as H.
  unfold wp in H. destruct (dispatch opts env session frame w) as [w' r]. cbn [fst snd] in *.
  destruct H as (_ & _ & H). destruct (is_ok r).
  2: { rewrite H in Hsent. apply (f_equal length) in Hsent. rewrite length_app in Hsent. simpl in Hsent. lia. }
  destruct H as (payload' & Hsent' & Hd'). rewrite Hsent in Hsent'.
  apply app_inv_head in Hsent'. injection Hsent' as <-. rewrite Hd in Hd'. injection Hd' as ->.
  clear Hsent Hd. set (d := reconcileDelivery input).
  set (report := reconcileReport _ _ _ _) in *.
  assert (authoritative input report) as Hauth by (by split_and!).
  pose proof (outcome_rests_on input) as H. pose proof (outcome_complete input report Hauth) as Hc.
  cbv zeta in H, Hc. fold d in H, Hc. destruct (rd_outcome d).
  - intros Hg Hx [Hg' Hx']. destruct Hc as (H1 & _ & H3).
    destruct (applyPrepared (as_window (w_state w))) eqn:Ewin.
    { by specialize (H1 Ewin). }
    assert (ReconcileOutcome.DriveNormally = ReconcileOutcome.AdoptActivation) as [=].
    apply H3; [split; [done|]|by left|done..]. intros _. simpl. rewrite Hg'. lia.
  - destruct H as (report' & (Hr & _) & [Hw _] & Hev). rewrite Hin in Hr. injection Hr as <-.
    split; [done|]. destruct Hev as [Hev|(f & Hf & Hev)]; [by left|right].
    simpl in Hf. apply list_elem_of_In, in_map_iff in Hf as (f' & <- & Hf).
    exists f'. destruct Hev as (H1 & H2 & H3). split; [|done].
    apply list_elem_of_In in Hf. by eapply subseteq_drop.
  - destruct H as (report' & t & (Hr & _) & _ & Hmem & Hdep & Hg & Hx & -> & Hb & Hlt).
    rewrite Hin in Hr. injection Hr as <-.
    simpl in Hmem. apply list_elem_of_In, in_map_iff in Hmem as ([dep rec] & <- & Hmem).
    assert ((dep, rec) ∈ as_transfers (w_state w)) as Hmem'.
    { apply list_elem_of_In in Hmem. by eapply subseteq_take. }
    destruct (status_of_record opts (w_fs w) (w_state w) dep rec (inv_state _ _ _ Hinv) Hmem')
      as [_ [Hfind _ _ Hgen Hdig _ _ Hrec Hdisk _]].
    destruct Hdisk as [E|(content & Hc' & Hle)]; [simpl in *; lia|].
    exists rec, content. rewrite <- Hdep. split_and!; try done; congruence.
  - destruct H as (report' & (Hr & _) & _ & _ & Hlt). rewrite Hin in Hr. by injection Hr as <-.
  - destruct H as (report' & (Hr & _) & Hp). rewrite Hin in Hr. by injection Hr as <-.
  - destruct H as (report' & Hr & Hna). rewrite Hin in Hr. by injection Hr as <-.
  - destruct H as (report' & (Hr & _) & Hset & Hnone). rewrite Hin in Hr. injection Hr as <-.
    split; [done|]. simpl in Hnone. apply map_eq_nil in Hnone.
    apply (f_equal length) in Hnone. rewrite length_drop in Hnone. simpl in Hnone.
    pose proof (decoded_ok Hreq) as [[_ _ _ [Hmin _]] _].
    unfold zlen, kMaxFindingsInReport in Hnone.
    destruct (as_findings (w_state w)) as [|f fs]; [by right|left].
    cbn [length] in Hnone. lia.
Qed.

(** ** An example *)

Definition example_request_frame : Frame :=
  frame_of (MReconcileRequest (mkReconcileRequestMessage (mkString "n1") (fromValue 1)
                                 (mkOpaque (repeat Byte.x01 16)) 8)).
Definition example_request : ReconcileRequestMessage :=
  mkReconcileRequestMessage (mkString "n1") (fromValue 1) (mkOpaque (repeat Byte.x01 16)) 8.
Abbreviation atomic := (example_agent ApplyGuarantee.AtomicActivate).

(** The delivery of AgentExample.v, committed. *)
Definition committed_world : World :=
  (deliver atomic (calm_env []) example_session [commit_frame]
     (staged_world ApplyGuarantee.AtomicActivate)).1.
Lemma committed_inv : inv atomic (w_fs committed_world) (w_store committed_world).
Proof.
  exact (keeps_inv_deliver atomic (calm_env []) (calm_clock []) example_session [commit_frame]
           (staged_world ApplyGuarantee.AtomicActivate) (staged_inv ApplyGuarantee.AtomicActivate)).
Qed.
Lemma committed_started : started (w_state committed_world).
Proof. split; vm_compute; reflexivity. Qed.
Lemma example_request_type : ftype (header example_request_frame) = FrameType.ReconcileRequest.
Proof. vm_compute. reflexivity. Qed.
Lemma example_request_decoded :
  decodeReconcileRequest (fpayload example_request_frame) = Ok example_request.
Proof. vm_compute. reflexivity. Qed.

Definition reported_world : World :=
  (dispatch atomic (calm_env []) example_session example_request_frame committed_world).1.
Definition example_payload : list byte :=
  match rev (w_sent reported_world) with m :: _ => m_payload m | [] => [] end.
Definition example_reported : ReconcileReportMessage :=
  match decodeReconcileReport example_payload with
  | Ok r => r
  | _ => example_report num_unset digest_unset []
  end.
(** The distributor's view of the delivery that was committed. *)
Definition reconcile_input : ReconcileInput :=
  mkReconcileInput (Some example_reported) (rp_term example_reported)
    (rp_incarnation example_reported) (fromValue 5) (Digest_ofContent example_content)
    (mkString "k1") (mkString "d1") DeliveryState.Offered ApplyGuarantee.AtomicActivate
    GuaranteeRequirement.RequireAtomic true.
Lemma example_sent :
  w_sent reported_world
  = w_sent committed_world ++ [mkMessage FrameType.ReconcileReport kFrameFlagResponse example_payload].
Proof. vm_compute. reflexivity. Qed.
Lemma example_payload_decoded : decodeReconcileReport example_payload = Ok example_reported.
Proof. vm_compute. reflexivity. Qed.

Lemma reconcile_report_faithful_witness :
  w_fs reported_world = w_fs committed_world
  ∧ committedGeneration (as_commit (w_state committed_world)) = fromValue 5.
Proof.
  split; [|vm_compute; reflexivity].
  exact (proj1 (reconcile_report_faithful atomic (calm_env []) example_session
    example_request_frame committed_world example_request committed_inv committed_started
    example_request_type example_request_decoded)).
Defined.

Lemma example_term : ri_sessionTerm reconcile_input = term (as_identity (w_state committed_world)).
Proof. vm_compute. reflexivity. Qed.
Lemma example_incarnation :
  ri_sessionIncarnation reconcile_input = incarnation (as_identity (w_state committed_world)).
Proof. vm_compute. reflexivity. Qed.
Lemma example_adopted :
  rd_outcome (reconcileDelivery reconcile_input) = ReconcileOutcome.AdoptActivation.
Proof. vm_compute. reflexivity. Qed.

Lemma reconcile_conclusions_true_witness :
  applyPrepared (as_window (w_state committed_world)) = false.
Proof.
  pose proof (reconcile_conclusions_true atomic (calm_env []) example_session
    example_request_frame committed_world example_request example_payload example_reported
    reconcile_input committed_inv committed_started example_request_type example_request_decoded
    example_sent example_payload_decoded eq_refl example_term example_incarnation) as H.
  cbv zeta in H. rewrite example_adopted in H. exact (proj1 H).
Defined.
