(* ===== verification/AgentProgress.v ===== *)
(** * Progress of an agent

    What the primitive steps of the agent do when the operating system does not
    fail: records are committed and can be recovered, files are written,
    messages are sent. The postconditions are total: the step returns. *)

From stdpp Require Import gmap.
From Stdlib Require Import Strings.Ascii Strings.Byte.
From S2P Require Import Prelude Result StdMap Checked Hash Ids Text Codec Lifecycle Files Journal.
From S2P Require Import Snapshot Artifact FaultPlan AgentFiles AgentPaths Frame Records Messages.
From S2P Require Import Protocol State Store Recovery Agent AgentStart AgentEffects AgentLogic.
From S2P Require Import AgentInv AgentWp.

(** An operating system and a connection that do not fail. *)
Record benign (env : Env) : Prop := {
  bn_append n : env_append env n = Written;
  bn_write n : env_write env n = no_faults;
  bn_copy n : env_copy env n = no_copy_faults;
  bn_chunk n : env_chunk env n = no_chunk_faults;
  bn_reads n : env_read_fails env n = false;
  bn_mkdir n : env_mkdir_fails env n = false;
  bn_remove n : env_remove_fails env n = false;
  bn_send n : env_send_fails env n = None;
  bn_random n : length (env_random env n) = 16%nat;
  bn_now n : fits_i64 (env_now env n);
  bn_payload : kDefaultMaxPayloadBytes <= env_maxPayload env <= kAbsoluteMaxPayloadBytes;
}.

(** ** Names of the store *)

(** The files of the durable store end like this. *)
Definition store_name (p : string) : Prop :=
  ending p = "rnal" ∨ ending p = "ot.a" ∨ ending p = "ot.b".

Lemma slot_name opts s : store_name (slotPath (snapshotOptions (store_options opts)) s).
Proof.
  right. unfold slotPath, snapshotOptions. cbn [snap_path]. rewrite !append_assoc.
  destruct s; [left|right]; by rewrite ending_append by (vm_compute; lia).
Qed.

(** A temporary name ends in the digits of its suffix. *)
Lemma toHex_app l k : toHex (l ++ k) = toHex l +:+ toHex k.
Proof.
  induction l as [|b l IH]; [done|]. cbn [app toHex]. rewrite IH. reflexivity.
Qed.

Lemma temporary_not_store suffix p : (2 <= length suffix)%nat → ¬ store_name (tempSiblingPath suffix p).
Proof.
  intros Hl. unfold store_name, tempSiblingPath.
  rewrite <- (take_drop (length suffix - 2) suffix), toHex_app.
  assert (length (drop (length suffix - 2) suffix) = 2%nat) as Hd by (rewrite length_drop; lia).
  destruct (drop _ suffix) as [|b [|b' [|]]]; try done.
  rewrite <- !append_assoc, ending_append by (simpl; lia). clear.
  intros [E|[E|E]]; cbn in E; injection E as E1 E2 E3 E4.
  - revert E4. by destruct b'.
  - revert E3. by destruct b'.
  - revert E3. by destruct b'.
Qed.

(** ** A store that can be recovered *)

Section progress.
Context (opts : AgentOptions).
Abbreviation store_of := (store_inv (store_options opts)).

(** The journal and the snapshot give a state with the same committed
    generation as the one in memory, and [n] more records fit. *)
Record durable (n : Z) (fs : FileSystem) (st : Store AgentState) : Prop := {
  du_store : ∃ d rs, store_of fs (set_state d st) rs ∧ as_commit d = as_commit (state_ st);
  du_failed : failed_ st = false;
  du_room : 0 <= value (j_lastSequence (journal_ st)) ∧ value (j_lastSequence (journal_ st)) + n < 2 ^ 64;
}.

Lemma durable_weaken n m fs st : m <= n → durable n fs st → durable m fs st.
Proof. intros Hm [? ? ?]. split; [done..|lia]. Qed.

Lemma durable_files n fs fs' st :
  (∀ p, store_name p → fs' !! p = fs !! p) → durable n fs st → durable n fs' st.
Proof.
  intros Hfs [(d & rs & [Ho Hd Hj Hp Hm (loaded & Hl & Hr)] & Hc) Hf Hroom].
  split; [|done..]. exists d, rs. split; [|done]. split; try done.
  - destruct Hj as [Hfile Hseg Hlast Hcount Hbound Hpath]. split; try done.
    rewrite Hfs; [done|]. rewrite Hp. left. apply journal_ending.
  - exists loaded. split; [|done]. rewrite <- Hl. apply (loads_other (store_options opts) fs).
    intros s. apply Hfs, slot_name.
Qed.

Lemma durable_state n fs st s :
  as_commit s = as_commit (state_ st) → durable n fs st → durable n fs (set_state s st).
Proof.
  intros Hs [(d & rs & Hst & Hc) Hf Hroom]. split; [|done..]. exists d, rs. simpl.
  split; [done|congruence].
Qed.

Context (env : Env) (Hbenign : benign env).

(** A record is committed. *)
Lemma wp_commit_ok n type w f world (Q : World → Result unit → Prop) :
  applies type w f → sized w kMaxJournalRecordBytes → isKnownRecordType (raw type) = true →
  (∀ d s, as_commit d = as_commit s → as_commit (f d) = as_commit (f s)) →
  0 <= n → durable (n + 1) (w_fs world) (w_store world) →
  (∀ fs' st', state_ st' = f (w_state world) → durable n fs' st' →
     j_path (journal_ st') = j_path (journal_ (w_store world)) →
     (∀ p, ending p ≠ "rnal" → fs' !! p = w_fs world !! p) →
     Q (stored fs' st' world) (Ok tt)) →
  wp (m_commit env type w) Q world.
Proof.
  intros (bs & -> & Happly) Hsize Hknown Hf Hn [(d & rs & Hst & Hc) Hfailed Hroom] HQ.
  unfold wp, m_commit, m_bind, m_lift, m_call. cbn [fst snd]. rewrite (bn_append _ Hbenign).
  cbn [w_store w_fs next_call].
  set (st := w_store world) in *. set (fs := w_fs world) in *.
  assert (appendable (journal_ st) type bs) as Ha.
  { split; [done|]. split; [|lia]. pose proof (si_max _ _ _ _ Hst) as Hm. simpl in Hm. rewrite Hm.
    by apply Hsize. }
  destruct (commit_spec (store_options opts) Written fs (set_state d st) rs type bs (f d) Hst Hfailed Ha)
    as (fs' & st' & r & Hrun & _ & _ & Hst' & Hfailed' & _ & -> & Hinv); [apply Happly|].
  pose proof (ji_last _ _ _ (si_journal _ _ _ _ Hinv)) as Hlast. rewrite last_sequence_snoc in Hlast.
  pose proof (si_path _ _ _ _ Hst) as Hpath. simpl in Hpath.
  pose proof (si_path _ _ _ _ Hinv) as Hpath'.
  unfold commit in Hrun |- *. simpl in Hrun. rewrite Hfailed in *.
  destruct (zlen bs >? j_maxRecordBytes (journal_ st)); [done|].
  cbn [sc_apply agent_codec] in *. rewrite Happly in *.
  destruct (append Written (journal_ st) type bs fs) as [fs1 [j| |]] eqn:Eappend; [|done..].
  injection Hrun as <- <-. simpl in *.
  apply (HQ fs1 (set_journal j (set_state (f (state_ st)) st))); [done|..].
  - split; [|done|].
    + exists (f d), (rs ++ [nextRecord (journal_ st) type bs]). split; [done|]. by apply Hf.
    + simpl. rewrite Hlast. simpl. lia.
  - simpl. congruence.
  - intros p Hp. pose proof (append_files Written (journal_ st) type bs fs p) as H.
    rewrite Eappend in H. apply H. rewrite Hpath. by apply journal_ne.
Qed.

(** [w'] is [w] with these files, this store, and these messages sent. *)
Record moved (w : World) (fs : FileSystem) (st : Store AgentState) (sent : list Message)
    (w' : World) : Prop := {
  mv_fs : w_fs w' = fs;
  mv_store : w_store w' = st;
  mv_sent : w_sent w' = w_sent w ++ sent;
  mv_inbox : w_inbox w' = w_inbox w;
}.

Lemma moved_trans w fs1 st1 l1 w1 fs2 st2 l2 w2 :
  moved w fs1 st1 l1 w1 → moved w1 fs2 st2 l2 w2 → moved w fs2 st2 (l1 ++ l2) w2.
Proof.
  intros [_ _ Hs1 Hi1] [Hf2 Hst2 Hs2 Hi2]. split; [done..| |congruence].
  by rewrite Hs2, Hs1, app_assoc.
Qed.

(** A message is sent. *)
Lemma wp_reply_ok pm type flags encoded (Q : World → Result unit → Prop) world :
  encodeMessage pm = encoded → message_type pm = type → protocol_ok pm → frame_sized pm →
  flags = 0 ∨ flags = kFrameFlagResponse →
  (∀ bs w', encoded = Ok bs → decodeMessage type bs = Ok pm →
     moved world (w_fs world) (w_store world) [mkMessage type flags bs] w' → Q w' (Ok tt)) →
  wp (m_reply env type flags encoded) Q world.
Proof.
  intros <- <- Hok Hsized Hflags HQ.
  destruct (message_codec (message_type pm)) as [Hc _].
  destruct (Hc pm (conj Hok eq_refl)) as (bs & He & Hd).
  pose proof (message_size pm bs Hok Hsized He) as Hsize. destruct (bn_payload _ Hbenign) as [Hmin Hmax].
  unfold m_reply. do 2 wp_step. rewrite He. unfold m_send. do 2 wp_step.
  rewrite encodeFrame_sent.
  2: { split; [lia|]. destruct Hflags as [-> | ->];
         (split; [split; vm_compute; congruence|vm_compute; reflexivity]). }
  do 2 wp_step. rewrite (bn_send _ Hbenign). wp_step. apply (HQ bs); [done|done|by split].
Qed.

(** A file is replaced. *)
Lemma wp_write_ok path text (Q : World → Result unit → Prop) world :
  (∀ fs w', fs !! path = Some (bytes_of_string text) →
     (∀ p, p ≠ path → proper p ∨ store_name p → fs !! p = w_fs world !! p) →
     moved world fs (w_store world) [] w' → Q w' (Ok tt)) →
  wp (m_write env path text) Q world.
Proof.
  intros HQ. unfold m_write. do 4 wp_step. rewrite (bn_write _ Hbenign).
  set (suffix := env_random env _). unfold wp, m_io, writeFileAtomic, file_rename. simpl.
  rewrite Nat.eqb_refl. cbn [negb orb]. rewrite lookup_insert_eq. simpl.
  eapply HQ; [apply lookup_insert_eq| |by split; rewrite ?app_nil_r].
  intros p Hp Hname. rewrite lookup_insert_ne by done.
  assert (p ≠ tempSiblingPath suffix path) as Hne.
  { intros ->. destruct Hname as [Hname|Hname]; [by apply temporary_improper in Hname|].
    apply temporary_not_store in Hname; [done|]. subst suffix. rewrite (bn_random _ Hbenign). lia. }
  by rewrite lookup_delete_ne, lookup_insert_ne by done.
Qed.

(** The staged artifact is placed into the live area. *)
Lemma wp_place_ok r content (Q : World → Result unit → Prop) world :
  w_fs world !! staging_path opts (tx_deployment r) = Some content →
  (let path := payloadPath (key_directory opts (tx_key r)) (tx_generation r) (tx_digest r) in
   ∀ fs w', fs !! path = Some content →
     (∀ p, p ≠ path → proper p ∨ store_name p → fs !! p = w_fs world !! p) →
     moved world fs (w_store world) [] w' → Q w' (Ok tt)) →
  wp (m_place opts env r) Q world.
Proof.
  intros Hc HQ. unfold m_place. do 4 wp_step. rewrite (bn_copy _ Hbenign).
  set (suffix := env_random env _). set (path := payloadPath _ _ _) in *.
  unfold wp, m_io, copyFileAtomic. simpl. rewrite Hc. simpl. unfold file_rename.
  rewrite lookup_insert_eq. simpl. eapply HQ; [apply lookup_insert_eq| |by split; rewrite ?app_nil_r].
  intros p Hp Hname. rewrite lookup_insert_ne by done.
  assert (p ≠ tempSiblingPath suffix path) as Hne.
  { intros ->. destruct Hname as [Hname|Hname]; [by apply temporary_improper in Hname|].
    apply temporary_not_store in Hname; [done|]. subst suffix. rewrite (bn_random _ Hbenign). lia. }
  by rewrite lookup_delete_ne, lookup_insert_ne by done.
Qed.

(** The bytes received so far are in the staging file. *)
Record holds (fs : FileSystem) (r : TransferRecord) (content : list byte) : Prop := {
  ho_length : zlen content = tx_bytesReceived r;
  ho_file : content ≠ [] → fs !! staging_path opts (tx_deployment r) = Some content;
}.

Lemma write_at_end data content : write_at (length content) data content = content ++ data.
Proof.
  unfold write_at. rewrite take_ge, Nat.sub_diag by lia. simpl. by rewrite drop_ge, app_nil_r by lia.
Qed.

Lemma wp_writeChunk_ok r chunk content (Q : World → Result (option ChunkFailure) → Prop) world :
  armed (o_faults opts) kCorruptChunk = false →
  holds (w_fs world) r content → ck_offset chunk = tx_bytesReceived r →
  (∀ w', moved world (<[staging_path opts (tx_deployment r) := content ++ ck_data chunk]> (w_fs world))
           (w_store world) [] w' → w_chunkCounter w' = w_chunkCounter world → Q w' (Ok None)) →
  wp (m_writeChunk opts env r chunk) Q world.
Proof.
  intros Hfaults [Hlen Hfile] Hoff HQ. unfold m_writeChunk. rewrite Hfaults. do 2 wp_step.
  rewrite (bn_chunk _ Hbenign). unfold wp, writeChunk. simpl.
  assert ((if tx_bytesReceived r =? 0 then Some [] else w_fs world !! staging_path opts (tx_deployment r))
          = Some content) as ->.
  { destruct (Z.eqb_spec (tx_bytesReceived r) 0) as [E|E].
    - rewrite E in Hlen. by rewrite (zlen_0_nil _ Hlen).
    - apply Hfile. intros ->. by rewrite zlen_nil in Hlen. }
  cbn [fst snd]. rewrite Nat.eqb_refl. cbn [negb orb].
  assert (Z.to_nat (ck_offset chunk) = length content) as ->.
  { rewrite Hoff, <- Hlen. unfold zlen. lia. }
  rewrite write_at_end.
  assert ((if decide (ck_data chunk = []) then content else content ++ ck_data chunk)
          = content ++ ck_data chunk) as ->.
  { case_decide as E; [|done]. by rewrite E, app_nil_r. }
  apply HQ; [|done]. by split; rewrite ?app_nil_r.
Qed.

Lemma wp_hash_ok path content n (Q : World → Result Digest → Prop) world :
  w_fs world !! path = Some content → zlen content = n → fits 64 n →
  (∀ w', moved world (w_fs world) (w_store world) [] w' → Q w' (Ok (Digest_ofContent content))) →
  wp (m_hash env path n) Q world.
Proof.
  intros Hc Hlen [H0 H1] HQ. unfold m_hash. do 2 wp_step. rewrite (bn_reads _ Hbenign).
  unfold wp, m_io, hashStagingFile. simpl. rewrite Hc, Hlen. unfold checkedAdd.
  destruct (Z.gtb_spec 0 (2 ^ 64 - 1 - n)); [lia|]. rewrite Z.add_0_l, Z.mod_small by lia.
  rewrite Z.eqb_refl. cbn [negb]. rewrite andb_false_r. apply HQ. by split; rewrite ?app_nil_r.
Qed.

Lemma wp_remove_ok path (Q : World → Result unit → Prop) world :
  (∀ w', moved world (delete path (w_fs world)) (w_store world) [] w' → Q w' (Ok tt)) →
  wp (m_remove env path) Q world.
Proof.
  intros HQ. unfold m_remove. do 2 wp_step. rewrite (bn_remove _ Hbenign). wp_step. apply HQ.
  by split; rewrite ?app_nil_r.
Qed.

(** A directory with no more payloads than are retained is not pruned. *)
Lemma wp_prune_ok key (Q : World → Result unit → Prop) world :
  (∀ n, length (env_listing env n) <= o_retainedPayloadsPerKey opts)%nat →
  (∀ w', moved world (w_fs world) (w_store world) [] w' → Q w' (Ok tt)) →
  wp (m_prunePayloads opts env key) Q world.
Proof.
  intros Hl HQ. unfold m_prunePayloads. do 3 wp_step. unfold prunePayloads.
  rewrite (proj2 (Nat.leb_le _ _)).
  - apply HQ. by split; rewrite ?app_nil_r.
  - etransitivity; [|apply (Hl (w_calls world))]. apply length_filter.
Qed.

Lemma wp_now_ok (Q : World → Result Z → Prop) world :
  (∀ now w', fits_i64 now → moved world (w_fs world) (w_store world) [] w' →
     w_chunkCounter w' = w_chunkCounter world → Q w' (Ok now)) →
  wp (m_now env) Q world.
Proof.
  intros HQ. unfold m_now. wp_step. apply HQ; [apply (bn_now _ Hbenign)|by split; rewrite ?app_nil_r|done].
Qed.
End progress.
