(* ===== verification/AgentDelivery.v ===== *)
(** * A delivery completes

    On a target whose operating system and connection do not fail, the
    messages of a delivery lead to its activation, whatever the sizes of the
    chunks: each handler does its part and answers, the live pointer and the
    payload are in place, and the committed generation survives a restart. *)

From stdpp Require Import gmap.
From Stdlib Require Import Strings.Byte.
From S2P Require Import Prelude Result StdMap Checked Hash Ids Text Codec Lifecycle Files Journal.
From S2P Require Import Snapshot Artifact FaultPlan AgentFiles AgentPaths Frame Records Messages.
From S2P Require Import Protocol State Store Recovery Agent AgentStart AgentEffects AgentLogic.
From S2P Require Import AgentInv AgentWp AgentProgress AgentExample AgentHandlers AgentCommit.
From S2P Require Import AgentSpec AgentReport.

(** ** Frames *)

Lemma frame_decoded frame pm :
  decode_frame frame = Ok pm → ftype (header frame) = message_type pm ∧ protocol_ok pm
  ∧ encodeMessage pm = Ok (fpayload frame).
Proof.
  intros Hd. unfold decode_frame in Hd. destruct (message_codec (ftype (header frame))) as [_ Hs].
  destruct (Hs _ _ Hd) as [[Hok Ht] He]. done.
Qed.

(** The payload of a frame of a known type, decoded. *)
Lemma frame_decodes {M} (enc : M → Result (list byte)) dec ok (inj : M → ProtocolMessage)
    `{!Codec enc dec ok} frame (m : M) :
  (∀ x, encodeMessage (inj x) = enc x) → (∀ x, protocol_ok (inj x) → ok x) →
  decode_frame frame = Ok (inj m) →
  ftype (header frame) = message_type (inj m) ∧ dec (fpayload frame) = Ok m ∧ ok m.
Proof.
  intros Henc Hprot Hd. destruct (frame_decoded _ _ Hd) as (Ht & Hok & He).
  split; [done|]. apply Hprot in Hok. split; [|done].
  destruct (codec_complete (encode := enc) m Hok) as (bs & He' & Hd').
  rewrite Henc, He' in He. by injection He as <-.
Qed.

(** The size of a record whose counts are plain 64-bit fields. *)
Ltac record_size w :=
  intros [] [];
  repeat match goal with H : fits 64 (value ?x) |- _ => change (num64 x) in H end;
  unfold w; simpl in *; eapply sized_le;
  [repeat (eapply sized_app; [sized_field|]); sized_field|vm_compute; discriminate].
#[global] Instance transfer_size : WireSize writeTransferRecord transfer_wf 1024.
Proof. record_size writeTransferRecord. Qed.
#[global] Instance finding_size : WireSize writeAppliedFinding finding_wf 1024.
Proof. record_size writeAppliedFinding. Qed.

(** ** A transfer on its way *)

Section delivery.
Context (opts : AgentOptions) (env : Env).
Context (Hbenign : benign env) (Hfaults : o_faults opts = []).

Lemma no_fault point : armed (o_faults opts) point = false.
Proof. by rewrite Hfaults. Qed.
Lemma wp_fault point (Q : World → Result unit → Prop) w : Q w (Ok tt) → wp (m_fault opts point) Q w.
Proof. unfold m_fault. by rewrite no_fault. Qed.

(** The record of the transfer a prepare message opens. *)
Record transfer_for (m : PrepareMessage) (received : Z) (verified staged : bool)
    (r : TransferRecord) : Prop := {
  tf_deployment : tx_deployment r = pr_deployment m;
  tf_stream : tx_stream r = pr_stream m;
  tf_key : tx_key r = pr_key m;
  tf_artifact : tx_artifact r = pr_artifact m;
  tf_generation : tx_generation r = pr_generation m;
  tf_digest : tx_digest r = pr_digest m;
  tf_total : tx_totalBytes r = pr_sizeBytes m;
  tf_received : tx_bytesReceived r = received;
  tf_verified : tx_verified r = verified;
  tf_staged : tx_staged r = staged;
}.

(** What the delivery does not change before its commit. *)
Record unmoved (s0 s : AgentState) : Prop := {
  um_identity : as_identity s = as_identity s0;
  um_commit : as_commit s = as_commit s0;
  um_window : as_window s = as_window s0;
  um_findings : as_findings s = as_findings s0;
}.

(** The target holds [content] of the delivery [m] in the record [r]. *)
Record holding (n : Z) (s0 : AgentState) (m : PrepareMessage) (content : list byte)
    (verified staged : bool) (r : TransferRecord) (w : World) : Prop := {
  hd_inv : inv opts (w_fs w) (w_store w);
  hd_durable : durable opts n (w_fs w) (w_store w);
  hd_unmoved : unmoved s0 (w_state w);
  hd_record : transfer_for m (zlen content) verified staged r;
  hd_found : map_find (pr_deployment m) (as_transfers (w_state w)) = Some r;
  hd_stream : ∀ d' r', map_find d' (as_transfers (w_state w)) = Some r' →
                tx_stream r' = pr_stream m → d' = pr_deployment m;
  hd_holds : holds opts (w_fs w) r content;
}.

Lemma unmoved_refl s : unmoved s s.
Proof. done. Qed.
Lemma unmoved_assign s0 s r : unmoved s0 s → unmoved s0 (assign_transfer r s).
Proof. by intros []. Qed.

(** A transfer is checkpointed. *)
Lemma wp_checkpoint n r world (Q : World → Result unit → Prop) :
  transfer_wf r → 0 <= n → durable opts (n + 1) (w_fs world) (w_store world) →
  (∀ w' fs st, moved world fs st [] w' → state_ st = assign_transfer r (w_state world) →
     durable opts n fs st → (∀ p, ending p ≠ "rnal" → fs !! p = w_fs world !! p) →
     w_chunkCounter w' = w_chunkCounter world → Q w' (Ok tt)) →
  wp (checkpointTransfer env r) Q world.
Proof.
  intros Hr Hn Hd HQ. unfold checkpointTransfer.
  eapply (wp_commit_ok opts env Hbenign n); [by apply applies_transfer| |done|done|done|done|].
  - eapply sized_le; [by apply (wire_size (w := writeTransferRecord))|vm_compute; discriminate].
  - intros fs st Hst Hd' _ Hfs. apply (HQ _ fs st); try done. by split; rewrite ?app_nil_r.
Qed.

(** A handler that succeeds, seen from the session. *)
Lemma wp_dispatch session frame (h : M unit) (P : World → Prop) w :
  dispatch opts env session frame = (do@ h in m_ret true) → inv opts (w_fs w) (w_store w) →
  wp h (λ w' r, r = Ok tt ∧ (inv opts (w_fs w') (w_store w') → P w')) w →
  wp (dispatch opts env session frame) (λ w' r, r = Ok true ∧ P w') w.
Proof.
  intros Ed Hinv Hh.
  destruct (dispatch_effect opts env (bn_now _ Hbenign) session frame w Hinv) as [Hinv' _].
  rewrite Ed in *. unfold wp, m_bind in *. destruct (h w) as [w' r]. simpl in *.
  destruct Hh as [-> HP]. simpl in *. auto.
Qed.

(** ** Prepare *)

(** What the target requires of an offer. *)
Record acceptable (m : PrepareMessage) (s : AgentState) : Prop := {
  ap_size : pr_sizeBytes m <= o_maxArtifactBytes opts;
  ap_newer : value (committedGeneration (as_commit s)) < value (pr_generation m);
  ap_guarantee : guaranteeSatisfies (guarantee (as_identity s)) (pr_requirement m) = true;
  ap_window : applyPrepared (as_window s) = false;
  ap_fresh : ∀ f, findFinding (pr_key m) (pr_digest m) s = Some f →
               isActivationState (fd_state f) = true → fd_generation f ≠ pr_generation m;
  ap_none : map_find (pr_deployment m) (as_transfers s) = None;
  ap_stream : ∀ d r, map_find d (as_transfers s) = Some r → tx_stream r ≠ pr_stream m;
}.

Lemma newer_not_stale s (g : Generation) :
  value (committedGeneration (as_commit s)) < value g →
  is_stale s g = false ∧ same_generation s g = false.
Proof.
  intros Hlt. unfold is_stale, same_generation, num_lt.
  rewrite (proj2 (Z.ltb_ge _ _)), andb_false_r by lia. split; [done|].
  apply andb_false_iff. right. apply bool_decide_eq_false. intros ->. lia.
Qed.

Definition new_record (m : PrepareMessage) (now : Z) : TransferRecord :=
  mkTransferRecord (pr_deployment m) (pr_stream m) (pr_key m) (pr_artifact m) (pr_generation m)
    (pr_digest m) (pr_sizeBytes m) 0 false false now.

Lemma wp_resumePoint_none m (Q : World → Result Z → Prop) w :
  map_find (pr_deployment m) (as_transfers (w_state w)) = None → Q w (Ok 0) →
  wp (resumePoint opts env m) Q w.
Proof. intros Hn HQ. unfold resumePoint. do 2 wp_step. by rewrite Hn. Qed.

(** The part of [onPrepare] after its guards. *)
Lemma wp_begin n m w (Q : World → Result unit → Prop) :
  prepare_wf m → state_ok (w_state w) → 0 <= n →
  map_find (pr_deployment m) (as_transfers (w_state w)) = None →
  durable opts (n + 1) (w_fs w) (w_store w) →
  (∀ w' fs st now ack, moved w fs st [ack] w' →
     state_ st = assign_transfer (new_record m now) (w_state w) → fits_i64 now →
     durable opts n fs st → (∀ p, ending p ≠ "rnal" → fs !! p = w_fs w !! p) → Q w' (Ok tt)) →
  wp (let@ resumeFrom := resumePoint opts env m in
      do@ beginTransfer env m resumeFrom in
      do@ m_reply env FrameType.PrepareAck kFrameFlagResponse
            (encodePrepareAck (prepareAck (w_state w) m resumeFrom)) in
      m_fault opts kAfterOffer) Q w.
Proof.
  intros [] Hok Hn Hnone Hd HQ. wp_step. apply wp_resumePoint_none; [done|]. wp_step.
  unfold beginTransfer. wp_step. apply (wp_now_ok env Hbenign). intros now w1 Hnow Hm1 _.
  destruct Hm1 as [Hfs1 Hst1 Hsent1 Hin1].
  apply (wp_checkpoint n); [|done|by rewrite Hfs1, Hst1|].
  { split; simpl; try done; [by right|apply prw_generation|].
    apply negb_true_iff. rewrite Z.gtb_ltb. apply Z.ltb_ge, prw_sizeBytes. }
  intros w2 fs st Hm2 Hst Hd2 Hfs2 _. wp_step.
  destruct Hm2 as [Hf2 Hs2 Hsent2 Hin2].
  apply (wp_reply_ok env Hbenign (MPrepareAck (prepareAck (w_state w) m 0)));
    [done|done| |done|by right|].
  { destruct (so_wf _ Hok). split; simpl; try done; lia. }
  intros bs w3 _ _ [Hf3 Hs3 Hsent3 Hin3]. apply wp_fault.
  apply (HQ w3 fs st now (mkMessage FrameType.PrepareAck kFrameFlagResponse bs)).
  - split; [congruence|congruence| |congruence]. rewrite Hsent3, Hsent2, Hsent1, !app_nil_r. done.
  - unfold w_state in Hst |- *. by rewrite Hst, Hst1.
  - done.
  - done.
  - intros p Hp. by rewrite Hfs2, Hfs1.
Qed.

Lemma wp_onPrepare n bytes m w (Q : World → Result unit → Prop) :
  decodePrepare bytes = Ok m → state_ok (w_state w) → acceptable m (w_state w) → 0 <= n →
  durable opts (n + 1) (w_fs w) (w_store w) →
  (∀ w' fs st now ack, moved w fs st [ack] w' →
     state_ st = assign_transfer (new_record m now) (w_state w) → fits_i64 now →
     durable opts n fs st → (∀ p, ending p ≠ "rnal" → fs !! p = w_fs w !! p) → Q w' (Ok tt)) →
  wp (onPrepare opts env bytes) Q w.
Proof.
  intros Hm Hok [Hsize Hnewer Hguar Hwin Hfresh Hnone _] Hn Hd HQ.
  pose proof (decoded_ok Hm) as [Hwf _]. destruct (newer_not_stale _ _ Hnewer) as [Hstale Hsame].
  unfold onPrepare. do 2 wp_step. rewrite Hm. do 2 wp_step.
  destruct (Z.gtb_spec (pr_sizeBytes m) (o_maxArtifactBytes opts)); [lia|].
  rewrite Hstale, Hsame, Hguar, Hwin. cbn [andb negb].
  destruct (findFinding (pr_key m) (pr_digest m) (w_state w)) as [f|] eqn:Ef.
  - assert (isActivationState (fd_state f) && bool_decide (fd_generation f = pr_generation m) = false)
      as ->.
    { destruct (isActivationState (fd_state f)) eqn:Ea; [|done]. simpl.
      apply bool_decide_eq_false. by eapply Hfresh. }
    by apply (wp_begin n).
  - by apply (wp_begin n).
Qed.

Lemma dispatch_prepare n session frame m w :
  decode_frame frame = Ok (MPrepare m) → inv opts (w_fs w) (w_store w) →
  acceptable m (w_state w) → 0 <= n → durable opts (n + 1) (w_fs w) (w_store w) →
  wp (dispatch opts env session frame)
    (λ w' r, r = Ok true ∧ w_inbox w' = w_inbox w ∧ ∃ record, holding n (w_state w) m [] false false record w') w.
Proof.
  intros Hframe Hinv Hacc Hn Hd.
  destruct (frame_decodes encodePrepare decodePrepare _ MPrepare frame m) as (Ht & Hm & _); [done..|].
  apply (wp_dispatch session frame (onPrepare opts env (fpayload frame))); [|done|].
  { unfold dispatch. by rewrite Ht. }
  apply (wp_onPrepare n _ m); [done|apply Hinv|done..|].
  intros w' fs st now ack [Hfs Hst Hsent Hin] Hstate Hnow Hdur Hfiles. split; [done|].
  intros Hinv'. split; [done|]. exists (new_record m now).
  assert (w_state w' = assign_transfer (new_record m now) (w_state w)) as Es
    by (unfold w_state; by rewrite Hst).
  split; [done|by rewrite Hfs, Hst|by rewrite Es| | | |].
  - done.
  - rewrite Es. apply map_find_assign_eq.
  - intros d r. rewrite Es. simpl. intros Hd' Hr. destruct (decide (d = pr_deployment m)) as [|Hne]; [done|].
    rewrite map_find_assign_ne in Hd' by done. by destruct (ap_stream _ _ Hacc d r Hd').
  - by split.
Qed.

(** ** Chunks *)

Lemma staging_not_store d : ¬ store_name (staging_path opts d).
Proof. unfold store_name, staging_path. rewrite ending_staging. by intros [|[|]]. Qed.

Lemma durable_other_file n p c fs st :
  ¬ store_name p → durable opts n fs st → durable opts n (<[p := c]> fs) st.
Proof. intros Hp. apply durable_files. intros q Hq. apply lookup_insert_ne. by intros ->. Qed.

Lemma countFor_none point : countFor (o_faults opts) point = 0.
Proof. by rewrite Hfaults. Qed.

Definition advanced (n now : Z) (r : TransferRecord) : TransferRecord :=
  set_updatedAt now (set_bytesReceived n r).

Lemma advanced_wf n now r :
  transfer_wf r → 0 <= n <= tx_totalBytes r → fits_i64 now → transfer_wf (advanced n now r).
Proof.
  intros [] Hn Hnow. split; simpl; try done.
  - unfold fits in *. lia.
  - apply negb_true_iff. rewrite Z.gtb_ltb. apply Z.ltb_ge. lia.
Qed.

(** The received bytes are recorded, durably or in memory. *)
Lemma wp_record_bytes n (checkpoint : bool) r w (Q : World → Result unit → Prop) :
  transfer_wf r → 0 <= n → durable opts (n + 1) (w_fs w) (w_store w) →
  (∀ w' fs st, moved w fs st [] w' → state_ st = assign_transfer r (w_state w) →
     durable opts n fs st → (∀ p, ending p ≠ "rnal" → fs !! p = w_fs w !! p) → Q w' (Ok tt)) →
  wp (if checkpoint then checkpointTransfer env r
      else modify_state (upd_transfers (map_assign (tx_deployment r) r))) Q w.
Proof.
  intros Hr Hn Hd HQ. destruct checkpoint.
  - apply (wp_checkpoint n); [done..|]. intros w' fs st Hm Hst Hd' Hfs _. by apply (HQ w' fs st).
  - apply wp_modify. eapply HQ; [by split; rewrite ?app_nil_r| |..]; [done| |done].
    apply durable_state; [done|]. eapply durable_weaken; [|exact Hd]. lia.
Qed.

Lemma wp_onChunk n bytes chunk r content w (Q : World → Result unit → Prop) :
  decodeChunk bytes = Ok chunk → transferOfStream (ck_stream chunk) (w_state w) = Some r →
  transfer_wf r → holds opts (w_fs w) r content → ck_offset chunk = zlen content →
  zlen (content ++ ck_data chunk) <= tx_totalBytes r → 0 <= n →
  durable opts (n + 1) (w_fs w) (w_store w) →
  (∀ w' fs st now ack, moved w fs st [ack] w' →
     state_ st = assign_transfer (advanced (zlen (content ++ ck_data chunk)) now r) (w_state w) →
     fits_i64 now → durable opts n fs st →
     fs !! staging_path opts (tx_deployment r) = Some (content ++ ck_data chunk) →
     Q w' (Ok tt)) →
  wp (onChunk opts env bytes) Q w.
Proof.
  intros Hm Hstream Hr Hholds Hoff Htotal Hn Hd HQ.
  pose proof (decoded_ok Hm) as [[] _]. pose proof (ho_length _ _ _ _ Hholds) as Hlen.
  assert (zlen (content ++ ck_data chunk) = ck_offset chunk + zlen (ck_data chunk)) as Esize
    by (rewrite zlen_app; lia).
  pose proof (zlen_nonneg (ck_data chunk)) as Hdata.
  assert (fits 64 (tx_totalBytes r)) as [_ Hbound] by apply Hr.
  unfold onChunk. do 2 wp_step. rewrite Hm. do 2 wp_step. rewrite Hstream.
  assert (ck_offset chunk = tx_bytesReceived r) as Eoff by lia.
  rewrite (proj2 (Z.eqb_eq _ _) Eoff). cbn [negb].
  assert (chunkEnd r chunk = Some (zlen (content ++ ck_data chunk))) as ->.
  { unfold chunkEnd, checkedAdd. destruct ckw_offset as [H0 _].
    destruct (Z.gtb_spec (ck_offset chunk) (2 ^ 64 - 1 - zlen (ck_data chunk))); [lia|].
    rewrite Z.mod_small, <- Esize by lia.
    by destruct (Z.gtb_spec (zlen (content ++ ck_data chunk)) (tx_totalBytes r)); [lia|]. }
  wp_step. apply (wp_writeChunk_ok opts env Hbenign r chunk content); [apply no_fault|done..|].
  intros w1 [Hfs1 Hst1 Hsent1 Hin1] _. wp_step. apply (wp_now_ok env Hbenign).
  intros now w2 Hnow [Hfs2 Hst2 Hsent2 Hin2] _. do 4 wp_step.
  rewrite countFor_none. cbn [negb Z.eqb andb]. wp_step.
  apply (wp_record_bytes n _ (advanced (zlen (content ++ ck_data chunk)) now r)).
  - apply advanced_wf; [done| |done]. split; [apply zlen_nonneg|done].
  - done.
  - change (durable opts (n + 1) (w_fs w2) (w_store w2)). rewrite Hfs2, Hfs1, Hst2, Hst1.
    apply durable_other_file; [apply staging_not_store|done].
  - intros w3 fs st [Hfs3 Hst3 Hsent3 Hin3] Hstate Hd3 Hfiles.
    cbn [w_fs w_sent w_inbox set_chunkCounter] in *. wp_step. unfold m_when. wp_step.
    unfold chunkAck. eapply (wp_reply_ok env Hbenign (MChunkAck (mkChunkAckMessage (ck_stream chunk) (ck_sequence chunk)
                                        ErrorCode.Ok (zlen (content ++ ck_data chunk)) ""))).
    1-2: done.
    + split; try done. simpl. unfold fits. pose proof (zlen_nonneg (content ++ ck_data chunk)). lia.
    + done.
    + by right.
    + intros bs w4 _ _ [Hfs4 Hst4 Hsent4 Hin4].
      eapply (HQ w4 fs st now); [split; [congruence|congruence|rewrite Hsent4, Hsent3, Hsent2, Hsent1, !app_nil_r; done|congruence]|..].
      * rewrite Hstate. unfold w_state. simpl. by rewrite Hst2, Hst1.
      * done.
      * done.
      * rewrite Hfiles, Hfs2, Hfs1; [apply lookup_insert_eq|]. unfold staging_path. by rewrite ending_staging.
Qed.

Lemma transferOfStream_unique s d r :
  state_ok s → map_find d (as_transfers s) = Some r → id_isSet d = true →
  (∀ d' r', map_find d' (as_transfers s) = Some r' → tx_stream r' = tx_stream r → d' = d) →
  transferOfStream (tx_stream r) s = Some r.
Proof.
  intros [[] _ _ _] Hr Hset Hunique. destruct awf_transfers as [Hsorted _].
  unfold transferOfStream.
  destruct (list_find _ (as_transfers s)) as [[i [d' r']]|] eqn:E.
  - apply list_find_Some in E as (Hi & Hs & _). simpl in Hs.
    apply list_elem_of_lookup_2, map_find_elem in Hi; [|done].
    rewrite (Hunique d' r' Hi Hs) in Hi |- *. rewrite Hr in Hi. injection Hi as <-. by rewrite Hset.
  - exfalso. apply map_find_elem in Hr; [|done].
    apply list_find_None in E. rewrite List.Forall_forall in E.
    apply list_elem_of_In, E in Hr. by apply Hr.
Qed.

Lemma holding_wf n s0 m c v s r w :
  holding n s0 m c v s r w → transfer_wf r ∧ transfer_ok r ∧ tx_deployment r = pr_deployment m.
Proof.
  intros []. destruct (transfer_found _ _ _ (inv_state _ _ _ hd_inv0) hd_found0) as (E & ? & ?). done.
Qed.

(** The record of the delivery is replaced. *)
Lemma holding_step n n' s0 m c v s r w c' v' s' r' w' fs st :
  holding n s0 m c v s r w → inv opts (w_fs w') (w_store w') → w_fs w' = fs → w_store w' = st →
  state_ st = assign_transfer r' (w_state w) → transfer_for m (zlen c') v' s' r' →
  durable opts n' fs st → holds opts fs r' c' → holding n' s0 m c' v' s' r' w'.
Proof.
  intros [Hi Hd Hu Hr Hfound Hstream Hh] Hinv' Hfs Hst Hstate Hr' Hd' Hh'.
  assert (w_state w' = assign_transfer r' (w_state w)) as Es by (unfold w_state at 1; by rewrite Hst).
  subst fs st. split; try done; rewrite Es.
  - by apply unmoved_assign.
  - simpl. rewrite (tf_deployment _ _ _ _ _ Hr'). apply map_find_assign_eq.
  - intros d x. simpl. rewrite (tf_deployment _ _ _ _ _ Hr').
    destruct (decide (d = pr_deployment m)) as [|Hne]; [done|].
    rewrite map_find_assign_ne by done. apply Hstream.
Qed.

(** A chunk of the delivery. *)
Record chunk_of (m : PrepareMessage) (offset : Z) (c : ChunkMessage) : Prop := {
  co_stream : ck_stream c = pr_stream m;
  co_offset : ck_offset c = offset;
  co_bounded : offset + zlen (ck_data c) <= pr_sizeBytes m;
}.

Lemma dispatch_chunk n session frame c s0 m content r w :
  decode_frame frame = Ok (MChunk c) → chunk_of m (zlen content) c → 0 <= n →
  holding (n + 1) s0 m content false false r w →
  wp (dispatch opts env session frame)
    (λ w' res, res = Ok true ∧ w_inbox w' = w_inbox w
       ∧ ∃ record, holding n s0 m (content ++ ck_data c) false false record w') w.
Proof.
  intros Hframe [Hs Ho Hb] Hn Hhold. destruct (holding_wf _ _ _ _ _ _ _ _ Hhold) as (Hwf & Hok & Edep).
  pose proof Hhold as [Hi Hd Hu Hr Hfound Hstream Hh].
  destruct (frame_decodes encodeChunk decodeChunk _ MChunk frame c) as (Ht & Hm & _); [done..|].
  apply (wp_dispatch session frame (onChunk opts env (fpayload frame))); [|done|].
  { unfold dispatch. by rewrite Ht. }
  apply (wp_onChunk n _ c r content); try done.
  - rewrite Hs, <- (tf_stream _ _ _ _ _ Hr).
    apply (transferOfStream_unique _ (pr_deployment m)); [apply Hi|done| |].
    + apply id_valid_isSet. rewrite <- Edep. apply Hwf.
    + intros d' r' Hd' E. apply (Hstream d' r' Hd'). by rewrite E, (tf_stream _ _ _ _ _ Hr).
  - rewrite zlen_app, (tf_total _ _ _ _ _ Hr). lia.
  - intros w' fs st now ack [Hfs Hst Hsent Hin] Hstate Hnow Hdur Hfile. split; [done|].
    intros Hinv'. split; [done|].
    exists (advanced (zlen (content ++ ck_data c)) now r).
    eapply holding_step; [exact Hhold|done..| | |].
    + by destruct Hr.
    + done.
    + by split.
Qed.

(** ** Completion and staging *)

Lemma empty_detail : text_fits kMaxMessageDetailBytes "".
Proof. vm_compute. split; congruence. Qed.
#[local] Hint Resolve empty_detail : core.

(** Everything was received, and it is the declared content. *)
Record complete (m : PrepareMessage) (content : list byte) : Prop := {
  cp_size : zlen content = pr_sizeBytes m;
  cp_digest : Digest_ofContent content = pr_digest m;
  cp_some : content ≠ [];
}.

Lemma dispatch_complete n session frame c s0 m content r w :
  decode_frame frame = Ok (MTransferComplete c) → complete m content →
  xc_deployment c = pr_deployment m → xc_digest c = pr_digest m → xc_sizeBytes c = pr_sizeBytes m →
  0 <= n → holding (n + 1) s0 m content false false r w →
  wp (dispatch opts env session frame)
    (λ w' res, res = Ok true ∧ w_inbox w' = w_inbox w
       ∧ ∃ record, holding n s0 m content true false record w') w.
Proof.
  intros Hframe [Hsize Hdigest Hsome] Ed Ex Es Hn Hhold.
  destruct (holding_wf _ _ _ _ _ _ _ _ Hhold) as (Hwf & Hok & Edep).
  pose proof Hhold as [Hi Hd Hu Hr Hfound Hstream Hh].
  destruct (frame_decodes encodeTransferComplete decodeTransferComplete _ MTransferComplete frame c)
    as (Ht & Hm & Hc); [done..|].
  apply (wp_dispatch session frame (onTransferComplete opts env (fpayload frame))); [|done|].
  { unfold dispatch. by rewrite Ht. }
  destruct Hr as [_ _ _ _ _ Edig Etot Erec _ _].
  unfold onTransferComplete. do 2 wp_step. rewrite Hm. do 2 wp_step. rewrite Ed, Hfound.
  rewrite Erec, Etot, Hsize, Z.eqb_refl, Ex, Es, Edig, bool_decide_true, Z.eqb_refl by done.
  cbn [negb orb]. do 2 wp_step.
  apply (wp_hash_ok env Hbenign _ content); [|done|rewrite <- Etot; apply Hwf|].
  { rewrite <- Edep. by apply (ho_file _ _ _ _ Hh). }
  intros w1 [Hfs1 Hst1 Hsent1 Hin1]. unfold hash_matches. rewrite bool_decide_true by done.
  wp_step. apply (wp_now_ok env Hbenign). intros now w2 Hnow [Hfs2 Hst2 Hsent2 Hin2] _.
  wp_step. apply (wp_checkpoint n).
  { destruct Hwf. by split. }
  { done. }
  { by rewrite Hfs2, Hfs1, Hst2, Hst1. }
  intros w3 fs st [Hfs3 Hst3 Hsent3 Hin3] Hstate Hd3 Hfiles _. wp_step. unfold transferResult.
  eapply (wp_reply_ok env Hbenign
           (MTransferResult (mkTransferResultMessage _ _ _ _ ErrorCode.Ok ""))); [done|done| |done|by right|].
  { destruct Hc. split; simpl; try done. rewrite <- Etot. apply Hwf. }
  intros bs w4 _ _ [Hfs4 Hst4 Hsent4 Hin4]. apply wp_fault. split; [done|]. intros Hinv'.
  split; [congruence|]. exists (set_updatedAt now (set_verified r)).
  apply (holding_step (n + 1) n s0 m content false false r w _ _ _ _ _ fs st); [done..|congruence|congruence| | | |].
  - rewrite Hstate. unfold w_state. by rewrite Hst2, Hst1.
  - by destruct (hd_record _ _ _ _ _ _ _ _ Hhold).
  - done.
  - destruct Hh as [Hlen Hfile]. split; [done|]. intros Hne. simpl.
    rewrite Hfiles, Hfs2, Hfs1; [by apply Hfile|]. unfold staging_path. by rewrite ending_staging.
Qed.

(** Where the payload of the delivery goes. *)
Definition delivered_path (m : PrepareMessage) : string :=
  payloadPath (key_directory opts (pr_key m)) (pr_generation m) (pr_digest m).

Lemma store_name_ending p q : store_name p → ¬ store_name q → p ≠ q.
Proof. by intros Hp Hq ->. Qed.
Lemma payload_not_store d g x : ¬ store_name (payloadPath d g x).
Proof. unfold store_name. rewrite ending_payload. by intros [|[|]]. Qed.
Lemma current_not_store d : ¬ store_name (currentPath d).
Proof. unfold store_name. rewrite ending_current. by intros [|[|]]. Qed.
Lemma pending_not_store d : ¬ store_name (pendingPath d).
Proof. unfold store_name. rewrite ending_pending. by intros [|[|]]. Qed.

Lemma holds_files fs fs' r content :
  fs' !! staging_path opts (tx_deployment r) = fs !! staging_path opts (tx_deployment r) →
  holds opts fs r content → holds opts fs' r content.
Proof. intros E [Hl Hf]. split; [done|]. intros Hne. rewrite E. auto. Qed.

Lemma dispatch_stage n session frame g s0 m content r w :
  decode_frame frame = Ok (MStage g) → complete m content →
  sg_deployment g = pr_deployment m → sg_digest g = pr_digest m →
  sg_generation g = pr_generation m →
  value (committedGeneration (as_commit s0)) < value (pr_generation m) →
  0 <= n → holding (n + 1) s0 m content true false r w →
  wp (dispatch opts env session frame)
    (λ w' res, res = Ok true ∧ w_inbox w' = w_inbox w
       ∧ w_fs w' !! delivered_path m = Some content
       ∧ ∃ record, holding n s0 m content true true record w') w.
Proof.
  intros Hframe [Hsize Hdigest Hsome] Ed Ex Eg Hnewer Hn Hhold.
  destruct (holding_wf _ _ _ _ _ _ _ _ Hhold) as (Hwf & Hok & Edep).
  pose proof Hhold as [Hi Hd Hu Hr Hfound Hstream Hh].
  destruct (frame_decodes encodeStage decodeStage _ MStage frame g) as (Ht & Hm & Hg); [done..|].
  apply (wp_dispatch session frame (onStage opts env (fpayload frame))); [|done|].
  { unfold dispatch. by rewrite Ht. }
  pose proof Hr as [_ _ Ekey _ Egen Edig _ _ Ever _].
  unfold onStage. do 2 wp_step. rewrite Hm. do 2 wp_step. rewrite Ed, Hfound, Ever, Ex, Eg, Edig, Egen.
  rewrite !bool_decide_true by done. cbn [negb orb].
  destruct (newer_not_stale (w_state w) (pr_generation m)) as [-> _].
  { by rewrite (um_commit _ _ Hu). }
  do 2 wp_step. rewrite (bn_mkdir _ Hbenign). do 2 wp_step.
  apply (wp_place_ok opts env Hbenign r content).
  { simpl. by apply (ho_file _ _ _ _ Hh). }
  cbn zeta. rewrite Ekey, Egen, Edig. fold (delivered_path m).
  intros fs1 w1 Hpayload Hfs1' [Hfs1 Hst1 Hsent1 Hin1]. cbn [w_fs w_store w_sent w_inbox next_call] in *.
  wp_step. apply (wp_now_ok env Hbenign). intros now w2 Hnow [Hfs2 Hst2 Hsent2 Hin2] _.
  wp_step. apply (wp_checkpoint n).
  { destruct Hwf. by split. }
  { done. }
  { rewrite Hfs2, Hfs1, Hst2, Hst1. eapply durable_files; [|exact Hd]. intros p Hp.
    apply Hfs1'; [|by right]. apply store_name_ending; [done|apply payload_not_store]. }
  intros w3 fs st [Hfs3 Hst3 Hsent3 Hin3] Hstate Hd3 Hfiles _. wp_step. unfold stageAck.
  eapply (wp_reply_ok env Hbenign (MStageAck (mkStageAckMessage _ _ ErrorCode.Ok "")));
    [done|done|by destruct Hg|done|by right|].
  intros bs w4 _ _ [Hfs4 Hst4 Hsent4 Hin4]. apply wp_fault. split; [done|]. intros Hinv'.
  split; [congruence|]. split.
  { rewrite Hfs4, Hfs3, Hfiles, Hfs2, Hfs1; [done|]. unfold delivered_path. by rewrite ending_payload. }
  exists (set_updatedAt now (set_staged r)).
  apply (holding_step (n + 1) n s0 m content true false r w _ _ _ _ _ fs st);
    [done..|congruence|congruence| | | |].
  - rewrite Hstate. unfold w_state. by rewrite Hst2, Hst1.
  - by destruct Hr.
  - done.
  - apply (holds_files (w_fs w)); [|by destruct Hh]. simpl.
    rewrite Hfiles, Hfs2, Hfs1.
    + apply Hfs1'; [|left; apply proper_staging]. apply ending_ne. unfold delivered_path, staging_path.
      by rewrite ending_staging, ending_payload.
    + unfold staging_path. by rewrite ending_staging.
Qed.

(** ** The prepare window *)

(** Ready for the commit: staged, and prepared where that is required. *)
Record committable (n : Z) (s0 : AgentState) (m : PrepareMessage) (content : list byte)
    (r : TransferRecord) (w : World) : Prop := {
  cm_inv : inv opts (w_fs w) (w_store w);
  cm_durable : durable opts n (w_fs w) (w_store w);
  cm_identity : as_identity (w_state w) = as_identity s0;
  cm_commit : as_commit (w_state w) = as_commit s0;
  cm_record : transfer_for m (zlen content) true true r;
  cm_found : map_find (pr_deployment m) (as_transfers (w_state w)) = Some r;
  cm_payload : w_fs w !! delivered_path m = Some content;
  cm_prepared : guarantee (as_identity s0) = ApplyGuarantee.PrepareCommitAbort →
                applyPrepared (as_window (w_state w)) = true;
  cm_owner : applyPrepared (as_window (w_state w)) = true →
             preparedDeployment (as_window (w_state w)) = pr_deployment m;
}.

Lemma holding_committable n s0 m content r w :
  holding n s0 m content true true r w → w_fs w !! delivered_path m = Some content →
  guarantee (as_identity s0) ≠ ApplyGuarantee.PrepareCommitAbort →
  applyPrepared (as_window s0) = false → committable n s0 m content r w.
Proof.
  intros [Hi Hd [Eid Ec Ew Ef] Hr Hfound _ _] Hpay Hg Hwin. split; try done.
  by rewrite Ew, Hwin.
Qed.

Lemma sized_prepareRecord r : transfer_wf r → sized (prepareRecord r) kMaxJournalRecordBytes.
Proof.
  intros []. change (num64 (tx_generation r)) in twf_generation. unfold prepareRecord.
  eapply sized_le; [repeat (eapply sized_app; [sized_field|]); sized_field|vm_compute; discriminate].
Qed.

Lemma dispatch_apply_prepare n session frame p s0 m content r w :
  decode_frame frame = Ok (MApplyPrepare p) → ap_deployment p = pr_deployment m →
  ap_digest p = pr_digest m → ap_generation p = pr_generation m →
  value (committedGeneration (as_commit s0)) < value (pr_generation m) →
  guarantee (as_identity s0) = ApplyGuarantee.PrepareCommitAbort →
  applyPrepared (as_window s0) = false →
  0 <= n → holding (n + 1) s0 m content true true r w →
  w_fs w !! delivered_path m = Some content →
  wp (dispatch opts env session frame)
    (λ w' res, res = Ok true ∧ w_inbox w' = w_inbox w ∧ committable n s0 m content r w') w.
Proof.
  intros Hframe Ed Ex Eg Hnewer Hpca Hclosed Hn Hhold Hpay.
  destruct (holding_wf _ _ _ _ _ _ _ _ Hhold) as (Hwf & Hok & Edep).
  pose proof Hhold as [Hi Hd [Eid Ec Ew Ef] Hr Hfound Hstream Hh].
  destruct (frame_decodes encodeApplyPrepare decodeApplyPrepare _ MApplyPrepare frame p)
    as (Ht & Hm & Hp); [done..|].
  apply (wp_dispatch session frame (onApplyPrepare opts env (fpayload frame))); [|done|].
  { unfold dispatch. by rewrite Ht. }
  pose proof Hr as [_ _ Ekey _ Egen Edig _ _ Ever Estaged].
  unfold onApplyPrepare. do 2 wp_step. rewrite Hm. do 2 wp_step.
  rewrite Eid, Hpca. rewrite bool_decide_false by done. rewrite Ed, Hfound, Estaged. cbn [negb].
  rewrite Ex, Eg, Edig, Egen, !bool_decide_true by done. cbn [negb orb].
  destruct (newer_not_stale (w_state w) (pr_generation m)) as [-> _].
  { by rewrite Ec. }
  rewrite Ew, Hclosed. do 2 wp_step. rewrite Ekey.
  apply (wp_write_ok env Hbenign). intros fs1 w1 _ Hother [Hfs1 Hst1 Hsent1 Hin1].
  assert (∀ q, store_name q → fs1 !! q = w_fs w !! q) as Hstore.
  { intros q Hq. apply Hother; [|by right]. apply store_name_ending; [done|apply pending_not_store]. }
  wp_step. eapply (wp_commit_ok opts env Hbenign n); [by apply applies_prepared|by apply sized_prepareRecord|done|done|done| |].
  { rewrite Hfs1, Hst1. by apply (durable_files opts _ (w_fs w)). }
  intros fs st Hstate Hd2 _ Hfiles. wp_step. unfold applyPrepareAck.
  eapply (wp_reply_ok env Hbenign (MApplyPrepareAck (mkApplyPrepareAckMessage _ _ ErrorCode.Ok "")));
    [done|done|by destruct Hp|done|by right|].
  intros bs w4 _ _ [Hfs4 Hst4 Hsent4 Hin4]. wp_step. apply wp_fault. rewrite no_fault. wp_step.
  split; [done|]. intros Hinv'. split; [rewrite Hin4; simpl; congruence|].
  assert (w_state w4 = upd_window (λ _, opened_window r) (w_state w)) as Es.
  { unfold w_state at 1. rewrite Hst4. simpl. rewrite Hstate. unfold w_state. by rewrite Hst1. }
  split; try done; rewrite ?Es; try done.
  - by rewrite Hfs4, Hst4.
  - rewrite Hfs4. simpl. rewrite Hfiles, Hfs1.
    + rewrite Hother; [done| |left; apply proper_payload].
      apply ending_ne. unfold delivered_path. by rewrite ending_payload, ending_pending.
    + unfold delivered_path. by rewrite ending_payload.
Qed.

(** ** Activation *)

(** Between the first record of an activation and its last. *)
Record activating (n : Z) (i : AgentIdentity) (c : TargetCommit) (fs : FileSystem) (w0 w : World)
    : Prop := {
  av_state : state_ok (w_state w);
  av_identity : as_identity (w_state w) = i;
  av_commit : as_commit (w_state w) = c;
  av_durable : durable opts n (w_fs w) (w_store w);
  av_files : ∀ p, ending p ≠ "rnal" → w_fs w !! p = fs !! p;
  av_sent : w_sent w = w_sent w0;
  av_inbox : w_inbox w = w_inbox w0;
}.

Lemma wp_activating n i c c' fs w0 w type record f (Q : World → Result unit → Prop) :
  applies type record f → sized record kMaxJournalRecordBytes → isKnownRecordType (raw type) = true →
  (∀ d s, as_commit d = as_commit s → as_commit (f d) = as_commit (f s)) →
  (state_ok (w_state w) → state_ok (f (w_state w))) →
  as_identity (f (w_state w)) = as_identity (w_state w) → as_commit (f (w_state w)) = c' →
  0 <= n → activating (n + 1) i c fs w0 w →
  (∀ w', activating n i c' fs w0 w' → Q w' (Ok tt)) →
  wp (m_commit env type record) Q w.
Proof.
  intros Happ Hsize Hknown Hf Hok Hid Hc Hn [Hs Hi Hc0 Hd Hfs Hsent Hin] HQ.
  apply (wp_commit_ok opts env Hbenign n type record f); [done..|].
  intros fs' st' Hst' Hd' _ Hfs'. apply HQ.
  assert (w_state (stored fs' st' w) = f (w_state w)) as Es by exact Hst'.
  split; rewrite ?Es; try done; auto; [congruence|].
  intros p Hp. by rewrite <- Hfs, <- Hfs'.
Qed.

Lemma counters_change f n i c fs w0 w (Q : World → Result unit → Prop) :
  (∀ x, counters_fit x → counters_fit (f x)) → 0 <= n → activating (n + 1) i c fs w0 w →
  (∀ w', activating n i c fs w0 w' → Q w' (Ok tt)) →
  wp (m_count env f) Q w.
Proof.
  intros Hf Hn [Hs Hi Hc0 Hd Hfs Hsent Hin] HQ. unfold m_count. wp_step. apply wp_modify.
  unfold m_rollbackNote. do 2 wp_step.
  set (w1 := set_store _ w). assert (state_ok (w_state w1)) as Hs1 by (by apply state_ok_counters).
  eapply (wp_activating n i c c fs w0 w1); [apply applies_note, Hs1|..]; try done.
  - pose proof (agent_wf_counters _ (so_wf _ Hs1)) as (_ & ? & ? & ? & ?). unfold rollbackPayload.
    eapply sized_le; [repeat (eapply sized_app; [sized_field|]); sized_field|vm_compute; discriminate].
  - intros Hok. apply state_ok_counters; [|done]. intros x.
    apply set_notes_fit, agent_wf_counters, Hs1.
  - split; try done. apply (durable_state opts); done.
Qed.

Lemma sized_commitRecord g d (a : ArtifactId) :
  num64 g → digest_wf d → id_optional a → sized (commitRecord g d a) kMaxJournalRecordBytes.
Proof.
  intros Hg Hd Ha. unfold commitRecord.
  eapply sized_le; [repeat (eapply sized_app; [sized_field|]); sized_field|vm_compute; discriminate].
Qed.

Lemma wp_commitGeneration n i c r fs w0 w (Q : World → Result unit → Prop) :
  transfer_wf r → transfer_ok r → 0 <= n → activating (n + 4) i c fs w0 w →
  (∀ w', activating n i (commit_to (tx_generation r) (tx_digest r) (tx_artifact r) c) fs w0 w' →
     Q w' (Ok tt)) →
  wp (commitGeneration env (tx_deployment r) (tx_key r) (tx_generation r) (tx_digest r)
        (tx_artifact r)) Q w.
Proof.
  intros Hwf Hok Hn Hact HQ. unfold commitGeneration. do 3 wp_step.
  assert (∀ w1, activating (n + 3) i c fs w0 w1 →
    wp (do@ m_commit env JournalRecordType.AgentTargetCommit
              (commitRecord (tx_generation r) (tx_digest r) (tx_artifact r)) in
        let@ now := m_now env in
        do@ m_commit env JournalRecordType.AgentFindingUpsert
              (writeAppliedFinding (mkAppliedFinding (tx_key r) (tx_generation r) (tx_digest r)
                 (tx_artifact r) (tx_deployment r) DeliveryState.Applied now)) in
        m_count env count_activation) Q w1) as Hrest.
  { intros w1 Hact1. wp_step.
    eapply (wp_activating (n + 2) i c (commit_to (tx_generation r) (tx_digest r) (tx_artifact r) c) fs w0 w1).
    - apply applies_commit; apply Hwf.
    - apply sized_commitRecord; apply Hwf.
    - done.
    - intros d s E. simpl. by rewrite E.
    - intros Hs. apply state_ok_commit; try apply Hwf. done.
    - done.
    - simpl. by rewrite (av_commit _ _ _ _ _ _ Hact1).
    - lia.
    - replace (n + 2 + 1) with (n + 3) by lia. done.
    - intros w2 Hact2. wp_step. apply (wp_now_ok env Hbenign).
      intros now w3 Hnow [Hfs3 Hst3 Hsent3 Hin3] _. wp_step.
      set (finding := mkAppliedFinding _ _ _ _ _ _ _).
      assert (finding_wf finding) as Hfind by (destruct Hwf; by split).
      eapply (wp_activating (n + 1) _ _ _ _ w0 w3); [by apply applies_finding| |done|done| |done| | | |].
      + eapply sized_le; [by apply (wire_size (w := writeAppliedFinding))|vm_compute; discriminate].
      + intros Hs. by apply state_ok_finding; [|apply Hok|].
      + reflexivity.
      + lia.
      + destruct Hact2 as [Hs2 Hi2 Hc2 Hd2 Hf2 Hsn2 Hin2]. unfold w_state in *.
        replace (n + 1 + 1) with (n + 2) by lia.
        split; unfold w_state; rewrite ?Hst3, ?Hfs3, ?Hin3, ?Hsent3, ?app_nil_r; done.
      + intros w4 Hact4. eapply (counters_change count_activation n); [apply count_activation_fit|done| |exact HQ].
        destruct Hact2 as [_ _ Hc2 _ _ _ _]. unfold w_state in *. rewrite Hst3 in Hact4.
        simpl in Hact4. rewrite Hc2 in Hact4. exact Hact4. }
  unfold m_when. destruct (applyPrepared (as_window (w_state w))); [|wp_step; apply Hrest].
  2: { destruct Hact as [? ? ? Hd ? ? ?]. split; try done. eapply durable_weaken; [|exact Hd]. lia. }
  assert (fits 64 (inc64 (activations (as_counters (w_state w))))) as Hfit by apply inc64_fits.
  eapply (wp_activating (n + 3) i c c fs w0 w); [by apply applies_resolved| |done|done| |done| |lia| |exact Hrest].
  - eapply sized_le; [apply (wire_size (w := Write.u64) _ Hfit)|vm_compute; discriminate].
  - intros Hs. by apply state_ok_resolve.
  - by destruct Hact.
  - replace (n + 3 + 1) with (n + 4) by lia. done.
Qed.

Context (Hlisting : ∀ k, (length (env_listing env k) <= o_retainedPayloadsPerKey opts)%nat).

(** The text of the live pointer the delivery leads to. *)
Definition delivered_pointer (m : PrepareMessage) : list byte :=
  bytes_of_string (pointerText (pr_generation m) (pr_digest m) (pr_artifact m)).
Definition delivered_commit (m : PrepareMessage) : TargetCommit :=
  mkCommit (pr_generation m) (pr_digest m) (pr_artifact m).

(** The delivery is active. *)
Record activated (n : Z) (s0 : AgentState) (m : PrepareMessage) (content : list byte) (w : World)
    : Prop := {
  ad_commit : as_commit (w_state w) = delivered_commit m;
  ad_identity : as_identity (w_state w) = as_identity s0;
  ad_pointer : w_fs w !! currentPath (key_directory opts (pr_key m)) = Some (delivered_pointer m);
  ad_payload : w_fs w !! delivered_path m = Some content;
  ad_durable : durable opts n (w_fs w) (w_store w);
}.

Lemma wp_activate n s0 m content r w (Q : World → Result unit → Prop) :
  prepare_wf m → 0 <= n → committable (n + 4) s0 m content r w →
  (∀ w', activated n s0 m content w' → w_sent w' = w_sent w → w_inbox w' = w_inbox w → Q w' (Ok tt)) →
  wp (activate opts env r
        (bool_decide (guarantee (as_identity s0) = ApplyGuarantee.PrepareCommitAbort))) Q w.
Proof.
  intros Hprep Hn [Hinv Hd Hid Hc Hr Hfound Hpay Hpca Hown] HQ.
  destruct (transfer_found _ _ _ (inv_state _ _ _ Hinv) Hfound) as (Edep & Hwf & Hok).
  set (pca := bool_decide _) in *. unfold activate. do 2 wp_step. cbn zeta. wp_step.
  assert (pca && negb (applyPrepared (as_window (w_state w))) = false) as ->.
  { subst pca. case_bool_decide as Eg; [|done]. by rewrite Hpca. }
  unfold m_when at 1. do 2 wp_step. apply wp_fault. wp_step.
  destruct Hr as [_ _ Ekey Eart Egen Edig _ _ _ _].
  apply (wp_write_ok env Hbenign). intros fs1 w1 Hpointer Hother [Hfs1 Hst1 Hsent1 Hin1]. wp_step.
  set (current := currentPath _) in *.
  assert (current ≠ pendingPath (key_directory opts (tx_key r))) as Hcp.
  { apply ending_ne. subst current. by rewrite ending_current, ending_pending. }
  assert (∀ w2, w_store w2 = w_store w → w_sent w2 = w_sent w → w_inbox w2 = w_inbox w →
    (∀ p, p ≠ pendingPath (key_directory opts (tx_key r)) → w_fs w2 !! p = fs1 !! p) →
    wp (do@ m_fault opts kAfterSwitch in
        do@ commitGeneration env (tx_deployment r) (tx_key r) (tx_generation r) (tx_digest r)
              (tx_artifact r) in
        m_prunePayloads opts env (tx_key r)) Q w2) as Hrest.
  { intros w2 Hst2 Hsent2 Hin2 Hfs2. wp_step. apply wp_fault. wp_step.
    assert (w_state w2 = w_state w) as Es by (unfold w_state; by rewrite Hst2).
    apply (wp_commitGeneration n (as_identity s0) (as_commit s0) r (w_fs w2) w2 w2); [done..| |].
    { split; rewrite ?Es; try done; [apply Hinv|]. rewrite Hst2.
      apply (durable_files opts _ (w_fs w)); [|done]. intros p Hp.
      rewrite Hfs2, Hother; [done| |by right|];
        (apply store_name_ending; [done|]); [apply current_not_store|apply pending_not_store]. }
    intros w3 [Hs3 Hi3 Hc3 Hd3 Hf3 Hsent3 Hin3].
    apply (wp_prune_ok opts env); [done|]. intros w4 [Hfs4 Hst4 Hsent4 Hin4].
    assert (w_state w4 = w_state w3) as Es4 by (unfold w_state; by rewrite Hst4).
    apply HQ; [|rewrite Hsent4, app_nil_r; congruence|congruence].
    split; rewrite ?Es4, ?Hfs4, ?Hst4; try done.
    - rewrite Hc3. unfold commit_to, delivered_commit. rewrite Eart, Egen, Edig.
      rewrite id_valid_isSet by apply Hprep. done.
    - rewrite <- Ekey, Hf3, Hfs2 by (done || by rewrite ending_current). fold current.
      rewrite Hpointer. unfold delivered_pointer. by rewrite Eart, Egen, Edig.
    - rewrite Hf3 by (unfold delivered_path; by rewrite ending_payload).
      rewrite Hfs2, Hother, Hpay; [done| |left; apply proper_payload|];
        (apply ending_ne; unfold delivered_path; subst current;
         by rewrite ending_payload, ?ending_current, ?ending_pending). }
  unfold m_when. destruct pca.
  - apply (wp_remove_ok env Hbenign). intros w2 [Hfs2 Hst2 Hsent2 Hin2].
    apply Hrest; [congruence|rewrite Hsent2, Hsent1, !app_nil_r; done|congruence|].
    intros p Hp. by rewrite Hfs2, lookup_delete_ne, Hfs1.
  - wp_step. apply Hrest; [done|by rewrite Hsent1, app_nil_r|done|]. intros p Hp. by rewrite Hfs1.
Qed.

(** ** Commit *)

(** The answers to a commit that was carried out. *)
Definition answered (m : PrepareMessage) (l : list Message) : Prop :=
  ∃ ack evidence e, l = [ack; evidence]
    ∧ decodeMessage (m_type ack) (m_payload ack)
      = Ok (MApplyCommitAck (mkApplyCommitAckMessage (pr_deployment m) true DeliveryState.Applied
              (pr_generation m) (pr_digest m) ErrorCode.Ok ""))
    ∧ decodeMessage (m_type evidence) (m_payload evidence) = Ok (MDeliveryAck e)
    ∧ da_deployment e = pr_deployment m ∧ da_key e = pr_key m
    ∧ da_generation e = pr_generation m ∧ da_digest e = pr_digest m
    ∧ da_state e = DeliveryState.Applied.

Lemma dispatch_commit n session frame a s0 m content r w :
  decode_frame frame = Ok (MApplyCommit a) → ac_deployment a = pr_deployment m →
  ac_digest a = pr_digest m → ac_generation a = pr_generation m →
  value (committedGeneration (as_commit s0)) < value (pr_generation m) →
  prepare_wf m → started s0 → fits 64 (value (se_authorityEpoch session)) →
  0 <= n → committable (n + 4) s0 m content r w →
  wp (dispatch opts env session frame)
    (λ w' res, res = Ok true ∧ w_inbox w' = w_inbox w ∧ activated n s0 m content w'
       ∧ ∃ l, w_sent w' = w_sent w ++ l ∧ answered m l) w.
Proof.
  intros Hframe Ed Ex Eg Hnewer Hprep [_ Hterm Hinc] Hepoch Hn Hcm.
  pose proof Hcm as [Hinv Hd Hid Hc Hr Hfound Hpay Hpca Hown].
  destruct (transfer_found _ _ _ (inv_state _ _ _ Hinv) Hfound) as (Edep & Hwf & Hok).
  destruct (frame_decodes encodeApplyCommit decodeApplyCommit _ MApplyCommit frame a)
    as (Ht & Hm & Ha); [done..|].
  apply (wp_dispatch session frame (onApplyCommit opts env session (fpayload frame)));
    [by unfold dispatch; rewrite Ht|done|].
  unfold onApplyCommit. do 2 wp_step. rewrite Hm. do 2 wp_step. rewrite Eg.
  destruct (newer_not_stale (w_state w) (pr_generation m)) as [-> ->]; [by rewrite Hc|]. cbn [andb].
  pose proof Hr as [_ _ Ekey Eart Egen Edig Etot Erec _ Estaged].
  unfold stagedTransfer. rewrite Ed, Hfound, Estaged. unfold commitStaged.
  rewrite Ex, Eg, Egen, Edig, !bool_decide_true by done. cbn [negb orb]. rewrite Hid.
  assert (bool_decide (guarantee (as_identity s0) = ApplyGuarantee.PrepareCommitAbort)
          && negb (applyPrepared (as_window (w_state w))) = false) as ->.
  { case_bool_decide as E; [|done]. by rewrite Hpca. }
  assert (applyPrepared (as_window (w_state w))
          && negb (bool_decide (preparedDeployment (as_window (w_state w)) = ac_deployment a)) = false)
    as ->.
  { destruct (applyPrepared (as_window (w_state w))) eqn:E; [|done].
    rewrite bool_decide_true; [done|]. by rewrite Ed, Hown. }
  do 2 wp_step. apply (wp_activate n s0 m content r w); [done..|].
  intros w1 [Hc1 Hid1 Hptr1 Hpay1 Hd1] Hsent1 Hin1. do 2 wp_step. wp_step.
  unfold applyCommitAck, commitAck. rewrite Ed, Hc1. cbn [committedGeneration committedDigest].
  eapply (wp_reply_ok env Hbenign (MApplyCommitAck (mkApplyCommitAckMessage (pr_deployment m) true
            DeliveryState.Applied (pr_generation m) (pr_digest m) ErrorCode.Ok "")));
    [done|done| |done|by right|].
  { split; simpl; try apply Hprep; done. }
  intros bs w2 _ Hdec2 [Hfs2 Hst2 Hsent2 Hin2]. wp_step. apply wp_fault.
  assert (w_state w2 = w_state w1) as Es2 by (unfold w_state; by rewrite Hst2).
  unfold sendAck. rewrite no_fault. do 2 wp_step. wp_step. apply (wp_now_ok env Hbenign).
  intros now w3 Hnow [Hfs3 Hst3 Hsent3 Hin3] _.
  rewrite Es2, Hid1, Hc1, Ekey. cbn [committedArtifact].
  eapply (wp_reply_ok env Hbenign (MDeliveryAck _)); [done|done| |done|by left|].
  { pose proof (so_wf (w_state w) (inv_state _ _ _ Hinv)) as []. rewrite Hid in awf_term, awf_incarnation. split.
    - split; simpl; try apply Hprep; try done; [by right; apply Hprep|].
      rewrite Etot. apply Hprep.
    - unfold check_delivery_ack. simpl. by rewrite Hterm, Hinc. }
  intros bs' w4 _ Hdec4 [Hfs4 Hst4 Hsent4 Hin4]. split; [done|]. intros Hinv'.
  split; [congruence|]. split.
  - assert (w_state w4 = w_state w1) as Es4 by (unfold w_state; by rewrite Hst4, Hst3, Hst2).
    split; rewrite ?Es4, ?Hfs4, ?Hfs3, ?Hfs2, ?Hst4, ?Hst3, ?Hst2; done.
  - eexists. split; [rewrite Hsent4, Hsent3, Hsent2, Hsent1, app_nil_r, <- app_assoc; done|].
    do 3 eexists. split; [done|]. split; [exact Hdec2|]. split; [exact Hdec4|]. simpl. done.
Qed.

(** ** The session *)

Lemma wp_serve_frame fuel session frame inbox w (Q : World → Result unit → Prop) :
  w_inbox w = Ok frame :: inbox →
  wp (dispatch opts env session frame)
    (λ w' r, r = Ok true ∧ wp (serve_loop opts env fuel session) Q w') (set_inbox inbox w) →
  wp (serve_loop opts env (S fuel) session) Q w.
Proof.
  intros Hin Hd. cbn [serve_loop]. do 2 wp_step. unfold wp at 1, m_receive. rewrite Hin. cbn [fst snd].
  wp_step. eapply wp_mono; [|exact Hd]. intros w' r [-> HQ]. exact HQ.
Qed.

Lemma wp_serve_idle fuel session w (Q : World → Result unit → Prop) :
  w_inbox w = [] → Q w (Ok tt) → wp (serve_loop opts env (S fuel) session) Q w.
Proof.
  intros Hin HQ. unfold wp. cbn [serve_loop]. unfold m_bind, m_try, m_receive. by rewrite Hin.
Qed.

(** The chunks follow each other from [offset] to the declared size. *)
Fixpoint in_order (m : PrepareMessage) (offset : Z) (cs : list ChunkMessage) : Prop :=
  match cs with
  | [] => offset = pr_sizeBytes m
  | c :: cs => ck_stream c = pr_stream m ∧ ck_offset c = offset
               ∧ in_order m (offset + zlen (ck_data c)) cs
  end.
Definition content_of (cs : list ChunkMessage) : list byte := concat (map ck_data cs).

Lemma in_order_end m offset cs :
  in_order m offset cs → offset + zlen (content_of cs) = pr_sizeBytes m.
Proof.
  unfold content_of. revert offset. induction cs as [|c cs IH]; intros offset; cbn [in_order map concat].
  - rewrite zlen_nil. lia.
  - intros (_ & _ & Hcs%IH). rewrite zlen_app. lia.
Qed.

Lemma holding_inbox n s0 m c v s r inbox w :
  holding n s0 m c v s r w → holding n s0 m c v s r (set_inbox inbox w).
Proof. intros []. split; assumption. Qed.
Lemma committable_inbox n s0 m c r inbox w :
  committable n s0 m c r w → committable n s0 m c r (set_inbox inbox w).
Proof. intros []. split; assumption. Qed.

Lemma serve_chunks fuel session cs m s0 rest (Q : World → Result unit → Prop) :
  (∀ n, 0 <= n → ∀ content r frames w,
     map decode_frame frames = map Ok (map MChunk cs) → in_order m (zlen content) cs →
     holding (n + zlen cs) s0 m content false false r w → w_inbox w = map Ok (frames ++ rest) →
     (∀ w' r', w_inbox w' = map Ok rest →
        holding n s0 m (content ++ content_of cs) false false r' w' →
        wp (serve_loop opts env fuel session) Q w') →
     wp (serve_loop opts env (length frames + fuel) session) Q w).
Proof.
  intros n Hn. induction cs as [|c cs IH]; intros content r frames w Hdec Hord Hhold Hin Hrest.
  - destruct frames; [|done]. apply (Hrest w r Hin). unfold content_of. simpl.
    rewrite app_nil_r. rewrite zlen_nil, Z.add_0_r in Hhold. done.
  - destruct frames as [|frame frames]; [done|]. cbn [map] in Hdec. injection Hdec as Hframe Hdec.
    destruct Hord as (Hs & Ho & Hord).
    eapply wp_serve_frame; [exact Hin|].
    rewrite zlen_cons in Hhold. replace (n + (1 + zlen cs)) with (n + zlen cs + 1) in Hhold by lia.
    pose proof (zlen_nonneg cs) as Hcs.
    eapply wp_mono; [|apply (dispatch_chunk (n + zlen cs) session frame c s0 m content r);
                      [done| |lia|by apply holding_inbox]].
    2: { split; [done|done|]. apply in_order_end in Hord. pose proof (zlen_nonneg (content_of cs)). lia. }
    intros w' res (-> & Hin' & r' & Hhold'). split; [done|].
    apply (IH (content ++ ck_data c) r'); [done|by rewrite zlen_app|done|done|].
    intros w'' r'' Hin'' Hh. apply (Hrest w'' r''); [done|].
    unfold content_of in *. cbn [map concat]. by rewrite app_assoc.
Qed.

(** The messages of a delivery; [pca] is the explicit prepare window. *)
Definition closing_messages (pca : bool) (m : PrepareMessage) : list ProtocolMessage :=
  [MTransferComplete (mkTransferCompleteMessage (pr_deployment m) (pr_stream m) (pr_digest m)
                        (pr_sizeBytes m));
   MStage (mkStageMessage (pr_deployment m) (pr_stream m) (pr_generation m) (pr_digest m))]
  ++ (if pca then [MApplyPrepare (mkApplyPrepareMessage (pr_deployment m) (pr_generation m)
                                    (pr_digest m))] else [])
  ++ [MApplyCommit (mkApplyCommitMessage (pr_deployment m) (pr_generation m) (pr_digest m))].
Definition delivery_messages (pca : bool) (m : PrepareMessage) (cs : list ChunkMessage)
    : list ProtocolMessage :=
  MPrepare m :: map MChunk cs ++ closing_messages pca m.

(** What the session ends with. *)
Definition delivered (s0 : AgentState) (m : PrepareMessage) (content : list byte) (w : World)
    (r : Status) : Prop :=
  r = Ok tt ∧ activated 0 s0 m content w ∧ ∃ earlier l, w_sent w = earlier ++ l ∧ answered m l.

Lemma serve_commit session frame s0 m content r w :
  decode_frame frame = Ok (MApplyCommit (mkApplyCommitMessage (pr_deployment m) (pr_generation m)
                                           (pr_digest m))) →
  value (committedGeneration (as_commit s0)) < value (pr_generation m) →
  prepare_wf m → started s0 → fits 64 (value (se_authorityEpoch session)) →
  committable 4 s0 m content r w → w_inbox w = [Ok frame] →
  wp (serve_loop opts env 2 session) (λ w' res, delivered s0 m content w' res) w.
Proof.
  intros Hframe Hnewer Hprep Hstart Hepoch Hcm Hin. eapply wp_serve_frame; [exact Hin|].
  eapply wp_mono; [|apply (dispatch_commit 0 session frame _ s0 m content r _ Hframe); try done;
                    by apply committable_inbox].
  intros w' res (-> & Hin' & Hact & l & Hsent & Hans). split; [done|].
  apply wp_serve_idle; [done|]. split; [done|]. split; [done|]. by exists (w_sent w), l.
Qed.

Lemma serve_closing session frames s0 m content r w :
  let pca := bool_decide (guarantee (as_identity s0) = ApplyGuarantee.PrepareCommitAbort) in
  map decode_frame frames = map Ok (closing_messages pca m) → complete m content →
  value (committedGeneration (as_commit s0)) < value (pr_generation m) →
  applyPrepared (as_window s0) = false →
  prepare_wf m → started s0 → fits 64 (value (se_authorityEpoch session)) →
  holding 7 s0 m content false false r w → w_inbox w = map Ok frames →
  wp (serve_loop opts env (S (length frames)) session) (λ w' res, delivered s0 m content w' res) w.
Proof.
  intros pca Hdec Hcomp Hnewer Hwin Hprep Hstart Hepoch Hhold Hin.
  destruct frames as [|f1 [|f2 frames]]; [done..|]. cbn [map closing_messages app] in Hdec.
  injection Hdec as Hf1 Hf2 Hdec. eapply wp_serve_frame; [exact Hin|].
  eapply wp_mono; [|apply (dispatch_complete 6 session f1 _ s0 m content r _ Hf1); try done;
                    by apply holding_inbox].
  intros w1 res (-> & Hin1 & r1 & Hhold1). split; [done|].
  eapply wp_serve_frame; [exact Hin1|].
  eapply wp_mono; [|apply (dispatch_stage 5 session f2 _ s0 m content r1 _ Hf2); try done;
                    by apply holding_inbox].
  intros w2 res (-> & Hin2 & Hpay & r2 & Hhold2). split; [done|]. simpl in Hin2.
  subst pca. case_bool_decide as Hg; cbn [app map] in Hdec.
  - destruct frames as [|f3 [|f4 [|]]]; try done. injection Hdec as Hf3 Hf4.
    eapply wp_serve_frame; [exact Hin2|].
    eapply wp_mono; [|apply (dispatch_apply_prepare 4 session f3 _ s0 m content r2 _ Hf3); try done;
                      by apply holding_inbox].
    intros w3 res (-> & Hin3 & Hcm). split; [done|].
    by apply (serve_commit session f4 s0 m content r2).
  - destruct frames as [|f3 [|]]; try done. injection Hdec as Hf3.
    apply (serve_commit session f3 s0 m content r2); try done.
    apply holding_committable; try done.
    destruct Hhold2 as [Hi Hd Hu Hr Hfound Hs Hh]. split; try done.
    eapply durable_weaken; [|exact Hd]. lia.
Qed.

(** What a reopened directory holds. *)
Lemma durable_reopens n s0 m content w ho so cs :
  activated n s0 m content w →
  ∃ fs' st' recovery,
    store_open ho so cs (store_options opts) (w_fs w) = (fs', Ok (st', recovery))
    ∧ as_commit (state_ st') = delivered_commit m.
Proof.
  intros [Hc _ _ _ [(d & rs & Hst & Hd) _ _]]. apply store_inv_disk in Hst. simpl in Hst.
  destruct (open_disk (store_options opts) ho so cs (w_fs w) rs d Hst)
    as (fs' & st' & recovery & Hopen & _ & Heq & _).
  exists fs', st', recovery. split; [done|]. unfold durable_eq in Heq. cbn [sc_durable agent_laws id] in Heq.
  rewrite Heq. unfold w_state in Hc. congruence.
Qed.
End delivery.

(** ** Properties *)

(** C7: a fault-free delivery completes. On an agent whose system calls and
    connection succeed and whose journal has room, the messages of any
    acceptable delivery, with the content cut into chunks of any sizes, end
    with the session idle and the delivery active: the commit and its evidence
    are the last two frames sent and say so, the live pointer names exactly
    the offered generation, digest and artifact, the payload holds exactly the
    bytes of the chunks, the committed generation is the offered one, and
    reopening the directory gives it again. (Retention has to keep the payload:
    see [retention_deletes_activated].) *)
Theorem delivery_activates opts env session m cs frames w
    (Hbenign : benign env) (Hfaults : o_faults opts = [])
    (Hlisting : ∀ k, (length (env_listing env k) <= o_retainedPayloadsPerKey opts)%nat)
    (Hinv : inv opts (w_fs w) (w_store w)) (Hstart : started (w_state w))
    (Hdurable : durable opts (zlen cs + 8) (w_fs w) (w_store w))
    (Hepoch : fits 64 (value (se_authorityEpoch session)))
    (Haccept : acceptable opts m (w_state w)) (Horder : in_order m 0 cs)
    (Hdigest : Digest_ofContent (content_of cs) = pr_digest m)
    (Hframes : map decode_frame frames
               = map Ok (delivery_messages
                           (bool_decide (guarantee (as_identity (w_state w))
                                         = ApplyGuarantee.PrepareCommitAbort)) m cs))
    (Hinbox : w_inbox w = map Ok frames) :
  let w' := (serve_loop opts env (S (length frames)) session w).1 in
  (serve_loop opts env (S (length frames)) session w).2 = Ok tt
  ∧ as_commit (w_state w') = mkCommit (pr_generation m) (pr_digest m) (pr_artifact m)
  ∧ w_fs w' !! currentPath (key_directory opts (pr_key m))
    = Some (bytes_of_string (pointerText (pr_generation m) (pr_digest m) (pr_artifact m)))
  ∧ w_fs w' !! payloadPath (key_directory opts (pr_key m)) (pr_generation m) (pr_digest m)
    = Some (content_of cs)
  ∧ (∃ earlier l, w_sent w' = earlier ++ l ∧ answered m l)
  ∧ ∀ ho so closed, ∃ fs' st' recovery,
      store_open ho so closed (store_options opts) (w_fs w') = (fs', Ok (st', recovery))
      ∧ as_commit (state_ st') = mkCommit (pr_generation m) (pr_digest m) (pr_artifact m).
Proof.
  assert (wp (serve_loop opts env (S (length frames)) session)
            (λ w' r, delivered opts (w_state w) m (content_of cs) w' r) w) as H.
  2: { unfold wp in H. destruct (serve_loop _ _ _ _ w) as [w' r]. cbn [fst snd] in *.
       destruct H as (-> & Hact & Hsent). split; [done|]. split_and!; try apply Hact; [done|].
       intros ho so closed. by eapply durable_reopens. }
  destruct frames as [|f frames]; [done|]. cbn [map delivery_messages] in Hframes.
  injection Hframes as Hf Hframes. rewrite map_app in Hframes.
  apply map_eq_app in Hframes as (fcs & fclose & -> & Hfcs & Hfclose).
  destruct (frame_decodes encodePrepare decodePrepare _ MPrepare f m) as (_ & _ & Hprep & Hcheck); [done..|].
  pose proof (zlen_nonneg cs) as Hcs.
  eapply wp_serve_frame; [exact Hinbox|].
  eapply wp_mono; [|apply (dispatch_prepare opts env Hbenign Hfaults (7 + zlen cs) session f m); try done].
  2: lia.
  2: { by replace (7 + zlen cs + 1) with (zlen cs + 8) by lia. }
  intros w1 res (-> & Hin1 & r1 & Hhold). split; [done|].
  replace (length (f :: fcs ++ fclose)) with (length fcs + S (length fclose))%nat
    by (cbn [length]; rewrite length_app; lia).
  apply (serve_chunks opts env Hbenign Hfaults (S (length fclose)) session cs m (w_state w) fclose
           _ 7 ltac:(lia) [] r1 fcs w1); [done|done|done|done|].
  intros w2 r2 Hin2 Hhold2.
  apply (serve_closing opts env Hbenign Hfaults Hlisting session fclose (w_state w) m (content_of cs) r2);
    try done; [|apply Haccept|apply Haccept].
  apply in_order_end in Horder. split; [done|done|]. intros E. rewrite E in Horder.
  rewrite (@zlen_nil byte) in Horder. unfold check_prepare in Hcheck.
  replace (pr_sizeBytes m =? 0) with true in Hcheck by (symmetry; apply Z.eqb_eq; lia).
  by repeat case_match.
Qed.

(** The store of [opened_world] is a fresh store after one commit. *)
Definition fresh_store (g : ApplyGuarantee) : option (FileSystem * Store AgentState) :=
  match store_open (S := AgentState) Written (Restarted Written) EndsInClose
          (store_options (example_agent g)) ∅ with
  | (fs, Ok (st, _)) => Some (fs, st)
  | _ => None
  end.
Definition identity_payload (g : ApplyGuarantee) : list byte :=
  match identityRecord (example_agent g) 1 1 (repeat Byte.x11 16) with Ok bytes => bytes | _ => [] end.

Lemma opened_commit g :
  match fresh_store g with
  | Some (fs, st) =>
      commit Written st JournalRecordType.AgentIdentity (identity_payload g) fs
      = (w_fs (opened_world g), w_store (opened_world g), Ok tt)
  | None => False
  end.
Proof. destruct g; vm_compute; reflexivity. Qed.

Lemma opened_failed g : failed_ (w_store (opened_world g)) = false.
Proof. destruct g; vm_compute; reflexivity. Qed.
Lemma opened_sequence g : value (j_lastSequence (journal_ (w_store (opened_world g)))) = 2.
Proof. destruct g; vm_compute; reflexivity. Qed.

Lemma fresh_store_opens g fs st :
  fresh_store g = Some (fs, st) →
  ∃ r, store_open (S := AgentState) Written (Restarted Written) EndsInClose
         (store_options (example_agent g)) ∅ = (fs, Ok (st, r)).
Proof.
  unfold fresh_store. generalize (store_open (S := AgentState) Written (Restarted Written) EndsInClose
    (store_options (example_agent g)) ∅).
  intros [fs' [[st' r]|e|why]]; [|discriminate..]. intros [= -> ->]. by exists r.
Qed.

Lemma opened_history g :
  ∃ h, history (store_options (example_agent g)) (w_fs (opened_world g))
         (Some (w_store (opened_world g))) h.
Proof.
  pose proof (opened_commit g) as H. pose proof (fresh_store_opens g) as Hopen. revert H Hopen.
  generalize (fresh_store g) (w_fs (opened_world g)) (w_store (opened_world g)).
  intros [[fs st]|] fs' st' H Hopen; [|destruct H]. destruct (Hopen fs st eq_refl) as [r Hrun].
  eexists. eapply history_commit; [|exact H].
  refine (history_create _ EndsInClose ∅ fs st r _ eq_refl (λ _, eq_refl) Hrun). destruct g; discriminate.
Qed.

Lemma opened_durable g n : n < 2 ^ 63 →
  durable (example_agent g) n (w_fs (opened_world g)) (w_store (opened_world g)).
Proof.
  intros Hn. destruct (opened_history g) as [h Hh].
  destruct (history_inv _ _ _ _ Hh) as (rs & Hinv & Hf & _).
  split; [|exact Hf|].
  - exists (state_ (w_store (opened_world g))), rs. split; [|reflexivity].
    revert Hinv. clear. generalize (w_fs (opened_world g)). generalize (w_store (opened_world g)).
    by intros [].
  - rewrite opened_sequence. lia.
Qed.

Definition first_chunk : ChunkMessage :=
  mkChunkMessage (fromValue 7) (fromValue 1) 0 (bytes_of_string "hel").
Definition second_chunk : ChunkMessage :=
  mkChunkMessage (fromValue 7) (fromValue 2) 3 (bytes_of_string "lo").
Definition delivered_prepare : PrepareMessage :=
  example_prepare (mkString "d1") (mkString "k1") (mkString "a1") (fromValue 5) (fromValue 7)
    example_content.
Definition delivery_frames : list Frame :=
  map frame_of (delivery_messages true delivered_prepare [first_chunk; second_chunk]).

(** The agent of [opened_world] with the delivery on its connection. *)
Lemma delivery_world :
  let opts := example_agent ApplyGuarantee.PrepareCommitAbort in
  ∃ w, w_inbox w = map Ok delivery_frames
    ∧ inv opts (w_fs w) (w_store w) ∧ w_state w = opened_state ApplyGuarantee.PrepareCommitAbort
    ∧ durable opts 10 (w_fs w) (w_store w).
Proof.
  pose proof (opened_inv ApplyGuarantee.PrepareCommitAbort) as Hinv.
  pose proof (opened_durable ApplyGuarantee.PrepareCommitAbort 10 ltac:(lia)) as Hd.
  pose proof (opened_state_eq ApplyGuarantee.PrepareCommitAbort) as Hs.
  revert Hinv Hd Hs. generalize (opened_world ApplyGuarantee.PrepareCommitAbort). intros w Hinv Hd Hs.
  exists (set_inbox (map Ok delivery_frames) w). split; [reflexivity|]. split; [exact Hinv|].
  split; [exact Hs|exact Hd].
Qed.

Lemma calm_benign : benign (calm_env []).
Proof. split; try (intros; reflexivity); [intros; by vm_compute|split; by vm_compute]. Qed.

Lemma delivery_activates_witness :
  ∃ w, w_inbox w = map Ok delivery_frames ∧
    let opts := example_agent ApplyGuarantee.PrepareCommitAbort in
    let w' := (serve_loop opts (calm_env []) 8 example_session w).1 in
    as_commit (w_state w') = mkCommit (fromValue 5) (Digest_ofContent example_content) (mkString "a1")
    ∧ w_fs w' !! "s/live/k1/payload/5-2cf24dba5fb0.cfg" = Some example_content.
Proof.
  destruct delivery_world as (w & Hin & Hinv & Hs & Hd). exists w. split; [exact Hin|].
  pose proof (delivery_activates (example_agent ApplyGuarantee.PrepareCommitAbort) (calm_env [])
    example_session delivered_prepare [first_chunk; second_chunk] delivery_frames w calm_benign
    eq_refl ltac:(intros; simpl; lia) Hinv) as H.
  rewrite Hs in H.
  destruct H as (_ & Hc & _ & Hp & _); [..|split; [exact Hc|exact Hp]].
  - by split.
  - exact Hd.
  - by vm_compute.
  - split; vm_compute; congruence.
  - by vm_compute.
  - by vm_compute.
  - vm_compute. reflexivity.
  - exact Hin.
Defined.
