(* ===== verification/Effects.v ===== *)
(** * State and errors

    A state and error monad over any state, and triples for it: what an
    operation leaves, whatever its result. The distributor's operations are
    written in it. (The agent's monad of Agent.v is the same over its own
    world.) *)

From S2P Require Import Prelude Result.

Section monad.
Context {W : Type}.

Definition SM (A : Type) : Type := W → W * Result A.

Definition s_ret {A} (a : A) : SM A := λ w, (w, Ok a).
Definition s_lift {A} (r : Result A) : SM A := λ w, (w, r).
Definition s_bind {A B} (m : SM A) (k : A → SM B) : SM B := λ w,
  match m w with
  | (w', Ok a) => k a w'
  | (w', Fail e) => (w', Fail e)
  | (w', Abort why) => (w', Abort why)
  end.
(** The result is inspected instead of propagated. *)
Definition s_try {A} (m : SM A) : SM (Result A) := λ w,
  match m w with
  | (w', Abort why) => (w', Abort why)
  | (w', r) => (w', Ok r)
  end.
Definition s_get {A} (f : W → A) : SM A := λ w, (w, Ok (f w)).
Definition s_modify (f : W → W) : SM unit := λ w, (f w, Ok tt).
Definition s_when (b : bool) (m : SM unit) : SM unit := if b then m else s_ret tt.
Fixpoint s_for {A} (l : list A) (body : A → SM unit) : SM unit :=
  match l with
  | [] => s_ret tt
  | a :: l => s_bind (body a) (λ _, s_for l body)
  end.

(** ** Triples *)

Definition triple {A} (P : W → Prop) (m : SM A) (Q : Result A → W → Prop) : Prop :=
  ∀ w, P w → Q (m w).2 (m w).1.
(** [I] holds at every end of [m], and a value it returns satisfies [φ]. *)
Definition keeps {A} (I : W → Prop) (m : SM A) (φ : A → Prop) : Prop :=
  triple I m (λ r w, I w ∧ ∀ a, r = Ok a → φ a).

Section rules.
Context (I : W → Prop).

Lemma kept_ret {A} (a : A) (φ : A → Prop) : φ a → keeps I (s_ret a) φ.
Proof. intros Ha w Hw. split; [done|]. by intros _ [= <-]. Qed.

Lemma kept_lift {A} (r : Result A) (φ : A → Prop) :
  (∀ a, r = Ok a → φ a) → keeps I (s_lift r) φ.
Proof. intros Hr w Hw. by split. Qed.

Lemma kept_lifted {A} (r : Result A) : keeps I (s_lift r) (λ a, r = Ok a).
Proof. by apply kept_lift. Qed.

Lemma kept_bind {A B} (m : SM A) (k : A → SM B) φ ψ :
  keeps I m φ → (∀ a, φ a → keeps I (k a) ψ) → keeps I (s_bind m k) ψ.
Proof.
  intros Hm Hk w Hw. specialize (Hm w Hw). unfold s_bind.
  destruct (m w) as [w' [a|e|why]]; simpl in *; destruct Hm as [Hw' Hφ]; [|by split..].
  by apply (Hk a (Hφ a eq_refl)).
Qed.

Lemma kept_try {A} (m : SM A) φ : keeps I m φ → keeps I (s_try m) (λ r, ∀ a, r = Ok a → φ a).
Proof.
  intros Hm w Hw. specialize (Hm w Hw). unfold s_try.
  destruct (m w) as [w' [a|e|why]]; simpl in *; destruct Hm as [Hw' Hφ]; (split; [done|]).
  - by intros _ [= <-].
  - by intros _ [= <-].
  - done.
Qed.

Lemma kept_get {A} (f : W → A) (φ : A → Prop) : (∀ w, I w → φ (f w)) → keeps I (s_get f) φ.
Proof. intros Hf w Hw. split; [done|]. intros a [= <-]. by apply Hf. Qed.

Lemma kept_modify (f : W → W) (φ : unit → Prop) :
  (∀ w, I w → I (f w)) → φ tt → keeps I (s_modify f) φ.
Proof. intros Hf Hφ w Hw. split; [by apply Hf|]. by intros [] _. Qed.

Lemma kept_post {A} (m : SM A) (φ ψ : A → Prop) :
  keeps I m φ → (∀ a, φ a → ψ a) → keeps I m ψ.
Proof. intros Hm Himp w Hw. destruct (Hm w Hw) as [Hw' Hφ]. split; [done|]. eauto. Qed.

Lemma kept_true {A} (m : SM A) φ : keeps I m φ → keeps I m (λ _, True).
Proof. intros Hm. by apply (kept_post m φ). Qed.

Lemma kept_when b (m : SM unit) : keeps I m (λ _, True) → keeps I (s_when b m) (λ _, True).
Proof. intros Hm. destruct b; [done|]. by apply kept_ret. Qed.

Lemma kept_for {A} (l : list A) (body : A → SM unit) :
  (∀ a, a ∈ l → keeps I (body a) (λ _, True)) → keeps I (s_for l body) (λ _, True).
Proof.
  intros Hb. induction l as [|a l IH]; [by apply kept_ret|]. cbn [s_for].
  apply (kept_bind _ _ (λ _, True)); [apply Hb; by left|]. intros _ _. apply IH.
  intros b Hin. apply Hb. by right.
Qed.
End rules.

(** Where an operation ends: with a value ([Q]) or without one ([F]). *)
Definition hoare {A} (P : W → Prop) (m : SM A) (Q : A → W → Prop) (F : W → Prop) : Prop :=
  ∀ w, P w → match m w with (w', Ok a) => Q a w' | (w', _) => F w' end.

Section hoare_rules.
Context {F : W → Prop}.

Lemma ends_bind {A B} P (m : SM A) (k : A → SM B) R Q :
  hoare P m R F → (∀ a, hoare (R a) (k a) Q F) → hoare P (s_bind m k) Q F.
Proof.
  intros Hm Hk w Hw. specialize (Hm w Hw). unfold s_bind.
  destruct (m w) as [w' [a|e|why]]; [by apply Hk|done..].
Qed.
Lemma ends_ret {A} (P : W → Prop) (a : A) (Q : A → W → Prop) :
  (∀ w, P w → Q a w) → hoare P (s_ret a) Q F.
Proof. intros H w Hw. by apply H. Qed.
Lemma ends_lift {A} (P : W → Prop) (r : Result A) :
  (∀ w, P w → F w) → hoare P (s_lift r) (λ a w, r = Ok a ∧ P w) F.
Proof. intros H w Hw. unfold s_lift. destruct r; [done|by apply H..]. Qed.
Lemma ends_fails {A} (P : W → Prop) (r : Result A) Q :
  (∀ a, r ≠ Ok a) → (∀ w, P w → F w) → hoare P (s_lift r) Q F.
Proof. intros Hr H w Hw. unfold s_lift. destruct r as [a| |]; [by destruct (Hr a)|by apply H..]. Qed.
Lemma ends_get {A} (P : W → Prop) (f : W → A) : hoare P (s_get f) (λ a w, a = f w ∧ P w) F.
Proof. by intros w Hw. Qed.
Lemma ends_modify (P : W → Prop) (f : W → W) (Q : unit → W → Prop) :
  (∀ w, P w → Q tt (f w)) → hoare P (s_modify f) Q F.
Proof. intros H w Hw. by apply H. Qed.
Lemma ends_pre {A} (P P' : W → Prop) (m : SM A) Q :
  hoare P m Q F → (∀ w, P' w → P w) → hoare P' m Q F.
Proof. intros Hm Hp w Hw. apply Hm. by apply Hp. Qed.
Lemma ends_post {A} (P : W → Prop) (m : SM A) (Q Q' : A → W → Prop) :
  hoare P m Q F → (∀ a w, Q a w → Q' a w) → hoare P m Q' F.
Proof. intros Hm Hq w Hw. specialize (Hm w Hw). destruct (m w) as [w' [a|e|why]]; auto. Qed.
(** What holds at every end, whatever the result. *)
Lemma ends_keeps {A} (I : W → Prop) (m : SM A) φ :
  keeps I m φ → (∀ w, I w → F w) → hoare I m (λ a w, φ a ∧ I w) F.
Proof.
  intros Hm HF w Hw. specialize (Hm w Hw) as [Hi Hφ].
  destruct (m w) as [w' [a|e|why]]; [split; [by apply Hφ|done]|by apply HF..].
Qed.
Lemma kept_hoare {A} (I : W → Prop) (m : SM A) φ : hoare I m (λ a w, φ a ∧ I w) I → keeps I m φ.
Proof.
  intros Hm w Hw. specialize (Hm w Hw). destruct (m w) as [w' [a|e|why]]; simpl in *.
  - destruct Hm as [Ha Hi]. split; [done|]. by intros _ [= <-].
  - by split.
  - by split.
Qed.
End hoare_rules.
Lemma ends_weaken {A} (P : W → Prop) (m : SM A) (Q Q' : A → W → Prop) (F F' : W → Prop) :
  hoare P m Q F → (∀ a w, Q a w → Q' a w) → (∀ w, F w → F' w) → hoare P m Q' F'.
Proof.
  intros Hm Hq Hf w Hw. specialize (Hm w Hw). destruct (m w) as [w' [a|e|why]]; auto.
Qed.

(** The operations do the same from every such world. *)
Definition agree {A} (P : W → Prop) (m1 m2 : SM A) : Prop := ∀ w, P w → m1 w = m2 w.

Lemma agree_refl {A} P (m : SM A) : agree P m m.
Proof. by intros w Hw. Qed.
Lemma agree_bind {A B} P R (m : SM A) (k1 k2 : A → SM B) :
  hoare P m R (λ _, True) → (∀ a, agree (R a) (k1 a) (k2 a)) → agree P (s_bind m k1) (s_bind m k2).
Proof.
  intros Hm Hk w Hw. specialize (Hm w Hw). unfold s_bind.
  destruct (m w) as [w' [a|e|why]]; [by apply Hk|done..].
Qed.
End monad.
#[global] Arguments SM : clear implicits.

Notation "'let&' x := m 'in' k" := (s_bind m (λ x, k))
  (at level 10, x pattern, m at level 100, k at level 200) : cf_scope.
Notation "'do&' m 'in' k" := (s_bind m (λ _, k))
  (at level 10, m at level 100, k at level 200) : cf_scope.

(** The condition of a body that is safe whatever it is given. *)
Create HintDb effects discriminated.
#[export] Hint Resolve kept_true kept_when : effects.
