(* ===== verification/Transport.v ===== *)
(** * The socket layer

    Models include/cf/transport.hpp and src/transport.cpp over the answers of
    the socket calls: waiting for readiness, reading, writing, accepting,
    binding and connecting, with the deadlines and the cancellation flag. (The
    receive loop of [FramedConnection] is [Frame.receive]; endpoints are in
    Endpoint.v.) The POSIX branch is modelled; the Windows one differs in the
    names of the error codes. *)

From Stdlib Require Import Strings.Byte.
From S2P Require Import Prelude Result Checked Codec Files Endpoint Frame Effects.

(** ** System calls *)

(** The values of [errno] the code tells apart. *)
Inductive Errno :=
  | EINTR | EAGAIN | EWOULDBLOCK | EINPROGRESS | EALREADY | ECONNREFUSED | ECONNRESET | ECONNABORTED | EPIPE
  | ETIMEDOUT | EBADF | EOther (number : Z).
#[global] Instance Errno_eq_dec : EqDecision Errno.
Proof. solve_decision. Defined.

Inductive SelectAnswer := Ready | TimedOut | SelectFailed (e : Errno).
(** The bytes of [recv], none at the end of the stream. *)
Inductive RecvAnswer := Received (bytes : list byte) | RecvFailed (e : Errno).
(** The count [send] returned and the value of [errno]. *)
Record SendAnswer := mkSendAnswer { sa_sent : Z; sa_errno : Errno }.

(** What one address of [getaddrinfo] leads to. *)
Record Candidate := mkCandidate {
  ca_socket_fails : bool;
  ca_bind : option Errno;
  ca_listen : option Errno;
  ca_getsockname : option Errno;
  ca_bound : Endpoint;
  ca_nonblocking : option Errno;
  (** [connect]: 0, or the error *)
  ca_connect : option Errno;
  (** [getsockopt (SO_ERROR)]: whether it worked, and the pending error *)
  ca_getsockopt_fails : bool;
  ca_pending : option Errno;
  ca_blocking : option Errno;
}.

(** The answers, by the number of calls made so far. *)
Record NetEnv := mkNetEnv {
  ne_now : nat → Z;
  ne_interrupted : nat → bool;
  ne_select : nat → SelectAnswer;
  ne_recv : nat → RecvAnswer;
  ne_send : nat → SendAnswer;
  (** [accept]: a socket, or the error *)
  ne_accept : nat → option Errno;
  ne_resolve : nat → option (list Candidate);
  (** the numbers of the other constants *)
  ne_number : Errno → Z;
}.

(** A socket in use: whether the handle is open, the bytes the kernel took from
    [send], the timeouts given to [select], and the number of calls made. *)
Record Socket := mkSocket {
  so_open : bool;
  so_written : list byte;
  so_waits : list (option Z);
  so_calls : nat;
}.
Definition so_next (s : Socket) : Socket := mkSocket (so_open s) (so_written s) (so_waits s) (S (so_calls s)).
Definition so_wait (t : option Z) (s : Socket) : Socket :=
  mkSocket (so_open s) (so_written s) (so_waits s ++ [t]) (so_calls s).
Definition so_write (bytes : list byte) (s : Socket) : Socket :=
  mkSocket (so_open s) (so_written s ++ bytes) (so_waits s) (so_calls s).

Abbreviation N := (SM Socket).

(** A loop that has not ended within its fuel. *)
Definition hangs {A} : N A := s_lift (Abort "the loop has not ended").

Definition kAcceptPollMillis : Z := 50.
Definition kSocketPollMillis : Z := 50.
Definition kMaxReadBytes : Z := 2 ^ 20.
Definition kMaxWriteBytes : Z := 2 ^ 20.

Definition isInterruptedError (e : Errno) : bool := bool_decide (e = EINTR).
Definition wouldBlock (e : Errno) : bool := bool_decide (e = EWOULDBLOCK) || bool_decide (e = EAGAIN).

Section net.
Context (env : NetEnv).

Definition ask {A} (f : nat → A) : N A := λ s, (so_next s, Ok (f (so_calls s))).
Definition monotonicMillis : N Z := ask (ne_now env).
Definition interrupted : N bool := ask (ne_interrupted env).

Definition mapSocketError (e : Errno) (fallback : ErrorCode) (what : string) : Error :=
  let number := match e with EOther number => number | _ => ne_number env e end in
  let detail := what +:+ " (errno=" +:+ to_string number +:+ ")" in
  match e with
  | ECONNREFUSED => mkError ErrorCode.ConnectionRefused "connection refused" detail
  | ECONNRESET | ECONNABORTED | EPIPE =>
      mkError ErrorCode.ConnectionReset "connection reset by peer" detail
  | ETIMEDOUT => mkError ErrorCode.PeerIdleTimeout "socket operation timed out" detail
  | EBADF => mkError ErrorCode.ConnectionClosed "socket is no longer usable" detail
  | _ => mkError fallback what detail
  end.

(** ** Waiting *)

Definition remainingMillis (deadline : Z) : N Z :=
  if deadline =? 0 then s_ret 0
  else if deadline <? 0 then s_ret (-1)
  else let& now := monotonicMillis in s_ret (if deadline >? now then deadline - now else 0).

Definition deadline_elapsed : Error :=
  mkError ErrorCode.PeerIdleTimeout "socket deadline elapsed before readiness" "".

(** One pass asks [select] unless the deadline has elapsed; an interrupted wait
    is repeated. *)
Fixpoint waitFor (fuel : nat) (deadline : Z) : N unit :=
  match fuel with
  | O => hangs
  | S fuel =>
      let& remaining := remainingMillis deadline in
      if (deadline >=? 0) && (remaining =? 0) then s_lift (Fail deadline_elapsed)
      else
        do& s_modify (so_wait (if deadline >=? 0
                               then Some (if remaining <? 0 then 0 else remaining) else None)) in
        let& answer := ask (ne_select env) in
        match answer with
        | Ready => s_ret tt
        | TimedOut => s_lift (Fail deadline_elapsed)
        | SelectFailed e =>
            if isInterruptedError e then waitFor fuel deadline
            else s_lift (Fail (mapSocketError e ErrorCode.IoFailure "socket readiness wait failed"))
        end
  end.

(** The time to wait for in one pass: a poll interval, or less. *)
Definition poll_until (interval deadline now : Z) : Z :=
  if (deadline >=? 0) && (deadline <? now + interval) then deadline else now + interval.

(** What a pass of a polling loop does when the wait failed: the loop goes on
    ([None]), or the error to end with. *)
Definition after_wait (deadline : Z) (timeout : Error) (e : Error) : N (option Error) :=
  if bool_decide (code e = ErrorCode.PeerIdleTimeout) then
    if deadline >=? 0 then
      let& now := monotonicMillis in s_ret (if now >=? deadline then Some timeout else None)
    else s_ret None
  else s_ret (Some e).

(** ** Reading and writing *)

Definition cancelled : Error := mkError ErrorCode.ConnectionClosed "socket was cancelled locally" "".
Definition not_open : Error := mkError ErrorCode.ConnectionClosed "socket is not open" "".

(** One pass of a polling loop, up to the readiness of the socket: [false] when
    the pass was in vain. [stopped], [timeout]: the errors it may end with. *)
Definition poll (interval : Z) (stopped : Error) (timeout : Error → Error) (fuel : nat) (deadline : Z)
    : N bool :=
  let& stop := interrupted in
  if (stop : bool) then s_lift (Fail stopped)
  else
    let& now := monotonicMillis in
    let& ready := s_try (waitFor fuel (poll_until interval deadline now)) in
    match ready with
    | Fail e =>
        let& ended := after_wait deadline (timeout e) e in
        match ended with Some e => s_lift (Fail e) | None => s_ret false end
    | _ => s_ret true
    end.
Definition socket_poll : nat → Z → N bool := poll kSocketPollMillis cancelled id.

Fixpoint read_loop (fuel size : nat) (deadline : Z) : N (list byte) :=
  match fuel with
  | O => hangs
  | S fuel =>
      let& ready := socket_poll fuel deadline in
      if negb ready then read_loop fuel size deadline
      else
        let& answer := ask (ne_recv env) in
        match answer with
        | Received bytes =>
            match take size bytes with
            | [] => s_lift (fail ErrorCode.ConnectionClosed "peer closed the connection")
            | bytes => s_ret bytes
            end
        | RecvFailed e =>
            if wouldBlock e then read_loop fuel size deadline
            else s_lift (Fail (mapSocketError e ErrorCode.IoFailure "socket read failed"))
        end
  end.

(** [size]: of the buffer. *)
Definition readSome (fuel size : nat) (deadline : Z) : N (list byte) :=
  let& opened := s_get so_open in
  if negb opened then s_lift (Fail not_open)
  else if (size =? 0)%nat
  then s_lift (fail ErrorCode.InvalidArgument "read buffer must not be empty")
  else if Z.of_nat size >? kMaxReadBytes
  then s_lift (fail_detail ErrorCode.CapacityExceeded "read request exceeds the transport maximum"
                 (to_string (Z.of_nat size)))
  else read_loop fuel size deadline.

(** [data]: what is still to be written. *)
Fixpoint write_loop (fuel : nat) (data : list byte) (deadline : Z) : N unit :=
  match data with
  | [] => s_ret tt
  | _ =>
      match fuel with
      | O => hangs
      | S fuel =>
          let& ready := socket_poll fuel deadline in
          if negb ready then write_loop fuel data deadline
          else
            let chunk := Z.min (zlen data) kMaxWriteBytes in
            let& answer := ask (ne_send env) in
            if sa_sent answer >? 0 then
              let sent := Z.to_nat (Z.min (sa_sent answer) chunk) in
              do& s_modify (so_write (take sent data)) in
              write_loop fuel (drop sent data) deadline
            else if wouldBlock (sa_errno answer) then write_loop fuel data deadline
            else s_lift (Fail (mapSocketError (sa_errno answer) ErrorCode.IoFailure "socket write failed"))
      end
  end.

Definition writeAll (fuel : nat) (data : list byte) (deadline : Z) : N unit :=
  let& opened := s_get so_open in
  if negb opened then s_lift (Fail not_open) else write_loop fuel data deadline.

(** [FramedConnection::send]: the new value of [bytesSent_]. *)
Definition framed_send (fuel : nat) (type : FrameType) (flags : Z) (payload : list byte)
    (maxPayloadBytes deadline bytesSent : Z) : N Z :=
  let& encoded := s_lift (encodeFrame type flags payload maxPayloadBytes) in
  do& writeAll fuel encoded deadline in
  s_ret (default bytesSent (checkedAdd 64 bytesSent (zlen encoded))).

(** ** Listening and connecting *)

Definition no_connection : Error :=
  mkError ErrorCode.PeerIdleTimeout "no connection arrived before the deadline" "".

Definition listener_interrupted : Error :=
  mkError ErrorCode.ShuttingDown "listener was interrupted" "".
Fixpoint accept_loop (fuel : nat) (deadline : Z) : N unit :=
  match fuel with
  | O => hangs
  | S fuel =>
      let& ready := poll kAcceptPollMillis listener_interrupted (λ _, no_connection) fuel deadline in
      if negb ready then accept_loop fuel deadline
      else
        let& answer := ask (ne_accept env) in
        match answer with
        | None => s_ret tt
        | Some e => if wouldBlock e then accept_loop fuel deadline
                    else s_lift (Fail (mapSocketError e ErrorCode.IoFailure "accept failed"))
        end
  end.
(** [Listener::accept]. *)
Definition accept (fuel : nat) (deadline : Z) : N unit :=
  let& opened := s_get so_open in
  if negb opened then s_lift (fail ErrorCode.ConnectionClosed "listener is closed")
  else accept_loop fuel deadline.

(** The address loop of [bindTcp]: the failure so far, until an address works. *)
Fixpoint bind_candidates (failure : Error) (candidates : list Candidate) : Result Endpoint :=
  match candidates with
  | [] => Fail failure
  | c :: candidates =>
      if ca_socket_fails c then bind_candidates failure candidates
      else
        let failed e what := bind_candidates (mapSocketError e ErrorCode.OpenFailed what) candidates in
        match ca_bind c, ca_listen c, ca_getsockname c with
        | Some e, _, _ => failed e "cannot bind listen socket"
        | None, Some e, _ => failed e "cannot listen on socket"
        | None, None, Some e => failed e "cannot read bound socket address"
        | None, None, None => Ok (ca_bound c)
        end
  end.
(** [Listener::bindTcp]: the endpoint bound. *)
Definition bindTcp (endpoint : Endpoint) (backlog : Z) : N Endpoint :=
  if backlog <=? 0 then s_lift (fail ErrorCode.InvalidArgument "listen backlog must be positive")
  else
    let& resolved := ask (ne_resolve env) in
    match resolved with
    | None | Some [] =>
        s_lift (fail_detail ErrorCode.OpenFailed "cannot resolve listen address" (Endpoint_str endpoint))
    | Some candidates =>
        s_lift (bind_candidates (mkError ErrorCode.OpenFailed "no usable listen address" "") candidates)
    end.

(** A non-blocking connect: finished, or the error. *)
Definition connect_one (fuel : nat) (deadline : Z) (c : Candidate) : N (option Error) :=
  let refused e := mapSocketError e ErrorCode.ConnectionRefused "connect failed" in
  match ca_nonblocking c with
  | Some e => s_ret (Some (mapSocketError e ErrorCode.IoFailure "cannot change socket blocking mode"))
  | None =>
      let& connected :=
        match ca_connect c with
        | None => s_ret None
        | Some e =>
            if negb (bool_decide (e = EINPROGRESS) || bool_decide (e = EALREADY)) && negb (wouldBlock e)
            then s_ret (Some (refused e))
            else
              let& waited := s_try (waitFor fuel deadline) in
              s_ret (match waited with
                     | Fail e => Some e
                     | _ => if ca_getsockopt_fails c then Some (refused (EOther 0))
                            else refused <$> ca_pending c
                     end)
        end in
      s_ret (match connected, ca_blocking c with
             | Some e, _ => Some e
             | None, Some e => Some (mapSocketError e ErrorCode.IoFailure "cannot change socket blocking mode")
             | None, None => None
             end)
  end.
Fixpoint connect_candidates (fuel : nat) (deadline : Z) (failure : Error) (candidates : list Candidate)
    : N unit :=
  match candidates with
  | [] => s_lift (Fail failure)
  | c :: candidates =>
      if ca_socket_fails c then connect_candidates fuel deadline failure candidates
      else
        let& failed := connect_one fuel deadline c in
        match failed with
        | None => s_ret tt
        | Some e => connect_candidates fuel deadline e candidates
        end
  end.
(** [connectTcp]. *)
Definition connectTcp (fuel : nat) (endpoint : Endpoint) (timeout : Z) : N unit :=
  let& resolved := ask (ne_resolve env) in
  match resolved with
  | None | Some [] =>
      s_lift (fail_detail ErrorCode.OpenFailed "cannot resolve peer address" (Endpoint_str endpoint))
  | Some candidates =>
      let& now := monotonicMillis in
      connect_candidates fuel (now + Z.max timeout 1)
        (mkError ErrorCode.ConnectionRefused "no usable peer address" "") candidates
  end.
End net.

(** ** Lemmas *)

Section lemmas.
Context (env : NetEnv).

(** *** What was written *)

Lemma wrote_ask {A} (f : nat → A) bytes : keeps (λ s, so_written s = bytes) (ask f) (λ _, True).
Proof. by intros s. Qed.

Lemma wrote_wait fuel deadline bytes :
  keeps (λ s, so_written s = bytes) (waitFor env fuel deadline) (λ _, True).
Proof.
  induction fuel as [|fuel IH]; cbn [waitFor]; [by apply kept_lift|].
  apply (kept_bind _ _ _ (λ _, True)).
  { unfold remainingMillis. repeat case_match; try by apply kept_ret.
    apply (kept_bind _ _ _ (λ _, True)); [apply wrote_ask|]. intros now _. by apply kept_ret. }
  intros remaining _. case_match; [by apply kept_lift|].
  apply (kept_bind _ _ _ (λ _, True)); [by apply kept_modify|]. intros _ _.
  apply (kept_bind _ _ _ (λ _, True)); [apply wrote_ask|]. intros answer _.
  repeat case_match; try done; by (apply kept_ret || apply kept_lift).
Qed.

Lemma wrote_poll interval stopped timeout fuel deadline bytes :
  keeps (λ s, so_written s = bytes) (poll env interval stopped timeout fuel deadline) (λ _, True).
Proof.
  unfold poll. apply (kept_bind _ _ _ (λ _, True)); [apply wrote_ask|]. intros stop _.
  destruct stop; [by apply kept_lift|].
  apply (kept_bind _ _ _ (λ _, True)); [apply wrote_ask|]. intros now _.
  apply (kept_bind _ _ _ (λ _, True)); [eapply kept_true, kept_try, wrote_wait|]. intros ready _.
  destruct ready; try by apply kept_ret.
  apply (kept_bind _ _ _ (λ _, True)).
  { unfold after_wait. repeat case_match; try by apply kept_ret.
    apply (kept_bind _ _ _ (λ _, True)); [apply wrote_ask|]. intros now' _. by apply kept_ret. }
  intros ended _. destruct ended; by (apply kept_ret || apply kept_lift).
Qed.

(** The [Socket] after, when the rest of the data is written from [s1] on. *)
Lemma write_loop_wrote fuel data deadline s s' r :
  write_loop env fuel data deadline s = (s', r) →
  ∃ n, (n <= length data)%nat ∧ so_written s' = so_written s ++ take n data
    ∧ (is_ok r = true ↔ n = length data).
Proof.
  revert data s. induction fuel as [|fuel IH]; intros [|b data] s; cbn [write_loop];
    [intros [= <- <-]; exists 0%nat; by rewrite app_nil_r| |intros [= <- <-]; exists 0%nat; by rewrite app_nil_r|].
  { intros [= <- <-]. exists 0%nat. rewrite take_0, app_nil_r. by split_and!; [lia|..]. }
  set (rest := b :: data).
  assert (∀ s1 (r1 : Result unit), so_written s1 = so_written s → is_ok r1 = false →
            ∃ n, (n <= length rest)%nat ∧ so_written s1 = so_written s ++ take n rest
              ∧ (is_ok r1 = true ↔ n = length rest)) as Hstop.
  { intros s1 r1 -> ->. exists 0%nat. rewrite take_0, app_nil_r. split_and!; [lia|done|by split]. }
  assert (∀ s1, so_written s1 = so_written s → write_loop env fuel rest deadline s1 = (s', r) →
            ∃ n, (n <= length rest)%nat ∧ so_written s' = so_written s ++ take n rest
              ∧ (is_ok r = true ↔ n = length rest)) as Hagain.
  { intros s1 <- Hrun. by apply IH. }
  unfold s_bind at 1. pose proof (wrote_poll kSocketPollMillis cancelled id fuel deadline _ s eq_refl) as [Hp _].
  unfold socket_poll. destruct (poll _ _ _ _ _ _ s) as [s1 [ready|e|why]]; cbn [fst] in Hp;
    [|intros [= <- <-]; by apply Hstop..].
  destruct ready; cbn [negb]; [|by apply Hagain].
  unfold s_bind at 1, ask. set (answer := ne_send env (so_calls s1)).
  destruct (Z.gtb_spec (sa_sent answer) 0) as [Hsent|].
  - set (sent := Z.to_nat _). unfold s_bind, s_modify. intros Hrun.
    apply IH in Hrun as (n & Hn & Hw & Hr).
    assert (0 < sent <= length rest)%nat as Hle.
    { subst sent. unfold zlen, kMaxWriteBytes. cbn [length] in *. subst rest. cbn [length]. lia. }
    rewrite length_drop in *. exists (sent + n)%nat. split; [lia|]. split.
    + rewrite Hw. cbn. rewrite Hp, <- app_assoc. f_equal.
      by rewrite <- (take_drop sent (take (sent + n) rest)), take_take, skipn_firstn_comm,
        Nat.min_l, Nat.add_sub' by lia.
    + rewrite Hr. lia.
  - destruct (wouldBlock _); [by apply Hagain|]. intros [= <- <-]. by apply Hstop.
Qed.

(** *** Deadlines *)

(** The clock has passed the deadline from the call [n] on. *)
Definition late (n : nat) (deadline : Z) : Prop := ∀ k, (n <= k)%nat → deadline <= ne_now env k.
(** The operation ends in one of its results, having made [calls] more at least. *)
Definition ends_after {A} (calls : nat) (m : N A) (s : Socket) (Q : Result A → Socket → Prop) : Prop :=
  let '(s', r) := m s in
  (∀ why, r ≠ Abort why) ∧ (so_calls s + calls <= so_calls s')%nat ∧ Q r s'.

Lemma waitFor_ends n fuel deadline s :
  0 <= deadline → late n deadline → (n - so_calls s < fuel)%nat →
  ends_after 0 (waitFor env fuel deadline) s
    (λ r _, (n <= so_calls s)%nat → r = Fail deadline_elapsed).
Proof.
  intros Hd Hlate. revert s. induction fuel as [|fuel IH]; intros s Hfuel; [lia|].
  unfold ends_after. cbn [waitFor]. unfold remainingMillis.
  rewrite (proj2 (Z.geb_le deadline 0)) by lia. cbn [andb].
  destruct (Z.eqb_spec deadline 0) as [->|Hne].
  { cbn. split_and!; [done|lia|done]. }
  destruct (Z.ltb_spec deadline 0); [lia|].
  unfold s_bind at 1 2, monotonicMillis, ask at 1, s_ret at 1.
  set (now := ne_now env (so_calls s)). destruct (Z.gtb_spec deadline now) as [Hearly|Hl].
  2: { cbn. split_and!; [done|lia|done]. }
  destruct (Z.eqb_spec (deadline - now) 0); [lia|].
  assert (so_calls s < n)%nat as Hcalls.
  { destruct (Nat.le_gt_cases n (so_calls s)) as [H1|H1]; [|done]. specialize (Hlate _ H1). unfold now in *. lia. }
  unfold s_bind at 1, s_modify, s_bind at 1, ask.
  destruct (ne_select env _) as [| |e]; cbn [so_wait so_next so_calls].
  - cbn. split_and!; [done|lia|lia].
  - cbn. split_and!; [done|lia|lia].
  - destruct (isInterruptedError e); [|cbn; split_and!; [done|lia|lia]].
    specialize (IH (so_next (so_wait (Some (if deadline - now <? 0 then 0 else deadline - now)) (so_next s)))).
    unfold ends_after in IH. destruct (waitFor env fuel deadline _) as [s' r].
    cbn [so_wait so_next so_calls] in IH. destruct IH as (Ha & Hc & Hr); [lia|].
    split_and!; [done|lia|lia].
Qed.

Lemma poll_until_spec interval deadline now :
  0 <= deadline → 0 <= now → 0 <= interval →
  0 <= poll_until interval deadline now <= deadline ∧ poll_until interval deadline now <= now + interval
  ∧ (deadline <= now → 0 < interval → poll_until interval deadline now = deadline).
Proof.
  intros Hd Hn Hi. unfold poll_until. rewrite (proj2 (Z.geb_le deadline 0)) by lia. cbn [andb].
  destruct (Z.ltb_spec deadline (now + interval)); lia.
Qed.

(** A pass of a polling loop ends; once the deadline has passed, it is the last
    one. *)
Lemma poll_ends n interval stopped timeout fuel deadline s :
  0 <= deadline → late n deadline → (∀ k, 0 <= ne_now env k) → 0 < interval →
  (n - so_calls s < fuel)%nat →
  ends_after 1 (poll env interval stopped timeout fuel deadline) s
    (λ r _, (n <= so_calls s)%nat → is_ok r = false).
Proof.
  intros Hd Hlate Hclock Hi Hfuel. unfold ends_after, poll.
  unfold s_bind at 1, interrupted, ask at 1. destruct (ne_interrupted env _).
  { cbn. split_and!; [done|lia|done]. }
  unfold s_bind at 1, monotonicMillis, ask at 1. cbn [so_next so_calls].
  set (now := ne_now env (S (so_calls s))).
  destruct (poll_until_spec interval deadline now) as (Hslice & _ & Hpast); [done|apply Hclock|lia|].
  set (slice := poll_until _ _ _) in *.
  pose proof (waitFor_ends n fuel slice (so_next (so_next s))) as Hwait. unfold ends_after in Hwait.
  unfold s_bind at 1, s_try. destruct (waitFor env fuel slice _) as [s1 r1].
  cbn [so_next so_calls] in Hwait. destruct Hwait as (Ha & Hc & Hr); [lia| |lia|].
  { intros k Hk. specialize (Hlate k Hk). lia. }
  destruct r1 as [[]|e|why]; [| |by destruct (Ha why)].
  - cbn. split_and!; [done|lia|]. intros Hn. by discriminate Hr; lia.
  - unfold s_bind at 1, after_wait. case_bool_decide as Hcode.
    2: { cbn. split_and!; [done|lia|done]. }
    rewrite (proj2 (Z.geb_le deadline 0)) by lia. unfold s_bind at 1, monotonicMillis, ask.
    destruct (Z.geb_spec (ne_now env (so_calls s1)) deadline) as [|Hearly].
    { cbn. split_and!; [done|lia|done]. }
    cbn. split_and!; [done|lia|]. intros Hn. specialize (Hlate (so_calls s1)). lia.
Qed.

(** A loop of passes: after a pass it ends, or goes on from a later state. *)
Lemma loop_ends {A X} n fuel interval stopped timeout deadline (loop : X → N A) (k : bool → N A) s :
  0 <= deadline → late n deadline → (∀ i, 0 <= ne_now env i) → 0 < interval →
  (n - so_calls s + 1 < S fuel)%nat →
  (∀ x s2, (n - so_calls s2 + 1 < fuel)%nat → ends_after 0 (loop x) s2 (λ _ _, True)) →
  (∀ ready s1, (∀ x s2, (so_calls s1 <= so_calls s2)%nat →
                  ends_after 0 (loop x) s2 (λ _ _, True)) →
     ends_after 0 (k ready) s1 (λ _ _, True)) →
  ends_after 0 (s_bind (poll env interval stopped timeout fuel deadline) k) s (λ _ _, True).
Proof.
  intros Hd Hlate Hclock Hi Hfuel Hloop Hk.
  pose proof (poll_ends n interval stopped timeout fuel deadline s Hd Hlate Hclock Hi ltac:(lia)) as Hp.
  unfold ends_after in Hp |- *. unfold s_bind at 1.
  destruct (poll _ _ _ _ _ _ s) as [s1 [ready|e|why]]; destruct Hp as (Ha & Hc & Hr);
    [|split_and!; by (done || lia)|by destruct (Ha why)].
  assert (so_calls s < n)%nat as Hn.
  { destruct (Nat.le_gt_cases n (so_calls s)) as [H1|]; [by discriminate (Hr H1)|done]. }
  specialize (Hk ready s1). unfold ends_after in Hk at 2. destruct (k ready s1) as [s' r].
  destruct Hk as (Ha' & Hc' & _).
  - intros x s2 Hs2. apply Hloop; lia.
  - split_and!; [done|lia|done].
Qed.

(** Going on from a later state. *)
Lemma goes_on {A} (m : N A) s1 s2 :
  (so_calls s1 <= so_calls s2)%nat → ends_after 0 m s2 (λ _ _, True) →
  let '(s', r) := m s2 in (∀ why, r ≠ Abort why) ∧ (so_calls s1 + 0 <= so_calls s')%nat ∧ True.
Proof. unfold ends_after. destruct (m s2) as [s' r]. intros ? (? & ? & _). split_and!; by (done || lia). Qed.

Ltac ended := unfold ends_after; cbn; split_and!; by (done || lia).

(** The loops of the sockets end: the number of calls before the clock passes
    the deadline, and two, is enough fuel. *)
Lemma read_loop_ends n fuel size deadline s :
  0 <= deadline → late n deadline → (∀ k, 0 <= ne_now env k) → (n - so_calls s + 1 < fuel)%nat →
  ends_after 0 (read_loop env fuel size deadline) s (λ _ _, True).
Proof.
  intros Hd Hlate Hclock. revert s. induction fuel as [|fuel IH]; intros s Hfuel; [lia|].
  cbn [read_loop].
  apply (loop_ends n fuel _ _ _ deadline (λ _ : unit, read_loop env fuel size deadline)); try done.
  intros ready s1 Hagain. destruct ready; cbn [negb]; [|by apply (Hagain tt)].
  unfold ends_after, s_bind, ask. destruct (ne_recv env _) as [bytes|e].
  - destruct (take size bytes); ended.
  - destruct (wouldBlock e); [|ended]. apply goes_on; [cbn; lia|]. apply (Hagain tt). cbn. lia.
Qed.

Lemma write_loop_ends n fuel data deadline s :
  0 <= deadline → late n deadline → (∀ k, 0 <= ne_now env k) → (n - so_calls s + 1 < fuel)%nat →
  ends_after 0 (write_loop env fuel data deadline) s (λ _ _, True).
Proof.
  intros Hd Hlate Hclock. revert data s. induction fuel as [|fuel IH]; intros data s Hfuel; [lia|].
  destruct data as [|b data]; cbn [write_loop]; [ended|].
  apply (loop_ends n fuel _ _ _ deadline (λ d, write_loop env fuel d deadline)); try done.
  intros ready s1 Hagain. destruct ready; cbn [negb]; [|by apply Hagain].
  unfold ends_after, s_bind at 1, ask. destruct (_ >? 0).
  - unfold s_bind, s_modify. apply goes_on; [cbn; lia|]. apply Hagain. cbn. lia.
  - destruct (wouldBlock _); [|ended]. apply goes_on; [cbn; lia|]. apply Hagain. cbn. lia.
Qed.

Lemma accept_loop_ends n fuel deadline s :
  0 <= deadline → late n deadline → (∀ k, 0 <= ne_now env k) → (n - so_calls s + 1 < fuel)%nat →
  ends_after 0 (accept_loop env fuel deadline) s (λ _ _, True).
Proof.
  intros Hd Hlate Hclock. revert s. induction fuel as [|fuel IH]; intros s Hfuel; [lia|].
  cbn [accept_loop].
  apply (loop_ends n fuel _ _ _ deadline (λ _ : unit, accept_loop env fuel deadline)); try done.
  intros ready s1 Hagain. destruct ready; cbn [negb]; [|by apply (Hagain tt)].
  unfold ends_after, s_bind, ask. destruct (ne_accept env _) as [e|]; [|ended].
  destruct (wouldBlock e); [|ended]. apply goes_on; [cbn; lia|]. apply (Hagain tt). cbn. lia.
Qed.

(** *** The timeouts of [select] *)

(** Every wait so far had a timeout within the interval. *)
Definition brief (interval : Z) (s : Socket) : Prop :=
  Forall (λ t, ∃ z, t = Some z ∧ 0 < z <= interval) (so_waits s).
Definition monotonic : Prop := ∀ i j, (i <= j)%nat → ne_now env i <= ne_now env j.

Lemma brief_ask {A} interval (f : nat → A) : keeps (brief interval) (ask f) (λ _, True).
Proof. by intros s. Qed.

Lemma brief_wait interval fuel slice k s :
  monotonic → (k <= so_calls s)%nat → 0 <= slice <= ne_now env k + interval →
  brief interval s → brief interval (waitFor env fuel slice s).1.
Proof.
  intros Hm Hk Hs. revert s Hk. induction fuel as [|fuel IH]; intros s Hk Hb; [done|].
  cbn [waitFor]. unfold remainingMillis. rewrite (proj2 (Z.geb_le slice 0)) by lia. cbn [andb].
  destruct (Z.eqb_spec slice 0); [done|]. destruct (Z.ltb_spec slice 0); [lia|].
  unfold s_bind at 1 2, monotonicMillis, ask at 1, s_ret at 1.
  pose proof (Hm k (so_calls s) Hk) as Hnow. set (now := ne_now env (so_calls s)) in *.
  destruct (Z.gtb_spec slice now) as [Hlt|]; [|done].
  destruct (Z.eqb_spec (slice - now) 0); [lia|]. destruct (Z.ltb_spec (slice - now) 0); [lia|].
  unfold s_bind at 1, s_modify, s_bind at 1, ask.
  assert (brief interval (so_next (so_wait (Some (slice - now)) (so_next s)))) as Hb'.
  { unfold brief in *. cbn. apply Forall_app. split; [done|]. constructor; [|constructor].
    exists (slice - now). split; [done|lia]. }
  destruct (ne_select env _); [done..|]. destruct (isInterruptedError _); [|done].
  apply IH; [cbn; lia|done].
Qed.

Lemma brief_poll interval stopped timeout fuel deadline :
  monotonic → (∀ k, 0 <= ne_now env k) → 0 < interval →
  keeps (brief interval) (poll env interval stopped timeout fuel deadline) (λ _, True).
Proof.
  intros Hm Hc Hi s Hb. split; [|done]. unfold poll.
  unfold s_bind at 1, interrupted, ask at 1. destruct (ne_interrupted env _); [done|].
  unfold s_bind at 1, monotonicMillis, ask at 1. cbn [so_next so_calls].
  set (k := S (so_calls s)). set (slice := poll_until _ _ _).
  assert (0 <= slice <= ne_now env k + interval) as Hslice.
  { unfold slice, poll_until. specialize (Hc k). destruct (Z.geb_spec deadline 0); cbn [andb]; [|lia].
    destruct (Z.ltb_spec deadline (ne_now env k + interval)); lia. }
  pose proof (brief_wait interval fuel slice k (so_next (so_next s)) Hm ltac:(cbn; lia) Hslice Hb) as Hw.
  unfold s_bind at 1, s_try. destruct (waitFor _ _ _ _) as [s1 [[]|e|why]]; [done| |done].
  unfold s_bind at 1, after_wait. case_bool_decide; [|done]. destruct (deadline >=? 0); [|done].
  unfold s_bind at 1, monotonicMillis, ask. by destruct (_ >=? _).
Qed.

(** A loop of passes keeps what its passes keep. *)
Lemma brief_read fuel size deadline :
  monotonic → (∀ k, 0 <= ne_now env k) →
  keeps (brief kSocketPollMillis) (read_loop env fuel size deadline) (λ _, True).
Proof.
  intros Hm Hc. induction fuel as [|fuel IH]; cbn [read_loop]; [by apply kept_lift|].
  apply (kept_bind _ _ _ (λ _, True)); [by apply brief_poll|]. intros ready _.
  destruct ready; cbn [negb]; [|done].
  apply (kept_bind _ _ _ (λ _, True)); [apply brief_ask|]. intros answer _.
  repeat case_match; by (done || apply kept_lift || apply kept_ret).
Qed.
Lemma brief_write fuel data deadline :
  monotonic → (∀ k, 0 <= ne_now env k) →
  keeps (brief kSocketPollMillis) (write_loop env fuel data deadline) (λ _, True).
Proof.
  intros Hm Hc. revert data. induction fuel as [|fuel IH]; intros [|b data]; cbn [write_loop];
    try by (apply kept_ret || apply kept_lift).
  apply (kept_bind _ _ _ (λ _, True)); [by apply brief_poll|]. intros ready _.
  destruct ready; cbn [negb]; [|done].
  apply (kept_bind _ _ _ (λ _, True)); [apply brief_ask|]. intros answer _.
  destruct (_ >? _).
  - apply (kept_bind _ _ _ (λ _, True)); [by apply kept_modify|]. intros _ _. done.
  - destruct (wouldBlock _); [done|by apply kept_lift].
Qed.
Lemma brief_accept fuel deadline :
  monotonic → (∀ k, 0 <= ne_now env k) →
  keeps (brief kAcceptPollMillis) (accept_loop env fuel deadline) (λ _, True).
Proof.
  intros Hm Hc. induction fuel as [|fuel IH]; cbn [accept_loop]; [by apply kept_lift|].
  apply (kept_bind _ _ _ (λ _, True)); [by apply brief_poll|]. intros ready _.
  destruct ready; cbn [negb]; [|done].
  apply (kept_bind _ _ _ (λ _, True)); [apply brief_ask|]. intros answer _.
  repeat case_match; by (done || apply kept_lift || apply kept_ret).
Qed.
(** The operations, with the checks before their loops. *)
Lemma writeAll_run fuel data deadline s :
  writeAll env fuel data deadline s =
    if so_open s then write_loop env fuel data deadline s else (s, Fail not_open).
Proof. unfold writeAll, s_bind at 1, s_get. by destruct (so_open s). Qed.
Lemma readSome_run fuel size deadline s :
  readSome env fuel size deadline s =
    if negb (so_open s) then (s, Fail not_open)
    else if (size =? 0)%nat then (s, fail ErrorCode.InvalidArgument "read buffer must not be empty")
    else if Z.of_nat size >? kMaxReadBytes
    then (s, fail_detail ErrorCode.CapacityExceeded "read request exceeds the transport maximum"
               (to_string (Z.of_nat size)))
    else read_loop env fuel size deadline s.
Proof. unfold readSome, s_bind at 1, s_get. by repeat case_match. Qed.
Lemma accept_run fuel deadline s :
  accept env fuel deadline s =
    if so_open s then accept_loop env fuel deadline s
    else (s, fail ErrorCode.ConnectionClosed "listener is closed").
Proof. unfold accept, s_bind at 1, s_get. by destruct (so_open s). Qed.
End lemmas.

(** ** Properties *)

(** C22: what a write hands over. Whatever the calls answer - partial sends,
    sockets that are not ready, interruptions, errors, a deadline - [writeAll]
    hands the kernel a prefix of the data, each byte once and in order, and it
    reports success exactly when that is all of it; so a frame is sent whole or
    an error is reported, and the byte counter moves only with a whole frame. *)
Theorem writeAll_exact env fuel s :
  so_open s = true →
  (∀ data deadline,
     let '(s', r) := writeAll env fuel data deadline s in
     ∃ n, (n <= length data)%nat ∧ so_written s' = so_written s ++ take n data
       ∧ (is_ok r = true ↔ n = length data))
  ∧ ∀ type flags payload limit deadline bytesSent,
     let '(s', r) := framed_send env fuel type flags payload limit deadline bytesSent s in
     ∀ total, r = Ok total →
       ∃ frame, encodeFrame type flags payload limit = Ok frame
         ∧ so_written s' = so_written s ++ frame
         ∧ total = default bytesSent (checkedAdd 64 bytesSent (zlen frame)).
Proof.
  intros Hopen.
  split.
  - intros data deadline. rewrite writeAll_run, Hopen. destruct (write_loop env fuel data deadline s) as [s' r] eqn:E.
    by apply write_loop_wrote in E.
  - intros type flags payload limit deadline bytesSent. unfold framed_send, s_bind, s_lift.
    destruct (encodeFrame _ _ _ _) as [frame|e|why]; [|done..]. rewrite writeAll_run, Hopen.
    destruct (write_loop env fuel frame deadline s) as [s' [[]|e|why]] eqn:E; [|done..].
    apply write_loop_wrote in E as (n & _ & Hwritten & Hn). intros total [= <-]. exists frame.
    rewrite (proj1 Hn eq_refl), firstn_all in Hwritten. done.
Qed.

(** Sockets that are always ready; [send] takes three bytes at a time. *)
Definition ready_env : NetEnv :=
  mkNetEnv (λ n, Z.of_nat n) (λ _, false) (λ _, Ready) (λ _, Received [Byte.x41])
    (λ _, mkSendAnswer 3 EAGAIN) (λ _, None) (λ _, None) (λ _, 0).
Definition new_socket : Socket := mkSocket true [] [] 0.

Lemma writeAll_exact_witness :
  let '(s', r) := writeAll ready_env 4 (repeat Byte.x41 8) 1000 new_socket in
  ∃ n, (n <= 8)%nat ∧ so_written s' = take n (repeat Byte.x41 8) ∧ (is_ok r = true ↔ n = 8%nat).
Proof. exact (proj1 (writeAll_exact ready_env 4 new_socket eq_refl) (repeat Byte.x41 8) 1000). Defined.

(** Deadlines hold. When the clock does not run backwards and passes the
    deadline, reading, writing and accepting end, whatever the other calls
    answer - a socket that is never ready, waits that are always interrupted,
    sends that keep answering that they would block; and no single wait for readiness is longer
    than the poll interval, so that a cancellation is noticed within it. *)
Theorem socket_calls_end env n deadline fuel s
    (Hdeadline : 0 <= deadline) (Hlate : late env n deadline)
    (Hclock : ∀ k, 0 <= ne_now env k) (Hmonotonic : monotonic env)
    (Hfuel : (n - so_calls s + 1 < fuel)%nat) (Hbrief : brief kSocketPollMillis s) :
  (∀ size, (∀ why, (readSome env fuel size deadline s).2 ≠ Abort why)
     ∧ brief kSocketPollMillis (readSome env fuel size deadline s).1)
  ∧ (∀ data, (∀ why, (writeAll env fuel data deadline s).2 ≠ Abort why)
     ∧ brief kSocketPollMillis (writeAll env fuel data deadline s).1)
  ∧ (∀ why, (accept env fuel deadline s).2 ≠ Abort why)
  ∧ brief kAcceptPollMillis (accept env fuel deadline s).1.
Proof.
  split; [|split].
  - intros size. rewrite readSome_run.
    pose proof (read_loop_ends env n fuel size deadline s Hdeadline Hlate Hclock Hfuel) as Hends.
    destruct (brief_read env fuel size deadline Hmonotonic Hclock s Hbrief) as [Hb _].
    unfold ends_after in Hends. repeat case_match; try done. by destruct Hends.
  - intros data. rewrite writeAll_run.
    pose proof (write_loop_ends env n fuel data deadline s Hdeadline Hlate Hclock Hfuel) as Hends.
    destruct (brief_write env fuel data deadline Hmonotonic Hclock s Hbrief) as [Hb _].
    unfold ends_after in Hends. repeat case_match; try done. by destruct Hends.
  - rewrite accept_run.
    pose proof (accept_loop_ends env n fuel deadline s Hdeadline Hlate Hclock Hfuel) as Hends.
    destruct (brief_accept env fuel deadline Hmonotonic Hclock s Hbrief) as [Hb _].
    unfold ends_after in Hends. repeat case_match; try done. by destruct Hends.
Qed.

(** A peer that never becomes ready, and waits that are always interrupted. *)
Definition stubborn_env : NetEnv :=
  mkNetEnv (λ n, Z.of_nat n) (λ _, false) (λ _, SelectFailed EINTR) (λ _, RecvFailed EAGAIN)
    (λ _, mkSendAnswer (-1) EAGAIN) (λ _, Some EAGAIN) (λ _, None) (λ _, 0).

Lemma socket_calls_end_witness :
  (∀ why, (readSome stubborn_env 20 1 10 new_socket).2 ≠ Abort why)
  ∧ (∀ why, (writeAll stubborn_env 20 [Byte.x41] 10 new_socket).2 ≠ Abort why).
Proof.
  destruct (socket_calls_end stubborn_env 10 10 20 new_socket) as (Hr & Hw & _).
  - discriminate.
  - intros k Hk. cbn. lia.
  - intros k. cbn. lia.
  - intros i j Hij. cbn. lia.
  - cbn. lia.
  - constructor.
  - split; [apply Hr|apply Hw].
Defined.
