(* ===== verification/Distributor.v ===== *)
(** * The distributor

    Models [Distributor] of include/cf/distributor.hpp and src/distributor.cpp:
    the authority it opens with, its state helpers, the scheduler, and the
    session with one target: handshake, reconciliation, offer, transfer,
    activation and acknowledgement. (Its control surface is in
    DistributorControl.v.)

    The C++ class has one mutex over the durable state and a pool of workers,
    one per target session. An operation here is the sequence of steps of one
    thread; what the other threads did before a locked region is the
    environment's answer [env_others] to the [lock] that opens the region, so
    that a theorem about an operation holds for every interleaving its
    hypotheses on [env_others] allow. What the operating system and the peer
    answer is in the environment too, indexed by the number of calls made so
    far. *)

From stdpp Require Import gmap sorting.
From Stdlib Require Import Strings.Byte.
From S2P Require Import Prelude Result StdMap Checked Hash Ids Text Codec Lifecycle Policy Files.
From S2P Require Import Journal Snapshot Artifact ArtifactStore Endpoint FaultPlan Frame Records.
From S2P Require Import Messages Protocol Reconciliation State Convergence Store Effects.

(** ** Constants *)

Definition kMaxStepsPerDelivery : nat := 16.
Definition kMaxSessionErrors : Z := 3.

Definition isRetryableFromTarget (c : ErrorCode) : bool :=
  match retryDirectiveFor c with
  | RetryDirective.RetryNow | RetryDirective.RetryWithBackoff | RetryDirective.RetryNewSession
  | RetryDirective.RetryAfterReconcile => true
  | _ => false
  end.

Definition isTerminalRejection (c : ErrorCode) : bool :=
  bool_decide (c ∈ [ErrorCode.GuaranteeUnsupported; ErrorCode.SchemaUnsupported;
                    ErrorCode.OversizePayload; ErrorCode.InvalidArgument;
                    ErrorCode.UnsupportedVersion; ErrorCode.UnsupportedFeature;
                    ErrorCode.PolicyDenied; ErrorCode.CapabilityMismatch]).

(** ** Options, environment, world *)

Record DistributorOptions := mkDistributorOptions {
  o_nodeId : NodeId;
  o_stateDirectory : string;
  o_artifactRoot : string;
  o_maxArtifactBytes : Z;
  o_maxStoreBytes : Z;
  o_maxArtifacts : Z;
  o_policy : DistributorPolicy;
  o_key : list byte;
  o_authenticate : bool;
  o_controlHost : string;
  o_faults : FaultPlan;
}.

(** What the threads of the process share. *)
Record Shared := mkShared {
  sh_fs : FileSystem;
  sh_store : Store ControllerState;
  sh_artifacts : ArtifactStore;
  sh_claimed : gset string;
  sh_lastAttempt : gmap string Z;
  (** [std::set], walked in order *)
  sh_requests : list (string * unit);
}.

(** The shared part, and what one thread holds: its connection (frames sent,
    frames to come, whether it is open), the chunks sent in the session, and
    the number of calls made. *)
Record World := mkWorld {
  w_shared : Shared;
  w_sent : list Message;
  w_inbox : list (Result Frame);
  w_open : bool;
  w_chunksSent : Z;
  w_calls : nat;
}.

Record Env := mkEnv {
  env_others : nat → Shared → Shared;
  env_append : nat → WriteOutcome;
  (** [connectTcp], and the frames its peer will deliver *)
  env_dial : nat → Result (list (Result Frame));
  env_send_fails : nat → option Error;
  env_stop : nat → bool;
  env_random : nat → list byte;
  env_now : nat → Z;
  env_ingest : nat → IngestFaults;
  env_verify : nat → Digest → VerifyFaults;
  env_reader_fails : nat → bool;
  env_read : nat → ReadFault;
  env_compact : nat → AtomicFaults * list byte * RestartOutcome;
}.

Definition set_fs fs s := mkShared fs (sh_store s) (sh_artifacts s) (sh_claimed s)
  (sh_lastAttempt s) (sh_requests s).
Definition set_store st s := mkShared (sh_fs s) st (sh_artifacts s) (sh_claimed s)
  (sh_lastAttempt s) (sh_requests s).
Definition set_artifacts a s := mkShared (sh_fs s) (sh_store s) a (sh_claimed s)
  (sh_lastAttempt s) (sh_requests s).
Definition set_claimed c s := mkShared (sh_fs s) (sh_store s) (sh_artifacts s) c
  (sh_lastAttempt s) (sh_requests s).
Definition set_lastAttempt l s := mkShared (sh_fs s) (sh_store s) (sh_artifacts s) (sh_claimed s)
  l (sh_requests s).
Definition set_requests r s := mkShared (sh_fs s) (sh_store s) (sh_artifacts s) (sh_claimed s)
  (sh_lastAttempt s) r.

Definition set_shared s w := mkWorld s (w_sent w) (w_inbox w) (w_open w) (w_chunksSent w) (w_calls w).
Definition set_sent l w := mkWorld (w_shared w) l (w_inbox w) (w_open w) (w_chunksSent w) (w_calls w).
Definition set_inbox l w := mkWorld (w_shared w) (w_sent w) l (w_open w) (w_chunksSent w) (w_calls w).
Definition set_open b w := mkWorld (w_shared w) (w_sent w) (w_inbox w) b (w_chunksSent w) (w_calls w).
Definition set_chunksSent n w := mkWorld (w_shared w) (w_sent w) (w_inbox w) (w_open w) n (w_calls w).
Definition next_call w := mkWorld (w_shared w) (w_sent w) (w_inbox w) (w_open w) (w_chunksSent w)
  (S (w_calls w)).

Definition shared_state (s : Shared) : ControllerState := state_ (sh_store s).

Abbreviation M := (SM World).

(** ** Records *)

Definition DeliveryRecord_default : DeliveryRecord :=
  mkDeliveryRecord id_empty id_empty id_empty id_empty id_empty id_empty num_unset num_unset
    digest_unset id_empty num_unset 0 GuaranteeRequirement.RequireAtomic ApplyGuarantee.AtomicActivate
    DeliveryState.Prepared num_unset 0 ErrorCode.Ok RetryDirective.DoNotRetry "" [] num_unset
    opaque_unset num_unset opaque_unset false false 0 0.
Definition TargetRuntime_default : TargetRuntime :=
  mkTargetRuntime id_empty TargetClass.Unspecified ApplyGuarantee.AtomicActivate num_unset
    opaque_unset num_unset digest_unset id_empty 0 false 0 0 false id_empty num_unset digest_unset "".

(** The assignable fields of a delivery: state and outcome; retry budget;
    events and time of the last change; authority; closing flags. *)
Definition dr_outcome st c detail (r : DeliveryRecord) := mkDeliveryRecord (dr_id r) (dr_setId r)
  (dr_rolloutSet r) (dr_target r) (dr_key r) (dr_artifact r) (dr_revision r) (dr_generation r)
  (dr_digest r) (dr_schema r) (dr_schemaVersion r) (dr_sizeBytes r) (dr_requirement r)
  (dr_effectiveGuarantee r) st (dr_attempt r) (dr_failures r) c (retryDirectiveFor c) detail
  (dr_events r) (dr_authorityEpoch r) (dr_authorityIncarnation r) (dr_targetTerm r)
  (dr_targetIncarnation r) (dr_acknowledgedFromReconcile r) (dr_superseded r) (dr_createdAtMillis r)
  (dr_updatedAtMillis r).
Definition dr_budget attempt failures (r : DeliveryRecord) := mkDeliveryRecord (dr_id r) (dr_setId r)
  (dr_rolloutSet r) (dr_target r) (dr_key r) (dr_artifact r) (dr_revision r) (dr_generation r)
  (dr_digest r) (dr_schema r) (dr_schemaVersion r) (dr_sizeBytes r) (dr_requirement r)
  (dr_effectiveGuarantee r) (dr_state r) attempt failures (dr_lastError r) (dr_lastDirective r)
  (dr_lastDetail r) (dr_events r) (dr_authorityEpoch r) (dr_authorityIncarnation r) (dr_targetTerm r)
  (dr_targetIncarnation r) (dr_acknowledgedFromReconcile r) (dr_superseded r) (dr_createdAtMillis r)
  (dr_updatedAtMillis r).
(** [events.push_back], then the oldest are dropped. *)
Definition bounded_events (events : list LifecycleEvent) (event : LifecycleEvent)
    : list LifecycleEvent :=
  let events := events ++ [event] in drop (length events - Z.to_nat kMaxEventsPerDelivery) events.
Definition dr_event event now (r : DeliveryRecord) := mkDeliveryRecord (dr_id r) (dr_setId r)
  (dr_rolloutSet r) (dr_target r) (dr_key r) (dr_artifact r) (dr_revision r) (dr_generation r)
  (dr_digest r) (dr_schema r) (dr_schemaVersion r) (dr_sizeBytes r) (dr_requirement r)
  (dr_effectiveGuarantee r) (dr_state r) (dr_attempt r) (dr_failures r) (dr_lastError r)
  (dr_lastDirective r) (dr_lastDetail r) (bounded_events (dr_events r) event) (dr_authorityEpoch r)
  (dr_authorityIncarnation r) (dr_targetTerm r) (dr_targetIncarnation r)
  (dr_acknowledgedFromReconcile r) (dr_superseded r) (dr_createdAtMillis r) now.
Definition dr_authority epoch incarnation (r : DeliveryRecord) := mkDeliveryRecord (dr_id r) (dr_setId r)
  (dr_rolloutSet r) (dr_target r) (dr_key r) (dr_artifact r) (dr_revision r) (dr_generation r)
  (dr_digest r) (dr_schema r) (dr_schemaVersion r) (dr_sizeBytes r) (dr_requirement r)
  (dr_effectiveGuarantee r) (dr_state r) (dr_attempt r) (dr_failures r) (dr_lastError r)
  (dr_lastDirective r) (dr_lastDetail r) (dr_events r) epoch incarnation (dr_targetTerm r)
  (dr_targetIncarnation r) (dr_acknowledgedFromReconcile r) (dr_superseded r) (dr_createdAtMillis r)
  (dr_updatedAtMillis r).
Definition dr_closing fromReconcile superseded (r : DeliveryRecord) := mkDeliveryRecord (dr_id r)
  (dr_setId r) (dr_rolloutSet r) (dr_target r) (dr_key r) (dr_artifact r) (dr_revision r)
  (dr_generation r) (dr_digest r) (dr_schema r) (dr_schemaVersion r) (dr_sizeBytes r)
  (dr_requirement r) (dr_effectiveGuarantee r) (dr_state r) (dr_attempt r) (dr_failures r)
  (dr_lastError r) (dr_lastDirective r) (dr_lastDetail r) (dr_events r) (dr_authorityEpoch r)
  (dr_authorityIncarnation r) (dr_targetTerm r) (dr_targetIncarnation r) fromReconcile superseded
  (dr_createdAtMillis r) (dr_updatedAtMillis r).

(** [detail.resize(kMaxDeliveryDetailBytes)] when it is longer. *)
Definition bounded_detail (detail : string) : string :=
  str_take (Z.to_nat kMaxDeliveryDetailBytes) detail.

Definition transition_event (s : ControllerState) (r : DeliveryRecord) (to : DeliveryState)
    (kind : EvidenceKind) (c : ErrorCode) (fromReconciliation : bool) (now : Z) (detail : string)
    : LifecycleEvent :=
  mkLifecycleEvent kind (dr_state r) to (dr_generation r) (dr_digest r) c (retryDirectiveFor c)
    (cs_epoch s) (cs_incarnation s) (dr_targetTerm r) (dr_targetIncarnation r) fromReconciliation now
    detail.
(** The record [recordTransition] writes. *)
Definition transitioned (s : ControllerState) (r : DeliveryRecord) (to : DeliveryState)
    (kind : EvidenceKind) (c : ErrorCode) (fromReconciliation : bool) (now : Z) (detail : string)
    : DeliveryRecord :=
  dr_event (transition_event s r to kind c fromReconciliation now detail) now
    (dr_authority (cs_epoch s) (cs_incarnation s) (dr_outcome to c detail r)).
(** The record [noteEvent] writes: the state does not change. *)
Definition noted (s : ControllerState) (r : DeliveryRecord) (kind : EvidenceKind) (now updated : Z)
    (detail : string) : DeliveryRecord :=
  dr_event (mkLifecycleEvent kind (dr_state r) (dr_state r) (dr_generation r) (dr_digest r)
              ErrorCode.Ok RetryDirective.DoNotRetry (cs_epoch s) (cs_incarnation s) (dr_targetTerm r)
              (dr_targetIncarnation r) false now detail) updated r.

(** What a failure says about the next step. *)
Definition failure_detail (c : ErrorCode) (detail : string) : string :=
  if isIndeterminateCode c
  then detail +:+ "; the outcome at the target is unknown, so the next step is reconciliation"
  else if isFencingCode c
  then detail +:+ "; the operation was fenced as stale authority, generation or replay"
  else detail.

(** The assignable fields of a target runtime. *)
Definition tr_identity id klass guarantee term incarnation (r : TargetRuntime) := mkTargetRuntime id
  klass guarantee term incarnation (tr_committedGeneration r) (tr_committedDigest r)
  (tr_committedArtifact r) (tr_lastContactMillis r) (tr_contactEstablishedThisProcess r)
  (tr_sessionsEstablished r) (tr_restartsObserved r) (tr_applyPrepared r) (tr_preparedDeployment r)
  (tr_preparedGeneration r) (tr_preparedDigest r) (tr_endpoint r).
Definition tr_committed generation digest artifact contact (r : TargetRuntime) := mkTargetRuntime
  (tr_id r) (tr_klass r) (tr_guarantee r) (tr_term r) (tr_incarnation r) generation digest artifact
  contact (tr_contactEstablishedThisProcess r) (tr_sessionsEstablished r) (tr_restartsObserved r)
  (tr_applyPrepared r) (tr_preparedDeployment r) (tr_preparedGeneration r) (tr_preparedDigest r)
  (tr_endpoint r).
Definition tr_counters sessions restarts (r : TargetRuntime) := mkTargetRuntime (tr_id r) (tr_klass r)
  (tr_guarantee r) (tr_term r) (tr_incarnation r) (tr_committedGeneration r) (tr_committedDigest r)
  (tr_committedArtifact r) (tr_lastContactMillis r) (tr_contactEstablishedThisProcess r) sessions
  restarts (tr_applyPrepared r) (tr_preparedDeployment r) (tr_preparedGeneration r)
  (tr_preparedDigest r) (tr_endpoint r).
Definition tr_window prepared deployment generation digest (r : TargetRuntime) := mkTargetRuntime
  (tr_id r) (tr_klass r) (tr_guarantee r) (tr_term r) (tr_incarnation r) (tr_committedGeneration r)
  (tr_committedDigest r) (tr_committedArtifact r) (tr_lastContactMillis r)
  (tr_contactEstablishedThisProcess r) (tr_sessionsEstablished r) (tr_restartsObserved r) prepared
  deployment generation digest (tr_endpoint r).
Definition tr_address endpoint (r : TargetRuntime) := mkTargetRuntime (tr_id r) (tr_klass r)
  (tr_guarantee r) (tr_term r) (tr_incarnation r) (tr_committedGeneration r) (tr_committedDigest r)
  (tr_committedArtifact r) (tr_lastContactMillis r) (tr_contactEstablishedThisProcess r)
  (tr_sessionsEstablished r) (tr_restartsObserved r) (tr_applyPrepared r) (tr_preparedDeployment r)
  (tr_preparedGeneration r) (tr_preparedDigest r) endpoint.

(** [for (entry : state.deliveries)] with a filter. *)
Definition deliveries_where (p : DeliveryRecord → bool) (s : ControllerState) : list DeliveryRecord :=
  List.filter p (map snd (cs_deliveries s)).

(** The order in which a session takes the deliveries of its target. *)
Definition session_le (a b : DeliveryRecord) : Prop :=
  if decide (dr_generation a = dr_generation b)
  then key_cmp (str (dr_id a)) (str (dr_id b)) ≠ Gt
  else value (dr_generation a) <= value (dr_generation b).
#[global] Instance session_le_dec : RelDecision session_le.
Proof. intros a b. unfold session_le. case_decide; apply _. Defined.

(** The session with a target. *)
Record SessionContext := mkSessionContext {
  sc_target : TargetId;
  sc_endpoint : Endpoint;
  sc_targetTerm : Term;
  sc_targetIncarnation : IncarnationId;
  sc_peerMaxPayload : Z;
  sc_report : option ReconcileReportMessage;
}.

Definition result_str {A} (r : Result A) : string :=
  match r with Fail e => Error_str e | _ => errorCodeName ErrorCode.Ok end.

Section distributor.
Context (opts : DistributorOptions) (env : Env).

(** ** Primitive steps *)

(** One answer of the environment. *)
Definition call {A} (f : nat → A) : M A := λ w, (next_call w, Ok (f (w_calls w))).
(** [std::lock_guard guard(stateMutex_)]: what the others did comes first. *)
Definition lock : M unit := λ w,
  (set_shared (env_others env (w_calls w) (w_shared w)) (next_call w), Ok tt).
Definition get_shared : M Shared := s_get w_shared.
Definition modify_shared (f : Shared → Shared) : M unit :=
  s_modify (λ w, set_shared (f (w_shared w)) w).
(** Reading the durable state in a locked region. *)
Definition locked_state : M ControllerState :=
  do& lock in s_get (λ w, shared_state (w_shared w)).

(** [store_->commit] in the region that is open. *)
Definition m_commit (type : JournalRecordType) (record : Writer) : M unit :=
  let& payload := s_lift record in
  let& outcome := call (env_append env) in
  λ w, let s := w_shared w in
       let '(fs, st, r) := commit outcome (sh_store s) type payload (sh_fs s) in
       (set_shared (set_store st (set_fs fs s)) w, r).

Definition m_now : M Z := call (env_now env).
Definition stopRequested : M bool := call (env_stop env).

(** [FramedConnection::send] on a connection with this payload limit. *)
Definition send_framed (limit : Z) (type : FrameType) (flags : Z) (payload : list byte) : M unit :=
  let& _ := s_lift (encodeFrame type flags payload limit) in
  let& failure := call (env_send_fails env) in
  match failure with
  | Some e => s_lift (Fail e)
  | None => s_modify (λ w, set_sent (w_sent w ++ [mkMessage type flags payload]) w)
  end.
Definition m_send : FrameType → Z → list byte → M unit :=
  send_framed (maxPayloadBytes (o_policy opts)).
Definition send_encoded (type : FrameType) (encoded : Result (list byte)) : M unit :=
  let& payload := s_lift encoded in m_send type 0 payload.
(** [FramedConnection::receive]; an exhausted inbox is an idle peer. *)
Definition m_receive : M Frame := λ w,
  match w_inbox w with
  | [] => (w, fail ErrorCode.PeerIdleTimeout "no frame arrived before the deadline")
  | frame :: inbox => (set_inbox inbox w, frame)
  end.
Definition frame_is (type : FrameType) (frame : Frame) : bool :=
  bool_decide (ftype (header frame) = type).
Definition unexpected {A} (what : string) (frame : Frame) : M A :=
  s_lift (fail_detail ErrorCode.UnexpectedMessage what (frameTypeName (ftype (header frame)))).

(** ** State helpers *)

Definition epoch : M Epoch := let& s := locked_state in s_ret (cs_epoch s).
Definition incarnation : M IncarnationId := let& s := locked_state in s_ret (cs_incarnation s).

Definition snapshotDelivery (id : DeploymentId) : M DeliveryRecord :=
  let& s := locked_state in s_ret (default DeliveryRecord_default (findDelivery id s)).

Definition decisionInputFor (record : DeliveryRecord) (now : Z) : M DecisionInput :=
  let& s := locked_state in s_ret (buildDecisionInput s (o_policy opts) record now).

Definition upsertTarget (runtime : TargetRuntime) : M unit :=
  do& lock in m_commit JournalRecordType.TargetUpsert (encodeTargetRuntime runtime).
Definition upsertDelivery (record : DeliveryRecord) : M unit :=
  do& lock in m_commit JournalRecordType.DeliveryUpsert (encodeDeliveryRecord record).

Definition mark_contact (target : TargetId) (current : bool) (atMillis : Z) (s : ControllerState)
    : ControllerState :=
  match findTarget target s with
  | None => s
  | Some runtime =>
      let runtime := set_contact current runtime in
      let runtime := if atMillis >? 0
                     then tr_committed (tr_committedGeneration runtime) (tr_committedDigest runtime)
                            (tr_committedArtifact runtime) atMillis runtime
                     else runtime in
      cs_set_targets (map_assign target runtime (cs_targets s)) s
  end.
Definition markContactCurrent (target : TargetId) (current : bool) (atMillis : Z) : M unit :=
  do& lock in
  modify_shared (λ s, set_store (set_state (mark_contact target current atMillis (shared_state s))
                                   (sh_store s)) s).

(** [recordTransition]: the record is changed in place; a failure leaves the
    caller nothing it goes on with. *)
Definition recordTransition (record : DeliveryRecord) (target : DeliveryState) (kind : EvidenceKind)
    (c : ErrorCode) (detail : string) (fromReconciliation : bool) : M DeliveryRecord :=
  let& _ := s_lift (applyTransition (dr_state record) target "distributor") in
  let detail := bounded_detail detail in
  let& s := locked_state in
  let& now := m_now in
  let record := transitioned s record target kind c fromReconciliation now detail in
  do& m_commit JournalRecordType.DeliveryUpsert (encodeDeliveryRecord record) in
  s_ret record.

Definition noteEvent (record : DeliveryRecord) (kind : EvidenceKind) (detail : string)
    : M DeliveryRecord :=
  let detail := bounded_detail detail in
  let& s := locked_state in
  let& now := m_now in
  let& updated := m_now in
  let record := noted s record kind now updated detail in
  do& m_commit JournalRecordType.DeliveryUpsert (encodeDeliveryRecord record) in
  s_ret record.

Definition recordFailure (record : DeliveryRecord) (c : ErrorCode) (detail : string)
    : M DeliveryRecord :=
  let detail := bounded_detail (failure_detail c detail) in
  match checkedAdd 32 (dr_failures record) 1, checkedAdd 64 (value (dr_attempt record)) 1 with
  | None, _ => s_lift (fail ErrorCode.ArithmeticOverflow "delivery failure counter exhausted")
  | _, None => s_lift (fail ErrorCode.ArithmeticOverflow "delivery attempt counter exhausted")
  | Some failures, Some attempt =>
      let record := dr_outcome (dr_state record) c detail
                      (dr_budget (fromValue attempt) failures record) in
      if bool_decide (dr_state record = DeliveryState.Failed)
      then noteEvent record EvidenceKind.FailureReported detail
      else recordTransition record DeliveryState.Failed EvidenceKind.FailureReported c detail false
  end.

Definition recordRejected (record : DeliveryRecord) (c : ErrorCode) (detail : string) : M unit :=
  let detail := bounded_detail detail in
  if bool_decide (dr_state record = DeliveryState.Rejected)
  then do& noteEvent record EvidenceKind.Refused detail in s_ret tt
  else
    let& record := recordTransition record DeliveryState.Rejected EvidenceKind.Refused c detail false in
    upsertDelivery record.

Definition recordRetired (record : DeliveryRecord) (reason : string) : M unit :=
  let reason := bounded_detail reason in
  if bool_decide (dr_state record = DeliveryState.Retired) then s_ret tt
  else
    let& record := recordTransition record DeliveryState.Retired EvidenceKind.Superseded
                     ErrorCode.Retired reason false in
    upsertDelivery (dr_closing (dr_acknowledgedFromReconcile record) true record).

Definition adoptActivation (record : DeliveryRecord) (fromReconciliation : bool) (detail : string)
    : M unit :=
  let& record :=
    if bool_decide (dr_state record = DeliveryState.Applied)
       || bool_decide (dr_state record = DeliveryState.Acknowledged)
    then s_ret record
    else recordTransition record DeliveryState.Applied EvidenceKind.ActivationReported ErrorCode.Ok
           detail fromReconciliation in
  let& s := locked_state in
  match findTarget (dr_target record) s with
  | None => s_ret tt
  | Some runtime =>
      if num_isSet (tr_committedGeneration runtime)
         && num_lt (dr_generation record) (tr_committedGeneration runtime)
      then s_ret tt
      else
        let& now := m_now in
        upsertTarget (tr_committed (dr_generation record) (dr_digest record) (dr_artifact record) now
                        runtime)
  end.

Definition acknowledge (record : DeliveryRecord) (fromReconciliation : bool) (detail : string)
    : M unit :=
  if bool_decide (dr_state record = DeliveryState.Acknowledged) then
    if fromReconciliation && negb (dr_acknowledgedFromReconcile record)
    then upsertDelivery (dr_closing true (dr_superseded record) record)
    else s_ret tt
  else
    let& record := recordTransition record DeliveryState.Acknowledged
                     EvidenceKind.AcknowledgementRecorded ErrorCode.Ok detail fromReconciliation in
    upsertDelivery (dr_closing fromReconciliation (dr_superseded record) record).

Definition pending_of (target : TargetId) (r : DeliveryRecord) : bool :=
  bool_decide (dr_target r = target) && isPendingState (dr_state r).

Definition recordSessionFailure (target : TargetId) (c : ErrorCode) (detail : string) : M unit :=
  let& s := locked_state in
  do& s_for (deliveries_where (pending_of target) s)
        (λ record, do& s_try (recordFailure record c detail) in s_ret tt) in
  let& s := locked_state in
  match findTarget target s with
  | None => s_ret tt
  | Some runtime =>
      do& s_try (upsertTarget (set_contact false runtime)) in
      markContactCurrent target false 0
  end.

Definition rearmAfterRestart (target : TargetId) (newTerm : Term) : M unit :=
  let& s := locked_state in
  s_for (deliveries_where (λ r, bool_decide (dr_target r = target)
                                && bool_decide (dr_state r = DeliveryState.Failed)) s)
    (λ record,
      do& noteEvent (dr_budget (fromValue ((value (dr_attempt record) + 1) mod 2 ^ 64)) 0 record)
            EvidenceKind.Retried
            ("retry budget re-armed: the target came back with boot term "
             +:+ to_string (value newTerm)) in
      s_ret tt).

(** ** Session *)

(** The tag of the confirmation: over the acknowledgement with its own tag
    zeroed. *)
Definition confirm_tag (payload : list byte) : list byte :=
  if o_authenticate opts then hmacSha256 (o_key opts) (retag zero_tag payload) else zero_tag.

(** Whether the target presents an authority this controller moved past. *)
Definition fenced (existing : option TargetRuntime) (ack : HelloAckMessage) : Status :=
  match existing with
  | Some runtime =>
      if num_isSet (tr_term runtime) then
        if num_lt (ha_term ack) (tr_term runtime)
        then fail_detail ErrorCode.FencedIncarnation
               "the target presented an older boot term than the one already fenced"
               (to_string (value (ha_term ack)) +:+ " < " +:+ to_string (value (tr_term runtime)))
        else if bool_decide (ha_term ack = tr_term runtime) && opaque_isSet (tr_incarnation runtime)
                && negb (bool_decide (ha_incarnation ack = tr_incarnation runtime))
        then fail_detail ErrorCode.FencedIncarnation
               "a different incarnation claims an already observed boot term"
               (toHex (opaque_bytes (ha_incarnation ack)))
        else Ok tt
      else Ok tt
  | None => Ok tt
  end.

(** The target came back with a newer boot term. *)
Definition restarted (existing : option TargetRuntime) (ack : HelloAckMessage) : bool :=
  match existing with
  | Some runtime => num_isSet (tr_term runtime) && num_lt (tr_term runtime) (ha_term ack)
  | None => false
  end.

Definition greeted (target : TargetId) (existing : option TargetRuntime) (ack : HelloAckMessage)
    (now : Z) : TargetRuntime :=
  let runtime := default TargetRuntime_default existing in
  let restarts := if restarted existing ack then (tr_restartsObserved runtime + 1) mod 2 ^ 64
                  else tr_restartsObserved runtime in
  set_contact false
    (tr_counters ((tr_sessionsEstablished runtime + 1) mod 2 ^ 64) restarts
       (tr_committed (ha_committedGeneration ack) (ha_committedDigest ack) (ha_committedArtifact ack) now
          (tr_identity target (ha_targetClass ack) (ha_guarantee ack) (ha_term ack) (ha_incarnation ack)
             runtime))).

Definition handshake (target : TargetId) (endpoint : Endpoint) : M SessionContext :=
  let& e := epoch in
  let& i := incarnation in
  let& nonce := call (env_random env) in
  let& encoded := s_lift (encodeHello
    (mkHelloMessage (o_nodeId opts) e i (mkOpaque nonce) kWireVersion kWireVersion
       (maxPayloadBytes (o_policy opts)) kCapabilityKnownMask zero_tag)) in
  let& encoded := s_lift (if o_authenticate opts then sealAuthenticated encoded (o_key opts)
                          else Ok encoded) in
  do& m_send FrameType.Hello 0 encoded in
  let& response := m_receive in
  if frame_is FrameType.AuthReject response then
    let& reject := s_lift (decodeAuthReject (fpayload response)) in
    s_lift (fail_detail (ar_code reject) "target refused the session" (ar_detail reject))
  else if negb (frame_is FrameType.HelloAck response) then
    unexpected "expected a hello-ack from the target" response
  else
    let& ack := s_lift (decodeHelloAck (fpayload response)) in
    if negb (bool_decide (ha_target ack = target)) then
      s_lift (fail_detail ErrorCode.Unauthorized "the peer identifies as a different target"
                (str (ha_target ack)))
    else
      do& s_lift (if o_authenticate opts then verifyAuthenticated (fpayload response) (o_key opts)
                  else Ok tt) in
      let& s := locked_state in
      do& s_lift (fenced (findTarget target s) ack) in
      let& confirm := s_lift (encodeHelloConfirm (mkHelloConfirmMessage (confirm_tag (fpayload response)))) in
      do& m_send FrameType.HelloConfirm 0 confirm in
      let& s := locked_state in
      let existing := findTarget target s in
      let& now := m_now in
      do& upsertTarget (greeted target existing ack now) in
      do& markContactCurrent target true now in
      do& s_when (restarted existing ack) (rearmAfterRestart target (ha_term ack)) in
      s_ret (mkSessionContext target endpoint (ha_term ack) (ha_incarnation ack)
               (Z.min (maxPayloadBytes (o_policy opts)) (ha_maxPayloadBytes ack)) None).

Definition reported (target : TargetId) (existing : option TargetRuntime)
    (report : ReconcileReportMessage) (now : Z) : TargetRuntime :=
  set_contact false
    (tr_window (rp_applyPrepared report) (rp_preparedDeployment report) (rp_preparedGeneration report)
       (rp_preparedDigest report)
       (tr_committed (rp_committedGeneration report) (rp_committedDigest report)
          (rp_committedArtifact report) now
          (tr_identity target (rp_targetClass report) (rp_guarantee report) (rp_term report)
             (rp_incarnation report) (default TargetRuntime_default existing)))).

Definition reconcile_input (session : SessionContext) (record : DeliveryRecord) : ReconcileInput :=
  mkReconcileInput (sc_report session) (sc_targetTerm session) (sc_targetIncarnation session)
    (dr_generation record) (dr_digest record) (dr_key record) (dr_id record) (dr_state record)
    (dr_effectiveGuarantee record) (dr_requirement record) true.

(** An unresolved prepare window is aborted. *)
Definition resolveWindow (report : ReconcileReportMessage) (record : DeliveryRecord) : M unit :=
  do& send_encoded FrameType.ApplyAbort (encodeApplyAbort
        (mkApplyAbortMessage (rp_preparedDeployment report)
           (if num_isSet (rp_preparedGeneration report) then rp_preparedGeneration report
            else dr_generation record)
           "distributor reconciliation resolved an unresolved prepare window")) in
  let& response := m_receive in
  if negb (frame_is FrameType.ApplyAbortAck response) then
    s_lift (fail ErrorCode.UnexpectedMessage "expected an apply-abort-ack")
  else let& _ := s_lift (decodeApplyAbortAck (fpayload response)) in s_ret tt.

Definition applyDecision (session : SessionContext) (record : DeliveryRecord) : M unit :=
  if negb (isPendingState (dr_state record)) then s_ret tt
  else
    let decision := reconcileDelivery (reconcile_input session record) in
    match rd_outcome decision with
    | ReconcileOutcome.AdoptActivation =>
        do& adoptActivation record true ("reconciliation: " +:+ rd_reason decision) in
        let& record := snapshotDelivery (dr_id record) in
        acknowledge record true
          ("acknowledgement recorded from a live reconcile report: " +:+ rd_reason decision)
    | ReconcileOutcome.RetireStale =>
        recordRetired record
          ("reconciliation: the target is already at generation "
           +:+ to_string (value (rd_targetGeneration decision)))
    | ReconcileOutcome.ResolvePrepareWindow =>
        match sc_report session with
        | Some report => resolveWindow report record
        | None => s_ret tt
        end
    | ReconcileOutcome.FenceAuthority =>
        s_lift (fail ErrorCode.FencedIncarnation (rd_reason decision))
    | _ => s_ret tt
    end.

Definition applyReconcileReport (session : SessionContext) : M unit :=
  let& s := locked_state in
  s_for (merge_sort session_le
           (deliveries_where (λ r, bool_decide (dr_target r = sc_target session)) s))
    (applyDecision session).

Definition with_report (report : ReconcileReportMessage) (session : SessionContext) : SessionContext :=
  mkSessionContext (sc_target session) (sc_endpoint session) (sc_targetTerm session)
    (sc_targetIncarnation session) (sc_peerMaxPayload session) (Some report).

Definition reconcile (session : SessionContext) : M SessionContext :=
  let& e := epoch in
  let& i := incarnation in
  do& send_encoded FrameType.ReconcileRequest (encodeReconcileRequest
        (mkReconcileRequestMessage (o_nodeId opts) e i
           (Z.min (maxReconcileFindings (o_policy opts)) kMaxFindingsInReport))) in
  let& response := m_receive in
  if negb (frame_is FrameType.ReconcileReport response) then
    unexpected "expected a reconcile report" response
  else
    let& report := s_lift (decodeReconcileReport (fpayload response)) in
    if negb (bool_decide (rp_target report = sc_target session)) then
      s_lift (fail_detail ErrorCode.Unauthorized "the reconcile report names a different target"
                (str (rp_target report)))
    else if negb (bool_decide (rp_term report = sc_targetTerm session))
            || negb (bool_decide (rp_incarnation report = sc_targetIncarnation session)) then
      s_lift (fail ErrorCode.FencedIncarnation
                "the reconcile report carries authority that does not match the session")
    else
      let session := with_report report session in
      let& s := locked_state in
      let& now := m_now in
      do& upsertTarget (reported (sc_target session) (findTarget (sc_target session) s) report now) in
      do& markContactCurrent (sc_target session) true now in
      do& applyReconcileReport session in
      s_ret session.

(** ** Acknowledgement *)

(** The evidence an acknowledgement must carry. *)
Definition checkAck (session : SessionContext) (record : DeliveryRecord) (ack : DeliveryAckMessage)
    : Status :=
  if negb (bool_decide (da_deployment ack = dr_id record))
     || negb (bool_decide (da_generation ack = dr_generation record))
     || negb (bool_decide (da_digest ack = dr_digest record))
  then fail ErrorCode.ProtocolViolation "the acknowledgement does not describe this deployment"
  else if negb (bool_decide (da_term ack = sc_targetTerm session))
          || negb (bool_decide (da_incarnation ack = sc_targetIncarnation session))
  then fail ErrorCode.FencedIncarnation
         "the acknowledgement carries target authority that is not current"
  else Ok tt.

Definition onNack (record : DeliveryRecord) (payload : list byte) : M unit :=
  let& nack := s_lift (decodeDeliveryNack payload) in
  do& recordFailure record (dn_code nack) (dn_detail nack) in s_ret tt.

(** What a loop without fuel does; no run gets there, see DistributorTransfer.v. *)
Definition exhausted {A} : M A := s_lift (Abort "out of fuel").

(** The waiting loop: every pass takes a frame. *)
Fixpoint ack_loop (spent : M unit) (fuel : nat) (session : SessionContext) (record : DeliveryRecord)
    : M unit :=
  match fuel with
  | O => spent
  | S fuel =>
      let& received := s_try m_receive in
      match received with
      | Fail e =>
          if bool_decide (code e = ErrorCode.PeerIdleTimeout)
             || bool_decide (code e = ErrorCode.ConnectionClosed)
          then s_ret tt else s_lift (Fail e)
      | Abort why => s_lift (Abort why)
      | Ok frame =>
          if frame_is FrameType.DeliveryAck frame then
            let& ack := s_lift (decodeDeliveryAck (fpayload frame)) in
            do& s_lift (checkAck session record ack) in
            do& adoptActivation record (da_evidenceFromReconcile ack)
                  "the target reported the activation boundary under current authority" in
            let& record := snapshotDelivery (dr_id record) in
            let& e := epoch in
            acknowledge record (da_evidenceFromReconcile ack)
              ("the activation acknowledgement was durably recorded under epoch "
               +:+ to_string (value e))
          else if frame_is FrameType.DeliveryNack frame then onNack record (fpayload frame)
          else if frame_is FrameType.Ping frame then
            let& ping := s_lift (decodePing (fpayload frame)) in
            let& pong := s_lift (encodePong (mkPongMessage (pi_nonce ping))) in
            do& m_send FrameType.Pong kFrameFlagResponse pong in
            ack_loop spent fuel session record
          else unexpected "unexpected message while awaiting an acknowledgement" frame
      end
  end.

Definition awaitAcknowledgement (session : SessionContext) (record : DeliveryRecord) : M unit :=
  if armed (o_faults opts) kWithholdAck then s_ret tt
  else
    let& frames := s_get (λ w, length (w_inbox w)) in
    ack_loop exhausted (S frames) session record.

(** ** Activation *)

Definition code_or (c fallback : ErrorCode) : ErrorCode :=
  if bool_decide (c = ErrorCode.Ok) then fallback else c.

(** Send a request and receive its answer; a nack is a failure reported by
    the target. [None]: the delivery is done with for now. *)
Definition request (record : DeliveryRecord) (type : FrameType) (encoded : Result (list byte))
    (expected : FrameType) (what : string) : M (option Frame) :=
  do& send_encoded type encoded in
  let& response := m_receive in
  if frame_is FrameType.DeliveryNack response then
    do& onNack record (fpayload response) in s_ret None
  else if negb (frame_is expected response) then unexpected what response
  else s_ret (Some response).

Definition fail_from_target (record : DeliveryRecord) (c : ErrorCode) (detail : string) : M unit :=
  do& recordFailure record c detail in s_ret tt.

(** The stage request of a verified delivery. *)
Definition stageDelivery (record : DeliveryRecord) : M (option DeliveryRecord) :=
  if bool_decide (dr_state record = DeliveryState.Verified) then
    let& response := request record FrameType.Stage (encodeStage
      (mkStageMessage (dr_id record) (deriveStreamId (dr_id record) (dr_attempt record))
         (dr_generation record) (dr_digest record)))
      FrameType.StageAck "expected a stage acknowledgement" in
    match response with
    | None => s_ret None
    | Some response =>
        let& ack := s_lift (decodeStageAck (fpayload response)) in
        if negb (sa_staged ack) then
          do& fail_from_target record (code_or (sa_code ack) ErrorCode.ApplyFailed) (sa_detail ack) in
          s_ret None
        else
          let& record := recordTransition record DeliveryState.Staged EvidenceKind.StagedAtTarget
                           ErrorCode.Ok "the target holds the verified artifact staged" false in
          s_ret (Some record)
    end
  else s_ret (Some record).

(** The prepare window of a target that cannot activate atomically. *)
Definition openWindow (record : DeliveryRecord) : M (option DeliveryRecord) :=
  if bool_decide (dr_effectiveGuarantee record = ApplyGuarantee.PrepareCommitAbort) then
    let& response := request record FrameType.ApplyPrepare (encodeApplyPrepare
      (mkApplyPrepareMessage (dr_id record) (dr_generation record) (dr_digest record)))
      FrameType.ApplyPrepareAck "expected an apply-prepare acknowledgement" in
    match response with
    | None => s_ret None
    | Some response =>
        let& ack := s_lift (decodeApplyPrepareAck (fpayload response)) in
        if negb (apa_prepared ack) then
          do& fail_from_target record (code_or (apa_code ack) ErrorCode.NotPrepared) (apa_detail ack) in
          s_ret None
        else
          let& record := noteEvent record EvidenceKind.ApplyPrepared
            "target entered a prepare window; activation is not atomic for this target" in
          s_ret (Some record)
    end
  else s_ret (Some record).

(** The generation the commit names; the stale-commit fault lowers it. *)
Definition commit_generation (record : DeliveryRecord) : Generation :=
  if armed (o_faults opts) kStaleCommit && (value (dr_generation record) >? 1)
  then fromValue (value (dr_generation record) - 1) else dr_generation record.

Definition commitDelivery (session : SessionContext) (record : DeliveryRecord) : M unit :=
  do& send_encoded FrameType.ApplyCommit (encodeApplyCommit
        (mkApplyCommitMessage (dr_id record) (commit_generation record) (dr_digest record))) in
  let& response := m_receive in
  if frame_is FrameType.DeliveryNack response then
    let& nack := s_lift (decodeDeliveryNack (fpayload response)) in
    if bool_decide (dn_code nack = ErrorCode.StaleGeneration)
    then recordRetired record ("the target fenced the commit as stale: " +:+ dn_detail nack)
    else fail_from_target record (dn_code nack) (dn_detail nack)
  else if negb (frame_is FrameType.ApplyCommitAck response) then
    unexpected "expected an apply-commit acknowledgement" response
  else
    let& ack := s_lift (decodeApplyCommitAck (fpayload response)) in
    if negb (aca_committed ack) then
      fail_from_target record (code_or (aca_code ack) ErrorCode.ApplyFailed) (aca_detail ack)
    else if negb (bool_decide (aca_committedGeneration ack = dr_generation record))
            || negb (bool_decide (aca_committedDigest ack = dr_digest record)) then
      fail_from_target record ErrorCode.Conflict
        "the target committed a different generation than the one requested"
    else
      do& adoptActivation record false
            "the target reported the generation active at the commit boundary" in
      let& record := snapshotDelivery (dr_id record) in
      awaitAcknowledgement session record.

Definition activateDelivery (session : SessionContext) (record : DeliveryRecord) : M unit :=
  let& staged := stageDelivery record in
  match staged with
  | None => s_ret tt
  | Some record =>
      let& prepared := openWindow record in
      match prepared with
      | None => s_ret tt
      | Some record => commitDelivery session record
      end
  end.

(** ** Offer and transfer *)

(** The offset the target's report lets the offer resume from. *)
Definition resume_from (session : SessionContext) (record : DeliveryRecord) : Z :=
  match sc_report session with
  | Some report =>
      match findTransferStatus report (dr_id record) with
      | Some status =>
          if bool_decide (ts_generation status = dr_generation record)
             && bool_decide (ts_digest status = dr_digest record)
          then ts_bytesReceived status else 0
      | None => 0
      end
  | None => 0
  end.

Definition offered_size (record : DeliveryRecord) : Z :=
  if armed (o_faults opts) kOversizeDeclare then (dr_sizeBytes record + 4 * 1024) mod 2 ^ 64
  else dr_sizeBytes record.

Definition prepare_message (session : SessionContext) (record : DeliveryRecord) (e : Epoch)
    : PrepareMessage :=
  let chunkBytes := Z.min (transferChunkBytes (o_policy opts)) (sc_peerMaxPayload session / 2) mod 2 ^ 32 in
  mkPrepareMessage (dr_id record) (dr_key record) (dr_artifact record) (dr_generation record)
    (dr_digest record) (offered_size record) (dr_schema record) (dr_schemaVersion record)
    (dr_requirement record) (dr_effectiveGuarantee record) e (dr_attempt record)
    (deriveStreamId (dr_id record) (dr_attempt record))
    (if chunkBytes =? 0 then 1024 else chunkBytes) (resume_from session record).

Definition onPrepareReject (record : DeliveryRecord) (reject : PrepareRejectMessage) : M unit :=
  if isTerminalRejection (pj_code reject) then recordRejected record (pj_code reject) (pj_detail reject)
  else if bool_decide (pj_code reject = ErrorCode.StaleGeneration) then
    recordRetired record ("the target refused a stale generation: " +:+ pj_detail reject)
  else if bool_decide (pj_code reject = ErrorCode.GenerationConflict) then
    recordRejected record (pj_code reject)
      ("the target has different content for this generation: " +:+ pj_detail reject)
  else fail_from_target record (pj_code reject) (pj_detail reject).

(** The faults of the transfer that fire once. *)
Record TransferFaults := mkTransferFaults { t_duplicate : bool; t_reorder : bool; t_corrupt : bool }.

Definition flip_first (data : list byte) : list byte :=
  match data with
  | [] => []
  | b :: data => byte_of (Z.lxor (byte_val b) 0x01) :: data
  end.

(** One chunk is sent, as often as the armed faults want. *)
Definition sendChunk (prepare : PrepareMessage) (faults : TransferFaults) (offset : Z)
    (data : list byte) : M TransferFaults :=
  let corrupt := t_corrupt faults && negb (bool_decide (data = [])) in
  let message := mkChunkMessage (pr_stream prepare) (fromValue offset) offset
                   (if corrupt then flip_first data else data) in
  let& bytes := s_lift (encodeChunk message) in
  do& m_send FrameType.Chunk 0 bytes in
  do& s_modify (λ w, set_chunksSent ((w_chunksSent w + 1) mod 2 ^ 64) w) in
  let& sent := s_get w_chunksSent in
  let first := sent =? 1 in
  let duplicate := t_duplicate faults || (t_reorder faults && first) in
  do& s_when (duplicate && first) (m_send FrameType.Chunk 0 bytes) in
  s_ret (mkTransferFaults (duplicate && negb first) (t_reorder faults && negb first)
           (t_corrupt faults && negb corrupt)).

(** The answer to a chunk: the target's byte count, or [None] when the
    delivery is done with for now. *)
Definition chunkAnswer (prepare : PrepareMessage) (record : DeliveryRecord) : M (option Z) :=
  let& frame := m_receive in
  if frame_is FrameType.DeliveryNack frame then do& onNack record (fpayload frame) in s_ret None
  else if negb (frame_is FrameType.ChunkAck frame) then
    unexpected "expected a chunk acknowledgement" frame
  else
    let& ack := s_lift (decodeChunkAck (fpayload frame)) in
    if negb (bool_decide (ca_stream ack = pr_stream prepare)) then
      s_lift (fail ErrorCode.ProtocolViolation "the chunk acknowledgement names a different stream")
    else if bool_decide (ca_code ack = ErrorCode.ReorderedFrame)
            || bool_decide (ca_code ack = ErrorCode.Ok) then s_ret (Some (ca_bytesReceived ack))
    else do& fail_from_target record (ca_code ack) (ca_detail ack) in s_ret None.

Definition cancelled {A} : M A := s_lift (fail ErrorCode.Cancelled "distributor is stopping").

(** The streaming loop: every pass that goes on takes a frame. The result says
    whether the whole payload was accepted. *)
Fixpoint transfer_loop (spent : M bool) (fuel : nat) (prepare : PrepareMessage)
    (record : DeliveryRecord) (limit : Z) (reader : ArtifactReader) (faults : TransferFaults)
    (offset : Z) : M bool :=
  match fuel with
  | O => spent
  | S fuel =>
      if negb (offset <? limit) then s_ret true
      else
        let& stop := stopRequested in
        if (stop : bool) then cancelled
        else
          let& fault := call (env_read env) in
          let '(reader, chunk) := readAt fault offset (pr_chunkBytes prepare) reader in
          match chunk with
          | Fail e => do& recordFailure record (code e) (Error_str e) in s_ret false
          | Abort why => s_lift (Abort why)
          | Ok [] =>
              do& recordFailure record ErrorCode.IntegrityFailure
                    "the artifact ended before its declared size" in
              s_ret false
          | Ok data =>
              let& faults := sendChunk prepare faults offset data in
              let& sent := s_get w_chunksSent in
              let dropAfter := countFor (o_faults opts) kAfterChunk in
              if negb (dropAfter =? 0) && (sent >=? dropAfter) then
                do& s_modify (set_open false) in
                s_lift (fail ErrorCode.ConnectionClosed "connection dropped by fault injection")
              else
                let& answer := chunkAnswer prepare record in
                match answer with
                | None => s_ret false
                | Some advanced =>
                    if advanced =? offset then
                      do& fail_from_target record ErrorCode.ProtocolViolation
                            "the target did not advance its accepted byte count" in
                      s_ret false
                    else transfer_loop spent fuel prepare record limit reader faults advanced
                end
          end
  end.

Definition streamArtifact (prepare : PrepareMessage) (record : DeliveryRecord) (resumeFrom : Z)
    : M (option DeliveryRecord) :=
  do& lock in
  let& reader_fails := call (env_reader_fails env) in
  let& s := get_shared in
  match reader_open (ao_root (sr_options (sh_artifacts s))) reader_fails (dr_digest record)
          (sh_artifacts s) (sh_fs s) with
  | Fail e =>
      do& recordFailure record ErrorCode.ArtifactUnavailable (Error_str e) in s_ret None
  | Abort why => s_lift (Abort why)
  | Ok reader =>
      let& record := if resumeFrom =? 0 then s_ret record
                     else noteEvent record EvidenceKind.BytesAccepted
                            ("resuming the transfer at byte " +:+ to_string resumeFrom) in
      let faults := mkTransferFaults (armed (o_faults opts) kDuplicateChunk)
                      (armed (o_faults opts) kReorderChunk) (armed (o_faults opts) kCorruptChunk) in
      let limit := if armed (o_faults opts) kTruncateTransfer then dr_sizeBytes record / 2
                   else dr_sizeBytes record in
      let& frames := s_get (λ w, length (w_inbox w)) in
      let& complete := transfer_loop exhausted (S frames) prepare record limit reader faults resumeFrom in
      s_ret (if (complete : bool) then Some record else None)
  end.

(** The declaration that the transfer is complete, and the target's verdict. *)
Definition completeTransfer (session : SessionContext) (prepare : PrepareMessage)
    (record : DeliveryRecord) : M unit :=
  do& send_encoded FrameType.TransferComplete (encodeTransferComplete
        (mkTransferCompleteMessage (dr_id record) (pr_stream prepare) (dr_digest record)
           (pr_sizeBytes prepare))) in
  let& record :=
    if bool_decide (dr_state record = DeliveryState.Offered)
       || bool_decide (dr_state record = DeliveryState.Prepared)
    then recordTransition record DeliveryState.Transferred EvidenceKind.BytesAccepted ErrorCode.Ok
           "all declared bytes were accepted by the target" false
    else s_ret record in
  let& frame := m_receive in
  if frame_is FrameType.DeliveryNack frame then onNack record (fpayload frame)
  else if negb (frame_is FrameType.TransferResult frame) then
    unexpected "expected a transfer result" frame
  else
    let& result := s_lift (decodeTransferResult (fpayload frame)) in
    if negb (xr_verified result) then
      fail_from_target record (code_or (xr_code result) ErrorCode.DigestMismatch) (xr_detail result)
    else
      let& record := recordTransition record DeliveryState.Verified EvidenceKind.DigestVerified
                       ErrorCode.Ok "the target recomputed the digest and it matched" false in
      activateDelivery session record.

(** The target already runs this content and suppressed the offer. *)
Definition adoptDuplicate (record : DeliveryRecord) : M unit :=
  do& adoptActivation record false
        "the target reported this generation already active and suppressed the duplicate" in
  let& record := snapshotDelivery (dr_id record) in
  acknowledge record false "acknowledgement recorded from the target's duplicate suppression".

Definition offerAndTransfer (session : SessionContext) (record : DeliveryRecord) : M unit :=
  let& e := epoch in
  let prepare := prepare_message session record e in
  do& send_encoded FrameType.Prepare (encodePrepare prepare) in
  let& record :=
    if bool_decide (dr_state record = DeliveryState.Prepared)
    then recordTransition record DeliveryState.Offered EvidenceKind.OfferedToTarget ErrorCode.Ok
           "offer sent to the target" false
    else s_ret record in
  let& response := m_receive in
  if frame_is FrameType.PrepareAck response then
    let& ack := s_lift (decodePrepareAck (fpayload response)) in
    if negb (bool_decide (pa_deployment ack = dr_id record))
       || negb (bool_decide (pa_stream ack = pr_stream prepare)) then
      s_lift (fail ErrorCode.ProtocolViolation
                "the prepare acknowledgement does not describe this deployment")
    else if pa_duplicateSuppressed ack then adoptDuplicate record
    else
      let& streamed := streamArtifact prepare record (pa_resumeFromOffset ack) in
      match streamed with
      | None => s_ret tt
      | Some record => completeTransfer session prepare record
      end
  else if frame_is FrameType.PrepareReject response then
    let& reject := s_lift (decodePrepareReject (fpayload response)) in
    onPrepareReject record reject
  else if frame_is FrameType.DeliveryNack response then onNack record (fpayload response)
  else unexpected "expected a prepare response" response.

(** ** Driving the deliveries of a session *)

(** The code a rejection is recorded with. *)
Definition rejection_code (input : DecisionInput) (record : DeliveryRecord) : ErrorCode :=
  if negb (guaranteeSatisfies (in_targetGuarantee input) (dr_requirement record))
  then ErrorCode.GuaranteeUnsupported
  else if negb (in_artifactAvailable input) then ErrorCode.ArtifactUnavailable
  else ErrorCode.PolicyDenied.
(** The code a policy-requested failure is recorded with. *)
Definition last_error_or_io (record : DeliveryRecord) : ErrorCode :=
  code_or (dr_lastError record) ErrorCode.IoFailure.

Definition giveUp (record : DeliveryRecord) (decision : Decision) : M unit :=
  if bool_decide (dr_state record = DeliveryState.Failed) then s_ret tt
  else
    let& failed := recordTransition record DeliveryState.Failed EvidenceKind.FailureReported
                     (dr_lastError record) (reason decision) false in
    upsertDelivery failed.

(** A retry enters the pipeline again at its first boundary. *)
Definition reenter (record : DeliveryRecord) : M DeliveryRecord :=
  if bool_decide (dr_state record = DeliveryState.Failed)
  then recordTransition record DeliveryState.Prepared EvidenceKind.Retried ErrorCode.Ok
         ("retry attempt " +:+ to_string ((value (dr_attempt record) + 1) mod 2 ^ 64)
          +:+ " begins; the delivery re-enters at the offer boundary") false
  else s_ret record.

(** One step of a delivery; the result says whether to take another. *)
Definition driveStep (session : SessionContext) (id : DeploymentId) : M bool :=
  let& stop := stopRequested in
  if (stop : bool) then cancelled
  else
    let& record := snapshotDelivery id in
    if negb (id_isSet (dr_id record)) then s_ret false
    else
      let& now := m_now in
      let& input := decisionInputFor record now in
      let& e := epoch in
      let decision := Decide.decide (o_policy opts) input e (dr_generation record) in
      match action decision with
      | PolicyAction.None | PolicyAction.Wait | PolicyAction.Reconcile => s_ret false
      | PolicyAction.Reject =>
          do& recordRejected record (rejection_code input record) (reason decision) in s_ret false
      | PolicyAction.Retire => do& recordRetired record (reason decision) in s_ret false
      | PolicyAction.GiveUp => do& giveUp record decision in s_ret false
      | PolicyAction.RecordFailureAndRetry =>
          do& recordFailure record (last_error_or_io record) (reason decision) in s_ret false
      | PolicyAction.Offer | PolicyAction.ResumeTransfer =>
          let& record := reenter record in
          do& offerAndTransfer session record in s_ret true
      | PolicyAction.Activate => do& activateDelivery session record in s_ret true
      end.

Fixpoint drive_steps (steps : nat) (session : SessionContext) (id : DeploymentId) : M unit :=
  match steps with
  | O => s_ret tt
  | S steps =>
      let& again := driveStep session id in
      if (again : bool) then drive_steps steps session id else s_ret tt
  end.
Definition driveDelivery (session : SessionContext) (queued : DeliveryRecord) : M unit :=
  drive_steps kMaxStepsPerDelivery session (dr_id queued).

(** Errors after which the connection is not used again. *)
Definition ends_session (c : ErrorCode) : bool :=
  bool_decide (c ∈ [ErrorCode.ConnectionClosed; ErrorCode.ConnectionReset; ErrorCode.TruncatedFrame;
                    ErrorCode.PeerIdleTimeout]).

Fixpoint drive_all (work : list DeliveryRecord) (session : SessionContext) (errors : Z) : M unit :=
  match work with
  | [] => s_ret tt
  | queued :: work =>
      let& stop := stopRequested in
      if (stop : bool) then cancelled
      else
        let& driven := s_try (driveDelivery session queued) in
        match driven with
        | Ok _ => drive_all work session errors
        | Abort why => s_lift (Abort why)
        | Fail e =>
            if ends_session (code e) || (errors + 1 >=? kMaxSessionErrors) then s_lift (Fail e)
            else drive_all work session (errors + 1)
        end
  end.

Definition driveDeliveries (session : SessionContext) : M unit :=
  let& s := locked_state in
  drive_all (merge_sort session_le (deliveries_where (pending_of (sc_target session)) s)) session 0.

(** The handshake and the reconciliation; their failure is recorded against
    the pending deliveries. *)
Definition establish (target : TargetId) (endpoint : Endpoint) : M (bool * Result SessionContext) :=
  let& greeted := s_try (handshake target endpoint) in
  let& result := match greeted with
                 | Ok session => s_try (reconcile session)
                 | Fail e => s_ret (Fail e)
                 | Abort why => s_lift (Abort why)
                 end in
  do& match result with
      | Fail e => recordSessionFailure target (code e) (Error_str e)
      | _ => s_ret tt
      end in
  s_ret (is_ok greeted, result).

Definition sayGoodbye : M unit :=
  match encodeGoodbye (mkGoodbyeMessage ErrorCode.Ok "session complete") with
  | Ok bytes => do& s_try (m_send FrameType.Goodbye 0 bytes) in s_ret tt
  | Fail _ => s_ret tt
  | Abort why => s_lift (Abort why)
  end.

Definition runSession (target : TargetId) (endpoint : Endpoint) : M unit :=
  let& dialled := call (env_dial env) in
  match dialled with
  | Fail e => recordSessionFailure target (code e) (Error_str e)
  | Abort why => s_lift (Abort why)
  | Ok inbox =>
      do& s_modify (λ w, set_chunksSent 0 (set_open true (set_inbox inbox (set_sent [] w)))) in
      let& (established, result) := establish target endpoint in
      do& match result with
          | Ok session => do& s_try (driveDeliveries session) in s_ret tt
          | _ => s_ret tt
          end in
      let& valid := s_get w_open in
      do& s_when (established && valid) sayGoodbye in
      s_modify (set_open false)
  end.

(** ** Scheduling *)

(** A target is not dialled while it is claimed, nor too often. *)
Definition mayDial (target : TargetId) (now : Z) (s : Shared) : bool :=
  if bool_decide (str target ∈ sh_claimed s) then false
  else match sh_lastAttempt s !! str target with
       | None => true
       | Some last => now - last >=? sessionMinIntervalMillis (o_policy opts)
       end.

Definition endpointOfTarget (s : ControllerState) (target : TargetId) : Endpoint :=
  match findTarget target s with
  | None => mkEndpoint "" 0
  | Some runtime =>
      if decide (tr_endpoint runtime = "") then mkEndpoint "" 0
      else match parseEndpoint (tr_endpoint runtime) with
           | Ok endpoint => if endpoint_isSet endpoint then endpoint else mkEndpoint "" 0
           | _ => mkEndpoint "" 0
           end
  end.

Definition claim (target : TargetId) (now : Z) (s : Shared) : Shared :=
  set_lastAttempt (<[str target := now]> (sh_lastAttempt s))
    (set_claimed ({[str target]} ∪ sh_claimed s) s).

(** The first verification request that can be served. *)
Fixpoint pickRequest (requests : list (string * unit)) (now : Z) (s : Shared) : option TargetId :=
  match requests with
  | [] => None
  | (request, _) :: requests =>
      match parseTargetId request with
      | Ok target => if mayDial target now s then Some target else pickRequest requests now s
      | _ => pickRequest requests now s
      end
  end.

(** What the policy wants for a delivery: a session, a local step, nothing. *)
Inductive Wish := WantSession | WantProbe | WantLocal | WantNothing.
Definition wish (a : PolicyAction) : Wish :=
  match a with
  | PolicyAction.Offer | PolicyAction.ResumeTransfer | PolicyAction.Activate
  | PolicyAction.Reconcile => WantSession
  | PolicyAction.Reject | PolicyAction.Retire | PolicyAction.RecordFailureAndRetry => WantLocal
  | PolicyAction.GiveUp => WantProbe
  | PolicyAction.Wait | PolicyAction.None => WantNothing
  end.

(** The walk over the deliveries: the target selected, the local work. *)
Fixpoint pickDelivery (deliveries : list DeliveryRecord) (now : Z) (s : Shared)
    (selected : option TargetId) (localWork : list DeliveryRecord)
    : Shared * option TargetId * list DeliveryRecord :=
  match deliveries with
  | [] => (s, selected, localWork)
  | record :: deliveries =>
      if negb (isPendingState (dr_state record)) then pickDelivery deliveries now s selected localWork
      else
        let state := shared_state s in
        let input := buildDecisionInput state (o_policy opts) record now in
        let decision := Decide.decide (o_policy opts) input (cs_epoch state) (dr_generation record) in
        let free := bool_decide (selected = None) && mayDial (dr_target record) now s in
        match wish (action decision) with
        | WantSession =>
            if free
            then pickDelivery deliveries now (claim (dr_target record) now s) (Some (dr_target record))
                   localWork
            else pickDelivery deliveries now s selected localWork
        | WantProbe =>
            if free && negb (in_millisSinceLastAttempt input <? repairProbeMillis (o_policy opts))
            then pickDelivery deliveries now (claim (dr_target record) now s) (Some (dr_target record))
                   localWork
            else pickDelivery deliveries now s selected localWork
        | WantLocal => pickDelivery deliveries now s selected (localWork ++ [record])
        | WantNothing => pickDelivery deliveries now s selected localWork
        end
  end.

(** The locked region of [pickWork]. *)
Definition select (now : Z) (s : Shared) : Shared * option TargetId * list DeliveryRecord :=
  match pickRequest (sh_requests s) now s with
  | Some target =>
      let s := claim target now s in
      (set_requests (map_erase (str target) (sh_requests s)) s, Some target, [])
  | None => pickDelivery (map snd (cs_deliveries (shared_state s))) now s None []
  end.

Definition applyLocalDecision (candidate : DeliveryRecord) : M unit :=
  let& record := snapshotDelivery (dr_id candidate) in
  if negb (id_isSet (dr_id record)) || negb (isPendingState (dr_state record)) then s_ret tt
  else
    let& now := m_now in
    let& input := decisionInputFor record now in
    let& e := epoch in
    let decision := Decide.decide (o_policy opts) input e (dr_generation record) in
    let apply (m : M unit) : M unit := do& s_try m in s_ret tt in
    match action decision with
    | PolicyAction.Reject =>
        apply (recordRejected record (rejection_code input record) (reason decision))
    | PolicyAction.Retire => apply (recordRetired record (reason decision))
    | PolicyAction.RecordFailureAndRetry =>
        apply (fail_from_target record (last_error_or_io record) (reason decision))
    | _ => s_ret tt
    end.

Definition pickWork : M (option (TargetId * Endpoint)) :=
  do& lock in
  let& now := m_now in
  let& s := get_shared in
  let '(s', selected, localWork) := select now s in
  do& modify_shared (λ _, s') in
  do& s_for localWork applyLocalDecision in
  s_ret ((λ target, (target, endpointOfTarget (shared_state s) target)) <$> selected).

(** One pass of [workerLoop]. *)
Definition worker_pass : M unit :=
  let& work := pickWork in
  match work with
  | None => s_ret tt
  | Some (target, endpoint) =>
      do& runSession target endpoint in
      do& lock in
      modify_shared (λ s, set_claimed (sh_claimed s ∖ {[str target]}) s)
  end.
(** The first [passes] passes of a worker. *)
Fixpoint workerLoop (passes : nat) : M unit :=
  match passes with
  | O => s_ret tt
  | S passes =>
      let& stop := stopRequested in
      if (stop : bool) then s_ret tt else do& worker_pass in workerLoop passes
  end.

Definition requestVerification (target : TargetId) : M unit :=
  let& s := locked_state in
  match findTarget target s with
  | None => s_lift (fail_detail ErrorCode.NotFound "no such target" (str target))
  | Some _ => modify_shared (λ s, set_requests (map_assign (str target) tt (sh_requests s)) s)
  end.

(** [stop]: what it leaves of the shared part, once the workers are joined. *)
Definition stop : M unit :=
  do& lock in
  let& (faults, suffix, outcome) := call (env_compact env) in
  λ w, let s := w_shared w in
       let '(fs, st, r) := compact faults suffix outcome (sh_store s) (sh_fs s) in
       (set_shared (set_store st (set_fs fs s)) w,
        match r with Abort why => Abort why | _ => Ok tt end).
End distributor.

(** ** Opening *)

(** A new authority distrusts what the previous one believed: contact is not
    current, an unverified transfer is offered again. *)
Definition distrust_delivery (r : DeliveryRecord) : DeliveryRecord :=
  if bool_decide (dr_state r = DeliveryState.Transferred)
  then mkDeliveryRecord (dr_id r) (dr_setId r) (dr_rolloutSet r) (dr_target r) (dr_key r)
         (dr_artifact r) (dr_revision r) (dr_generation r) (dr_digest r) (dr_schema r)
         (dr_schemaVersion r) (dr_sizeBytes r) (dr_requirement r) (dr_effectiveGuarantee r)
         DeliveryState.Offered (dr_attempt r) (dr_failures r) (dr_lastError r) (dr_lastDirective r)
         "reset to offered after distributor restart: the previous transfer was never verified"
         (dr_events r) (dr_authorityEpoch r) (dr_authorityIncarnation r) (dr_targetTerm r)
         (dr_targetIncarnation r) (dr_acknowledgedFromReconcile r) (dr_superseded r)
         (dr_createdAtMillis r) (dr_updatedAtMillis r)
  else r.
Definition distrust (s : ControllerState) : ControllerState :=
  cs_set_deliveries (map_values distrust_delivery (cs_deliveries s))
    (cs_set_targets (map_values (set_contact false) (cs_targets s)) s).

Definition identity_record (nodeId : NodeId) (e : Z) (incarnation : list byte) (now : Z) : Writer :=
  Write.string kMaxIdentifierLength (str nodeId) +++ Write.u64 e +++ Write.opaque128 incarnation
    +++ Write.i64 now.

(** What the operating system answers while the distributor opens. *)
Record OpenAnswers := mkOpenAnswers {
  oa_mkdir_fails : bool;
  oa_sweep_fails : string → bool;
  oa_listing : FileSystem → list string;
  oa_header : WriteOutcome;
  oa_restart : RestartOutcome;
  oa_closed : ClosedStream;
  oa_incarnation : list byte;
  oa_now : Z;
  oa_append : WriteOutcome;
  oa_compact : AtomicFaults * list byte * RestartOutcome;
}.

Definition artifact_options (opts : DistributorOptions) : ArtifactOptions :=
  mkArtifactOptions (o_artifactRoot opts) (o_maxArtifactBytes opts) (o_maxStoreBytes opts)
    (o_maxArtifacts opts) (64 * 1024).
Definition kCompactAfterBytes : Z := 4 * 1024 * 1024.
Definition store_options (opts : DistributorOptions) : StoreOptions :=
  mkStoreOptions (o_stateDirectory opts) "controller" kCompactAfterBytes.

(** The authority record, the distrust, the compaction. *)
Definition take_authority (opts : DistributorOptions) (a : OpenAnswers) (st : Store ControllerState)
    (fs : FileSystem) : FileSystem * Result (Store ControllerState) :=
  match checkedAdd 64 (value (cs_epoch (state_ st))) 1 with
  | None => (fs, fail ErrorCode.ArithmeticOverflow "distributor epoch exhausted")
  | Some nextEpoch =>
      match identity_record (o_nodeId opts) nextEpoch (oa_incarnation a) (oa_now a) with
      | Fail e => (fs, Fail e)
      | Abort why => (fs, Abort why)
      | Ok record =>
          let '(fs1, st1, committed) :=
            commit (oa_append a) st JournalRecordType.ControllerIdentity record fs in
          match committed with
          | Fail e => (fs1, Fail e)
          | Abort why => (fs1, Abort why)
          | Ok _ =>
              let st2 := set_state (distrust (state_ st1)) st1 in
              let '(faults, suffix, outcome) := oa_compact a in
              let '(fs2, st3, compacted) := compactIfNeeded faults suffix outcome st2 fs1 in
              (fs2, do* compacted in Ok st3)
          end
      end
  end.

Definition distributor_open (opts : DistributorOptions) (a : OpenAnswers) (fs : FileSystem)
    : FileSystem * Result Shared :=
  if negb (id_isSet (o_nodeId opts))
  then (fs, fail ErrorCode.InvalidArgument "distributor node id must be set")
  else if bool_decide (o_stateDirectory opts = "") || bool_decide (o_artifactRoot opts = "")
  then (fs, fail ErrorCode.InvalidArgument
              "distributor state and artifact directories must not be empty")
  else match validate (o_policy opts) with
  | Fail e => (fs, Fail e)
  | Abort why => (fs, Abort why)
  | Ok _ =>
      let '(fs1, artifacts) :=
        artifact_open (artifact_options opts) (oa_mkdir_fails a) (oa_sweep_fails a) (oa_listing a) fs in
      match artifacts with
      | Fail e => (fs1, Fail e)
      | Abort why => (fs1, Abort why)
      | Ok (artifacts, _) =>
          let '(fs2, opened) :=
            store_open (S := ControllerState) (oa_header a) (oa_restart a) (oa_closed a) (store_options opts) fs1 in
          match opened with
          | Fail e => (fs2, Fail e)
          | Abort why => (fs2, Abort why)
          | Ok (st, _) =>
              let '(fs3, r) := take_authority opts a st fs2 in
              (fs3, let* st := r in Ok (mkShared fs3 st artifacts ∅ ∅ []))
          end
      end
  end.
