(* ===== verification/DistributorControl.v ===== *)
(** * The control surface of the distributor

    Models the operations of [Distributor] that the control channel offers
    (src/distributor.cpp): resolving and submitting a deployment plan, handing
    over artifacts, retiring a delivery, and the queries. *)

From stdpp Require Import gmap sorting.
From Stdlib Require Import Strings.Byte.
From S2P Require Import Plan.
From S2P Require Import Prelude Result StdMap Checked Hash Ids Text Codec Lifecycle Policy Files.
From S2P Require Import Journal Artifact ArtifactStore Endpoint FaultPlan Frame Records.
From S2P Require Import Messages State Convergence Store Effects Distributor.

(** ** Resolution *)

Record TargetResolution := mkResolution {
  rs_target : TargetId;
  rs_configKey : ConfigKey;
  rs_accepted : bool;
  rs_reason : string;
}.

Definition resolve_one (seen : gset string) (i : DeploymentInstruction) : TargetResolution :=
  let answer := mkResolution (di_target i) (di_configKey i) in
  if bool_decide (str (di_target i) ∈ seen)
  then answer false "the deployment set names the same target more than once"
  else if decide (di_endpoint i = "")
  then answer true "explicitly selected by the deployment set; no endpoint supplied"
  else match parseEndpoint (di_endpoint i) with
       | Ok endpoint =>
           answer true ("explicitly selected by the deployment set; endpoint " +:+ Endpoint_str endpoint)
       | _ => answer false "the instruction endpoint is not a valid host:port pair"
       end.
Fixpoint resolve_all (seen : gset string) (instructions : list DeploymentInstruction) : list TargetResolution :=
  match instructions with
  | [] => []
  | i :: instructions =>
      resolve_one seen i :: resolve_all ({[str (di_target i)]} ∪ seen) instructions
  end.

Definition resolveDeploymentSet (policy : DistributorPolicy) (plan : DeploymentPlan)
    : list TargetResolution :=
  let resolutions := resolve_all ∅ (pl_instructions plan) in
  if zlen resolutions >? maxTargets policy
  then map (λ r, mkResolution (rs_target r) (rs_configKey r) false
                   "the deployment set exceeds the configured target budget") resolutions
  else resolutions.

(** ** Submission *)

(** The delivery an instruction asks for. *)
Definition planned (plan : DeploymentPlan) (i : DeploymentInstruction) (created : Z) : DeliveryRecord :=
  mkDeliveryRecord (deriveDeploymentId (di_target i) (di_configKey i) (di_generation i) (di_digest i))
    (pl_setId plan) (pl_rolloutSet plan) (di_target i) (di_configKey i) (di_artifact i) (di_revision i)
    (di_generation i) (di_digest i) (di_schema i) (di_schemaVersion i) (di_sizeBytes i)
    (di_requirement i) (di_declaredGuarantee i) DeliveryState.Prepared num_unset 0 ErrorCode.Ok
    RetryDirective.DoNotRetry "" [] num_unset opaque_unset num_unset opaque_unset false false created
    created.

(** What is kept of an earlier delivery with the same identity. *)
Definition continued (existing record : DeliveryRecord) : DeliveryRecord :=
  mkDeliveryRecord (dr_id record) (dr_setId record) (dr_rolloutSet record) (dr_target record)
    (dr_key record) (dr_artifact record) (dr_revision record) (dr_generation record) (dr_digest record)
    (dr_schema record) (dr_schemaVersion record) (dr_sizeBytes record) (dr_requirement record)
    (dr_effectiveGuarantee record)
    (if isPendingState (dr_state existing) then dr_state existing else dr_state record)
    (dr_attempt existing) (dr_failures existing) (dr_lastError record) (dr_lastDirective record)
    (dr_lastDetail record) (dr_events existing) (dr_authorityEpoch existing)
    (dr_authorityIncarnation existing) (dr_targetTerm existing) (dr_targetIncarnation existing)
    (dr_acknowledgedFromReconcile record) (dr_superseded record) (dr_createdAtMillis record)
    (dr_updatedAtMillis record).

Definition same_lineage (record other : DeliveryRecord) : bool :=
  bool_decide (dr_target other = dr_target record) && bool_decide (dr_key other = dr_key record).
Definition is_superseded (record other : DeliveryRecord) : bool :=
  negb (bool_decide (str (dr_id other) = str (dr_id record))) && same_lineage record other
  && num_lt (dr_generation other) (dr_generation record) && isPendingState (dr_state other).

(** Newest first. *)
Definition history_le (a b : DeliveryRecord) : Prop :=
  if decide (dr_generation a = dr_generation b)
  then key_cmp (str (dr_id b)) (str (dr_id a)) ≠ Gt
  else value (dr_generation b) <= value (dr_generation a).
#[global] Instance history_le_dec : RelDecision history_le.
Proof. intros a b. unfold history_le. case_decide; apply _. Defined.

(** The records past the retained history of the lineage. *)
Definition doomed_history (policy : DistributorPolicy) (record : DeliveryRecord) (s : ControllerState)
    : list DeliveryRecord :=
  drop (Z.to_nat (maxHistoryPerLineage policy))
    (merge_sort history_le (deliveries_where (same_lineage record) s)).

Definition declared_metadata (i : DeploymentInstruction) (produced stored : Z) : ArtifactMetadata :=
  mkArtifactMetadata (di_artifact i) (di_revision i) (di_schema i) (di_schemaVersion i) (di_digest i)
    (di_sizeBytes i) (di_mediaType i) (di_producer i) produced stored.

(** The target record an instruction updates. *)
Definition planned_target (i : DeploymentInstruction) (accepted : bool) (existing : option TargetRuntime)
    : TargetRuntime :=
  let runtime := default TargetRuntime_default existing in
  let klass := if bool_decide (tr_klass runtime = TargetClass.Unspecified)
               then if accepted then di_targetClass i else TargetClass.Unspecified
               else tr_klass runtime in
  let guarantee := if num_isSet (tr_term runtime) then tr_guarantee runtime
                   else di_declaredGuarantee i in
  let runtime := tr_identity (di_target i) klass guarantee (tr_term runtime) (tr_incarnation runtime)
                   runtime in
  if decide (di_endpoint i = "") then runtime else tr_address (di_endpoint i) runtime.

Section control.
Context (opts : DistributorOptions) (env : Env).

Definition ingestArtifact (path : string) (declared : ArtifactMetadata) : M unit :=
  do& lock env in
  let& faults := call (env_ingest env) in
  do& (λ w, let s := w_shared w in
            let '(fs, artifacts, r) := ingestFromFile faults path declared (sh_artifacts s) (sh_fs s) in
            (set_shared (set_artifacts artifacts (set_fs fs s)) w, r)) in
  do& lock env in
  m_commit env JournalRecordType.ArtifactUpsert (write_metadata declared).

(** The bytes are taken over once, if a source is named. *)
Definition takeOver (i : DeploymentInstruction) : M unit :=
  do& lock env in
  let& s := get_shared in
  if negb (bool_decide (di_sourcePath i = "")) && negb (contains (di_digest i) (sh_artifacts s)) then
    let& produced := m_now env in
    let& stored := m_now env in
    do& s_try (ingestArtifact (di_sourcePath i) (declared_metadata i produced stored)) in s_ret tt
  else s_ret tt.

(** One instruction of the plan: the delivery created, if any. *)
Definition submitInstruction (plan : DeploymentPlan) (i : DeploymentInstruction) (accepted : bool)
    : M (option DeploymentId) :=
  do& takeOver i in
  let& created := m_now env in
  let record := planned plan i created in
  let& s := locked_state env in
  let existing := findDelivery (dr_id record) s in
  if match existing with Some e => bool_decide (dr_state e = DeliveryState.Acknowledged) | None => false end
  then s_ret None
  else
    let record := match existing with Some e => continued e record | None => record end in
    let& s := locked_state env in
    do& s_for (deliveries_where (is_superseded record) s)
          (λ other, recordRetired env other
                      ("superseded by generation " +:+ to_string (value (dr_generation record)))) in
    let& s := locked_state env in
    do& s_for (doomed_history (o_policy opts) record s)
          (λ stale, do& lock env in m_commit env JournalRecordType.DeliveryRemove (write_id (dr_id stale))) in
    let& s := locked_state env in
    do& upsertTarget env (planned_target i accepted (findTarget (di_target i) s)) in
    do& upsertDelivery env record in
    s_ret (Some (dr_id record)).

Fixpoint submit_all (plan : DeploymentPlan)
    (work : list (DeploymentInstruction * TargetResolution)) : M (list DeploymentId) :=
  match work with
  | [] => s_ret []
  | (i, resolution) :: work =>
      let& created := submitInstruction plan i (rs_accepted resolution) in
      let& rest := submit_all plan work in
      s_ret (match created with Some id => id :: rest | None => rest end)
  end.

(** [submitPlan]; the identities created are those of the [created]
    argument when the submission succeeds. *)
Definition submitPlan (plan : DeploymentPlan) : M (list DeploymentId) :=
  let resolutions := resolveDeploymentSet (o_policy opts) plan in
  if negb (existsb rs_accepted resolutions)
  then s_lift (fail ErrorCode.InvalidArgument "the deployment set selects no usable target")
  else
    let& created := submit_all plan (zip (pl_instructions plan) resolutions) in
    let& s := locked_state env in
    let live := zlen (deliveries_where (λ r, isPendingState (dr_state r)) s) in
    if live >? maxLiveDeliveries (o_policy opts)
    then s_lift (fail_detail ErrorCode.LimitExceeded
                   "the live delivery count exceeds the configured budget" (to_string live))
    else
      let& (faults, suffix, outcome) := call (env_compact env) in
      do& (λ w, let s := w_shared w in
                let '(fs, st, r) := compactIfNeeded faults suffix outcome (sh_store s) (sh_fs s) in
                (set_shared (set_store st (set_fs fs s)) w, r)) in
      s_ret created.

Definition retireDeployment (deployment : DeploymentId) (why : string) : M unit :=
  let& record := snapshotDelivery env deployment in
  if negb (id_isSet (dr_id record))
  then s_lift (fail_detail ErrorCode.NotFound "no such delivery" (str deployment))
  else recordRetired env record why.

(** ** Queries *)

Definition convergence : M ConvergenceReport :=
  let& s := locked_state env in
  let& now := m_now env in
  s_ret (buildConvergenceReport s (o_policy opts) now).
Definition explain (target : TargetId) : M string :=
  let& s := locked_state env in
  let& now := m_now env in
  s_ret (explainTarget s (o_policy opts) target now).
Definition deliveries : M (list DeliveryRecord) :=
  let& s := locked_state env in s_ret (map snd (cs_deliveries s)).
Definition targets : M (list TargetRuntime) :=
  let& s := locked_state env in s_ret (map snd (cs_targets s)).
Definition artifacts : M (list ArtifactMetadata) :=
  do& lock env in let& s := get_shared in s_lift (artifact_list (sh_artifacts s)).
Definition verifyArtifacts : M (list (Digest * Status)) :=
  do& lock env in
  let& faults := call (env_verify env) in
  λ w, let s := w_shared w in
       let '(fs, artifacts, results) := verifyAll faults (sh_artifacts s) (sh_fs s) in
       (set_shared (set_artifacts artifacts (set_fs fs s)) w, Ok results).

Definition statusText (controlPort : Z) : M string :=
  do& lock env in
  let& s := get_shared in
  let count := artifactCount (sh_artifacts s) in
  let bytes := usedBytes (sh_artifacts s) in
  do& lock env in
  let& s := get_shared in
  let state := shared_state s in
  s_ret
    ("node-id: " +:+ str (cs_nodeId state) +:+ newline
     +:+ "authority-epoch: " +:+ to_string (value (cs_epoch state)) +:+ newline
     +:+ "incarnation: " +:+ toHex (opaque_bytes (cs_incarnation state)) +:+ newline
     +:+ "authenticated-peer-identity: "
     +:+ (if o_authenticate opts then "required" else "DISABLED (degraded guarantee)") +:+ newline
     +:+ "control-endpoint: " +:+ o_controlHost opts +:+ ":" +:+ to_string controlPort +:+ newline
     +:+ "targets: " +:+ to_string (zlen (cs_targets state)) +:+ newline
     +:+ "deliveries: " +:+ to_string (zlen (cs_deliveries state)) +:+ newline
     +:+ "artifacts: " +:+ to_string count +:+ " (" +:+ to_string bytes +:+ " bytes)" +:+ newline
     +:+ "durable-journal-bytes: " +:+ to_string (journal_size (sh_store s) (sh_fs s)) +:+ newline
     +:+ DistributorPolicy_render (o_policy opts)).
End control.
