(* ===== verification/Control.v ===== *)
(** * The control channel

    Models include/cf/control.hpp and src/control.cpp: the command line and its
    parser, the commands against a live distributor, the connection that serves
    them, and the client. The connection of a thread is that of its [World]
    (Distributor.v); the client is another process, whose [World] has only a
    connection. *)

From stdpp Require Import gmap.
From Stdlib Require Import Strings.Byte Strings.Ascii.
From S2P Require Import Plan.
From S2P Require Import Prelude Result StdMap Checked Hash Ids Text Codec Lifecycle Policy Files.
From S2P Require Import Artifact ArtifactStore Endpoint Frame Records Messages Protocol State.
From S2P Require Import Convergence Store Effects Distributor DistributorControl.

(** ** Text *)

Fixpoint join_words (out : string) (l : list string) : string :=
  match l with
  | [] => out
  | a :: l => join_words ((if decide (out = "") then out else out +:+ " ") +:+ a) l
  end.
Definition joinArguments (arguments : list string) (from : nat) : string :=
  join_words "" (drop from arguments).

Definition renderTargetLine (r : TargetRuntime) : string :=
  str (tr_id r) +:+ " class=" +:+ targetClassName (tr_klass r)
  +:+ " guarantee=" +:+ applyGuaranteeName (tr_guarantee r)
  +:+ " term=" +:+ to_string (value (tr_term r))
  +:+ " incarnation=" +:+ opaque_or_unset (tr_incarnation r) (str_take 8)
  +:+ " committed-generation=" +:+ generation_or_none "none" (tr_committedGeneration r)
  +:+ " committed-digest=" +:+ digest_or_none (tr_committedDigest r)
  +:+ " endpoint=" +:+ (if decide (tr_endpoint r = "") then "-" else tr_endpoint r)
  +:+ " contact-current=" +:+ (if tr_contactEstablishedThisProcess r then "yes" else "no")
  +:+ " sessions=" +:+ to_string (tr_sessionsEstablished r)
  +:+ " restarts=" +:+ to_string (tr_restartsObserved r)
  +:+ (if tr_applyPrepared r then " prepare-window=open" else "").

Definition renderDeliveryLine (d : DeliveryRecord) : string :=
  str (dr_id d) +:+ " target=" +:+ str (dr_target d) +:+ " key=" +:+ str (dr_key d)
  +:+ " generation=" +:+ to_string (value (dr_generation d))
  +:+ " digest=" +:+ shortDigest (dr_digest d)
  +:+ " state=" +:+ deliveryStateName (dr_state d)
  +:+ " attempt=" +:+ to_string (value (dr_attempt d))
  +:+ " failures=" +:+ to_string (dr_failures d)
  +:+ " guarantee=" +:+ applyGuaranteeName (dr_effectiveGuarantee d)
  +:+ " requirement=" +:+ guaranteeRequirementName (dr_requirement d)
  +:+ (if bool_decide (dr_lastError d = ErrorCode.Ok) then ""
       else " last-error=" +:+ errorCodeName (dr_lastError d))
  +:+ (if dr_acknowledgedFromReconcile d then " evidence=reconciliation" else "").

(** [out.append(render(x)); out.push_back('\n')] for every [x]. *)
Definition lines {A} (render : A → string) (l : list A) : string :=
  foldr (λ x out, line (render x) +:+ out) "" l.
Definition counted_lines {A} (what : string) (render : A → string) (l : list A) : string :=
  line (what +:+ ": " +:+ to_string (zlen l)) +:+ lines render l.

(** The name of a command, its usage, and what the catalogue says of it. *)
Definition kCommands : list (string * string * string) := [
  ("status", "status                      ", "controller identity, budgets and durable sizes");
  ("targets", "targets                     ", "every known target and its authoritative state");
  ("deliveries", "deliveries                  ", "every delivery record with its lifecycle state");
  ("pending", "pending                     ", "transfers and acknowledgements still outstanding");
  ("divergence", "divergence                  ", "generation divergence per (target, config key)");
  ("converge", "converge                    ", "deterministic convergence summary");
  ("explain", "explain <target>            ", "full explanation for one target");
  ("artifacts", "artifacts                   ", "artifact inventory");
  ("verify-artifacts", "verify-artifacts            ", "recompute every stored artifact digest");
  ("verify", "verify <target>             ", "open one verification session against a target");
  ("plan", "plan <path>                 ", "load and submit a deployment plan file");
  ("retire", "retire <deployment-id> [why]", "retire a delivery");
  ("lifecycle", "lifecycle                   ", "the delivery transition relation");
  ("shutdown", "shutdown                    ", "stop the controller cleanly")].
Definition renderControlCommands : string :=
  line "commands:" +:+ lines (λ c, "  " +:+ c.1.2 +:+ " " +:+ c.2) kCommands.

(** ** The command line *)

Record ControlRequest := mkControlRequest { rq_command : string; rq_arguments : list string }.

Definition quote : ascii := "034"%char.
Definition backslash : ascii := "092"%char.
Definition is_blank (c : ascii) : bool := bool_decide (c = " "%char) || bool_decide (c = "009"%char).
Definition push_back (text : string) (c : ascii) : string := text +:+ String.String c "".

(** The variables of the loop. *)
Record LineState := mkLineState {
  ls_request : ControlRequest;
  ls_current : string;
  ls_inQuotes : bool;
  ls_haveToken : bool;
}.

(** The token goes where there is room: the command first. *)
Definition take_token (token : string) (r : ControlRequest) : ControlRequest :=
  if decide (rq_command r = "") then mkControlRequest token (rq_arguments r)
  else mkControlRequest (rq_command r) (rq_arguments r ++ [token]).

Definition ls_push (c : ascii) (s : LineState) : LineState :=
  mkLineState (ls_request s) (push_back (ls_current s) c) (ls_inQuotes s) true.
Definition ls_quote (s : LineState) : LineState :=
  mkLineState (ls_request s) (ls_current s) (negb (ls_inQuotes s)) true.
Definition ls_blank (s : LineState) : LineState :=
  if ls_haveToken s
  then mkLineState (take_token (ls_current s) (ls_request s)) "" (ls_inQuotes s) false
  else s.

Fixpoint scan_line (s : LineState) (text : string) : LineState :=
  match text with
  | "" => s
  | String.String c rest =>
      if bool_decide (c = quote) then scan_line (ls_quote s) rest
      else if negb (ls_inQuotes s) && is_blank c then scan_line (ls_blank s) rest
      else match rest with
           | String.String d rest' =>
               if bool_decide (c = backslash) && ls_inQuotes s
               then scan_line (ls_push d s) rest'
               else scan_line (ls_push c s) rest
           | "" => scan_line (ls_push c s) rest
           end
  end.

Definition empty_line : LineState := mkLineState (mkControlRequest "" []) "" false false.

Definition parseControlLine (text : string) : Result ControlRequest :=
  let s := scan_line empty_line text in
  if ls_inQuotes s
  then fail ErrorCode.MalformedInput "control line has an unterminated quoted argument"
  else
    let request := if ls_haveToken s then take_token (ls_current s) (ls_request s)
                   else ls_request s in
    if decide (rq_command request = "")
    then fail ErrorCode.MissingField "control line has no command"
    else if zlen (rq_arguments request) >? kMaxControlArguments
    then fail ErrorCode.LimitExceeded "control line has too many arguments"
    else Ok request.

(** ** The commands *)

(** What a pending delivery waits for. *)
Definition awaiting (st : DeliveryState) : string :=
  match st with
  | DeliveryState.Applied => " awaiting=activation-acknowledgement"
  | DeliveryState.Offered | DeliveryState.Transferred => " awaiting=transfer-completion"
  | DeliveryState.Verified | DeliveryState.Staged => " awaiting=activation"
  | _ => ""
  end.
Definition renderPending (deliveries : list DeliveryRecord) : string :=
  counted_lines "pending" (λ d, renderDeliveryLine d +:+ awaiting (dr_state d))
    (List.filter (λ d, isPendingState (dr_state d)) deliveries).

Definition renderDivergence (report : ConvergenceReport) : string :=
  line ("fingerprint: " +:+ ConvergenceReport_fingerprint report)
  +:+ lines (λ l, str (ln_target l) +:+ " key=" +:+ str (ln_key l)
                  +:+ " desired=" +:+ to_string (value (ln_desiredGeneration l))
                  +:+ " current=" +:+ generation_or_none "none" (ln_currentGeneration l)
                  +:+ " state=" +:+ deliveryStateName (ln_state l)
                  +:+ " outcome=" +:+ (if ln_converged l then "converged" else "not-converged"))
        (cr_lineages report).

Definition renderVerification (results : list (Digest * Status)) : string :=
  let failures := zlen (List.filter (λ e : Digest * Status, negb (is_ok e.2)) results) in
  lines (λ e : Digest * Status, str_take 12 (digest_hex e.1) +:+ " "
                                +:+ (if is_ok e.2 then "ok" else result_str e.2)) results
  +:+ line ("verified: " +:+ to_string (zlen results - failures)
            +:+ " failures: " +:+ to_string failures).

Definition renderCreated (plan : DeploymentPlan) (created : list DeploymentId) : string :=
  line ("plan " +:+ str (pl_setId plan) +:+ " accepted, deliveries=" +:+ to_string (zlen created))
  +:+ lines (λ id, "  " +:+ str id) created.

Section channel.
Context (opts : DistributorOptions) (env : Env) (controlPort : Z).

(** The first argument, or the error of its absence. *)
Definition with_argument {A} (request : ControlRequest) (missing : string) (k : string → M A) : M A :=
  match rq_arguments request with
  | [] => s_lift (fail ErrorCode.MissingField missing)
  | a :: _ => k a
  end.

Definition runPlan (path : string) : M string :=
  let& s := get_shared in
  let& plan := s_lift (loadDeploymentPlanFile path (sh_fs s)) in
  let& created := submitPlan opts env plan in
  s_ret (renderCreated plan created).

Definition runRetire (request : ControlRequest) (text : string) : M string :=
  let& id := s_lift (parseDeploymentId text) in
  let reason := joinArguments (rq_arguments request) 1 in
  let reason := if decide (reason = "") then "retired by operator request" else reason in
  do& retireDeployment env id reason in
  s_ret (line ("retired " +:+ str id)).

Definition executeControlCommand (request : ControlRequest) : M string :=
  let command := rq_command request in
  let named name := bool_decide (command = name) in
  if named "status" then statusText opts env controlPort
  else if named "targets" then
    let& l := targets env in s_ret (counted_lines "targets" renderTargetLine l)
  else if named "deliveries" then
    let& l := deliveries env in s_ret (counted_lines "deliveries" renderDeliveryLine l)
  else if named "pending" then
    let& l := deliveries env in s_ret (renderPending l)
  else if named "divergence" || named "converge" then
    let& report := convergence opts env in
    s_ret (if named "divergence" then renderDivergence report else ConvergenceReport_render report)
  else if named "explain" then
    with_argument request "explain needs a target id" (λ text,
      let& target := s_lift (parseTargetId text) in explain opts env target)
  else if named "artifacts" then
    let& l := artifacts env in s_ret (counted_lines "artifacts" renderArtifactMetadata l)
  else if named "verify-artifacts" then
    let& results := verifyArtifacts env in s_ret (renderVerification results)
  else if named "plan" then with_argument request "plan needs a file path" runPlan
  else if named "retire" then
    with_argument request "retire needs a deployment id" (runRetire request)
  else if named "verify" then
    with_argument request "verify needs a target id" (λ text,
      let& target := s_lift (parseTargetId text) in
      do& requestVerification env target in
      s_ret (line ("verification session requested for " +:+ str target)))
  else if named "lifecycle" then s_ret renderTransitionTable
  else if named "shutdown" then s_ret (line "shutdown requested")
  else s_lift (fail_detail ErrorCode.NotFound "unknown control command" command).

(** ** Serving a connection *)

(** [connection->send] of an encoded message, within the default limit. *)
Definition control_send (type : FrameType) (flags : Z) (encoded : Result (list byte)) : M unit :=
  let& payload := s_lift encoded in send_framed env kDefaultMaxPayloadBytes type flags payload.

(** The response to a result; a contract failure ends the process before. *)
Definition response_to (body : Result string) : ControlResponseMessage :=
  match body with
  | Ok text => mkControlResponseMessage ErrorCode.Ok text
  | Fail e => mkControlResponseMessage (code e) (Error_str e)
  | Abort _ => mkControlResponseMessage ErrorCode.Internal ""
  end.

(** The greeting: nothing is read of the state, and nothing is sent, before the
    tag of the client verified. *)
Definition controlGreeting : M unit :=
  let& frame := m_receive in
  if negb (frame_is FrameType.ControlHello frame) then unexpected "expected a control hello" frame
  else
    let& hello := s_lift (decodeControlHello (fpayload frame)) in
    do& s_lift (if o_authenticate opts then verifyAuthenticated (fpayload frame) (o_key opts)
                else Ok tt) in
    let& e := epoch env in
    let& incarnation := call (env_random env) in
    control_send FrameType.ControlHelloAck kFrameFlagResponse
      (encodeControlHelloAck (mkControlHelloAckMessage (o_nodeId opts) e (mkOpaque incarnation)
                                (ch_nonce hello) zero_tag)).

(** One iteration of the request loop: [None] goes on, [Some shutdown] ends the
    connection, with [requestShutdown] when it is [true]. *)
Definition controlRequest : M (option bool) :=
  let& frame := m_receive in
  if frame_is FrameType.Goodbye frame then s_ret (Some false)
  else if negb (frame_is FrameType.ControlRequest frame)
  then unexpected "expected a control request" frame
  else
    let& request := s_lift (decodeControlRequest (fpayload frame)) in
    let parsed := mkControlRequest (cq_command request) (cq_arguments request) in
    let& body := s_try (executeControlCommand parsed) in
    do& control_send FrameType.ControlResponse kFrameFlagResponse
          (encodeControlResponse (response_to body)) in
    s_ret (if decide (rq_command parsed = "shutdown") then Some true else None).

(** The loop; every iteration that goes on takes a frame. *)
Fixpoint serve_requests (fuel : nat) : M bool :=
  match fuel with
  | O => s_ret false
  | S fuel =>
      let& ended := controlRequest in
      match ended with Some shutdown => s_ret shutdown | None => serve_requests fuel end
  end.

(** Whether shutdown was requested, on a connection that ended in order. *)
Definition serveControlConnection : M bool :=
  do& controlGreeting in
  let& frames := s_get (λ w, length (w_inbox w)) in
  serve_requests (S frames).

(** A connection accepted, whose peer delivers [inbox]. *)
Definition handleControlConnection (inbox : list (Result Frame)) : M bool :=
  do& s_modify (λ w, set_open true (set_inbox inbox (set_sent [] w))) in
  serveControlConnection.

(** The control thread over what [accept] returned. *)
Fixpoint controlLoop (accepts : list (Result (list (Result Frame)))) : M unit :=
  match accepts with
  | [] => s_ret tt
  | accepted :: accepts =>
      let& stop := stopRequested env in
      if (stop : bool) then s_ret tt
      else match accepted with
           | Ok inbox => do& s_try (handleControlConnection inbox) in controlLoop accepts
           | Fail e => if bool_decide (code e = ErrorCode.ShuttingDown) then s_ret tt
                       else controlLoop accepts
           | Abort why => s_lift (Abort why)
           end
  end.
End channel.

(** ** The client *)

Section client.
Context (env : Env).

Definition sayControlGoodbye : M unit :=
  match encodeGoodbye (mkGoodbyeMessage ErrorCode.Ok "control session complete") with
  | Ok bytes =>
      do& s_try (send_framed env kDefaultMaxPayloadBytes FrameType.Goodbye 0 bytes) in s_ret tt
  | Fail _ => s_ret tt
  | Abort why => s_lift (Abort why)
  end.

(** The text the client makes of the response. *)
Definition client_result (ack : ControlHelloAckMessage) (response : ControlResponseMessage)
    : Result string :=
  if negb (bool_decide (cr_code response = ErrorCode.Ok))
  then fail_detail (cr_code response) "controller rejected the command" (cr_body response)
  else Ok (cr_body response +:+ "node: " +:+ str (cha_nodeId ack) +:+ " epoch="
           +:+ to_string (value (cha_epoch ack)) +:+ newline).

Definition runControlCommand (key : list byte) (authenticate : bool) (request : ControlRequest)
    : M string :=
  let& dialled := call (env_dial env) in
  let& inbox := s_lift dialled in
  do& s_modify (λ w, set_open true (set_inbox inbox (set_sent [] w))) in
  let& nonce := call (env_random env) in
  let& hello := s_lift (encodeControlHello (mkControlHelloMessage "cfctl" (mkOpaque nonce) zero_tag)) in
  let& hello := s_lift (if authenticate then sealAuthenticated hello key else Ok hello) in
  do& send_framed env kDefaultMaxPayloadBytes FrameType.ControlHello 0 hello in
  let& ackFrame := m_receive in
  if negb (frame_is FrameType.ControlHelloAck ackFrame)
  then unexpected "controller did not answer the control hello" ackFrame
  else
    let& ack := s_lift (decodeControlHelloAck (fpayload ackFrame)) in
    do& control_send env FrameType.ControlRequest 0
          (encodeControlRequest (mkControlRequestMessage (rq_command request) (rq_arguments request))) in
    let& responseFrame := m_receive in
    if negb (frame_is FrameType.ControlResponse responseFrame)
    then unexpected "controller did not answer the control request" responseFrame
    else
      let& response := s_lift (decodeControlResponse (fpayload responseFrame)) in
      do& sayControlGoodbye in
      do& s_modify (set_open false) in
      s_lift (client_result ack response).
End client.
