(* ===== verification/ControlLine.v ===== *)
(** * The control command line

    Every request can be typed: a token is typed bare or between quotes, and
    the parser of Control.v reads the typed line back. *)

From Stdlib Require Import Strings.Byte Strings.Ascii.
From S2P Require Import Prelude Result Files Messages Control.

(** ** Typing a token *)

Fixpoint string_all (p : ascii → bool) (s : string) : bool :=
  match s with "" => true | String.String c s => p c && string_all p s end.

(** A character that stands for itself outside quotes. *)
Definition is_bare (c : ascii) : bool := negb (bool_decide (c = quote)) && negb (is_blank c).

(** Inside quotes, a quote or a backslash is preceded by a backslash. *)
Fixpoint escape (token : string) : string :=
  match token with
  | "" => ""
  | String.String c token =>
      if bool_decide (c = quote) || bool_decide (c = backslash)
      then String.String backslash (String.String c (escape token))
      else String.String c (escape token)
  end.
Definition quoted (token : string) : string :=
  String.String quote (escape token +:+ String.String quote "").

(** The ways to type a token. *)
Inductive typed : string → string → Prop :=
  | typed_bare token : token ≠ "" → string_all is_bare token = true → typed token token
  | typed_quoted token : typed token (quoted token).

(** ** Lemmas *)

Lemma push_back_cons text c rest : push_back text c +:+ rest = text +:+ String.String c rest.
Proof.
  unfold push_back. induction text as [|x text IH]; [done|].
  change (String.String x ((text +:+ String.String c "") +:+ rest)
          = String.String x (text +:+ String.String c rest)). by rewrite IH.
Qed.

Lemma append_nil (s : string) : s +:+ "" = s.
Proof. induction s as [|x s IH]; [done|]. change (String.String x (s +:+ "") = String.String x s). by rewrite IH. Qed.

(** [n] further characters of the current token. *)
Definition ls_extend (token : string) (s : LineState) : LineState :=
  mkLineState (ls_request s) (ls_current s +:+ token) (ls_inQuotes s) true.

(** A character that stands for itself. *)
Lemma scan_plain c s rest :
  bool_decide (c = quote) = false → negb (ls_inQuotes s) && is_blank c = false →
  bool_decide (c = backslash) && ls_inQuotes s = false →
  scan_line s (String.String c rest) = scan_line (ls_push c s) rest.
Proof. intros H1 H2 H3. destruct rest; cbn [scan_line]; by rewrite H1, H2, ?H3. Qed.

Lemma scan_escape d s rest :
  ls_inQuotes s = true →
  scan_line s (String.String backslash (String.String d rest)) = scan_line (ls_push d s) rest.
Proof.
  intros Hq. cbn [scan_line]. rewrite (bool_decide_false (backslash = quote)) by done. rewrite Hq.
  by rewrite (bool_decide_true (backslash = backslash)).
Qed.

Lemma scan_bare token s rest :
  ls_inQuotes s = false → token ≠ "" → string_all is_bare token = true →
  scan_line s (token +:+ rest) = scan_line (ls_extend token s) rest.
Proof.
  intros Hq. revert s Hq. induction token as [|c token IH]; intros s Hq Hne Hall; [done|].
  cbn [string_all] in Hall. apply andb_true_iff in Hall as [Hc Hall].
  unfold is_bare in Hc. apply andb_true_iff in Hc as [Hnq%negb_true_iff Hnb%negb_true_iff].
  change (String.String c token +:+ rest) with (String.String c (token +:+ rest)).
  assert (scan_line s (String.String c (token +:+ rest)) = scan_line (ls_push c s) (token +:+ rest)) as ->
    by (apply scan_plain; [done|by rewrite Hnb, andb_false_r|by rewrite Hq, andb_false_r]).
  assert (ls_extend (String.String c token) s = mkLineState (ls_request s)
            (ls_current (ls_push c s) +:+ token) (ls_inQuotes s) true) as ->
    by (unfold ls_extend; cbn; by rewrite push_back_cons).
  destruct (decide (token = "")) as [->|Ht].
  - cbn [ls_push ls_current]. by rewrite append_nil.
  - by rewrite (IH (ls_push c s)).
Qed.

Lemma scan_escaped token s rest :
  ls_inQuotes s = true → ls_haveToken s = true →
  scan_line s (escape token +:+ String.String quote rest)
  = scan_line (mkLineState (ls_request s) (ls_current s +:+ token) false true) rest.
Proof.
  revert s. induction token as [|c token IH]; intros s Hq Ht.
  { rewrite append_nil. cbn. destruct s as [r cur q h]. cbn in *. by subst. }
  assert (∀ s', ls_inQuotes s' = true → ls_request s' = ls_request s →
            ls_current s' = push_back (ls_current s) c → ls_haveToken s' = true →
            scan_line s' (escape token +:+ String.String quote rest)
            = scan_line (mkLineState (ls_request s) (ls_current s +:+ String.String c token) false true) rest)
    as Hnext.
  { intros s' Hq' Hr' Hc' Ht'. rewrite IH, Hr', Hc', push_back_cons by done. done. }
  cbn [escape]. destruct (bool_decide (c = quote)) eqn:Hcq; cbn [orb].
  - apply bool_decide_eq_true in Hcq as ->. rewrite !append_cons, scan_escape by done. by apply Hnext.
  - destruct (bool_decide (c = backslash)) eqn:Hcb.
    + apply bool_decide_eq_true in Hcb as ->. rewrite !append_cons, scan_escape by done. by apply Hnext.
    + rewrite append_cons, scan_plain by (rewrite ?Hq, ?Hcb; done). by apply Hnext.
Qed.

(** A typed token, from the beginning of a word. *)
Lemma scan_typed token text s rest :
  typed token text → ls_inQuotes s = false → ls_current s = "" → ls_haveToken s = false →
  scan_line s (text +:+ rest) = scan_line (mkLineState (ls_request s) token false true) rest.
Proof.
  intros Ht Hq Hc Hh. destruct Ht as [token Hne Hall|token].
  - rewrite scan_bare by done. unfold ls_extend. by rewrite Hc, Hq.
  - unfold quoted.
    change (String.String quote (escape token +:+ String.String quote "") +:+ rest)
      with (String.String quote ((escape token +:+ String.String quote "") +:+ rest)).
    cbn [scan_line]. rewrite bool_decide_true by done. unfold ls_quote. rewrite Hq.
    replace ((escape token +:+ String.String quote "") +:+ rest)
      with (escape token +:+ String.String quote rest).
    + rewrite scan_escaped by done. cbn. by rewrite Hc.
    + induction (escape token) as [|x e IH]; [done|].
      change (String.String x (e +:+ String.String quote rest)
              = String.String x ((e +:+ String.String quote "") +:+ rest)). by rewrite IH.
Qed.

Definition take_tokens (tokens : list string) (r : ControlRequest) : ControlRequest :=
  foldl (λ r token, take_token token r) r tokens.

(** The words of a line, from the beginning of the first. *)
Lemma scan_words tokens texts r :
  Forall2 typed tokens texts → tokens ≠ [] →
  let s := scan_line (mkLineState r "" false false) (String.concat " " texts) in
  ls_inQuotes s = false ∧ ls_haveToken s = true
  ∧ take_token (ls_current s) (ls_request s) = take_tokens tokens r.
Proof.
  intros Hall. revert r. induction Hall as [|token text tokens texts Ht Hall IH]; intros r Hne; [done|].
  cbv zeta. destruct Hall as [|token' text' tokens texts Ht' Hall].
  - cbn [String.concat]. rewrite <- (append_nil text), (scan_typed token text) by done. done.
  - change (String.concat " " (text :: text' :: texts))
      with (text +:+ String.String " "%char (String.concat " " (text' :: texts))).
    rewrite (scan_typed token text) by done.
    assert (∀ rest, scan_line (mkLineState r token false true) (String.String " "%char rest)
                    = scan_line (mkLineState (take_token token r) "" false false) rest) as ->
      by (intros rest; by destruct rest).
    apply (IH (take_token token r)). done.
Qed.

Lemma take_arguments tokens command arguments :
  command ≠ "" →
  take_tokens tokens (mkControlRequest command arguments) = mkControlRequest command (arguments ++ tokens).
Proof.
  intros Hne. revert arguments. induction tokens as [|t tokens IH]; intros arguments.
  { by rewrite app_nil_r. }
  cbn [take_tokens foldl]. unfold take_token at 2. cbn [rq_command]. rewrite decide_False by done.
  cbn [rq_arguments]. etransitivity; [apply IH|]. by rewrite <- app_assoc.
Qed.

Lemma parse_accepted line request :
  parseControlLine line = Ok request →
  rq_command request ≠ "" ∧ zlen (rq_arguments request) <= kMaxControlArguments.
Proof.
  unfold parseControlLine. destruct (ls_inQuotes _); [done|].
  set (r := if ls_haveToken _ then _ else _).
  case_decide; [done|]. destruct (Z.gtb_spec (zlen (rq_arguments r)) kMaxControlArguments); [done|].
  by intros [= <-].
Qed.

(** ** Properties *)

(** C30: the command line. Every request with a command and at most sixteen
    arguments - whatever characters they hold, blanks, quotes, backslashes or
    none at all - is what the parser reads when each of its words is typed, bare
    where possible or between quotes with escapes; and whatever the parser
    accepts has a command and at most sixteen arguments. *)
Theorem parseControlLine_typed request texts line
    (Htyped : Forall2 typed (rq_command request :: rq_arguments request) texts)
    (Hcommand : rq_command request ≠ "")
    (Hcount : zlen (rq_arguments request) <= kMaxControlArguments) :
  parseControlLine (String.concat " " texts) = Ok request
  ∧ ∀ accepted, parseControlLine line = Ok accepted →
      rq_command accepted ≠ "" ∧ zlen (rq_arguments accepted) <= kMaxControlArguments.
Proof.
  split; [|intros accepted; apply parse_accepted].
  destruct (scan_words _ texts (mkControlRequest "" []) Htyped ltac:(done)) as (Hq & Ht & Htake).
  assert (take_tokens (rq_command request :: rq_arguments request) (mkControlRequest "" []) = request)
    as Hall.
  { change (take_tokens (rq_arguments request) (mkControlRequest (rq_command request) []) = request).
    rewrite take_arguments by done. by destruct request. }
  unfold parseControlLine, empty_line. rewrite Hq, Ht, Htake, Hall. rewrite decide_False by done.
  by destruct (Z.gtb_spec (zlen (rq_arguments request)) kMaxControlArguments); [lia|].
Qed.

(** [plan "/tmp/my plan"] and an empty argument. *)
Lemma parseControlLine_typed_witness :
  parseControlLine ("plan " +:+ quoted "/tmp/my plan" +:+ " " +:+ quoted "")
  = Ok (mkControlRequest "plan" ["/tmp/my plan"; ""]).
Proof.
  apply (parseControlLine_typed (mkControlRequest "plan" ["/tmp/my plan"; ""])
           ["plan"; quoted "/tmp/my plan"; quoted ""] "").
  - constructor; [apply typed_bare; [discriminate|reflexivity]|].
    repeat (constructor; [apply typed_quoted|]). constructor.
  - discriminate.
  - vm_compute. discriminate.
Defined.

(** An empty first word is dropped: the next one becomes the command. *)
Example empty_command_skipped :
  parseControlLine (quoted "" +:+ " status") = Ok (mkControlRequest "status" []).
Proof. reflexivity. Qed.
