(* ===== verification/DistributorExample.v ===== *)
(** * A distributor and an agent to run

    A distributor opened on an empty directory, an operating system that never
    fails, one plan for the agent of AgentExample.v, and the conversation of the
    two: each is run on the frames the other sent. *)

From stdpp Require Import gmap.
From Stdlib Require Import Strings.Byte.
From S2P Require Import Plan.
From S2P Require Import Prelude Result StdMap Hash Ids Codec Lifecycle Policy Files Journal Snapshot.
From S2P Require Import Artifact ArtifactStore Endpoint FaultPlan Frame Records Messages State Store.
From S2P Require Import Effects Distributor DistributorControl.
From S2P Require Agent AgentStart AgentExample.

Definition example_options : DistributorOptions :=
  mkDistributorOptions (mkString "n1") "c" "store" 1048576 16777216 16 defaultPolicy [Byte.x41] true
    "127.0.0.1" [].

Definition open_answers : OpenAnswers :=
  mkOpenAnswers false (λ _, false) (λ fs, (map_to_list fs).*1) Written (Restarted Written) EndsInClose
    (repeat Byte.x01 16) 1700000000000 Written (no_faults, [], Restarted Written).

(** Nothing fails and nobody interferes; the peer delivers [inbox]. *)
Definition calm_env (inbox : list (Result Frame)) : Env :=
  mkEnv (λ _ s, s) (λ _, Written) (λ _, Ok inbox) (λ _, None) (λ _, false) (λ _, repeat Byte.x22 16)
    (λ n, 1700000000000 + Z.of_nat n mod 2 ^ 40) (λ _, no_ingest_faults) (λ _ _, no_verify_faults) (λ _, false)
    (λ _, no_read_fault) (λ _, (no_faults, [], Restarted Written)).

Definition empty_shared : Shared :=
  mkShared ∅ (mkStore (mkStoreOptions "" "" 0) (mkJournal "" 0 num_unset 0) ControllerState_default false)
    (empty_store (artifact_options example_options)) ∅ ∅ [].
Definition world_of (s : Shared) : World := mkWorld s [] [] false 0 0.

Definition plan_source : FileSystem := {["src" := AgentExample.example_content]}.

(** One instruction, which declares that the target offers [guarantee]. *)
Definition example_instruction (guarantee : ApplyGuarantee) : DeploymentInstruction :=
  mkInstruction (mkString "t1") TargetClass.NetworkDevice guarantee (mkString "k1")
    (mkString "a1") (fromValue 1) (fromValue 5) (mkString "schema") (fromValue 1)
    (Digest_ofContent AgentExample.example_content) 5 GuaranteeRequirement.AllowPrepareCommit
    "application/octet-stream" "" "src" "10.0.0.1:7001".
Definition example_plan (guarantee : ApplyGuarantee) : DeploymentPlan :=
  mkPlan (mkString "set1") id_empty [example_instruction guarantee].

(** The distributor opened on an empty directory. *)
Definition opened : Shared :=
  match (distributor_open example_options open_answers plan_source).2 with
  | Ok s => s
  | _ => empty_shared
  end.
(** ... and with the plan submitted. *)
Definition submitted (guarantee : ApplyGuarantee) : World :=
  (submitPlan example_options (calm_env []) (example_plan guarantee) (world_of opened)).1.

(** ** The conversation *)

Definition frame_of_message (m : Message) : Frame :=
  mkFrame (frame_header (m_type m) (m_flags m) (m_payload m)) (m_payload m).

(** One session of the agent on the frames it receives: what it answers. *)
Definition agent_answers (guarantee : ApplyGuarantee) (sent : list Message) : Agent.World :=
  (Agent.serve (AgentExample.example_agent guarantee) (AgentExample.calm_env [])
     (Agent.set_inbox (map (λ m, Ok (frame_of_message m)) sent)
        (AgentExample.opened_world guarantee))).1.

(** The distributor's session on the frames it receives. *)
Definition session_on (inbox : list (Result Frame)) (w : World) : World :=
  (worker_pass example_options (calm_env inbox) w).1.

Definition answers (a : Agent.World) : list (Result Frame) :=
  map (λ m, Ok (frame_of_message m)) (Agent.w_sent a).

(** Each runs on what the other said, until nothing new is said. *)
Fixpoint converse (rounds : nat) (guarantee : ApplyGuarantee) (inbox : list (Result Frame)) (w : World)
    : World * Agent.World :=
  let w' := session_on inbox w in
  let a := agent_answers guarantee (w_sent w') in
  match rounds with
  | O => (w', a)
  | S rounds =>
      if (length (answers a) =? length inbox)%nat then (w', a)
      else converse rounds guarantee (answers a) w
  end.

(** What the agent says in the end: the plan declares the guarantee the agent
    has, or one it does not have. *)
Definition transcript_atomic : list (Result Frame) := Eval vm_compute in
  answers (converse 30 ApplyGuarantee.AtomicActivate [] (submitted ApplyGuarantee.AtomicActivate)).2.
Definition transcript_window : list (Result Frame) := Eval vm_compute in
  answers (converse 30 ApplyGuarantee.PrepareCommitAbort [] (submitted ApplyGuarantee.PrepareCommitAbort)).2.
Definition transcript_refused : list (Result Frame) := Eval vm_compute in
  answers (converse 30 ApplyGuarantee.PrepareCommitAbort [] (submitted ApplyGuarantee.AtomicActivate)).2.

(** What the parties end with: the state of every delivery, the failures it
    counts, the committed generation of every target as the distributor believes
    it, and as the agent has it. *)
Definition outcome (ends : World * Agent.World)
    : list (DeliveryState * Z) * list Generation * Generation :=
  let s := shared_state (w_shared ends.1) in
  (map (λ d, (dr_state d, dr_failures d)) (map snd (cs_deliveries s)),
   map tr_committedGeneration (map snd (cs_targets s)),
   committedGeneration (as_commit (Agent.w_state ends.2))).

(** The distributor, given a plan that declares one guarantee, runs on a
    transcript; the agent that offers another runs on what the distributor sent:
    what it answers, and what both end with. *)
Definition exchange (declared offered : ApplyGuarantee) (transcript : list (Result Frame)) :=
  let w := session_on transcript (submitted declared) in
  let a := agent_answers offered (w_sent w) in
  (answers a, outcome (w, a)).
