(* ===== verification/DistributorLogic.v ===== *)
(** * A program logic for the distributor

    The invariant of the controller state while sessions run - it is well
    formed, and every activation or acknowledgement it claims rests on evidence
    a target sent - and that every step of a session keeps it, whatever the
    other threads do as long as they keep it too. *)

From stdpp Require Import gmap sorting.
From Stdlib Require Import Strings.Byte.
From S2P Require Import Prelude Result StdMap Checked Hash Ids Text Codec Lifecycle Policy Files.
From S2P Require Import Journal Snapshot Artifact ArtifactStore Endpoint FaultPlan Frame Records.
From S2P Require Import Messages Protocol Reconciliation State Convergence Store Effects Distributor.

Lemma Forall_elem {A} (P : A → Prop) l x : Forall P l → x ∈ l → P x.
Proof. intros Hl Hx. rewrite List.Forall_forall in Hl. by apply Hl, list_elem_of_In. Qed.

(** ** Evidence *)

(** What an identity stands for. *)
Record Subject := mkSubject {
  sb_target : TargetId;
  sb_generation : Generation;
  sb_digest : Digest;
}.
Definition subject_of (d : DeliveryRecord) : Subject :=
  mkSubject (dr_target d) (dr_generation d) (dr_digest d).

(** The frames hold a greeting of the target with this authority, under the
    shared key when the distributor authenticates. *)
Definition greeting (opts : DistributorOptions) (inbox : list (Result Frame)) (target : TargetId)
    (term : Term) (incarnation : IncarnationId) : Prop :=
  ∃ frame ack, Ok frame ∈ inbox ∧ ftype (header frame) = FrameType.HelloAck
    ∧ decodeHelloAck (fpayload frame) = Ok ack ∧ ha_target ack = target ∧ ha_term ack = term
    ∧ ha_incarnation ack = incarnation
    ∧ (o_authenticate opts = true → verifyAuthenticated (fpayload frame) (o_key opts) = Ok tt).

(** The report says the target runs the content, or recorded activating it. *)
Definition report_shows (report : ReconcileReportMessage) (generation : Generation) (digest : Digest)
    : Prop :=
  (rp_committedGeneration report = generation ∧ rp_committedDigest report = digest)
  ∨ ∃ f, f ∈ rp_findings report ∧ rf_generation f = generation ∧ rf_digest f = digest
      ∧ isActivationState (rf_state f) = true.

(** The frame proves the activation of the delivery, to the session that met
    this authority. Only the last kind falls short of an acknowledgement. *)
Inductive proof_frame (term : Term) (incarnation : IncarnationId) (id : DeploymentId) (sb : Subject)
    (frame : Frame) : bool → Prop :=
  | by_acknowledgement acked ack :
      ftype (header frame) = FrameType.DeliveryAck → decodeDeliveryAck (fpayload frame) = Ok ack →
      da_deployment ack = id → da_generation ack = sb_generation sb → da_digest ack = sb_digest sb →
      da_term ack = term → da_incarnation ack = incarnation →
      proof_frame term incarnation id sb frame acked
  | by_suppression acked ack :
      ftype (header frame) = FrameType.PrepareAck → decodePrepareAck (fpayload frame) = Ok ack →
      pa_deployment ack = id → pa_duplicateSuppressed ack = true →
      proof_frame term incarnation id sb frame acked
  | by_report acked report :
      ftype (header frame) = FrameType.ReconcileReport →
      decodeReconcileReport (fpayload frame) = Ok report → rp_target report = sb_target sb →
      rp_term report = term → rp_incarnation report = incarnation → rp_applyPrepared report = false →
      report_shows report (sb_generation sb) (sb_digest sb) →
      proof_frame term incarnation id sb frame acked
  | by_commit ack :
      ftype (header frame) = FrameType.ApplyCommitAck →
      decodeApplyCommitAck (fpayload frame) = Ok ack → aca_committed ack = true →
      aca_committedGeneration ack = sb_generation sb → aca_committedDigest ack = sb_digest sb →
      proof_frame term incarnation id sb frame false.

(** A connection the environment dialled carried the greeting of the subject's
    target and the proof. [acked]: the proof supports an acknowledgement. *)
Definition evidence (opts : DistributorOptions) (env : Env) (acked : bool) (id : DeploymentId)
    (sb : Subject) : Prop :=
  ∃ n inbox term incarnation frame, env_dial env n = Ok inbox
    ∧ greeting opts inbox (sb_target sb) term incarnation ∧ Ok frame ∈ inbox
    ∧ proof_frame term incarnation id sb frame acked.

(** The values the operating system answers have their types. *)
Definition env_typed (env : Env) : Prop := ∀ n, fits_i64 (env_now env n).

(** ** What the records do to the deliveries *)

(** A target record does not concern deliveries. *)
Lemma target_upsert_deliveries s payload :
  cs_deliveries (Controller_apply s JournalRecordType.TargetUpsert payload).1 = cs_deliveries s.
Proof.
  apply (keeps_run (λ s', cs_deliveries s' = cs_deliveries s)); [|done].
  apply keeps_read with (w := writeTargetRuntime) (wf := runtime_stored); [apply _|].
  intros r _. by apply keeps_set.
Qed.

Lemma upsert_applies d s payload :
  delivery_wf d → encodeDeliveryRecord d = Ok payload →
  (Controller_apply s JournalRecordType.DeliveryUpsert payload).1
  = cs_set_deliveries (map_assign (dr_id d) d (cs_deliveries s)) s.
Proof.
  intros Hwf He. rewrite encodeDeliveryRecord_wf in He by done.
  destruct (wire_complete (p := readDeliveryRecord) _ Hwf) as (bs & Hbs & Hp).
  rewrite He in Hbs. injection Hbs as ->.
  unfold Controller_apply. cbn [Controller_apply_step].
  by rewrite (run_apply_reads readDeliveryRecord
    (λ record s, cs_set_deliveries (map_assign (dr_id record) record (cs_deliveries s)) s) s bs d Hp).
Qed.

(** A record without identity is written and refused. *)
Lemma upsert_refused d s payload :
  dr_id d = id_empty → encodeDeliveryRecord d = Ok payload →
  (Controller_apply s JournalRecordType.DeliveryUpsert payload).1 = s.
Proof.
  intros Hid He. assert (∃ rest, payload = repeat Byte.x00 4 ++ rest) as [rest ->].
  { revert He. unfold encodeDeliveryRecord.
    destruct (checkBounded (str (dr_id d)) _ _) as [[]| |]; [|done..].
    destruct (checkBounded (dr_lastDetail d) _ _) as [[]| |]; [|done..]. cbn [try_bind].
    destruct (_ >? _); [done|]. unfold writeDeliveryRecord. rewrite Hid.
    intros He. apply w_append_Ok in He as (bs1 & bs2 & E1 & _ & ->). exists bs2. f_equal.
    vm_compute in E1. by injection E1 as <-. }
  unfold Controller_apply, run_apply. cbn [Controller_apply_step]. unfold st_bind at 1, st_read at 1.
  unfold readDeliveryRecord, p_bind at 1, read_id at 1, p_bind at 1.
  destruct (wire_complete (p := Read.string kMaxIdentifierLength) "") as (bs & Hbs & Hp); [by vm_compute|].
  vm_compute in Hbs. injection Hbs as <-.
  by rewrite (Hp (reader (repeat Byte.x00 4 ++ rest)) rest eq_refl).
Qed.

(** ** Well-formed updates *)

Lemma bounded_detail_fits detail : text_fits kMaxDeliveryDetailBytes (bounded_detail detail).
Proof.
  pose proof (str_take_length (Z.to_nat kMaxDeliveryDetailBytes) detail) as H.
  unfold bounded_detail, text_fits. change (Z.of_nat (Z.to_nat kMaxDeliveryDetailBytes)) with 192 in H.
  revert H. generalize (slen (str_take (Z.to_nat kMaxDeliveryDetailBytes) detail)). intros n Hn.
  change kMaxDeliveryDetailBytes with 192. change kAbsoluteMaxFieldBytes with 1048576. lia.
Qed.

Lemma bounded_events_wf events event :
  Forall event_wf events → event_wf event →
  zlen (bounded_events events event) <= kMaxEventsPerDelivery
  ∧ Forall event_wf (bounded_events events event).
Proof.
  intros He Hv. unfold bounded_events. split.
  - unfold zlen. rewrite length_drop. change (Z.to_nat kMaxEventsPerDelivery) with 64%nat.
    change kMaxEventsPerDelivery with 64. lia.
  - apply Forall_drop, Forall_app. by split; [|constructor].
Qed.

Lemma dr_event_wf d event now :
  delivery_wf d → event_wf event → fits_i64 now → delivery_wf (dr_event event now d).
Proof.
  intros Hd He Hn. destruct (dwf_events d Hd) as [_ Hev]. destruct Hd. split; cbn; try done.
  by apply bounded_events_wf.
Qed.
Lemma dr_outcome_wf d st c detail :
  delivery_wf d → text_fits kMaxDeliveryDetailBytes detail → delivery_wf (dr_outcome st c detail d).
Proof. intros [] Hd. by split. Qed.
Lemma dr_authority_wf d s :
  delivery_wf d → controller_wf s → delivery_wf (dr_authority (cs_epoch s) (cs_incarnation s) d).
Proof. intros [] []. by split. Qed.
Lemma dr_budget_wf d attempt failures :
  delivery_wf d → fits 64 (value attempt) → fits 32 failures → delivery_wf (dr_budget attempt failures d).
Proof. intros [] ? ?. by split. Qed.
Lemma dr_closing_wf d b b' : delivery_wf d → delivery_wf (dr_closing b b' d).
Proof. by intros []. Qed.

Lemma checkedAdd_fits w a b c : 0 <= w → checkedAdd w a b = Some c → fits w c.
Proof.
  intros Hw. unfold checkedAdd. destruct (_ >? _); [done|]. intros [= <-].
  by apply Z.mod_pos_bound, Z.pow_pos_nonneg.
Qed.

Lemma event_of_record_wf s d kind from to c directive fromReconciliation now detail :
  controller_wf s → delivery_wf d → fits_i64 now → text_fits kMaxDeliveryDetailBytes detail →
  event_wf (mkLifecycleEvent kind from to (dr_generation d) (dr_digest d) c directive (cs_epoch s)
              (cs_incarnation s) (dr_targetTerm d) (dr_targetIncarnation d) fromReconciliation now detail).
Proof.
  intros [] [] Hn [Hd1 Hd2]. split; cbn; try done. split; [|done].
  revert Hd1. change kMaxDeliveryDetailBytes with 192. change kMaxEvidenceDetailBytes with 256. lia.
Qed.

Lemma transitioned_wf s d to kind c b now detail :
  controller_wf s → delivery_wf d → fits_i64 now → text_fits kMaxDeliveryDetailBytes detail →
  delivery_wf (transitioned s d to kind c b now detail).
Proof.
  intros Hs Hd Hn Ht. apply dr_event_wf; [|by apply event_of_record_wf|done].
  apply dr_authority_wf; [|done]. by apply dr_outcome_wf.
Qed.
Lemma noted_wf s d kind now updated detail :
  controller_wf s → delivery_wf d → fits_i64 now → fits_i64 updated →
  text_fits kMaxDeliveryDetailBytes detail → delivery_wf (noted s d kind now updated detail).
Proof. intros. apply dr_event_wf; [done|by apply event_of_record_wf|done]. Qed.

(** ** The invariant *)
Section logic.
Context (opts : DistributorOptions) (env : Env).
Context (subject : DeploymentId → Subject) (known : bool → DeploymentId → Prop).

Definition proven (acked : bool) (id : DeploymentId) : Prop :=
  known acked id ∨ evidence opts env acked id (subject id).

Definition claims (d : DeliveryRecord) : Prop :=
  (dr_state d = DeliveryState.Applied → proven false (dr_id d))
  ∧ (dr_state d = DeliveryState.Acknowledged → proven true (dr_id d)).

Record good (d : DeliveryRecord) : Prop := {
  good_wf : delivery_wf d;
  good_subject : subject_of d = subject (dr_id d);
  good_claims : claims d;
}.
(** A record read from the state, or the empty record of a failed lookup. *)
Definition usable (d : DeliveryRecord) : Prop := good d ∨ dr_id d = id_empty.

Definition state_ok (s : ControllerState) : Prop :=
  controller_wf s ∧ Forall good (map snd (cs_deliveries s)).
Definition shared_ok (s : Shared) : Prop := state_ok (shared_state s).

(** What the environment owes: typed answers, and other threads that keep the
    invariant. *)
Class Reliable : Prop := {
  typed : env_typed env;
  rely n s : shared_ok s → shared_ok (env_others env n s);
}.
Context `{!Reliable}.

Section session.
Context (inbox : list (Result Frame)).

Definition inv (w : World) : Prop :=
  shared_ok (w_shared w) ∧ ∀ frame, frame ∈ w_inbox w → frame ∈ inbox.
Abbreviation safe m := (keeps inv m (λ _, True)).

(** *** Primitive steps *)

Lemma inv_next w : inv w → inv (next_call w).
Proof. done. Qed.

Lemma keeps_call {A} (f : nat → A) (φ : A → Prop) : (∀ n, φ (f n)) → keeps inv (call f) φ.
Proof. intros Hf w Hw. split; [done|]. intros a [= <-]. apply Hf. Qed.

Lemma keeps_now : keeps inv (m_now env) fits_i64.
Proof. apply keeps_call, typed. Qed.

Lemma keeps_lock : safe (lock env).
Proof. intros w [Hs Hi]. split; [|done]. split; [|done]. by apply rely. Qed.

Lemma keeps_locked_state : keeps inv (locked_state env) state_ok.
Proof.
  unfold locked_state. apply (kept_bind _ _ _ (λ _, True)); [apply keeps_lock|]. intros _ _.
  apply kept_get. by intros w [].
Qed.

Lemma keeps_send type flags payload : safe (m_send opts env type flags payload).
Proof.
  unfold m_send, send_framed. apply (kept_bind _ _ _ (λ _, True)); [by apply kept_lift|]. intros _ _.
  apply (kept_bind _ _ _ (λ _, True)); [by apply keeps_call|]. intros [e|] _.
  - by apply kept_lift.
  - by apply kept_modify.
Qed.

Lemma keeps_send_encoded type encoded : safe (send_encoded opts env type encoded).
Proof.
  unfold send_encoded. apply (kept_bind _ _ _ (λ _, True)); [by apply kept_lift|].
  intros payload _. apply keeps_send.
Qed.

Lemma keeps_receive : keeps inv m_receive (λ frame, Ok frame ∈ inbox).
Proof.
  intros w Hw. unfold m_receive. destruct (w_inbox w) as [|frame rest] eqn:E; [by split|].
  destruct Hw as [Hs Hi]. split; [split; [done|]|].
  - intros f Hf. apply Hi. rewrite E. by right.
  - intros a Ha. simpl in Ha. subst frame. apply Hi. rewrite E. by left.
Qed.

Lemma keeps_stop : safe (stopRequested env).
Proof. by apply keeps_call. Qed.

(** *** Commits *)

(** A commit leaves the state, or applies the record to it. *)
Lemma commit_state outcome st type payload fs :
  let '(_, st', _) := commit outcome st type payload fs in
  state_ st' = state_ st ∨ state_ st' = (Controller_apply (state_ st) type payload).1.
Proof.
  unfold commit. destruct (failed_ st); [by left|]. destruct (_ >? _); [by left|].
  change (sc_apply (state_ st) type payload) with (Controller_apply (state_ st) type payload).
  destruct (Controller_apply (state_ st) type payload) as [s' [u|e|why]]; [|by right..].
  destruct (append _ _ _ _ _) as [fs1 [j|e|why]]; by right.
Qed.

Lemma keeps_commit type (record : Writer) :
  (∀ s payload, record = Ok payload → state_ok s → state_ok (Controller_apply s type payload).1) →
  safe (m_commit env type record).
Proof.
  intros Happly. unfold m_commit.
  apply (kept_bind _ _ _ (λ payload, record = Ok payload)); [by apply kept_lift|]. intros payload Hp.
  apply (kept_bind _ _ _ (λ _, True)); [by apply keeps_call|]. intros outcome _ w [Hs Hi].
  pose proof (commit_state outcome (sh_store (w_shared w)) type payload (sh_fs (w_shared w))) as Hc.
  destruct (commit _ _ _ _ _) as [[fs st] r]. split; [|done]. split; [|done].
  unfold shared_ok, shared_state in *. cbn. destruct Hc as [-> | ->]; [done|]. by apply Happly.
Qed.

Lemma keeps_commit_target runtime : safe (m_commit env JournalRecordType.TargetUpsert (encodeTargetRuntime runtime)).
Proof.
  apply keeps_commit. intros s payload _ [Hwf Hg]. split.
  - apply (keeps_run controller_wf); [apply controller_step_keeps|done].
  - by rewrite target_upsert_deliveries.
Qed.

Lemma keeps_commit_delivery d :
  usable d → safe (m_commit env JournalRecordType.DeliveryUpsert (encodeDeliveryRecord d)).
Proof.
  intros Hd. apply keeps_commit. intros s payload He [Hwf Hg]. split.
  { apply (keeps_run controller_wf); [apply controller_step_keeps|done]. }
  destruct Hd as [Hd|Hd].
  - rewrite (upsert_applies d) by (done || apply Hd). cbn [cs_deliveries cs_set_deliveries].
    apply Forall_map. apply (map_assign_Forall (λ e, good e.2)); [done|].
    by apply (Forall_map snd good) in Hg.
  - by rewrite (upsert_refused d).
Qed.

(** *** Looking up *)

Lemma findDelivery_good s id d : state_ok s → findDelivery id s = Some d → good d ∧ dr_id d = id.
Proof.
  intros [Hwf Hg] Hf. destruct (keyed_find _ _ _ _ _ (cwf_deliveries s Hwf) Hf) as [Hid _].
  split; [|done]. apply map_find_elem in Hf; [|apply Hwf].
  apply (Forall_elem _ _ _ Hg).
  apply (list_elem_of_fmap_2 snd _ (id, d)). done.
Qed.

Lemma deliveries_where_good p s : state_ok s → Forall (λ d, good d ∧ p d = true) (deliveries_where p s).
Proof.
  intros [_ Hg]. apply List.Forall_forall. intros d [Hin Hp]%List.filter_In.
  rewrite List.Forall_forall in Hg. split; [by apply Hg|done].
Qed.

Lemma good_id d : good d → dr_id d ≠ id_empty.
Proof. intros [[Hid] _ _] Heq. rewrite Heq in Hid. by vm_compute in Hid. Qed.

Lemma keeps_snapshot id :
  keeps inv (snapshotDelivery env id) (λ d, usable d ∧ (dr_id d = id ∨ dr_id d = id_empty)).
Proof.
  unfold snapshotDelivery. eapply kept_bind; [apply keeps_locked_state|]. intros s Hs.
  apply kept_ret. destruct (findDelivery id s) as [d|] eqn:E; cbn [default].
  - destruct (findDelivery_good s id d Hs E) as [Hg Hid]. split; [by left|by left].
  - split; by right.
Qed.

Lemma keeps_epoch : safe (epoch env).
Proof. eapply kept_bind; [apply keeps_locked_state|]. intros s _. by apply kept_ret. Qed.
Lemma keeps_incarnation : safe (incarnation env).
Proof. eapply kept_bind; [apply keeps_locked_state|]. intros s _. by apply kept_ret. Qed.
Lemma keeps_input record now : safe (decisionInputFor opts env record now).
Proof. eapply kept_bind; [apply keeps_locked_state|]. intros s _. by apply kept_ret. Qed.

Lemma keeps_upsertTarget runtime : safe (upsertTarget env runtime).
Proof. eapply kept_bind; [apply keeps_lock|]. intros _ _. apply keeps_commit_target. Qed.
Lemma keeps_upsertDelivery d : usable d → safe (upsertDelivery env d).
Proof. intros Hd. eapply kept_bind; [apply keeps_lock|]. intros _ _. by apply keeps_commit_delivery. Qed.

Lemma mark_contact_ok target current now s :
  fits_i64 now → state_ok s → state_ok (mark_contact target current now s).
Proof.
  intros Hnow [Hwf Hg]. unfold mark_contact. destruct (findTarget target s) as [r|] eqn:E; [|done].
  split; [|done].
  destruct (keyed_find _ _ _ _ _ (cwf_targets s Hwf) E) as [-> Hr].
  destruct Hwf. split; cbn; try done.
  set (r' := if _ >? _ then _ else _).
  assert (tr_id r' = tr_id r ∧ runtime_wf r') as [<- Hr'].
  { subst r'. destruct (_ >? _); (split; [done|]); destruct Hr; by split. }
  by apply keyed_assign.
Qed.

Lemma keeps_mark target current now : fits_i64 now → safe (markContactCurrent env target current now).
Proof.
  intros Hnow. eapply kept_bind; [apply keeps_lock|]. intros _ _. apply kept_modify; [|done].
  intros w [Hs Hi]. split; [|done]. by apply mark_contact_ok.
Qed.
(** *** Recording *)

(** [d'] is [d] further on. *)
Definition continues (d d' : DeliveryRecord) : Prop := usable d' ∧ dr_id d' = dr_id d.

Lemma good_transitioned s d to kind c b now detail :
  state_ok s → fits_i64 now → good d → (to = DeliveryState.Applied → proven false (dr_id d)) →
  (to = DeliveryState.Acknowledged → proven true (dr_id d)) →
  good (transitioned s d to kind c b now (bounded_detail detail)).
Proof.
  intros [Hwf _] Hn [Hd Hsb Hc] Ha Hk. split; [|done|by split].
  apply transitioned_wf; try done. apply bounded_detail_fits.
Qed.

Lemma keeps_transition d to kind c detail b :
  usable d → (to = DeliveryState.Applied → good d → proven false (dr_id d)) →
  (to = DeliveryState.Acknowledged → good d → proven true (dr_id d)) →
  keeps inv (recordTransition env d to kind c detail b) (continues d).
Proof.
  intros Hd Ha Hk. unfold recordTransition.
  eapply kept_bind; [by apply (kept_lift _ _ (λ _, True))|]. intros _ _.
  eapply kept_bind; [apply keeps_locked_state|]. intros s Hs.
  eapply kept_bind; [apply keeps_now|]. intros now Hnow.
  assert (usable (transitioned s d to kind c b now (bounded_detail detail))) as Hu.
  { destruct Hd as [Hd|Hd]; [left; apply good_transitioned; auto|by right]. }
  eapply kept_bind; [by apply keeps_commit_delivery|]. intros _ _. by apply kept_ret.
Qed.

Lemma keeps_note d kind detail :
  usable d → keeps inv (noteEvent env d kind detail) (continues d).
Proof.
  intros Hd. unfold noteEvent. eapply kept_bind; [apply keeps_locked_state|]. intros s Hs.
  eapply kept_bind; [apply keeps_now|]. intros now Hnow.
  eapply kept_bind; [apply keeps_now|]. intros updated Hu.
  assert (usable (noted s d kind now updated (bounded_detail detail))) as Hok.
  { destruct Hd as [[Hwf Hsb Hc]|Hd]; [left|by right]. split; [|done..].
    apply noted_wf; try done; [apply Hs|apply bounded_detail_fits]. }
  eapply kept_bind; [by apply keeps_commit_delivery|]. intros _ _. by apply kept_ret.
Qed.

Lemma keeps_failure d c detail : usable d → keeps inv (recordFailure env d c detail) (continues d).
Proof.
  intros Hd. unfold recordFailure.
  destruct (checkedAdd 32 (dr_failures d) 1) as [failures|] eqn:Ef; [|by apply kept_lift].
  destruct (checkedAdd 64 (value (dr_attempt d)) 1) as [attempt|] eqn:Ea; [|by apply kept_lift].
  assert (usable (dr_outcome (dr_state d) c (bounded_detail (failure_detail c detail))
                    (dr_budget (fromValue attempt) failures d))) as Hu.
  { destruct Hd as [[Hwf Hsb Hc]|Hd]; [left|by right]. split; [|done..].
    apply dr_outcome_wf; [|apply bounded_detail_fits]. apply dr_budget_wf; [done|..].
    - by apply (checkedAdd_fits 64) in Ea.
    - by apply (checkedAdd_fits 32) in Ef. }
  case_bool_decide.
  - eapply kept_post; [by apply keeps_note|done].
  - eapply kept_post; [by apply keeps_transition|done].
Qed.

Lemma keeps_rejected d c detail : usable d → safe (recordRejected env d c detail).
Proof.
  intros Hd. unfold recordRejected. case_bool_decide.
  - eapply kept_bind; [by apply keeps_note|]. intros _ _. by apply kept_ret.
  - eapply kept_bind; [by apply keeps_transition|]. intros d' [Hd' _]. by apply keeps_upsertDelivery.
Qed.

Lemma usable_closing d b b' : usable d → usable (dr_closing b b' d).
Proof. intros [[Hwf Hsb Hc]|Hd]; [left|by right]. split; [by apply dr_closing_wf|done..]. Qed.

Lemma keeps_retired d why : usable d → safe (recordRetired env d why).
Proof.
  intros Hd. unfold recordRetired. case_bool_decide; [by apply kept_ret|].
  eapply kept_bind; [by apply keeps_transition|]. intros d' [Hd' _].
  by apply keeps_upsertDelivery, usable_closing.
Qed.

Lemma keeps_adopt d b detail :
  usable d → (good d → proven false (dr_id d)) → safe (adoptActivation env d b detail).
Proof.
  intros Hd Hp. unfold adoptActivation.
  apply (kept_bind _ _ _ (λ _, True)).
  { destruct (_ || _); [by apply kept_ret|]. eapply kept_true. by apply keeps_transition. }
  intros d' _. eapply kept_bind; [apply keeps_locked_state|]. intros s Hs.
  destruct (findTarget _ _); [|by apply kept_ret]. destruct (_ && _); [by apply kept_ret|].
  eapply kept_bind; [apply keeps_now|]. intros now _. apply keeps_upsertTarget.
Qed.

Lemma keeps_acknowledge d b detail :
  usable d → (good d → proven true (dr_id d)) → safe (acknowledge env d b detail).
Proof.
  intros Hd Hp. unfold acknowledge. case_bool_decide as Hst.
  - destruct (_ && _); [|by apply kept_ret]. by apply keeps_upsertDelivery, usable_closing.
  - eapply kept_bind; [by apply keeps_transition|]. intros d' [Hd' _].
    by apply keeps_upsertDelivery, usable_closing.
Qed.

#[local] Hint Resolve keeps_call keeps_lock keeps_send keeps_send_encoded keeps_stop : effects.
#[local] Hint Resolve keeps_epoch keeps_incarnation keeps_input keeps_upsertTarget keeps_mark : effects.
#[local] Tactic Notation "kbind" simple_intropattern(x) simple_intropattern(H) :=
  eapply kept_bind;
  [first [ apply keeps_locked_state | apply keeps_now | apply keeps_receive
         | apply keeps_snapshot | apply kept_lifted | solve [eauto with effects] | idtac ]
  |intros x H].

Context (dialled : ∃ n, env_dial env n = Ok inbox).

(** ** The session *)

(** The report is one the connection carried, for the authority of the session. *)
Definition report_ok (session : SessionContext) (report : ReconcileReportMessage) : Prop :=
  ∃ frame, Ok frame ∈ inbox ∧ ftype (header frame) = FrameType.ReconcileReport
    ∧ decodeReconcileReport (fpayload frame) = Ok report ∧ rp_target report = sc_target session
    ∧ rp_term report = sc_targetTerm session ∧ rp_incarnation report = sc_targetIncarnation session.
Record session_ok (session : SessionContext) : Prop := {
  so_greeting : greeting opts inbox (sc_target session) (sc_targetTerm session) (sc_targetIncarnation session);
  so_report : ∀ report, sc_report session = Some report → report_ok session report;
}.

(** The record is of the target of the session. *)
Definition mine (session : SessionContext) (d : DeliveryRecord) : Prop :=
  usable d ∧ (dr_id d ≠ id_empty → sb_target (subject (dr_id d)) = sc_target session).

Lemma mine_continues session d d' : mine session d → continues d d' → mine session d'.
Proof. intros [_ Ht] [Hu Hid]. split; [done|]. by rewrite Hid. Qed.

Lemma mine_snapshot session id d :
  usable d ∧ (dr_id d = id ∨ dr_id d = id_empty) →
  (id ≠ id_empty → sb_target (subject id) = sc_target session) → mine session d.
Proof. intros [Hu [Hid|Hid]] Ht; (split; [done|]); rewrite Hid; [done|by intros []]. Qed.

Lemma good_mine session d : good d → dr_target d = sc_target session → mine session d.
Proof. intros Hg Ht. split; [by left|]. intros _. destruct Hg as [_ <- _]. done. Qed.

Lemma evident acked session d frame :
  session_ok session → mine session d → Ok frame ∈ inbox →
  (good d → proof_frame (sc_targetTerm session) (sc_targetIncarnation session) (dr_id d) (subject_of d)
              frame acked) →
  good d → proven acked (dr_id d).
Proof.
  intros [Hgreet _] [_ Ht] Hin Hproof Hg. right. destruct dialled as [n Hn].
  specialize (Ht (good_id d Hg)).
  exists n, inbox, (sc_targetTerm session), (sc_targetIncarnation session), frame.
  split; [done|]. rewrite Ht. split; [done|]. split; [done|].
  specialize (Hproof Hg). destruct Hg as [_ <- _]. done.
Qed.

(** ** Failures *)

Lemma keeps_unexpected {A} what frame (φ : A → Prop) : keeps inv (unexpected what frame) φ.
Proof. by apply kept_lift. Qed.

Lemma keeps_fail_from_target d c detail : usable d → safe (fail_from_target env d c detail).
Proof.
  intros Hd. unfold fail_from_target. eapply kept_bind; [by apply keeps_failure|]. intros d' _.
  by apply kept_ret.
Qed.

Lemma keeps_onNack d payload : usable d → safe (onNack env d payload).
Proof. intros Hd. unfold onNack. kbind nack _. by apply keeps_fail_from_target. Qed.

Lemma keeps_request d type encoded expected what :
  usable d → keeps inv (request opts env d type encoded expected what)
    (λ r, ∀ frame, r = Some frame → Ok frame ∈ inbox ∧ frame_is expected frame = true).
Proof.
  intros Hd. unfold request. kbind u _. kbind response Hr. destruct (frame_is _ _).
  - eapply kept_bind; [by apply keeps_onNack|]. intros _ _. by apply kept_ret.
  - destruct (frame_is expected response) eqn:E; cbn [negb]; [|by apply kept_lift].
    apply kept_ret. by intros frame [= <-].
Qed.

(** ** Acknowledgement *)

Lemma proven_snapshot acked d d' :
  usable d → (good d → proven acked (dr_id d)) → (dr_id d' = dr_id d ∨ dr_id d' = id_empty) →
  good d' → proven acked (dr_id d').
Proof.
  intros Hu Hp Hid Hg. pose proof (good_id d' Hg) as Hset.
  destruct Hid as [Hid|Hid]; [|done]. rewrite Hid in Hset |- *.
  destruct Hu as [Hu|Hu]; [by apply Hp|done].
Qed.

Lemma checkAck_Ok session d ack u :
  checkAck session d ack = Ok u →
  da_deployment ack = dr_id d ∧ da_generation ack = dr_generation d ∧ da_digest ack = dr_digest d
  ∧ da_term ack = sc_targetTerm session ∧ da_incarnation ack = sc_targetIncarnation session.
Proof. unfold checkAck. repeat case_bool_decide; done. Qed.

Lemma keeps_ack_loop fuel session d :
  session_ok session → mine session d → safe (ack_loop opts env exhausted fuel session d).
Proof.
  intros Hs Hd. induction fuel as [|fuel IH]; [by apply kept_lift|]. cbn [ack_loop].
  eapply kept_bind; [apply kept_try, keeps_receive|]. intros received Hr.
  destruct received as [frame|e|why]; [|by destruct (_ || _); [apply kept_ret|apply kept_lift]
                                       |by apply kept_lift].
  specialize (Hr frame eq_refl). destruct (frame_is _ frame) eqn:Ety.
  - kbind ack Hack. kbind u Hc. apply checkAck_Ok in Hc as (? & ? & ? & ? & ?).
    apply bool_decide_eq_true in Ety.
    assert (∀ acked, good d → proven acked (dr_id d)) as Hp.
    { intros acked. apply (evident acked session d frame Hs Hd Hr). intros _.
      by apply by_acknowledgement with ack. }
    eapply kept_bind; [apply keeps_adopt; [apply Hd|apply Hp]|]. intros _ _.
    kbind d' [Hu Hid]. kbind e _. apply keeps_acknowledge; [done|].
    apply (proven_snapshot true d); [apply Hd|apply Hp|done].
  - destruct (frame_is FrameType.DeliveryNack frame); [apply keeps_onNack, Hd|].
    destruct (frame_is FrameType.Ping frame); [|by apply kept_lift].
    kbind ping _. kbind pong _. kbind u _. done.
Qed.

Lemma keeps_await session d :
  session_ok session → mine session d → safe (awaitAcknowledgement opts env session d).
Proof.
  intros Hs Hd. unfold awaitAcknowledgement. destruct (armed _ _); [by apply kept_ret|].
  eapply kept_bind; [by apply (kept_get _ _ (λ _, True))|]. intros n _. by apply keeps_ack_loop.
Qed.

(** ** Activation *)

Lemma keeps_stage session d :
  mine session d →
  keeps inv (stageDelivery opts env d) (λ r, ∀ d', r = Some d' → mine session d').
Proof.
  intros Hd. unfold stageDelivery.
  case_bool_decide; [|apply kept_ret; by intros d' [= <-]].
  eapply kept_bind; [apply keeps_request, Hd|]. intros [frame|] _; [|by apply kept_ret].
  kbind ack _. destruct (sa_staged ack); cbn [negb].
  - eapply kept_bind; [by apply keeps_transition; [apply Hd|..]|]. intros d' Hc. apply kept_ret.
    intros ? [= <-]. by apply (mine_continues session d).
  - eapply kept_bind; [apply keeps_fail_from_target, Hd|]. intros _ _. by apply kept_ret.
Qed.

Lemma keeps_window session d :
  mine session d →
  keeps inv (openWindow opts env d) (λ r, ∀ d', r = Some d' → mine session d').
Proof.
  intros Hd. unfold openWindow.
  case_bool_decide; [|apply kept_ret; by intros d' [= <-]].
  eapply kept_bind; [apply keeps_request, Hd|]. intros [frame|] _; [|by apply kept_ret].
  kbind ack _. destruct (apa_prepared ack); cbn [negb].
  - eapply kept_bind; [apply keeps_note, Hd|]. intros d' Hc. apply kept_ret.
    intros ? [= <-]. by apply (mine_continues session d).
  - eapply kept_bind; [apply keeps_fail_from_target, Hd|]. intros _ _. by apply kept_ret.
Qed.

Lemma keeps_commit_step session d :
  session_ok session → mine session d → safe (commitDelivery opts env session d).
Proof.
  intros Hs Hd. unfold commitDelivery. kbind u _. kbind frame Hin.
  destruct (frame_is FrameType.DeliveryNack frame).
  { kbind nack _. case_bool_decide; [apply keeps_retired, Hd|apply keeps_fail_from_target, Hd]. }
  destruct (frame_is FrameType.ApplyCommitAck frame) eqn:Ety; cbn [negb]; [|by apply kept_lift].
  apply bool_decide_eq_true in Ety. kbind ack Hack.
  destruct (aca_committed ack) eqn:Ec; cbn [negb]; [|apply keeps_fail_from_target, Hd].
  destruct (_ || _) eqn:Em; [apply keeps_fail_from_target, Hd|].
  apply orb_false_iff in Em as [Eg%negb_false_iff%bool_decide_eq_true Ed%negb_false_iff%bool_decide_eq_true].
  eapply kept_bind.
  { apply keeps_adopt; [apply Hd|]. apply (evident false session d frame Hs Hd Hin). intros _.
    by apply by_commit with ack. }
  intros _ _. kbind d' Hsnap. apply keeps_await; [done|].
  apply (mine_snapshot session (dr_id d)); [done|apply Hd].
Qed.

Lemma keeps_activate session d :
  session_ok session → mine session d → safe (activateDelivery opts env session d).
Proof.
  intros Hs Hd. unfold activateDelivery.
  eapply kept_bind; [by apply keeps_stage|]. intros [d1|] H1; [|by apply kept_ret].
  eapply kept_bind; [apply keeps_window, H1; done|]. intros [d2|] H2; [|by apply kept_ret].
  apply keeps_commit_step; [done|by apply H2].
Qed.

(** *** Offers and transfers *)

Lemma keeps_sendChunk prepare faults offset data :
  safe (sendChunk opts env prepare faults offset data).
Proof.
  unfold sendChunk. kbind bytes _. kbind u _.
  apply (kept_bind _ _ _ (λ _, True)); [by apply kept_modify|]. intros _ _.
  apply (kept_bind _ _ _ (λ _, True)); [by apply kept_get|]. intros sent _.
  apply (kept_bind _ _ _ (λ _, True)); [apply kept_when, keeps_send|]. intros _ _.
  by apply kept_ret.
Qed.

Lemma keeps_chunkAnswer prepare d : usable d → safe (chunkAnswer env prepare d).
Proof.
  intros Hd. unfold chunkAnswer. kbind frame _.
  destruct (frame_is FrameType.DeliveryNack frame).
  { eapply kept_bind; [by apply keeps_onNack|]. intros _ _. by apply kept_ret. }
  destruct (frame_is FrameType.ChunkAck frame); cbn [negb]; [|by apply kept_lift].
  kbind ack _. destruct (negb _); [by apply kept_lift|].
  destruct (_ || _); [by apply kept_ret|].
  eapply kept_bind; [by apply keeps_fail_from_target|]. intros _ _. by apply kept_ret.
Qed.

Lemma keeps_transfer_loop fuel prepare d limit reader faults offset :
  usable d → safe (transfer_loop opts env exhausted fuel prepare d limit reader faults offset).
Proof.
  intros Hd. revert reader faults offset.
  induction fuel as [|fuel IH]; intros reader faults offset; [by apply kept_lift|].
  cbn [transfer_loop]. destruct (negb _); [by apply kept_ret|]. kbind stop _.
  destruct stop; [by apply kept_lift|].
  apply (kept_bind _ _ _ (λ _, True)); [by apply keeps_call|]. intros fault _.
  destruct (readAt _ _ _ _) as [reader' [data|e|why]].
  - destruct data as [|b data].
    { eapply kept_bind; [by apply keeps_failure|]. intros _ _. by apply kept_ret. }
    eapply kept_bind; [apply keeps_sendChunk|]. intros faults' _.
    apply (kept_bind _ _ _ (λ _, True)); [by apply kept_get|]. intros sent _.
    destruct (_ && _).
    { apply (kept_bind _ _ _ (λ _, True)); [by apply kept_modify|]. intros _ _. by apply kept_lift. }
    eapply kept_bind; [by apply keeps_chunkAnswer|]. intros [advanced|] _; [|by apply kept_ret].
    destruct (_ =? _); [|apply IH].
    eapply kept_bind; [by apply keeps_fail_from_target|]. intros _ _. by apply kept_ret.
  - eapply kept_bind; [by apply keeps_failure|]. intros _ _. by apply kept_ret.
  - by apply kept_lift.
Qed.

Lemma keeps_stream session prepare d from :
  mine session d →
  keeps inv (streamArtifact opts env prepare d from) (λ r, ∀ d', r = Some d' → mine session d').
Proof.
  intros Hd. unfold streamArtifact. kbind u _.
  apply (kept_bind _ _ _ (λ _, True)); [by apply keeps_call|]. intros fails _.
  apply (kept_bind _ _ _ (λ _, True)); [by apply kept_get|]. intros s _.
  destruct (reader_open _ _ _ _ _) as [reader|e|why]; [| |by apply kept_lift].
  - apply (kept_bind _ _ _ (mine session)).
    { destruct (_ =? _); [by apply kept_ret|].
      eapply kept_post; [apply keeps_note, Hd|]. intros d' Hc. by apply (mine_continues session d). }
    intros d' Hd'. apply (kept_bind _ _ _ (λ _, True)); [by apply kept_get|]. intros n _.
    eapply kept_bind; [apply keeps_transfer_loop, Hd'|]. intros complete _. apply kept_ret.
    destruct complete; [by intros ? [= <-]|done].
  - eapply kept_bind; [apply keeps_failure, Hd|]. intros _ _. by apply kept_ret.
Qed.

Lemma keeps_complete session prepare d :
  session_ok session → mine session d → safe (completeTransfer opts env session prepare d).
Proof.
  intros Hs Hd. unfold completeTransfer. kbind u _.
  apply (kept_bind _ _ _ (mine session)).
  { destruct (_ || _); [|by apply kept_ret].
    eapply kept_post; [by apply keeps_transition; [apply Hd|..]|].
    intros d' Hc. by apply (mine_continues session d). }
  intros d1 H1. kbind frame _.
  destruct (frame_is FrameType.DeliveryNack frame); [apply keeps_onNack, H1|].
  destruct (frame_is FrameType.TransferResult frame); cbn [negb]; [|by apply kept_lift].
  kbind result _. destruct (negb _); [apply keeps_fail_from_target, H1|].
  eapply kept_bind; [by apply keeps_transition; [apply H1|..]|]. intros d2 Hc.
  apply keeps_activate; [done|]. by apply (mine_continues session d1).
Qed.

Lemma keeps_duplicate d :
  usable d → (∀ acked, good d → proven acked (dr_id d)) → safe (adoptDuplicate env d).
Proof.
  intros Hd Hp. unfold adoptDuplicate.
  eapply kept_bind; [apply keeps_adopt; [done|apply Hp]|]. intros _ _.
  kbind d' [Hu Hid]. apply keeps_acknowledge; [done|].
  by apply (proven_snapshot true d); [|apply Hp|].
Qed.

Lemma keeps_onPrepareReject d reject : usable d → safe (onPrepareReject env d reject).
Proof.
  intros Hd. unfold onPrepareReject. destruct (isTerminalRejection _); [by apply keeps_rejected|].
  case_bool_decide; [by apply keeps_retired|].
  case_bool_decide; [by apply keeps_rejected|by apply keeps_fail_from_target].
Qed.

Lemma keeps_offer session d :
  session_ok session → mine session d → safe (offerAndTransfer opts env session d).
Proof.
  intros Hs Hd. unfold offerAndTransfer. kbind e _. kbind u _.
  apply (kept_bind _ _ _ (mine session)).
  { case_bool_decide; [|by apply kept_ret].
    eapply kept_post; [by apply keeps_transition; [apply Hd|..]|].
    intros d' Hc. by apply (mine_continues session d). }
  intros d1 H1. kbind response Hin. destruct (frame_is FrameType.PrepareAck response) eqn:Ety.
  - apply bool_decide_eq_true in Ety. kbind ack Hack.
    destruct (_ || _) eqn:Em; [by apply kept_lift|].
    apply orb_false_iff in Em as [Eid%negb_false_iff%bool_decide_eq_true _].
    destruct (pa_duplicateSuppressed ack) eqn:Edup.
    + apply keeps_duplicate; [apply H1|]. intros acked.
      apply (evident acked session d1 response Hs H1 Hin). intros _.
      by apply by_suppression with ack.
    + eapply kept_bind; [by apply keeps_stream|]. intros [d2|] H2; [|by apply kept_ret].
      apply keeps_complete; [done|by apply H2].
  - destruct (frame_is FrameType.PrepareReject response).
    { kbind reject _. apply keeps_onPrepareReject, H1. }
    destruct (frame_is FrameType.DeliveryNack response); [apply keeps_onNack, H1|by apply kept_lift].
Qed.

(** *** Driving *)

Lemma keeps_reenter session d :
  mine session d → keeps inv (reenter env d) (mine session).
Proof.
  intros Hd. unfold reenter. case_bool_decide; [|by apply kept_ret].
  eapply kept_post; [by apply keeps_transition; [apply Hd|..]|].
  intros d' Hc. by apply (mine_continues session d).
Qed.

Lemma keeps_giveUp d decision : usable d → safe (giveUp env d decision).
Proof.
  intros Hd. unfold giveUp. case_bool_decide; [by apply kept_ret|].
  eapply kept_bind; [by apply keeps_transition|]. intros d' [Hd' _]. by apply keeps_upsertDelivery.
Qed.

(** The identity is one of the target of the session. *)
Definition ours (session : SessionContext) (id : DeploymentId) : Prop :=
  id ≠ id_empty → sb_target (subject id) = sc_target session.

Lemma keeps_driveStep session id :
  session_ok session → ours session id → safe (driveStep opts env session id).
Proof.
  intros Hs Hid. unfold driveStep. kbind stop _. destruct stop; [by apply kept_lift|].
  kbind d Hsnap. assert (mine session d) as Hd by by apply (mine_snapshot session id).
  destruct (negb _); [by apply kept_ret|]. kbind now Hnow. kbind input _. kbind e _.
  destruct (action _); try by apply kept_ret.
  all: eapply kept_bind;
    [first [ by apply (keeps_reenter session) | by apply keeps_activate | apply keeps_rejected, Hd
           | apply keeps_giveUp, Hd | apply keeps_retired, Hd | apply keeps_failure, Hd ]|].
  all: intros d' Hd'; try by apply kept_ret.
  all: eapply kept_bind; [by apply keeps_offer|]; intros _ _; by apply kept_ret.
Qed.

Lemma keeps_drive_steps steps session id :
  session_ok session → ours session id → safe (drive_steps opts env steps session id).
Proof.
  intros Hs Hid. induction steps as [|steps IH]; [by apply kept_ret|]. cbn [drive_steps].
  eapply kept_bind; [by apply keeps_driveStep|]. intros [] _; [done|by apply kept_ret].
Qed.

Lemma keeps_drive_all work session errors :
  session_ok session → (∀ d, d ∈ work → ours session (dr_id d)) →
  safe (drive_all opts env work session errors).
Proof.
  intros Hs. revert errors. induction work as [|d work IH]; intros errors Hw; [by apply kept_ret|].
  cbn [drive_all]. kbind stop _. destruct stop; [by apply kept_lift|].
  eapply kept_bind.
  { eapply kept_try, keeps_drive_steps; [done|]. apply Hw. by left. }
  assert (∀ n, safe (drive_all opts env work session n)) as Hrest.
  { intros n. apply IH. intros d' Hin. apply Hw. by right. }
  intros [u|e|why] _; [apply Hrest| |by apply kept_lift].
  destruct (_ || _); [by apply kept_lift|apply Hrest].
Qed.

Lemma where_mine session p s d :
  state_ok s → (∀ r, p r = true → dr_target r = sc_target session) → d ∈ deliveries_where p s →
  good d ∧ mine session d.
Proof.
  intros Hs Hp Hin.
  destruct (Forall_elem _ _ _ (deliveries_where_good p s Hs) Hin) as [Hd Hpd].
  split; [done|]. apply good_mine; [done|by apply Hp].
Qed.

Lemma pending_of_target target r : pending_of target r = true → dr_target r = target.
Proof. unfold pending_of. by intros [Ht%bool_decide_eq_true _]%andb_true_iff. Qed.

Lemma keeps_driveDeliveries session :
  session_ok session → safe (driveDeliveries opts env session).
Proof.
  intros Hs. unfold driveDeliveries. kbind s Hst. apply keeps_drive_all; [done|].
  intros d Hin. rewrite merge_sort_Permutation in Hin.
  eapply where_mine in Hin as [_ [_ Hd]]; [done|done|]. intros r. apply pending_of_target.
Qed.

(** *** Establishing the session *)

Lemma keeps_recordSessionFailure target c detail : safe (recordSessionFailure env target c detail).
Proof.
  unfold recordSessionFailure. kbind s Hs. eapply kept_bind.
  { apply kept_for. intros d Hin.
    destruct (Forall_elem _ _ _ (deliveries_where_good (pending_of target) s Hs) Hin) as [Hd _].
    eapply kept_bind; [apply kept_try; apply keeps_failure; by left|]. intros _ _. by apply kept_ret. }
  intros _ _. kbind s' Hs'. destruct (findTarget _ _); [|by apply kept_ret].
  eapply kept_bind; [eapply kept_try, keeps_upsertTarget|]. intros _ _. by apply keeps_mark.
Qed.

Lemma keeps_rearm target term : safe (rearmAfterRestart env target term).
Proof.
  unfold rearmAfterRestart. kbind s Hs. apply kept_for. intros d Hin.
  destruct (Forall_elem _ _ _ (deliveries_where_good _ s Hs) Hin) as [[Hwf ? ?] _].
  eapply kept_bind; [|by intros; apply kept_ret]. apply keeps_note. left. split; [|done..].
  apply dr_budget_wf; [done| |by vm_compute]. by apply Z.mod_pos_bound.
Qed.

Lemma keeps_handshake target endpoint :
  keeps inv (handshake opts env target endpoint)
    (λ session, session_ok session ∧ sc_target session = target).
Proof.
  unfold handshake. kbind e _. kbind i _.
  apply (kept_bind _ _ _ (λ _, True)); [by apply keeps_call|]. intros nonce _.
  kbind hello _. kbind encoded _. kbind u _. kbind response Hin.
  destruct (frame_is FrameType.AuthReject response); [kbind reject _; by apply kept_lift|].
  destruct (frame_is FrameType.HelloAck response) eqn:Ety; cbn [negb]; [|by apply kept_lift].
  apply bool_decide_eq_true in Ety. kbind ack Hack.
  case_bool_decide as Ht; cbn [negb]; [|by apply kept_lift]. kbind v Hv.
  kbind s Hs. kbind v' _. kbind confirm _. kbind v'' _. kbind s' Hs'. kbind now Hnow. kbind v3 _.
  eapply kept_bind; [by apply keeps_mark|]. intros _ _.
  eapply kept_bind; [apply kept_when, keeps_rearm|]. intros _ _.
  apply kept_ret. split; [|done]. split; [|done]. cbn [sc_target sc_targetTerm sc_targetIncarnation].
  exists response, ack. repeat split; try done. intros Hauth. rewrite Hauth in Hv. by destruct v.
Qed.

Lemma keeps_resolveWindow report d : safe (resolveWindow opts env report d).
Proof.
  unfold resolveWindow. kbind u _. kbind response _.
  destruct (negb _); [by apply kept_lift|]. kbind ack _. by apply kept_ret.
Qed.

Lemma keeps_applyDecision session d :
  session_ok session → good d → mine session d → safe (applyDecision opts env session d).
Proof.
  intros Hs Hg Hd. unfold applyDecision. destruct (negb _); [by apply kept_ret|].
  pose proof (outcome_rests_on (reconcile_input session d)) as Hrests. cbv zeta in Hrests.
  destruct (rd_outcome _); try (by apply kept_ret); try by apply kept_lift.
  - destruct Hrests as (report & (Hr & Hterm & Hinc) & [Hwindow _] & Hev).
    destruct (so_report session Hs report Hr) as (frame & Hin & Ety & Hdec & Ht & _).
    assert (∀ acked, good d → proven acked (dr_id d)) as Hp.
    { intros acked. apply (evident acked session d frame Hs Hd Hin). intros _.
      apply by_report with report; try done. rewrite Ht. destruct Hd as [_ Hmine].
      rewrite (good_subject d Hg). symmetry. apply Hmine. by apply good_id. }
    eapply kept_bind; [apply keeps_adopt; [apply Hd|apply Hp]|]. intros _ _.
    kbind d' [Hu Hid]. apply keeps_acknowledge; [done|].
    by apply (proven_snapshot true d); [apply Hd|apply Hp|].
  - apply keeps_retired, Hd.
  - destruct (sc_report session); [apply keeps_resolveWindow|by apply kept_ret].
Qed.

Lemma keeps_applyReconcileReport session :
  session_ok session → safe (applyReconcileReport opts env session).
Proof.
  intros Hs. unfold applyReconcileReport. kbind s Hst. apply kept_for. intros d Hin.
  rewrite merge_sort_Permutation in Hin. eapply where_mine in Hin as [Hg Hd].
  - by apply keeps_applyDecision.
  - done.
  - intros r Hr. by apply bool_decide_eq_true in Hr.
Qed.

Lemma keeps_reconcile session :
  session_ok session → keeps inv (reconcile opts env session) session_ok.
Proof.
  intros Hs. unfold reconcile. kbind e _. kbind i _. kbind u _. kbind response Hin.
  destruct (frame_is FrameType.ReconcileReport response) eqn:Ety; cbn [negb]; [|by apply kept_lift].
  apply bool_decide_eq_true in Ety. kbind report Hr.
  case_bool_decide as Ht; cbn [negb]; [|by apply kept_lift].
  destruct (_ || _) eqn:Ea; [by apply kept_lift|].
  apply orb_false_iff in Ea as [Ei%negb_false_iff%bool_decide_eq_true En%negb_false_iff%bool_decide_eq_true].
  assert (session_ok (with_report report session)) as Hs'.
  { destruct Hs as [Hgreet _]. split; [done|]. intros report' [= <-]. by exists response. }
  kbind s Hst. kbind now Hnow. kbind v _.
  eapply kept_bind; [by apply keeps_mark|]. intros _ _.
  eapply kept_bind; [by apply keeps_applyReconcileReport|]. intros _ _. by apply kept_ret.
Qed.

Lemma keeps_establish target endpoint :
  keeps inv (establish opts env target endpoint)
    (λ r, ∀ session, r.2 = Ok session → session_ok session).
Proof.
  unfold establish. eapply kept_bind; [apply kept_try, keeps_handshake|]. intros greeted Hg.
  apply (kept_bind _ _ _ (λ r, ∀ session, r = Ok session → session_ok session)).
  { destruct greeted as [session|e|why].
    - destruct (Hg session eq_refl) as [Hs _]. by apply kept_try, keeps_reconcile.
    - by apply kept_ret.
    - by apply kept_lift. }
  intros result Hr. apply (kept_bind _ _ _ (λ _, True)).
  { destruct result; [by apply kept_ret|apply keeps_recordSessionFailure|by apply kept_ret]. }
  intros _ _. by apply kept_ret.
Qed.

Lemma keeps_goodbye : safe (sayGoodbye opts env).
Proof.
  unfold sayGoodbye. destruct (encodeGoodbye _) as [bytes|e|why]; [|by apply kept_ret|by apply kept_lift].
  eapply kept_bind; [eapply kept_try, keeps_send|]. intros _ _. by apply kept_ret.
Qed.

(** A session on the connection that was dialled. *)
Lemma keeps_connected target endpoint :
  safe (let& (established, result) := establish opts env target endpoint in
        do& match result with
            | Ok session => do& s_try (driveDeliveries opts env session) in s_ret tt
            | _ => s_ret tt
            end in
        let& valid := s_get w_open in
        do& s_when (established && valid) (sayGoodbye opts env) in
        s_modify (set_open false)).
Proof.
  eapply kept_bind; [apply keeps_establish|]. intros [established result] Hr.
  apply (kept_bind _ _ _ (λ _, True)).
  { destruct result as [session|e|why]; try by apply kept_ret.
    eapply kept_bind; [by eapply kept_try, keeps_driveDeliveries, Hr|]. intros _ _. by apply kept_ret. }
  intros _ _. apply (kept_bind _ _ _ (λ _, True)); [by apply kept_get|]. intros valid _.
  apply (kept_bind _ _ _ (λ _, True)); [apply kept_when, keeps_goodbye|]. intros _ _.
  by apply kept_modify.
Qed.
End session.
End logic.

#[global] Arguments keeps_now {_ _ _ _ _} inbox.
#[global] Arguments keeps_lock {_ _ _ _ _} inbox.
#[global] Arguments keeps_locked_state {_ _ _ _ _} inbox.
#[global] Arguments keeps_epoch {_ _ _ _ _} inbox.
#[global] Arguments keeps_input {_ _ _ _ _} inbox.
#[global] Arguments keeps_snapshot {_ _ _ _ _} inbox.
#[global] Arguments keeps_upsertTarget {_ _ _ _ _} inbox.
#[global] Arguments keeps_upsertDelivery {_ _ _ _ _} inbox.
#[global] Arguments keeps_failure {_ _ _ _ _} inbox.
#[global] Arguments keeps_rejected {_ _ _ _ _} inbox.
#[global] Arguments keeps_retired {_ _ _ _ _} inbox.
#[global] Arguments keeps_fail_from_target {_ _ _ _ _} inbox.
#[global] Arguments keeps_recordSessionFailure {_ _ _ _ _} inbox.
#[global] Arguments keeps_connected {_ _ _ _ _} inbox.
#[global] Arguments keeps_commit {_ _ _ _ _}.
