(* ===== verification/DistributorWorkers.v ===== *)
(** * Workers and controls keep the invariant

    What a worker does between sessions - the selection of a target, the local
    decisions, the session itself - and the operations of the control surface
    keep the invariant of DistributorLogic.v: so any number of them, interleaved
    at their locks, are an environment each of them may rely on. *)

From stdpp Require Import gmap sorting.
From Stdlib Require Import Strings.Byte.
From S2P Require Import Plan.
From S2P Require Import Prelude Result StdMap Checked Hash Ids Text Codec Lifecycle Policy Files.
From S2P Require Import Journal Snapshot Artifact ArtifactStore Endpoint FaultPlan Frame Records.
From S2P Require Import Messages Protocol Reconciliation State Convergence Store Effects Distributor.
From S2P Require Import DistributorControl DistributorLogic.

Section workers.
Context (opts : DistributorOptions) (env : Env).
Context (subject : DeploymentId → Subject) (known : bool → DeploymentId → Prop).
Context `{!Reliable opts env subject known}.

Abbreviation shared_ok := (shared_ok opts env subject known).
Abbreviation inv := (inv opts env subject known).
Abbreviation state_ok := (state_ok opts env subject known).
(** The invariant of the shared part, whatever the thread holds. *)
Definition ok (w : World) : Prop := shared_ok (w_shared w).
Abbreviation safe m := (keeps ok m (λ _, True)).

(** An operation that does not read the connection is judged on any. *)
Lemma keeps_ok {A} (m : SM World A) φ : (∀ inbox, keeps (inv inbox) m φ) → keeps ok m φ.
Proof.
  intros Hm w Hw. destruct (Hm (w_inbox w) w) as [[Hs _] Hφ]; [|done].
  by split.
Qed.

(** ** A session *)

Lemma runSession_ok target endpoint : safe (runSession opts env target endpoint).
Proof.
  unfold runSession. apply (kept_bind _ _ _ (λ dialled, ∃ n, env_dial env n = dialled)).
  { intros w Hw. split; [done|]. intros a [= <-]. by eexists. }
  intros [inbox|e|why] Hdial; [|apply keeps_ok; intros; apply keeps_recordSessionFailure|by apply kept_lift].
  intros w Hw. unfold s_bind at 1, s_modify at 1.
  destruct (keeps_connected inbox Hdial target endpoint
    (set_chunksSent 0 (set_open true (set_inbox inbox (set_sent [] w))))) as [[Hs _] H]; [by split|].
  by split.
Qed.

(** ** The selection *)

Lemma pickDelivery_state deliveries now s selected localWork :
  let '(s', _, local) := pickDelivery opts deliveries now s selected localWork in
  shared_state s' = shared_state s ∧ ∀ d, d ∈ local → d ∈ localWork ∨ d ∈ deliveries.
Proof.
  revert s selected localWork. induction deliveries as [|d deliveries IH]; intros s selected localWork.
  { cbn. split; [done|]. by left. }
  cbn [pickDelivery].
  assert (∀ s0 sel l, shared_state s0 = shared_state s → (∀ x, x ∈ l → x ∈ localWork ∨ x = d) →
    let '(s', _, local) := pickDelivery opts deliveries now s0 sel l in
    shared_state s' = shared_state s ∧ ∀ x, x ∈ local → x ∈ localWork ∨ x ∈ d :: deliveries) as Hrec.
  { intros s0 sel l Hs Hl. specialize (IH s0 sel l). destruct (pickDelivery _ _ _ _ _ _) as [[s' sel'] local].
    destruct IH as [-> IH]. split; [done|]. intros x [Hx|Hx]%IH.
    - destruct (Hl x Hx) as [?| ->]; [by left|right; by left].
    - right. by right. }
  destruct (negb _); [apply Hrec; [done|by left]|].
  destruct (wish _).
  - destruct (_ && _); apply Hrec; by try left.
  - destruct (_ && _); apply Hrec; by try left.
  - apply Hrec; [done|]. intros x. rewrite elem_of_app, list_elem_of_singleton. tauto.
  - apply Hrec; [done|by left].
Qed.

Lemma select_state now s :
  let '(s', _, local) := select opts now s in
  shared_state s' = shared_state s ∧ ∀ d, d ∈ local → d ∈ map snd (cs_deliveries (shared_state s)).
Proof.
  unfold select. destruct (pickRequest _ _ _ _); [by split; [|intros d Hd; inversion Hd]|].
  pose proof (pickDelivery_state (map snd (cs_deliveries (shared_state s))) now s None []) as H.
  destruct (pickDelivery _ _ _ _ _ _) as [[s' sel] local]. destruct H as [Hs Hl].
  split; [done|]. intros d [Hd|Hd]%Hl; [by inversion Hd|done].
Qed.

Lemma applyLocalDecision_ok inbox d : keeps (inv inbox) (applyLocalDecision opts env d) (λ _, True).
Proof.
  unfold applyLocalDecision. eapply kept_bind; [apply keeps_snapshot|]. intros r [Hr _].
  destruct (_ || _); [by apply kept_ret|].
  eapply kept_bind; [apply keeps_now|]. intros now _.
  eapply kept_bind; [apply keeps_input|]. intros input _.
  eapply kept_bind; [apply keeps_epoch|]. intros e _.
  destruct (action _); try by apply kept_ret.
  all: eapply kept_bind; [eapply kept_try|intros; by apply kept_ret].
  all: by first [apply keeps_rejected|apply keeps_retired|apply keeps_fail_from_target].
Qed.

Lemma pickWork_ok : safe (pickWork opts env).
Proof.
  apply keeps_ok. intros inbox. unfold pickWork.
  eapply kept_bind; [apply keeps_lock|]. intros _ _.
  eapply kept_bind; [apply keeps_now|]. intros now _.
  eapply kept_bind; [apply (kept_get _ _ shared_ok); by intros w []|]. intros s Hs.
  pose proof (select_state now s) as Hsel. destruct (select opts now s) as [[s' selected] local].
  destruct Hsel as [Hst _].
  apply (kept_bind _ _ _ (λ _, True)).
  { apply kept_modify; [|done]. intros w [_ Hi]. split; [|done]. unfold shared_ok in *. cbn.
    by rewrite Hst. }
  intros _ _. apply (kept_bind _ _ _ (λ _, True)).
  { apply kept_for. intros d _. apply applyLocalDecision_ok. }
  intros _ _. by apply kept_ret.
Qed.

Lemma worker_pass_ok : safe (worker_pass opts env).
Proof.
  unfold worker_pass. eapply kept_bind; [apply pickWork_ok|]. intros [[target endpoint]|] _.
  - eapply kept_bind; [apply runSession_ok|]. intros _ _.
    eapply kept_bind; [apply keeps_ok; intros; apply keeps_lock|]. intros _ _.
    by apply kept_modify.
  - by apply kept_ret.
Qed.

Lemma workerLoop_ok passes : safe (workerLoop opts env passes).
Proof.
  induction passes as [|passes IH]; [by apply kept_ret|]. cbn [workerLoop].
  apply (kept_bind _ _ _ (λ _, True)); [by intros w Hw|]. intros [] _; [by apply kept_ret|].
  eapply kept_bind; [apply worker_pass_ok|]. intros _ _. done.
Qed.

(** ** The control surface *)

Lemma retireDeployment_ok deployment why : safe (retireDeployment env deployment why).
Proof.
  apply keeps_ok. intros inbox. unfold retireDeployment.
  eapply kept_bind; [apply keeps_snapshot|]. intros d [Hd _].
  destruct (negb _); [by apply kept_lift|by apply keeps_retired].
Qed.

Lemma requestVerification_ok target : safe (requestVerification env target).
Proof.
  apply keeps_ok. intros inbox. unfold requestVerification.
  eapply kept_bind; [apply keeps_locked_state|]. intros s _.
  destruct (findTarget _ _); [by apply kept_modify|by apply kept_lift].
Qed.

(** Records that add no delivery. *)
Lemma apply_state_ok type s payload :
  type = JournalRecordType.ArtifactUpsert ∨ type = JournalRecordType.DeliveryRemove →
  state_ok s → state_ok (Controller_apply s type payload).1.
Proof.
  intros Hty [Hwf Hg]. split.
  { apply (keeps_run controller_wf); [apply controller_step_keeps|done]. }
  apply (Forall_map snd (good opts env subject known)).
  apply (Forall_map snd (good opts env subject known)) in Hg.
  apply (keeps_run (λ s', Forall (λ e, good opts env subject known e.2) (cs_deliveries s'))); [|done].
  destruct Hty as [-> | ->]; cbn [Controller_apply_step].
  - eapply keeps_read; [apply _|]. intros m _. by apply keeps_set.
  - eapply keeps_read; [apply _|]. intros id _. apply keeps_set. intros s' Hs'.
    by apply map_erase_Forall.
Qed.

Lemma ingestArtifact_inv inbox path declared :
  keeps (inv inbox) (ingestArtifact env path declared) (λ _, True).
Proof.
  unfold ingestArtifact.
  eapply kept_bind; [apply keeps_lock|]. intros _ _.
  apply (kept_bind _ _ _ (λ _, True)); [by apply keeps_call|]. intros faults _.
  apply (kept_bind _ _ _ (λ _, True)).
  { intros w [Hs Hi]. destruct (ingestFromFile _ _ _ _ _) as [[fs a] r]. by split. }
  intros _ _. eapply kept_bind; [apply keeps_lock|]. intros _ _.
  apply keeps_commit. intros s payload _. apply apply_state_ok. by left.
Qed.

Lemma ingestArtifact_ok path declared : safe (ingestArtifact env path declared).
Proof. apply keeps_ok. intros. apply ingestArtifact_inv. Qed.

(** The identity of every instruction stands for what the instruction says. *)
Definition plan_subjects (plan : DeploymentPlan) : Prop :=
  Forall (λ i, subject (deriveDeploymentId (di_target i) (di_configKey i) (di_generation i) (di_digest i))
               = mkSubject (di_target i) (di_generation i) (di_digest i)) (pl_instructions plan).

Lemma planned_good plan i created :
  plan_wf plan → instruction_wf i → fits_i64 created →
  subject (deriveDeploymentId (di_target i) (di_configKey i) (di_generation i) (di_digest i))
  = mkSubject (di_target i) (di_generation i) (di_digest i) →
  good opts env subject known (planned plan i created).
Proof.
  intros Hp Hi Hc Hs. split; [|done|by split].
  pose proof (iwf_digest i Hi) as [Hd _]. destruct Hp, Hi. split; cbn; try done; try (unfold fits; lia).
  exact (proj2 (proj1 (parseId_Ok _ _ _) (proj1 (deriveDeploymentId_valid _ _ _ _)))).
Qed.

Lemma continued_good existing d :
  good opts env subject known existing → good opts env subject known d →
  dr_id existing = dr_id d → dr_state d = DeliveryState.Prepared →
  good opts env subject known (continued existing d).
Proof.
  intros [[] He [Ha Hk]] [[] Hs Hc] Hid Hst. split; [by split|done|].
  unfold claims in *. cbn [continued dr_state dr_id]. rewrite <- Hid.
  destruct (isPendingState (dr_state existing)); [done|]. by rewrite Hst.
Qed.

Lemma takeOver_ok inbox i : keeps (inv inbox) (takeOver env i) (λ _, True).
Proof.
  unfold takeOver. eapply kept_bind; [apply keeps_lock|]. intros _ _.
  apply (kept_bind _ _ _ (λ _, True)); [by apply kept_get|]. intros s _.
  destruct (_ && _); [|by apply kept_ret].
  eapply kept_bind; [apply keeps_now|]. intros produced _.
  eapply kept_bind; [apply keeps_now|]. intros stored _.
  eapply kept_bind; [eapply kept_try, ingestArtifact_inv|]. intros _ _. by apply kept_ret.
Qed.

Lemma submitInstruction_ok inbox plan i accepted :
  plan_wf plan → i ∈ pl_instructions plan → plan_subjects plan →
  keeps (inv inbox) (submitInstruction opts env plan i accepted) (λ _, True).
Proof.
  intros Hp Hin Hsub. unfold submitInstruction.
  assert (instruction_wf i) as Hi by by apply (Forall_elem _ _ _ (pwf_instructions plan Hp)).
  eapply kept_bind; [apply takeOver_ok|]. intros _ _.
  eapply kept_bind; [apply keeps_now|]. intros created Hc.
  assert (good opts env subject known (planned plan i created)) as Hg.
  { apply planned_good; try done. by apply (Forall_elem _ _ _ Hsub). }
  eapply kept_bind; [apply keeps_locked_state|]. intros s Hs. cbv beta in Hs.
  destruct (match findDelivery _ s with Some _ => _ | None => _ end); [by apply kept_ret|].
  set (record := match findDelivery _ s with Some _ => _ | None => _ end).
  assert (good opts env subject known record) as Hr.
  { subst record. destruct (findDelivery _ s) as [e|] eqn:E; [|done].
    apply (findDelivery_good opts env subject known) in E as [He Hid]; [|done].
    by apply continued_good. }
  eapply kept_bind; [apply keeps_locked_state|]. intros s1 Hs1. cbv beta in Hs1.
  apply (kept_bind _ _ _ (λ _, True)).
  { apply kept_for. intros d Hd. apply keeps_retired. left.
    by apply (Forall_elem _ _ _ (deliveries_where_good _ _ _ _ (is_superseded record) s1 Hs1)). }
  intros _ _. eapply kept_bind; [apply keeps_locked_state|]. intros s2 Hs2.
  apply (kept_bind _ _ _ (λ _, True)).
  { apply kept_for. intros d _. eapply kept_bind; [apply keeps_lock|]. intros _ _.
    apply keeps_commit. intros s' payload _. apply apply_state_ok. by right. }
  intros _ _. eapply kept_bind; [apply keeps_locked_state|]. intros s3 Hs3.
  eapply kept_bind; [apply keeps_upsertTarget|]. intros _ _.
  eapply kept_bind; [apply keeps_upsertDelivery; by left|]. intros _ _. by apply kept_ret.
Qed.

Lemma submit_all_ok inbox plan work :
  plan_wf plan → plan_subjects plan → (∀ e, e ∈ work → e.1 ∈ pl_instructions plan) →
  keeps (inv inbox) (submit_all opts env plan work) (λ _, True).
Proof.
  intros Hp Hs. induction work as [|[i resolution] work IH]; intros Hw; [by apply kept_ret|].
  cbn [submit_all]. eapply kept_bind.
  { apply submitInstruction_ok; try done. apply (Hw (i, resolution)). by left. }
  intros created _. eapply kept_bind; [apply IH; intros e He; apply Hw; by right|].
  intros rest _. by apply kept_ret.
Qed.

Lemma compactIfNeeded_state faults suffix outcome (st : Store ControllerState) fs :
  state_ (compactIfNeeded faults suffix outcome st fs).1.2 = state_ st.
Proof.
  unfold compactIfNeeded, compact. destruct (_ <? _); [done|]. destruct (failed_ st); [done|].
  destruct (sc_encodeSnapshot _); [|done..].
  destruct (SnapshotFile_write _ _ _ _ _ _) as [fs1 [u|e|why]]; [|done..].
  by destruct (restartSegment _ _ _ _) as [fs2 [j|e|why]].
Qed.

Lemma submitPlan_ok plan :
  plan_wf plan → plan_subjects plan → safe (submitPlan opts env plan).
Proof.
  intros Hp Hs. apply keeps_ok. intros inbox. unfold submitPlan.
  destruct (negb _); [by apply kept_lift|].
  eapply kept_bind.
  { apply submit_all_ok; try done. intros [i resolution] Hin. apply elem_of_zip_l in Hin. done. }
  intros created _. eapply kept_bind; [apply keeps_locked_state|]. intros s _.
  destruct (_ >? _); [by apply kept_lift|].
  apply (kept_bind _ _ _ (λ _, True)); [by apply keeps_call|]. intros [[faults suffix] outcome] _.
  apply (kept_bind _ _ _ (λ _, True)); [|intros _ _; by apply kept_ret].
  intros w [Hw Hi]. pose proof (compactIfNeeded_state faults suffix outcome (sh_store (w_shared w)) (sh_fs (w_shared w))) as Hst.
  destruct (compactIfNeeded _ _ _ _ _) as [[fs st] r]. split; [|done]. split; [|done].
  unfold DistributorLogic.shared_ok, shared_state in *. cbn in *. by rewrite Hst.
Qed.
End workers.
