(* ===== verification/ControlLogic.v ===== *)
(** * A logic for the control channel

    What the control commands leave alone: the connection that carries them, and
    the evidence invariant of DistributorLogic.v. *)

From stdpp Require Import gmap.
From Stdlib Require Import Strings.Byte.
From S2P Require Import Plan.
From S2P Require Import Prelude Result StdMap Checked Hash Ids Text Codec Lifecycle Policy Files.
From S2P Require Import Journal Artifact ArtifactStore Endpoint Frame Records Messages Protocol State.
From S2P Require Import Convergence Store Effects Distributor DistributorControl Control.
From S2P Require Import DistributorLogic DistributorWorkers.

(** ** Walking through an operation *)

(** What an operation that only locks, reads and calls leaves alone. *)
Class Unmoved (env : Env) (I : World → Prop) := {
  unmoved_call w : I w → I (next_call w);
  unmoved_lock w n : I w → I (set_shared (env_others env n (w_shared w)) (next_call w));
}.

Section walk.
Context (env : Env) (I : World → Prop) `{!Unmoved env I}.

Lemma walk_call {A} (f : nat → A) : keeps I (call f) (λ _, True).
Proof. intros w Hw. split; [by apply (unmoved_call (env := env))|done]. Qed.
Lemma walk_lock : keeps I (lock env) (λ _, True).
Proof. intros w Hw. split; [by apply unmoved_lock|done]. Qed.
Lemma walk_get {A} (f : World → A) : keeps I (s_get f) (λ _, True).
Proof. by apply kept_get. Qed.
Lemma walk_lift {A} (r : Result A) : keeps I (s_lift r) (λ _, True).
Proof. by apply kept_lift. Qed.
Lemma walk_ret {A} (a : A) : keeps I (s_ret a) (λ _, True).
Proof. by apply kept_ret. Qed.
Lemma walk_try {A} (m : M A) : keeps I m (λ _, True) → keeps I (s_try m) (λ _, True).
Proof. intros Hm. eapply kept_true, kept_try, Hm. Qed.
Lemma walk_bind {A B} (m : M A) (k : A → M B) :
  keeps I m (λ _, True) → (∀ a, keeps I (k a) (λ _, True)) → keeps I (s_bind m k) (λ _, True).
Proof. intros Hm Hk. apply (kept_bind _ _ _ (λ _, True)); [done|]. intros a _. apply Hk. Qed.
End walk.

Create HintDb walk discriminated.

(** One step of the walk: the shape of the operation, or a lemma about it. *)
Ltac walk_step :=
  first
  [ solve [auto with walk]
  | apply walk_ret | apply walk_lift | apply walk_get
  | apply walk_bind; [|intros ?]
  | apply walk_try
  | eapply walk_call; typeclasses eauto | apply walk_lock; typeclasses eauto
  | apply kept_for; intros ? _
  | apply kept_when
  | match goal with |- keeps _ (match ?x with _ => _ end) _ => destruct x end
  | match goal with |- keeps _ (let _ := _ in _) _ => cbv zeta end ].
Ltac walk := repeat walk_step.

(** ** The connection is the channel's *)

Definition connection (w : World) : list Message * list (Result Frame) * bool * Z :=
  (w_sent w, w_inbox w, w_open w, w_chunksSent w).

Section silent.
Context (opts : DistributorOptions) (env : Env) (controlPort : Z).
Context (c : list Message * list (Result Frame) * bool * Z).
Abbreviation silent m := (keeps (λ w, connection w = c) m (λ _, True)).

#[local] Instance silent_unmoved : Unmoved env (λ w, connection w = c).
Proof. by split; intros []. Qed.

Ltac raw := intros w Hw; repeat case_match; simplify_eq; by split.

Lemma silent_commit type record : silent (m_commit env type record).
Proof. unfold m_commit. walk. raw. Qed.
#[local] Hint Resolve silent_commit : walk.

Lemma silent_state : silent (locked_state env).
Proof. unfold locked_state. walk. Qed.
Lemma silent_now : silent (m_now env).
Proof. unfold m_now. walk. Qed.
#[local] Hint Resolve silent_state silent_now : walk.
Lemma silent_modify f : silent (modify_shared f).
Proof. by apply kept_modify. Qed.
#[local] Hint Resolve silent_modify : walk.

Lemma silent_transition d to kind code detail b : silent (recordTransition env d to kind code detail b).
Proof. unfold recordTransition. walk. Qed.
#[local] Hint Resolve silent_transition : walk.
Lemma silent_retired d why : silent (recordRetired env d why).
Proof. unfold recordRetired, upsertDelivery. walk. Qed.
#[local] Hint Resolve silent_retired : walk.

Lemma silent_retire id why : silent (retireDeployment env id why).
Proof. unfold retireDeployment, snapshotDelivery. walk. Qed.
Lemma silent_ingest path declared : silent (ingestArtifact env path declared).
Proof. unfold ingestArtifact. walk. raw. Qed.
#[local] Hint Resolve silent_retire silent_ingest : walk.
Lemma silent_takeOver i : silent (takeOver env i).
Proof. unfold takeOver, get_shared. walk. Qed.
#[local] Hint Resolve silent_takeOver : walk.
Lemma silent_instruction plan i accepted : silent (submitInstruction opts env plan i accepted).
Proof. unfold submitInstruction, upsertTarget, upsertDelivery. walk. Qed.
#[local] Hint Resolve silent_instruction : walk.
Lemma silent_all plan work : silent (submit_all opts env plan work).
Proof. induction work as [|[i r] work IH]; cbn [submit_all]; walk. Qed.
#[local] Hint Resolve silent_all : walk.
Lemma silent_submit plan : silent (submitPlan opts env plan).
Proof. unfold submitPlan. walk. raw. Qed.
Lemma silent_verify : silent (verifyArtifacts env).
Proof. unfold verifyArtifacts. walk. raw. Qed.
Lemma silent_request target : silent (requestVerification env target).
Proof. unfold requestVerification. walk. Qed.
#[local] Hint Resolve silent_submit silent_verify silent_request : walk.

Lemma silent_execute request : silent (executeControlCommand opts env controlPort request).
Proof.
  unfold executeControlCommand, with_argument, runPlan, runRetire, statusText, targets, deliveries,
    convergence, explain, artifacts, get_shared. cbv zeta. walk.
Qed.
End silent.

(** ** The commands that only read *)

(** The commands of the catalogue that neither store nor request anything. *)
Definition kReadingCommands : list string :=
  ["status"; "targets"; "deliveries"; "pending"; "divergence"; "converge"; "explain"; "artifacts";
   "lifecycle"; "shutdown"].
(** The command does nothing but read: it is one of these, or none at all. *)
Definition only_reads (request : ControlRequest) : Prop :=
  rq_command request ∈ kReadingCommands ∨ rq_command request ∉ map (λ c, c.1.1) kCommands.

Section reading.
Context (opts : DistributorOptions) (env : Env) (controlPort : Z) (I : World → Prop).
Context `{!Unmoved env I}.

Lemma walk_state : keeps I (locked_state env) (λ _, True).
Proof. unfold locked_state. walk. Qed.
Lemma walk_now : keeps I (m_now env) (λ _, True).
Proof. unfold m_now. walk. Qed.
#[local] Hint Resolve walk_state walk_now : walk.

Lemma not_named (name : string) request (l : list string) :
  rq_command request ∉ l → name ∈ l → bool_decide (rq_command request = name) = false.
Proof. intros Hn Hin. apply bool_decide_false. intros Heq. apply Hn. by rewrite Heq. Qed.

Lemma reads_keep request :
  only_reads request → keeps I (executeControlCommand opts env controlPort request) (λ _, True).
Proof.
  intros Hr. unfold executeControlCommand, with_argument, statusText, targets, deliveries,
    convergence, explain, artifacts, get_shared. cbv zeta.
  assert (∀ name, name ∉ kReadingCommands → name ∈ map (λ c, c.1.1) kCommands →
            bool_decide (rq_command request = name) = false) as Hno.
  { intros name Hn Hin. destruct Hr as [Hr|Hr].
    - apply bool_decide_false. intros Heq. apply Hn. by rewrite <- Heq.
    - by apply (not_named _ _ (map (λ c, c.1.1) kCommands)). }
  rewrite (Hno "verify-artifacts"), (Hno "plan"), (Hno "retire"), (Hno "verify")
    by (apply (bool_decide_unpack _); vm_compute; exact Logic.I).
  walk.
Qed.
End reading.

(** ** Evidence *)

Section evidence.
Context (opts : DistributorOptions) (env : Env) (controlPort : Z).
Context (subject : DeploymentId → Subject) (known : bool → DeploymentId → Prop).
Context `{!Reliable opts env subject known}.

Abbreviation ok := (ok opts env subject known).
Abbreviation inv := (inv opts env subject known).

#[local] Instance ok_unmoved : Unmoved env ok.
Proof. split; [by intros []|]. intros w n Hw. by apply rely. Qed.

Lemma walk_verify : keeps ok (verifyArtifacts env) (λ _, True).
Proof. unfold verifyArtifacts. walk. intros w Hw. repeat case_match; simplify_eq; by split. Qed.
#[local] Hint Resolve walk_verify retireDeployment_ok requestVerification_ok : walk.
#[local] Hint Resolve walk_state walk_now : walk.

(** A command that submits no plan keeps the invariant. (A plan is a submission
    like any other: [submitPlan_ok].) *)
Lemma execute_ok request :
  rq_command request ≠ "plan" →
  keeps ok (executeControlCommand opts env controlPort request) (λ _, True).
Proof.
  intros Hp. unfold executeControlCommand, with_argument, runRetire, statusText, targets,
    deliveries, convergence, explain, artifacts, get_shared. cbv zeta.
  rewrite (bool_decide_false (rq_command request = "plan")) by done. walk.
Qed.

(** What leaves the connection alone keeps what is known of it. *)
Lemma inv_of_ok {A} inbox (m : M A) :
  keeps ok m (λ _, True) → (∀ c, keeps (λ w, connection w = c) m (λ _, True)) →
  keeps (inv inbox) m (λ _, True).
Proof.
  intros Hok Hsilent w [Hs Hi]. destruct (Hok w Hs) as [Hs' _].
  destruct (Hsilent (connection w) w eq_refl) as [Hc _]. split; [|done]. split; [done|].
  injection Hc as _ -> _ _. exact Hi.
Qed.

(** No request of these frames submits a plan. *)
Definition no_plan (inbox : list (Result Frame)) : Prop :=
  ∀ frame request, Ok frame ∈ inbox → decodeControlRequest (fpayload frame) = Ok request →
    cq_command request ≠ "plan".

#[local] Instance inv_unmoved inbox : Unmoved env (inv inbox).
Proof.
  split; [by intros w []|]. intros w n [Hs Hi]. split; [|done]. by apply rely.
Qed.
Lemma send_inv inbox type flags encoded : keeps (inv inbox) (control_send env type flags encoded) (λ _, True).
Proof. unfold control_send, send_framed. walk. by apply kept_modify. Qed.
#[local] Hint Resolve send_inv : walk.

Lemma request_inv inbox : no_plan inbox →
  keeps (inv inbox) (controlRequest opts env controlPort) (λ _, True).
Proof.
  intros Hno. unfold controlRequest.
  eapply kept_bind; [apply keeps_receive|]. intros frame Hframe. cbv beta in Hframe.
  destruct (frame_is _ _); [apply walk_ret|]. destruct (negb _); [unfold unexpected; apply walk_lift|].
  eapply kept_bind; [apply kept_lifted|]. intros request Hrequest. cbv zeta. walk.
  apply inv_of_ok; [|intros; apply silent_execute]. apply execute_ok. cbn. by apply (Hno frame).
Qed.

Lemma connection_inv inbox : no_plan inbox →
  keeps (inv inbox) (serveControlConnection opts env controlPort) (λ _, True).
Proof.
  intros Hno. unfold serveControlConnection, controlGreeting, epoch, unexpected.
  assert (∀ fuel, keeps (inv inbox) (serve_requests opts env controlPort fuel) (λ _, True)) as Hloop.
  { induction fuel as [|fuel IH]; [apply walk_ret|]. cbn [serve_requests].
    apply walk_bind; [by apply request_inv|]. intros [|]; [apply walk_ret|done]. }
  assert (keeps (inv inbox) m_receive (λ _, True)) as Hr by (eapply kept_true, keeps_receive).
  pose proof (walk_state env (inv inbox)) as Hs. walk.
Qed.

Lemma handle_ok inbox : no_plan inbox →
  keeps ok (handleControlConnection opts env controlPort inbox) (λ _, True).
Proof.
  intros Hno w Hw. unfold handleControlConnection, s_bind at 1, s_modify at 1.
  destruct (connection_inv inbox Hno (set_open true (set_inbox inbox (set_sent [] w)))) as [[Hs _] _];
    by split.
Qed.

Lemma controlLoop_ok accepts :
  (∀ inbox, Ok inbox ∈ accepts → no_plan inbox) →
  keeps ok (controlLoop opts env controlPort accepts) (λ _, True).
Proof.
  induction accepts as [|accepted accepts IH]; intros Hno; [apply walk_ret|]. cbn [controlLoop].
  assert (keeps ok (controlLoop opts env controlPort accepts) (λ _, True)) as Hrest.
  { apply IH. intros inbox Hin. apply Hno. by right. }
  assert (∀ inbox, accepted = Ok inbox → keeps ok (handleControlConnection opts env controlPort inbox)
                                           (λ _, True)) as Hhandle.
  { intros inbox ->. apply handle_ok, Hno. by left. }
  unfold stopRequested. walk.
Qed.
End evidence.
