(* ===== verification/DistributorHandshake.v ===== *)
(** * Whom the distributor greets

    The handshake of a session: what a peer must have shown before anything of
    the distributor's state changes or the distributor confirms the session, and
    what is recorded of the authority it presented. *)

From stdpp Require Import gmap sorting.
From Stdlib Require Import Strings.Byte.
From S2P Require Import Prelude Result StdMap Checked Hash Ids Text Codec Lifecycle Policy Files.
From S2P Require Import Journal Snapshot Artifact ArtifactStore Endpoint FaultPlan Frame Records.
From S2P Require Import Messages Protocol Reconciliation State Convergence Store Effects Distributor.
From S2P Require Import DistributorLogic DistributorExample.

(** The answer of the peer meets every condition: it greets as the target that
    was dialled, under the shared key, with a boot term that is not older than
    the one recorded, and not that term under another incarnation. *)
Record accepted (opts : DistributorOptions) (s : ControllerState) (target : TargetId) (answer : Frame)
    (ack : HelloAckMessage) : Prop := {
  acc_type : ftype (header answer) = FrameType.HelloAck;
  acc_decodes : decodeHelloAck (fpayload answer) = Ok ack;
  acc_target : ha_target ack = target;
  acc_sealed : o_authenticate opts = true →
               verifyAuthenticated (fpayload answer) (o_key opts) = Ok tt;
  acc_term : ∀ runtime, findTarget target s = Some runtime →
             value (tr_term runtime) <= value (ha_term ack);
  acc_incarnation : ∀ runtime, findTarget target s = Some runtime →
             num_isSet (tr_term runtime) = true → ha_term ack = tr_term runtime →
             opaque_isSet (tr_incarnation runtime) = true →
             ha_incarnation ack = tr_incarnation runtime;
}.

Section handshake.
Context (opts : DistributorOptions) (env : Env) (target : TargetId).
Context (s : ControllerState) (inbox : list (Result Frame)) (sent : list Message).
Hypothesis others : ∀ n s', shared_state (env_others env n s') = shared_state s'.
Hypothesis clock : env_typed env.
Hypothesis state_wf : controller_wf s.
Hypothesis target_valid : id_valid target.

(** The answer is accepted. *)
Definition welcome : Prop :=
  ∃ answer rest ack, inbox = Ok answer :: rest ∧ accepted opts s target answer ack.
(** Nothing happened but that a hello may have been sent. *)
Definition untouched (w : World) : Prop :=
  shared_state (w_shared w) = s ∧ ∃ l, w_sent w = sent ++ l ∧ (length l <= 1)%nat
    ∧ ∀ m, m ∈ l → m_type m = FrameType.Hello.
Definition refused (w : World) : Prop := welcome ∨ untouched w.

(** Before anything is sent; and with the hello sent. *)
Definition before (w : World) : Prop :=
  shared_state (w_shared w) = s ∧ w_inbox w = inbox ∧ w_sent w = sent.
Definition greeting_sent (w : World) : Prop :=
  shared_state (w_shared w) = s ∧ w_inbox w = inbox
  ∧ ∃ m, w_sent w = sent ++ [m] ∧ m_type m = FrameType.Hello.
Definition in_state (w : World) : Prop := shared_state (w_shared w) = s.

Lemma before_refused w : before w → refused w.
Proof.
  intros (Hs & _ & Hl). right. split; [done|]. exists []. rewrite app_nil_r. split; [done|].
  split; [simpl; lia|]. by intros m Hm%elem_of_nil.
Qed.
Lemma greeting_refused w : greeting_sent w → refused w.
Proof.
  intros (Hs & _ & m & Hl & Hm). right. split; [done|]. exists [m]. split; [done|]. split; [done|].
  by intros m' ->%list_elem_of_singleton.
Qed.

Lemma read_state (P : World → Prop) F :
  (∀ w, P w → shared_state (w_shared w) = s) →
  (∀ w s', shared_state s' = shared_state (w_shared w) → P w → P (set_shared s' (next_call w))) →
  hoare P (locked_state env) (λ a w, a = s ∧ P w) F.
Proof.
  intros Hst Hp w Hw. cbn. split; [|apply Hp; [apply others|done]].
  rewrite others. by apply Hst.
Qed.

Lemma before_state : hoare before (locked_state env) (λ a w, a = s ∧ before w) refused.
Proof. apply read_state; [by intros w []|]. intros w s' Hs (H & ? & ?). split; [cbn; by rewrite Hs|done]. Qed.
Lemma greeting_state : hoare greeting_sent (locked_state env) (λ a w, a = s ∧ greeting_sent w) refused.
Proof. apply read_state; [by intros w []|]. intros w s' Hs (H & ? & ?). split; [cbn; by rewrite Hs|done]. Qed.
Lemma in_state_state F : hoare in_state (locked_state env) (λ a w, a = s ∧ in_state w) F.
Proof. apply read_state; [done|]. intros w s' Hs Hw. unfold in_state. cbn. by rewrite Hs. Qed.

Lemma send_hello payload :
  hoare before (m_send opts env FrameType.Hello 0 payload) (λ _, greeting_sent) refused.
Proof.
  intros w Hw. unfold m_send, send_framed, s_bind, s_lift, call. pose proof (before_refused w Hw) as Hr.
  destruct (encodeFrame _ _ _ _) as [bytes|e|why]; [|done..].
  destruct (env_send_fails env (w_calls w)); [done|]. destruct Hw as (Hs & Hi & Hl).
  split; [done|]. split; [done|]. eexists. cbn. by rewrite Hl.
Qed.

Lemma send_after P F type flags payload :
  (∀ w, P w → F w) → (∀ w, P w → P (next_call w)) →
  (∀ w l, P w → P (set_sent l w)) →
  hoare P (m_send opts env type flags payload) (λ _, P) F.
Proof.
  intros HF Hn Hs w Hw. unfold m_send, send_framed, s_bind, s_lift, call.
  destruct (encodeFrame _ _ _ _) as [bytes|e|why]; [|by apply HF..].
  destruct (env_send_fails env (w_calls w)); [by apply HF, Hn|]. by apply Hs, Hn.
Qed.

Lemma fenced_Ok ack u :
  0 <= value (ha_term ack) → fenced (findTarget target s) ack = Ok u →
  (∀ runtime, findTarget target s = Some runtime → value (tr_term runtime) <= value (ha_term ack))
  ∧ (∀ runtime, findTarget target s = Some runtime → num_isSet (tr_term runtime) = true →
     ha_term ack = tr_term runtime → opaque_isSet (tr_incarnation runtime) = true →
     ha_incarnation ack = tr_incarnation runtime).
Proof.
  unfold fenced. intros Hpos Hf. split; intros runtime Hr; rewrite Hr in Hf.
  - unfold num_lt in Hf. destruct (num_isSet (tr_term runtime)) eqn:Eset.
    + destruct (Z.ltb_spec (value (ha_term ack)) (value (tr_term runtime))); [done|lia].
    + unfold num_isSet in Eset. destruct (Z.eqb_spec (value (tr_term runtime)) 0); [lia|done].
  - intros Hset Heq Hinc. rewrite Hset, Hinc, Heq in Hf. unfold num_lt in Hf.
    destruct (_ <? _); [done|]. rewrite bool_decide_eq_true_2 in Hf by done. cbn [andb] in Hf.
    case_bool_decide; done.
Qed.

(** *** What is recorded *)

Definition recorded (ack : HelloAckMessage) (w : World) : Prop :=
  ∃ runtime, findTarget target (shared_state (w_shared w)) = Some runtime
    ∧ tr_term runtime = ha_term ack ∧ tr_incarnation runtime = ha_incarnation ack.

Lemma greeted_wf ack now :
  hello_ack_wf ack → fits_i64 now → runtime_wf (greeted target (findTarget target s) ack now).
Proof.
  intros [] Hnow.
  assert (runtime_wf (default TargetRuntime_default (findTarget target s))
          ∨ findTarget target s = None) as Hold.
  { destruct (findTarget target s) as [r|] eqn:E; [left|by right].
    by destruct (keyed_find _ _ _ _ _ (cwf_targets s state_wf) E) as [_ Hr]. }
  unfold greeted. destruct (restarted _ _); split; cbn; try done.
  all: first [ by apply Z.mod_pos_bound
             | destruct Hold as [[]| ->]; [done|first [by left|by vm_compute|by split; [vm_compute|left]]] ].
Qed.

Lemma commit_Ok outcome (st : Store ControllerState) type payload fs fs' st' u :
  commit outcome st type payload fs = (fs', st', Ok u) →
  state_ st' = (Controller_apply (state_ st) type payload).1.
Proof.
  unfold commit. destruct (failed_ st); [done|]. destruct (_ >? _); [done|].
  change (sc_apply (state_ st) type payload) with (Controller_apply (state_ st) type payload).
  destruct (Controller_apply (state_ st) type payload) as [s1 [u1|e|why]]; [|done..].
  destruct (append _ _ _ _ _) as [fs1 [j|e|why]]; [|done..]. by intros [= _ <- _].
Qed.

Lemma record_greeting ack now F :
  (∀ w, F w) → hello_ack_wf ack → fits_i64 now →
  hoare in_state (upsertTarget env (greeted target (findTarget target s) ack now))
    (λ _, recorded ack) F.
Proof.
  intros HF Hack Hnow. pose proof (greeted_wf ack now Hack Hnow) as Hwf.
  destruct (target_upsert_effect s _ state_wf Hwf) as (bs & s' & He & Ha & Hf & _).
  unfold upsertTarget, m_commit. rewrite He.
  intros w Hw. unfold s_bind, lock, s_lift, call. cbn.
  destruct (commit _ _ _ _ _) as [[fs st] [u|e|why]] eqn:Ec; [|by apply HF..].
  apply commit_Ok in Ec. unfold in_state, shared_state in Hw. unfold recorded, shared_state. cbn.
  change (state_ (sh_store (env_others env (w_calls w) (w_shared w))))
    with (shared_state (env_others env (w_calls w) (w_shared w))) in Ec.
  rewrite others in Ec. unfold shared_state in Ec. rewrite Hw, Ha in Ec. rewrite Ec. cbn [fst].
  eexists. split; [exact Hf|]. by split.
Qed.

Lemma mark_recorded ack current now :
  keeps (recorded ack) (markContactCurrent env target current now) (λ _, True).
Proof.
  intros w (r & Hf & Ht & Hi). cbn. split; [|done]. unfold recorded, shared_state at 1. cbn.
  unfold mark_contact. rewrite others, Hf. unfold findTarget. cbn. rewrite map_find_assign_eq.
  eexists. split; [done|]. by destruct (_ >? _).
Qed.

(** A delivery record does not concern targets. *)
Lemma delivery_upsert_targets st payload :
  cs_targets (Controller_apply st JournalRecordType.DeliveryUpsert payload).1 = cs_targets st.
Proof.
  apply (keeps_run (λ s', cs_targets s' = cs_targets st)); [|done].
  apply keeps_read with (w := writeDeliveryRecord) (wf := delivery_wf); [apply _|].
  intros r _. by apply keeps_set.
Qed.

Lemma note_recorded ack d kind detail :
  keeps (recorded ack) (noteEvent env d kind detail) (λ _, True).
Proof.
  unfold noteEvent.
  apply (kept_bind _ _ _ (λ _, True)).
  { intros w Hw. cbn. split; [|done]. unfold recorded in *. cbn. by rewrite others. }
  intros st _. apply (kept_bind _ _ _ (λ _, True)); [by intros w Hw|]. intros now _.
  apply (kept_bind _ _ _ (λ _, True)); [by intros w Hw|]. intros updated _.
  apply (kept_bind _ _ _ (λ _, True)); [|intros; by apply kept_ret].
  unfold m_commit. apply (kept_bind _ _ _ (λ _, True)); [by apply kept_lift|]. intros payload _.
  apply (kept_bind _ _ _ (λ _, True)); [by intros w Hw|]. intros outcome _ w Hw.
  pose proof (commit_state outcome (sh_store (w_shared w)) JournalRecordType.DeliveryUpsert payload
                (sh_fs (w_shared w))) as Hc.
  destruct (commit _ _ _ _ _) as [[fs st'] r]. split; [|done].
  unfold recorded, shared_state, findTarget in *. cbn.
  destruct Hc as [-> | ->]; [done|]. by rewrite delivery_upsert_targets.
Qed.

Lemma rearm_recorded ack term :
  keeps (recorded ack) (rearmAfterRestart env target term) (λ _, True).
Proof.
  unfold rearmAfterRestart. apply (kept_bind _ _ _ (λ _, True)).
  { intros w Hw. cbn. split; [|done]. unfold recorded in *. cbn. by rewrite others. }
  intros st _. apply kept_for. intros d _.
  eapply kept_bind; [apply note_recorded|]. intros. by apply kept_ret.
Qed.

(** *** The handshake *)

Definition established (session : SessionContext) (w : World) : Prop :=
  ∃ answer rest ack, inbox = Ok answer :: rest ∧ accepted opts s target answer ack
    ∧ sc_target session = target ∧ sc_targetTerm session = ha_term ack
    ∧ sc_targetIncarnation session = ha_incarnation ack ∧ recorded ack w.

Lemma after_acceptance endpoint answer rest ack :
  inbox = Ok answer :: rest → accepted opts s target answer ack → hello_ack_wf ack →
  hoare in_state
    (let& confirm := s_lift (encodeHelloConfirm (mkHelloConfirmMessage (confirm_tag opts (fpayload answer)))) in
     do& m_send opts env FrameType.HelloConfirm 0 confirm in
     let& s := locked_state env in
     let existing := findTarget target s in
     let& now := m_now env in
     do& upsertTarget env (greeted target existing ack now) in
     do& markContactCurrent env target true now in
     do& s_when (restarted existing ack) (rearmAfterRestart env target (ha_term ack)) in
     s_ret (mkSessionContext target endpoint (ha_term ack) (ha_incarnation ack)
              (Z.min (maxPayloadBytes (o_policy opts)) (ha_maxPayloadBytes ack)) None))
    established refused.
Proof.
  intros Hin Hacc Hwf.
  assert (∀ w, refused w) as HF by (intros w; left; by exists answer, rest, ack).
  eapply ends_bind; [by apply ends_lift|]. intros confirm.
  apply (ends_pre in_state); [|by intros w []].
  eapply ends_bind; [by apply (send_after in_state)|]. intros [].
  eapply ends_bind; [apply in_state_state|]. intros st.
  eapply (ends_bind _ _ _ (λ now w, st = s ∧ fits_i64 now ∧ in_state w)).
  { intros w [Hst Hw]. cbn. split; [done|]. split; [apply clock|done]. }
  intros now w (-> & Hnow & Hw). revert w Hw.
  eapply ends_bind; [by apply record_greeting|]. intros [].
  eapply ends_bind; [by eapply ends_keeps; [apply mark_recorded|]|]. intros [].
  apply (ends_pre (recorded ack)); [|by intros w []].
  eapply ends_bind; [eapply ends_keeps; [apply kept_when, rearm_recorded|done]|]. intros [].
  apply ends_ret. intros w [_ Hw]. by exists answer, rest, ack.
Qed.

(** The frame that answers the hello. *)
Definition answered (answer : Frame) (w : World) : Prop :=
  shared_state (w_shared w) = s ∧ (∃ m, w_sent w = sent ++ [m] ∧ m_type m = FrameType.Hello)
  ∧ ∃ rest, inbox = Ok answer :: rest.

Lemma answered_refused answer w : answered answer w → refused w.
Proof.
  intros (Hs & (m & Hl & Hm) & _). right. split; [done|]. exists [m]. split; [done|]. split; [done|].
  by intros m' ->%list_elem_of_singleton.
Qed.

Lemma receive_answer : hoare greeting_sent m_receive answered refused.
Proof.
  intros w Hw. pose proof (greeting_refused w Hw) as Hr. destruct Hw as (Hs & Hi & Hl).
  unfold m_receive. rewrite Hi. unfold refused, untouched, answered in *.
  destruct inbox as [|[answer|e|why] rest]; try done.
  split; [done|]. split; [done|]. by eexists.
Qed.
Lemma answered_state answer :
  hoare (answered answer) (locked_state env) (λ a w, a = s ∧ answered answer w) refused.
Proof. apply read_state; [by intros w []|]. intros w s' Hs (H & ? & ?). split; [cbn; by rewrite Hs|done]. Qed.

Lemma handshake_established endpoint :
  hoare before (handshake opts env target endpoint) established refused.
Proof.
  unfold handshake, epoch, incarnation.
  assert (∀ A (f : ControllerState → A),
    hoare before (let& s := locked_state env in s_ret (f s)) (λ _, before) refused) as Hread.
  { intros A f. eapply ends_bind; [apply before_state|]. intros st. apply ends_ret. by intros w []. }
  eapply (ends_bind _ _ _ (λ _, before)); [apply Hread|]. intros e.
  eapply (ends_bind _ _ _ (λ _, before)); [apply Hread|]. intros i.
  eapply (ends_bind _ _ _ (λ _, before)); [by intros w Hw|]. intros nonce.
  eapply ends_bind; [by apply ends_lift, before_refused|]. intros hello.
  apply (ends_pre before); [|by intros w []].
  eapply ends_bind; [by apply ends_lift, before_refused|]. intros encoded.
  apply (ends_pre before); [|by intros w []].
  eapply ends_bind; [apply send_hello|]. intros [].
  eapply ends_bind; [apply receive_answer|]. intros answer.
  pose proof (answered_refused answer) as HF.
  destruct (frame_is FrameType.AuthReject answer).
  { eapply ends_bind; [by apply ends_lift|]. intros reject.
    apply ends_fails; [done|]. intros w [_ Hw]. by apply HF. }
  destruct (frame_is FrameType.HelloAck answer) eqn:Ety; cbn [negb]; [|by apply ends_fails; [|apply HF]].
  apply bool_decide_eq_true in Ety.
  eapply ends_bind; [by apply ends_lift|]. intros ack w [Hdec Hw]. revert w Hw.
  case_bool_decide as Ht; cbn [negb]; [|by apply ends_fails; [|apply HF]].
  pose proof (codec_sound (Codec := hello_ack_codec) _ _ Hdec) as [[Hack _] _].
  eapply ends_bind; [by apply ends_lift|]. intros v w [Hv Hw]. revert w Hw.
  eapply ends_bind; [apply answered_state|]. intros st w [-> Hw]. revert w Hw.
  eapply ends_bind; [by apply ends_lift|]. intros u w [Hf (Hs & Hl & rest & Hin)].
  apply fenced_Ok in Hf as [Hterm Hinc]; [|by destruct Hack as [_ _ []]].
  apply (after_acceptance endpoint answer rest ack Hin); [|done|exact Hs].
  split; try done. intros Hauth. rewrite Hauth in Hv. by destruct v.
Qed.
End handshake.

(** C10: The handshake fences the target. Whatever the peer answers and the operating
    system does, one of two things is true. Either the first frame of the
    connection greets as the target that was dialled, under the shared key when
    peers authenticate, with a boot term no older than the recorded one, and no
    other incarnation of that term; and then a session that is established has
    exactly the authority presented, which is what the state records of the
    target. Or there is no session, the durable state is what it was, and
    nothing but the hello was sent: the peer never gets the confirmation. *)
Theorem handshake_fences opts env target endpoint w
    (Hquiet : ∀ n s, shared_state (env_others env n s) = shared_state s) (Htyped : env_typed env)
    (Hwf : controller_wf (shared_state (w_shared w))) (Htarget : id_valid target) :
  let s := shared_state (w_shared w) in
  let '(w', r) := handshake opts env target endpoint w in
  (∃ answer rest ack, w_inbox w = Ok answer :: rest ∧ accepted opts s target answer ack
     ∧ ∀ session, r = Ok session →
         sc_target session = target ∧ sc_targetTerm session = ha_term ack
         ∧ sc_targetIncarnation session = ha_incarnation ack ∧ recorded target ack w')
  ∨ (is_ok r = false ∧ untouched s (w_sent w) w').
Proof.
  intros s.
  pose proof (handshake_established opts env target s (w_inbox w) (w_sent w) Hquiet Htyped Hwf Htarget
                endpoint w) as H.
  destruct (handshake opts env target endpoint w) as [w' [session|e|why]].
  - destruct H as (answer & rest & ack & Hin & Hacc & H); [done|]. left. exists answer, rest, ack.
    split; [done|]. split; [done|]. by intros _ [= <-].
  - destruct H as [(answer & rest & ack & Hin & Hacc)|H]; [done| |by right].
    left. by exists answer, rest, ack.
  - destruct H as [(answer & rest & ack & Hin & Hacc)|H]; [done| |by right].
    left. by exists answer, rest, ack.
Qed.

(** *** The example meets the conditions *)

Lemma calm_typed inbox : env_typed (calm_env inbox).
Proof.
  intros n. unfold fits_i64. cbn [calm_env env_now].
  pose proof (Z.mod_pos_bound (Z.of_nat n) (2 ^ 40) ltac:(lia)). lia.
Qed.
#[local] Opaque opened.
Lemma opened_state : shared_state opened = mkControllerState (mkString "n1") (fromValue 1)
  (mkOpaque (repeat Byte.x01 16)) 1700000000000 [] [] [].
Proof. by vm_compute. Qed.
Lemma opened_wf : controller_wf (shared_state opened).
Proof. rewrite opened_state. split; try by vm_compute. by right. Qed.

Lemma handshake_fences_witness :
  let w := set_inbox transcript_atomic (world_of opened) in
  ∃ answer rest ack, w_inbox w = Ok answer :: rest
    ∧ accepted example_options (shared_state opened) (mkString "t1") answer ack.
Proof.
  intros w.
  pose proof (handshake_fences example_options (calm_env []) (mkString "t1") (mkEndpoint "" 0) w
    (λ _ _, eq_refl) (calm_typed []) opened_wf eq_refl) as H.
  assert (is_ok (handshake example_options (calm_env []) (mkString "t1") (mkEndpoint "" 0) w).2 = true)
    as Hok by (vm_compute; reflexivity).
  revert H Hok. destruct (handshake _ _ _ _ _) as [w' r]. cbn [snd].
  intros [(answer & rest & ack & Hin & Hacc & _)|[Hno _]] Hok; [by exists answer, rest, ack|].
  by rewrite Hno in Hok.
Defined.
