(* ===== verification/DistributorSchedule.v ===== *)
(** * Which target a worker dials

    The selection of [pickWork]: nobody dials a target that another worker has,
    nor one that was dialled a moment ago, nor one nothing is wanted of; and a
    target something is wanted of is not passed over while it may be dialled. *)

From stdpp Require Import gmap sorting.
From S2P Require Import Prelude Result StdMap Ids Codec Lifecycle Policy Records State Convergence.
From S2P Require Import Store Effects Distributor.

Section schedule.
Context (opts : DistributorOptions).

(** What the policy decides for a delivery at a time. *)
Definition wish_of (s : ControllerState) (now : Z) (d : DeliveryRecord) : Wish :=
  wish (action (Decide.decide (o_policy opts) (buildDecisionInput s (o_policy opts) d now) (cs_epoch s)
                  (dr_generation d))).
(** A delivery that has used up its budget is probed now and then. *)
Definition probe_due (s : ControllerState) (now : Z) (d : DeliveryRecord) : bool :=
  negb (in_millisSinceLastAttempt (buildDecisionInput s (o_policy opts) d now)
        <? repairProbeMillis (o_policy opts)).

Definition wants_session (s : ControllerState) (now : Z) (d : DeliveryRecord) : Prop :=
  isPendingState (dr_state d) = true
  ∧ (wish_of s now d = WantSession ∨ (wish_of s now d = WantProbe ∧ probe_due s now d = true)).

(** A session with the target is asked for: by an operator, or by a delivery. *)
Definition requested (s : Shared) (t : TargetId) : Prop :=
  ∃ r, r ∈ map fst (sh_requests s) ∧ parseTargetId r = Ok t.
Definition needed (s : Shared) (now : Z) (t : TargetId) : Prop :=
  ∃ d, d ∈ map snd (cs_deliveries (shared_state s)) ∧ dr_target d = t ∧ wants_session (shared_state s) now d.

Lemma pickRequest_Some requests now s t :
  pickRequest opts requests now s = Some t →
  mayDial opts t now s = true ∧ ∃ r, r ∈ map fst requests ∧ parseTargetId r = Ok t.
Proof.
  induction requests as [|[r []] requests IH]; [done|]. cbn [pickRequest map fst].
  assert (pickRequest opts requests now s = Some t →
    mayDial opts t now s = true ∧ ∃ r', r' ∈ r :: map fst requests ∧ parseTargetId r' = Ok t) as Hrest.
  { intros (Hm & r' & Hin & Hr)%IH. split; [done|]. exists r'. split; [by right|done]. }
  destruct (parseTargetId r) as [target| |] eqn:E; [|done..].
  destruct (mayDial opts target now s) eqn:Em; [|done].
  intros [= <-]. split; [done|]. exists r. split; [by left|done].
Qed.

Lemma pickRequest_None requests now s t :
  pickRequest opts requests now s = None → (∃ r, r ∈ map fst requests ∧ parseTargetId r = Ok t) →
  mayDial opts t now s = false.
Proof.
  induction requests as [|[r []] requests IH]; [by intros _ (r & Hin%elem_of_nil & _)|].
  cbn [pickRequest map fst]. intros Hp (r' & Hin & Hr).
  apply elem_of_cons in Hin as [-> | Hin].
  - rewrite Hr in Hp. by destruct (mayDial opts t now s).
  - destruct (parseTargetId r) as [target| |]; [|by apply IH; eauto..].
    destruct (mayDial opts target now s); [done|]. apply IH; eauto.
Qed.

(** Once a target is selected the walk only gathers the local work. *)
Lemma pickDelivery_taken ds now s t local :
  ∃ local', pickDelivery opts ds now s (Some t) local = (s, Some t, local ++ local')
    ∧ ∀ d, d ∈ local' ↔ d ∈ ds ∧ isPendingState (dr_state d) = true
                          ∧ wish_of (shared_state s) now d = WantLocal.
Proof.
  revert local. induction ds as [|d ds IH]; intros local.
  { exists []. rewrite app_nil_r. split; [done|]. intros d. rewrite !elem_of_nil. tauto. }
  cbn [pickDelivery]. rewrite bool_decide_eq_false_2 by done. cbn [andb].
  assert (¬ (isPendingState (dr_state d) = true ∧ wish_of (shared_state s) now d = WantLocal) →
    ∃ local', pickDelivery opts ds now s (Some t) local = (s, Some t, local ++ local')
      ∧ ∀ d0, d0 ∈ local' ↔ d0 ∈ d :: ds ∧ isPendingState (dr_state d0) = true
                              ∧ wish_of (shared_state s) now d0 = WantLocal) as Hskip.
  { intros Hno. destruct (IH local) as (l & -> & Hl). exists l. split; [done|]. intros d0.
    rewrite Hl, elem_of_cons. split; [tauto|]. intros [[-> | ?] ?]; [done|tauto]. }
  destruct (isPendingState (dr_state d)) eqn:Ep; cbn [negb]; [|apply Hskip; by intros []].
  fold (wish_of (shared_state s) now d).
  destruct (wish_of (shared_state s) now d) eqn:Ew; [by apply Hskip; intros []..| |by apply Hskip; intros []].
  destruct (IH (local ++ [d])) as (l & -> & Hl). exists (d :: l). rewrite <- app_assoc. split; [done|].
  intros d0. rewrite !elem_of_cons, Hl. split; [|tauto]. intros [-> | ?]; tauto.
Qed.

(** What the walk over [ds] ends with, given the local work gathered before. *)
Definition walked (ds : list DeliveryRecord) (now : Z) (s : Shared) (local : list DeliveryRecord)
    (ends : Shared * option TargetId * list DeliveryRecord) : Prop :=
  let '(s', selected, local') := ends in
  match selected with
  | Some t =>
      mayDial opts t now s = true ∧ s' = claim t now s
      ∧ ∃ d, d ∈ ds ∧ dr_target d = t ∧ wants_session (shared_state s) now d
  | None =>
      s' = s ∧ ∀ d, d ∈ ds → wants_session (shared_state s) now d → mayDial opts (dr_target d) now s = false
  end
  ∧ ∀ d, d ∈ local' ↔ d ∈ local ∨ (d ∈ ds ∧ isPendingState (dr_state d) = true
                                     ∧ wish_of (shared_state s) now d = WantLocal).

Lemma walked_skip d ds now s local ends :
  (wants_session (shared_state s) now d → mayDial opts (dr_target d) now s = false) →
  ¬ (isPendingState (dr_state d) = true ∧ wish_of (shared_state s) now d = WantLocal) →
  walked ds now s local ends → walked (d :: ds) now s local ends.
Proof.
  intros Hs Hl. destruct ends as [[s' [t|]] local']; intros [Hsel Hloc]; (split; [|]).
  2,4: intros d0; rewrite Hloc, elem_of_cons; split; [tauto|intros [?|[[-> | ?] ?]]; tauto].
  - destruct Hsel as (Hm & -> & d0 & Hin & Ht). split; [done|]. split; [done|].
    exists d0. split; [by right|done].
  - destruct Hsel as [-> Hno]. split; [done|]. intros d0 [-> | Hin]%elem_of_cons; [done|by apply Hno].
Qed.

Lemma walked_take d ds now s local :
  wants_session (shared_state s) now d → wish_of (shared_state s) now d ≠ WantLocal →
  mayDial opts (dr_target d) now s = true →
  walked (d :: ds) now s local
    (pickDelivery opts ds now (claim (dr_target d) now s) (Some (dr_target d)) local).
Proof.
  intros Hw Hl Hm.
  destruct (pickDelivery_taken ds now (claim (dr_target d) now s) (dr_target d) local) as (l & -> & Hloc).
  split.
  - split; [done|]. split; [done|]. exists d. split; [by left|done].
  - intros d0. rewrite elem_of_app, Hloc, elem_of_cons. change (shared_state (claim _ _ s)) with (shared_state s).
    split; [tauto|intros [?|[[-> | ?] ?]]; tauto].
Qed.

Lemma pickDelivery_walked ds now s local :
  walked ds now s local (pickDelivery opts ds now s None local).
Proof.
  revert local. induction ds as [|d ds IH]; intros local.
  { split; [split; [done|]; by intros d Hd%elem_of_nil|]. intros d. rewrite elem_of_nil. tauto. }
  cbn [pickDelivery]. rewrite bool_decide_eq_true_2 by done. cbn [andb].
  fold (wish_of (shared_state s) now d). fold (probe_due (shared_state s) now d).
  destruct (isPendingState (dr_state d)) eqn:Ep; cbn [negb];
    [|by apply walked_skip; [intros []; congruence|intros []; congruence|]].
  destruct (wish_of (shared_state s) now d) eqn:Ew.
  - destruct (mayDial opts (dr_target d) now s) eqn:Em.
    + apply walked_take; [by split; [|left]|by rewrite Ew|done].
    + apply walked_skip; [done|by intros []; congruence|done].
  - destruct (mayDial opts (dr_target d) now s) eqn:Em; cbn [andb].
    + destruct (probe_due (shared_state s) now d) eqn:Epr.
      * apply walked_take; [by split; [|right]|by rewrite Ew|done].
      * apply walked_skip; [|by intros []; congruence|done]. intros [_ [?|[_ ?]]]; congruence.
    + apply walked_skip; [done|by intros []; congruence|done].
  - specialize (IH (local ++ [d])). destruct (pickDelivery _ _ _ _ _ _) as [[s' [t|]] local'].
    all: destruct IH as [Hsel Hloc]; split.
    2,4: intros d0; rewrite Hloc, elem_of_app, list_elem_of_singleton, elem_of_cons;
      split; [intros [[?| ->]|?]; tauto|intros [?|[[-> | ?] ?]]; tauto].
    + destruct Hsel as (Hm & -> & d0 & Hin & Ht). split; [done|]. split; [done|].
      exists d0. split; [by right|done].
    + destruct Hsel as [-> Hno]. split; [done|].
      intros d0 [-> | Hin]%elem_of_cons; [intros [_ [?|[? _]]]; congruence|by apply Hno].
  - apply walked_skip; [|by intros []; congruence|done]. intros [_ [?|[? _]]]; congruence.
Qed.

Lemma selected_mayDial now s t : (select opts now s).1.2 = Some t → mayDial opts t now s = true.
Proof.
  unfold select. destruct (pickRequest opts (sh_requests s) now s) as [t'|] eqn:Ereq.
  - intros [= <-]. by apply pickRequest_Some in Ereq as [].
  - pose proof (pickDelivery_walked (map snd (cs_deliveries (shared_state s))) now s []) as Hw.
    destruct (pickDelivery _ _ _ _ _ _) as [[s' sel] local]. cbn. intros ->. by destruct Hw as [[] _].
Qed.
Lemma selected_unclaimed now s t : (select opts now s).1.2 = Some t → str t ∉ sh_claimed s.
Proof. intros Hm%selected_mayDial. unfold mayDial in Hm. by case_bool_decide. Qed.

(** C15: The selection is exclusive, justified and complete. It touches neither the
    durable state nor the artifacts. A selected target is one no other worker
    has and that was not dialled within the session interval; an operator asked
    for it, or a pending delivery of it wants a session or a due probe; it is
    claimed from now on, at this time, and while it is claimed no selection by
    any worker, at any time, selects it again. If none is selected nothing is
    claimed, and every target somebody wants may not be dialled now. The local
    work is exactly the pending deliveries that need no session, unless a request
    was served. *)
Theorem selection_exclusive now s :
  let '(s', selected, local) := select opts now s in
  shared_state s' = shared_state s ∧ sh_artifacts s' = sh_artifacts s ∧ sh_fs s' = sh_fs s
  ∧ match selected with
    | Some t =>
        mayDial opts t now s = true ∧ (requested s t ∨ needed s now t)
        ∧ sh_claimed s' = {[str t]} ∪ sh_claimed s
        ∧ sh_lastAttempt s' = <[str t := now]> (sh_lastAttempt s)
        ∧ ∀ now' later, str t ∈ sh_claimed later →
            (select opts now' later).1.2 ≠ Some t
    | None => s' = s ∧ ∀ t, requested s t ∨ needed s now t → mayDial opts t now s = false
    end
  ∧ ((∀ t, requested s t → mayDial opts t now s = false) →
     ∀ d, d ∈ local ↔ d ∈ map snd (cs_deliveries (shared_state s)) ∧ isPendingState (dr_state d) = true
                       ∧ wish_of (shared_state s) now d = WantLocal).
Proof.
  unfold select. destruct (pickRequest opts (sh_requests s) now s) as [t|] eqn:Ereq.
  - destruct (pickRequest_Some _ _ _ _ Ereq) as [Hm Hr].
    do 3 (split; [done|]). split.
    + split; [done|]. split; [by left|]. split; [done|]. split; [done|].
      intros now' later Hc Heq. by apply (selected_unclaimed now' later t).
    + intros Hno. by rewrite (Hno t Hr) in Hm.
  - pose proof (pickDelivery_walked (map snd (cs_deliveries (shared_state s))) now s []) as Hw.
    destruct (pickDelivery _ _ _ _ _ _) as [[s' [t|]] local]; destruct Hw as [Hsel Hloc].
    + destruct Hsel as (Hm & -> & d & Hin & Ht & Hwant). do 3 (split; [done|]). split.
      * split; [done|]. split; [by right; exists d|]. split; [done|]. split; [done|].
        intros now' later Hc Heq. by apply (selected_unclaimed now' later t).
      * intros _ d0. rewrite Hloc, elem_of_nil. tauto.
    + destruct Hsel as [-> Hno]. do 3 (split; [done|]). split.
      * split; [done|]. intros t [Hr|(d & Hin & <- & Hwant)]; [|by apply Hno].
        by apply (pickRequest_None (sh_requests s)).
      * intros _ d0. rewrite Hloc, elem_of_nil. tauto.
Qed.
End schedule.
