(* ===== verification/DistributorTransfer.v ===== *)
(** * Transfers: the loops end, and what they send

    The two loops of a session take a frame in every pass that goes on, so they
    end; and what a transfer sends is the artifact. *)

From stdpp Require Import gmap.
From Stdlib Require Import Strings.Byte.
From S2P Require Import Prelude Result StdMap Checked Hash Ids Text Codec Lifecycle Policy Files.
From S2P Require Import Journal Snapshot Artifact ArtifactStore Endpoint FaultPlan Frame Records.
From S2P Require Import Messages Protocol Reconciliation State Convergence Store Effects Distributor.
From S2P Require Import DistributorExample.

Section loops.
Context (opts : DistributorOptions) (env : Env).

(** The frames still to come. *)
Definition coming (n : nat) (w : World) : Prop := length (w_inbox w) = n.

Lemma coming_send n type flags payload :
  keeps (coming n) (m_send opts env type flags payload) (λ _, True).
Proof.
  unfold m_send, send_framed. apply (kept_bind _ _ _ (λ _, True)); [by apply kept_lift|]. intros u _.
  apply (kept_bind _ _ _ (λ _, True)); [by intros w Hw|]. intros [e|] _; [by apply kept_lift|].
  by apply kept_modify.
Qed.

Lemma coming_sendChunk n prepare faults offset data :
  keeps (coming n) (sendChunk opts env prepare faults offset data) (λ _, True).
Proof.
  unfold sendChunk. apply (kept_bind _ _ _ (λ _, True)); [by apply kept_lift|]. intros bytes _.
  eapply kept_bind; [apply coming_send|]. intros _ _.
  apply (kept_bind _ _ _ (λ _, True)); [by apply kept_modify|]. intros _ _.
  apply (kept_bind _ _ _ (λ _, True)); [by apply kept_get|]. intros sent _.
  apply (kept_bind _ _ _ (λ _, True)); [apply kept_when, coming_send|]. intros _ _.
  by apply kept_ret.
Qed.

(** An answer that lets the transfer go on took a frame. *)
Lemma coming_answer n prepare record :
  hoare (coming n) (chunkAnswer env prepare record)
    (λ r w, r = None ∨ ∃ n', n = S n' ∧ coming n' w) (λ _, True).
Proof.
  unfold chunkAnswer. apply (ends_bind _ _ _ (λ _ w, ∃ n', n = S n' ∧ coming n' w)).
  { intros w Hw. unfold m_receive. unfold coming in *. destruct (w_inbox w) as [|[f|e|why] rest]; [done| |done..].
    exists (length rest). by split. }
  intros frame. destruct (frame_is FrameType.DeliveryNack frame).
  { apply (ends_bind _ _ _ (λ _ _, True)); [by intros w _; destruct (onNack _ _ _ _) as [? []]|].
    intros u. apply ends_ret. by left. }
  destruct (negb _); [by apply ends_fails|].
  eapply ends_bind; [by apply ends_lift|]. intros ack.
  destruct (negb _); [by apply ends_fails|]. destruct (_ || _).
  { apply ends_ret. intros w [_ Hw]. by right. }
  apply (ends_bind _ _ _ (λ _ _, True)); [by intros w _; destruct (fail_from_target _ _ _ _ _) as [? []]|].
  intros u. apply ends_ret. by left.
Qed.

Lemma ack_loop_ends spent spent' fuel fuel' session record n :
  (n < fuel)%nat → (n < fuel')%nat →
  agree (coming n) (ack_loop opts env spent fuel session record)
    (ack_loop opts env spent' fuel' session record).
Proof.
  revert fuel fuel'. induction n as [|n IH]; intros [|fuel] [|fuel'] Hf Hf'; try lia.
  - cbn [ack_loop].
    apply (agree_bind _ (λ r _, r = fail ErrorCode.PeerIdleTimeout "no frame arrived before the deadline")).
    { intros w Hw. unfold s_try, m_receive, coming in *. by destruct (w_inbox w). }
    intros r w ->. done.
  - cbn [ack_loop]. apply (agree_bind _ (λ _, coming n)).
    { intros w Hw. unfold s_try, m_receive, coming in *.
      destruct (w_inbox w) as [|[f|e|why] rest]; [done|by injection Hw..|done]. }
    intros [frame|e|why]; [|apply agree_refl..]. destruct (frame_is FrameType.DeliveryAck frame);
      [apply agree_refl|]. destruct (frame_is FrameType.DeliveryNack frame); [apply agree_refl|].
    destruct (frame_is FrameType.Ping frame); [|apply agree_refl].
    apply (agree_bind _ (λ _, coming n)); [intros w Hw; by destruct (decodePing _)|]. intros ping.
    apply (agree_bind _ (λ _, coming n)); [intros w Hw; by destruct (encodePong _)|]. intros pong.
    apply (agree_bind _ (λ _, coming n)).
    { eapply ends_post; [eapply ends_keeps; [apply coming_send|done]|]. by intros u w []. }
    intros u. apply IH; lia.
Qed.

Lemma transfer_loop_ends spent spent' fuel fuel' prepare record limit reader faults offset n :
  (n < fuel)%nat → (n < fuel')%nat →
  agree (coming n) (transfer_loop opts env spent fuel prepare record limit reader faults offset)
    (transfer_loop opts env spent' fuel' prepare record limit reader faults offset).
Proof.
  revert fuel fuel' reader faults offset.
  induction n as [n IH] using lt_wf_ind; intros [|fuel] [|fuel'] reader faults offset Hf Hf'; try lia.
  cbn [transfer_loop]. destruct (negb _); [apply agree_refl|].
  apply (agree_bind _ (λ _, coming n)); [by intros w Hw|]. intros []; [apply agree_refl|].
  apply (agree_bind _ (λ _, coming n)); [by intros w Hw|]. intros fault.
  destruct (readAt _ _ _ _) as [reader' [[|b data]|e|why]]; [apply agree_refl| |apply agree_refl..].
  apply (agree_bind _ (λ _, coming n)).
  { eapply ends_post; [eapply ends_keeps; [apply coming_sendChunk|done]|]. by intros u w []. }
  intros faults'. apply (agree_bind _ (λ _, coming n)); [by intros w Hw|]. intros sent.
  destruct (_ && _); [apply agree_refl|].
  eapply agree_bind; [apply coming_answer|]. intros [advanced|]; [|apply agree_refl].
  destruct (_ =? _); [apply agree_refl|]. intros w [?|(n' & -> & Hw)]; [done|].
  by apply (IH n'); [lia|lia|lia|].
Qed.

(** C34: The loops of a session end. The wait for an acknowledgement and the
    streaming of an artifact, run with more fuel than there are frames to come,
    as [awaitAcknowledgement] and [streamArtifact] run them, do exactly what
    they do with any other such amount, and with anything at all in the place
    of running out of it: they never do. *)
Theorem session_loops_end spent spent' spent2 spent2' fuel fuel' session record prepare limit reader faults
    offset w (Hfuel : (length (w_inbox w) < fuel)%nat) (Hfuel' : (length (w_inbox w) < fuel')%nat) :
  ack_loop opts env spent fuel session record w = ack_loop opts env spent' fuel' session record w
  ∧ transfer_loop opts env spent2 fuel prepare record limit reader faults offset w
    = transfer_loop opts env spent2' fuel' prepare record limit reader faults offset w.
Proof.
  split.
  - by apply (ack_loop_ends _ _ _ _ _ _ (length (w_inbox w))).
  - by apply (transfer_loop_ends _ _ _ _ _ _ _ _ _ _ (length (w_inbox w))).
Qed.
End loops.

(** ** What a transfer sends *)

(** A read that succeeds delivers the bytes of the file, up to the size the
    index declares, and leaves the file open. *)
Lemma readAt_slice fault offset length reader reader' data :
  readAt fault offset length reader = (reader', Ok data) →
  data = take (Z.to_nat (Z.min (rd_size reader - offset) length))
           (drop (Z.to_nat offset) (rd_file reader))
  ∧ rd_file reader' = rd_file reader ∧ rd_size reader' = rd_size reader.
Proof.
  unfold readAt. destruct (_ >? _); [done|]. destruct (seek_fails fault); [done|].
  set (wanted := Z.min _ _). set (all := take (Z.to_nat wanted) _).
  set (chunk := match read_stops fault with Some n => take n all | None => all end).
  destruct (Z.eqb_spec (zlen chunk) wanted) as [Hz|]; cbn [negb]; [|done].
  assert (chunk = all) as ->.
  { subst chunk. destruct (read_stops fault) as [n|]; [|done]. apply take_ge.
    assert (zlen all <= Z.max wanted 0) by (unfold zlen, all; rewrite length_take; lia).
    unfold zlen in *. rewrite length_take in Hz. lia. }
  unfold reader_consume. destruct (_ =? _).
  - destruct (_ =? _).
    + destruct (negb _); [done|]. by intros [= <- <-].
    + by intros [= <- <-].
  - by intros [= <- <-].
Qed.

Section sends.
Context (opts : DistributorOptions) (env : Env).
Context (prepare : PrepareMessage) (content : list byte) (size : Z).

(** The piece of the artifact at an offset. *)
Definition piece (offset : Z) : list byte :=
  take (Z.to_nat (Z.min (size - offset) (pr_chunkBytes prepare))) (drop (Z.to_nat offset) content).
Definition carries (m : Message) (offset : Z) : Prop :=
  ∃ payload, m = mkMessage FrameType.Chunk 0 payload
    ∧ encodeChunk (mkChunkMessage (pr_stream prepare) (fromValue offset) offset (piece offset)) = Ok payload.

(** The offsets go where the target says: each after the first is the byte
    count of the acknowledgement that answers the chunk before. *)
Fixpoint follows (offset : Z) (offsets : list Z) (inbox : list (Result Frame)) : Prop :=
  match offsets with
  | [] => True
  | o :: offsets =>
      o = offset
      ∧ match offsets with
        | [] => True
        | _ => ∃ frame rest ack, inbox = Ok frame :: rest ∧ ftype (header frame) = FrameType.ChunkAck
                 ∧ decodeChunkAck (fpayload frame) = Ok ack ∧ ca_stream ack = pr_stream prepare
                 ∧ follows (ca_bytesReceived ack) offsets rest
        end
  end.

(** From [offset], with [sent] sent and [inbox] to come: what was sent since are
    pieces, in the order the target asked for them; and when the stream is
    complete the target's count has reached [limit]. *)
Definition streamed (limit : Z) (sent : list Message) (inbox : list (Result Frame)) (offset : Z)
    (complete : bool) (w : World) : Prop :=
  ∃ ms offsets, w_sent w = sent ++ ms ∧ Forall2 carries ms offsets ∧ follows offset offsets inbox
    ∧ (complete = true → ∃ final, limit <= final ∧ follows offset (offsets ++ [final]) inbox).

Definition at_hand (sent : list Message) (inbox : list (Result Frame)) (w : World) : Prop :=
  w_sent w = sent ∧ w_inbox w = inbox.

Lemma streamed_nothing limit sent inbox offset w :
  at_hand sent inbox w → streamed limit sent inbox offset false w.
Proof. intros [Hs _]. exists [], []. by rewrite app_nil_r. Qed.

Lemma streamed_one limit sent inbox offset m w :
  w_sent w = sent ++ [m] → carries m offset → streamed limit sent inbox offset false w.
Proof. intros Hs Hm. exists [m], [offset]. by repeat constructor. Qed.

Lemma streamed_more limit sent inbox offset m frame rest ack complete w :
  carries m offset → inbox = Ok frame :: rest → ftype (header frame) = FrameType.ChunkAck →
  decodeChunkAck (fpayload frame) = Ok ack → ca_stream ack = pr_stream prepare →
  streamed limit (sent ++ [m]) rest (ca_bytesReceived ack) complete w →
  streamed limit sent inbox offset complete w.
Proof.
  intros Hm Hin Hty Hd Hst (ms & offsets & Hs & Hall & Hf & Hc).
  assert (∀ l, l ≠ [] → follows (ca_bytesReceived ack) l rest → follows offset (offset :: l) inbox) as Hnext.
  { intros [|o l] Hl Hl'; [done|]. split; [done|]. by exists frame, rest, ack. }
  exists (m :: ms), (offset :: offsets). rewrite Hs, <- app_assoc. split; [done|].
  split; [by constructor|]. split.
  - destruct offsets; [done|by apply Hnext].
  - intros Ht. destruct (Hc Ht) as (final & Hl & Hf'). exists final. split; [done|].
    apply Hnext; [by destruct offsets|done].
Qed.

(** *** Recording leaves the connection alone *)

Section recording.
Context (sent : list Message) (inbox : list (Result Frame)).
Abbreviation still m := (keeps (at_hand sent inbox) m (λ _, True)).

Lemma still_state : still (locked_state env).
Proof. by intros w Hw. Qed.
Lemma still_now : still (m_now env).
Proof. by intros w Hw. Qed.
Lemma still_commit type record : still (m_commit env type record).
Proof.
  unfold m_commit. apply (kept_bind _ _ _ (λ _, True)); [by apply kept_lift|]. intros payload _.
  apply (kept_bind _ _ _ (λ _, True)); [by intros w Hw|]. intros outcome _ w Hw.
  by destruct (commit _ _ _ _ _) as [[fs st] r].
Qed.
Lemma still_transition d to kind c detail b : still (recordTransition env d to kind c detail b).
Proof.
  unfold recordTransition. apply (kept_bind _ _ _ (λ _, True)); [by apply kept_lift|]. intros u _.
  eapply kept_bind; [apply still_state|]. intros s _. eapply kept_bind; [apply still_now|]. intros now _.
  eapply kept_bind; [apply still_commit|]. intros _ _. by apply kept_ret.
Qed.
Lemma still_note d kind detail :
  keeps (at_hand sent inbox) (noteEvent env d kind detail) (λ d', dr_sizeBytes d' = dr_sizeBytes d).
Proof.
  unfold noteEvent. eapply kept_bind; [apply still_state|]. intros s _.
  eapply kept_bind; [apply still_now|]. intros now _. eapply kept_bind; [apply still_now|]. intros up _.
  eapply kept_bind; [apply still_commit|]. intros _ _. by apply kept_ret.
Qed.
Lemma still_failure d c detail : still (recordFailure env d c detail).
Proof.
  unfold recordFailure. destruct (checkedAdd 32 _ _); [|by apply kept_lift].
  destruct (checkedAdd 64 _ _); [|by apply kept_lift].
  destruct (bool_decide _); [eapply kept_true, still_note|apply still_transition].
Qed.
Lemma still_failed d c detail : still (fail_from_target env d c detail).
Proof.
  unfold fail_from_target. eapply kept_bind; [apply still_failure|intros; by apply kept_ret].
Qed.
Lemma still_nack d payload : still (onNack env d payload).
Proof.
  unfold onNack. apply (kept_bind _ _ _ (λ _, True)); [by apply kept_lift|]. intros nack _.
  eapply kept_bind; [apply still_failure|intros; by apply kept_ret].
Qed.
Lemma still_hoare {A} (m : M A) (Q : A → World → Prop) F :
  still m → (∀ w, at_hand sent inbox w → F w) → (∀ a w, at_hand sent inbox w → Q a w) →
  hoare (at_hand sent inbox) m Q F.
Proof.
  intros Hm HF HQ. eapply ends_post; [by apply ends_keeps|]. intros a w [_ Hw]. by apply HQ.
Qed.
End recording.

(** *** One chunk and its answer *)

Definition no_faults_left : TransferFaults := mkTransferFaults false false false.

Lemma sendChunk_one limit sent inbox offset :
  hoare (at_hand sent inbox) (sendChunk opts env prepare no_faults_left offset (piece offset))
    (λ faults w, faults = no_faults_left
       ∧ ∃ m, carries m offset ∧ at_hand (sent ++ [m]) inbox w)
    (streamed limit sent inbox offset false).
Proof.
  intros w Hw. unfold sendChunk. cbn [t_corrupt t_duplicate t_reorder no_faults_left andb orb].
  unfold s_bind at 1, s_lift. pose proof (streamed_nothing limit sent inbox offset w Hw) as Hn.
  destruct (encodeChunk _) as [payload|e|why] eqn:He; [|done..].
  unfold m_send, send_framed, s_bind, s_lift, call. destruct (encodeFrame _ _ _ _) as [bytes|e|why]; [|done..].
  destruct (env_send_fails env (w_calls w)); [done|]. destruct Hw as [Hs Hi]. cbn.
  split; [done|]. exists (mkMessage FrameType.Chunk 0 payload). split; [by exists payload|].
  split; cbn; [by rewrite Hs|done].
Qed.

Lemma chunkAnswer_from limit sent inbox offset m record :
  carries m offset →
  hoare (at_hand (sent ++ [m]) inbox) (chunkAnswer env prepare record)
    (λ r w, match r with
            | None => streamed limit sent inbox offset false w
            | Some advanced =>
                ∃ frame rest ack, inbox = Ok frame :: rest ∧ ftype (header frame) = FrameType.ChunkAck
                  ∧ decodeChunkAck (fpayload frame) = Ok ack ∧ ca_stream ack = pr_stream prepare
                  ∧ advanced = ca_bytesReceived ack ∧ at_hand (sent ++ [m]) rest w
            end)
    (streamed limit sent inbox offset false).
Proof.
  intros Hm. assert (∀ rest w, at_hand (sent ++ [m]) rest w → streamed limit sent inbox offset false w) as HF.
  { intros rest w [Hs _]. by apply (streamed_one _ _ _ _ m). }
  unfold chunkAnswer.
  apply (ends_bind _ _ _ (λ frame w, ∃ rest, inbox = Ok frame :: rest ∧ at_hand (sent ++ [m]) rest w)).
  { intros w Hw. pose proof (HF _ _ Hw) as Hw'. unfold m_receive. destruct Hw as [Hs Hi]. rewrite Hi.
    destruct inbox as [|[frame|e|why] rest]; [done| |by apply (HF rest)..]. by exists rest. }
  intros frame w (rest & Hin & Hw). revert w Hw.
  destruct (frame_is FrameType.DeliveryNack frame).
  { apply (ends_bind _ _ _ (λ _, at_hand (sent ++ [m]) rest)).
    - apply still_hoare; [apply still_nack|apply HF|done].
    - intros u. apply ends_ret, HF. }
  destruct (frame_is FrameType.ChunkAck frame) eqn:Ety; cbn [negb]; [|by apply ends_fails; [|apply HF]].
  apply bool_decide_eq_true in Ety.
  eapply ends_bind; [by apply ends_lift, HF|]. intros ack w [Hd Hw]. revert w Hw.
  case_bool_decide as Hst; cbn [negb]; [|by apply ends_fails; [|apply HF]].
  destruct (_ || _).
  - apply ends_ret. intros w Hw. by exists frame, rest, ack.
  - apply (ends_bind _ _ _ (λ _, at_hand (sent ++ [m]) rest)).
    + apply still_hoare; [apply still_failed|apply HF|done].
    + intros u. apply ends_ret, HF.
Qed.

Lemma transfer_loop_streams spent fuel record limit reader offset sent inbox :
  (∀ sent inbox offset, hoare (at_hand sent inbox) spent
     (streamed limit sent inbox offset) (streamed limit sent inbox offset false)) →
  rd_file reader = content → rd_size reader = size →
  hoare (at_hand sent inbox)
    (transfer_loop opts env spent fuel prepare record limit reader no_faults_left offset)
    (streamed limit sent inbox offset) (streamed limit sent inbox offset false).
Proof.
  intros Hspent. revert reader offset sent inbox.
  induction fuel as [|fuel IH]; intros reader offset sent inbox Hf Hz; [apply Hspent|].
  pose proof (streamed_nothing limit sent inbox offset) as HF.
  cbn [transfer_loop]. destruct (Z.ltb_spec offset limit) as [Hlt|Hge]; cbn [negb].
  2:{ apply ends_ret. intros w [Hs _]. exists [], []. rewrite app_nil_r. split; [done|].
      split; [done|]. split; [done|]. intros _. by exists offset. }
  apply (ends_bind _ _ _ (λ _, at_hand sent inbox)); [by intros w Hw|].
  intros []; [by apply ends_fails|].
  apply (ends_bind _ _ _ (λ _, at_hand sent inbox)); [by intros w Hw|]. intros fault.
  assert (∀ c detail, hoare (at_hand sent inbox) (do& recordFailure env record c detail in s_ret false)
    (streamed limit sent inbox offset) (streamed limit sent inbox offset false)) as Hfail.
  { intros c detail. apply (ends_bind _ _ _ (λ _, at_hand sent inbox)).
    { by apply still_hoare; [apply still_failure|apply HF|]. }
    intros d. apply ends_ret. apply HF. }
  destruct (readAt _ _ _ _) as [reader' [data|e|why]] eqn:Hread; [|apply Hfail|by apply ends_fails].
  apply readAt_slice in Hread as (Hdata & Hf' & Hz'). rewrite Hf, Hz in Hdata. fold (piece offset) in Hdata.
  destruct data as [|b data]; [apply Hfail|]. rewrite Hdata.
  eapply ends_bind; [apply (sendChunk_one limit)|]. intros faults w (-> & m & Hm & Hw). revert w Hw.
  assert (∀ rest w, at_hand (sent ++ [m]) rest w → streamed limit sent inbox offset false w) as HF1.
  { intros rest w [Hs _]. by apply (streamed_one _ _ _ _ m). }
  apply (ends_bind _ _ _ (λ _, at_hand (sent ++ [m]) inbox)); [by intros w Hw|]. intros count.
  destruct (_ && _).
  { apply (ends_bind _ _ _ (λ _, at_hand (sent ++ [m]) inbox)); [by intros w Hw|]. intros u.
    apply ends_fails; [done|apply HF1]. }
  eapply ends_bind; [by apply (chunkAnswer_from limit)|]. intros [advanced|].
  2:{ apply ends_ret. done. }
  intros w (frame & rest & ack & Hin & Hty & Hd & Hst & -> & Hw). revert w Hw.
  destruct (_ =? _).
  { apply (ends_bind _ _ _ (λ _, at_hand (sent ++ [m]) rest)).
    { apply still_hoare; [apply still_failed|apply HF1|done]. }
    intros u. apply ends_ret. apply HF1. }
  intros w Hw. specialize (IH reader' (ca_bytesReceived ack) (sent ++ [m]) rest).
  specialize (IH ltac:(congruence) ltac:(congruence) w Hw).
  destruct (transfer_loop _ _ _ _ _ _ _ _ _ _ w) as [w' [complete|e|why]];
    by apply (streamed_more limit sent inbox offset m frame rest ack).
Qed.
End sends.

Lemma stream_hoare opts env prepare record from sent inbox s (ends : bool → World → Prop) :
  o_faults opts = [] →
  (∀ w, at_hand sent inbox w → ends false w) →
  (∀ reader complete w,
     reader_open (ao_root (sr_options (sh_artifacts s))) false (dr_digest record) (sh_artifacts s) (sh_fs s)
     = Ok reader →
     streamed prepare (rd_file reader) (rd_size reader) (dr_sizeBytes record) sent inbox from complete w →
     ends complete w) →
  hoare (λ w, at_hand sent inbox w ∧ env_others env (w_calls w) (w_shared w) = s)
    (streamArtifact opts env prepare record from)
    (λ r w, ends (match r with Some _ => true | None => false end) w) (ends false).
Proof.
  intros Hfaults Hn Hst. unfold streamArtifact. rewrite Hfaults.
  apply (ends_bind _ _ _ (λ _ w, at_hand sent inbox w ∧ w_shared w = s)).
  { intros w [Hw Hs]. cbn. by rewrite Hs. }
  intros u. apply (ends_bind _ _ _ (λ _ w, at_hand sent inbox w ∧ w_shared w = s)); [by intros w Hw|].
  intros fails. eapply ends_bind; [apply ends_get|]. intros s' w (-> & Hw & ->). revert w Hw.
  destruct (reader_open _ fails _ _ _) as [reader|e|why] eqn:Hr.
  - assert (reader_open (ao_root (sr_options (sh_artifacts s))) false (dr_digest record) (sh_artifacts s)
              (sh_fs s) = Ok reader) as Hr'.
    { unfold reader_open in *. destruct (metadata _ _); [|done..]. cbn [try_bind] in *.
      destruct (sh_fs s !! _); [|done]. by destruct fails. }
    apply (ends_bind _ _ _ (λ d w, dr_sizeBytes d = dr_sizeBytes record ∧ at_hand sent inbox w)).
    { destruct (_ =? _); [by apply ends_ret|]. apply ends_keeps; [apply still_note|apply Hn]. }
    intros d w [Hsize Hw]. cbn [armed existsb]. rewrite Hsize. revert w Hw.
    apply (ends_bind _ _ _ (λ _, at_hand sent inbox)); [by intros w Hw|]. intros frames.
    eapply ends_bind.
    { eapply ends_weaken.
      - apply (transfer_loop_streams opts env prepare (rd_file reader) (rd_size reader)); [|done..].
        intros. apply ends_fails; [done|]. apply streamed_nothing.
      - intros complete w. exact (Hst reader complete w Hr').
      - intros w. exact (Hst reader false w Hr'). }
    intros complete. apply ends_ret. by destruct complete.
  - apply (ends_bind _ _ _ (λ _, at_hand sent inbox)).
    { apply still_hoare; [apply still_failure|apply Hn|done]. }
    intros d. apply ends_ret. apply Hn.
  - by apply ends_fails.
Qed.

(** C17: A transfer sends the artifact, in the order the target asks. When no fault
    is armed, whatever the peer answers and the disk does: either nothing is
    sent and the transfer is not complete, or the store has the artifact under
    the digest of the delivery, and everything sent is a chunk of its payload -
    the bytes at the offset it names, as many as the agreed chunk size and the
    end of the artifact allow; the first at the offset the target resumes from,
    each next at the count of the acknowledgement before. A transfer is complete
    only when that count has reached the size of the delivery. *)
Theorem transfer_sends_artifact opts env prepare record from w (Hfaults : o_faults opts = []) :
  let s := env_others env (w_calls w) (w_shared w) in
  let '(w', r) := streamArtifact opts env prepare record from w in
  let complete := match r with Ok (Some _) => true | _ => false end in
  (w_sent w' = w_sent w ∧ complete = false)
  ∨ ∃ m content, metadata (dr_digest record) (sh_artifacts s) = Ok m
      ∧ sh_fs s !! payloadPath (ao_root (sr_options (sh_artifacts s))) (dr_digest record) = Some content
      ∧ streamed prepare content (md_sizeBytes m) (dr_sizeBytes record) (w_sent w) (w_inbox w) from
          complete w'.
Proof.
  intros s.
  set (ends complete w' := (w_sent w' = w_sent w ∧ complete = false)
    ∨ ∃ m content, metadata (dr_digest record) (sh_artifacts s) = Ok m
      ∧ sh_fs s !! payloadPath (ao_root (sr_options (sh_artifacts s))) (dr_digest record) = Some content
      ∧ streamed prepare content (md_sizeBytes m) (dr_sizeBytes record) (w_sent w) (w_inbox w) from
          complete w').
  pose proof (stream_hoare opts env prepare record from (w_sent w) (w_inbox w) s ends Hfaults) as H.
  specialize (H ltac:(by intros w' [Hs _]; left)).
  assert (hoare (λ w', at_hand (w_sent w) (w_inbox w) w' ∧ env_others env (w_calls w') (w_shared w') = s)
    (streamArtifact opts env prepare record from)
    (λ r w', ends (match r with Some _ => true | None => false end) w') (ends false)) as Hh.
  { apply H. intros reader complete w' Hr Hst. right. unfold reader_open in Hr.
    destruct (metadata _ _) as [m| |]; [|done..]. cbn [try_bind] in Hr.
    destruct (sh_fs s !! _) as [content|]; [|done]. injection Hr as <-. by exists m, content. }
  specialize (Hh w (conj (conj eq_refl eq_refl) eq_refl)).
  by destruct (streamArtifact _ _ _ _ _ w) as [w' [[d|]|e|why]].
Qed.

(** *** The example meets the conditions *)

Definition example_record : DeliveryRecord :=
  match cs_deliveries (shared_state (w_shared (submitted ApplyGuarantee.AtomicActivate))) with
  | (_, d) :: _ => d
  | [] => DeliveryRecord_default
  end.
Definition example_prepare : PrepareMessage :=
  prepare_message example_options
    (mkSessionContext (mkString "t1") (mkEndpoint "" 0) num_unset opaque_unset 65536 None)
    example_record (fromValue 1).
(** The chunk acknowledgement is the fourth frame of the agent. *)
Definition example_world : World :=
  set_inbox (drop 3 transcript_atomic) (submitted ApplyGuarantee.AtomicActivate).

Lemma transfer_sends_artifact_witness :
  let env := calm_env [] in
  let s := w_shared example_world in
  ∃ m content, metadata (dr_digest example_record) (sh_artifacts s) = Ok m
    ∧ sh_fs s !! payloadPath (ao_root (sr_options (sh_artifacts s))) (dr_digest example_record)
      = Some content
    ∧ streamed example_prepare content (md_sizeBytes m) (dr_sizeBytes example_record)
        (w_sent example_world) (w_inbox example_world) 0 true
        (streamArtifact example_options env example_prepare example_record 0 example_world).1.
Proof.
  intros env s.
  pose proof (transfer_sends_artifact example_options env example_prepare example_record 0 example_world
    eq_refl) as H.
  assert (match (streamArtifact example_options env example_prepare example_record 0 example_world).2 with
          | Ok (Some _) => true | _ => false end = true) as Hc by (vm_compute; reflexivity).
  revert H Hc. destruct (streamArtifact _ _ _ _ _ _) as [w' r]. cbn [fst snd].
  intros [[_ Hno]|H] Hc; rewrite Hc in *; [done|exact H].
Defined.

Lemma session_loops_end_witness :
  let w := example_world in
  ack_loop example_options (calm_env []) exhausted 9
    (mkSessionContext (mkString "t1") (mkEndpoint "" 0) num_unset opaque_unset 65536 None) example_record w
  = ack_loop example_options (calm_env []) (s_ret tt) 6
    (mkSessionContext (mkString "t1") (mkEndpoint "" 0) num_unset opaque_unset 65536 None) example_record w.
Proof.
  refine (proj1 (session_loops_end example_options (calm_env []) exhausted (s_ret tt) exhausted exhausted
    9 6 _ example_record example_prepare 0 (mkReader [] Sha256.init 0 0 digest_unset false)
    no_faults_left 0 example_world _ _)); apply Nat.ltb_lt; vm_compute; reflexivity.
Defined.
