(* ===== verification/DistributorSpec.v ===== *)
(** * What the distributor guarantees

    The properties of the distributor: what its claims rest on, whatever its
    threads do; which target a worker may dial; whom it greets; what it streams;
    that its loops end; and a delivery from the plan to the acknowledgement, run
    against the agent. *)

From stdpp Require Import gmap sorting.
From Stdlib Require Import Strings.Byte.
From S2P Require Import Plan.
From S2P Require Import Prelude Result StdMap Checked Hash Ids Text Codec Lifecycle Policy Files.
From S2P Require Import Journal Snapshot Artifact ArtifactStore Endpoint FaultPlan Frame Records.
From S2P Require Import Messages Protocol Reconciliation State Convergence Store Effects Distributor.
From S2P Require Import DistributorControl DistributorExample DistributorLogic DistributorWorkers.
From S2P Require Import DistributorHandshake Control ControlLogic.

(** ** Threads *)

(** The operations the threads of the process run. *)
Inductive Operation :=
  | Work (passes : nat)
  | Submit (plan : DeploymentPlan)
  | Ingest (path : string) (declared : ArtifactMetadata)
  | Retire (deployment : DeploymentId) (why : string)
  | Verify (target : TargetId)
  | Control (port : Z) (accepts : list (Result (list (Result Frame)))).

Definition perform (opts : DistributorOptions) (env : Env) (op : Operation) (w : World) : World :=
  match op with
  | Work passes => (workerLoop opts env passes w).1
  | Submit plan => (submitPlan opts env plan w).1
  | Ingest path declared => (ingestArtifact env path declared w).1
  | Retire deployment why => (retireDeployment env deployment why w).1
  | Verify target => (requestVerification env target w).1
  | Control port accepts => (controlLoop opts env port accepts w).1
  end.

Definition set_others (f : nat → Shared → Shared) (env : Env) : Env :=
  mkEnv f (env_append env) (env_dial env) (env_send_fails env) (env_stop env) (env_random env)
    (env_now env) (env_ingest env) (env_verify env) (env_reader_fails env) (env_read env)
    (env_compact env).
(** At every lock other threads have run operations of their own, among which
    the operations of [env] are interleaved in turn. *)
Definition interleaved (opts : DistributorOptions) (env : Env) (ops : nat → list Operation) : Env :=
  set_others (λ n s, w_shared (foldl (λ w op, perform opts env op w) (world_of s) (ops n))) env.

(** The plans submitted are parsed ones, and no two subjects share an
    identity. (A plan that comes over a control connection is a [Submit].) *)
Definition admissible (subject : DeploymentId → Subject) (op : Operation) : Prop :=
  match op with
  | Submit plan => plan_wf plan ∧ plan_subjects subject plan
  | Control port accepts => ∀ inbox, Ok inbox ∈ accepts → no_plan inbox
  | _ => True
  end.

Lemma perform_ok opts env subject known `{!Reliable opts env subject known} op w :
  admissible subject op → ok opts env subject known w → ok opts env subject known (perform opts env op w).
Proof.
  intros Ha Hw. destruct op as [passes|plan|path declared|deployment why|target|port accepts];
    cbn [perform].
  - by apply (workerLoop_ok opts env subject known passes).
  - destruct Ha as [Hp Hs]. by apply (submitPlan_ok opts env subject known plan).
  - by apply (ingestArtifact_ok opts env subject known).
  - by apply (retireDeployment_ok opts env subject known).
  - by apply (requestVerification_ok opts env subject known).
  - by apply (controlLoop_ok opts env port subject known).
Qed.

(** The invariant depends on the environment for the connections only. *)
Lemma shared_ok_dial opts env env' subject known s :
  env_dial env' = env_dial env → shared_ok opts env subject known s → shared_ok opts env' subject known s.
Proof.
  intros Hd [Hwf Hg]. split; [done|]. eapply List.Forall_impl; [|exact Hg]. intros d [Hw Hs [Ha Hk]].
  split; [done..|]. unfold claims, proven, evidence in *. rewrite Hd. by split.
Qed.

Lemma interleaved_reliable opts env subject known `{!Reliable opts env subject known} ops :
  (∀ n, Forall (admissible subject) (ops n)) → Reliable opts (interleaved opts env ops) subject known.
Proof.
  intros Hops. split; [apply (typed opts env subject known)|]. intros n s Hs.
  apply (shared_ok_dial opts env); [done|]. apply (shared_ok_dial _ _ env) in Hs; [|done].
  unfold interleaved. cbn [set_others env_others].
  specialize (Hops n). assert (ok opts env subject known (world_of s)) as Hw by exact Hs. revert Hw.
  generalize (world_of s). induction (ops n) as [|op l IH]; intros w Hw; [done|].
  apply Forall_cons_iff in Hops as [Hop Hl]. cbn [foldl]. apply IH; [done|]. by apply perform_ok.
Qed.

(** C5: The distributor's claims rest on evidence, under interference. [known] are
    the claims taken over from the durable state. As long as the other threads
    keep the invariant - the state well formed, every delivery about the subject
    of its identity, every delivery that is [Applied] or [Acknowledged] a known
    claim or one evidenced by the frames of a connection to a target that
    greeted under the shared key - every operation of this thread keeps it, a
    worker's passes, a submission, a retirement and a whole control connection
    alike; and threads that run these operations, interleaved at their locks,
    are threads that keep it. *)
Theorem claims_kept_under_interference opts env subject known op ops w
    (Hrely : Reliable opts env subject known) (Hop : admissible subject op)
    (Hops : ∀ n, Forall (admissible subject) (ops n))
    (Hw : shared_ok opts env subject known (w_shared w)) :
  shared_ok opts env subject known (w_shared (perform opts env op w))
  ∧ Reliable opts (interleaved opts env ops) subject known
  ∧ shared_ok opts env subject known (w_shared (perform opts (interleaved opts env ops) op w)).
Proof.
  pose proof (interleaved_reliable opts env subject known ops Hops) as Hi.
  split; [by apply perform_ok|]. split; [done|].
  apply (shared_ok_dial opts (interleaved opts env ops)); [done|].
  apply (perform_ok opts (interleaved opts env ops) subject known); [done|].
  by apply (shared_ok_dial opts env).
Qed.

(** ** Workers that run alone *)

(** Nobody else changes the durable state. *)
Definition quiet (env : Env) : Prop := ∀ n s, shared_state (env_others env n s) = shared_state s.

Definition subject_in (s : ControllerState) (id : DeploymentId) : Subject :=
  match findDelivery id s with
  | Some d => subject_of d
  | None => mkSubject id_empty num_unset digest_unset
  end.
Definition claim_state (acked : bool) : DeliveryState :=
  if acked then DeliveryState.Acknowledged else DeliveryState.Applied.
Definition claimed_in (s : ControllerState) (acked : bool) (id : DeploymentId) : Prop :=
  ∃ d, findDelivery id s = Some d ∧ dr_state d = claim_state acked.

Lemma initial_ok opts env s :
  controller_wf s → state_ok opts env (subject_in s) (claimed_in s) s.
Proof.
  intros Hwf. split; [done|]. destruct (cwf_deliveries s Hwf) as [Hsorted Hall].
  apply Forall_map, List.Forall_forall. intros [id d] Hin.
  rewrite List.Forall_forall in Hall. destruct (Hall _ Hin) as [Hid Hd]. cbn [fst snd] in *.
  assert (findDelivery (dr_id d) s = Some d) as Hf.
  { apply map_find_elem; [done|]. rewrite <- Hid. by apply list_elem_of_In. }
  split; [done|by unfold subject_in; rewrite Hf|].
  split; intros Hst; left; by exists d.
Qed.

Lemma quiet_reliable opts env s :
  env_typed env → quiet env → Reliable opts env (subject_in s) (claimed_in s).
Proof. intros Ht Hq. split; [done|]. intros n s0. unfold shared_ok. by rewrite Hq. Qed.

(** C3: Workers only believe what a target proved. From any well-formed state,
    whatever the peers send, the operating system answers and the passes are:
    the state stays well formed; every delivery was there before, about the same
    target, generation and digest; and one that is [Acknowledged] (or
    [Applied]) was so before, or a connection dialled meanwhile carried the
    greeting of its target - sealed with the shared key when peers authenticate
    - and a frame that proves this activation: an acknowledgement of exactly
    this content under the authority greeted, the answer that the content is
    already active, a reconcile report that shows it (or, for [Applied] only,
    the outcome of the commit). *)
Theorem acknowledged_on_evidence opts env passes w (Htyped : env_typed env) (Hquiet : quiet env)
    (Hwf : controller_wf (shared_state (w_shared w))) :
  let s := shared_state (w_shared w) in
  let s' := shared_state (w_shared (workerLoop opts env passes w).1) in
  controller_wf s'
  ∧ ∀ d, d ∈ map snd (cs_deliveries s') →
      ∃ d0, findDelivery (dr_id d) s = Some d0 ∧ subject_of d0 = subject_of d
        ∧ ∀ acked, dr_state d = claim_state acked →
            dr_state d0 = claim_state acked ∨ evidence opts env acked (dr_id d) (subject_of d).
Proof.
  intros s s'. pose proof (quiet_reliable opts env s Htyped Hquiet) as Hrely.
  destruct (workerLoop_ok opts env (subject_in s) (claimed_in s) passes w) as [[Hwf' Hall] _];
    [by apply initial_ok|].
  split; [done|]. intros d Hin. destruct (Forall_elem _ _ _ Hall Hin) as [Hd Hsub [Ha Hk]].
  unfold subject_in in Hsub. destruct (findDelivery (dr_id d) s) as [d0|] eqn:Hf.
  2:{ pose proof (dwf_generation_set d Hd) as Hg. injection Hsub as _ Hz _. by rewrite Hz in Hg. }
  exists d0. split; [done|]. split; [done|]. intros acked Hst.
  assert (proven opts env (subject_in s) (claimed_in s) acked (dr_id d)) as [(d1 & Hf1 & Hst1)|Hev].
  { by destruct acked; [apply Hk|apply Ha]. }
  - left. rewrite Hf in Hf1. by injection Hf1 as ->.
  - right. unfold subject_in in Hev. rewrite Hf in Hev. by rewrite <- Hsub in Hev.
Qed.

(** *** The example meets the conditions *)

Lemma calm_reliable inbox subject known : Reliable example_options (calm_env inbox) subject known.
Proof. split; [apply calm_typed|]. by intros n s Hs. Qed.

#[local] Opaque opened.
Lemma opened_ok inbox subject known :
  shared_ok example_options (calm_env inbox) subject known opened.
Proof.
  split; [apply opened_wf|]. unfold shared_ok. rewrite opened_state. constructor.
Qed.

Lemma example_plan_wf guarantee : plan_wf (example_plan guarantee).
Proof.
  split; try by vm_compute.
  - by left.
  - apply NoDup_singleton.
  - constructor; [|constructor]. split; try by vm_compute. all: split; try by vm_compute.
    right. eexists. by vm_compute.
Qed.
Definition example_subject (id : DeploymentId) : Subject :=
  mkSubject (mkString "t1") (fromValue 5) (Digest_ofContent AgentExample.example_content).
Lemma example_submission guarantee :
  admissible example_subject (Submit (example_plan guarantee)).
Proof. split; [apply example_plan_wf|]. by constructor. Qed.

Lemma claims_kept_under_interference_witness :
  let ops (_ : nat) := [Submit (example_plan ApplyGuarantee.AtomicActivate); Work 1] in
  shared_ok example_options (calm_env []) example_subject (λ _ _, False)
    (w_shared (perform example_options (interleaved example_options (calm_env []) ops) (Work 2)
                 (world_of opened))).
Proof.
  intros ops.
  refine (proj2 (proj2 (claims_kept_under_interference example_options (calm_env []) example_subject
    (λ _ _, False) (Work 2) ops (world_of opened) _ _ _ _))).
  - apply calm_reliable.
  - exact I.
  - intros n. constructor; [apply example_submission|by repeat constructor].
  - apply opened_ok.
Defined.

Lemma submitted_wf guarantee : controller_wf (shared_state (w_shared (submitted guarantee))).
Proof.
  pose proof (calm_reliable [] example_subject (λ _ _, False)) as Hr.
  destruct (example_submission guarantee) as [Hp Hs].
  destruct (submitPlan_ok example_options (calm_env []) example_subject (λ _ _, False)
    (example_plan guarantee) Hp Hs (world_of opened) (opened_ok _ _ _)) as [[H _] _].
  unfold submitted. exact H.
Qed.

(** ** From the plan to the acknowledgement *)

(** The two programs speak the same protocol. A distributor opened on an empty
    directory is given a plan of one delivery, and one pass of a worker runs its
    session on a transcript; the agent, run on the very frames the session sent,
    answers exactly the transcript. In that conversation, with an agent that
    activates atomically as with one that needs the prepare window the plan
    declares, the delivery ends acknowledged without a failure, and the
    generation the distributor believes committed is the one the agent has
    committed. *)
Example plan_reaches_acknowledgement :
  let done := ([(DeliveryState.Acknowledged, 0)], [fromValue 5], fromValue 5) in
  exchange ApplyGuarantee.AtomicActivate ApplyGuarantee.AtomicActivate transcript_atomic
  = (transcript_atomic, done)
  ∧ exchange ApplyGuarantee.PrepareCommitAbort ApplyGuarantee.PrepareCommitAbort transcript_window
    = (transcript_window, done).
Proof. split; vm_compute; reflexivity. Qed.

(** The guarantee of a delivery is the one the plan declares; what the target
    reports never replaces it. A plan that declares an atomic target, and allows
    a prepare window, is never activated by a target that needs the window. *)
Example declared_guarantee_decides :
  exchange ApplyGuarantee.AtomicActivate ApplyGuarantee.PrepareCommitAbort transcript_refused
  = (transcript_refused, ([(DeliveryState.Failed, 1)], [num_unset], num_unset)).
Proof. vm_compute. reflexivity. Qed.

(** The state before and after one worker passes once over the delivery. *)
Definition example_before : ControllerState :=
  shared_state (w_shared (submitted ApplyGuarantee.AtomicActivate)).
Definition example_after : ControllerState :=
  shared_state (w_shared (workerLoop example_options (calm_env transcript_atomic) 1
    (submitted ApplyGuarantee.AtomicActivate)).1).
Definition states (s : ControllerState) : list DeliveryState := map (λ e, dr_state e.2) (cs_deliveries s).

Lemma example_states :
  states example_before = [DeliveryState.Prepared] ∧ states example_after = [DeliveryState.Acknowledged].
Proof. vm_compute. by split. Qed.

Lemma sole_delivery s s' (proof : bool → DeliveryRecord → Prop) :
  controller_wf s → states s = [DeliveryState.Prepared] → states s' = [DeliveryState.Acknowledged] →
  (controller_wf s'
   ∧ ∀ d, d ∈ map snd (cs_deliveries s') →
       ∃ d0, findDelivery (dr_id d) s = Some d0 ∧ subject_of d0 = subject_of d
         ∧ ∀ acked, dr_state d = claim_state acked → dr_state d0 = claim_state acked ∨ proof acked d) →
  ∃ d, d ∈ map snd (cs_deliveries s') ∧ dr_state d = DeliveryState.Acknowledged ∧ proof true d.
Proof.
  unfold states. intros Hwf H0 H1 [_ H].
  destruct (cs_deliveries s') as [|[id d] [|]]; [done| |done]. injection H1 as Hst.
  exists d. split; [by left|]. split; [done|].
  destruct (H d) as (d0 & Hf & _ & Hev); [by left|]. destruct (Hev true Hst) as [Hst0|]; [|done].
  apply map_find_elem in Hf; [|apply Hwf]. destruct (cs_deliveries s) as [|[id0 e] [|]]; [done| |done].
  apply list_elem_of_singleton in Hf. injection Hf as <- <-. injection H0 as H0. by rewrite Hst0 in H0.
Qed.

Lemma acknowledged_on_evidence_witness :
  ∃ d, d ∈ map snd (cs_deliveries example_after) ∧ dr_state d = DeliveryState.Acknowledged
    ∧ evidence example_options (calm_env transcript_atomic) true (dr_id d) (subject_of d).
Proof.
  exact (sole_delivery example_before example_after
    (λ acked d, evidence example_options (calm_env transcript_atomic) acked (dr_id d) (subject_of d))
    (submitted_wf _) (proj1 example_states) (proj2 example_states)
    (acknowledged_on_evidence example_options (calm_env transcript_atomic) 1
       (submitted ApplyGuarantee.AtomicActivate) (calm_typed _) (λ _ _, eq_refl) (submitted_wf _))).
Defined.

(** ** A lost retirement *)

(** A commit of a delivery record in the region that is open. *)
Definition committed_delivery (env : Env) (n : nat) (payload : list byte) (s : Shared)
    : Shared * Status :=
  let '(fs, st, r) :=
    commit (env_append env n) (sh_store s) JournalRecordType.DeliveryUpsert payload (sh_fs s) in
  (set_store st (set_fs fs s), r).

Lemma committed_delivery_Ok env n d payload s u :
  delivery_wf d → encodeDeliveryRecord d = Ok payload → (committed_delivery env n payload s).2 = Ok u →
  shared_state (committed_delivery env n payload s).1
  = cs_set_deliveries (map_assign (dr_id d) d (cs_deliveries (shared_state s))) (shared_state s).
Proof.
  intros Hwf He. unfold committed_delivery.
  destruct (commit _ _ _ _ _) as [[fs st] r] eqn:Ec. cbn [fst snd]. intros ->.
  apply commit_Ok in Ec. unfold shared_state at 1. cbn. by rewrite Ec, (upsert_applies d).
Qed.

(** What [recordTransition] does from a legal transition: it writes the caller's
    copy, moved on, over the state it finds under the lock. *)
Lemma recordTransition_run env record target kind c detail b w :
  let found := env_others env (w_calls w) (w_shared w) in
  let record' := transitioned (shared_state found) record target kind c b
                   (env_now env (S (w_calls w))) (bounded_detail detail) in
  env_typed env → controller_wf (shared_state found) → delivery_wf record →
  isLegalTransition (dr_state record) target = true →
  delivery_wf record'
  ∧ ∃ payload, encodeDeliveryRecord record' = Ok payload
    ∧ w_shared (recordTransition env record target kind c detail b w).1
      = (committed_delivery env (S (S (w_calls w))) payload found).1
    ∧ (recordTransition env record target kind c detail b w).2
      = (let* _ := (committed_delivery env (S (S (w_calls w))) payload found).2 in Ok record').
Proof.
  intros found record' Htyped Hwf Hrecord Hlegal.
  assert (delivery_wf record') as Hwf'.
  { apply transitioned_wf; [done..|]. apply bounded_detail_fits. }
  split; [done|]. destruct (wire_complete (p := readDeliveryRecord) _ Hwf') as (payload & He & _).
  rewrite <- encodeDeliveryRecord_wf in He by done. exists payload. split; [done|].
  unfold recordTransition, applyTransition. rewrite Hlegal.
  unfold m_commit, m_now, s_bind, s_lift, locked_state, s_get, lock, call. cbn.
  unfold s_bind, s_get. cbn. fold found. fold record'. rewrite He.
  unfold committed_delivery. cbn. fold found.
  by destruct (commit _ _ _ _ _) as [[fs st] [u|e|why]].
Qed.

(** A copy that is not retired is recorded as retired. *)
Lemma recordRetired_Ok env d why w :
  env_typed env → quiet env → controller_wf (shared_state (w_shared w)) → delivery_wf d →
  dr_state d ≠ DeliveryState.Retired → (recordRetired env d why w).2 = Ok tt →
  ∃ d', findDelivery (dr_id d) (shared_state (w_shared (recordRetired env d why w).1)) = Some d'
    ∧ dr_state d' = DeliveryState.Retired.
Proof.
  intros Htyped Hquiet Hwf Hd Hst. unfold recordRetired. rewrite bool_decide_eq_false_2 by done.
  set (reason := bounded_detail why). unfold s_bind.
  destruct (isLegalTransition (dr_state d) DeliveryState.Retired) eqn:Hlegal.
  2:{ unfold recordTransition, s_bind, applyTransition, s_lift. by rewrite Hlegal. }
  destruct (recordTransition_run env d DeliveryState.Retired EvidenceKind.Superseded ErrorCode.Retired
    reason false w) as (Hd' & payload & _ & _ & Hr); [done| |done|done|]; [by rewrite Hquiet|].
  destruct (recordTransition _ _ _ _ _ _ _ w) as [w1 r]. cbn [snd] in Hr. subst r.
  destruct (committed_delivery _ _ _ _).2 as [u|e|reason']; [|done..]. cbn [try_bind].
  set (d' := transitioned _ _ _ _ _ _ _ _) in *.
  set (closed := dr_closing _ _ d'). assert (delivery_wf closed) as Hclosed by by apply dr_closing_wf.
  unfold upsertDelivery, m_commit, s_bind, lock, s_lift, call. cbn.
  destruct (encodeDeliveryRecord closed) as [payload'| |] eqn:He; [|done..].
  destruct (commit _ _ _ _ _) as [[fs st] r] eqn:Ec. cbn. intros ->. apply commit_Ok in Ec.
  exists closed. split; [|done]. unfold shared_state. cbn.
  rewrite Ec, (upsert_applies closed) by done. unfold findDelivery. cbn. apply map_find_assign_eq.
Qed.

(** A retirement that succeeds leaves the delivery retired. *)
Lemma retire_Ok env id why w :
  env_typed env → quiet env → controller_wf (shared_state (w_shared w)) →
  (retireDeployment env id why w).2 = Ok tt →
  ∃ d, findDelivery id (shared_state (w_shared (retireDeployment env id why w).1)) = Some d
    ∧ dr_state d = DeliveryState.Retired.
Proof.
  intros Htyped Hquiet Hwf. set (w1 := set_shared (env_others env (w_calls w) (w_shared w)) (next_call w)).
  assert (shared_state (w_shared w1) = shared_state (w_shared w)) as Hw1 by apply Hquiet.
  set (d := default DeliveryRecord_default (findDelivery id (shared_state (w_shared w1)))).
  change (retireDeployment env id why w)
    with ((if negb (id_isSet (dr_id d))
           then s_lift (fail_detail ErrorCode.NotFound "no such delivery" (str id))
           else recordRetired env d why) w1).
  revert d. rewrite Hw1. destruct (findDelivery id _) as [d|] eqn:Hf; cbn [default]; [|done].
  destruct (keyed_find _ _ _ _ _ (cwf_deliveries _ Hwf) Hf) as [-> Hd]. destruct (negb _); [done|].
  unfold id. destruct (decide (dr_state d = DeliveryState.Retired)) as [Hst|Hst].
  - unfold recordRetired. rewrite bool_decide_eq_true_2 by done. intros _. exists d.
    split; [|done]. by rewrite <- Hw1 in Hf.
  - apply recordRetired_Ok; try done. by rewrite Hw1.
Qed.

(** C39: A session writes back the copy of the delivery it works on, whatever
    happened to the delivery since it was copied. Take any copy and any legal
    transition of it, and let an operator's retirement of the same delivery land
    at the lock the transition takes. If the retirement succeeded, the delivery
    was durably [Retired], from where no transition leads; the transition
    succeeds all the same, unless the store refuses the write, and when it
    succeeds the retirement is gone: the stored delivery is the caller's copy
    moved to its target state, and nothing else differs from what the
    retirement left. *)
Theorem transition_overwrites opts env why record target kind c detail b w
    (Htyped : env_typed env) (Hquiet : quiet env)
    (Hwf : controller_wf (shared_state (w_shared w))) (Hrecord : delivery_wf record)
    (Hlegal : isLegalTransition (dr_state record) target = true) :
  let id := dr_id record in
  let retired := retireDeployment env id why (world_of (w_shared w)) in
  let found := w_shared retired.1 in
  let ends := recordTransition (interleaved opts env (λ _, [Retire id why])) record target kind c
                detail b w in
  let written := transitioned (shared_state found) record target kind c b
                   (env_now env (S (w_calls w))) (bounded_detail detail) in
  (retired.2 = Ok tt →
     ∃ d, findDelivery id (shared_state found) = Some d ∧ dr_state d = DeliveryState.Retired
       ∧ ∀ to, isLegalTransition (dr_state d) to = false)
  ∧ (∃ payload, encodeDeliveryRecord written = Ok payload
       ∧ (is_ok ends.2 = false ↔
            is_ok (committed_delivery env (S (S (w_calls w))) payload found).2 = false))
  ∧ ∀ record', ends.2 = Ok record' →
      record' = written ∧ dr_state record' = target
      ∧ findDelivery id (shared_state (w_shared ends.1)) = Some record'
      ∧ shared_state (w_shared ends.1)
        = cs_set_deliveries (map_assign id record' (cs_deliveries (shared_state found))) (shared_state found).
Proof.
  intros id retired found ends written.
  pose proof (quiet_reliable opts env (shared_state (w_shared w)) Htyped Hquiet) as Hr.
  assert (controller_wf (shared_state found)) as Hfound.
  { apply (retireDeployment_ok opts env _ _ id why (world_of (w_shared w))). by apply initial_ok. }
  destruct (recordTransition_run (interleaved opts env (λ _, [Retire id why])) record target kind c
    detail b w) as (Hd & payload & He & Hs & Hres); [done..|].
  assert (w_shared ends.1 = (committed_delivery env (S (S (w_calls w))) payload found).1)
    as Hstored by exact Hs.
  assert (ends.2 = (let* _ := (committed_delivery env (S (S (w_calls w))) payload found).2 in Ok written))
    as Hret by exact Hres.
  assert (delivery_wf written ∧ encodeDeliveryRecord written = Ok payload) as [Hwritten Hpayload] by done.
  split; [|split].
  - intros Hok.
    destruct (retire_Ok env id why (world_of (w_shared w)) Htyped Hquiet Hwf Hok) as (d & Hf & Hst).
    exists d. split; [done|]. split; [done|]. rewrite Hst. by intros [].
  - exists payload. split; [done|]. rewrite Hret. by destruct (committed_delivery _ _ _ _).2.
  - intros record' Hok. rewrite Hret in Hok.
    destruct (committed_delivery _ _ _ _).2 as [u|e|why'] eqn:Hc; [|done..]. injection Hok as <-.
    split; [done|]. split; [done|]. rewrite Hstored.
    rewrite (committed_delivery_Ok env _ written payload found u) by done. cbn.
    split; [apply map_find_assign_eq|done].
Qed.

Lemma is_ok_value {A} (r : Result A) : is_ok r = true → ∃ a, r = Ok a.
Proof. destruct r as [a|e|why]; [by exists a|done..]. Qed.

Definition submitted_delivery : DeliveryRecord :=
  default DeliveryRecord_default (head (map snd (cs_deliveries example_before))).
Lemma submitted_delivery_wf : delivery_wf submitted_delivery.
Proof.
  pose proof (cwf_deliveries _ (submitted_wf ApplyGuarantee.AtomicActivate)) as [_ Hall].
  unfold submitted_delivery, example_before. pose proof (proj1 example_states) as Hst.
  unfold states, example_before in Hst. destruct (cs_deliveries _) as [|[id d] l]; [done|].
  by apply Forall_cons_iff in Hall as [[_ Hd] _].
Qed.

(** The operator retires the delivery just before the offer is recorded. *)
Definition example_others : Env :=
  interleaved example_options (calm_env []) (λ _, [Retire (dr_id submitted_delivery) "operator"]).
Definition example_overwrite : World * Result DeliveryRecord :=
  recordTransition example_others submitted_delivery DeliveryState.Offered EvidenceKind.OfferedToTarget
    ErrorCode.Ok "" false (submitted ApplyGuarantee.AtomicActivate).

Lemma transition_overwrites_witness :
  let w := submitted ApplyGuarantee.AtomicActivate in
  let id := dr_id submitted_delivery in
  (∃ d, findDelivery id (shared_state (env_others example_others (w_calls w) (w_shared w))) = Some d
     ∧ dr_state d = DeliveryState.Retired)
  ∧ ∃ d, findDelivery id (shared_state (w_shared example_overwrite.1)) = Some d
     ∧ dr_state d = DeliveryState.Offered.
Proof.
  destruct (transition_overwrites example_options (calm_env []) "operator" submitted_delivery
    DeliveryState.Offered EvidenceKind.OfferedToTarget ErrorCode.Ok "" false
    (submitted ApplyGuarantee.AtomicActivate) (calm_typed _) (λ _ _, eq_refl) (submitted_wf _)
    submitted_delivery_wf ltac:(vm_compute; reflexivity)) as (Hretired & _ & Hover).
  split.
  - destruct Hretired as (d & Hf & Hst & _); [vm_compute; reflexivity|]. exists d. by split.
  - destruct (is_ok_value example_overwrite.2) as [d Hd]; [vm_compute; reflexivity|].
    destruct (Hover d Hd) as (_ & Hst & Hf & _). exists d. by split.
Defined.

(** The same in a whole session: an operator retires the delivery while the
    transfer is recorded (the states left by the retirement are noted among the
    verification requests, which a running session ignores), and the session
    goes on and acknowledges it. *)
Definition retire_all (s : Shared) : Shared :=
  let ids := map fst (cs_deliveries (shared_state s)) in
  let w := foldl (λ w id, (retireDeployment (calm_env []) id "operator" w).1) (world_of s) ids in
  set_requests (map (λ st, (deliveryStateName st, tt)) (states (shared_state (w_shared w)))) (w_shared w).
Definition retire_at (k : nat) (env : Env) : Env :=
  set_others (λ n s, if (n =? k)%nat then retire_all s else s) env.
Example retired_then_acknowledged :
  let s := w_shared (worker_pass example_options (retire_at 59 (calm_env transcript_atomic))
                       (submitted ApplyGuarantee.AtomicActivate)).1 in
  sh_requests s = [("retired", tt)] ∧ states (shared_state s) = [DeliveryState.Acknowledged].
Proof. by vm_compute. Qed.
