(* ===== verification/ControlSpec.v ===== *)
(** * What the control channel guarantees

    A command over the channel is the command executed by the controller; a
    client that cannot produce the tag learns nothing and changes nothing; and
    the reading commands change nothing. *)

From stdpp Require Import gmap.
From Stdlib Require Import Strings.Byte.
From S2P Require Import Plan.
From S2P Require Import Prelude Result StdMap Checked Hash Ids Text Codec Lifecycle Policy Files.
From S2P Require Import Journal Artifact ArtifactStore Endpoint Frame Records Messages Protocol State.
From S2P Require Import Convergence Store Effects Distributor DistributorControl Control ControlLogic.
From S2P Require Import DistributorExample.

(** ** Steps that succeed *)

Lemma bind_Ok {A B} (m : M A) (k : A → M B) w w' a :
  m w = (w', Ok a) → s_bind m k w = k a w'.
Proof. unfold s_bind. by intros ->. Qed.
Lemma bind_lift {A B} (r : Result A) (k : A → M B) w a : r = Ok a → s_bind (s_lift r) k w = k a w.
Proof. by intros ->. Qed.
Lemma try_Ok {A} (m : M A) w w' r :
  m w = (w', r) → (∀ why, r ≠ Abort why) → s_try m w = (w', Ok r).
Proof. unfold s_try. intros ->. destruct r as [a|e|why]; [done..|]. intros H. by destruct (H why). Qed.
Lemma receive_next w f inbox : w_inbox w = Ok f :: inbox → m_receive w = (set_inbox inbox w, Ok f).
Proof. unfold m_receive. by intros ->. Qed.

(** An environment whose connections deliver, and whose random identities have
    their width. *)
Class Channel (env : Env) : Prop := {
  delivers n : env_send_fails env n = None;
  random_width n : length (env_random env n) = 16%nat;
}.

(** Sending a message of the protocol. *)
Lemma send_message env `{!Channel env} m flags bs w :
  protocol_ok m → frame_sized m → fits 16 flags ∧ unknown_flags flags = false → encodeMessage m = Ok bs →
  send_framed env kDefaultMaxPayloadBytes (message_type m) flags bs w
  = (set_sent (w_sent w ++ [mkMessage (message_type m) flags bs]) (next_call w), Ok tt).
Proof.
  intros Hm Hs Hf He. pose proof (message_size m bs Hm Hs He) as Hsize.
  unfold send_framed. rewrite (bind_Ok _ _ w w (frame_bytes (sent (message_type m) flags bs))).
  2: { unfold s_lift. rewrite encodeFrame_sent; [done|]. by split; [split|]. }
  rewrite (bind_Ok _ _ w (next_call w) None); [done|]. unfold call. by rewrite delivers.
Qed.

Lemma control_send_ok env `{!Channel env} m flags bs w :
  protocol_ok m → frame_sized m → fits 16 flags ∧ unknown_flags flags = false → encodeMessage m = Ok bs →
  control_send env (message_type m) flags (encodeMessage m) w
  = (set_sent (w_sent w ++ [mkMessage (message_type m) flags bs]) (next_call w), Ok tt).
Proof.
  intros Hm Hs Hf He. unfold control_send. rewrite (bind_lift _ _ _ bs He). by apply send_message.
Qed.

(** The frames the peer delivers when these messages were sent. *)
Definition delivered (l : list Message) : list (Result Frame) := map (λ m, Ok (as_frame m)) l.

(** ** The greeting *)

(** The connection opens with a hello that carries, if the controller
    authenticates, the tag of exactly this hello under the key. *)
Definition admitted (opts : DistributorOptions) (inbox : list (Result Frame)) : Prop :=
  ∃ frame hello rest, inbox = Ok frame :: rest ∧ ftype (header frame) = FrameType.ControlHello
    ∧ decodeControlHello (fpayload frame) = Ok hello
    ∧ (o_authenticate opts = true →
       ∃ zeroed, encodeControlHello (control_hello_with_tag zero_tag hello) = Ok zeroed
         ∧ ch_authTag hello = hmacSha256 (o_key opts) zeroed).

Section greeting.
Context (opts : DistributorOptions) (env : Env).

Lemma verified_tag payload hello key :
  decodeControlHello payload = Ok hello →
  (verifyAuthenticated payload key = Ok tt ↔
   ∃ zeroed, encodeControlHello (control_hello_with_tag zero_tag hello) = Ok zeroed
     ∧ ch_authTag hello = hmacSha256 key zeroed).
Proof.
  intros Hd. destruct (authentication_exact encodeControlHello decodeControlHello _ ch_authTag
    control_hello_with_tag payload hello key Hd) as (zeroed & He & Hv & _).
  rewrite Hv. split; [by exists zeroed|]. intros (z & Hz & ->). rewrite He in Hz. by injection Hz as ->.
Qed.

(** Nothing happens before the hello is admitted. *)
Lemma greeting_gate w w' r :
  controlGreeting opts env w = (w', r) →
  admitted opts (w_inbox w) ∨ (w_shared w' = w_shared w ∧ w_sent w' = w_sent w ∧ is_ok r = false).
Proof.
  unfold controlGreeting, s_bind at 1, m_receive.
  destruct (w_inbox w) as [|[frame|e|why] inbox] eqn:Hin; [intros [= <- <-]; by right|
    |intros [= <- <-]; by right|intros [= <- <-]; by right].
  unfold frame_is at 1. case_bool_decide as Ht; cbn [negb]; [|intros [= <- <-]; by right].
  unfold s_bind at 1, s_lift at 1. destruct (decodeControlHello (fpayload frame)) as [hello|e|why] eqn:Hd;
    [|intros [= <- <-]; by right..].
  unfold s_bind at 1, s_lift at 1. destruct (o_authenticate opts) eqn:Ha.
  - destruct (verifyAuthenticated _ _) as [[]|e|why] eqn:Hv; [|intros [= <- <-]; by right..].
    intros _. left. exists frame, hello, inbox. split_and!; [done..|]. intros _. by apply (verified_tag _ _ _ Hd).
  - intros _. left. exists frame, hello, inbox. split_and!; [done..|]. by rewrite Ha.
Qed.

(** What an admitted client is answered, in any state. *)
Lemma greeting_ok `{!Channel env} w :
  admitted opts (w_inbox w) → id_valid (o_nodeId opts) →
  num64 (cs_epoch (shared_state (env_others env (w_calls w) (w_shared w)))) →
  ∃ frame hello rest bs ack w', w_inbox w = Ok frame :: rest
    ∧ decodeControlHello (fpayload frame) = Ok hello
    ∧ controlGreeting opts env w = (w', Ok tt)
    ∧ w_shared w' = env_others env (w_calls w) (w_shared w)
    ∧ w_sent w' = w_sent w ++ [mkMessage FrameType.ControlHelloAck kFrameFlagResponse bs]
    ∧ w_inbox w' = rest
    ∧ decodeControlHelloAck bs = Ok ack ∧ cha_nodeId ack = o_nodeId opts
    ∧ cha_epoch ack = cs_epoch (shared_state (w_shared w')) ∧ cha_nonce ack = ch_nonce hello.
Proof.
  intros (frame & hello & rest & Hin & Ht & Hd & Htag) Hid He.
  set (others := env_others env (w_calls w) (w_shared w)) in *.
  set (ack := mkControlHelloAckMessage (o_nodeId opts) (cs_epoch (shared_state others))
                (mkOpaque (env_random env (S (w_calls w)))) (ch_nonce hello) zero_tag).
  assert (control_hello_ack_wf ack) as Hack.
  { apply (codec_sound (encode := encodeControlHello)) in Hd as [[[] _] _].
    split; try done. apply random_width. }
  destruct (codec_complete (encode := encodeControlHelloAck) ack Hack) as (bs & Hbs & Hdec).
  eexists frame, hello, rest, bs, ack, _. split; [done|]. split; [done|].
  unfold controlGreeting. rewrite (bind_Ok _ _ _ _ _ (receive_next w frame rest Hin)).
  unfold frame_is. rewrite Ht. cbn [negb]. rewrite bool_decide_true by done. cbn [negb].
  rewrite (bind_lift _ _ _ hello) by done.
  rewrite (bind_Ok _ _ _ (set_inbox rest w) tt).
  2: { unfold s_lift. f_equal. destruct (o_authenticate opts); [|done].
       apply (verified_tag _ _ _ Hd). by apply Htag. }
  rewrite (bind_Ok _ _ _ (set_shared others (next_call (set_inbox rest w)))
             (cs_epoch (shared_state others))) by done.
  rewrite (bind_Ok _ _ _ (next_call (set_shared others (next_call (set_inbox rest w))))
             (env_random env (S (w_calls w)))) by done.
  fold ack.
  rewrite (control_send_ok env (MControlHelloAck ack) _ bs); [|done|done|by vm_compute|done].
  split; [reflexivity|]. by split_and!.
Qed.
End greeting.

(** ** The exchange *)

(** The hello of the client. *)
Definition client_hello (env : Env) (key : list byte) (authenticate : bool) (n : nat)
    : Result (list byte) :=
  let* hello := encodeControlHello (mkControlHelloMessage "cfctl" (mkOpaque (env_random env n)) zero_tag) in
  if authenticate then sealAuthenticated hello key else Ok hello.

Lemma client_hello_admitted opts env `{!Channel env} n :
  ∃ bs hello, client_hello env (o_key opts) (o_authenticate opts) n = Ok bs
    ∧ protocol_ok (MControlHello hello) ∧ encodeControlHello hello = Ok bs
    ∧ ∀ rest, admitted opts (Ok (sent FrameType.ControlHello 0 bs) :: rest).
Proof.
  set (plain := mkControlHelloMessage "cfctl" (mkOpaque (env_random env n)) zero_tag).
  destruct (codec_complete (encode := encodeControlHello) plain) as (bs & Hbs & Hdec).
  { split; [|done]. split; [by vm_compute|apply random_width|done]. }
  destruct (authentication_exact encodeControlHello decodeControlHello _ ch_authTag
    control_hello_with_tag bs plain (o_key opts) Hdec) as (zeroed & Hz & _ & sealed & Hseal & Hv & Hsd).
  unfold client_hello. fold plain. rewrite Hbs. cbn [try_bind]. destruct (o_authenticate opts) eqn:Ha.
  - pose proof Hsd as [Hok He]%(codec_sound (encode := encodeControlHello)).
    eexists sealed, _. split; [done|]. split; [exact Hok|]. split; [exact He|]. intros rest.
    exists (sent FrameType.ControlHello 0 sealed). eexists _, rest. split; [done|]. split; [done|].
    split; [exact Hsd|]. intros _. by apply (verified_tag _ _ _ Hsd).
  - exists bs, plain. split; [done|].
    pose proof Hdec as [Hok He]%(codec_sound (encode := encodeControlHello)).
    split; [exact Hok|]. split; [done|]. intros rest.
    exists (sent FrameType.ControlHello 0 bs), plain, rest. split_and!; [done..|]. by rewrite Ha.
Qed.

(** The environment of a client whose peer delivers [inbox]. *)
Definition with_dial (inbox : list (Result Frame)) (env : Env) : Env :=
  mkEnv (env_others env) (env_append env) (λ _, Ok inbox) (env_send_fails env) (env_stop env)
    (env_random env) (env_now env) (env_ingest env) (env_verify env) (env_reader_fails env)
    (env_read env) (env_compact env).
#[global] Instance with_dial_channel inbox env : Channel env → Channel (with_dial inbox env).
Proof. intros [H1 H2]. by split. Qed.

Definition request_message (request : ControlRequest) : ControlRequestMessage :=
  mkControlRequestMessage (rq_command request) (rq_arguments request).
Definition control_goodbye : GoodbyeMessage := mkGoodbyeMessage ErrorCode.Ok "control session complete".

(** The client, whose peer answers with an acknowledgement and a response. *)
Lemma client_run env `{!Channel env} key authenticate request w hello hello_bytes request_bytes
    goodbye_bytes ack ack_bytes response response_bytes flags :
  client_hello env key authenticate (S (w_calls w)) = Ok hello_bytes →
  protocol_ok (MControlHello hello) → encodeControlHello hello = Ok hello_bytes →
  control_request_wf (request_message request) →
  encodeControlRequest (request_message request) = Ok request_bytes →
  encodeGoodbye control_goodbye = Ok goodbye_bytes →
  decodeControlHelloAck ack_bytes = Ok ack → decodeControlResponse response_bytes = Ok response →
  ∃ w', runControlCommand
      (with_dial (delivered [mkMessage FrameType.ControlHelloAck flags ack_bytes;
                             mkMessage FrameType.ControlResponse flags response_bytes]) env)
      key authenticate request w = (w', client_result ack response)
    ∧ w_sent w' = [mkMessage FrameType.ControlHello 0 hello_bytes;
                   mkMessage FrameType.ControlRequest 0 request_bytes;
                   mkMessage FrameType.Goodbye 0 goodbye_bytes]
    ∧ w_shared w' = w_shared w.
Proof.
  intros Hhello Hhok Hhe Hrok Hre Hge Hack Hresp. set (inbox := delivered _). set (env' := with_dial inbox env).
  unfold client_hello in Hhello.
  destruct (encodeControlHello (mkControlHelloMessage _ _ _)) as [plain|e|why] eqn:Hplain; [|done..].
  cbn [try_bind] in Hhello.
  unfold runControlCommand.
  rewrite (bind_Ok _ _ _ (next_call w) (Ok inbox)) by done.
  rewrite (bind_Ok _ _ _ (next_call w) inbox) by done.
  set (w0 := set_open true (set_inbox inbox (set_sent [] (next_call w)))).
  rewrite (bind_Ok _ _ _ w0 tt) by done.
  rewrite (bind_Ok _ _ _ (next_call w0) (env_random env (S (w_calls w)))) by done.
  rewrite (bind_lift _ _ _ plain) by done.
  rewrite (bind_lift _ _ _ hello_bytes) by done.
  erewrite bind_Ok; [|by apply (send_message env' (MControlHello hello))].
  erewrite bind_Ok; [|by eapply receive_next].
  unfold frame_is at 1. cbn [ftype header as_frame sent frame_header m_type].
  rewrite bool_decide_true by done. cbn [negb].
  rewrite (bind_lift _ _ _ ack) by done.
  fold (request_message request).
  erewrite bind_Ok; [|by apply (control_send_ok env' (MControlRequest (request_message request)))].
  erewrite bind_Ok; [|by eapply receive_next].
  unfold frame_is at 1. cbn [ftype header as_frame sent frame_header m_type].
  rewrite bool_decide_true by done. cbn [negb].
  rewrite (bind_lift _ _ _ response) by done.
  unfold sayControlGoodbye. fold control_goodbye. rewrite Hge.
  erewrite bind_Ok.
  2: { erewrite bind_Ok; [reflexivity|].
       apply try_Ok; [by apply (send_message env' (MGoodbye control_goodbye))|done]. }
  erewrite bind_Ok; [|reflexivity].
  eexists. split; [reflexivity|]. by split.
Qed.

(** The request loop on one request and a goodbye. *)
Lemma serve_run opts env port `{!Channel env} request request_bytes goodbye_bytes w w1 body fuel :
  control_request_wf (request_message request) →
  encodeControlRequest (request_message request) = Ok request_bytes →
  w_inbox w = delivered [mkMessage FrameType.ControlRequest 0 request_bytes;
                         mkMessage FrameType.Goodbye 0 goodbye_bytes] →
  executeControlCommand opts env port request
    (set_inbox (delivered [mkMessage FrameType.Goodbye 0 goodbye_bytes]) w) = (w1, body) →
  (∀ why, body ≠ Abort why) → control_response_wf (response_to body) →
  ∃ response_bytes w2, decodeControlResponse response_bytes = Ok (response_to body)
    ∧ serve_requests opts env port (S (S fuel)) w
      = (w2, Ok (bool_decide (rq_command request = "shutdown")))
    ∧ w_sent w2 = w_sent w ++ [mkMessage FrameType.ControlResponse kFrameFlagResponse response_bytes]
    ∧ w_shared w2 = w_shared w1.
Proof.
  intros Hwf He Hin Hrun Hbody Hresp.
  destruct (codec_complete (encode := encodeControlResponse) _ Hresp) as (bs & Hbs & Hdec).
  destruct (silent_execute opts env port (connection (set_inbox
    (delivered [mkMessage FrameType.Goodbye 0 goodbye_bytes]) w)) request _ eq_refl) as [Hc _].
  rewrite Hrun in Hc. cbn [fst] in Hc. injection Hc as Hsent Hinbox _ _.
  destruct (codec_complete (encode := encodeControlRequest) _ Hwf) as (rb & Hrb & Hrd).
  assert (rb = request_bytes) as -> by (rewrite He in Hrb; by injection Hrb).
  set (w2 := set_sent (w_sent w1 ++ [mkMessage FrameType.ControlResponse kFrameFlagResponse bs]) (next_call w1)).
  assert (controlRequest opts env port w
          = (w2, Ok (if decide (rq_command request = "shutdown") then Some true else None))) as Hone.
  { unfold controlRequest. rewrite (bind_Ok _ _ _ _ _ (receive_next w _ _ Hin)).
    unfold frame_is. cbn [ftype header as_frame sent frame_header m_type].
    rewrite bool_decide_false by done. rewrite bool_decide_true by done. cbn [negb].
    rewrite (bind_lift _ _ _ (request_message request)) by done. cbv zeta.
    assert (mkControlRequest (cq_command (request_message request)) (cq_arguments (request_message request))
            = request) as -> by by destruct request.
    rewrite (bind_Ok _ _ _ _ _ (try_Ok _ _ _ _ Hrun Hbody)).
    by rewrite (bind_Ok _ _ _ _ _ (control_send_ok env (MControlResponse (response_to body))
                  kFrameFlagResponse bs w1 Hresp Logic.I ltac:(by vm_compute) Hbs)). }
  exists bs. cbn [serve_requests]. rewrite (bind_Ok _ _ _ _ _ Hone).
  destruct (decide (rq_command request = "shutdown")) as [Hs|Hs].
  - exists w2. rewrite bool_decide_true by done. split_and!; [done..| |done]. cbn. by rewrite Hsent.
  - exists (set_inbox [] w2). rewrite bool_decide_false by done.
    split; [done|]. split; [|by cbn; rewrite Hsent].
    rewrite (bind_Ok _ _ _ (set_inbox [] w2) (Some false)); [done|]. unfold controlRequest.
    by rewrite (bind_Ok _ _ _ _ _ (receive_next w2 _ _ Hinbox)).
Qed.

(** What the client is to return: what the command returned, with the identity
    of the controller. *)
Definition client_answer (opts : DistributorOptions) (s : ControllerState) (body : Result string)
    : Result string :=
  match body with
  | Ok text => Ok (text +:+ "node: " +:+ str (o_nodeId opts) +:+ " epoch="
                   +:+ to_string (value (cs_epoch s)) +:+ newline)
  | Fail e => fail_detail (code e) "controller rejected the command" (Error_str e)
  | Abort why => Abort why
  end.

Lemma client_result_answer opts s ack body :
  (∀ why, body ≠ Abort why) → (∀ e, body = Fail e → code e ≠ ErrorCode.Ok) →
  cha_nodeId ack = o_nodeId opts → cha_epoch ack = cs_epoch s →
  client_result ack (response_to body) = client_answer opts s body.
Proof.
  intros Habort Hcode Hn He. destruct body as [text|e|why]; cbn [response_to client_answer].
  - unfold client_result. cbn [cr_code cr_body]. rewrite bool_decide_true by done. cbn [negb].
    by rewrite Hn, He.
  - unfold client_result. cbn [cr_code cr_body]. by rewrite bool_decide_false by by apply Hcode.
  - by destruct (Habort why).
Qed.

(** ** Properties *)

(** C11: the control channel is transparent. Between a client and a controller
    that share the key and the choice to authenticate, whatever the request and
    the state: there are messages and answers such that the controller, given
    the messages, runs the command exactly once, on the state the other threads
    left, and sends the answers; and the client, given the answers, sent the
    messages and returns what the command returned - its text with the identity
    of the controller appended, or its error - as long as the text fits a
    response. *)
Theorem control_exchange opts server client port request w wc
    (Hserver : Channel server) (Hclient : Channel client)
    (Hnode : id_valid (o_nodeId opts))
    (Hepoch : num64 (cs_epoch (shared_state (env_others server (w_calls w) (w_shared w)))))
    (Hrequest : control_request_wf (request_message request)) :
  ∃ asked wg, w_shared wg = env_others server (w_calls w) (w_shared w)
    ∧ ∀ w1 body, executeControlCommand opts server port request wg = (w1, body) →
        (∀ why, body ≠ Abort why) → (∀ e, body = Fail e → code e ≠ ErrorCode.Ok) →
        control_response_wf (response_to body) →
        ∃ answered w2 wc2,
          handleControlConnection opts server port (delivered asked) w
            = (w2, Ok (bool_decide (rq_command request = "shutdown")))
          ∧ w_sent w2 = answered ∧ w_shared w2 = w_shared w1
          ∧ runControlCommand (with_dial (delivered answered) client) (o_key opts) (o_authenticate opts)
              request wc = (wc2, client_answer opts (shared_state (w_shared wg)) body)
          ∧ w_sent wc2 = asked ∧ w_shared wc2 = w_shared wc.
Proof.
  destruct (client_hello_admitted opts client (S (w_calls wc)))
    as (hello_bytes & hello & Hhello & Hhok & Hhe & Hadmit).
  destruct (codec_complete (encode := encodeControlRequest) _ Hrequest) as (request_bytes & Hre & _).
  destruct (codec_complete (encode := encodeGoodbye) control_goodbye) as (goodbye_bytes & Hge & _).
  { split; by vm_compute. }
  set (asked := [mkMessage FrameType.ControlHello 0 hello_bytes;
                 mkMessage FrameType.ControlRequest 0 request_bytes;
                 mkMessage FrameType.Goodbye 0 goodbye_bytes]).
  set (w0 := set_open true (set_inbox (delivered asked) (set_sent [] w))).
  destruct (greeting_ok opts server w0) as (frame & hello' & rest & ack_bytes & ack & w' & Hin & _ & Hgreet
    & Hshared & Hsent & Hinbox & Hack & Hn & He & _); [apply Hadmit|done|done|].
  injection Hin as _ <-.
  exists asked, (set_inbox (delivered [mkMessage FrameType.Goodbye 0 goodbye_bytes]) w').
  split; [done|]. intros w1 body Hrun Hbody Hcode Hresp.
  destruct (serve_run opts server port request request_bytes goodbye_bytes w' w1 body 1)
    as (response_bytes & w2 & Hdec & Hserve & Hsent2 & Hshared2); [done..|].
  destruct (client_run client (o_key opts) (o_authenticate opts) request wc hello hello_bytes request_bytes
    goodbye_bytes ack ack_bytes (response_to body) response_bytes kFrameFlagResponse)
    as (wc2 & Hcall & Hcs & Hcsh); [done..|].
  rewrite <- (client_result_answer opts _ ack body)
    by (done || (cbn [w_shared set_inbox]; rewrite Hshared; exact He)).
  eexists _, w2, wc2. split_and!; [|reflexivity|done| |done..].
  - unfold handleControlConnection. rewrite (bind_Ok _ _ w w0 tt) by done.
    unfold serveControlConnection. rewrite (bind_Ok _ _ _ _ _ Hgreet).
    rewrite (bind_Ok _ _ w' w' (length (w_inbox w'))) by done. rewrite Hinbox. exact Hserve.
  - rewrite Hsent2, Hsent. exact Hcall.
Qed.

(** The client asks an empty controller for its targets. *)
Lemma control_exchange_witness :
  ∃ answered wc2,
    runControlCommand (with_dial answered (calm_env [])) [Byte.x41] true (mkControlRequest "targets" [])
      (world_of empty_shared)
    = (wc2, client_answer example_options ControllerState_default (Ok (line "targets: 0"))).
Proof.
  destruct (control_exchange example_options (calm_env []) (calm_env []) 9010
              (mkControlRequest "targets" []) (world_of empty_shared) (world_of empty_shared))
    as (asked & wg & Hshared & H).
  - split; reflexivity.
  - split; reflexivity.
  - vm_compute. reflexivity.
  - vm_compute. split; [discriminate|reflexivity].
  - split; [split; [vm_compute; split; discriminate|discriminate]|split; [vm_compute; discriminate|constructor]].
  - destruct (H (set_shared (w_shared wg) (next_call wg)) (Ok (line "targets: 0")))
      as (answered & w2 & wc2 & _ & _ & _ & Hrun & _).
    + destruct wg as [sh sent inbox open chunks calls]. cbn in Hshared. subst sh. vm_compute. reflexivity.
    + discriminate.
    + discriminate.
    + split. vm_compute. split; discriminate.
    + rewrite Hshared in Hrun. by eexists _, wc2.
Defined.

(** C16: the gate. A connection that does not open with a control hello - under
    authentication, one that carries the HMAC of exactly this hello under the
    shared key - is sent nothing, changes nothing, not even by taking the lock,
    and ends in an error. One that does is greeted in any state of the
    controller: the decision depends on the bytes of the hello alone, so that
    recorded bytes are admitted again. *)
Theorem control_gate opts env port inbox w :
  (¬ admitted opts inbox →
     let ends := handleControlConnection opts env port inbox w in
     w_shared ends.1 = w_shared w ∧ w_sent ends.1 = [] ∧ is_ok ends.2 = false)
  ∧ (admitted opts inbox → Channel env → id_valid (o_nodeId opts) →
     num64 (cs_epoch (shared_state (env_others env (w_calls w) (w_shared w)))) →
     (controlGreeting opts env (set_inbox inbox w)).2 = Ok tt).
Proof.
  split.
  - intros Hno. unfold handleControlConnection.
    set (w0 := set_open true (set_inbox inbox (set_sent [] w))).
    rewrite (bind_Ok _ _ w w0 tt) by done. unfold serveControlConnection, s_bind.
    pose proof (greeting_gate opts env w0) as Hgate.
    destruct (controlGreeting opts env w0) as [w' r].
    destruct (Hgate w' r eq_refl) as [?|(Hshared & Hsent & Hr)]; [done|].
    by destruct r as [[]|e|why].
  - intros Hin Hc Hid He.
    by destruct (greeting_ok opts env (set_inbox inbox w)) as (? & ? & ? & ? & ? & w' & _ & _ & -> & _).
Qed.

(** The hello of a client with another key. *)
Definition foreign_hello : list byte := Eval vm_compute in
  match client_hello (calm_env []) [Byte.x42] true 0 with Ok bs => bs | _ => [] end.
Lemma control_gate_witness :
  let ends := handleControlConnection example_options (calm_env []) 9010
                (delivered [mkMessage FrameType.ControlHello 0 foreign_hello]) (world_of empty_shared) in
  w_shared ends.1 = empty_shared ∧ w_sent ends.1 = [] ∧ is_ok ends.2 = false.
Proof.
  apply (control_gate example_options (calm_env []) 9010).
  intros (frame & hello & rest & Hin & _ & Hd & Htag). injection Hin as <- <-.
  specialize (Htag eq_refl). apply (verified_tag _ _ _ Hd) in Htag. revert Htag.
  vm_compute. discriminate.
Defined.

(** Reading commands read. Executing a command that only reads - [status],
    [targets], [deliveries], [pending], [divergence], [converge], [explain],
    [artifacts], [lifecycle], [shutdown], or a word that names no command -
    leaves the files, the durable state, the artifacts, the claims and the
    requests as they were, if no other thread changes them, and the connection
    in any case; and a word that names no command is refused as such. *)
Theorem reading_commands opts env port request w
    (Hreads : only_reads request) :
  let ends := executeControlCommand opts env port request w in
  ((∀ n s, env_others env n s = s) → w_shared ends.1 = w_shared w)
  ∧ connection ends.1 = connection w
  ∧ (rq_command request ∉ map (λ c, c.1.1) kCommands →
     ends = (w, fail_detail ErrorCode.NotFound "unknown control command" (rq_command request))).
Proof.
  cbv zeta. split; [|split].
  - intros Hquiet. assert (Unmoved env (λ w', w_shared w' = w_shared w)) as Hu.
    { split; [done|]. intros w' n. by rewrite Hquiet. }
    by destruct (reads_keep opts env port (λ w', w_shared w' = w_shared w) request Hreads w eq_refl).
  - by destruct (silent_execute opts env port (connection w) request w eq_refl).
  - intros Hno. unfold executeControlCommand. cbv zeta.
    assert (∀ name, name ∈ map (λ c, c.1.1) kCommands → bool_decide (rq_command request = name) = false)
      as Hn by (intros name; by apply not_named).
    repeat (rewrite Hn by (apply (bool_decide_unpack _); vm_compute; exact Logic.I)). done.
Qed.

Lemma reading_commands_witness :
  w_shared (executeControlCommand example_options (calm_env []) 9010 (mkControlRequest "targets" [])
              (world_of empty_shared)).1 = empty_shared.
Proof.
  apply (reading_commands example_options (calm_env []) 9010 (mkControlRequest "targets" [])
           (world_of empty_shared)); [|reflexivity].
  left. apply (bool_decide_unpack _). vm_compute. exact Logic.I.
Defined.
