(* ===== verification/AgentMain.v ===== *)
(** * The process of an agent

    Models the accept loop of apps/agent_main.cpp: one connection at a time is
    served until the process is asked to stop or the listener is. *)

From stdpp Require Import gmap.
From Stdlib Require Import Strings.Byte.
From S2P Require Import Prelude Result StdMap Hash Ids Codec Lifecycle Files Journal Snapshot.
From S2P Require Import Artifact FaultPlan AgentFiles Frame Records Messages Protocol State Store.
From S2P Require Import Agent AgentStart AgentExample AgentEffects AgentLogic AgentInv AgentSpec.

Section process.
Context (opts : AgentOptions) (env : Env).

(** A connection that delivers [inbox]. *)
Definition m_accepted (inbox : list (Result Frame)) : M unit :=
  m_modify (λ w, set_closed false (set_inbox inbox (set_sent [] w))).

(** [accepts]: whether a stop was requested, and what [accept] returned, pass by
    pass. A session's error ends the session only. *)
Fixpoint agentLoop (accepts : list (bool * Result (list (Result Frame)))) : M unit :=
  match accepts with
  | [] => m_ret tt
  | (stop, accepted) :: accepts =>
      if (stop : bool) then m_ret tt
      else match accepted with
           | Ok inbox =>
               do@ m_accepted inbox in
               let@ _ := m_try (serve opts env) in
               do@ m_modify (set_closed true) in
               agentLoop accepts
           | Fail e =>
               if bool_decide (code e = ErrorCode.ShuttingDown) then m_ret tt else agentLoop accepts
           | Abort why => m_lift (Abort why)
           end
  end.

Context (Hclock : ∀ n, fits_i64 (env_now env n)).

Lemma keeps_evolved_process st0 accepts : keeps (evolved opts st0) (agentLoop accepts).
Proof.
  induction accepts as [|[stop accepted] accepts IH]; cbn [agentLoop]; [apply keeps_ret|].
  destruct stop; [apply keeps_ret|]. destruct accepted as [inbox|e|why].
  - apply keeps_bind; [by intros w Hw|intros _].
    apply keeps_bind; [by apply keeps_try, keeps_evolved_serve|intros _].
    apply keeps_bind; [by intros w Hw|intros _]. exact IH.
  - case_bool_decide; [apply keeps_ret|exact IH].
  - apply keeps_lift.
Qed.
End process.

(** C2: an agent process refines the abstract target. Whatever connections are
    accepted, whatever their peers send and whatever the operating system
    answers, including an end of the process at any point, the process is a
    sequence of steps of a register that only moves forward: the committed
    generation never decreases, a generation keeps the digest it was first
    committed with, and the identity of the target does not change. *)
Theorem process_refines_target opts env accepts w
    (Hclock : ∀ n, fits_i64 (env_now env n)) (Hinv : inv opts (w_fs w) (w_store w)) :
  let w' := (agentLoop opts env accepts w).1 in
  rtc target_step (target_of (w_store w)) (target_of (w_store w'))
  ∧ as_identity (w_state w') = as_identity (w_state w)
  ∧ inv opts (w_fs w') (w_store w')
  ∧ let c := as_commit (w_state w) in
    let c' := as_commit (w_state w') in
    value (committedGeneration c) <= value (committedGeneration c')
    ∧ (committedGeneration c = committedGeneration c' → committedDigest c = committedDigest c').
Proof.
  intros w'. destruct (keeps_evolved_process opts env Hclock (w_store w) accepts w) as (Hi & Hid & Hrun).
  { split; [done|]. by split. }
  do 3 (split; [done|]). by apply (target_never_back _ _ Hrun).
Qed.

(** Two connections: one that breaks off, and one that greets. *)
Definition example_accepts : list (bool * Result (list (Result Frame))) :=
  [(false, Ok []); (false, Ok [Ok example_hello_frame])].
Lemma process_refines_target_witness :
  let w := staged_world ApplyGuarantee.AtomicActivate in
  let w' := (agentLoop (example_agent ApplyGuarantee.AtomicActivate) (calm_env []) example_accepts w).1 in
  rtc target_step (target_of (w_store w)) (target_of (w_store w'))
  ∧ map m_type (w_sent w') = [FrameType.HelloAck].
Proof.
  split; [|vm_compute; reflexivity].
  refine (proj1 (process_refines_target (example_agent ApplyGuarantee.AtomicActivate) (calm_env [])
    example_accepts (staged_world ApplyGuarantee.AtomicActivate) (calm_clock [])
    (staged_inv ApplyGuarantee.AtomicActivate))).
Defined.
