(* ===== verification/CommandLine.v ===== *)
(** * The command lines of the controller and the agent

    Models the argument parsers of apps/controller_main.cpp and
    apps/agent_main.cpp, the shared secret file that all three programs read,
    and the options each main function opens its part with. An early return of
    a main function is its exit code and what it prints. *)

From stdpp Require Import functions gmap.
From Stdlib Require Import Strings.Byte Strings.Ascii.
From S2P Require Import Plan.
From S2P Require Import Prelude Result Hash Ids Codec Policy Files Endpoint FaultPlan Log.
From S2P Require Import Agent.
From S2P Require Import Distributor.

(** ** The shared secret *)

Definition key_blank (b : byte) : bool :=
  bool_decide (b ∈ [byte_of 10; byte_of 13; byte_of 32; byte_of 9]).
Definition key_trimmed (content : list byte) : list byte :=
  List.filter (λ b, negb (key_blank b)) content.

(** A raw secret, repeated with a different mask each time. *)
Definition expand_secret (secret : list byte) : list byte :=
  map (λ i, byte_xor (nth (i mod length secret) secret Byte.x00)
              (Z.of_nat (i / length secret) * 0x5A)) (seq 0 32).

Definition loadKey (path : string) (fs : FileSystem) : Result (list byte) :=
  let* content := (readFileBounded path 4096 fs).2 in
  let trimmed := key_trimmed content in
  match (if (length trimmed =? 64)%nat then fromHex (string_of_bytes trimmed) 32 else None) with
  | Some key => Ok key
  | None =>
      match trimmed with
      | [] => fail ErrorCode.InvalidArgument "shared secret file is empty"
      | _ => Ok (expand_secret trimmed)
      end
  end.

(** ** Arguments *)

(** The value of a digit, added to the digits before it, modulo [2 ^ 64]. *)
Fixpoint wrapping_digits (e : Error) (text : string) (v : Z) : Result Z :=
  match text with
  | "" => Ok v
  | String.String c rest =>
      let d := Z.of_nat (nat_of_ascii c) in
      if (d <? 48) || (d >? 57) then Fail e
      else wrapping_digits e rest ((v * 10 + (d - 48)) mod 2 ^ 64)
  end.
(** The same over a signed integer, whose overflow is undefined. *)
Fixpoint signed_digits (e : Error) (text : string) (v : Z) : Result Z :=
  match text with
  | "" => Ok v
  | String.String c rest =>
      let d := Z.of_nat (nat_of_ascii c) in
      if (d <? 48) || (d >? 57) then Fail e
      else if v * 10 + (d - 48) >=? 2 ^ 63 then Abort "signed integer overflow"
      else signed_digits e rest (v * 10 + (d - 48))
  end.

Definition parseU64 (text : string) : Result Z :=
  if decide (text = "") then fail ErrorCode.InvalidArgument "expected a number"
  else wrapping_digits (mkError ErrorCode.InvalidArgument "expected a decimal integer" text) text 0.

Section flags.
Context {A : Type}.
(** The switches, the flags that take a value, the error of a missing value,
    and what a value changes. *)
Context (switch : string → A → option A) (valued : list string) (missing : string → Error).
Context (assign : string → string → A → Result A).

(** [parseArgs]: [None] after the help text or the version. *)
Fixpoint parse_flags (argv : list string) (a : A) : Result (option A) :=
  match argv with
  | [] => Ok (Some a)
  | flag :: rest =>
      if decide (flag ∈ ["--help"; "-h"; "--version"]) then Ok None
      else if decide (flag ∈ valued) then
        match rest with
        | [] => Fail (missing flag)
        | value :: rest => let* a := assign flag value a in parse_flags rest a
        end
      else match switch flag a with
           | Some a => parse_flags rest a
           | None => fail_detail ErrorCode.InvalidArgument "unknown argument" flag
           end
  end.
End flags.

(** A main function that returns early: the exit code and the text. *)
Record Exit := mkExit { ex_code : Z; ex_text : string }.

Definition needs_value (flag : string) : Error :=
  mkError ErrorCode.MissingField (flag +:+ " needs a value") "".

(** The fields of the [Arguments] of both programs that are text, and those that
    are numbers. *)
Inductive Text :=
  | StateDirectory | ArtifactRoot | LiveDirectory | ListenHost | AnnounceFile | KeyFile | Faults
  | LogLevelText | LogFile.
#[global] Instance Text_eq_dec : EqDecision Text.
Proof. solve_decision. Defined.
Inductive Number :=
  | ListenPort | MaxAttempts | MaxConcurrentSessions | TransferChunkBytes | MaxPayloadBytes
  | MaxArtifactBytes | LivenessFreshnessMillis | ShutdownAfterMillis | IdleTimeoutMillis.
#[global] Instance Number_eq_dec : EqDecision Number.
Proof. solve_decision. Defined.

Definition default_text (f : Text) : string :=
  match f with ListenHost => "127.0.0.1" | LogLevelText => "info" | _ => "" end.
Definition default_number (f : Number) : Z :=
  match f with
  | MaxAttempts => 4 | MaxConcurrentSessions => 4 | TransferChunkBytes => 16384
  | MaxPayloadBytes => 2 ^ 20 | MaxArtifactBytes => 64 * 1024 * 1024
  | LivenessFreshnessMillis => 15000 | IdleTimeoutMillis => 10000
  | ListenPort | ShutdownAfterMillis => 0
  end.

(** ** The controller *)

(** [Arguments] of controller_main.cpp; the control endpoint is [ListenHost],
    [ListenPort]. *)
Record ControllerArguments := mkControllerArguments {
  ca_nodeId : NodeId;
  ca_text : Text → string;
  ca_number : Number → Z;
  ca_authenticate : bool;
  ca_planFiles : list string;
}.
Definition ControllerArguments_default : ControllerArguments :=
  mkControllerArguments id_empty default_text default_number true [].
Definition ca_set_text (f : Text) (v : string) (a : ControllerArguments) : ControllerArguments :=
  mkControllerArguments (ca_nodeId a) (<[f := v]> (ca_text a)) (ca_number a) (ca_authenticate a)
    (ca_planFiles a).
Definition ca_set_number (f : Number) (v : Z) (a : ControllerArguments) : ControllerArguments :=
  mkControllerArguments (ca_nodeId a) (ca_text a) (<[f := v]> (ca_number a)) (ca_authenticate a)
    (ca_planFiles a).

(** The flags whose value is kept as it is. *)
Definition common_text (flag : string) : option Text :=
  if decide (flag = "--state") then Some StateDirectory
  else if decide (flag = "--announce-file") then Some AnnounceFile
  else if decide (flag = "--key-file") then Some KeyFile
  else if decide (flag = "--fault-inject") then Some Faults
  else if decide (flag = "--log-level") then Some LogLevelText
  else if decide (flag = "--log-file") then Some LogFile
  else None.
Definition controller_text (flag : string) : option Text :=
  if decide (flag = "--artifacts") then Some ArtifactRoot else common_text flag.
(** The flags whose value is a number, with the conversion to the field's type. *)
Definition controller_number (flag : string) : option (Number * (Z → Z)) :=
  if decide (flag = "--max-attempts") then Some (MaxAttempts, λ v, v mod 2 ^ 32)
  else if decide (flag = "--sessions") then Some (MaxConcurrentSessions, id)
  else if decide (flag = "--chunk-bytes") then Some (TransferChunkBytes, id)
  else if decide (flag = "--max-payload-bytes") then Some (MaxPayloadBytes, λ v, v mod 2 ^ 32)
  else if decide (flag = "--max-artifact-bytes") then Some (MaxArtifactBytes, id)
  else if decide (flag = "--liveness-fresh-ms") then Some (LivenessFreshnessMillis, to_i64)
  else if decide (flag = "--exit-after-ms") then Some (ShutdownAfterMillis, λ v, v mod 2 ^ 32)
  else None.

Definition controller_valued : list string :=
  ["--node"; "--state"; "--artifacts"; "--control"; "--announce-file"; "--key-file"; "--plan";
   "--fault-inject"; "--log-level"; "--log-file"; "--max-attempts"; "--sessions"; "--chunk-bytes";
   "--max-payload-bytes"; "--max-artifact-bytes"; "--liveness-fresh-ms"; "--exit-after-ms"].
Definition controller_switch (flag : string) (a : ControllerArguments) : option ControllerArguments :=
  if decide (flag = "--insecure-no-auth")
  then Some (mkControllerArguments (ca_nodeId a) (ca_text a) (ca_number a) false (ca_planFiles a))
  else None.
Definition controller_assign (flag value : string) (a : ControllerArguments)
    : Result ControllerArguments :=
  if decide (flag = "--node") then
    let* id := parseNodeId value in
    Ok (mkControllerArguments id (ca_text a) (ca_number a) (ca_authenticate a) (ca_planFiles a))
  else if decide (flag = "--control") then
    let* e := parseEndpoint value in
    Ok (ca_set_number ListenPort (port e) (ca_set_text ListenHost (host e) a))
  else if decide (flag = "--plan") then
    Ok (mkControllerArguments (ca_nodeId a) (ca_text a) (ca_number a) (ca_authenticate a)
          (ca_planFiles a ++ [value]))
  else match controller_text flag, controller_number flag with
       | Some f, _ => Ok (ca_set_text f value a)
       | None, Some (f, convert) => let* v := parseU64 value in Ok (ca_set_number f (convert v) a)
       | None, None => Ok a
       end.
Definition controller_parseArgs (argv : list string) : Result (option ControllerArguments) :=
  parse_flags controller_switch controller_valued needs_value controller_assign argv
    ControllerArguments_default.

Definition policy_of (a : ControllerArguments) : DistributorPolicy :=
  let n := ca_number a in
  let d := defaultPolicy in
  mkPolicy (n MaxAttempts) (retryBackoffMillis d) (maxBackoffMillis d) (connectTimeoutMillis d)
    (sessionIdleTimeoutMillis d) (requestTimeoutMillis d) (maxTargets d) (maxLiveDeliveries d)
    (maxHistoryPerLineage d) (n MaxConcurrentSessions) (n TransferChunkBytes) (n MaxPayloadBytes)
    (requireAcknowledgement d) (reconcileOnRestart d) (maxReconcileFindings d)
    (repairProbeMillis d) (sessionMinIntervalMillis d) (n LivenessFreshnessMillis).

(** The checks both main functions make of the log level, the log file (whether
    it opens) and the fault plan. *)
Definition configure_common (program : string) (log_opens : bool) (text : Text → string)
    : Exit + FaultPlan :=
  if decide (parseLogLevel (text LogLevelText) = None)
  then inl (mkExit 2 (program +:+ ": unknown log level '" +:+ text LogLevelText +:+ "'"))
  else if negb (bool_decide (text LogFile = "")) && negb log_opens
  then inl (mkExit 2 (program +:+ ": "
              +:+ Error_str (mkError ErrorCode.OpenFailed "cannot open log file" (text LogFile))))
  else match FaultPlan_parse (text Faults) with
       | Ok faults => inr faults
       | r => inl (mkExit 2 (program +:+ ": " +:+ result_str r))
       end.
(** The key of an authenticated program; an empty one otherwise. *)
Definition configure_key (program : string) (authenticate : bool) (keyFile : string) (fs : FileSystem)
    : Exit + list byte :=
  if negb authenticate then inr (repeat Byte.x00 32)
  else if decide (keyFile = "")
  then inl (mkExit 2 (program +:+ ": --key-file is required unless --insecure-no-auth is given"))
  else match loadKey keyFile fs with
       | Ok key => inr key
       | r => inl (mkExit 2 (program +:+ ": " +:+ result_str r))
       end.

(** [main] up to the opening of the distributor. *)
Definition controller_configure (argv : list string) (log_opens : bool) (fs : FileSystem)
    : Exit + (ControllerArguments * DistributorOptions) :=
  let program := "cf-controller" in
  match controller_parseArgs argv with
  | Ok None => inl (mkExit 0 "")
  | Ok (Some a) =>
      let text := ca_text a in
      if negb (id_isSet (ca_nodeId a)) || bool_decide (text StateDirectory = "")
         || bool_decide (text ArtifactRoot = "")
      then inl (mkExit 2 (program +:+ ": --node, --state and --artifacts are required"))
      else match configure_common program log_opens text with
           | inl exit => inl exit
           | inr faults =>
               match configure_key program (ca_authenticate a) (text KeyFile) fs with
               | inl exit => inl exit
               | inr key =>
                   inr (a, mkDistributorOptions (ca_nodeId a) (text StateDirectory)
                             (text ArtifactRoot) (ca_number a MaxArtifactBytes)
                             (4 * 1024 * 1024 * 1024) 4096 (policy_of a) key
                             (ca_authenticate a) (text ListenHost) faults)
               end
           end
  | r => inl (mkExit 2 (program +:+ ": " +:+ result_str r))
  end.

(** ** The agent *)

Record AgentArguments := mkAgentArguments {
  aa_target : TargetId;
  aa_klass : TargetClass;
  aa_guarantee : ApplyGuarantee;
  aa_text : Text → string;
  aa_number : Number → Z;
  aa_authenticate : bool;
  aa_verifyOnStart : bool;
}.
Definition AgentArguments_default : AgentArguments :=
  mkAgentArguments id_empty TargetClass.NetworkDevice ApplyGuarantee.AtomicActivate default_text
    default_number true true.
Definition aa_set_target (t : TargetId) (a : AgentArguments) : AgentArguments :=
  mkAgentArguments t (aa_klass a) (aa_guarantee a) (aa_text a) (aa_number a) (aa_authenticate a)
    (aa_verifyOnStart a).
Definition aa_set_klass (k : TargetClass) (a : AgentArguments) : AgentArguments :=
  mkAgentArguments (aa_target a) k (aa_guarantee a) (aa_text a) (aa_number a) (aa_authenticate a)
    (aa_verifyOnStart a).
Definition aa_set_guarantee (g : ApplyGuarantee) (a : AgentArguments) : AgentArguments :=
  mkAgentArguments (aa_target a) (aa_klass a) g (aa_text a) (aa_number a) (aa_authenticate a)
    (aa_verifyOnStart a).
Definition aa_set_text (f : Text) (v : string) (a : AgentArguments) : AgentArguments :=
  mkAgentArguments (aa_target a) (aa_klass a) (aa_guarantee a) (<[f := v]> (aa_text a)) (aa_number a)
    (aa_authenticate a) (aa_verifyOnStart a).
Definition aa_set_number (f : Number) (v : Z) (a : AgentArguments) : AgentArguments :=
  mkAgentArguments (aa_target a) (aa_klass a) (aa_guarantee a) (aa_text a) (<[f := v]> (aa_number a))
    (aa_authenticate a) (aa_verifyOnStart a).

Definition agent_text (flag : string) : option Text :=
  if decide (flag = "--live") then Some LiveDirectory else common_text flag.
Definition agent_valued : list string :=
  ["--target"; "--class"; "--guarantee"; "--state"; "--live"; "--listen"; "--announce-file";
   "--key-file"; "--fault-inject"; "--log-level"; "--log-file"; "--max-artifact-bytes";
   "--idle-timeout-ms"].
Definition agent_missing (flag : string) : Error :=
  if decide (flag = "--class") then mkError ErrorCode.InvalidArgument "unknown target class" ""
  else if decide (flag = "--guarantee")
  then mkError ErrorCode.InvalidArgument "unknown apply guarantee" ""
  else needs_value flag.
Definition agent_switch (flag : string) (a : AgentArguments) : option AgentArguments :=
  let make authenticate verifyOnStart :=
    mkAgentArguments (aa_target a) (aa_klass a) (aa_guarantee a) (aa_text a) (aa_number a)
      authenticate verifyOnStart in
  if decide (flag = "--insecure-no-auth") then Some (make false (aa_verifyOnStart a))
  else if decide (flag = "--no-verify-on-start") then Some (make (aa_authenticate a) false)
  else None.
Definition agent_assign (flag value : string) (a : AgentArguments) : Result AgentArguments :=
  let not_a_number :=
    mkError ErrorCode.InvalidArgument (flag +:+ " is not a decimal integer") "" in
  if decide (flag = "--target") then let* id := parseTargetId value in Ok (aa_set_target id a)
  else if decide (flag = "--class") then
    match parseTargetClass value with
    | Some k => Ok (aa_set_klass k a)
    | None => Fail (agent_missing flag)
    end
  else if decide (flag = "--guarantee") then
    match parseApplyGuarantee value with
    | Some g => Ok (aa_set_guarantee g a)
    | None => Fail (agent_missing flag)
    end
  else if decide (flag = "--listen") then
    let* e := parseEndpoint value in
    Ok (aa_set_number ListenPort (port e) (aa_set_text ListenHost (host e) a))
  else if decide (flag = "--max-artifact-bytes") then
    let* v := wrapping_digits not_a_number value 0 in Ok (aa_set_number MaxArtifactBytes v a)
  else if decide (flag = "--idle-timeout-ms") then
    let* v := signed_digits not_a_number value 0 in Ok (aa_set_number IdleTimeoutMillis v a)
  else match agent_text flag with
       | Some f => Ok (aa_set_text f value a)
       | None => Ok a
       end.
Definition agent_parseArgs (argv : list string) : Result (option AgentArguments) :=
  parse_flags agent_switch agent_valued agent_missing agent_assign argv AgentArguments_default.

(** [main] up to the opening of the agent. *)
Definition agent_configure (argv : list string) (log_opens : bool) (fs : FileSystem)
    : Exit + (AgentArguments * AgentOptions) :=
  let program := "cf-agent" in
  match agent_parseArgs argv with
  | Ok None => inl (mkExit 0 "")
  | Ok (Some a) =>
      let text := aa_text a in
      if negb (id_isSet (aa_target a)) || bool_decide (text StateDirectory = "")
      then inl (mkExit 2 (program +:+ ": --target and --state are required"))
      else match configure_common program log_opens text with
           | inl exit => inl exit
           | inr faults =>
               match configure_key program (aa_authenticate a) (text KeyFile) fs with
               | inl exit => inl exit
               | inr key =>
                   inr (a, mkAgentOptions (text StateDirectory) (text LiveDirectory) (aa_target a)
                             (aa_klass a) (aa_guarantee a) (aa_number a MaxArtifactBytes) 4 key
                             (aa_authenticate a) (aa_verifyOnStart a) faults)
               end
           end
  | r => inl (mkExit 2 (program +:+ ": " +:+ result_str r))
  end.

(** ** Lemmas *)

Lemma take_expand secret : (0 < length secret)%nat →
  take (length secret) (expand_secret secret) = take 32 secret.
Proof.
  intros Hn. unfold expand_secret. apply list_eq. intros i.
  destruct (decide (i < length secret ∧ i < 32)%nat) as [[Hi H32]|Hi].
  - rewrite !lookup_take_lt by done. rewrite list_lookup_fmap, lookup_seq_lt by done. cbn.
    rewrite Nat.mod_small, Nat.div_small by done. unfold byte_xor. cbn.
    rewrite Z.lxor_0_r, byte_of_val, nth_lookup.
    destruct (lookup_lt_is_Some_2 secret i Hi) as [b ->]. done.
  - rewrite !lookup_ge_None_2; [done|rewrite length_take; lia|].
    rewrite length_take, length_map, length_seq. lia.
Qed.

Lemma key_trimmed_nonblank l : Forall (λ b, key_blank b = false) l → key_trimmed l = l.
Proof. induction 1 as [|b l Hb _ IH]; [done|]. unfold key_trimmed. cbn. by rewrite Hb; cbn; f_equal. Qed.

Section flags_lemmas.
Context {A : Type} (switch : string → A → option A) (valued : list string).
Context (missing : string → Error) (assign : string → string → A → Result A).
Context (authenticate : A → bool).
Hypothesis Hswitch : ∀ flag a a', switch flag a = Some a' →
  authenticate a' = authenticate a ∨ flag = "--insecure-no-auth".
Hypothesis Hassign : ∀ flag value a a', assign flag value a = Ok a' → authenticate a' = authenticate a.

(** Only the switch turns authentication off. *)
Lemma parse_flags_authenticate argv a a' :
  parse_flags switch valued missing assign argv a = Ok (Some a') →
  authenticate a' = authenticate a ∨ "--insecure-no-auth" ∈ argv.
Proof.
  remember (length argv) as n eqn:Hn. revert argv Hn a. induction n as [n IH] using lt_wf_ind.
  intros [|flag rest] Hn a; cbn [parse_flags]; [intros [= ->]; by left|].
  case_decide; [done|]. cbn [length] in Hn. case_decide.
  - destruct rest as [|value rest]; [done|]. destruct (assign flag value a) as [a1| |] eqn:Ha; [|done..].
    cbn [try_bind]. intros Hrun. cbn [length] in Hn.
    destruct (IH (length rest) ltac:(lia) rest eq_refl a1 Hrun) as [->|Hin].
    + left. by eapply Hassign.
    + right. set_solver.
  - destruct (switch flag a) as [a1|] eqn:Hs; [|done]. intros Hrun.
    destruct (IH (length rest) ltac:(lia) rest eq_refl a1 Hrun) as [->|Hin].
    + destruct (Hswitch _ _ _ Hs) as [->| ->]; [by left|]. right. set_solver.
    + right. set_solver.
Qed.
End flags_lemmas.

Lemma controller_keeps_authenticate flag value a a' :
  controller_assign flag value a = Ok a' → ca_authenticate a' = ca_authenticate a.
Proof.
  unfold controller_assign. case_decide.
  { destruct (parseNodeId value); cbn; by intros [= <-]. }
  case_decide. { destruct (parseEndpoint value); cbn; by intros [= <-]. }
  case_decide; [by intros [= <-]|]. destruct (controller_text flag); [by intros [= <-]|].
  destruct (controller_number flag) as [[f convert]|]; [|by intros [= <-]].
  destruct (parseU64 value); cbn; by intros [= <-].
Qed.
Lemma agent_keeps_authenticate flag value a a' :
  agent_assign flag value a = Ok a' → aa_authenticate a' = aa_authenticate a.
Proof.
  unfold agent_assign. case_decide.
  { destruct (parseTargetId value); cbn; by intros [= <-]. }
  case_decide. { destruct (parseTargetClass value); cbn; by intros [= <-]. }
  case_decide. { destruct (parseApplyGuarantee value); cbn; by intros [= <-]. }
  case_decide. { destruct (parseEndpoint value); cbn; by intros [= <-]. }
  case_decide. { destruct (wrapping_digits _ value 0); cbn; by intros [= <-]. }
  case_decide. { destruct (signed_digits _ value 0); cbn; by intros [= <-]. }
  destruct (agent_text flag); by intros [= <-].
Qed.

Lemma configure_key_cases program authenticate keyFile fs key :
  configure_key program authenticate keyFile fs = inr key →
  authenticate = false ∨ authenticate = true ∧ loadKey keyFile fs = Ok key.
Proof.
  unfold configure_key. destruct authenticate; cbn [negb]; [|by left]. case_decide; [done|].
  destruct (loadKey keyFile fs); [|done..]. intros [= ->]. by right.
Qed.

(** ** Properties *)

(** The shared secret. A file with the documented form, the key in 64
    hexadecimal digits, with blanks and newlines anywhere, gives exactly that
    key; any other file with something in it is a raw secret, which is the
    beginning of the key it gives, so that secrets of one length up to 32 give
    different keys - and secrets that agree in their first 32 characters give
    the same. *)
Theorem loadKey_spec fs path content
    (Hfile : fs !! path = Some content) (Hsize : zlen content <= 4096) :
  (∀ key, length key = 32%nat → key_trimmed content = bytes_of_string (toHex key) →
     loadKey path fs = Ok key)
  ∧ let secret := key_trimmed content in
    ((length secret ≠ 64%nat ∨ fromHex (string_of_bytes secret) 32 = None) → secret ≠ [] →
     ∃ key, loadKey path fs = Ok key ∧ take (length secret) key = take 32 secret
       ∧ ((32 <= length secret)%nat → key = take 32 secret))
  ∧ (secret = [] → is_ok (loadKey path fs) = false).
Proof.
  assert ((readFileBounded path 4096 fs).2 = Ok content) as Hread.
  { unfold readFileBounded. rewrite Hfile. cbn. by destruct (Z.gtb_spec (zlen content) 4096); [lia|]. }
  unfold loadKey. rewrite Hread. cbn [try_bind]. split; [|cbv zeta; split].
  - intros key Hlen Htrim. rewrite Htrim, length_bytes_of_string, length_toHex, Hlen. cbn.
    by rewrite string_of_bytes_of_string, <- Hlen, fromHex_toHex.
  - intros Hraw Hne. set (secret := key_trimmed content) in *.
    assert ((if (length secret =? 64)%nat then fromHex (string_of_bytes secret) 32 else None) = None) as ->.
    { destruct (Nat.eqb_spec (length secret) 64); [|done]. by destruct Hraw. }
    exists (expand_secret secret). destruct secret as [|b l] eqn:Es; [done|]. rewrite <- Es in *.
    assert (0 < length secret)%nat as Hpos by (rewrite Es; cbn; lia).
    split_and!; [done|by apply take_expand|]. intros Hlong.
    rewrite <- (take_expand secret Hpos). symmetry. apply take_ge.
    unfold expand_secret. by rewrite length_map, length_seq.
  - by intros ->.
Qed.

Definition example_secret : list byte := repeat Byte.x07 32.
Lemma loadKey_spec_witness :
  loadKey "key" {["key" := bytes_of_string (toHex example_secret +:+ String.String "010" "")]}
  = Ok example_secret.
Proof.
  apply (proj1 (loadKey_spec {["key" := bytes_of_string (toHex example_secret +:+ String.String "010" "")]}
    "key" _ (lookup_singleton_eq _ _) ltac:(vm_compute; discriminate)) example_secret eq_refl).
  vm_compute. reflexivity.
Defined.

(** C35: authentication is on unless it is turned off by name. Options that a
    main function reaches hold the key of the key file, unless the switch that
    disables authentication is among the arguments: no other argument, default
    or failure leaves a program running without a key. *)
Theorem authentication_explicit argv log_opens fs :
  (∀ a opts, controller_configure argv log_opens fs = inr (a, opts) →
     Distributor.o_authenticate opts = true ∧ loadKey (ca_text a KeyFile) fs = Ok (Distributor.o_key opts)
     ∨ Distributor.o_authenticate opts = false ∧ "--insecure-no-auth" ∈ argv)
  ∧ (∀ a opts, agent_configure argv log_opens fs = inr (a, opts) →
     Agent.o_authenticate opts = true ∧ loadKey (aa_text a KeyFile) fs = Ok (Agent.o_key opts)
     ∨ Agent.o_authenticate opts = false ∧ "--insecure-no-auth" ∈ argv).
Proof.
  split; intros a opts.
  - unfold controller_configure. destruct (controller_parseArgs argv) as [[a1|]| |] eqn:Hp; [|done..].
    destruct (_ || _); [done|]. destruct (configure_common _ _ _) as [|faults]; [done|].
    destruct (configure_key _ _ _ _) as [|key] eqn:Hk; [done|]. intros [= <- <-]. cbn.
    destruct (configure_key_cases _ _ _ _ _ Hk) as [Hoff|[Hon Hload]]; [right|by left].
    split; [done|]. apply (parse_flags_authenticate _ _ _ _ ca_authenticate) in Hp as [Hsame|Hin]; [|done|..].
    + rewrite Hoff in Hsame. discriminate.
    + intros flag b b'. unfold controller_switch. case_decide; [|done]. intros _. by right.
    + apply controller_keeps_authenticate.
  - unfold agent_configure. destruct (agent_parseArgs argv) as [[a1|]| |] eqn:Hp; [|done..].
    destruct (_ || _); [done|]. destruct (configure_common _ _ _) as [|faults]; [done|].
    destruct (configure_key _ _ _ _) as [|key] eqn:Hk; [done|]. intros [= <- <-]. cbn.
    destruct (configure_key_cases _ _ _ _ _ Hk) as [Hoff|[Hon Hload]]; [right|by left].
    split; [done|]. apply (parse_flags_authenticate _ _ _ _ aa_authenticate) in Hp as [Hsame|Hin]; [|done|..].
    + rewrite Hoff in Hsame. discriminate.
    + intros flag b b'. unfold agent_switch. case_decide; [intros _; by right|].
      case_decide; [|done]. intros [= <-]. by left.
    + apply agent_keeps_authenticate.
Qed.

Definition example_argv : list string :=
  ["--node"; "n1"; "--state"; "s"; "--artifacts"; "a"; "--key-file"; "key"].
Definition example_configured : Exit + (ControllerArguments * DistributorOptions) :=
  controller_configure example_argv true {["key" := [Byte.x41]]}.
Lemma authentication_explicit_witness :
  ∃ a opts, example_configured = inr (a, opts)
    ∧ (Distributor.o_authenticate opts = true
         ∧ loadKey (ca_text a KeyFile) {["key" := [Byte.x41]]} = Ok (Distributor.o_key opts)
       ∨ Distributor.o_authenticate opts = false ∧ "--insecure-no-auth" ∈ example_argv).
Proof.
  destruct example_configured as [exit|[a opts]] eqn:E.
  - exfalso. revert E. vm_compute. discriminate.
  - exists a, opts. split; [reflexivity|].
    exact (proj1 (authentication_explicit example_argv true {["key" := [Byte.x41]]}) a opts E).
Defined.

(** A number past the range of its field is taken modulo the range. *)
Example attempts_wrap :
  match controller_parseArgs ["--max-attempts"; "4294967297"] with
  | Ok (Some a) => ca_number a MaxAttempts = 1
  | _ => False
  end
  ∧ parseU64 "18446744073709551617" = Ok 1.
Proof. vm_compute. split; reflexivity. Qed.
