(* ===== verification/Cfctl.v ===== *)
(** * The inspection program

    Models apps/cfctl_main.cpp: its arguments, the commands it answers from a
    state directory without a controller, the digest of a file, and the choice
    between the two modes. The texts of [--help], of [--version] and of a call
    without a command are not kept. *)

From stdpp Require Import functions gmap.
From Stdlib Require Import Strings.Byte Strings.Ascii.
From S2P Require Import Plan.
From S2P Require Import Prelude Result StdMap Checked Hash Ids Text Codec Lifecycle Policy Files.
From S2P Require Import Journal Snapshot Artifact ArtifactStore Endpoint FaultPlan AgentPaths Frame.
From S2P Require Import Log Records.
From S2P Require Import Messages Protocol State Convergence Store Recovery Offline Effects.
From S2P Require Import Distributor DistributorControl DistributorExample Control ControlLogic CommandLine.

(** ** Arguments *)

Record CfctlArguments := mkCfctlArguments {
  ct_endpoint : string;
  ct_text : Text → string;
  ct_authenticate : bool;
  ct_command : list string;
}.
Definition cfctl_default_text (f : Text) : string :=
  match f with LogLevelText => "warn" | _ => "" end.
Definition CfctlArguments_default : CfctlArguments :=
  mkCfctlArguments "" cfctl_default_text true [].

Definition cfctl_text (flag : string) : option Text :=
  if decide (flag = "--state") then Some StateDirectory
  else if decide (flag = "--artifacts") then Some ArtifactRoot
  else if decide (flag = "--key-file") then Some KeyFile
  else if decide (flag = "--log-level") then Some LogLevelText
  else None.
(** The flag that takes the value, and what the value changes. *)
Definition cfctl_assign (flag : string) (a : CfctlArguments) : option (string → CfctlArguments) :=
  if decide (flag = "--endpoint")
  then Some (λ v, mkCfctlArguments v (ct_text a) (ct_authenticate a) (ct_command a))
  else (λ f v, mkCfctlArguments (ct_endpoint a) (<[f := v]> (ct_text a)) (ct_authenticate a)
                 (ct_command a)) <$> cfctl_text flag.

Definition cfctl_error (text : string) : string := "cfctl: " +:+ text.

Fixpoint cfctl_parseArgs (argv : list string) (a : CfctlArguments) : Exit + CfctlArguments :=
  match argv with
  | [] => inr a
  | flag :: rest =>
      if decide (flag ∈ ["--help"; "-h"; "--version"]) then inl (mkExit 0 "")
      else if bool_decide (flag = "--endpoint") && negb (bool_decide (ct_endpoint a = ""))
      then inl (mkExit 2 (cfctl_error "--endpoint given twice"))
      else match cfctl_assign flag a with
           | Some assign =>
               match rest with
               | [] => inl (mkExit 2 (cfctl_error (flag +:+ " needs a value")))
               | v :: rest => cfctl_parseArgs rest (assign v)
               end
           | None =>
               if decide (flag = "--insecure-no-auth") then
                 cfctl_parseArgs rest
                   (mkCfctlArguments (ct_endpoint a) (ct_text a) false (ct_command a))
               else if (2 <? String.length flag)%nat && is_prefix "--" flag
               then inl (mkExit 2 (cfctl_error ("unknown argument '" +:+ flag +:+ "'")))
               else
                 cfctl_parseArgs rest
                   (mkCfctlArguments (ct_endpoint a) (ct_text a) (ct_authenticate a)
                      (ct_command a ++ [flag]))
           end
  end.

(** ** Texts *)

Definition renderTarget (r : TargetRuntime) : string :=
  str (tr_id r) +:+ " class=" +:+ targetClassName (tr_klass r)
  +:+ " guarantee=" +:+ applyGuaranteeName (tr_guarantee r)
  +:+ " term=" +:+ to_string (value (tr_term r))
  +:+ " committed-generation=" +:+ generation_or_none "none" (tr_committedGeneration r)
  +:+ " contact-current-in-this-record="
  +:+ (if tr_contactEstablishedThisProcess r then "yes" else "no (persisted evidence)").
Definition renderTargets (s : ControllerState) : string :=
  counted_lines "targets" renderTarget (map snd (cs_targets s)).

Definition renderDelivery (d : DeliveryRecord) : string :=
  str (dr_id d) +:+ " target=" +:+ str (dr_target d) +:+ " key=" +:+ str (dr_key d)
  +:+ " generation=" +:+ to_string (value (dr_generation d))
  +:+ " digest=" +:+ shortDigest (dr_digest d)
  +:+ " state=" +:+ deliveryStateName (dr_state d)
  +:+ " attempt=" +:+ to_string (value (dr_attempt d))
  +:+ " failures=" +:+ to_string (dr_failures d)
  +:+ (if bool_decide (dr_lastError d = ErrorCode.Ok) then ""
       else " last-error=" +:+ errorCodeName (dr_lastError d))
  +:+ (if dr_acknowledgedFromReconcile d then " evidence=reconciliation" else "").
Definition renderDeliveries (s : ControllerState) (pendingOnly : bool) : string :=
  counted_lines (if pendingOnly then "pending" else "deliveries") renderDelivery
    (List.filter (λ d, negb (pendingOnly && negb (isPendingState (dr_state d))))
       (map snd (cs_deliveries s))).

Definition renderArtifacts (s : ControllerState) : string :=
  counted_lines "artifacts" renderArtifactMetadata (map snd (cs_artifacts s)).

Definition renderStatus (s : ControllerState) : string :=
  line ("node-id: " +:+ str (cs_nodeId s))
  +:+ line ("authority-epoch: " +:+ to_string (value (cs_epoch s)))
  +:+ line ("incarnation: " +:+ toHex (opaque_bytes (cs_incarnation s)))
  +:+ line ("targets: " +:+ to_string (zlen (cs_targets s)))
  +:+ line ("deliveries: " +:+ to_string (zlen (cs_deliveries s))).

Definition renderOfflineDivergence (report : ConvergenceReport) : string :=
  line ("fingerprint: " +:+ ConvergenceReport_fingerprint report)
  +:+ lines (λ l, str (ln_target l) +:+ " key=" +:+ str (ln_key l)
                  +:+ " desired=" +:+ to_string (value (ln_desiredGeneration l))
                  +:+ " current=" +:+ generation_or_none "none" (ln_currentGeneration l)
                  +:+ " state=" +:+ deliveryStateName (ln_state l))
        (cr_lineages report).

Definition renderJournal (recovery : JournalRecovery) (records : list JournalRecord) : string :=
  line ("journal: " +:+ JournalRecovery_render recovery)
  +:+ lines (λ r, to_string (value (rec_sequence r)) +:+ " " +:+ journalRecordTypeName (rec_type r)
                  +:+ " bytes=" +:+ to_string (zlen (rec_payload r))) records.

(** ** The commands *)

(** The answers of the operating system: the clock, what the artifact store
    meets, where a plain read of a file stops with an error, and the connection
    to an endpoint. *)
Record CfctlEnv := mkCfctlEnv {
  ce_now : Z;
  ce_mkdir_fails : bool;
  ce_remove_fails : string → bool;
  ce_listing : string → FileSystem → list string;
  ce_verify : Digest → VerifyFaults;
  ce_read_error : option nat;
  ce_connection : Endpoint → Env;
  ce_world : World;
}.

Section cfctl.
Context (env : CfctlEnv).

Definition offline_store (root : string) : ArtifactOptions :=
  mkArtifactOptions root (64 * 1024 * 1024) (4 * 1024 * 1024 * 1024) 4096 (64 * 1024).

(** [verify-artifacts]: the store is opened, not only read. *)
Definition offline_verify (detail root : string) (fs : FileSystem) : FileSystem * Result string :=
  if decide (root = "")
  then (fs, fail ErrorCode.MissingField "verify-artifacts offline needs --artifacts <dir>")
  else
    let '(fs1, opened) := artifact_open (offline_store root) (ce_mkdir_fails env)
                            (ce_remove_fails env) (ce_listing env root) fs in
    match opened with
    | Ok (store, _) =>
        let '(fs2, _, results) := verifyAll (ce_verify env) store fs1 in
        (fs2, Ok (detail +:+ renderVerification results))
    | Fail e => (fs1, Fail e)
    | Abort why => (fs1, Abort why)
    end.

Definition recovery_line (detail : string) : string :=
  if decide (detail = "") then "" else line ("recovery: " +:+ detail).

Definition runOffline (a : CfctlArguments) (request : ControlRequest) (fs : FileSystem)
    : FileSystem * Result string :=
  let dir := ct_text a StateDirectory in
  let '(detail, loaded) := loadControllerStateOffline dir fs in
  match loaded with
  | Fail e => (fs, Fail e)
  | Abort why => (fs, Abort why)
  | Ok s =>
      let detail := recovery_line detail in
      let named name := bool_decide (rq_command request = name) in
      let report := buildConvergenceReport s defaultPolicy (ce_now env) in
      if named "status" then (fs, Ok (detail +:+ renderStatus s))
      else if named "targets" then (fs, Ok (detail +:+ renderTargets s))
      else if named "deliveries" then (fs, Ok (detail +:+ renderDeliveries s false))
      else if named "pending" then (fs, Ok (detail +:+ renderDeliveries s true))
      else if named "artifacts" then (fs, Ok (detail +:+ renderArtifacts s))
      else if named "converge" then (fs, Ok (detail +:+ ConvergenceReport_render report))
      else if named "divergence" then (fs, Ok (detail +:+ renderOfflineDivergence report))
      else if named "explain" then
        (fs, match rq_arguments request with
             | [] => fail ErrorCode.MissingField "explain needs a target"
             | text :: _ =>
                 let* target := parseTargetId text in
                 Ok (detail +:+ explainTarget s defaultPolicy target (ce_now env))
             end)
      else if named "verify-artifacts" then offline_verify detail (ct_text a ArtifactRoot) fs
      else if named "lifecycle" then (fs, Ok renderTransitionTable)
      else if named "journal" then
        let '(recovery, records) := readFile (dir +:+ "/controller.journal") fs in
        (fs, let* records := records in Ok (detail +:+ renderJournal recovery records))
      else (fs, fail_detail ErrorCode.NotFound
                  "command is not available offline; use --endpoint for operations"
                  (rq_command request))
  end.

(** *** The digest of a file *)

Definition kDigestBlock : nat := Z.to_nat (64 * 1024).
(** [fread] gives a full block as long as there is one. *)
Fixpoint digest_loop (fuel : nat) (h : Sha256.Hasher) (total : Z) (rest : list byte)
    : Sha256.Hasher * Z :=
  match fuel with
  | O => (h, total)
  | S fuel =>
      match take kDigestBlock rest with
      | [] => (h, total)
      | block => digest_loop fuel (Sha256.update h block) ((total + zlen block) mod 2 ^ 64)
                   (drop kDigestBlock rest)
      end
  end.
Definition runDigest (arguments : list string) (fs : FileSystem) : Exit :=
  match arguments with
  | [path] =>
      match fs !! path with
      | None => mkExit 1 (cfctl_error ("cannot open " +:+ path))
      | Some content =>
          let readable := match ce_read_error env with Some n => take n content | None => content end in
          let '(h, total) := digest_loop (S (length readable)) Sha256.init 0 readable in
          if bool_decide (is_Some (ce_read_error env))
          then mkExit 1 (cfctl_error ("read error on " +:+ path))
          else mkExit 0 (line ("digest " +:+ digest_hex (fromBytes (Sha256.finish h)))
                         +:+ line ("size " +:+ to_string total))
      end
  | _ => mkExit 2 (cfctl_error "digest needs exactly one file path")
  end.

(** *** The program *)

Definition exit_of (output : Result string) : Exit :=
  match output with
  | Ok text => mkExit 0 text
  | r => mkExit 1 (cfctl_error (result_str r))
  end.

Definition runOnline (a : CfctlArguments) (request : ControlRequest) (fs : FileSystem) : Exit :=
  match parseEndpoint (ct_endpoint a) with
  | Ok e =>
      match configure_key "cfctl" (ct_authenticate a) (ct_text a KeyFile) fs with
      | inl exit => exit
      | inr key =>
          exit_of (runControlCommand (ce_connection env e) key (ct_authenticate a) request
                     (ce_world env)).2
      end
  | r => mkExit 2 (cfctl_error (result_str r))
  end.

Definition cfctl_main (argv : list string) (fs : FileSystem) : FileSystem * Exit :=
  match cfctl_parseArgs argv CfctlArguments_default with
  | inl exit => (fs, exit)
  | inr a =>
      if decide (parseLogLevel (ct_text a LogLevelText) = None)
      then (fs, mkExit 2 (cfctl_error "unknown log level"))
      else match ct_command a with
           | [] => (fs, mkExit 2 "")
           | command :: arguments =>
               let request := mkControlRequest command arguments in
               if decide (command = "digest") then (fs, runDigest arguments fs)
               else if negb (bool_decide (ct_endpoint a = "")) then (fs, runOnline a request fs)
               else if negb (bool_decide (ct_text a StateDirectory = ""))
               then let '(fs1, output) := runOffline a request fs in (fs1, exit_of output)
               else (fs, mkExit 2 (cfctl_error "either --endpoint or --state is required"))
           end
  end.
End cfctl.

(** ** Lemmas *)

(** *** The digest *)

#[local] Opaque kDigestBlock.

Lemma digest_blocks fuel h total rest :
  (length rest < fuel)%nat →
  ∃ blocks, concat blocks = rest
    ∧ digest_loop fuel h total rest = (foldl Sha256.update h blocks, foldl (λ t b, (t + zlen b) mod 2 ^ 64) total blocks).
Proof.
  revert h total rest. induction fuel as [|fuel IH]; intros h total rest Hf; [lia|]. cbn [digest_loop].
  assert (take kDigestBlock rest ++ drop kDigestBlock rest = rest) as Hsplit by apply take_drop.
  destruct (take kDigestBlock rest) as [|b l] eqn:Hb.
  - exists []. split; [|done]. destruct rest; [done|discriminate Hb].
  - destruct (IH (Sha256.update h (b :: l)) ((total + zlen (b :: l)) mod 2 ^ 64) (drop kDigestBlock rest))
      as (blocks & Hc & Hl).
    { rewrite <- Hsplit in Hf. rewrite length_app in Hf. cbn in Hf. lia. }
    exists ((b :: l) :: blocks). cbn [concat foldl]. by rewrite Hc, Hl.
Qed.

Lemma total_blocks blocks total :
  foldl (λ t b, (t + zlen b) mod 2 ^ 64) (total mod 2 ^ 64) blocks
  = (total + zlen (concat (A := byte) blocks)) mod 2 ^ 64.
Proof.
  revert total. induction blocks as [|b blocks IH]; intros total; cbn [foldl concat].
  - by rewrite Z.add_0_r.
  - rewrite Zplus_mod_idemp_l, IH, zlen_app. f_equal. lia.
Qed.

(** Hashing and counting in blocks is hashing and counting. *)
Lemma digest_loop_spec rest :
  let '(h, total) := digest_loop (S (length rest)) Sha256.init 0 rest in
  fromBytes (Sha256.finish h) = Digest_ofContent rest ∧ total = zlen rest mod 2 ^ 64.
Proof.
  destruct (digest_blocks (S (length rest)) Sha256.init 0 rest) as (blocks & Hc & ->); [lia|].
  split.
  - unfold Digest_ofContent. rewrite <- Hc, <- sha256_chunks_concat. done.
  - pose proof (total_blocks blocks 0) as H. rewrite Z.mod_0_l in H by done. by rewrite H, Hc.
Qed.

(** *** What offline reading gives *)

(** Every target under its own name, with stored evidence only. *)
Definition historical (s : ControllerState) : Prop := keyed tr_id runtime_stored (cs_targets s).

Lemma apply_target_historical r s : runtime_stored r → historical s → historical (apply_target r s).
Proof.
  intros Hr Hs. unfold historical, apply_target in *. cbn [cs_set_targets cs_targets].
  destruct (map_find (tr_id r) (cs_targets s)) as [e|] eqn:He; [|by apply keyed_assign].
  destruct (keyed_find _ _ _ _ _ Hs He) as [_ [_ Hc]]. rewrite Hc.
  apply (keyed_assign tr_id runtime_stored (set_contact false r)); [|done].
  split; [apply set_contact_wf, Hr|done].
Qed.

Lemma step_historical type : st_keeps historical (Controller_apply_step type).
Proof.
  destruct type; simpl;
    repeat lazymatch goal with
    | |- st_keeps _ (st_bind (st_read (p_check _ _)) _) => apply keeps_check; intros ?
    | |- st_keeps _ (st_bind (st_read ?p) _) =>
        let I := constr:(_ : Wire _ p _) in
        apply (@keeps_read _ _ _ _ _ _ _ I); intros ? ?
    | |- st_keeps _ (st_bind (st_set _) _) => apply keeps_set_bind; [by intros ?|]
    | |- st_keeps _ (st_set (apply_target _)) =>
        apply keeps_set; intros s; by apply apply_target_historical
    | |- st_keeps _ (st_set _) =>
        apply keeps_set; intros s Hs; first [exact Hs | by apply keyed_erase]
    | |- st_keeps _ (st_read _) => apply keeps_fail
    end.
Qed.

Lemma snapshot_historical data s : Controller_decodeSnapshot data = Ok s → historical s.
Proof.
  unfold Controller_decodeSnapshot, decode_all. intros H. inv_try. destruct x as [s' r]. inv_try.
  unfold read_controller_snapshot in H. inv_wire.
  repeat match goal with H : _ ∧ Forall _ _ |- _ => destruct H as [_ H] end.
  apply keyed_build; [done|apply keyed_nil].
Qed.

Lemma replay_historical covered s n rs s' n' :
  historical s → replay covered s n rs = Ok (s', n') → historical s'.
Proof.
  revert s n. induction rs as [|r rs IH]; intros s n Hs; cbn [replay]; [by intros [= <- _]|].
  destruct (bool_decide _); [by apply IH|]. destruct (_ <=? _); [by apply IH|].
  pose proof (keeps_run _ _ s (rec_payload r) (step_historical (rec_type r)) Hs) as Hk.
  change (sc_apply s (rec_type r) (rec_payload r))
    with (run_apply (Controller_apply_step (rec_type r)) s (rec_payload r)).
  destruct (run_apply _ s _) as [s1 [[]| |]]; [|done..]. cbn [try_bind fst] in *.
  by apply IH.
Qed.

Lemma offline_historical dir fs detail s :
  loadControllerStateOffline dir fs = (detail, Ok s) → historical s.
Proof.
  unfold loadControllerStateOffline, loadOffline.
  destruct (SnapshotFile_load _ fs) as [snapshot notes].
  destruct (offline_loaded snapshot) as [loaded| |] eqn:Hl; [|done..].
  assert (historical (loaded_state loaded)) as Hs.
  { destruct snapshot as [l| |]; cbn in Hl; [|injection Hl as <-; apply keyed_nil..].
    destruct (Controller_decodeSnapshot (payload l)) as [s0| |] eqn:Hd; [|done..].
    injection Hl as <-. by apply (snapshot_historical (payload l)). }
  destruct (readFile _ fs) as [recovery [records| |]]; [|done..].
  destruct (_ >? _); [done|].
  destruct (replay _ _ 0 records) as [[s' n]| |] eqn:Hr; [|done..]. intros [= _ <-].
  by apply (replay_historical _ _ _ _ _ _ Hs Hr).
Qed.

(** *** Files *)

Lemma sweep_frame fails paths fs removed p :
  p ∉ paths → (sweep fails paths fs removed).1 !! p = fs !! p.
Proof.
  revert fs removed. induction paths as [|path paths IH]; intros fs removed Hp; [done|].
  apply not_elem_of_cons in Hp as [Hne Hp]. cbn [sweep]. destruct (_ && _); [|by apply IH].
  rewrite IH by done. by rewrite lookup_delete_ne.
Qed.

Lemma below_root_append root x : below_root root (root +:+ "/" +:+ x) = true.
Proof. unfold below_root. rewrite <- append_assoc. apply is_prefix_append. Qed.

Lemma touched_below root suffix d p : touched root suffix d p → below_root root p = true.
Proof.
  intros [->|[x ->]].
  - apply (below_root_append root ("payload/.staging-" +:+ toHex suffix +:+ ".part")).
  - unfold artifactPath. rewrite !append_assoc.
    apply (below_root_append root ("payload/" +:+ shardOf d +:+ "/" +:+ digest_hex d +:+ x)).
Qed.

Lemma verify_entries_frame faults root p entries st fs :
  below_root root p = false → ao_root (sr_options st) = root →
  (verify_entries faults entries st fs).1.1 !! p = fs !! p.
Proof.
  intros Hp. revert st fs. induction entries as [|m entries IH]; intros st fs Hr; [done|].
  cbn [verify_entries].
  assert (¬ touched root [] (md_digest m) p) as Hno by (intros Ht%touched_below; congruence).
  pose proof (verify_frame root [] (md_digest m) p Hno (faults (md_digest m)) st fs Hr) as Hf.
  destruct (verify (faults (md_digest m)) (md_digest m) st fs) as [[fs1 st1] status] eqn:Hv.
  cbn [fst] in Hf. 
  assert (ao_root (sr_options st1) = root) as Hr1
    by (apply verify_evolves in Hv as [->| ->]; by rewrite ?forget_options).
  specialize (IH st1 fs1 Hr1).
  destruct (verify_entries faults entries st1 fs1) as [[fs2 st2] results]. cbn [fst] in *.
  by rewrite IH.
Qed.

(** Listings of the store are listings of files below its root. *)
Definition lists_root (env : CfctlEnv) : Prop :=
  ∀ root fs, Forall (λ path, below_root root path = true) (ce_listing env root fs).

Lemma offline_verify_frame env detail root fs p :
  lists_root env → below_root root p = false →
  (offline_verify env detail root fs).1 !! p = fs !! p.
Proof.
  intros Hlist Hp. unfold offline_verify. case_decide; [done|]. unfold artifact_open.
  rewrite decide_False by done. cbn [ao_root offline_store ao_maxArtifactBytes ao_readChunkBytes].
  change ((64 * 1024 * 1024 =? 0) || (64 * 1024 =? 0)) with false. cbv iota.
  destruct (ce_mkdir_fails env); [done|].
  pose proof (sweep_frame (ce_remove_fails env) (ce_listing env root fs) fs 0 p) as Hs.
  destruct (sweep _ _ fs 0) as [fs1 removed]. cbn [fst] in Hs. rewrite <- Hs.
  - unfold loadIndex. set (st := mkArtifactStore _ _ _).
    pose proof (verify_entries_frame (ce_verify env) root p (sr_index st) st fs1 Hp eq_refl) as Hv.
    unfold verifyAll. by destruct (verify_entries _ _ st fs1) as [[fs2 st2] results].
  - intros Hin. pose proof (proj1 (list.Forall_forall _ _) (Hlist root fs) p Hin) as Hb. congruence.
Qed.

(** *** The same answer in both modes *)

(** The text after the line that tells how the state was recovered. *)
Definition prefixed (prefix : string) (r : Result string) : Result string :=
  let* text := r in Ok (prefix +:+ text).

(** The commands whose answer is a function of the state and the clock. *)
Definition shared_command (request : ControlRequest) : Prop :=
  rq_command request = "converge" ∨ rq_command request = "explain" ∧ rq_arguments request ≠ [].

(** What a live controller answers to such a command. *)
Lemma online_answer opts e port request w s now :
  shared_command request → o_policy opts = defaultPolicy →
  shared_state (env_others e (w_calls w) (w_shared w)) = s → env_now e (S (w_calls w)) = now →
  (executeControlCommand opts e port request w).2
  = if decide (rq_command request = "converge")
    then Ok (ConvergenceReport_render (buildConvergenceReport s defaultPolicy now))
    else match rq_arguments request with
         | [] => fail ErrorCode.MissingField "explain needs a target id"
         | text :: _ =>
             let* target := parseTargetId text in Ok (explainTarget s defaultPolicy target now)
         end.
Proof.
  intros Hshared Hp <- <-. destruct request as [command arguments]. destruct Hshared as [E|[E Hargs]];
    cbn [rq_command rq_arguments] in *; subst command.
  - change (executeControlCommand opts e port (mkControlRequest "converge" arguments) w)
      with ((let& report := convergence opts e in s_ret (ConvergenceReport_render report)) w).
    cbn. by rewrite Hp.
  - destruct arguments as [|text rest]; [done|].
    change (executeControlCommand opts e port (mkControlRequest "explain" (text :: rest)) w)
      with ((let& target := s_lift (parseTargetId text) in explain opts e target) w).
    cbn. destruct (parseTargetId text) as [target| |]; cbn; [|done..]. by rewrite Hp.
Qed.

(** The same command on a state directory. *)
Lemma offline_answer env a request fs detail s :
  shared_command request → loadControllerStateOffline (ct_text a StateDirectory) fs = (detail, Ok s) →
  (runOffline env a request fs).2
  = prefixed (recovery_line detail)
      (if decide (rq_command request = "converge")
       then Ok (ConvergenceReport_render (buildConvergenceReport s defaultPolicy (ce_now env)))
       else match rq_arguments request with
            | [] => fail ErrorCode.MissingField "explain needs a target id"
            | text :: _ =>
                let* target := parseTargetId text in
                Ok (explainTarget s defaultPolicy target (ce_now env))
            end).
Proof.
  intros Hshared Hl. unfold runOffline. rewrite Hl. destruct Hshared as [->|[-> Hargs]]; [done|].
  cbn. destruct (rq_arguments request) as [|text rest]; [done|].
  by destruct (parseTargetId text).
Qed.

(** ** Properties *)

(** C29: inspection without a controller. (1) No command but
    [verify-artifacts] changes a file, and that one changes none outside the
    artifact store. (2) Commands that change a controller are refused. (3) The
    state that is read never claims a current contact with a target. (4) On a
    directory that opens, [converge] and [explain] answer exactly what a
    controller with that state, the default policy and the same clock answers
    over its control channel, after the line that tells how the state was
    recovered. *)
Theorem offline_inspection env a fs :
  let dir := ct_text a StateDirectory in
  (∀ request, rq_command request ≠ "verify-artifacts" → (runOffline env a request fs).1 = fs)
  ∧ (lists_root env → ∀ request p, below_root (ct_text a ArtifactRoot) p = false →
     (runOffline env a request fs).1 !! p = fs !! p)
  ∧ (∀ request, rq_command request ∈ ["plan"; "retire"; "verify"; "shutdown"] →
     is_ok (runOffline env a request fs).2 = false)
  ∧ (∀ detail s id r, loadControllerStateOffline dir fs = (detail, Ok s) →
     findTarget id s = Some r → tr_contactEstablishedThisProcess r = false)
  ∧ (∀ ho so cs limit fs' st recovery opts e port request w,
     let o := mkStoreOptions dir "controller" limit in
     fs !! journalPath o ≠ None → store_open ho so cs o fs = (fs', Ok (st, recovery)) →
     shared_command request → o_policy opts = defaultPolicy →
     shared_state (env_others e (w_calls w) (w_shared w)) = state_ st →
     env_now e (S (w_calls w)) = ce_now env →
     (runOffline env a request fs).2
     = prefixed (recovery_line (loadControllerStateOffline dir fs).1)
         (executeControlCommand opts e port request w).2).
Proof.
  cbv zeta. split; [|split; [|split; [|split]]].
  - intros request Hne. unfold runOffline.
    destruct (loadControllerStateOffline _ fs) as [detail [s| |]]; [|done..]. cbv zeta.
    rewrite (bool_decide_eq_false_2 _ Hne). repeat case_match; done.
  - intros Hlist request p Hp. unfold runOffline.
    destruct (loadControllerStateOffline _ fs) as [detail [s| |]]; [|done..]. cbv zeta.
    destruct (bool_decide (rq_command request = "verify-artifacts")).
    + repeat (destruct (bool_decide (rq_command request = _)); [done|]).
      by apply offline_verify_frame.
    + repeat case_match; done.
  - intros request Hin. unfold runOffline.
    destruct (loadControllerStateOffline _ fs) as [detail [s| |]]; [|done..]. cbv zeta.
    repeat (apply elem_of_cons in Hin as [->|Hin]; [done|]). by apply not_elem_of_nil in Hin.
  - intros detail s id r Hl Hf. destruct (keyed_find _ _ _ _ _ (offline_historical _ _ _ _ Hl) Hf) as [_ Hr].
    apply Hr.
  - intros ho so cs limit fs' st recovery opts e port request w Hj Hopen Hshared Hp Hs Hn.
    pose proof (open_offline "durable state has a gap between the newest loadable snapshot and the journal base"
                  _ _ _ _ _ _ _ _ Hj Hopen) as Hread.
    change ((loadControllerStateOffline (ct_text a StateDirectory) fs).2 = Ok (state_ st)) in Hread.
    destruct (loadControllerStateOffline _ fs) as [detail loaded] eqn:Hl. cbn [fst snd] in *. subst loaded.
    rewrite (offline_answer env a request fs detail (state_ st)) by done.
    by rewrite (online_answer opts e port request w (state_ st) (ce_now env)).
Qed.

(** The digest of a file. For a readable file the program prints the
    SHA-256 digest and the size of its whole content, however many blocks it
    takes to read - the digest under which an artifact of that content is
    ingested; for a missing or unreadable file it prints neither. *)
Theorem digest_exact env argv path fs
    (Hargs : cfctl_parseArgs argv CfctlArguments_default
             = inr (mkCfctlArguments "" cfctl_default_text true ["digest"; path])) :
  match fs !! path, ce_read_error env with
  | Some content, None =>
      zlen content < 2 ^ 64 →
      cfctl_main env argv fs
      = (fs, mkExit 0 ("digest " +:+ digest_hex (Digest_ofContent content) +:+ newline
                       +:+ "size " +:+ to_string (zlen content) +:+ newline))
  | None, _ => cfctl_main env argv fs = (fs, mkExit 1 ("cfctl: cannot open " +:+ path))
  | Some _, Some _ => cfctl_main env argv fs = (fs, mkExit 1 ("cfctl: read error on " +:+ path))
  end.
Proof.
  assert (cfctl_main env argv fs = (fs, runDigest env [path] fs)) as ->.
  { unfold cfctl_main. by rewrite Hargs. }
  unfold runDigest. destruct (fs !! path) as [content|]; [|done].
  destruct (ce_read_error env) as [n|]; cbv zeta.
  - by destruct (digest_loop _ _ _ _).
  - intros Hsize. pose proof (digest_loop_spec content) as H.
    destruct (digest_loop _ _ 0 content) as [h total]. destruct H as [-> ->].
    rewrite Z.mod_small by (unfold zlen in *; lia). cbn [bool_decide]. unfold line.
    rewrite bool_decide_false by (intros []; discriminate). do 2 f_equal. by rewrite !append_assoc.
Qed.

(** A state directory with one note, next to an artifact store. *)
Definition example_env (now : Z) : CfctlEnv :=
  mkCfctlEnv now false (λ _, false)
    (λ root fs, List.filter (below_root root) (map fst (map_to_list fs)))
    (λ _, no_verify_faults) None (λ _, DistributorExample.calm_env [])
    (DistributorExample.world_of DistributorExample.empty_shared).
Definition example_arguments : CfctlArguments :=
  mkCfctlArguments "" (<[ArtifactRoot := "store"]> (<[StateDirectory := "state"]> cfctl_default_text))
    true ["converge"].

Lemma digest_exact_witness :
  cfctl_main (example_env 0) ["digest"; "f"] {["f" := bytes_of_string "abc"]}
  = ({["f" := bytes_of_string "abc"]},
     mkExit 0 ("digest " +:+ digest_hex (Digest_ofContent (bytes_of_string "abc")) +:+ newline
               +:+ "size 3" +:+ newline)).
Proof.
  pose proof (digest_exact (example_env 0) ["digest"; "f"] "f" {["f" := bytes_of_string "abc"]} eq_refl) as H.
  rewrite lookup_singleton_eq in H. exact (H eq_refl).
Defined.

(** The directory, opened again. *)
Definition example_directory : FileSystem :=
  match Recovery.example_committed with Some (fs, _) => fs | None => ∅ end.
Definition example_reopened
    : FileSystem * Result (Store ControllerState * StoreRecovery) :=
  store_open Written (Restarted Written) EndsInClose (mkStoreOptions "state" "controller" 4194304)
    example_directory.
Definition example_world : World :=
  match example_reopened.2 with
  | Ok (st, _) => world_of (set_store st empty_shared)
  | _ => world_of empty_shared
  end.

Lemma offline_inspection_witness :
  ∃ fs' st r, example_reopened = (fs', Ok (st, r))
    ∧ (runOffline (example_env 1700000000001) example_arguments (mkControlRequest "converge" [])
         example_directory).2
      = prefixed (recovery_line (loadControllerStateOffline "state" example_directory).1)
          (executeControlCommand DistributorExample.example_options (calm_env []) 9010
             (mkControlRequest "converge" []) example_world).2.
Proof.
  destruct example_reopened as [fs' [[st r]|e|why]] eqn:E.
  - exists fs', st, r. split; [reflexivity|].
    eapply (proj2 (proj2 (proj2 (proj2 (offline_inspection (example_env 1700000000001)
              example_arguments example_directory)))) Written (Restarted Written) EndsInClose 4194304 fs' st r).
    + vm_compute. discriminate.
    + exact E.
    + by left.
    + reflexivity.
    + unfold example_world. rewrite E. reflexivity.
    + vm_compute. reflexivity.
  - exfalso. apply (f_equal (is_ok ∘ snd)) in E. vm_compute in E. discriminate E.
  - exfalso. apply (f_equal (is_ok ∘ snd)) in E. vm_compute in E. discriminate E.
Defined.

(** The header of the program says that inspection never changes what it
    inspects; verifying the artifacts moves a corrupt payload away. *)
Example offline_verify_quarantines :
  let payload := payloadPath "store" ArtifactStore.example_digest in
  let fs := <[payload := bytes_of_string "mtu 9001 on every spine port"]>
              (example_directory ∪ ArtifactStore.example_state.1) in
  let fs1 := (runOffline (example_env 0) example_arguments (mkControlRequest "verify-artifacts" []) fs).1 in
  fs1 !! payload = None ∧ fs1 !! (payload +:+ ".corrupt") ≠ None.
Proof. vm_compute. split; [reflexivity|discriminate]. Qed.
